(* ===== verification/_CoqProject ===== *)
-Q . S2P
Prelude.v
RustStd.v
Errors.v
Validate.v
Host.v
Target.v
Trailer.v
Framing.v
StatusCode.v
Head.v
FramingFacts.v
Buffer.v
BodyDecoder.v
BodyFacts.v
Compression.v
Message.v
DecoderCore.v
CoreFacts.v
CoreApi.v
HeadFacts.v
Stream.v
RequestDecoder.v
RequestFacts.v
RequestTheorems.v
ResponseDecoder.v
ResponseFacts.v
ResponseTheorems.v
BufferLimit.v
Limits.v
Encoder.v
EncoderFacts.v
Capacity.v
BodyEncoder.v
BodyRoundTrip.v
HeadRoundTrip.v
LengthRoundTrip.v
RequestRoundTrip.v
ResponseRoundTrip.v
Forward.v
RustStr.v
FieldList.v
Base64.v
Date.v
Uri.v
UriFacts.v
UriTheorems.v
Auth.v
AuthTheorems.v
Range.v
ETag.v
Conditional.v
ListFields.v
ContentLocation.v
ContentType.v
ContentDisposition.v
Cache.v
Cookie.v
Digest.v
Accept.v
Multipart.v
MultipartFacts.v
MultipartTheorems.v
MultipartRoundTrip.v
FieldTheorems.v
Io.v
Streaming.v
ReverseProxy.v
ProxyPool.v
ProxyRequest.v
ProxyResponse.v
F32.v
DateFormat.v
Site.v
Server.v
ServerSession.v
Uring.v
UringOrder.v
Decompressors.v
Client.v
ClientSession.v
