(* ===== verification/Prelude.v ===== *)
(** * shiguredo_http11: a verified model (root file)

    The crate [shiguredo_http11] ([src/src/]) is an HTTP/1.1 library without
    I/O: the caller feeds bytes it has received to a decoder and writes out the
    bytes an encoder returns.  Four example programs ([src/examples/]) put it
    between sockets: a client, a server, a server on io_uring and a reverse
    proxy.  This library models the crate and the programs in Rocq, function
    by function, and proves what makes them correct.  Paths below are relative
    to [src/src/], and to [src/examples/] where the programs are meant.

    ** The crate and its model

    A message goes through these parts; each is a file, or a few files of
    definitions ([X.v]), lemmas ([XFacts.v]) and results ([XTheorems.v],
    [XRoundTrip.v]).

    - Bytes, numbers, results, the state monad and the rules for loops: this file.  The
      parts of Rust's core library the code uses: [RustStd] (byte searches,
      splitting, integers, UTF-8) and [RustStr] (strings by character).
    - [error.rs], [limits.rs]: [Errors].  [validate.rs]: [Validate].
      [host.rs]: [Host].  [request_target.rs] and the validators of [decoder/body.rs]: [Target].
      [trailer.rs]: [Trailer].  [status_code.rs]: [StatusCode].
    - Framing ([decoder/body.rs]): [Framing] parses Transfer-Encoding and
      Content-Length; [FramingFacts] says what they mean without the loops.
    - Messages: [Head] ([decoder/head.rs], the trait [HttpHead] as a class) and
      [Message] ([request.rs], [response.rs]).
    - The decoders: [Buffer] ([decoder/buffer.rs]) and [BodyDecoder]
      ([decoder/body.rs], [decoder/phase.rs]) act on the buffer and the phase;
      [DecoderCore] is the record of the fields that [RequestDecoder<D>] and
      [ResponseDecoder<D>] have in common, with the methods that are the same code
      in both; [RequestDecoder] and [ResponseDecoder] add the start line, the
      head and the choice of the body.  [Compression] has the two traits as
      classes, with the documented contract of a decompressor as [DecompressorLaws], and
      [NoCompression] as an instance of it.
    - The encoders ([encoder.rs]): [Encoder] has [encode_request] and its kin,
      [BodyEncoder] the two encoders that hold a compressor.
    - URIs ([uri.rs]): [Uri].  Dates ([date.rs]): [Date].  [base64.rs]: [Base64].
    - Field types: [Auth] ([auth.rs]), [Range], [ETag], [Conditional], [ListFields]
      (Vary, Upgrade, Content-Encoding, Content-Language, Expect), [ContentLocation],
      [ContentType], [ContentDisposition], [Cache], [Cookie], [Digest], [Accept],
      each the file of its name under [src/src/].  [FieldList] is the loop most of them
      are, with the interfaces [Trimmer] and [Splitter] it needs.
    - [multipart.rs]: [Multipart].

    ** The programs and their model

    - [Io]: a socket is the list of what arrives on it - bytes, a failure, a
      silence - and what was written to it; the reads of a program cut the bytes.
      [Streaming] is what the programs share: a loop that takes a body with
      [peek_body], [consume_body] and [progress], in parts and between reads,
      collects what [decode] returns for all the bytes.
    - [http11_reverse_proxy/src/main.rs]: [ReverseProxy]; its pool of connections
      under steps of several tasks is in [ProxyPool], the request it makes in
      [ProxyRequest], the response it passes on in [ProxyResponse].
    - [http11_server/src/main.rs]: [Server] is a connection and [ServerSession] what
      it does; [Site] has the responses and the choice of a coding
      ([compressor.rs]), which the two servers share, with [F32] for its weights
      and [DateFormat] for the Date field.
    - [http11_server_io_uring/src/main.rs]: [Uring] has the state machine of a
      connection, [UringOrder] the kernel as a step relation that completes
      operations in any order.
    - [http11_client/src/]: [Decompressors] has the adapters of [decompressor.rs]
      with [Stream], the interface the client needs of a decompressor, [Client]
      the exchange ([transport.rs], [url.rs], [main.rs]), [ClientSession] what it
      returns.

    ** How state, errors and loops are modelled

    A method on [&mut self] that returns a [Result] is a function from the state
    to the state it leaves and its result, [st S E A]; the state written before an
    early return is kept.  Besides an error of the code ([Throw]) a run can end with [Panic] (an
    [unwrap] of [None], an index out of range, an arithmetic overflow that
    panics) or [Diverge] (a loop out of fuel); [orderly] excludes both.  Where the code loops, [loop] gets as fuel a measure of the state
    plus one or two (the length of the buffer, of the list of pieces, of the
    input; for the programs what is still to arrive on the socket), and [loop_rule] shows that it is enough: the measure
    goes down in each round.  [usize] and [u64] are 64 bits wide; sums are
    checked, saturated or wrapped as the code writes them.  The calls of the
    decoders are those of a release build.  The [debug_assert!]s of the streaming interface are
    boolean functions of the state and the arguments, and [asserting] in [CoreApi]
    puts one in front of a call: that is the call in a debug build.

    A decoder gets its bytes in two ways.  [decode_pieces] in [Stream] appends every
    piece with [feed_unchecked]; [fed_pieces] uses [feed], which refuses a piece
    that does not fit in [max_buffer_size].  [at_eof] adds the end of the connection
    ([mark_eof]).

    The programs write to sockets whose behaviour is a parameter, the class
    [Wire] of [Io]: a write or a flush fails, or not, depending on the connection
    and on what was written before.  On the network [calm] none fails; [cut_off] says
    what a run with failing writes has written: a prefix of what the calm run writes.

    ** What is shown

    - Safety and totality: in a release build no public call on a decoder panics
      or fails to return, from any state that calls, failed ones included, can
      reach; in a debug build a call panics exactly when it breaks the contract
      of the streaming interface that the assertions state
      ([request_decoder_never_panics], [response_decoder_never_panics]).
    - The receive buffer stays within its limit ([buffer_within_limit]); a
      slice written to is as good as [feed] ([receive_slice_is_feed] in [CoreApi]).
    - Cutting the input: decoders, multipart parser ([requests_any_segmentation],
      [responses_any_segmentation], [multipart_segmentation]); [Stream] has the
      interface of a decoder of a stream and the argument both share.  With [feed]
      the outcome is the same, or a prefix of it that ends at the piece which does
      not fit.
    - Framing: after the head of a request, of whatever method, the body is
      framed exactly as the headers say ([framing_exact]), and the trailers of a
      message have names that a Trailer header of that message lists
      ([trailers_are_declared]).
    - Round trips of messages, alone, one after the other and in chunks, with
      anything behind them in the buffer ([request_roundtrip] and its kin;
      [pipelined_messages_roundtrip]).
    - The decoder and the encoder together: a message that came out of the decoder
      goes through the encoder to the next decoder unchanged ([Forward]:
      [forwarded_request_unchanged], [forwarded_response_unchanged]).
    - What a decoder hands out is valid, within the limits, and handed out as
      soon as it is there ([decoded_messages_valid], [decoded_messages_within_limits],
      [decode_waits_for_input]).
    - The reverse proxy sends on the request that [decode] returns and passes
      back the body of the response, or stops where its reader can tell
      ([proxied_request], [proxied_response], [announced_length_refused]); its pool
      never hands out a connection twice, or one too old ([pool_invariant]).
      Where a write fails, it has written a prefix of that.
    - The server writes the answers to the requests that [decode] returns for
      the bytes it received, in their order ([server_session]), or a prefix of
      them where a write fails, and a client reads them ([server_answer_received]);
      so does the server on io_uring, in whatever order the kernel completes
      ([uring_answers_in_order]), unless the TLS library has no session for a
      connection it accepts, which is a panic in the source; the Date
      they send is the date ([http_date_exact]).
    - The client returns the response that [decode] returns, decompressed
      ([client_reads_response]).
    - URIs: parsing inverts the recomposition of RFC 3986, on components that a
      grammar written without the parser accepts ([good_authority] in [UriTheorems]);
      resolution refines the algorithm of Section 5.2, normalization is idempotent.
    - Multipart: the parser refines a reference without positions
      ([MultipartFacts]); what the builder writes is read back.
    - Field types: what a parser accepts, its writer gives back ([FieldTheorems],
      [auth_roundtrip], [dates_exact], [base64_decode_exact]), and the semantics
      of ranges and of conditional requests.

    Lemmas of interest beside these: what the encoders reserve is enough
    ([capacity_suffices] in [Capacity]), the Host field is checked as RFC 9110
    has it ([host_rule_exact] in [RequestTheorems]), the gzip adapter keeps the
    promise of a decompressor ([gzip_stream] in [Decompressors]).

    ** Not modelled

    - [Debug] output and the texts of [EncodeError], which print strings with [{:?}].
    - Accessors that return a field: the field of the record stands for them.
      [QValue::as_f32], a division of floats.
    - [Vec::with_capacity]: capacities have no observable effect; the estimates
      themselves are modelled ([Capacity]).
    - Compressors and decompressors of other crates: they are parameters, of the
      crate under [DecompressorLaws], of the client under [GzipLaws].  Nothing is
      assumed of brotli and zstd, and nothing is shown of a response coded with them.
    - Of the programs: TLS, listeners and connecting, command lines, logs and
      their times.
    - The fuzz targets and the property tests of the repository, which drive the
      crate with random input. *)
From Stdlib Require Export Strings.String Strings.Byte ZArith Lia ZifyBool.
From stdpp Require Export base tactics list numbers strings option.

#[global] Open Scope N_scope.

(** ** Bytes and strings

    [u8] is [Byte.byte]; a [&[u8]] or [Vec<u8>] is a [list byte]; a [&str] or
    [String] is the list of its UTF-8 bytes, which is what Rust stores. *)

Abbreviation byte := Byte.byte.
Abbreviation bytes := (list Byte.byte).
Abbreviation str := (list Byte.byte).

Definition b2n : byte -> N := Byte.to_N.

(** [n as u8]: truncation to the low eight bits. *)
Definition n2b (n : N) : byte :=
  match Byte.of_N (n mod 256) with Some b => b | None => "000"%byte end.

(** The bytes of a string literal ([b"..."] or the bytes of [" ... "]). *)
Definition B (s : string) : bytes := String.list_byte_of_string s.

(** [slice.len()] as the machine sees it. *)
Definition blen {A} (l : list A) : N := N.of_nat (length l).

Declare Scope bytes_scope.
Delimit Scope bytes_scope with bytes.
#[global] Open Scope bytes_scope.
Notation "a =b b" := (Byte.eqb a b) (at level 70, no associativity) : bytes_scope.
Notation "a <>b b" := (negb (Byte.eqb a b)) (at level 70, no associativity) : bytes_scope.
(** [matches!(b, lo..=hi)] on the numeric value. *)
Definition within (lo hi : N) (b : byte) : bool := (lo <=? b2n b) && (b2n b <=? hi).

#[export] Instance byte_eq_dec : EqDecision byte := Byte.byte_eq_dec.

(** Structural equality of byte strings as a boolean. *)
Definition beqs (a b : bytes) : bool := bool_decide (a = b).
Notation "a =s b" := (beqs a b) (at level 70, no associativity) : bytes_scope.

(** ** Machine integers

    The model fixes the 64-bit target: [usize] and [u64] range over
    [0 .. 2^64 - 1], so [len as u64] is the identity. *)

Definition u16_MAX : N := 65535.
Definition u64_MAX : N := 18446744073709551615.
Definition usize_MAX : N := 18446744073709551615.

Definition checked_add (a b : N) : option N :=
  if a + b <=? usize_MAX then Some (a + b) else None.

Definition saturating_sub (a b : N) : N := a - b.

(** ** Results *)

Inductive result (E A : Type) : Type :=
  | Ok (a : A)
  | Err (e : E).
Arguments Ok {E A} a.
Arguments Err {E A} e.

#[export] Instance result_ret E : MRet (result E) := fun _ a => Ok a.
#[export] Instance result_bind E : MBind (result E) :=
  fun _ _ f m => match m with Ok a => f a | Err e => Err e end.

Lemma Ok_inj {E A} (a b : A) : @Ok E A a = Ok b -> a = b.
Proof. congruence. Qed.

Definition is_ok {E A} (r : result E A) : bool :=
  match r with Ok _ => true | Err _ => false end.
Definition is_err {E A} (r : result E A) : bool := negb (is_ok r).

(** [o.ok_or(e)] and [r.map_err(f)]. *)
Definition ok_or {E A} (e : E) (o : option A) : result E A :=
  match o with Some a => Ok a | None => Err e end.
Definition map_err {E F A} (f : E -> F) (r : result E A) : result F A :=
  match r with Ok a => Ok a | Err e => Err (f e) end.

(** ** Stateful computations

    A method on [&mut self] that returns [Result<A, E>] is a function from the
    state to the state it leaves and its result: the state written before an
    early [return Err(..)] is kept, as in the code.  A run can also end
    abnormally: [Panic] (an [unwrap] of [None], an index out of range) and
    [Diverge] (a loop that used up the fuel given to it); theorems show that
    neither is reached. *)

Inductive exn (E : Type) : Type :=
  | Throw (e : E)
  | Panic
  | Diverge.
Arguments Throw {E} e.
Arguments Panic {E}.
Arguments Diverge {E}.

Definition st (S E A : Type) : Type := S -> S * result (exn E) A.

#[export] Instance st_ret S E : MRet (st S E) := fun _ a s => (s, Ok a).
#[export] Instance st_bind S E : MBind (st S E) :=
  fun _ _ f m s =>
    match m s with
    | (s', Ok a) => f a s'
    | (s', Err e) => (s', Err e)
    end.

Section StateOps.
Context {S E : Type}.

Definition get : st S E S := fun s => (s, Ok s).
Definition gets {A} (f : S -> A) : st S E A := fun s => (s, Ok (f s)).
Definition modify (f : S -> S) : st S E unit := fun s => (f s, Ok tt).
Definition throw {A} (e : E) : st S E A := fun s => (s, Err (Throw e)).
Definition panic {A} : st S E A := fun s => (s, Err Panic).
(** [r?] for a pure fallible call. *)
Definition lift {A} (r : result E A) : st S E A :=
  fun s => (s, map_err Throw r).
(** [o.unwrap()] and [v[i]]. *)
Definition unwrap {A} (o : option A) : st S E A :=
  fun s => match o with Some a => (s, Ok a) | None => (s, Err Panic) end.
End StateOps.

(** One round of a [loop { .. }]: go round again, or leave it with a value. *)
Inductive flow (A : Type) : Type :=
  | Continue
  | Break (a : A).
Arguments Continue {A}.
Arguments Break {A} a.

Fixpoint loop {S E A} (fuel : nat) (body : st S E (flow A)) : st S E A :=
  fun s =>
    match fuel with
    | O => (s, Err Diverge)
    | Datatypes.S fuel' =>
        match body s with
        | (s', Ok Continue) => loop fuel' body s'
        | (s', Ok (Break a)) => (s', Ok a)
        | (s', Err e) => (s', Err e)
        end
    end.

(** A run is orderly when it neither panics nor runs out of fuel. *)
Definition orderly {E A} (r : result (exn E) A) : Prop :=
  match r with Ok _ | Err (Throw _) => True | Err _ => False end.

(** ** Shared lemmas *)

(** *** Bytes: a boolean fact about one byte is checked on all 256. *)

Definition all_bytes : list byte := map (fun i => n2b (N.of_nat i)) (seq 0 256).

Lemma b2n_inj a b : b2n a = b2n b -> a = b.
Proof.
  intros H. pose proof (Byte.of_to_N a) as Ha. pose proof (Byte.of_to_N b) as Hb.
  unfold b2n in H. congruence.
Qed.

Lemma b2n_lt b : b2n b < 256.
Proof. pose proof (Byte.to_N_bounded b). unfold b2n. lia. Qed.

Lemma b2n_n2b n : n < 256 -> b2n (n2b n) = n.
Proof.
  intros Hn. unfold n2b, b2n. rewrite N.mod_small by lia.
  destruct (Byte.of_N n) eqn:E.
  - by apply Byte.to_of_N in E.
  - apply Byte.of_N_None_iff in E. lia.
Qed.

Lemma n2b_b2n b : n2b (b2n b) = b.
Proof. apply b2n_inj, b2n_n2b, b2n_lt. Qed.

Lemma elem_of_all_bytes b : b ∈ all_bytes.
Proof.
  unfold all_bytes. apply list_elem_of_fmap. exists (N.to_nat (b2n b)). split.
  - by rewrite N2Nat.id, n2b_b2n.
  - apply elem_of_seq. pose proof (b2n_lt b). lia.
Qed.

(** The reflection principle behind [byte_solve]. *)
Lemma byte_forall (P : byte -> bool) :
  forallb P all_bytes = true -> forall b, P b = true.
Proof. intros H b. rewrite forallb_forall in H. apply H, list_elem_of_In, elem_of_all_bytes. Qed.

Lemma byte_forall_impl (P Q : byte -> bool) :
  forallb (fun b => implb (P b) (Q b)) all_bytes = true ->
  forall b, P b = true -> Q b = true.
Proof.
  intros H b HP. apply byte_forall with (b := b) in H. by rewrite HP in H.
Qed.

Lemma byte_eqb_eq a b : (a =b b) = true <-> a = b.
Proof. split; [apply Byte.byte_dec_bl | apply Byte.byte_dec_lb]. Qed.

Lemma byte_eqb_refl a : (a =b a) = true.
Proof. by apply byte_eqb_eq. Qed.

Lemma byte_eqb_neq a b : (a =b b) = false <-> a <> b.
Proof.
  destruct (a =b b) eqn:E; split; try congruence.
  - apply byte_eqb_eq in E. congruence.
  - intros _ ->. by rewrite byte_eqb_refl in E.
Qed.

Lemma beqs_eq a b : (a =s b) = true <-> a = b.
Proof. apply bool_decide_eq_true. Qed.

Lemma beqs_refl a : (a =s a) = true.
Proof. by apply beqs_eq. Qed.

Lemma beqs_neq a b : (a =s b) = false <-> a <> b.
Proof. apply bool_decide_eq_false. Qed.

(** [byte_solve b] proves a goal [P b = true -> .. -> Q b = true] (or a
    negation, or an equation between booleans) about the variable [b] by
    computation on every byte. *)
Ltac byte_solve b :=
  repeat match goal with H : context [b] |- _ => revert H end;
  destruct b; vm_compute; first [ reflexivity | discriminate | tauto | congruence | intuition congruence ].

(** *** Lists *)

Lemma blen_nil {A} : @blen A [] = 0.
Proof. done. Qed.

Lemma blen_cons {A} (x : A) l : blen (x :: l) = blen l + 1.
Proof. unfold blen. simpl. lia. Qed.

Lemma blen_app {A} (l k : list A) : blen (l ++ k) = blen l + blen k.
Proof. unfold blen. rewrite length_app. lia. Qed.

Lemma blen_0 {A} (l : list A) : blen l = 0 -> l = [].
Proof. destruct l; [done | unfold blen; simpl; lia]. Qed.

Lemma blen_drop {A} n (l : list A) : blen (drop n l) = blen l - N.of_nat n.
Proof. unfold blen. rewrite length_drop. lia. Qed.

Lemma blen_take {A} n (l : list A) : blen (take n l) = N.min (N.of_nat n) (blen l).
Proof. unfold blen. rewrite length_take. lia. Qed.

Lemma blen_replicate {A} n (x : A) : blen (replicate n x) = N.of_nat n.
Proof. unfold blen. by rewrite length_replicate. Qed.

Lemma checked_add_eq a b : checked_add a b = if usize_MAX <? a + b then None else Some (a + b).
Proof. unfold checked_add. rewrite N.ltb_antisym. by destruct (_ <=? _). Qed.

Lemma checked_add_Some a b : a + b <= usize_MAX -> checked_add a b = Some (a + b).
Proof. intros H%N.leb_le. unfold checked_add. by rewrite H. Qed.

Create HintDb http11.
Create Rewrite HintDb http11_rw.
#[export] Hint Rewrite @blen_nil @blen_cons @blen_app @blen_drop @blen_take @blen_replicate : http11_rw.

Lemma forallb_Forall {A} (p : A -> bool) l :
  forallb p l = true <-> Forall (fun x => p x = true) l.
Proof. by rewrite forallb_forall, List.Forall_forall. Qed.

Lemma forallb_impl {A} (p q : A -> bool) l :
  (forall x, p x = true -> q x = true) -> forallb p l = true -> forallb q l = true.
Proof. intros H. rewrite !forallb_Forall. intros Hl. eapply Forall_impl; [exact H | exact Hl]. Qed.

Lemma forallb_ext_eq {A} (p q : A -> bool) l :
  (forall x, p x = q x) -> forallb p l = forallb q l.
Proof. intros H. induction l as [|x l IH]; simpl; [done | by rewrite H, IH]. Qed.

Lemma existsb_negb_forallb {A} (p : A -> bool) l :
  existsb p l = negb (forallb (fun x => negb (p x)) l).
Proof. induction l as [|x l IH]; simpl; [done|]. rewrite IH. by destruct (p x). Qed.

(** *** Rules for [loop] *)

Section LoopRules.
Context {S E A : Type} (body : st S E (flow A)).

(** The total rule: rounds that go on keep [Inv] and make [m] smaller, so
    [m s + 1] rounds suffice, and [Post] holds where the loop ends. *)
Lemma loop_rule (Inv : S -> Prop) (Post : S -> result (exn E) A -> Prop) (m : S -> nat) fuel s :
  (forall s, Inv s ->
    match body s with
    | (s', Ok Continue) => Inv s' /\ (m s' < m s)%nat
    | (s', Ok (Break a)) => Post s' (Ok a)
    | (s', Err e) => Post s' (Err e)
    end) ->
  Inv s -> (m s < fuel)%nat -> Post (fst (loop fuel body s)) (snd (loop fuel body s)).
Proof.
  intros Hr. revert s. induction fuel as [|fuel IH]; intros s Hi Hm; [lia|]. cbn [loop].
  specialize (Hr s Hi). destruct (body s) as [s' [[|a]|e]]; try done.
  destruct Hr. apply IH; [done | lia].
Qed.
End LoopRules.

(** [st_simpl] runs the monadic glue of a stateful definition. *)
Ltac st_simpl :=
  cbv [mbind mret st_bind st_ret modify get gets throw panic lift unwrap map_err] in *;
  cbn beta iota zeta in *.

(** *** Adding input at the end

    [ext] adds bytes to the end of the buffer in a state.  A round that looks
    at the front of the buffer either computes the same with more bytes behind
    it, or stops short of input ([short]) and changes nothing, or takes in a
    part of what is there and leaves the rest to the rounds after it. *)
Section Extension.
Context {S E A : Type} (round : st S E (flow A)) (short : S -> A -> Prop)
  (Inv : S -> Prop) (m : S -> nat) (ext : S -> S).

Definition round_ext (s : S) : Prop :=
  match round s with
  | (s', Ok Continue) =>
      Inv s' /\ (m s' < m s)%nat /\
      (round (ext s) = (ext s', Ok Continue) \/ round (ext s) = round (ext s'))
  | (s', Ok (Break a)) =>
      (round (ext s) = (ext s', Ok (Break a)) /\ ~ short s' a) \/ (short s' a /\ s' = s)
  | (s', Err e) => round (ext s) = (ext s', Err e)
  end.

Hypothesis ext_inv : forall s, Inv s -> Inv (ext s).
Hypothesis round_ext_all : forall s, Inv s -> round_ext s.

Lemma loop_enough f f' s :
  Inv s -> (m s < f)%nat -> (m s < f')%nat -> loop f round s = loop f' round s.
Proof.
  revert f' s. induction f as [|f IH]; intros f' s Hi H1 H2; [lia|].
  destruct f' as [|f']; [lia|]. cbn [loop]. pose proof (round_ext_all s Hi) as Hr.
  unfold round_ext in Hr. destruct (round s) as [s' [[|a]|e]]; try done.
  destruct Hr as (Hi' & Hm & _). apply IH; [done | lia | lia].
Qed.

Lemma loop_extension fuel s s' r f :
  Inv s -> (m s < fuel)%nat -> loop fuel round s = (s', r) -> (m (ext s) < f)%nat ->
  (loop f round (ext s) = (ext s', r) /\ forall a, r = Ok a -> ~ short s' a) \/
  exists a, r = Ok a /\ short s' a /\ Inv s' /\
    forall f', (m (ext s') < f')%nat -> loop f round (ext s) = loop f' round (ext s').
Proof.
  revert s s' r f. induction fuel as [|fuel IH]; intros s s' r f Hi Hfuel; [lia|]. cbn [loop].
  pose proof (round_ext_all s Hi) as Hr. unfold round_ext in Hr.
  destruct (round s) as [s1 [[|a]|e]] eqn:Hrs.
  - destruct Hr as (Hi1 & Hm & Hr). intros Hl Hf.
    assert (Hs : loop f round (ext s) = loop (Datatypes.S (m (ext s1))) round (ext s1)).
    { pose proof (ext_inv _ Hi) as Hie. pose proof (ext_inv _ Hi1) as Hie1.
      destruct Hr as [Hc|Hc].
      - destruct f as [|f]; [lia|]. pose proof (round_ext_all _ Hie) as Hre. unfold round_ext in Hre.
        rewrite Hc in Hre. transitivity (loop f round (ext s1)); [by cbn [loop]; rewrite Hc|].
        apply loop_enough; [done | lia | lia].
      - set (g := Datatypes.S (Nat.max (m (ext s)) (m (ext s1)))).
        rewrite (loop_enough f g) by (done || lia).
        rewrite (loop_enough (Datatypes.S (m (ext s1))) g) by (done || lia).
        unfold g. cbn [loop]. by rewrite Hc. }
    rewrite Hs. apply (IH s1 s' r); [done | lia | done | lia].
  - intros [= <- <-] Hf. destruct Hr as [[Hr Hn]|[Hsh ->]].
    + left. split; [|by intros ? [= <-]]. destruct f as [|f]; [lia|]. cbn [loop]. by rewrite Hr.
    + right. exists a. repeat split; [done | done|]. intros f' Hf'. by apply loop_enough; [apply ext_inv | |].
  - intros [= <- <-] Hf. left. split; [|done]. destruct f as [|f]; [lia|]. cbn [loop]. by rewrite Hr.
Qed.
End Extension.
