(* ===== verification/RustStd.v ===== *)
(** * The parts of Rust's core library the program uses

    ASCII predicates, searching and splitting of strings, integer parsing and
    printing, and UTF-8 validation, as the standard library documents them.
    The functions work on the UTF-8 bytes of a string.  The code's
    [s.chars().all(p)] for a predicate [p] that treats every non-ASCII
    character alike is written [forallb] over the bytes: [chars_forallb]
    shows that the two agree on valid UTF-8. *)
From S2P Require Import Prelude.

(** [o.is_some()]. *)
Definition is_some {A} (o : option A) : bool := match o with Some _ => true | None => false end.

(** ** ASCII *)

Definition is_ascii_digit (b : byte) : bool := within 48 57 b.
Definition is_ascii_uppercase (b : byte) : bool := within 65 90 b.
Definition is_ascii_lowercase (b : byte) : bool := within 97 122 b.
Definition is_ascii_alphabetic (b : byte) : bool :=
  is_ascii_uppercase b || is_ascii_lowercase b.
Definition is_ascii_alphanumeric (b : byte) : bool :=
  is_ascii_alphabetic b || is_ascii_digit b.
Definition is_ascii_hexdigit (b : byte) : bool :=
  is_ascii_digit b || within 65 70 b || within 97 102 b.
Definition is_ascii (b : byte) : bool := b2n b <? 128.

Definition to_ascii_lowercase_byte (b : byte) : byte :=
  if is_ascii_uppercase b then n2b (b2n b + 32) else b.
Definition to_ascii_lowercase (s : bytes) : bytes := map to_ascii_lowercase_byte s.

Definition eq_ignore_ascii_case (a b : bytes) : bool :=
  to_ascii_lowercase a =s to_ascii_lowercase b.

(** ** Searching and splitting *)

Section Search.
Context {A : Type}.

(** [iter().position(p)] and [iter().rposition(p)]. *)
Fixpoint position (p : A -> bool) (l : list A) : option nat :=
  match l with
  | [] => None
  | x :: l' => if p x then Some O else S <$> position p l'
  end.

Fixpoint rposition (p : A -> bool) (l : list A) : option nat :=
  match l with
  | [] => None
  | x :: l' =>
      match rposition p l' with
      | Some i => Some (S i)
      | None => if p x then Some O else None
      end
  end.

Fixpoint take_while (p : A -> bool) (l : list A) : list A :=
  match l with
  | [] => []
  | x :: l' => if p x then x :: take_while p l' else []
  end.

Fixpoint skip_while (p : A -> bool) (l : list A) : list A :=
  match l with
  | [] => []
  | x :: l' => if p x then skip_while p l' else l
  end.
End Search.

(** [s.find(c)], [s.rfind(c)], [s.contains(c)] for an ASCII [c]. *)
Definition find_byte (c : byte) (s : str) : option nat := position (fun b => b =b c) s.
Definition rfind_byte (c : byte) (s : str) : option nat := rposition (fun b => b =b c) s.
Definition contains_byte (c : byte) (s : str) : bool := existsb (fun b => b =b c) s.

Fixpoint strip_prefix (p s : bytes) : option bytes :=
  match p, s with
  | [], _ => Some s
  | a :: p', b :: s' => if a =b b then strip_prefix p' s' else None
  | _ :: _, [] => None
  end.

Definition starts_with (p s : bytes) : bool :=
  match strip_prefix p s with Some _ => true | None => false end.

(** [s.find(pat)] and [s.contains(pat)] for a string [pat]. *)
Fixpoint find_sub (p s : bytes) : option nat :=
  if starts_with p s then Some O
  else match s with [] => None | _ :: s' => S <$> find_sub p s' end.
Definition contains_sub (p s : bytes) : bool :=
  match find_sub p s with Some _ => true | None => false end.

(** [s.split(c)]: one piece more than there are separators. *)
Fixpoint split (c : byte) (s : str) : list str :=
  match s with
  | [] => [[]]
  | b :: s' =>
      if b =b c then [] :: split c s'
      else match split c s' with
           | p :: ps => (b :: p) :: ps
           | [] => [[b]]
           end
  end.

(** [s.split_once(c)] and [s.rsplit_once(c)]. *)
Definition split_once (c : byte) (s : str) : option (str * str) :=
  i ← find_byte c s; Some (take i s, drop (S i) s).
Definition rsplit_once (c : byte) (s : str) : option (str * str) :=
  i ← rfind_byte c s; Some (take i s, drop (S i) s).

(** [s.splitn(n, c)]: at most [n] pieces, the last one holding the rest. *)
Fixpoint splitn (n : nat) (c : byte) (s : str) : list str :=
  match n with
  | O => []
  | S O => [s]
  | S n' =>
      match split_once c s with
      | Some (p, rest) => p :: splitn n' c rest
      | None => [s]
      end
  end.

(** [parts.join(sep)]. *)
Fixpoint join (sep : bytes) (ps : list bytes) : bytes :=
  match ps with
  | [] => []
  | [p] => p
  | p :: ps' => p ++ sep ++ join sep ps'
  end.

(** ** Integers *)

Definition digit_value (radix : N) (b : byte) : option N :=
  d ← (if is_ascii_digit b then Some (b2n b - 48)
       else if is_ascii_lowercase b then Some (b2n b - 87)
       else if is_ascii_uppercase b then Some (b2n b - 55)
       else None);
  if d <? radix then Some d else None.

Fixpoint parse_digits (radix max acc : N) (s : bytes) : option N :=
  match s with
  | [] => Some acc
  | b :: s' =>
      d ← digit_value radix b;
      let acc' := acc * radix + d in
      if acc' <=? max then parse_digits radix max acc' s' else None
  end.

(** [uN::from_str_radix(s, radix)] for an unsigned type of maximum [max]: one
    leading plus sign is accepted, the empty string and a lone sign are not;
    [s.parse::<uN>()] is the radix 10 case. *)
Definition from_str_radix (radix max : N) (s : str) : option N :=
  match s with
  | [] => None
  | b :: s' =>
      if b =b "+" then match s' with [] => None | _ => parse_digits radix max 0 s' end
      else parse_digits radix max 0 s
  end.

Definition parse_u16 (s : str) : option N := from_str_radix 10 u16_MAX s.
Definition parse_u64 (s : str) : option N := from_str_radix 10 u64_MAX s.

(** The digits of [n], most significant first. *)
Definition digit_char (d : N) : byte := if d <? 10 then n2b (48 + d) else n2b (87 + d).

Fixpoint digits_onto (fuel : nat) (radix n : N) (acc : bytes) : bytes :=
  match fuel with
  | O => acc
  | S f =>
      let acc' := digit_char (n mod radix) :: acc in
      if n <? radix then acc' else digits_onto f radix (n / radix) acc'
  end.

(** [n.to_string()]. *)
Definition show_dec (n : N) : str := digits_onto (S (N.size_nat n)) 10 n [].

(** [format!("{:02X}", b)]. *)
Definition hex_upper (d : N) : byte := if d <? 10 then n2b (48 + d) else n2b (55 + d).
Definition show_02X (b : byte) : str := [hex_upper (b2n b / 16); hex_upper (b2n b mod 16)].

(** ** UTF-8 *)

(** [Utf8Error]: [valid_up_to] and [error_len]. *)
Record Utf8Error := { valid_up_to : N; error_len : option N }.

Definition is_cont (b : byte) : bool := within 128 191 b.

(** The second byte of a three-byte and of a four-byte sequence. *)
Definition utf8_second3 (b0 b1 : byte) : bool :=
  ((b2n b0 =? 224) && within 160 191 b1)
  || (within 225 236 b0 && within 128 191 b1)
  || ((b2n b0 =? 237) && within 128 159 b1)
  || (within 238 239 b0 && within 128 191 b1).
Definition utf8_second4 (b0 b1 : byte) : bool :=
  ((b2n b0 =? 240) && within 144 191 b1)
  || (within 241 243 b0 && within 128 191 b1)
  || ((b2n b0 =? 244) && within 128 143 b1).

(** The first ill-formed sequence of [s], whose first byte has index [i]. *)
Fixpoint run_utf8_validation (i : N) (s : bytes) : option Utf8Error :=
  let bad n := Some {| valid_up_to := i; error_len := n |} in
  match s with
  | [] => None
  | b0 :: s1 =>
      if is_ascii b0 then run_utf8_validation (i + 1) s1
      else if within 194 223 b0 then
        match s1 with
        | [] => bad None
        | b1 :: s2 => if is_cont b1 then run_utf8_validation (i + 2) s2 else bad (Some 1)
        end
      else if within 224 239 b0 then
        match s1 with
        | [] => bad None
        | b1 :: s2 =>
            if utf8_second3 b0 b1 then
              match s2 with
              | [] => bad None
              | b2 :: s3 => if is_cont b2 then run_utf8_validation (i + 3) s3 else bad (Some 2)
              end
            else bad (Some 1)
        end
      else if within 240 244 b0 then
        match s1 with
        | [] => bad None
        | b1 :: s2 =>
            if utf8_second4 b0 b1 then
              match s2 with
              | [] => bad None
              | b2 :: s3 =>
                  if is_cont b2 then
                    match s3 with
                    | [] => bad None
                    | b3 :: s4 =>
                        if is_cont b3 then run_utf8_validation (i + 4) s4 else bad (Some 3)
                    end
                  else bad (Some 2)
              end
            else bad (Some 1)
        end
      else bad (Some 1)
  end.

(** [String::from_utf8(bytes)] and [core::str::from_utf8(bytes)]. *)
Definition from_utf8 (s : bytes) : result Utf8Error str :=
  match run_utf8_validation 0 s with None => Ok s | Some e => Err e end.

Definition utf8_valid (s : bytes) : bool := is_ok (from_utf8 s).

(** [impl Display for Utf8Error]. *)
Definition show_utf8_error (e : Utf8Error) : str :=
  match error_len e with
  | Some n =>
      B "invalid utf-8 sequence of " ++ show_dec n ++ B " bytes from index "
      ++ show_dec (valid_up_to e)
  | None => B "incomplete utf-8 byte sequence from index " ++ show_dec (valid_up_to e)
  end.

(** [String::from_utf8_lossy(bytes)]: each ill-formed sequence becomes U+FFFD. *)
Definition replacement : str := ["239"%byte; "191"%byte; "189"%byte].

Fixpoint lossy (fuel : nat) (s : bytes) : str :=
  match fuel with
  | O => []
  | S f =>
      match run_utf8_validation 0 s with
      | None => s
      | Some {| valid_up_to := v; error_len := None |} => take (N.to_nat v) s ++ replacement
      | Some {| valid_up_to := v; error_len := Some n |} =>
          take (N.to_nat v) s ++ replacement ++ lossy f (drop (N.to_nat (v + n)) s)
      end
  end.
Definition from_utf8_lossy (s : bytes) : str := lossy (S (length s)) s.

(** [s.chars()]: the scalar values of a valid UTF-8 string. *)
Fixpoint chars (s : str) : list N :=
  match s with
  | [] => []
  | b0 :: s1 =>
      let n0 := b2n b0 in
      if n0 <? 128 then n0 :: chars s1
      else if n0 <? 224 then
        match s1 with
        | b1 :: s2 => ((n0 - 192) * 64 + (b2n b1 - 128)) :: chars s2
        | [] => []
        end
      else if n0 <? 240 then
        match s1 with
        | b1 :: b2 :: s3 =>
            ((n0 - 224) * 4096 + (b2n b1 - 128) * 64 + (b2n b2 - 128)) :: chars s3
        | _ => []
        end
      else
        match s1 with
        | b1 :: b2 :: b3 :: s4 =>
            ((n0 - 240) * 262144 + (b2n b1 - 128) * 4096 + (b2n b2 - 128) * 64
             + (b2n b3 - 128)) :: chars s4
        | _ => []
        end
  end.

(** [char::is_whitespace]: the Unicode property White_Space. *)
Definition is_whitespace (c : N) : bool :=
  ((9 <=? c) && (c <=? 13)) || (c =? 32) || (c =? 133) || (c =? 160) || (c =? 5760)
  || ((8192 <=? c) && (c <=? 8202)) || (c =? 8232) || (c =? 8233) || (c =? 8239)
  || (c =? 8287) || (c =? 12288).

(** [s != s.trim()]: the first or the last character is white space. *)
Definition trim_changes (s : str) : bool :=
  match chars s with
  | [] => false
  | c :: cs => is_whitespace c || is_whitespace (List.last (c :: cs) 0)
  end.

Arguments is_ascii_digit : simpl never.
Arguments is_ascii_alphabetic : simpl never.
Arguments is_ascii_alphanumeric : simpl never.
Arguments is_ascii_hexdigit : simpl never.
Arguments to_ascii_lowercase_byte : simpl never.

(** ** Lemmas: searching and splitting *)

Section SearchLemmas.
Context {A : Type} (p : A -> bool).

Lemma position_Some l i :
  position p l = Some i <->
  exists x, l !! i = Some x /\ p x = true /\ forallb (fun y => negb (p y)) (take i l) = true.
Proof.
  revert i. induction l as [|y l IH]; intros i; simpl.
  - split; [done | by intros (x & ? & _)].
  - destruct (p y) eqn:Hy.
    + split; [intros [= <-]; by exists y|].
      destruct i as [|i]; [done|]. simpl. rewrite Hy. by intros (x & _ & _ & ?).
    + destruct i as [|i]; simpl.
      * split; [by destruct (position p l)|]. intros (x & [= ->] & ? & _). congruence.
      * rewrite Hy. simpl. rewrite <- IH. destruct (position p l); simpl; naive_solver.
Qed.

Lemma position_None l :
  position p l = None <-> forallb (fun y => negb (p y)) l = true.
Proof.
  induction l as [|y l IH]; simpl; [done|]. destruct (p y) eqn:Hy; simpl; [done|].
  rewrite <- IH. destruct (position p l); naive_solver.
Qed.

Lemma position_lt l i : position p l = Some i -> (i < length l)%nat.
Proof. intros (x & Hx & _)%position_Some. by apply lookup_lt_Some in Hx. Qed.

Lemma position_app l k :
  position p (l ++ k) =
  match position p l with
  | Some i => Some i
  | None => Nat.add (length l) <$> position p k
  end.
Proof.
  induction l as [|y l IH]; simpl; [by destruct (position p k)|].
  destruct (p y); [done|]. rewrite IH. destruct (position p l); [done|].
  by destruct (position p k).
Qed.

Lemma rposition_None l :
  rposition p l = None <-> forallb (fun y => negb (p y)) l = true.
Proof.
  induction l as [|y l IH]; simpl; [done|]. destruct (p y) eqn:Hy; simpl.
  - by destruct (rposition p l).
  - rewrite <- IH. destruct (rposition p l); naive_solver.
Qed.

Lemma rposition_app l k :
  rposition p (l ++ k) =
  match rposition p k with
  | Some i => Some (length l + i)%nat
  | None => rposition p l
  end.
Proof.
  induction l as [|y l IH]; simpl; [by destruct (rposition p k)|].
  rewrite IH. by destruct (rposition p k).
Qed.

Lemma rposition_lt l i : rposition p l = Some i -> (i < length l)%nat.
Proof.
  revert i. induction l as [|y l IH]; intros i; simpl; [done|].
  destruct (rposition p l) as [j|]; [intros [= <-]; specialize (IH j eq_refl); lia|].
  destruct (p y); [intros [= <-]; lia | done].
Qed.

Lemma skip_while_head l y k : skip_while p l = y :: k -> p y = false.
Proof. induction l as [|z l IH]; simpl; [done|]. destruct (p z) eqn:E; [done|]. congruence. Qed.

Lemma take_skip_while l : take_while p l ++ skip_while p l = l.
Proof. induction l as [|y l IH]; simpl; [done|]. destruct (p y); simpl; congruence. Qed.

Lemma skip_while_length l : (length (skip_while p l) <= length l)%nat.
Proof. induction l as [|y l IH]; simpl; [done|]. destruct (p y); simpl; lia. Qed.

Lemma take_while_forallb l : forallb p (take_while p l) = true.
Proof. induction l as [|y l IH]; simpl; [done|]. destruct (p y) eqn:E; simpl; [by rewrite E|done]. Qed.

Lemma take_while_app l y k :
  forallb p l = true -> p y = false -> take_while p (l ++ y :: k) = l.
Proof.
  induction l as [|z l IH]; simpl; intros Hl Hy; [by rewrite Hy|].
  destruct (p z); [simpl in *; by rewrite IH | done].
Qed.

Lemma skip_while_app l y k :
  forallb p l = true -> p y = false -> skip_while p (l ++ y :: k) = y :: k.
Proof.
  induction l as [|z l IH]; simpl; intros Hl Hy; [by rewrite Hy|].
  destruct (p z); [simpl in *; by rewrite IH | done].
Qed.
End SearchLemmas.

(** A byte string with no [c] before [c]: where the search stops. *)
Lemma find_byte_app c a r :
  contains_byte c a = false -> find_byte c (a ++ c :: r) = Some (length a).
Proof.
  unfold find_byte, contains_byte. rewrite existsb_negb_forallb, negb_false_iff.
  intros H%position_None. rewrite position_app, H. simpl. rewrite byte_eqb_refl. simpl.
  by rewrite Nat.add_0_r.
Qed.

Lemma drop_past {A} (a : list A) c r : drop (S (length a)) (a ++ c :: r) = r.
Proof. induction a as [|x a IH]; [done | exact IH]. Qed.

Lemma split_once_app c a r :
  contains_byte c a = false -> split_once c (a ++ c :: r) = Some (a, r).
Proof.
  intros H. unfold split_once. rewrite find_byte_app by done. simpl.
  by rewrite take_app_length, drop_past.
Qed.

Lemma split_once_Some c s a r :
  split_once c s = Some (a, r) -> s = a ++ c :: r /\ contains_byte c a = false.
Proof.
  unfold split_once, find_byte. destruct (position _ s) as [i|] eqn:E; [|done]. simpl.
  intros [= <- <-]. apply position_Some in E as (x & Hx & Hc & Hb).
  apply byte_eqb_eq in Hc as ->. split.
  - by rewrite <- (take_drop_middle s i c Hx) at 1.
  - unfold contains_byte. by rewrite existsb_negb_forallb, Hb.
Qed.

Lemma split_once_None c s : split_once c s = None <-> contains_byte c s = false.
Proof.
  unfold split_once, find_byte, contains_byte.
  rewrite existsb_negb_forallb, negb_false_iff, <- position_None.
  destruct (position _ s); simpl; split; congruence.
Qed.

Lemma contains_byte_app c a b : contains_byte c (a ++ b) = contains_byte c a || contains_byte c b.
Proof. apply existsb_app. Qed.

Lemma contains_byte_forallb c s (p : byte -> bool) :
  forallb p s = true -> p c = false -> contains_byte c s = false.
Proof.
  intros Hs Hc. unfold contains_byte. rewrite existsb_negb_forallb, negb_false_iff.
  revert Hs. apply forallb_impl. intros b Hb. destruct (b =b c) eqn:E; [|done].
  apply byte_eqb_eq in E. congruence.
Qed.

Lemma strip_prefix_Some p s r : strip_prefix p s = Some r <-> s = p ++ r.
Proof.
  revert s. induction p as [|a p IH]; intros s; simpl; [naive_solver|].
  destruct s as [|b s]; [naive_solver|]. destruct (a =b b) eqn:E.
  - apply byte_eqb_eq in E as ->. rewrite IH. naive_solver.
  - apply byte_eqb_neq in E. naive_solver.
Qed.

Lemma split_not_nil c s : split c s <> [].
Proof. destruct s as [|b s]; simpl; [done|]. destruct (b =b c); [done|]. by destruct (split c s). Qed.

Lemma join_cons sep p ps : ps <> [] -> join sep (p :: ps) = p ++ sep ++ join sep ps.
Proof. by destruct ps. Qed.

(** Splitting loses nothing. *)
Lemma join_split c s : join [c] (split c s) = s.
Proof.
  induction s as [|b s IH]; [done|]. cbn [split]. pose proof (split_not_nil c s).
  destruct (b =b c) eqn:E.
  - apply byte_eqb_eq in E as ->. rewrite join_cons by done. simpl. by rewrite IH.
  - destruct (split c s) as [|p [|q ps]]; [done| |]; simpl in *; by rewrite IH.
Qed.

Lemma split_pieces c s : Forall (fun p => contains_byte c p = false) (split c s).
Proof.
  induction s as [|b s IH]; simpl; [by repeat constructor|].
  destruct (b =b c) eqn:E; [by constructor|].
  pose proof (split_not_nil c s). destruct (split c s) as [|p ps]; [done|].
  inversion IH; subst. constructor; [|done]. simpl. by rewrite E.
Qed.

Lemma split_no_sep c s : contains_byte c s = false -> split c s = [s].
Proof.
  induction s as [|b s IH]; simpl; [done|]. destruct (b =b c); [done|].
  intros H. by rewrite IH.
Qed.

Lemma split_app c a r :
  contains_byte c a = false -> split c (a ++ c :: r) = a :: split c r.
Proof.
  induction a as [|b a IH]; simpl; [by rewrite byte_eqb_refl|].
  destruct (b =b c); [done|]. intros H. by rewrite IH.
Qed.

(** ** Lemmas: integers *)

Lemma digit_value_char radix d :
  d < radix -> radix <= 36 -> digit_value radix (digit_char d) = Some d.
Proof.
  intros Hd Hr.
  assert (H : forallb (fun d => bool_decide (digit_value 36 (digit_char d) = Some d))
                (map N.of_nat (seq 0 36)) = true) by (vm_compute; reflexivity).
  rewrite forallb_forall in H. specialize (H d).
  assert (Hin : In d (map N.of_nat (seq 0 36))).
  { apply in_map_iff. exists (N.to_nat d). split; [lia|]. apply in_seq. lia. }
  apply H, bool_decide_eq_true in Hin. unfold digit_value in *.
  destruct (is_ascii_digit _); [|destruct (is_ascii_lowercase _); [|destruct (is_ascii_uppercase _)]];
    simpl in *; try done;
    (destruct (_ <? 36) eqn:E36 in Hin; [|done]; injection Hin as ->; by apply N.ltb_lt in Hd as ->).
Qed.

(** Printing then parsing gives the number back, whatever follows it. *)
Lemma parse_digits_onto radix max fuel n acc :
  2 <= radix <= 36 -> n <= max -> n < 2 ^ N.of_nat fuel ->
  parse_digits radix max 0 (digits_onto (S fuel) radix n acc) = parse_digits radix max n acc.
Proof.
  intros Hr. revert n acc. induction fuel as [|fuel IH]; intros n acc Hmax Hn.
  - assert (n = 0) as -> by (simpl in Hn; lia). cbn [digits_onto].
    replace (0 <? radix) with true by (symmetry; apply N.ltb_lt; lia).
    rewrite N.Div0.mod_0_l. cbn [parse_digits]. rewrite digit_value_char by lia.
    cbn [mbind option_bind]. by rewrite N.mul_0_l, (proj2 (N.leb_le _ _)) by lia.
  - remember (S fuel) as f. cbn [digits_onto]. destruct (n <? radix) eqn:E.
    + apply N.ltb_lt in E. rewrite N.mod_small by done. cbn [parse_digits].
      rewrite digit_value_char by lia. cbn [mbind option_bind].
      by rewrite N.mul_0_l, N.add_0_l, (proj2 (N.leb_le _ _)) by lia.
    + apply N.ltb_ge in E. subst f.
      assert (n / radix < n) by (apply N.div_lt; lia).
      assert (n / radix < 2 ^ N.of_nat fuel).
      { apply N.Div0.div_lt_upper_bound. rewrite Nat2N.inj_succ, N.pow_succ_r' in Hn. nia. }
      rewrite IH by lia. cbn [parse_digits].
      rewrite digit_value_char by (try apply N.mod_lt; lia). cbn [mbind option_bind].
      replace (n / radix * radix + n mod radix) with n by (pose proof (N.div_mod n radix); lia).
      by rewrite (proj2 (N.leb_le _ _)) by lia.
Qed.

Lemma lt_pow2_size n : n < 2 ^ N.of_nat (N.size_nat n).
Proof.
  replace (N.of_nat (N.size_nat n)) with (N.size n); [apply N.size_gt|].
  destruct n as [|p]; [done|]. cbn [N.size N.size_nat].
  induction p as [p IH|p IH|]; [| |done]; cbn [Pos.size Pos.size_nat];
    by rewrite Nat2N.inj_succ, <- IH.
Qed.

Lemma parse_digits_show n max : n <= max -> parse_digits 10 max 0 (show_dec n) = Some n.
Proof.
  intros H. unfold show_dec. rewrite parse_digits_onto; [done|lia|done|apply lt_pow2_size].
Qed.

Lemma digit_char_digit d : d < 10 -> is_ascii_digit (digit_char d) = true.
Proof.
  intros H. unfold digit_char. apply N.ltb_lt in H as H'. rewrite H'.
  unfold is_ascii_digit, within. rewrite b2n_n2b by lia. lia.
Qed.

Lemma digits_onto_forallb fuel n acc :
  forallb is_ascii_digit acc = true -> forallb is_ascii_digit (digits_onto fuel 10 n acc) = true.
Proof.
  revert n acc. induction fuel as [|fuel IH]; intros n acc H; cbn [digits_onto]; [done|].
  assert (Hd : forallb is_ascii_digit (digit_char (n mod 10) :: acc) = true).
  { cbn [forallb]. rewrite digit_char_digit, H; [done|]. by apply N.mod_lt. }
  destruct (n <? 10); [done | by apply IH].
Qed.

Lemma show_dec_digits n : forallb is_ascii_digit (show_dec n) = true.
Proof. by apply digits_onto_forallb. Qed.

Lemma digits_onto_not_nil fuel radix n acc : acc <> [] -> digits_onto fuel radix n acc <> [].
Proof.
  revert n acc. induction fuel as [|fuel IH]; intros n acc H; cbn [digits_onto]; [done|].
  destruct (n <? radix); [done | by apply IH].
Qed.

Lemma show_dec_not_nil n : show_dec n <> [].
Proof.
  unfold show_dec. cbn [digits_onto]. destruct (n <? 10); [done | by apply digits_onto_not_nil].
Qed.

(** A string of digits has no sign, so [parse] reads all of it. *)
Lemma from_str_radix_digits max s :
  s <> [] -> forallb is_ascii_digit s = true -> from_str_radix 10 max s = parse_digits 10 max 0 s.
Proof.
  intros Hne Hs. destruct s as [|b s]; [done|]. unfold from_str_radix.
  destruct (b =b "+") eqn:E; [|done]. apply byte_eqb_eq in E as ->. by vm_compute in Hs.
Qed.

Lemma parse_u64_show n : n <= u64_MAX -> parse_u64 (show_dec n) = Some n.
Proof.
  intros H. unfold parse_u64.
  rewrite from_str_radix_digits by (apply show_dec_not_nil || apply show_dec_digits).
  by apply parse_digits_show.
Qed.

Lemma parse_u16_show n : n <= u16_MAX -> parse_u16 (show_dec n) = Some n.
Proof.
  intros H. unfold parse_u16.
  rewrite from_str_radix_digits by (apply show_dec_not_nil || apply show_dec_digits).
  by apply parse_digits_show.
Qed.

(** What [parse] returns fits the type. *)
Lemma parse_digits_bound radix max acc s n :
  acc <= max -> parse_digits radix max acc s = Some n -> n <= max.
Proof.
  revert acc. induction s as [|b s IH]; simpl; intros acc Ha; [congruence|].
  destruct (digit_value radix b) as [d|]; simpl; [|done].
  destruct (_ <=? max) eqn:E; [|done]. apply N.leb_le in E. by apply IH.
Qed.

Lemma from_str_radix_bound radix max s n : from_str_radix radix max s = Some n -> n <= max.
Proof.
  unfold from_str_radix. destruct s as [|b [|c s]]; [done| |];
    destruct (b =b "+"); try done; apply parse_digits_bound; lia.
Qed.


(** What was read as a number is ASCII. *)
Lemma parse_digits_ascii radix max acc s n : parse_digits radix max acc s = Some n -> forallb is_ascii s = true.
Proof.
  revert acc. induction s as [|b s IH]; intros acc; [done|]. cbn [parse_digits forallb].
  destruct (digit_value radix b) as [d|] eqn:Hd; [|done]. cbn [mbind option_bind]. cbv zeta.
  destruct (_ <=? max); [|done]. intros H. rewrite (IH _ H), andb_true_r.
  revert Hd. clear. unfold digit_value. byte_solve b.
Qed.

Lemma from_str_radix_ascii radix max s n : from_str_radix radix max s = Some n -> forallb is_ascii s = true.
Proof.
  unfold from_str_radix. destruct s as [|b s]; [done|]. destruct (b =b "+") eqn:Hb; [|apply parse_digits_ascii].
  apply byte_eqb_eq in Hb as ->. destruct s as [|c s]; [done|]. exact (parse_digits_ascii _ _ _ _ _).
Qed.

(** ** Lemmas: UTF-8 *)

Lemma utf8_ascii_app i a s :
  forallb is_ascii a = true ->
  run_utf8_validation i (a ++ s) = run_utf8_validation (i + blen a) s.
Proof.
  revert i. induction a as [|b a IH]; intros i H; cbn [app].
  - f_equal. rewrite blen_nil. lia.
  - cbn [forallb] in H. apply andb_true_iff in H as [Hb Ha]. cbn [run_utf8_validation].
    rewrite Hb, IH by done. f_equal. rewrite blen_cons. lia.
Qed.

(** A valid string is skipped as a whole: validation of a concatenation. *)
Lemma utf8_valid_app i j a s :
  run_utf8_validation j a = None ->
  run_utf8_validation i (a ++ s) = run_utf8_validation (i + blen a) s.
Proof.
  revert i j. induction a as [a IH] using (induction_ltof1 _ (@length byte)); unfold ltof in IH.
  intros i j.
  assert (next : forall k t, (length t < length a)%nat -> blen a = k + blen t ->
    run_utf8_validation (j + k) t = None ->
    run_utf8_validation (i + k) (t ++ s) = run_utf8_validation (i + blen a) s).
  { intros k t Ht Hk Hv. rewrite (IH t Ht (i + k) (j + k) Hv). f_equal. lia. }
  destruct a as [|b0 a0]; [intros _; cbn [app]; f_equal; rewrite blen_nil; lia|].
  rewrite !blen_cons in *. cbn [length app run_utf8_validation] in *.
  destruct (is_ascii b0); [apply next; lia|].
  destruct (within 194 223 b0).
  { destruct a0 as [|b1 a1]; [done|]. cbn [app length] in *. rewrite blen_cons in *.
    destruct (is_cont b1); [apply next; lia | done]. }
  destruct (within 224 239 b0).
  { destruct a0 as [|b1 a1]; [done|]. cbn [app length] in *. destruct (utf8_second3 b0 b1); [|done].
    destruct a1 as [|b2 a2]; [done|]. cbn [app length] in *. rewrite !blen_cons in *.
    destruct (is_cont b2); [apply next; lia | done]. }
  destruct (within 240 244 b0); [|done].
  destruct a0 as [|b1 a1]; [done|]. cbn [app length] in *. destruct (utf8_second4 b0 b1); [|done].
  destruct a1 as [|b2 a2]; [done|]. cbn [app length] in *. destruct (is_cont b2); [|done].
  destruct a2 as [|b3 a3]; [done|]. cbn [app length] in *. rewrite !blen_cons in *.
  destruct (is_cont b3); [apply next; lia | done].
Qed.

Lemma utf8_valid_None s : utf8_valid s = true <-> run_utf8_validation 0 s = None.
Proof. unfold utf8_valid, from_utf8. by destruct (run_utf8_validation 0 s). Qed.

Lemma utf8_ascii s : forallb is_ascii s = true -> utf8_valid s = true.
Proof.
  intros H. apply utf8_valid_None. rewrite <- (app_nil_r s). by rewrite utf8_ascii_app.
Qed.

(** Validity does not depend on where the counting starts. *)
Lemma utf8_shift i j s : run_utf8_validation i s = None -> run_utf8_validation j s = None.
Proof. intros H. rewrite <- (app_nil_r s). by rewrite (utf8_valid_app j i). Qed.

Lemma utf8_app a s : utf8_valid a = true -> utf8_valid s = true -> utf8_valid (a ++ s) = true.
Proof.
  rewrite !utf8_valid_None. intros Ha Hs. rewrite (utf8_valid_app 0 0) by done.
  by apply (utf8_shift 0).
Qed.

(** ASCII at the end completes no sequence. *)
Lemma utf8_ascii_end i s r :
  forallb is_ascii r = true -> run_utf8_validation i (s ++ r) = None -> run_utf8_validation i s = None.
Proof.
  intros Hr. revert i. induction s as [s IH] using (induction_ltof1 _ (@length byte)); unfold ltof in IH. intros i.
  assert (Hc : forall b1 r', r = b1 :: r' -> is_ascii b1 = true) by (intros b1 r' ->; by apply andb_true_iff in Hr as [? _]).
  assert (Hno : forall b, is_ascii b = true -> is_cont b = false) by (intros b; unfold is_ascii, is_cont, within; lia).
  assert (Hn3 : forall b0 b, is_ascii b = true -> utf8_second3 b0 b = false)
    by (intros b0 b; unfold is_ascii, utf8_second3, within; lia).
  assert (Hn4 : forall b0 b, is_ascii b = true -> utf8_second4 b0 b = false)
    by (intros b0 b; unfold is_ascii, utf8_second4, within; lia).
  assert (next : forall k t, (length t < length s)%nat ->
    run_utf8_validation (i + k) (t ++ r) = None -> run_utf8_validation (i + k) t = None) by (intros; by apply IH).
  destruct s as [|b0 s]; [done|]. cbn [length app run_utf8_validation] in *.
  destruct (is_ascii b0); [by apply next; lia|].
  destruct (within 194 223 b0).
  { destruct s as [|b1 s]; cbn [app length] in *; [by destruct r as [|b r']; [|rewrite (Hno b (Hc b r' eq_refl))]|].
    destruct (is_cont b1); [apply next; lia | done]. }
  destruct (within 224 239 b0).
  { destruct s as [|b1 s]; cbn [app length] in *; [by destruct r as [|b r']; [|rewrite (Hn3 b0 b (Hc b r' eq_refl))]|].
    destruct (utf8_second3 b0 b1); [|done].
    destruct s as [|b2 s]; cbn [app length] in *; [by destruct r as [|b r']; [|rewrite (Hno b (Hc b r' eq_refl))]|].
    destruct (is_cont b2); [apply next; lia | done]. }
  destruct (within 240 244 b0); [|done].
  destruct s as [|b1 s]; cbn [app length] in *; [by destruct r as [|b r']; [|rewrite (Hn4 b0 b (Hc b r' eq_refl))]|].
  destruct (utf8_second4 b0 b1); [|done].
  destruct s as [|b2 s]; cbn [app length] in *; [by destruct r as [|b r']; [|rewrite (Hno b (Hc b r' eq_refl))]|].
  destruct (is_cont b2); [|done].
  destruct s as [|b3 s]; cbn [app length] in *; [by destruct r as [|b r']; [|rewrite (Hno b (Hc b r' eq_refl))]|].
  destruct (is_cont b3); [apply next; lia | done].
Qed.

(** A part of a valid string between ASCII is valid. *)
Lemma utf8_between a s r :
  forallb is_ascii a = true -> forallb is_ascii r = true -> utf8_valid (a ++ s ++ r) = true -> utf8_valid s = true.
Proof.
  intros Ha Hr. rewrite !utf8_valid_None, utf8_ascii_app by done. intros H. apply (utf8_shift (0 + blen a)).
  by eapply utf8_ascii_end.
Qed.

Lemma from_utf8_valid s : utf8_valid s = true -> from_utf8 s = Ok s.
Proof. intros H%utf8_valid_None. unfold from_utf8. by rewrite H. Qed.

Lemma from_utf8_Ok s t : from_utf8 s = Ok t -> t = s /\ utf8_valid s = true.
Proof. unfold utf8_valid, from_utf8. destruct (run_utf8_validation 0 s); naive_solver. Qed.

(** For a predicate that gives every non-ASCII character (and byte) the same
    answer [v], going over the characters and over the bytes is the same. *)
Lemma chars_forallb (p : N -> bool) v s :
  (forall c, 128 <= c -> p c = v) -> utf8_valid s = true ->
  forallb p (chars s) = forallb (fun b => p (b2n b)) s.
Proof.
  intros Hp H%utf8_valid_None. revert H. generalize 0.
  induction s as [s IH] using (induction_ltof1 _ (@length byte)); unfold ltof in IH.
  intros i. destruct s as [|b0 s]; [done|]. cbn [run_utf8_validation chars].
  unfold is_ascii, is_cont, utf8_second3, utf8_second4, within.
  destruct (b2n b0 <? 128) eqn:E; [intros H; cbn [forallb]; rewrite (IH s ltac:(simpl; lia) _ H); done|].
  destruct ((194 <=? b2n b0) && (b2n b0 <=? 223)) eqn:E2.
  { destruct s as [|b1 s]; [done|].
    destruct ((128 <=? b2n b1) && (b2n b1 <=? 191)) eqn:E1; [|done]. intros H.
    replace (b2n b0 <? 224) with true by lia. cbn [forallb].
    rewrite (IH s ltac:(simpl; lia) _ H), !Hp by lia. by destruct v. }
  destruct ((224 <=? b2n b0) && (b2n b0 <=? 239)) eqn:E3.
  { destruct s as [|b1 s]; [done|]. destruct (_ || _) eqn:E1; [|done].
    destruct s as [|b2 s]; [done|].
    destruct ((128 <=? b2n b2) && (b2n b2 <=? 191)) eqn:E4; [|done]. intros H.
    replace (b2n b0 <? 224) with false by lia. replace (b2n b0 <? 240) with true by lia.
    cbn [forallb]. rewrite (IH s ltac:(simpl; lia) _ H), !Hp by lia. by destruct v. }
  destruct ((240 <=? b2n b0) && (b2n b0 <=? 244)) eqn:E4; [|done].
  destruct s as [|b1 s]; [done|]. destruct (_ || _) eqn:E1; [|done].
  destruct s as [|b2 s]; [done|].
  destruct ((128 <=? b2n b2) && (b2n b2 <=? 191)) eqn:E5; [|done].
  destruct s as [|b3 s]; [done|].
  destruct ((128 <=? b2n b3) && (b2n b3 <=? 191)) eqn:E6; [|done]. intros H.
  replace (b2n b0 <? 224) with false by lia. replace (b2n b0 <? 240) with false by lia.
  cbn [forallb]. rewrite (IH s ltac:(simpl; lia) _ H), !Hp by lia. by destruct v.
Qed.
