(* ===== verification/Errors.v ===== *)
(** * Errors and limits ([src/error.rs], [src/limits.rs], [src/compression.rs])

    The error enums carry the data the code puts in them, the formatted
    messages of [Error::InvalidData] included, so a theorem about a result
    says which error it is. *)
From S2P Require Import Prelude RustStd.

(** [enum CompressionError]. *)
Module CompressionError.
Inductive t : Type :=
  | BufferTooSmall (required available : N)
  | InvalidData (msg : str)
  | Internal (msg : str)
  | UnexpectedEof
  | AlreadyFinished.

(** [impl Display for CompressionError]. *)
Definition fmt (e : t) : str :=
  match e with
  | BufferTooSmall required available =>
      B "buffer too small: required " ++ show_dec required ++ B " bytes, available "
      ++ show_dec available ++ B " bytes"
  | InvalidData msg => B "invalid data: " ++ msg
  | Internal msg => B "internal error: " ++ msg
  | UnexpectedEof => B "unexpected end of input"
  | AlreadyFinished => B "compression already finished"
  end.
End CompressionError.

(** [enum Error]: what the decoders return. *)
Module Error.
Inductive t : Type :=
  | InvalidData (msg : str)
  | BufferOverflow (size limit : N)
  | TooManyHeaders (count limit : N)
  | HeaderLineTooLong (size limit : N)
  | BodyTooLarge (size limit : N)
  | ChunkLineTooLong (size limit : N)
  | Compression (e : CompressionError.t).

Definition over (what : str) (size limit : N) : str :=
  what ++ show_dec size ++ B " > " ++ show_dec limit.

(** [impl Display for Error]. *)
Definition fmt (e : t) : str :=
  match e with
  | InvalidData msg => B "invalid data: " ++ msg
  | BufferOverflow size limit => over (B "buffer overflow: ") size limit
  | TooManyHeaders count limit => over (B "too many headers: ") count limit
  | HeaderLineTooLong size limit => over (B "header line too long: ") size limit
  | BodyTooLarge size limit => over (B "body too large: ") size limit
  | ChunkLineTooLong size limit => over (B "chunk line too long: ") size limit
  | Compression e => B "compression error: " ++ CompressionError.fmt e
  end.
End Error.

(** [Err(Error::InvalidData("...".to_string()))]. *)
Definition invalid {A} (msg : string) : result Error.t A := Err (Error.InvalidData (B msg)).

(** [enum EncodeError]: what the constructors and the encoders return. *)
Module EncodeError.
Inductive t : Type :=
  | MissingHostHeader
  | ConflictingTransferEncodingAndContentLength
  | ForbiddenTransferEncoding (status_code : N)
  | InvalidMethod (method : str)
  | InvalidRequestTarget (uri : str)
  | InvalidVersion (version : str)
  | InvalidHeaderName (name : str)
  | InvalidHeaderValue (name value : str)
  | InvalidStatusCode (code : N)
  | InvalidReasonPhrase (phrase : str)
  | DuplicateHostHeader
  | InvalidHostHeader (value : str)
  | HostAuthorityMismatch (host authority : str)
  | ForbiddenBodyFor205
  | ForbiddenContentLength (status_code : N)
  | ContentLengthMismatch (header_value body_length : N)
  | InvalidRequestTargetForm (method uri : str)
  | UserinfoInHttpUri (uri : str)
  | NonEmptyHostWithoutAuthority (host uri : str)
  | EmptyHostInHttpUri (uri : str)
  | InvalidContentLengthValue (value : str)
  | DuplicateContentLength.
End EncodeError.

(** [struct DecoderLimits]. *)
Record DecoderLimits := {
  max_buffer_size : N;
  max_headers_count : N;
  max_header_line_size : N;
  max_body_size : N;
  max_chunk_line_size : N
}.

Definition DecoderLimits_default : DecoderLimits := {|
  max_buffer_size := 64 * 1024;
  max_headers_count := 100;
  max_header_line_size := 8 * 1024;
  max_body_size := 10 * 1024 * 1024;
  max_chunk_line_size := 64
|}.

Definition DecoderLimits_unlimited : DecoderLimits := {|
  max_buffer_size := usize_MAX;
  max_headers_count := usize_MAX;
  max_header_line_size := usize_MAX;
  max_body_size := usize_MAX;
  max_chunk_line_size := usize_MAX
|}.

(** The limits are [usize] values. *)
Definition limits_ok (l : DecoderLimits) : Prop :=
  max_buffer_size l <= usize_MAX /\ max_headers_count l <= usize_MAX /\
  max_header_line_size l <= usize_MAX /\ max_body_size l <= usize_MAX /\
  max_chunk_line_size l <= usize_MAX.

Lemma limits_ok_default : limits_ok DecoderLimits_default.
Proof. by vm_compute. Qed.

Lemma limits_ok_unlimited : limits_ok DecoderLimits_unlimited.
Proof. by vm_compute. Qed.
#[export] Hint Resolve limits_ok_default limits_ok_unlimited : http11.
