(* ===== verification/Validate.v ===== *)
(** * Lexical validation ([src/validate.rs])

    The character classes of RFC 9110 and RFC 3986 as boolean functions on
    bytes, and the scanners built on them.  [char] predicates accept every
    non-ASCII character, so they are written on bytes. *)
From S2P Require Import Prelude RustStd.

Definition is_token_char (b : byte) : bool :=
  (b =b "!") || (b =b "#") || (b =b "$") || (b =b "%") || (b =b "&") || (b =b "'")
  || (b =b "*") || (b =b "+") || (b =b "-") || (b =b ".") || within 48 57 b
  || within 65 90 b || (b =b "^") || (b =b "_") || (b =b "`") || within 97 122 b
  || (b =b "|") || (b =b "~").

Definition is_empty {A} (l : list A) : bool := match l with [] => true | _ => false end.

Definition is_valid_header_name (name : str) : bool :=
  negb (is_empty name) && forallb is_token_char name.

Definition is_valid_token (s : str) : bool := negb (is_empty s) && forallb is_token_char s.

Definition is_valid_field_vchar (b : byte) : bool :=
  (b2n b =? 9) || within 32 126 b || within 128 255 b.

Definition is_valid_field_value (value : str) : bool := forallb is_valid_field_vchar value.

Definition is_valid_method (method : str) : bool :=
  negb (is_empty method) && forallb is_token_char method.

(** A token, a slash, digits, a dot and digits: the early returns of the code are the
    conjuncts, in its order. *)
Definition is_valid_protocol_version (version : str) : bool :=
  match find_byte "/" version with
  | None => false
  | Some slash_pos =>
      negb (slash_pos =? 0)%nat
      && forallb is_token_char (take slash_pos version)
      && (let after_slash := drop (S slash_pos) version in
          match find_byte "." after_slash with
          | None => false
          | Some dot_pos =>
              negb (dot_pos =? 0)%nat
              && forallb is_ascii_digit (take dot_pos after_slash)
              && (let after_dot := drop (S dot_pos) after_slash in
                  negb (is_empty after_dot) && forallb is_ascii_digit after_dot)
          end)
  end.

Definition is_valid_status_code (code : N) : bool := (100 <=? code) && (code <=? 599).

Definition is_valid_reason_phrase (phrase : str) : bool :=
  negb (is_empty phrase)
  && forallb (fun b => (b2n b =? 9) || within 32 126 b || within 128 255 b) phrase.

(** The double quote and the other bytes RFC 3986 leaves out of a URI. *)
Definition RFC3986_EXCLUDED : bytes :=
  ["034"; "#"; "<"; ">"; "\"; "^"; "`"; "{"; "|"; "}"]%byte.

(** The [while i < bytes.len()] scan; the argument is [bytes[i..]]. *)
Fixpoint request_target_scan (s : bytes) : bool :=
  match s with
  | [] => true
  | b :: s1 =>
      if (b2n b <=? 32) || (b2n b =? 127) then false
      else if existsb (fun x => b =b x) RFC3986_EXCLUDED then false
      else if b =b "%" then
        match s1 with
        | high :: low :: s3 =>
            if negb (is_ascii_hexdigit high) || negb (is_ascii_hexdigit low) then false
            else if (high =b "0") && (low =b "0") then false
            else request_target_scan s3
        | _ => false
        end
      else request_target_scan s1
  end.

Definition is_valid_request_target (target : str) : bool :=
  negb (is_empty target) && request_target_scan target.

Definition is_unreserved_byte (b : byte) : bool :=
  is_ascii_alphanumeric b || (b =b "-") || (b =b ".") || (b =b "_") || (b =b "~").

Definition is_sub_delim_byte (b : byte) : bool :=
  (b =b "!") || (b =b "$") || (b =b "&") || (b =b "'") || (b =b "(") || (b =b ")")
  || (b =b "*") || (b =b "+") || (b =b ",") || (b =b ";") || (b =b "=").

Definition is_pchar_byte (b : byte) : bool :=
  is_unreserved_byte b || is_sub_delim_byte b || (b =b ":") || (b =b "@").

Definition is_pchar_or_slash (b : byte) : bool := is_pchar_byte b || (b =b "/").

Definition is_query_char (b : byte) : bool := is_pchar_byte b || (b =b "/") || (b =b "?").

(** ** Quoted strings *)

Definition DQUOTE : byte := "034"%byte.
Definition BACKSLASH : byte := "\"%byte.

Definition is_qdtext_char (c : byte) : bool :=
  (b2n c =? 9) || (c =b " ") || (c =b "!") || within 35 91 c || within 93 126 c
  || (128 <=? b2n c).

Definition is_quoted_pair_char (c : byte) : bool :=
  (b2n c =? 9) || within 32 126 c || (128 <=? b2n c).

Inductive QuotedStringError : Type :=
  | InvalidQdtext
  | InvalidQuotedPair
  | Unterminated.

(** The loop of [parse_quoted_string] with its variables [result] (so far) and
    [escaped]; [input] starts after the opening quote. *)
Fixpoint quoted_string_loop (input result : str) (escaped : bool) :
    Prelude.result QuotedStringError (str * str) :=
  match input with
  | [] => Err Unterminated
  | c :: rest =>
      if escaped then
        if negb (is_quoted_pair_char c) then Err InvalidQuotedPair
        else quoted_string_loop rest (result ++ [c]) false
      else if c =b BACKSLASH then quoted_string_loop rest result true
      else if c =b DQUOTE then Ok (result, rest)
      else if negb (is_qdtext_char c) then Err InvalidQdtext
      else quoted_string_loop rest (result ++ [c]) false
  end.

Definition parse_quoted_string (input : str) : result QuotedStringError (str * str) :=
  quoted_string_loop input [] false.

Definition escape_char (c : byte) : str :=
  if negb (is_quoted_pair_char c) then [" "%byte]
  else if (c =b DQUOTE) || (c =b BACKSLASH) then [BACKSLASH; c]
  else [c].

Definition escape_quotes (s : str) : str := flat_map escape_char s.

(** ** White space, lists, language tags *)

Definition not_ows (b : byte) : bool := (b <>b " ") && (b <>b "009").

(** [&s[start..end]] with [start] and [end] found by [position]/[rposition]. *)
Definition trim_ows (s : str) : str :=
  let start := default (length s) (position not_ows s) in
  let stop := default start (S <$> rposition not_ows s) in
  take (stop - start) (drop start s).

(** The loop of [split_with_quotes]: [part] is [input[start..i]]. *)
Fixpoint split_quotes_loop (input : str) (delimiter : byte) (part : str)
    (in_quote escaped : bool) : list str :=
  match input with
  | [] => [part]
  | c :: rest =>
      if escaped then split_quotes_loop rest delimiter (part ++ [c]) in_quote false
      else if (c =b BACKSLASH) && in_quote then
        split_quotes_loop rest delimiter (part ++ [c]) in_quote true
      else if c =b DQUOTE then
        split_quotes_loop rest delimiter (part ++ [c]) (negb in_quote) false
      else if (c =b delimiter) && negb in_quote then
        part :: split_quotes_loop rest delimiter [] in_quote false
      else split_quotes_loop rest delimiter (part ++ [c]) in_quote false
  end.

Definition split_with_quotes (input : str) (delimiter : byte) : list str :=
  split_quotes_loop input delimiter [] false false.

Definition language_subtag_ok (p : byte -> bool) (part : str) : bool :=
  negb (is_empty part || (8 <? blen part) || negb (forallb p part)).

Definition is_valid_language_tag (tag : str) : bool :=
  if is_empty tag then false
  else match split "-" tag with
       | [] => false
       | primary :: parts =>
           language_subtag_ok is_ascii_alphabetic primary
           && forallb (language_subtag_ok is_ascii_alphanumeric) parts
       end.

Arguments is_token_char : simpl never.
Arguments is_valid_field_vchar : simpl never.
Arguments is_unreserved_byte : simpl never.
Arguments is_sub_delim_byte : simpl never.
Arguments is_qdtext_char : simpl never.
Arguments is_quoted_pair_char : simpl never.
Arguments not_ows : simpl never.

(** ** Lemmas *)

(** *** Character classes *)

Lemma is_token_char_ascii b : is_token_char b = true -> is_ascii b = true.
Proof. byte_solve b. Qed.

Lemma token_not_line b :
  is_token_char b = true -> b <> "013"%byte /\ b <> "010"%byte /\ b <> " "%byte /\ b <> ":"%byte /\ b <> "009"%byte.
Proof. intros H. repeat split; intros ->; by vm_compute in H. Qed.

Lemma field_vchar_not_line b :
  is_valid_field_vchar b = true -> b <> "013"%byte /\ b <> "010"%byte.
Proof. intros H. split; intros ->; by vm_compute in H. Qed.

Lemma is_valid_token_iff s :
  is_valid_token s = true <-> s <> [] /\ forallb is_token_char s = true.
Proof. unfold is_valid_token. destruct s; cbn [is_empty negb andb]; intuition congruence. Qed.

Lemma is_valid_method_token s : is_valid_method s = is_valid_token s.
Proof. done. Qed.

Lemma is_valid_header_name_token s : is_valid_header_name s = is_valid_token s.
Proof. done. Qed.

Lemma token_contains c s :
  forallb is_token_char s = true -> is_token_char c = false -> contains_byte c s = false.
Proof. apply contains_byte_forallb. Qed.

Lemma is_valid_request_target_chars s :
  is_valid_request_target s = true ->
  s <> [] /\ forallb (fun b => negb (b2n b <=? 32) && negb (b2n b =? 127)) s = true.
Proof.
  unfold is_valid_request_target. rewrite andb_true_iff. intros [Hne Hs].
  split; [by destruct s|]. revert Hs. clear Hne.
  assert (hex : forall b, is_ascii_hexdigit b = true ->
    negb (b2n b <=? 32) && negb (b2n b =? 127) = true) by (intros b; byte_solve b).
  induction s as [s IH] using (induction_ltof1 _ (@length byte)); unfold ltof in IH.
  destruct s as [|b s]; [done|]. cbn [request_target_scan forallb].
  destruct ((b2n b <=? 32) || (b2n b =? 127)) eqn:E; [done|].
  apply orb_false_iff in E as [-> ->]. cbn [negb andb].
  destruct (existsb _ _); [done|]. destruct (b =b "%"); [|apply IH; simpl; lia].
  destruct s as [|h [|l s]]; [done|done|]. cbn [forallb].
  destruct (is_ascii_hexdigit h) eqn:Eh; [|done]. destruct (is_ascii_hexdigit l) eqn:El; [|done].
  rewrite (hex h Eh), (hex l El). cbn [negb orb andb].
  destruct (_ && _); [done|]. apply IH. simpl. lia.
Qed.

(** *** The version grammar *)

Lemma version_shape name major minor :
  name <> [] -> forallb is_token_char name = true ->
  major <> [] -> forallb is_ascii_digit major = true ->
  minor <> [] -> forallb is_ascii_digit minor = true ->
  is_valid_protocol_version (name ++ "/"%byte :: major ++ "."%byte :: minor) = true.
Proof.
  intros Hn1 Hn2 Hm1 Hm2 Hi1 Hi2. unfold is_valid_protocol_version.
  rewrite find_byte_app by (eapply contains_byte_forallb; eauto).
  rewrite take_app_length, drop_past, Hn2.
  rewrite find_byte_app by (eapply contains_byte_forallb; eauto).
  rewrite take_app_length, drop_past, Hm2, Hi2.
  by destruct name, major, minor.
Qed.

(** The accepted versions are exactly token "/" 1*DIGIT "." 1*DIGIT. *)
Lemma is_valid_protocol_version_iff v :
  is_valid_protocol_version v = true <->
  exists name major minor,
    v = name ++ "/"%byte :: major ++ "."%byte :: minor /\
    name <> [] /\ forallb is_token_char name = true /\
    major <> [] /\ forallb is_ascii_digit major = true /\
    minor <> [] /\ forallb is_ascii_digit minor = true.
Proof.
  split; [|intros (n & ma & mi & -> & ? & ? & ? & ? & ? & ?); by apply version_shape].
  unfold is_valid_protocol_version, find_byte.
  destruct (position _ v) as [i|] eqn:Ei; [|done].
  apply position_Some in Ei as (x & Hx & Hc & _). apply byte_eqb_eq in Hc as ->.
  rewrite !andb_true_iff. intros [[Hi Hn] H].
  destruct (position _ (drop (S i) v)) as [j|] eqn:Ej; [|done].
  apply position_Some in Ej as (y & Hy & Hc & _). apply byte_eqb_eq in Hc as ->.
  rewrite !andb_true_iff in H. destruct H as [[Hj Hm] [Hne Hd]].
  exists (take i v), (take j (drop (S i) v)), (drop (S j) (drop (S i) v)).
  rewrite (take_drop_middle _ _ _ Hy), (take_drop_middle _ _ _ Hx).
  apply lookup_lt_Some in Hx, Hy. split_and!; try done.
  - destruct i; [done|]. by destruct v.
  - destruct j; [done|]. by destruct (drop (S i) v).
  - by destruct (drop (S j) _).
Qed.

Lemma protocol_version_chars v :
  is_valid_protocol_version v = true ->
  v <> [] /\ forallb (fun b => is_token_char b || (b =b "/")) v = true.
Proof.
  intros (n & ma & mi & -> & Hn & Hn' & _ & Hma & _ & Hmi)%is_valid_protocol_version_iff.
  split; [by destruct n|].
  assert (dig : forall b, is_ascii_digit b = true -> is_token_char b || (b =b "/") = true)
    by (intros b; byte_solve b).
  rewrite forallb_app. cbn [forallb]. rewrite forallb_app. cbn [forallb].
  rewrite (forallb_impl _ _ _ dig Hma), (forallb_impl _ _ _ dig Hmi).
  rewrite (forallb_impl is_token_char); [done| |done]. by intros b ->.
Qed.

(** *** Optional white space *)

Definition is_ows (b : byte) : bool := negb (not_ows b).

(** No white space at either end. *)
Definition ows_trimmed (s : str) : bool :=
  match s with
  | [] => true
  | b :: _ => not_ows b && not_ows (List.last s b)
  end.

Lemma last_snoc_default {A} (l : list A) x d : List.last (l ++ [x]) d = x.
Proof. apply last_last. Qed.

Lemma ows_trimmed_ends m :
  ows_trimmed m = true ->
  m = [] \/ exists b m' m'' c, m = b :: m' /\ m = m'' ++ [c] /\ not_ows b = true /\ not_ows c = true.
Proof.
  destruct m as [|b m]; [by left|]. right. unfold ows_trimmed in *.
  apply andb_true_iff in H as [Hb Hc].
  destruct (@exists_last _ (b :: m)) as (m'' & c & E); [done|].
  exists b, m, m'', c. rewrite E, last_snoc_default in Hc. done.
Qed.

Lemma ows_none l : forallb is_ows l = true -> rposition not_ows l = None /\ position not_ows l = None.
Proof. intros H. split; [by apply rposition_None | by apply position_None]. Qed.

(** Trimming removes exactly the surrounding white space. *)
Lemma trim_ows_sandwich l m r :
  forallb is_ows l = true -> forallb is_ows r = true -> ows_trimmed m = true ->
  trim_ows (l ++ m ++ r) = m.
Proof.
  intros [Hl1 Hl2]%ows_none [Hr1 Hr2]%ows_none [->|(b & m' & m'' & c & Eb & Ec & Hb & Hc)]%ows_trimmed_ends;
    unfold trim_ows.
  - cbn [app]. rewrite position_app, Hl2, Hr2, rposition_app, Hr1, Hl1. cbn.
    by rewrite Nat.sub_diag.
  - assert (P : position not_ows (m ++ r) = Some O) by (rewrite Eb; cbn [app position]; by rewrite Hb).
    assert (R : rposition not_ows m = Some (length m'')).
    { rewrite Ec, rposition_app. cbn [rposition]. rewrite Hc. by rewrite Nat.add_0_r. }
    rewrite position_app, Hl2, P, !rposition_app, Hr1, R.
    cbn [fmap option_fmap option_map from_option id]. rewrite Nat.add_0_r, drop_app_length.
    replace (S (length l + length m'') - length l)%nat with (length m)
      by (rewrite Ec, length_app; simpl; lia).
    apply take_app_length.
Qed.

Lemma trim_ows_id m : ows_trimmed m = true -> trim_ows m = m.
Proof. intros H. rewrite <- (trim_ows_sandwich [] m []) at 2; [by rewrite app_nil_r|done..]. Qed.

Lemma trim_ows_decompose s :
  exists l m r, s = l ++ m ++ r /\ forallb is_ows l = true /\ forallb is_ows r = true /\ ows_trimmed m = true.
Proof.
  set (s1 := skip_while is_ows s).
  exists (take_while is_ows s), (rev (skip_while is_ows (rev s1))), (rev (take_while is_ows (rev s1))).
  assert (E : rev (skip_while is_ows (rev s1)) ++ rev (take_while is_ows (rev s1)) = s1).
  { by rewrite <- rev_app_distr, take_skip_while, rev_involutive. }
  split_and!.
  - rewrite E. unfold s1. by rewrite take_skip_while.
  - apply take_while_forallb.
  - rewrite forallb_forall. intros x Hx. apply in_rev in Hx. revert x Hx.
    apply forallb_forall, take_while_forallb.
  - destruct (skip_while is_ows (rev s1)) as [|c k] eqn:Ek; [done|].
    apply skip_while_head in Ek as Hc. cbn [rev] in *. unfold ows_trimmed.
    destruct (rev k ++ [c]) as [|b m] eqn:Em; [done|]. rewrite <- Em, last_snoc_default.
    cbn [app] in E. subst s1.
    symmetry in E. apply skip_while_head in E.
    unfold is_ows in *. apply negb_false_iff in Hc, E. by rewrite E, Hc.
Qed.

Lemma trim_ows_spec s :
  exists l r, s = l ++ trim_ows s ++ r /\ forallb is_ows l = true /\ forallb is_ows r = true /\
    ows_trimmed (trim_ows s) = true.
Proof.
  destruct (trim_ows_decompose s) as (l & m & r & -> & Hl & Hr & Hm).
  exists l, r. by rewrite trim_ows_sandwich.
Qed.

Lemma trim_ows_idempotent s : trim_ows (trim_ows s) = trim_ows s.
Proof. destruct (trim_ows_spec s) as (l & r & _ & _ & _ & H). by apply trim_ows_id. Qed.

Lemma trim_ows_forallb p s : forallb p s = true -> forallb p (trim_ows s) = true.
Proof.
  destruct (trim_ows_spec s) as (l & r & E & _). rewrite E at 1.
  rewrite !forallb_app, !andb_true_iff. tauto.
Qed.

(** *** Quoted strings *)

(** What [escape_quotes] keeps of a character: CTL becomes a space. *)
Definition sanitize_char (c : byte) : byte := if is_quoted_pair_char c then c else " "%byte.

Lemma quoted_loop_escape_char c t acc :
  quoted_string_loop (escape_char c ++ t) acc false =
  quoted_string_loop t (acc ++ [sanitize_char c]) false.
Proof.
  unfold escape_char, sanitize_char. destruct (is_quoted_pair_char c) eqn:E; cbn [negb]; [|done].
  destruct (c =b DQUOTE) eqn:Ed; cbn [orb]; [by apply byte_eqb_eq in Ed as ->|].
  destruct (c =b BACKSLASH) eqn:Eb; [by apply byte_eqb_eq in Eb as ->|].
  cbn [app quoted_string_loop]. rewrite Eb, Ed.
  assert (is_qdtext_char c = true) as -> by byte_solve c. done.
Qed.

Lemma quoted_loop_escape s rest acc :
  quoted_string_loop (escape_quotes s ++ DQUOTE :: rest) acc false =
  Ok (acc ++ map sanitize_char s, rest).
Proof.
  revert acc. induction s as [|c s IH]; intros acc.
  - cbn. by rewrite app_nil_r.
  - unfold escape_quotes. cbn [flat_map map]. rewrite <- app_assoc, quoted_loop_escape_char.
    fold (escape_quotes s). by rewrite IH, <- app_assoc.
Qed.

(** The parsed prefix and the rest make up the input: nothing is skipped. *)
Lemma quoted_loop_suffix input acc esc v rest :
  quoted_string_loop input acc esc = Ok (v, rest) ->
  exists consumed, input = consumed ++ DQUOTE :: rest.
Proof.
  revert acc esc. induction input as [|c input IH]; intros acc esc; cbn [quoted_string_loop]; [done|].
  destruct esc.
  { destruct (negb _); [done|]. intros (k & ->)%IH. by exists (c :: k). }
  destruct (c =b BACKSLASH); [intros (k & ->)%IH; by exists (c :: k)|].
  destruct (c =b DQUOTE) eqn:E.
  { apply byte_eqb_eq in E as ->. intros [= _ <-]. by exists []. }
  destruct (negb _); [done|]. intros (k & ->)%IH. by exists (c :: k).
Qed.

Lemma sanitize_chars s : forallb is_quoted_pair_char s = true -> map sanitize_char s = s.
Proof.
  induction s as [|c s IH]; cbn [forallb map]; [done|]. rewrite andb_true_iff. intros [H1 H2].
  unfold sanitize_char at 1. by rewrite H1, IH.
Qed.

(** *** Splitting outside quotes *)

Lemma split_quotes_not_nil input d part q e : split_quotes_loop input d part q e <> [].
Proof.
  revert part q e. induction input as [|c input IH]; intros part q e; cbn [split_quotes_loop]; [done|].
  by repeat case_match.
Qed.

Lemma join_split_quotes_loop input d part q e :
  join [d] (split_quotes_loop input d part q e) = part ++ input.
Proof.
  revert part q e. induction input as [|c input IH]; intros part q e; cbn [split_quotes_loop].
  - by rewrite app_nil_r.
  - destruct e; [by rewrite IH, <- app_assoc|].
    destruct (_ && q); [by rewrite IH, <- app_assoc|].
    destruct (c =b DQUOTE); [by rewrite IH, <- app_assoc|].
    destruct ((c =b d) && negb q) eqn:E; [|by rewrite IH, <- app_assoc].
    apply andb_true_iff in E as [->%byte_eqb_eq _].
    rewrite join_cons by apply split_quotes_not_nil. by rewrite IH.
Qed.

Lemma split_quotes_loop_plain input d part :
  d <> DQUOTE -> contains_byte DQUOTE input = false ->
  split_quotes_loop input d part false false =
  match split d input with p :: ps => (part ++ p) :: ps | [] => [part] end.
Proof.
  intros Hd. revert part. induction input as [|c input IH]; intros part Hq; cbn [split_quotes_loop split].
  - by rewrite app_nil_r.
  - unfold contains_byte in Hq. cbn [existsb] in Hq. apply orb_false_iff in Hq as [Hc Hq].
    rewrite andb_false_r, Hc, andb_true_r.
    pose proof (split_not_nil d input). destruct (c =b d); rewrite IH by done;
      (destruct (split d input) as [|p ps]; [done|]); by rewrite ?app_nil_r, <- ?app_assoc.
Qed.

Lemma is_empty_nil (l : bytes) : is_empty l = true -> l = [].
Proof. by destruct l. Qed.
