(* ===== verification/Host.v ===== *)
(** * The Host field and IP literals ([src/host.rs])

    [Host::parse] with its two forms (bracketed IP literal, or name with an
    optional port).  [Ipv4Addr] and [Ipv6Addr] parsing is the standard
    library's recursive descent parser ([core::net]): a parser is a function
    from the remaining input to the value and what follows it; [None] leaves
    the input as it was. *)
From S2P Require Import Prelude RustStd Validate.

(** ** core::net *)

Module Net.
(** The loop of [read_number] with [max_digits] given: value, digits read
    and rest, [None] once more than [max_digits] digits are seen. *)
Fixpoint number_loop (radix : N) (max_digits count : nat) (acc : N) (s : bytes) :
    option (N * nat * bytes) :=
  match s with
  | [] => Some (acc, count, s)
  | b :: s' =>
      match digit_value radix b with
      | None => Some (acc, count, s)
      | Some d =>
          if (max_digits <? S count)%nat then None
          else number_loop radix max_digits (S count) (acc * radix + d) s'
      end
  end.

Definition read_number (radix : N) (max_digits : nat) (allow_zero_prefix : bool) (max : N)
    (s : bytes) : option (N * bytes) :=
  let has_leading_zero := match s with b :: _ => b =b "0" | [] => false end in
  '(v, count, rest) ← number_loop radix max_digits 0 0 s;
  if (count =? 0)%nat then None
  else if negb allow_zero_prefix && has_leading_zero && (1 <? count)%nat then None
  else if v <=? max then Some (v, rest) else None.

Definition read_given_char (c : byte) (s : bytes) : option bytes :=
  match s with b :: s' => if b =b c then Some s' else None | [] => None end.

(** [read_separator(sep, index, inner)]. *)
Definition read_separator {A} (sep : byte) (index : nat) (inner : bytes -> option (A * bytes))
    (s : bytes) : option (A * bytes) :=
  match index with
  | O => inner s
  | S _ => s' ← read_given_char sep s; inner s'
  end.

Fixpoint read_octets (n i : nat) (s : bytes) : option (list N * bytes) :=
  match n with
  | O => Some ([], s)
  | S n' =>
      '(v, rest) ← read_separator "." i (read_number 10 3 false 255) s;
      '(vs, rest') ← read_octets n' (S i) rest;
      Some (v :: vs, rest')
  end.

Definition read_ipv4_addr (s : bytes) : option (list N * bytes) := read_octets 4 0 s.

(** The two 16-bit groups of an embedded IPv4 address. *)
Definition ipv4_groups (octets : list N) : list N :=
  match octets with
  | [a; b; c; d] => [a * 256 + b; c * 256 + d]
  | _ => []
  end.

(** [read_groups] from group [i] on, [left] groups short of the limit: the
    groups, whether an IPv4 address ended them, and the rest. *)
Fixpoint read_groups (left i : nat) (s : bytes) : list N * bool * bytes :=
  match left with
  | O => ([], false, s)
  | S left' =>
      match (if (1 <? left)%nat then read_separator ":" i read_ipv4_addr s else None) with
      | Some (octets, rest) => (ipv4_groups octets, true, rest)
      | None =>
          match read_separator ":" i (read_number 16 4 true 65535) s with
          | None => ([], false, s)
          | Some (g, rest) =>
              let '(gs, v4, rest') := read_groups left' (S i) rest in (g :: gs, v4, rest')
          end
      end
  end.

Definition read_ipv6_addr (s : bytes) : option (list N * bytes) :=
  let '(head, head_ipv4, s1) := read_groups 8 0 s in
  if (length head =? 8)%nat then Some (head, s1)
  else if (head_ipv4 : bool) then None
  else
    s2 ← read_given_char ":" s1;
    s3 ← read_given_char ":" s2;
    let limit := (8 - (length head + 1))%nat in
    let '(tail, _, s4) := read_groups limit 0 s3 in
    Some (head ++ replicate (8 - length head - length tail)%nat 0 ++ tail, s4).

(** [parse_with]: the whole input must be read. *)
Definition parse_all {A} (r : option (A * bytes)) : option A :=
  match r with Some (a, []) => Some a | _ => None end.

(** [s.parse::<Ipv4Addr>()] and [s.parse::<Ipv6Addr>()]. *)
Definition parse_ipv4 (s : str) : option (list N) :=
  if 15 <? blen s then None else parse_all (read_ipv4_addr s).
Definition parse_ipv6 (s : str) : option (list N) := parse_all (read_ipv6_addr s).
End Net.

(** ** host.rs *)

Inductive HostError : Type :=
  | HostEmpty
  | InvalidFormat
  | InvalidHost
  | InvalidPort.

(** [impl Display for HostError]. *)
Definition HostError_fmt (e : HostError) : str :=
  match e with
  | HostEmpty => B "empty Host header"
  | InvalidFormat => B "invalid Host header format"
  | InvalidHost => B "invalid Host header host"
  | InvalidPort => B "invalid Host header port"
  end.

(** [struct Host]. *)
Record Host := { host : str; port : option N }.

Definition is_ipvfuture_char (b : byte) : bool :=
  is_unreserved_byte b || is_sub_delim_byte b || (b =b ":").

(** [bytes[i..]] after the run of hex digits, of length [hex_len]. *)
Definition is_valid_ipvfuture (input : str) : bool :=
  match input with
  | b0 :: rest =>
      negb (blen input <? 3)
      && ((b0 =b "v") || (b0 =b "V"))
      && (let hex_len := length (take_while is_ascii_hexdigit rest) in
          match skip_while is_ascii_hexdigit rest with
          | dot :: tail =>
              negb (hex_len =? 0)%nat && (dot =b ".")
              && negb (is_empty tail) && forallb is_ipvfuture_char tail
          | [] => false
          end)
  | [] => false
  end.

Definition is_valid_ipv6_or_future (input : str) : bool :=
  if starts_with (B "v") input || starts_with (B "V") input then is_valid_ipvfuture input
  else match Net.parse_ipv6 input with Some _ => true | None => false end.

(** The scan of [is_valid_reg_name]; the argument is [bytes[i..]]. *)
Fixpoint reg_name_scan (s : bytes) : bool :=
  match s with
  | [] => true
  | b :: s1 =>
      if is_unreserved_byte b || is_sub_delim_byte b then reg_name_scan s1
      else if b =b "%" then
        match s1 with
        | h :: l :: s3 =>
            if negb (is_ascii_hexdigit h) || negb (is_ascii_hexdigit l) then false
            else reg_name_scan s3
        | _ => false
        end
      else false
  end.

Definition is_valid_reg_name (input : str) : bool := negb (is_empty input) && reg_name_scan input.

Definition parse_port (input : str) : result HostError N :=
  if is_empty input || negb (forallb is_ascii_digit input) then Err InvalidPort
  else ok_or InvalidPort (parse_u16 input).

Definition split_host_port (input : str) : result HostError (str * option N) :=
  match rsplit_once ":" input with
  | Some (h, port_str) =>
      if contains_byte ":" h then Err InvalidHost
      else if is_empty port_str then Err InvalidPort
      else p ← parse_port port_str; Ok (h, Some p)
  | None => Ok (input, None)
  end.

Definition parse_ipv6_host (input : str) : result HostError Host :=
  match find_byte "]" input with
  | None => Err InvalidHost
  | Some stop =>
      let host_inner := drop 1 (take stop input) in
      let rest := drop (S stop) input in
      port ← (if is_empty rest then Ok None
              else match strip_prefix (B ":") rest with
                   | Some port_str => p ← parse_port port_str; Ok (Some p)
                   | None => Err InvalidHost
                   end);
      if is_empty host_inner then Err InvalidHost
      else if negb (is_valid_ipv6_or_future host_inner) then Err InvalidHost
      else Ok {| host := take (S stop) input; port := port |}
  end.

(** [Host::parse]. *)
Definition Host_parse (input0 : str) : result HostError Host :=
  let input := trim_ows input0 in
  if is_empty input then Err HostEmpty
  else if existsb is_whitespace (chars input) then Err InvalidFormat
  else if starts_with (B "[") input then parse_ipv6_host input
  else
    '(host_part, port) ← split_host_port input;
    if is_empty host_part || contains_byte "@" host_part then Err InvalidHost
    else
      match Net.parse_ipv4 host_part with
      | Some _ => Ok {| host := host_part; port := port |}
      | None =>
          if negb (is_valid_reg_name host_part) then Err InvalidHost
          else Ok {| host := host_part; port := port |}
      end.

Definition Host_is_ipv6 (h : Host) : bool := starts_with (B "[") (host h).

(** [impl Display for Host]. *)
Definition Host_fmt (h : Host) : str :=
  match port h with
  | Some p => host h ++ B ":" ++ show_dec p
  | None => host h
  end.

Example host_v4 : Host_parse (B "127.0.0.1:8080") = Ok {| host := B "127.0.0.1"; port := Some 8080 |}.
Proof. vm_compute. reflexivity. Qed.
Example host_v6 : Host_parse (B "[2001:db8::1]:443") = Ok {| host := B "[2001:db8::1]"; port := Some 443 |}.
Proof. vm_compute. reflexivity. Qed.
Example host_v6_v4 : Net.parse_ipv6 (B "::ffff:1.2.3.4") = Some [0; 0; 0; 0; 0; 65535; 258; 772].
Proof. vm_compute. reflexivity. Qed.
Example host_two_colons : Host_parse (B "a:b:80") = Err InvalidHost.
Proof. vm_compute. reflexivity. Qed.
