(* ===== verification/Target.v ===== *)
(** * Request targets ([src/request_target.rs], [src/decoder/body.rs])

    The four request-target forms of RFC 9112 and the decoder's validation of
    each. *)
From S2P Require Import Prelude RustStd Errors Validate Host.

(** [enum RequestTargetForm]. *)
Inductive RequestTargetForm : Type :=
  | Origin
  | Absolute
  | Authority
  | Asterisk.

#[export] Instance form_eq_dec : EqDecision RequestTargetForm.
Proof. solve_decision. Defined.

Definition is_scheme_char (b : byte) : bool :=
  is_ascii_alphanumeric b || (b =b "+") || (b =b "-") || (b =b ".").

(** [detect_scheme]: the position of the colon. *)
Definition detect_scheme (target : str) : option nat :=
  match target with
  | [] => None
  | b0 :: _ =>
      if negb (is_ascii_alphabetic b0) then None
      else
        colon_pos ← find_byte ":" target;
        if (colon_pos =? 0)%nat then None
        else if negb (forallb is_scheme_char (drop 1 (take colon_pos target))) then None
        else if (length target <=? colon_pos + 1)%nat then None
        else Some colon_pos
  end.

(** The three percent-decoding scans of body.rs share their shape: [ok] tells
    the plain characters, the errors are the caller's.  The argument is
    [bytes[i..]]. *)
Fixpoint scan_chars (ok : byte -> bool) (incomplete bad : str) (illegal : byte -> str) (s : bytes) :
    result Error.t unit :=
  match s with
  | [] => Ok tt
  | b :: s1 =>
      if b =b "%" then
        match s1 with
        | h :: l :: s3 =>
            if negb (is_ascii_hexdigit h) || negb (is_ascii_hexdigit l)
            then Err (Error.InvalidData bad)
            else scan_chars ok incomplete bad illegal s3
        | _ => Err (Error.InvalidData incomplete)
        end
      else if ok b then scan_chars ok incomplete bad illegal s1
      else Err (Error.InvalidData (illegal b))
  end.

Definition validate_path_chars (path : str) : result Error.t unit :=
  scan_chars is_pchar_or_slash (B "invalid path: incomplete percent-encoding")
    (B "invalid path: invalid percent-encoding")
    (fun b => B "invalid path: illegal character 0x" ++ show_02X b) path.

Definition validate_query_chars (query : str) : result Error.t unit :=
  scan_chars is_query_char (B "invalid query: incomplete percent-encoding")
    (B "invalid query: invalid percent-encoding")
    (fun b => B "invalid query: illegal character 0x" ++ show_02X b) query.

Definition is_authority_char (b : byte) : bool :=
  is_unreserved_byte b || is_sub_delim_byte b || (b =b ":") || (b =b "@") || (b =b "[")
  || (b =b "]").

Definition validate_authority_chars (authority : str) : result Error.t unit :=
  scan_chars is_authority_char (B "invalid authority: invalid percent-encoding")
    (B "invalid authority: invalid percent-encoding")
    (fun b => B "invalid authority: illegal character 0x" ++ show_02X b) authority.

(** [s.find(['/', '?']).unwrap_or(s.len())]. *)
Definition authority_end (s : str) : nat :=
  default (length s) (position (fun b => (b =b "/") || (b =b "?")) s).

(** [let (path, query) = if let Some(pos) = s.find('?')]. *)
Definition split_query (s : str) : str * option str :=
  match find_byte "?" s with
  | Some pos => (take pos s, Some (drop (S pos) s))
  | None => (s, None)
  end.

Definition validate_origin_form (target : str) : result Error.t unit :=
  if negb (starts_with (B "/") target) then invalid "invalid origin-form: must start with '/'"
  else if contains_byte "#" target then invalid "invalid request-target: fragment not allowed"
  else
    let '(path, query) := split_query target in
    _ ← validate_path_chars path;
    match query with Some q => validate_query_chars q | None => Ok tt end.

Definition validate_absolute_uri_parts (rest0 : str) : result Error.t unit :=
  path_start ←
    match strip_prefix (B "//") rest0 with
    | Some after_slashes =>
        let authority_len := authority_end after_slashes in
        _ ← validate_authority_chars (take authority_len after_slashes);
        Ok (authority_len + 2)%nat
    | None => Ok O
    end;
  let rest := drop path_start rest0 in
  let '(path, query) := split_query rest in
  _ ← (if negb (is_empty path) then validate_path_chars path else Ok tt);
  match query with Some q => validate_query_chars q | None => Ok tt end.

(** The loop of [validate_ipv6_brackets]: [depth] never goes below zero. *)
Fixpoint brackets_loop (depth : Z) (s : str) : bool :=
  match s with
  | [] => true
  | c :: s' =>
      if c =b "[" then brackets_loop (depth + 1) s'
      else if c =b "]" then if (depth - 1 <? 0)%Z then false else brackets_loop (depth - 1) s'
      else brackets_loop depth s'
  end.

Definition count_byte (c : byte) (s : str) : nat := length (List.filter (fun b => b =b c) s).

Definition validate_ipv6_brackets (target : str) : result Error.t unit :=
  if negb (count_byte "[" target =? count_byte "]" target)%nat
  then invalid "invalid request-target: unmatched IPv6 brackets"
  else if brackets_loop 0 target then Ok tt
  else invalid "invalid request-target: unmatched IPv6 brackets".

Definition validate_absolute_form (target : str) : result Error.t RequestTargetForm :=
  scheme_len ← ok_or (Error.InvalidData (B "invalid request-target: invalid scheme"))
                 (detect_scheme target);
  let scheme := take scheme_len target in
  if negb (match scheme with c :: _ => is_ascii_alphabetic c | [] => false end)
  then invalid "invalid request-target: invalid scheme"
  else if negb (forallb is_scheme_char (drop 1 scheme))
  then invalid "invalid request-target: invalid scheme"
  else if contains_byte "#" target then invalid "invalid request-target: fragment not allowed"
  else
    _ ← validate_ipv6_brackets target;
    let rest := drop (scheme_len + 1) target in
    _ ← validate_absolute_uri_parts rest;
    let scheme_lower := to_ascii_lowercase scheme in
    if (scheme_lower =s B "http") || (scheme_lower =s B "https") then
      match strip_prefix (B "//") rest with
      | None => Err (Error.InvalidData
                  (B "http/https URI must contain " ++ [DQUOTE] ++ B "://" ++ [DQUOTE]
                   ++ B " (RFC 9110 Section 4.2)"))
      | Some after_slashes =>
          let authority := take (authority_end after_slashes) after_slashes in
          if contains_byte "@" authority
          then invalid "userinfo not allowed in http/https URI (RFC 9110 Section 4.2.4)"
          else if is_empty authority || starts_with (B ":") authority
          then invalid "empty host identifier in http/https URI (RFC 9110 Section 4.2)"
          else Ok Absolute
      end
    else Ok Absolute.

Definition validate_authority_form (target : str) : result Error.t unit :=
  colon_pos ← ok_or (Error.InvalidData (B "invalid authority-form: missing port"))
                (rfind_byte ":" target);
  let host := take colon_pos target in
  let port_str := drop (S colon_pos) target in
  if is_empty host then invalid "invalid authority-form: empty host"
  else if is_empty port_str then invalid "invalid authority-form: empty port"
  else if negb (forallb is_ascii_digit port_str)
  then invalid "invalid authority-form: port must be numeric"
  else
    _ ← ok_or (Error.InvalidData (B "invalid authority-form: port out of range"))
          (parse_u16 port_str);
    _ ← map_err (fun _ => Error.InvalidData (B "invalid authority-form: invalid host"))
          (Host_parse host);
    Ok tt.

Definition parse_request_target_form (target : str) : result Error.t RequestTargetForm :=
  if is_empty target then invalid "invalid request-target: empty"
  else if target =s B "*" then Ok Asterisk
  else if starts_with (B "/") target then _ ← validate_origin_form target; Ok Origin
  else if contains_sub (B "://") target then validate_absolute_form target
  else if is_ok (validate_authority_form target) then Ok Authority
  else
    match detect_scheme target with
    | Some _ => validate_absolute_form target
    | None => invalid "invalid request-target: unrecognized form"
    end.

Definition validate_request_target_for_method (method : str) (form : RequestTargetForm) :
    result Error.t unit :=
  if method =s B "CONNECT" then
    if negb (bool_decide (form = Authority))
    then invalid "CONNECT method requires authority-form request-target" else Ok tt
  else if method =s B "OPTIONS" then
    if bool_decide (form = Authority)
    then invalid "OPTIONS method does not allow authority-form request-target" else Ok tt
  else
    match form with
    | Origin | Absolute => Ok tt
    | Authority =>
        Err (Error.InvalidData (method ++ B " method does not allow authority-form request-target"))
    | Asterisk =>
        Err (Error.InvalidData (method ++ B " method does not allow asterisk-form request-target"))
    end.

Example form_origin : parse_request_target_form (B "/a%20b?q=1") = Ok Origin.
Proof. vm_compute. reflexivity. Qed.
Example form_authority : parse_request_target_form (B "example.com:443") = Ok Authority.
Proof. vm_compute. reflexivity. Qed.
Example form_absolute : parse_request_target_form (B "http://[::1]:80/x") = Ok Absolute.
Proof. vm_compute. reflexivity. Qed.
