(* ===== verification/Trailer.v ===== *)
(** * Trailer declarations ([src/trailer.rs], [src/decoder/body.rs]) *)
From S2P Require Import Prelude RustStd Validate.

Inductive TrailerError : Type :=
  | TrailerEmpty
  | TrailerInvalidFormat
  | InvalidFieldName
  | ProhibitedField (name : str).

(** [impl Display for TrailerError]. *)
Definition TrailerError_fmt (e : TrailerError) : str :=
  match e with
  | TrailerEmpty => B "empty Trailer header"
  | TrailerInvalidFormat => B "invalid Trailer header format"
  | InvalidFieldName => B "invalid Trailer field name"
  | ProhibitedField name => B "prohibited trailer field: " ++ name
  end.

(** The fields that may not be sent as trailers, in the order of the code. *)
Definition prohibited_names : list str :=
  map B ["transfer-encoding"; "content-length"; "host"; "if-match"; "if-none-match";
         "if-modified-since"; "if-unmodified-since"; "if-range"; "range"; "expect"; "te";
         "authorization"; "proxy-authorization"; "www-authenticate"; "proxy-authenticate";
         "cache-control"; "vary"; "date"; "expires"; "age"; "set-cookie"; "content-encoding";
         "content-type"; "content-range"; "connection"; "upgrade"; "trailer"]%string.

Definition is_prohibited_trailer_field (name : str) : bool :=
  existsb (eq_ignore_ascii_case name) prohibited_names.

(** The loop of [Trailer::parse] over the comma separated parts. *)
Fixpoint trailer_loop (parts : list str) : result TrailerError (list str) :=
  match parts with
  | [] => Ok []
  | part :: parts' =>
      let name := trim_ows part in
      if is_empty name then trailer_loop parts'
      else if negb (is_valid_token name) then Err InvalidFieldName
      else
        let lower_name := to_ascii_lowercase name in
        if is_prohibited_trailer_field lower_name then Err (ProhibitedField lower_name)
        else fields ← trailer_loop parts'; Ok (lower_name :: fields)
  end.

(** [Trailer::parse] and [Trailer::fields]. *)
Definition Trailer_parse (input : str) : result TrailerError (list str) :=
  trailer_loop (split "," (trim_ows input)).

(** [impl Display for Trailer]. *)
Definition Trailer_fmt (fields : list str) : str := join (B ", ") fields.


(** [collect_declared_trailers]. *)
Definition declared_tokens (value : str) : list str :=
  flat_map (fun token => let token := trim_ows token in
                         if is_empty token then [] else [to_ascii_lowercase token])
    (split "," value).

Definition collect_declared_trailers (hs : list (str * str)) : list str :=
  flat_map (fun '(name, value) =>
              if negb (eq_ignore_ascii_case name (B "Trailer")) then [] else declared_tokens value)
    hs.

(** A header section declares a trailer field when the list in one of its
    Trailer headers has the field's name in it. *)
Definition declares_trailer (hs : list (str * str)) (name : str) : Prop :=
  exists n v token,
    (n, v) ∈ hs /\ eq_ignore_ascii_case n (B "Trailer") = true /\
    token ∈ split "," v /\ trim_ows token <> [] /\ eq_ignore_ascii_case (trim_ows token) name = true.

Lemma collect_declared_iff hs name :
  existsb (beqs (to_ascii_lowercase name)) (collect_declared_trailers hs) = true <-> declares_trailer hs name.
Proof.
  rewrite existsb_exists. unfold collect_declared_trailers, declares_trailer, declared_tokens. split.
  - intros (x & Hx & Heq). apply beqs_eq in Heq. subst x.
    apply in_flat_map in Hx as ([n v] & Hin & Hx). destruct (eq_ignore_ascii_case n _) eqn:Hn; [|done]. cbn [negb] in Hx.
    apply in_flat_map in Hx as (token & Ht & Hx). cbv zeta in Hx. destruct (is_empty (trim_ows token)) eqn:He; [done|].
    destruct Hx as [Hx|[]]. exists n, v, token. split_and!; [by apply list_elem_of_In | done | by apply list_elem_of_In | |].
    + intros H0. by rewrite H0 in He.
    + unfold eq_ignore_ascii_case. by apply beqs_eq.
  - intros (n & v & token & Hin & Hn & Ht & Hne & Heq). exists (to_ascii_lowercase name). split; [|by apply beqs_eq].
    apply in_flat_map. exists (n, v). split; [by apply list_elem_of_In|]. rewrite Hn. cbn [negb].
    apply in_flat_map. exists token. split; [by apply list_elem_of_In|]. cbv zeta.
    destruct (is_empty (trim_ows token)) eqn:He; [by apply is_empty_nil in He|]. left. by apply beqs_eq.
Qed.
