(* ===== verification/Framing.v ===== *)
(** * Message framing headers ([src/decoder/body.rs])

    Transfer-Encoding and Content-Length parsing, for requests and for
    responses, and the rule that a message does not carry both. *)
From S2P Require Import Prelude RustStd Errors Validate.

(** The nested [for (name, value) in headers] / [for token in value.split(',')]
    loops run [step] on every element in turn and stop at the first error. *)
Fixpoint foldM {E A S} (step : S -> A -> result E S) (s : S) (l : list A) : result E S :=
  match l with
  | [] => Ok s
  | x :: l' => s' ← step s x; foldM step s' l'
  end.

(** ** Transfer-Encoding *)

Inductive TransferEncodingResult : Type := TeNone | TeChunked | TeOther.

#[export] Instance te_eq_dec : EqDecision TransferEncodingResult.
Proof. solve_decision. Defined.

(** [trim_ows(token.split(';').next().unwrap_or(token))]. *)
Definition base_coding (token : str) : str := trim_ows (hd token (split ";" token)).

Definition chunked_params_error : str :=
  B "invalid Transfer-Encoding: chunked does not accept parameters (RFC 9112 Section 7.1)".

(** One token of a request's Transfer-Encoding; the state is [chunked_count]. *)
Definition te_request_token (chunked_count : N) (token0 : str) : result Error.t N :=
  let token := trim_ows token0 in
  if is_empty token then Ok chunked_count
  else
    let base := base_coding token in
    if negb (is_valid_token base) then invalid "invalid Transfer-Encoding: not a valid token"
    else if eq_ignore_ascii_case base (B "chunked") then
      if contains_byte ";" token then Err (Error.InvalidData chunked_params_error)
      else if 1 <? chunked_count + 1 then invalid "invalid Transfer-Encoding: duplicate chunked"
      else Ok (chunked_count + 1)
    else invalid "invalid Transfer-Encoding: unsupported coding".

Definition te_request_header (chunked_count : N) (h : str * str) : result Error.t N :=
  if eq_ignore_ascii_case (fst h) (B "Transfer-Encoding")
  then foldM te_request_token chunked_count (split "," (snd h))
  else Ok chunked_count.

Definition parse_transfer_encoding_for_request (hs : list (str * str)) : result Error.t bool :=
  chunked_count ← foldM te_request_header 0 hs;
  Ok (chunked_count =? 1).

(** One token of a response's Transfer-Encoding; the state is [all_tokens] and
    [chunked_count]. *)
Definition te_response_token (s : list str * N) (token0 : str) : result Error.t (list str * N) :=
  let '(all_tokens, chunked_count) := s in
  let token := trim_ows token0 in
  if is_empty token then Ok s
  else
    let base := base_coding token in
    if negb (is_valid_token base) then invalid "invalid Transfer-Encoding: not a valid token"
    else
      count ←
        (if eq_ignore_ascii_case base (B "chunked") then
           if contains_byte ";" token then Err (Error.InvalidData chunked_params_error)
           else if 1 <? chunked_count + 1
           then invalid "invalid Transfer-Encoding: duplicate chunked"
           else Ok (chunked_count + 1)
         else Ok chunked_count);
      Ok (all_tokens ++ [to_ascii_lowercase base], count).

Definition te_response_header (s : list str * N) (h : str * str) : result Error.t (list str * N) :=
  if eq_ignore_ascii_case (fst h) (B "Transfer-Encoding")
  then foldM te_response_token s (split "," (snd h))
  else Ok s.

Definition parse_transfer_encoding_for_response (hs : list (str * str)) :
    result Error.t TransferEncodingResult :=
  '(all_tokens, _) ← foldM te_response_header ([], 0) hs;
  if is_empty all_tokens then Ok TeNone
  else match list.last all_tokens with
       | Some t => if t =s B "chunked" then Ok TeChunked else Ok TeOther
       | None => Ok TeOther
       end.

(** ** Content-Length *)

(** One element of the list; the state is [result]. *)
Definition content_length_part (acc : option N) (part0 : str) : result Error.t (option N) :=
  let part := trim_ows part0 in
  if is_empty part then Ok acc
  else if negb (forallb is_ascii_digit part) then invalid "invalid Content-Length: not a number"
  else
    value ← ok_or (Error.InvalidData (B "invalid Content-Length: overflow")) (parse_u64 part);
    match acc with
    | None => Ok (Some value)
    | Some prev =>
        if negb (prev =? value) then invalid "invalid Content-Length: mismatched values in list"
        else Ok acc
    end.

Definition parse_content_length_value (input : str) : result Error.t N :=
  r ← foldM content_length_part None (split "," input);
  ok_or (Error.InvalidData (B "invalid Content-Length: empty")) r.

Definition content_length_header (value : option N) (h : str * str) : result Error.t (option N) :=
  if eq_ignore_ascii_case (fst h) (B "Content-Length") then
    parsed ← parse_content_length_value (snd h);
    match value with
    | Some prev =>
        if negb (prev =? parsed) then invalid "invalid Content-Length: mismatched values"
        else Ok value
    | None => Ok (Some parsed)
    end
  else Ok value.

Definition parse_content_length (hs : list (str * str)) : result Error.t (option N) :=
  foldM content_length_header None hs.

(** ** Both *)

Definition is_some {A} (o : option A) : bool := match o with Some _ => true | None => false end.

Definition resolve_body_headers_for_request (hs : list (str * str)) :
    result Error.t (bool * option N) :=
  chunked ← parse_transfer_encoding_for_request hs;
  content_length ← parse_content_length hs;
  if (chunked : bool) && is_some content_length
  then invalid "invalid message: both Transfer-Encoding and Content-Length"
  else Ok (chunked, content_length).

Definition resolve_body_headers_for_response (hs : list (str * str)) :
    result Error.t (TransferEncodingResult * option N) :=
  te_result ← parse_transfer_encoding_for_response hs;
  content_length ← parse_content_length hs;
  if negb (bool_decide (te_result = TeNone)) && is_some content_length
  then invalid "invalid message: both Transfer-Encoding and Content-Length"
  else if negb (bool_decide (te_result = TeNone)) then Ok (te_result, None)
  else Ok (TeNone, content_length).

Example cl_list : parse_content_length [(B "content-length", B "5, 5")] = Ok (Some 5).
Proof. vm_compute. reflexivity. Qed.
Example te_dup :
  parse_transfer_encoding_for_request [(B "Transfer-Encoding", B "chunked, chunked")]
  = invalid "invalid Transfer-Encoding: duplicate chunked".
Proof. vm_compute. reflexivity. Qed.
