(* ===== verification/StatusCode.v ===== *)
(** * Status codes ([src/status_code.rs]) *)
From S2P Require Import Prelude RustStd Validate.

(** [enum StatusClass]. *)
Inductive StatusClass : Type :=
  | Informational
  | Successful
  | Redirection
  | ClientError
  | ServerError.

#[export] Instance class_eq_dec : EqDecision StatusClass.
Proof. solve_decision. Defined.

Definition StatusClass_from_status_code (code : N) : option StatusClass :=
  if (100 <=? code) && (code <=? 199) then Some Informational
  else if (200 <=? code) && (code <=? 299) then Some Successful
  else if (300 <=? code) && (code <=? 399) then Some Redirection
  else if (400 <=? code) && (code <=? 499) then Some ClientError
  else if (500 <=? code) && (code <=? 599) then Some ServerError
  else None.

(** [struct StatusCode]. *)
Record StatusCode := { code : N; canonical_reason : str }.

(** The constants of [impl StatusCode], in source order. *)
Definition registered : list StatusCode :=
  map (fun '(c, r) => {| code := c; canonical_reason := B r |})
    [(100, "Continue"); (101, "Switching Protocols"); (102, "Processing"); (103, "Early Hints");
     (200, "OK"); (201, "Created"); (202, "Accepted"); (203, "Non-Authoritative Information");
     (204, "No Content"); (205, "Reset Content"); (206, "Partial Content");
     (207, "Multi-Status"); (208, "Already Reported"); (226, "IM Used");
     (300, "Multiple Choices"); (301, "Moved Permanently"); (302, "Found"); (303, "See Other");
     (304, "Not Modified"); (305, "Use Proxy"); (307, "Temporary Redirect");
     (308, "Permanent Redirect");
     (400, "Bad Request"); (401, "Unauthorized"); (402, "Payment Required"); (403, "Forbidden");
     (404, "Not Found"); (405, "Method Not Allowed"); (406, "Not Acceptable");
     (407, "Proxy Authentication Required"); (408, "Request Timeout"); (409, "Conflict");
     (410, "Gone"); (411, "Length Required"); (412, "Precondition Failed");
     (413, "Content Too Large"); (414, "URI Too Long"); (415, "Unsupported Media Type");
     (416, "Range Not Satisfiable"); (417, "Expectation Failed"); (418, "I'm a teapot");
     (421, "Misdirected Request"); (422, "Unprocessable Content"); (423, "Locked");
     (424, "Failed Dependency"); (425, "Too Early"); (426, "Upgrade Required");
     (428, "Precondition Required"); (429, "Too Many Requests");
     (431, "Request Header Fields Too Large"); (451, "Unavailable For Legal Reasons");
     (500, "Internal Server Error"); (501, "Not Implemented"); (502, "Bad Gateway");
     (503, "Service Unavailable"); (504, "Gateway Timeout"); (505, "HTTP Version Not Supported");
     (506, "Variant Also Negotiates"); (507, "Insufficient Storage"); (508, "Loop Detected");
     (510, "Not Extended"); (511, "Network Authentication Required")]%string.

(** [StatusCode::from_code]: each arm of the match names the constant with
    that code. *)
Definition from_code (c : N) : option StatusCode :=
  List.find (fun s => code s =? c) registered.

(** [StatusCode::class]: [None] is the panic of its last arm. *)
Definition StatusCode_class (s : StatusCode) : option StatusClass :=
  StatusClass_from_status_code (code s).

(** Every registered code is in 100..=599 and has a valid reason phrase. *)
Lemma registered_valid s :
  In s registered ->
  is_valid_status_code (code s) = true /\ is_valid_reason_phrase (canonical_reason s) = true.
Proof.
  assert (H : forallb (fun s => is_valid_status_code (code s)
                && is_valid_reason_phrase (canonical_reason s)) registered = true)
    by (vm_compute; reflexivity).
  rewrite forallb_forall in H. intros Hin. by apply H, andb_true_iff in Hin.
Qed.

Lemma class_total c : is_valid_status_code c = true <-> is_Some (StatusClass_from_status_code c).
Proof.
  unfold is_valid_status_code, StatusClass_from_status_code. split.
  - intros H. repeat case_match; try by eexists. lia.
  - intros [x H]. repeat case_match; try done; lia.
Qed.

Lemma registered_codes_nodup : NoDup (map code registered).
Proof. apply (bool_decide_unpack _). vm_compute. exact I. Qed.

(** [from_code] finds every constant, and only constants with that code. *)
Lemma from_code_registered s : In s registered <-> from_code (code s) = Some s.
Proof.
  split.
  - intros Hin. unfold from_code.
    destruct (List.find (fun s' => code s' =? code s) registered) as [s'|] eqn:E.
    + apply List.find_some in E as [Hin' Hc]. apply N.eqb_eq in Hc. f_equal.
      apply list_elem_of_In, list_elem_of_lookup in Hin as [i Hi].
      apply list_elem_of_In, list_elem_of_lookup in Hin' as [j Hj].
      assert (i = j) as ->; [|congruence].
      apply (NoDup_lookup _ _ _ (code s) registered_codes_nodup);
        rewrite list_lookup_fmap; [by rewrite Hi | by rewrite Hj; simpl; f_equal].
    + exfalso. apply (List.find_none _ _ E) in Hin. by rewrite N.eqb_refl in Hin.
  - intros H. by apply List.find_some in H as [H _].
Qed.
