(* ===== verification/Head.v ===== *)
(** * Message heads ([src/decoder/head.rs])

    The trait [HttpHead] is a class; its provided methods are definitions over
    any instance.  [RequestHead] and [ResponseHead] are the heads the
    streaming decoders return. *)
From S2P Require Import Prelude RustStd Errors Validate Framing StatusCode.

(** ** trait HttpHead *)

Class HttpHead (T : Type) := {
  version : T -> str;
  headers : T -> list (str * str)
}.

(** [n.eq_ignore_ascii_case(name)] on the name of a header. *)
Definition named (name : str) (h : str * str) : bool := eq_ignore_ascii_case (fst h) name.

Section HttpHeadMethods.
Context {T : Type} `{HttpHead T}.

Definition get_header (name : str) (m : T) : option str :=
  snd <$> List.find (named name) (headers m).

Definition get_headers (name : str) (m : T) : list str :=
  map snd (List.filter (named name) (headers m)).

Definition has_header (name : str) (m : T) : bool := existsb (named name) (headers m).

Definition connection (m : T) : option str := get_header (B "Connection") m.

(** The nested loops of [is_keep_alive]: [None] is the [return false] on a
    close token, otherwise [has_keep_alive]. *)
Fixpoint keep_alive_tokens (has_keep_alive : bool) (tokens : list str) : option bool :=
  match tokens with
  | [] => Some has_keep_alive
  | token0 :: tokens' =>
      let token := trim_ows token0 in
      if eq_ignore_ascii_case token (B "close") then None
      else keep_alive_tokens
             (has_keep_alive || eq_ignore_ascii_case token (B "keep-alive")) tokens'
  end.

Fixpoint keep_alive_headers (has_keep_alive : bool) (hs : list (str * str)) : option bool :=
  match hs with
  | [] => Some has_keep_alive
  | h :: hs' =>
      if named (B "Connection") h then
        k ← keep_alive_tokens has_keep_alive (split "," (snd h));
        keep_alive_headers k hs'
      else keep_alive_headers has_keep_alive hs'
  end.

Definition is_keep_alive (m : T) : bool :=
  match keep_alive_headers false (headers m) with
  | None => false
  | Some true => true
  | Some false => version m =s B "HTTP/1.1"
  end.

Definition content_length (m : T) : result Error.t (option N) :=
  parse_content_length (headers m).

(** The non-empty Transfer-Encoding tokens, in order. *)
Definition te_tokens (hs : list (str * str)) : list str :=
  flat_map (fun h => if named (B "Transfer-Encoding") h
                     then List.filter (fun t => negb (is_empty t)) (map trim_ows (split "," (snd h)))
                     else []) hs.

Definition is_chunked (m : T) : bool :=
  match list.last (te_tokens (headers m)) with
  | Some t => eq_ignore_ascii_case t (B "chunked")
  | None => false
  end.
End HttpHeadMethods.

(** A header is well formed when its name is a token and its value has no
    control character but the tab. *)
Definition header_ok (h : str * str) : bool :=
  is_valid_header_name (fst h) && is_valid_field_value (snd h).

(** The check of [add_header], shared by the four message types. *)
Definition check_header (name value : str) : result EncodeError.t unit :=
  if negb (is_valid_header_name name) then Err (EncodeError.InvalidHeaderName name)
  else if negb (is_valid_field_value value) then Err (EncodeError.InvalidHeaderValue name value)
  else Ok tt.

(** A valid field is added. *)
Lemma header_ok_checked n v : header_ok (n, v) = true -> check_header n v = Ok tt.
Proof. unfold header_ok, check_header. cbn [fst snd]. by intros [-> ->]%andb_true_iff. Qed.

(** ** struct RequestHead *)

Module RequestHead.
Record t := {
  method : str;
  uri : str;
  version : str;
  headers : list (str * str)
}.

Definition with_version (method uri version : str) : result EncodeError.t t :=
  if negb (is_valid_method method) then Err (EncodeError.InvalidMethod method)
  else if negb (is_valid_request_target uri) then Err (EncodeError.InvalidRequestTarget uri)
  else if negb (is_valid_protocol_version version) then Err (EncodeError.InvalidVersion version)
  else Ok {| method := method; uri := uri; version := version; headers := [] |}.

Definition new (method uri : str) : result EncodeError.t t :=
  with_version method uri (B "HTTP/1.1").

(** [add_header] and [header]. *)
Definition add_header (name value : str) (r : t) : result EncodeError.t t :=
  _ ← check_header name value;
  Ok {| method := method r; uri := uri r; version := version r;
        headers := headers r ++ [(name, value)] |}.

Definition from_validated_parts (method uri version : str) (headers : list (str * str)) : t :=
  {| method := method; uri := uri; version := version; headers := headers |}.

(** The [debug_assert!]s of [from_validated_parts]. *)
Definition valid (r : t) : bool :=
  is_valid_method (method r) && is_valid_request_target (uri r)
  && is_valid_protocol_version (version r) && forallb header_ok (headers r).
End RequestHead.

#[export] Instance RequestHead_head : HttpHead RequestHead.t :=
  {| version := RequestHead.version; headers := RequestHead.headers |}.

(** ** struct ResponseHead *)

Module ResponseHead.
Record t := {
  version : str;
  status_code : N;
  reason_phrase : str;
  headers : list (str * str)
}.

Definition with_version (version : str) (status_code : N) (reason_phrase : str) :
    result EncodeError.t t :=
  if negb (is_valid_protocol_version version) then Err (EncodeError.InvalidVersion version)
  else if negb (is_valid_status_code status_code)
  then Err (EncodeError.InvalidStatusCode status_code)
  else if negb (is_empty reason_phrase) && negb (is_valid_reason_phrase reason_phrase)
  then Err (EncodeError.InvalidReasonPhrase reason_phrase)
  else Ok {| version := version; status_code := status_code;
             reason_phrase := reason_phrase; headers := [] |}.

Definition new (status_code : N) (reason_phrase : str) : result EncodeError.t t :=
  with_version (B "HTTP/1.1") status_code reason_phrase.

Definition add_header (name value : str) (r : t) : result EncodeError.t t :=
  _ ← check_header name value;
  Ok {| version := version r; status_code := status_code r; reason_phrase := reason_phrase r;
        headers := headers r ++ [(name, value)] |}.

(** [status_class]: [None] is the failing [expect]. *)
Definition status_class (r : t) : option StatusClass := StatusClass_from_status_code (status_code r).

Definition from_validated_parts (version : str) (status_code : N) (reason_phrase : str)
    (headers : list (str * str)) : t :=
  {| version := version; status_code := status_code; reason_phrase := reason_phrase;
     headers := headers |}.

(** The [debug_assert!]s of [from_validated_parts]. *)
Definition valid (r : t) : bool :=
  is_valid_protocol_version (version r) && is_valid_status_code (status_code r)
  && (is_empty (reason_phrase r) || is_valid_reason_phrase (reason_phrase r))
  && forallb header_ok (headers r).
End ResponseHead.

#[export] Instance ResponseHead_head : HttpHead ResponseHead.t :=
  {| version := ResponseHead.version; headers := ResponseHead.headers |}.

(** ** Lemmas *)

Lemma check_header_Ok name value :
  check_header name value = Ok tt <-> header_ok (name, value) = true.
Proof.
  unfold check_header, header_ok. cbn [fst snd].
  destruct (is_valid_header_name name), (is_valid_field_value value); simpl; naive_solver.
Qed.

Lemma header_ok_iff h :
  header_ok h = true <-> is_valid_header_name (fst h) = true /\ is_valid_field_value (snd h) = true.
Proof. unfold header_ok. by rewrite andb_true_iff. Qed.

Section HeadLemmas.
Context {T : Type} `{HttpHead T}.

Lemma has_header_get_header name (m : T) : has_header name m = is_some (get_header name m).
Proof.
  unfold has_header, get_header. induction (headers m) as [|h hs IH]; [done|].
  cbn [existsb List.find]. by destruct (named name h).
Qed.

Lemma has_header_get_headers name (m : T) :
  has_header name m = negb (is_empty (get_headers name m)).
Proof.
  unfold has_header, get_headers. induction (headers m) as [|h hs IH]; [done|].
  cbn [existsb List.filter]. by destruct (named name h).
Qed.

Lemma get_header_first name (m : T) : get_header name m = hd_error (get_headers name m).
Proof.
  unfold get_header, get_headers. induction (headers m) as [|h hs IH]; [done|].
  cbn [List.find List.filter]. by destruct (named name h).
Qed.
End HeadLemmas.
