(* ===== verification/FramingFacts.v ===== *)
(** * What the framing headers of a request mean

    The accepted values of Transfer-Encoding and Content-Length, without the
    loops of the code: the list of tokens, and the list of numbers. *)
From S2P Require Import Prelude RustStd Errors Validate Framing Head.

(** ** foldM *)

Lemma foldM_app {E A S} (step : S -> A -> result E S) s l k :
  foldM step s (l ++ k) = (s' ← foldM step s l; foldM step s' k).
Proof.
  revert s. induction l as [|x l IH]; intros s; [done|]. cbn [app foldM].
  destruct (step s x) as [s'|e]; [|done]. cbn [mbind result_bind]. apply IH.
Qed.

(** A nested loop over the pieces of the elements that matter. *)
Lemma foldM_flat {E A C S} (step : S -> C -> result E S) (use : A -> bool) (pieces : A -> list C) s l :
  foldM (fun s x => if use x then foldM step s (pieces x) else Ok s) s l
  = foldM step s (flat_map (fun x => if use x then pieces x else []) l).
Proof.
  revert s. induction l as [|x l IH]; intros s; [done|]. cbn [foldM flat_map].
  rewrite foldM_app. destruct (use x).
  - destruct (foldM step s (pieces x)) as [s'|e]; [|done]. cbn [mbind result_bind]. apply IH.
  - cbn [foldM mbind result_bind]. apply IH.
Qed.

(** ** Transfer-Encoding *)

Definition chunked_token (t : str) : bool := eq_ignore_ascii_case t (B "chunked").

(** All the pieces of the Transfer-Encoding values, not trimmed. *)
Definition te_pieces (hs : list (str * str)) : list str :=
  flat_map (fun h => if named (B "Transfer-Encoding") h then split "," (snd h) else []) hs.

Lemma te_tokens_pieces hs :
  te_tokens hs = List.filter (fun t => negb (is_empty t)) (map trim_ows (te_pieces hs)).
Proof.
  unfold te_tokens, te_pieces. induction hs as [|h hs IH]; [done|]. cbn [flat_map].
  rewrite map_app, List.filter_app, IH. by destruct (named _ h).
Qed.

Lemma hd_split_semicolon d s :
  hd d (split ";" s) = match split_once ";" s with Some (a, _) => a | None => s end.
Proof.
  destruct (split_once ";" s) as [[a r]|] eqn:Hs.
  - apply split_once_Some in Hs as [-> Ha]. by rewrite split_app.
  - apply split_once_None in Hs. by rewrite split_no_sep.
Qed.

Lemma chunked_is_token t : chunked_token t = true -> is_valid_token t = true.
Proof.
  unfold chunked_token, eq_ignore_ascii_case. intros Ht.
  apply beqs_eq in Ht. change (to_ascii_lowercase (B "chunked")) with (B "chunked") in Ht.
  unfold is_valid_token. apply andb_true_iff. split; [by destruct t|].
  assert (Hl : forallb is_token_char (to_ascii_lowercase t) = true) by (rewrite Ht; by vm_compute).
  unfold to_ascii_lowercase in Hl. rewrite forallb_forall in Hl |- *. intros b Hb.
  specialize (Hl (to_ascii_lowercase_byte b) (in_map _ _ _ Hb)). revert Hl. clear. byte_solve b.
Qed.

(** One piece: nothing, the token chunked, or an error. *)
Lemma te_request_token_spec n t0 :
  match te_request_token n t0 with
  | Ok n' =>
      trim_ows t0 = [] /\ n' = n \/
      chunked_token (trim_ows t0) = true /\ n = 0 /\ n' = 1
  | Err _ => trim_ows t0 <> [] /\ (chunked_token (trim_ows t0) = false \/ n <> 0)
  end.
Proof.
  unfold te_request_token, invalid. set (t := trim_ows t0).
  destruct (is_empty t) eqn:He; [left; by destruct t|].
  assert (Hne : t <> []) by (by intros ->).
  unfold base_coding. rewrite hd_split_semicolon.
  destruct (split_once ";" t) as [[a r]|] eqn:Hs.
  - assert (Hc : contains_byte ";" t = true).
    { apply split_once_Some in Hs as [-> _]. rewrite contains_byte_app. by rewrite orb_comm. }
    assert (Hn : chunked_token t = false).
    { destruct (chunked_token t) eqn:Ht; [|done]. apply chunked_is_token, andb_true_iff in Ht as [_ Ht].
      by rewrite (token_contains ";" t Ht) in Hc. }
    rewrite Hc. destruct (negb _); [by auto|]. destruct (eq_ignore_ascii_case _ _); by auto.
  - apply split_once_None in Hs. rewrite Hs. unfold t at 1 2 3. rewrite trim_ows_idempotent. fold t.
    destruct (is_valid_token t) eqn:Hv; cbn [negb].
    + fold (chunked_token t). destruct (chunked_token t) eqn:Ht; [|by auto].
      destruct (1 <? n + 1) eqn:Hn; [split; [done|right; lia]|]. right. split_and!; [done | lia | lia].
    + split; [done|]. left. destruct (chunked_token t) eqn:Ht; [|done]. by rewrite chunked_is_token in Hv.
Qed.

Lemma te_fold n ps n' :
  foldM te_request_token n ps = Ok n' <->
  let ts := List.filter (fun t => negb (is_empty t)) (map trim_ows ps) in
  ts = [] /\ n' = n \/ n = 0 /\ n' = 1 /\ exists t, ts = [t] /\ chunked_token t = true.
Proof.
  cbv zeta. revert n. induction ps as [|p ps IH]; intros n; cbn [foldM map List.filter].
  { split; [intros <-%Ok_inj; by left | intros [[_ ->]|(_ & _ & t & ? & _)]; done]. }
  pose proof (te_request_token_spec n p) as Hp.
  destruct (te_request_token n p) as [n1|e]; cbn [mbind result_bind].
  - rewrite IH. destruct Hp as [[-> ->]|(Hc & -> & ->)]; [done|].
    assert (Hne : is_empty (trim_ows p) = false) by (by destruct (trim_ows p)).
    rewrite Hne. cbn [negb]. split.
    + intros [[-> ->]|(H & _)]; [|done]. right. split_and!; [done..|]. by exists (trim_ows p).
    + intros [[H _]|(_ & -> & t & H & _)]; [done|]. left. by injection H as _ ->.
  - assert (Hne : is_empty (trim_ows p) = false) by (by destruct (trim_ows p); destruct Hp).
    rewrite Hne. cbn [negb]. split; [done|]. intros [[H _]|(-> & _ & t & H & Ht)]; [done|].
    injection H as <- H. destruct Hp as [_ [Hp|Hp]]; congruence.
Qed.

(** A request's Transfer-Encoding is accepted when its only token, if there is
    one, is chunked. *)
Lemma parse_te_request_iff hs b :
  parse_transfer_encoding_for_request hs = Ok b <->
  te_tokens hs = [] /\ b = false \/ exists t, te_tokens hs = [t] /\ chunked_token t = true /\ b = true.
Proof.
  unfold parse_transfer_encoding_for_request. rewrite te_tokens_pieces.
  assert (Hf : foldM te_request_header 0 hs = foldM te_request_token 0 (te_pieces hs)).
  { unfold te_pieces. rewrite <- foldM_flat. done. }
  rewrite Hf. destruct (foldM te_request_token 0 (te_pieces hs)) as [n|e] eqn:Ht; cbn [mbind result_bind].
  - apply te_fold in Ht. cbv zeta in Ht. destruct Ht as [[-> ->]|(_ & -> & t & -> & Hc)]; cbn [N.eqb Pos.eqb].
    + split; [intros <-%Ok_inj; by left | intros [[_ ->]|(t & ? & _)]; done].
    + split; [intros <-%Ok_inj; right; by exists t | intros [[? _]|(t' & _ & _ & ->)]; done].
  - split; [done|]. intros Hts. exfalso.
    assert (Hok : exists n, foldM te_request_token 0 (te_pieces hs) = Ok n).
    { destruct Hts as [[Hts _]|(t & Hts & Hc & _)];
        [exists 0; apply te_fold; cbv zeta; by left|exists 1; apply te_fold; cbv zeta; right; eauto]. }
    destruct Hok as [n Hn]. congruence.
Qed.

(** *** Responses *)

(** A coding a response may have: a token, and no parameters for chunked. *)
Definition coding_ok (t : str) : bool :=
  is_valid_token (base_coding t) && negb (chunked_token (base_coding t) && contains_byte ";" t).

Definition is_chunked_coding (t : str) : bool := chunked_token (base_coding t).

Definition chunked_count (ts : list str) : N := blen (List.filter is_chunked_coding ts).

(** What the last coding says. *)
Definition te_kind (ts : list str) : TransferEncodingResult :=
  match list.last ts with
  | None => TeNone
  | Some t => if is_chunked_coding t then TeChunked else TeOther
  end.

Lemma te_response_token_spec acc n t0 :
  te_response_token (acc, n) t0 =
    let t := trim_ows t0 in
    if is_empty t then Ok (acc, n)
    else
      if negb (is_valid_token (base_coding t)) then invalid "invalid Transfer-Encoding: not a valid token"
      else if negb (coding_ok t) then Err (Error.InvalidData chunked_params_error)
      else if is_chunked_coding t && (1 <? n + 1) then invalid "invalid Transfer-Encoding: duplicate chunked"
      else Ok (acc ++ [to_ascii_lowercase (base_coding t)], n + if is_chunked_coding t then 1 else 0).
Proof.
  unfold te_response_token. cbv zeta. destruct (is_empty _); [done|].
  unfold coding_ok, is_chunked_coding, chunked_token. destruct (is_valid_token _); cbn [negb andb]; [|done].
  destruct (eq_ignore_ascii_case _ _); cbn [andb negb]; [|by rewrite N.add_0_r].
  destruct (contains_byte _ _); cbn [negb]; [done|]. by destruct (1 <? n + 1).
Qed.

Lemma chunked_count_cons t ts : chunked_count (t :: ts) = (if is_chunked_coding t then 1 else 0) + chunked_count ts.
Proof. unfold chunked_count. cbn [List.filter]. destruct (is_chunked_coding t); rewrite ?blen_cons; lia. Qed.

Lemma te_response_fold acc n ps acc' n' :
  foldM te_response_token (acc, n) ps = Ok (acc', n') <->
  let ts := List.filter (fun t => negb (is_empty t)) (map trim_ows ps) in
  forallb coding_ok ts = true /\ n' = n + chunked_count ts /\ (chunked_count ts = 0 \/ n' <= 1) /\
  acc' = acc ++ map (fun t => to_ascii_lowercase (base_coding t)) ts.
Proof.
  cbv zeta. revert acc n. induction ps as [|p ps IH]; intros acc n; cbn [foldM map List.filter forallb].
  { rewrite app_nil_r, N.add_0_r. split; [by intros [= <- <-]%Ok_inj; auto | by intros (_ & -> & _ & ->)]. }
  rewrite te_response_token_spec. cbv zeta. destruct (is_empty (trim_ows p)) eqn:He; cbn [negb mbind result_bind]; [apply IH|].
  set (t := trim_ows p). cbn [forallb map]. rewrite chunked_count_cons.
  destruct (is_valid_token (base_coding t)) eqn:Hv; cbn [negb].
  2: { unfold invalid. split; [done|]. intros [Hx _]. unfold coding_ok in Hx. by rewrite Hv in Hx. }
  destruct (coding_ok t); cbn [negb andb]; [|by split; [|intros [? _]]].
  destruct (is_chunked_coding t); cbn [andb].
  - destruct (1 <? n + 1) eqn:Hn; unfold invalid.
    + split; [done|]. intros (_ & -> & Hx & _). lia.
    + cbn [mbind result_bind]. rewrite IH, <- app_assoc.
      split; intros (-> & -> & Hx & ->); split_and!; try done; lia.
  - cbn [mbind result_bind]. rewrite IH, <- app_assoc.
    split; intros (-> & -> & Hx & ->); split_and!; try done; lia.
Qed.

(** A response's Transfer-Encoding is accepted when its codings are tokens and
    chunked is there at most once, without parameters; the last coding counts. *)
Lemma parse_te_response_iff hs r :
  parse_transfer_encoding_for_response hs = Ok r <->
  forallb coding_ok (te_tokens hs) = true /\ chunked_count (te_tokens hs) <= 1 /\ r = te_kind (te_tokens hs).
Proof.
  unfold parse_transfer_encoding_for_response. rewrite te_tokens_pieces.
  assert (Hf : foldM te_response_header ([], 0) hs = foldM te_response_token ([], 0) (te_pieces hs)).
  { unfold te_pieces. rewrite <- foldM_flat. done. }
  rewrite Hf. set (ts := List.filter _ _).
  pose proof (fun acc n => te_response_fold [] 0 (te_pieces hs) acc n) as Hfold. cbv zeta in Hfold. fold ts in Hfold.
  assert (Hlast : forall acc, acc = map (fun t => to_ascii_lowercase (base_coding t)) ts ->
    (if is_empty acc then Ok TeNone
     else match list.last acc with
          | Some t => if t =s B "chunked" then Ok TeChunked else Ok TeOther
          | None => Ok TeOther
          end) = Ok (E := Error.t) (te_kind ts)).
  { intros acc ->. unfold te_kind. change (map ?f ts) with (f <$> ts). rewrite fmap_last. destruct ts as [|t0 ts0] eqn:Hts; [done|].
    cbn [fmap list_fmap is_empty]. destruct (list.last (t0 :: ts0)) as [t|] eqn:Hl; [|by apply last_None in Hl].
    cbn [fmap option_map option_fmap]. unfold is_chunked_coding, chunked_token, eq_ignore_ascii_case.
    change (to_ascii_lowercase (B "chunked")) with (B "chunked"). by destruct (_ =s _). }
  destruct (foldM te_response_token ([], 0) (te_pieces hs)) as [[acc n]|e]; cbn [mbind result_bind].
  - destruct (proj1 (Hfold acc n) eq_refl) as (H1 & H2 & H3 & H4). cbn [app] in H4. rewrite (Hlast acc H4), H1.
    split; [intros <-%Ok_inj; split_and!; try done; lia | by intros (_ & _ & ->)].
  - split; [done|]. intros (H1 & H2 & ->). exfalso.
    by discriminate (proj2 (Hfold _ _) (conj H1 (conj eq_refl (conj (or_intror H2) eq_refl)))).
Qed.

(** ** Content-Length *)

(** The numbers written in a Content-Length value: its pieces, trimmed, but the empty ones. *)
Definition cl_parts (value : str) : list str :=
  List.filter (fun p => negb (is_empty p)) (map trim_ows (split "," value)).

(** A part is the number [n] written in decimal digits. *)
Definition is_number (n : N) (p : str) : Prop := forallb is_ascii_digit p = true /\ parse_u64 p = Some n.

Lemma cl_part_spec acc p0 r :
  content_length_part acc p0 = Ok r <->
  trim_ows p0 = [] /\ r = acc \/
  trim_ows p0 <> [] /\ exists n, is_number n (trim_ows p0) /\ r = Some n /\ (acc = None \/ acc = Some n).
Proof.
  unfold content_length_part, invalid, is_number. set (p := trim_ows p0).
  destruct (is_empty p) eqn:He.
  { assert (p = []) as -> by (by destruct p). split; [intros <-%Ok_inj; by left | intros [[_ ->]|[? _]]; done]. }
  assert (Hne : p <> []) by (by intros ->).
  destruct (forallb is_ascii_digit p) eqn:Hd; cbn [negb]; [|split; [done|]; intros [[? _]|(_ & n & [? _] & _)]; done].
  destruct (parse_u64 p) as [v|] eqn:Hv; cbn [ok_or mbind result_bind];
    [|split; [done|]; intros [[? _]|(_ & n & [_ ?] & _)]; done].
  destruct acc as [prev|]; [destruct (prev =? v) eqn:E; cbn [negb]|].
  - apply N.eqb_eq in E as ->. split.
    + intros <-%Ok_inj. right. split; [done|]. exists v. by auto.
    + intros [[? _]|(_ & n & [_ ?] & -> & _)]; [done|]. congruence.
  - apply N.eqb_neq in E. split; [done|]. intros [[? _]|(_ & n & [_ Hn] & _ & [?|?])]; congruence.
  - split.
    + intros <-%Ok_inj. right. split; [done|]. exists v. by auto.
    + intros [[? _]|(_ & n & [_ ?] & -> & _)]; [done|]. congruence.
Qed.

Lemma cl_value_fold acc ps r :
  foldM content_length_part acc ps = Ok r <->
  let qs := List.filter (fun p => negb (is_empty p)) (map trim_ows ps) in
  qs = [] /\ r = acc \/
  qs <> [] /\ exists n, r = Some n /\ (acc = None \/ acc = Some n) /\ Forall (is_number n) qs.
Proof.
  cbv zeta. revert acc. induction ps as [|p ps IH]; intros acc; cbn [foldM map List.filter].
  { split; [intros <-%Ok_inj; by left | intros [[_ ->]|[? _]]; done]. }
  assert (Hb : (s' ← content_length_part acc p; foldM content_length_part s' ps) = Ok r <->
    exists s', content_length_part acc p = Ok s' /\ foldM content_length_part s' ps = Ok r).
  { destruct (content_length_part acc p) as [s'|e]; cbn [mbind result_bind]; split.
    - intros H. by exists s'.
    - intros (s2 & <-%Ok_inj & H). done.
    - done.
    - by intros (s2 & ? & _). }
  rewrite Hb. clear Hb. setoid_rewrite cl_part_spec. setoid_rewrite IH.
  destruct (is_empty (trim_ows p)) eqn:He; cbn [negb].
  - assert (trim_ows p = []) as -> by (by destruct (trim_ows p)). split.
    + intros (s' & [[_ ->]|[Hx _]] & Hr); [|done]. done.
    + intros H. exists acc. split; [by left | done].
  - assert (Hne : trim_ows p <> []) by (by intros H; rewrite H in He). split.
    + intros (s' & [[Hx _]|(_ & n & Hn & -> & Ha)] & H); [done|]. right. split; [done|].
      exists n. destruct H as [[-> ->]|(_ & n2 & -> & [?|[= <-]] & Hf)]; [by auto|done|by auto].
    + intros [[Hx _]|(_ & n & -> & Ha & Hf)]; [done|]. inversion Hf as [|? ? Hn Hf']; subst. exists (Some n). split.
      * right. split; [done|]. by exists n.
      * destruct (List.filter _ _) as [|q qs] eqn:Eq; [by left|]. right. split; [done|]. exists n. by auto.
Qed.

Lemma cl_value_iff v n :
  parse_content_length_value v = Ok n <-> cl_parts v <> [] /\ Forall (is_number n) (cl_parts v).
Proof.
  unfold parse_content_length_value, cl_parts.
  destruct (foldM content_length_part None (split "," v)) as [r|e] eqn:Hf; cbn [mbind result_bind].
  - apply cl_value_fold in Hf. cbv zeta in Hf. destruct Hf as [[-> ->]|(Hne & m & -> & _ & Hm)]; cbn [ok_or].
    + split; [done | intros [? _]; done].
    + split; [by intros <-%Ok_inj|]. intros [_ Hn]. f_equal.
      destruct (List.filter _ _) as [|q qs]; [done|]. inversion Hm as [|? ? [_ H1] _]; subst.
      inversion Hn as [|? ? [_ H2] _]; subst. congruence.
  - split; [done|]. intros [Hne Hn]. exfalso.
    assert (Hok : foldM content_length_part None (split "," v) = Ok (Some n)).
    { apply cl_value_fold. cbv zeta. right. split; [done|]. exists n. by auto. }
    congruence.
Qed.

(** The values of the Content-Length headers. *)
Definition cl_values (hs : list (str * str)) : list str :=
  map snd (List.filter (named (B "Content-Length")) hs).

(** Every Content-Length value lists the number [n], and nothing else. *)
Definition length_is (n : N) (hs : list (str * str)) : Prop :=
  cl_values hs <> [] /\ Forall (fun v => cl_parts v <> [] /\ Forall (is_number n) (cl_parts v)) (cl_values hs).

Lemma cl_headers_fold acc hs r :
  foldM content_length_header acc hs = Ok r <->
  cl_values hs = [] /\ r = acc \/
  exists n, r = Some n /\ (acc = None \/ acc = Some n) /\ length_is n hs.
Proof.
  unfold length_is. revert acc. induction hs as [|h hs IH]; intros acc; cbn [foldM].
  { split; [intros <-%Ok_inj; by left | intros [[_ ->]|(n & _ & _ & Hx & _)]; done]. }
  unfold cl_values in *. cbn [List.filter].
  assert (Hstep : content_length_header acc h =
    if named (B "Content-Length") h then
      parsed ← parse_content_length_value (snd h);
      match acc with
      | Some prev => if negb (prev =? parsed) then invalid "invalid Content-Length: mismatched values" else Ok acc
      | None => Ok (Some parsed)
      end
    else Ok acc) by done.
  rewrite Hstep. clear Hstep. unfold invalid.
  destruct (named (B "Content-Length") h); [|cbn [mbind result_bind]; apply IH].
  cbn [map]. set (vs := map snd _) in *.
  destruct (parse_content_length_value (snd h)) as [n|e] eqn:Hv; cbn [mbind result_bind].
  - apply cl_value_iff in Hv.
    assert (Hu : forall m, cl_parts (snd h) <> [] /\ Forall (is_number m) (cl_parts (snd h)) -> m = n).
    { intros m Hm. apply cl_value_iff in Hm, Hv. congruence. }
    destruct acc as [prev|]; [destruct (prev =? n) eqn:E; cbn [negb mbind result_bind]|cbn [mbind result_bind]].
    + apply N.eqb_eq in E as ->. rewrite IH. split.
      * intros [[Hn ->]|(m & -> & [Hx|[= ->]] & _ & Hf)]; [|done|].
        -- right. exists n. rewrite Hn. split_and!; [done | by right | done | by apply Forall_singleton].
        -- right. exists m. split_and!; [done | by right | done | by constructor].
      * intros [[Hx _]|(m & -> & _ & _ & Hf)]; [done|]. inversion Hf as [|? ? Hm Hf']; subst.
        apply Hu in Hm as ->. destruct vs as [|w ws]; [by left|]. right. exists n. by auto.
    + apply N.eqb_neq in E. split; [done|].
      intros [[Hx _]|(m & _ & Ha & _ & Hf)]; [done|]. inversion Hf as [|? ? Hm _]; subst. apply Hu in Hm as ->.
      destruct Ha; congruence.
    + rewrite IH. split.
      * intros [[Hn ->]|(m & -> & [Hx|[= ->]] & _ & Hf)]; [|done|].
        -- right. exists n. rewrite Hn. split_and!; [done | by left | done | by apply Forall_singleton].
        -- right. exists m. split_and!; [done | by left | done | by constructor].
      * intros [[Hx _]|(m & -> & _ & _ & Hf)]; [done|]. inversion Hf as [|? ? Hm Hf']; subst.
        apply Hu in Hm as ->. destruct vs as [|w ws]; [by left|]. right. exists n. by auto.
  - split; [done|]. intros [[Hx _]|(m & _ & _ & _ & Hf)]; [done|]. inversion Hf as [|? ? Hm _]; subst.
    apply cl_value_iff in Hm. congruence.
Qed.

Lemma parse_content_length_iff hs r :
  parse_content_length hs = Ok r <->
  cl_values hs = [] /\ r = None \/ exists n, r = Some n /\ length_is n hs.
Proof.
  unfold parse_content_length. rewrite cl_headers_fold. split.
  - intros [H|(n & -> & _ & H)]; [by left | right; by exists n].
  - intros [H|(n & -> & H)]; [by left | right; exists n; by auto].
Qed.

(** ** Headers that are not there *)

Lemma existsb_filter_nil {A} (p : A -> bool) l : existsb p l = false <-> List.filter p l = [].
Proof.
  induction l as [|x l IH]; [done|]. cbn [existsb List.filter]. destruct (p x); [done|].
  cbn [orb]. exact IH.
Qed.

Lemma te_tokens_absent hs : existsb (named (B "Transfer-Encoding")) hs = false -> te_tokens hs = [].
Proof.
  unfold te_tokens. induction hs as [|h hs IH]; [done|]. cbn [existsb flat_map].
  destruct (named _ h); [done|]. cbn [orb app]. exact IH.
Qed.

Lemma cl_values_app hs ks : cl_values (hs ++ ks) = cl_values hs ++ cl_values ks.
Proof. unfold cl_values. by rewrite List.filter_app, map_app. Qed.

Lemma cl_values_absent hs : existsb (named (B "Content-Length")) hs = false <-> cl_values hs = [].
Proof.
  rewrite existsb_filter_nil. unfold cl_values. split; [by intros ->|]. by destruct (List.filter _ hs).
Qed.

(** A value of digits, with white space around it, lists one number. *)
Lemma digits_cl_parts v :
  forallb is_ascii_digit (trim_ows v) = true -> trim_ows v <> [] -> cl_parts v = [trim_ows v].
Proof.
  intros Hd Hne. unfold cl_parts. rewrite split_no_sep.
  - cbn [map List.filter]. by destruct (trim_ows v).
  - destruct (trim_ows_spec v) as (l & r & Hv & Hl & Hr & _). rewrite Hv, !contains_byte_app.
    rewrite (contains_byte_forallb "," l is_ows), (contains_byte_forallb "," r is_ows),
      (contains_byte_forallb "," _ is_ascii_digit) by done. done.
Qed.

Lemma length_is_unique n m hs : length_is n hs -> length_is m hs -> n = m.
Proof.
  intros [Hne Hn] [_ Hm]. destruct (cl_values hs) as [|v vs]; [done|].
  inversion Hn as [|? ? [Hp Hn1] _]. inversion Hm as [|? ? [_ Hm1] _]; subst.
  destruct (cl_parts v) as [|p ps]; [done|].
  inversion Hn1 as [|? ? [_ Hn2] _]. inversion Hm1 as [|? ? [_ Hm2] _]; subst. congruence.
Qed.
