(* ===== verification/Buffer.v ===== *)
(** * The receive buffer ([src/decoder/buffer.rs])

    The buffer operations of both decoders, on the pair ([buf], [pending]):
    [pending] counts the bytes at the end of [buf] that [mut_buf] handed out
    and [advance_buf] has not settled.  [buf.len() - pending] is computed in
    [usize]; [pending_ok] shows that it never goes below zero. *)
From S2P Require Import Prelude RustStd Errors.

Definition overflow {A} (size limit : N) : result Error.t A := Err (Error.BufferOverflow size limit).

(** [buffer::feed]: the new buffer. *)
Definition feed (buf : bytes) (max : N) (data : bytes) : result Error.t bytes :=
  match checked_add (blen buf) (blen data) with
  | None => overflow usize_MAX max
  | Some new_size => if max <? new_size then overflow new_size max else Ok (buf ++ data)
  end.

Definition feed_unchecked (buf data : bytes) : bytes := buf ++ data.

(** [buf.truncate(n)]. *)
Definition truncate (n : N) (buf : bytes) : bytes := take (N.to_nat n) buf.

(** [usize] subtraction, which wraps around in a release build. *)
Definition wrapping_sub (a b : N) : N := if b <=? a then a - b else a + (usize_MAX + 1) - b.

(** [buffer::mut_buf]: the buffer and [pending] it leaves, and whether it
    succeeded; the slice handed out is the last [len] bytes. *)
Definition mut_buf (buf : bytes) (pending max len : N) : bytes * N * result Error.t unit :=
  let buf := if 0 <? pending then truncate (wrapping_sub (blen buf) pending) buf else buf in
  match checked_add (blen buf) len with
  | None => (buf, 0, overflow usize_MAX max)
  | Some new_size =>
      if max <? new_size then (buf, 0, overflow new_size max)
      else (buf ++ replicate (N.to_nat len) "000"%byte, len, Ok tt)
  end.

(** [buffer::advance_buf]. *)
Definition advance_buf (buf : bytes) (pending len : N) : bytes * N :=
  let len := N.min len pending in
  let drop := pending - len in
  ((if 0 <? drop then truncate (wrapping_sub (blen buf) drop) buf else buf), 0).

Definition available_buf (buf : bytes) (max : N) : N := saturating_sub max (blen buf).

(** ** Properties *)

Definition pending_ok (buf : bytes) (pending : N) : Prop := pending <= blen buf.

Lemma truncate_blen n buf : blen (truncate n buf) = N.min n (blen buf).
Proof. unfold truncate. rewrite blen_take. lia. Qed.

Lemma feed_Ok buf max data buf' :
  feed buf max data = Ok buf' -> buf' = buf ++ data /\ blen buf' <= max.
Proof.
  unfold feed, checked_add, overflow. repeat case_match; try done; simplify_eq/=.
  intros [= <-]. rewrite blen_app. split; [done | lia].
Qed.

(** [feed] refuses exactly what would pass the limit, and then changes nothing. *)
Lemma feed_spec buf max data :
  max <= usize_MAX ->
  feed buf max data =
    if blen buf + blen data <=? max then Ok (buf ++ data)
    else overflow (N.min (blen buf + blen data) usize_MAX) max.
Proof.
  intros Hm. unfold feed, checked_add, overflow. repeat case_match; try done; simplify_eq/=; try lia;
    do 2 f_equal; lia.
Qed.

Lemma wrapping_sub_exact a b : b <= a -> wrapping_sub a b = a - b.
Proof. intros H. unfold wrapping_sub. by rewrite (proj2 (N.leb_le _ _) H). Qed.

Lemma mut_buf_pending_ok buf pending max len buf' pending' r :
  pending_ok buf pending -> mut_buf buf pending max len = (buf', pending', r) ->
  pending_ok buf' pending' /\ (is_ok r = true -> blen buf' <= max /\ pending' = len).
Proof.
  unfold pending_ok, mut_buf, checked_add, overflow. intros Hp. repeat case_match; simplify_eq/=; intros;
    simplify_eq/=; autorewrite with http11_rw; (split; [lia|]); intros; try done; lia.
Qed.

Lemma advance_buf_pending_ok buf pending len :
  pending_ok buf pending -> pending_ok (fst (advance_buf buf pending len)) (snd (advance_buf buf pending len)).
Proof. intros H. unfold pending_ok, advance_buf. simpl. lia. Qed.

(** Writing [data] into the slice of [mut_buf]: the last [len] bytes. *)
Definition write_slice (buf : bytes) (len : N) (data : bytes) : bytes :=
  take (length buf - N.to_nat len) buf ++ data ++ drop (length buf - N.to_nat len + length data) buf.

(** [mut_buf], a read of at most [len] bytes and [advance_buf] do what [feed]
    does with the bytes read. *)
Lemma mut_buf_write_advance buf max len data buf1 pending1 :
  mut_buf buf 0 max len = (buf1, pending1, Ok tt) -> blen data <= len ->
  advance_buf (write_slice buf1 len data) pending1 (blen data) = (buf ++ data, 0).
Proof.
  unfold mut_buf, checked_add, overflow. cbn [N.ltb N.compare]. intros H Hd.
  repeat case_match; simplify_eq/=.
  assert (El : (length (buf ++ replicate (N.to_nat pending1) "000"%byte) - N.to_nat pending1 = length buf)%nat)
    by (rewrite length_app, length_replicate; lia).
  unfold write_slice. rewrite El, take_app_length. rewrite drop_app_ge by lia.
  replace (length buf + length data - length buf)%nat with (length data) by lia.
  rewrite drop_replicate. unfold advance_buf. f_equal.
  replace (N.min (blen data) pending1) with (blen data) by lia.
  assert (Hb : blen (buf ++ data ++ replicate (N.to_nat pending1 - length data) "000"%byte)
    = blen buf + pending1).
  { autorewrite with http11_rw. unfold blen in *. lia. }
  destruct (0 <? pending1 - blen data) eqn:E.
  - rewrite wrapping_sub_exact, Hb by lia. unfold truncate.
    replace (N.to_nat (blen buf + pending1 - (pending1 - blen data))) with (length (buf ++ data))
      by (rewrite length_app; unfold blen in *; lia).
    by rewrite app_assoc, take_app_length.
  - replace (N.to_nat pending1 - length data)%nat with O by (unfold blen in *; lia).
    cbn. by rewrite app_nil_r.
Qed.
