(* ===== verification/BodyDecoder.v ===== *)
(** * The body decoder ([src/decoder/body.rs], [src/decoder/phase.rs])

    [BodyDecoder] works on the decoder's buffer and phase, which it gets as
    [&mut]: the state of its methods is the record [BodyState] of the three. *)
From S2P Require Import Prelude RustStd Errors Validate Trailer.

(** ** phase.rs *)

Inductive DecodePhase : Type :=
  | StartLine
  | Headers
  | BodyContentLength (remaining : N)
  | BodyChunkedSize
  | BodyChunkedData (remaining : N)
  | BodyChunkedDataCrlf
  | ChunkedTrailer
  | BodyCloseDelimited
  | Tunnel
  | Complete.

#[export] Instance phase_eq_dec : EqDecision DecodePhase.
Proof. solve_decision. Defined.

(** ** Data *)

Inductive BodyKind : Type :=
  | KContentLength (len : N)
  | KChunked
  | KCloseDelimited
  | KNone
  | KTunnel.

Inductive BodyProgress : Type :=
  | Advanced
  | NeedData
  | ProgressComplete (trailers : list (str * str)).

(** [struct BodyDecoder]. *)
Record BodyDecoder := {
  trailers : list (str * str);
  body_consumed : N;
  trailer_count : N;
  declared_trailers : list str
}.

Definition BodyDecoder_new : BodyDecoder :=
  {| trailers := []; body_consumed := 0; trailer_count := 0; declared_trailers := [] |}.

Definition BodyDecoder_reset (_ : BodyDecoder) : BodyDecoder := BodyDecoder_new.

Definition set_declared_trailers (declared : list str) (d : BodyDecoder) : BodyDecoder :=
  {| trailers := trailers d; body_consumed := body_consumed d;
     trailer_count := trailer_count d; declared_trailers := declared |}.

Definition set_body_consumed (n : N) (d : BodyDecoder) : BodyDecoder :=
  {| trailers := trailers d; body_consumed := n;
     trailer_count := trailer_count d; declared_trailers := declared_trailers d |}.

Definition set_trailers (ts : list (str * str)) (n : N) (d : BodyDecoder) : BodyDecoder :=
  {| trailers := ts; body_consumed := body_consumed d;
     trailer_count := n; declared_trailers := declared_trailers d |}.

(** [self], [buf] and [phase]. *)
Record BodyState := { b_self : BodyDecoder; b_buf : bytes; b_phase : DecodePhase }.

Definition with_self (f : BodyDecoder -> BodyDecoder) (s : BodyState) : BodyState :=
  {| b_self := f (b_self s); b_buf := b_buf s; b_phase := b_phase s |}.
(** [&buf[..n]], which panics when [buf] is shorter. *)
Definition slice_to (n : nat) (buf : bytes) : option bytes :=
  if (n <=? length buf)%nat then Some (take n buf) else None.

(** The state that [buf.drain(..n)] leaves, and the call, which panics when [buf] is shorter. *)
Definition drain (n : nat) (s : BodyState) : BodyState :=
  {| b_self := b_self s; b_buf := drop n (b_buf s); b_phase := b_phase s |}.
Definition drain_to (n : nat) : st BodyState Error.t unit := fun s =>
  if (n <=? length (b_buf s))%nat then (drain n s, Ok tt) else (s, Err Panic).
Definition with_phase (p : DecodePhase) (s : BodyState) : BodyState :=
  {| b_self := b_self s; b_buf := b_buf s; b_phase := p |}.

Definition fail {S A} (msg : string) : st S Error.t A := throw (Error.InvalidData (B msg)).

(** ** Lines *)

(** [buf.windows(2).position(|w| w == CRLF)]. *)
Definition CR : byte := "013"%byte.
Definition LF : byte := "010"%byte.
Definition CRLF : bytes := [CR; LF].

Fixpoint find_line (s : bytes) : option nat :=
  match s with
  | a :: (b :: _) as tl => if (a =b CR) && (b =b LF) then Some O else S <$> find_line tl
  | _ => None
  end.

Definition parse_header_line (line : str) : result Error.t (str * str) :=
  if starts_with (B " ") line || starts_with ["009"%byte] line
  then invalid "invalid header line: obs-fold"
  else if contains_byte CR line || contains_byte LF line
  then invalid "invalid header line: contains CR/LF"
  else
    '(name, value) ← ok_or (Error.InvalidData (B "invalid header line: missing colon"))
                       (split_once ":" line);
    if is_empty name then invalid "invalid header line: empty name"
    else if trim_changes name || existsb (fun b => (b =b " ") || (b =b "009")) name
    then invalid "invalid header line: invalid name whitespace"
    else if negb (is_valid_header_name name) then invalid "invalid header line: invalid name"
    else
      let trimmed_value := trim_ows value in
      if negb (is_valid_field_value trimmed_value)
      then invalid "invalid header line: invalid value (contains control characters)"
      else Ok (name, trimmed_value).

(** [String::from_utf8(buf[..pos].to_vec())] with its error message. *)
Definition utf8_line (line : bytes) : result Error.t str :=
  map_err (fun e => Error.InvalidData (B "invalid UTF-8: " ++ show_utf8_error e)) (from_utf8 line).

(** ** Chunk extensions: the cursor [i] is the suffix it points at. *)

Definition is_bws (b : byte) : bool := (b =b " ") || (b =b "009").
Definition skip_bws (s : bytes) : bytes := skip_while is_bws s.

Definition is_qdtext (b : byte) : bool :=
  (b =b "009") || (b =b " ") || (b2n b =? 33) || within 35 91 b || within 93 126 b
  || (128 <=? b2n b).

(** [parse_quoted_string(data, start)] after the opening quote: what follows
    the closing one. *)
Fixpoint ext_quoted_string (s : bytes) : result Error.t bytes :=
  match s with
  | [] => invalid "invalid chunk-ext: unterminated quoted-string"
  | b :: s1 =>
      if b =b DQUOTE then Ok s1
      else if b =b BACKSLASH then
        match s1 with
        | [] => invalid "invalid chunk-ext: incomplete quoted-pair"
        | escaped :: s2 =>
            if (escaped =b "009") || (escaped =b " ") || within 33 126 escaped
               || (128 <=? b2n escaped)
            then ext_quoted_string s2
            else invalid "invalid chunk-ext: invalid quoted-pair character"
        end
      else if is_qdtext b then ext_quoted_string s1
      else invalid "invalid chunk-ext: invalid character in quoted-string"
  end.

(** The optional value after the name of an extension. *)
Definition ext_value (s : bytes) : result Error.t bytes :=
  match s with
  | c :: s1 =>
      if c =b "=" then
        match skip_bws s1 with
        | [] => Err (Error.InvalidData (B "invalid chunk-ext: missing value after '='"))
        | (q :: s3) as s2 =>
            if q =b DQUOTE then ext_quoted_string s3
            else if is_empty (take_while is_token_char s2)
            then invalid "invalid chunk-ext: empty or invalid value"
            else Ok (skip_while is_token_char s2)
        end
      else Ok s
  | [] => Ok s
  end.

(** One round of the [while i < ext.len()] loop. *)
Definition chunk_ext_round : st bytes Error.t (flow unit) := fun s =>
  if is_empty s then (s, Ok (Break tt))
  else
    match skip_bws s with
    | [] => ([], Ok (Break tt))
    | c :: s1 =>
        if negb (c =b ";") then (s, map_err Throw (invalid "invalid chunk-ext: expected ';'"))
        else
          let s2 := skip_bws s1 in
          if is_empty (take_while is_token_char s2)
          then (s, map_err Throw (invalid "invalid chunk-ext: empty or invalid name"))
          else
            match ext_value (skip_bws (skip_while is_token_char s2)) with
            | Ok rest => (rest, Ok Continue)
            | Err e => (s, Err (Throw e))
            end
    end.

Definition validate_chunk_ext (ext : bytes) : result (exn Error.t) unit :=
  snd (loop (S (length ext)) chunk_ext_round ext).

(** ** Methods *)

(** How many bytes at the front of the buffer [peek_body] hands out. *)
Definition peek_len (buf : bytes) (phase : DecodePhase) : option N :=
  let prefix remaining :=
    let available := N.min remaining (blen buf) in
    if 0 <? available then Some available else None in
  match phase with
  | BodyContentLength remaining => if is_empty buf then None else prefix remaining
  | BodyChunkedData remaining => if is_empty buf then None else prefix remaining
  | BodyCloseDelimited => if is_empty buf then None else Some (blen buf)
  | _ => None
  end.

(** [peek_body]: the slice [&buf[..available]] panics when the buffer is shorter. *)
Definition peek_slice (buf : bytes) (phase : DecodePhase) : result (exn Error.t) (option bytes) :=
  match peek_len buf phase with
  | None => Ok None
  | Some available =>
      match slice_to (N.to_nat available) buf with
      | Some slice => Ok (Some slice)
      | None => Err Panic
      end
  end.

(** What [peek_body] shows: [peek_slice_eq] proves that it never panics. *)
Definition peek_body (buf : bytes) (phase : DecodePhase) : option bytes :=
  match peek_len buf phase with
  | Some available => Some (take (N.to_nat available) buf)
  | None => None
  end.

(** One round of the [while] loop of [process_trailers]; the state carries the
    local [advanced]. *)
Definition trailers_round (limits : DecoderLimits) : st (BodyState * bool) Error.t (flow bool) :=
  fun '(s, advanced) =>
    match b_phase s with
    | ChunkedTrailer =>
        match find_line (b_buf s) with
        | None => ((s, advanced), Ok (Break advanced))
        | Some O =>
            match drain_to 2 s with
            | (s, Ok _) => ((with_phase Complete s, advanced), Ok (Break true))
            | (s, Err e) => ((s, advanced), Err e)
            end
        | Some pos =>
            if max_header_line_size limits <? N.of_nat pos
            then ((s, advanced),
                  Err (Throw (Error.HeaderLineTooLong (N.of_nat pos) (max_header_line_size limits))))
            else if max_headers_count limits <=? trailer_count (b_self s)
            then ((s, advanced),
                  Err (Throw (Error.TooManyHeaders (trailer_count (b_self s) + 1)
                                (max_headers_count limits))))
            else
              match (slice ← unwrap (slice_to pos (b_buf s)); line ← lift (utf8_line slice); _ ← drain_to (pos + 2); mret line) s with
              | (s, Err e) => ((s, advanced), Err e)
              | (s, Ok line) =>
                  match parse_header_line line with
                  | Err e => ((s, advanced), Err (Throw e))
                  | Ok (name, value) =>
                      if is_prohibited_trailer_field name
                      then ((s, advanced),
                            Err (Throw (Error.InvalidData (B "prohibited trailer field: " ++ name))))
                      else if negb (existsb (beqs (to_ascii_lowercase name))
                                      (declared_trailers (b_self s)))
                      then ((s, advanced),
                            Err (Throw (Error.InvalidData (B "undeclared trailer field: " ++ name))))
                      else ((with_self (fun d => set_trailers (trailers d ++ [(name, value)])
                                                   (trailer_count d + 1) d) s, true), Ok Continue)
                  end
              end
        end
    | _ => ((s, advanced), Ok (Break advanced))
    end.

Definition process_trailers (limits : DecoderLimits) : st BodyState Error.t bool := fun s =>
  let '((s', _), r) := loop (S (length (b_buf s))) (trailers_round limits) (s, false) in (s', r).

Definition invalid_chunk_size {A} (size_bytes : bytes) : result Error.t A :=
  Err (Error.InvalidData (B "invalid chunk size: " ++ from_utf8_lossy size_bytes)).

(** The chunk size line without its extensions: the size it gives. *)
Definition parse_chunk_size (size_bytes : bytes) (has_semi : bool) : result Error.t N :=
  let hex_bytes := take_while is_ascii_hexdigit size_bytes in
  let trailing := skip_while is_ascii_hexdigit size_bytes in
  if is_empty hex_bytes then invalid_chunk_size size_bytes
  else if negb (is_empty trailing) && negb (has_semi && forallb is_bws trailing)
  then invalid_chunk_size size_bytes
  else
    size_str ← map_err (fun _ => Error.InvalidData (B "invalid chunk size: not ASCII"))
                 (from_utf8 hex_bytes);
    ok_or (Error.InvalidData (B "invalid chunk size: " ++ size_str))
      (from_str_radix 16 usize_MAX size_str).

Definition body_too_large {S A} (size : N) (limits : DecoderLimits) : st S Error.t A :=
  throw (Error.BodyTooLarge size (max_body_size limits)).

Definition process_chunked_size (limits : DecoderLimits) : st BodyState Error.t unit := fun s =>
  match b_phase s, find_line (b_buf s) with
  | BodyChunkedSize, Some pos =>
      if max_chunk_line_size limits <? N.of_nat pos
      then throw (Error.ChunkLineTooLong (N.of_nat pos) (max_chunk_line_size limits)) s
      else
        (line_bytes ← unwrap (slice_to pos (b_buf s));
         let semi_pos := find_byte ";" line_bytes in
         let size_end := default pos semi_pos in
         size_bytes ← unwrap (slice_to size_end line_bytes);
         chunk_size ← lift (parse_chunk_size size_bytes (bool_decide (is_Some semi_pos)));
         _ ← match semi_pos with
             | Some sp => fun s => (s, validate_chunk_ext (drop sp line_bytes))
             | None => mret tt
             end;
         _ ← drain_to (pos + 2);
         if chunk_size =? 0 then
           _ ← modify (with_phase ChunkedTrailer);
           _ ← process_trailers limits;
           mret tt
         else
           s ← get;
           match checked_add (body_consumed (b_self s)) chunk_size with
           | None => body_too_large usize_MAX limits
           | Some new_size =>
               if max_body_size limits <? new_size then body_too_large new_size limits
               else modify (with_phase (BodyChunkedData chunk_size))
           end) s
  | _, _ => (s, Ok tt)
  end.

(** [BodyProgress::Complete { trailers: mem::take(&mut self.trailers) }]. *)
Definition complete_with_trailers : st BodyState Error.t BodyProgress := fun s =>
  (with_self (fun d => set_trailers [] (trailer_count d) d) s,
   Ok (ProgressComplete (trailers (b_self s)))).

(** [self.body_consumed = self.body_consumed.checked_add(len).ok_or(..)?]. *)
Definition add_consumed (len : N) (limits : DecoderLimits) : st BodyState Error.t unit :=
  s ← get;
  match checked_add (body_consumed (b_self s)) len with
  | None => body_too_large usize_MAX limits
  | Some n => modify (with_self (set_body_consumed n))
  end.

(** The CRLF that closes the data of a chunk: [true] when it was there. *)
Definition take_chunk_crlf : st BodyState Error.t bool := fun s =>
  if (2 <=? length (b_buf s))%nat then
    (slice ← unwrap (slice_to 2 (b_buf s));
     if negb (slice =s CRLF)
     then fail "invalid chunked encoding: expected CRLF after chunk data"
     else
       _ ← drain_to 2;
       _ ← modify (with_phase BodyChunkedSize);
       mret true) s
  else (s, Ok false).

Definition consume_body (len : N) (limits : DecoderLimits) : st BodyState Error.t BodyProgress := fun s =>
  match b_phase s with
  | BodyContentLength remaining =>
      if remaining <? len then fail "consume_body: len exceeds remaining" s
      else if blen (b_buf s) <? len then fail "consume_body: len exceeds buffer" s
      else
        (_ ← drain_to (N.to_nat len);
         _ ← modify (with_phase (BodyContentLength (remaining - len)));
         _ ← add_consumed len limits;
         if remaining - len =? 0 then
           _ ← modify (with_phase Complete); mret (ProgressComplete [])
         else if 0 <? len then mret Advanced else mret NeedData) s
  | BodyChunkedSize =>
      (_ ← process_chunked_size limits;
       s ← get;
       match b_phase s with
       | Complete => complete_with_trailers
       | BodyChunkedSize => mret NeedData
       | _ => mret Advanced
       end) s
  | BodyChunkedData remaining =>
      if remaining <? len then fail "consume_body: len exceeds chunk remaining" s
      else if blen (b_buf s) <? len then fail "consume_body: len exceeds buffer" s
      else if len =? 0 then (s, Ok NeedData)
      else
        (_ ← drain_to (N.to_nat len);
         _ ← modify (with_phase (BodyChunkedData (remaining - len)));
         _ ← add_consumed len limits;
         _ ← (if remaining - len =? 0 then
                _ ← modify (with_phase BodyChunkedDataCrlf); take_chunk_crlf
              else mret false);
         s ← get;
         match b_phase s with
         | BodyChunkedDataCrlf => mret NeedData
         | _ => mret Advanced
         end) s
  | BodyChunkedDataCrlf =>
      (found ← take_chunk_crlf;
       if (found : bool) then mret Advanced else mret NeedData) s
  | ChunkedTrailer =>
      (advanced ← process_trailers limits;
       s ← get;
       match b_phase s with
       | Complete => complete_with_trailers
       | _ => if (advanced : bool) then mret Advanced else mret NeedData
       end) s
  | BodyCloseDelimited =>
      if blen (b_buf s) <? len then fail "consume_body: len exceeds buffer" s
      else if len =? 0 then (s, Ok NeedData)
      else
        match checked_add (body_consumed (b_self s)) len with
        | None => body_too_large usize_MAX limits s
        | Some new_size =>
            if max_body_size limits <? new_size then body_too_large new_size limits s
            else
              (_ ← drain_to (N.to_nat len);
               _ ← modify (with_self (set_body_consumed new_size));
               mret Advanced) s
        end
  | Complete => complete_with_trailers s
  | StartLine | Headers => fail "consume_body called before decode_headers" s
  | Tunnel =>
      fail "consume_body cannot be used in tunnel mode, use take_remaining instead" s
  end.
