(* ===== verification/BodyFacts.v ===== *)
(** * Facts about the body decoder

    The line finder; the invariant of the body decoder and that [consume_body]
    keeps it, ends normally and makes the progress it reports; and that every
    step of reading a body can be cut at any point of the input. *)
From S2P Require Import Prelude RustStd Errors Validate Trailer BodyDecoder.

(** ** Lines *)

Lemma find_line_cons2 a b s :
  find_line (a :: b :: s) = if (a =b CR) && (b =b LF) then Some O else S <$> find_line (b :: s).
Proof. done. Qed.

(** The first CRLF: what is before it, and what is behind it. *)
Lemma find_line_Some s n :
  find_line s = Some n ->
  s = take n s ++ CRLF ++ drop (n + 2) s /\ (n + 2 <= length s)%nat.
Proof.
  revert n. induction s as [|a s IH]; intros n; [done|].
  destruct s as [|b s]; [done|]. rewrite find_line_cons2.
  destruct (_ && _) eqn:E.
  - intros [= <-]. apply andb_true_iff in E as [->%byte_eqb_eq ->%byte_eqb_eq]. split; [done | simpl; lia].
  - destruct (find_line (b :: s)) as [m|] eqn:Hm; [|done]. intros [= <-].
    destruct (IH m eq_refl) as [H1 H2]. split; [|simpl in *; lia].
    cbn [take Nat.add drop app]. by rewrite <- H1.
Qed.

Lemma find_line_app s n t : find_line s = Some n -> find_line (s ++ t) = Some n.
Proof.
  revert n. induction s as [|a s IH]; intros n; [done|].
  destruct s as [|b s]; [done|]. cbn [app]. rewrite !find_line_cons2. destruct (_ && _); [done|].
  destruct (find_line (b :: s)) as [m|]; [|done]. intros [= <-]. cbn [app] in IH. by rewrite (IH m).
Qed.

(** A line with no CR in it ends at the CRLF behind it. *)
Lemma find_line_line l t :
  contains_byte CR l = false -> find_line (l ++ CRLF ++ t) = Some (length l).
Proof.
  induction l as [|a l IH]; [done|]. cbn [contains_byte existsb]. intros H.
  apply orb_false_iff in H as [Ha Hl]. specialize (IH Hl).
  destruct l as [|b l].
  - cbn [app CRLF]. fold (a =b CR) in Ha. simpl. by rewrite Ha.
  - rewrite <- !app_comm_cons in *. rewrite find_line_cons2. fold (a =b CR) in Ha. rewrite Ha.
    cbn [andb]. by rewrite IH.
Qed.

Lemma find_line_crlf t : find_line (CRLF ++ t) = Some O.
Proof. done. Qed.

(** The line found holds no CRLF of its own. *)
Lemma find_line_first s n : find_line s = Some n -> find_line (take n s) = None.
Proof.
  revert n. induction s as [|a s IH]; intros n; [done|].
  destruct s as [|b s]; [done|]. rewrite find_line_cons2.
  destruct (_ && _) eqn:E; [by intros [= <-]|].
  destruct (find_line (b :: s)) as [m|] eqn:Hm; [|done]. intros [= <-].
  specialize (IH m eq_refl). destruct m as [|m]; [done|]. cbn [take] in *.
  rewrite find_line_cons2, E. by rewrite IH.
Qed.

Lemma find_line_take s n t : find_line s = Some n -> take n (s ++ t) = take n s.
Proof. intros H%find_line_Some. rewrite take_app_le; [done | lia]. Qed.

Lemma find_line_drop s n t : find_line s = Some n -> drop (n + 2) (s ++ t) = drop (n + 2) s ++ t.
Proof. intros H%find_line_Some. rewrite drop_app_le; [done | lia]. Qed.

(** Inside the buffer neither a slice nor [drain] panics. *)
Lemma slice_to_le n b : (n <= length b)%nat -> slice_to n b = Some (take n b).
Proof. intros H. unfold slice_to. by rewrite (proj2 (Nat.leb_le _ _) H). Qed.

Lemma drain_to_le n s : (n <= length (b_buf s))%nat -> drain_to n s = (drain n s, Ok tt).
Proof. intros H. unfold drain_to. by rewrite (proj2 (Nat.leb_le _ _) H). Qed.

Lemma find_line_slice s n : find_line s = Some n -> slice_to n s = Some (take n s).
Proof. intros [_ H]%find_line_Some. apply slice_to_le. lia. Qed.

Lemma find_line_drain s n : find_line (b_buf s) = Some n -> drain_to (n + 2) s = (drain (n + 2) s, Ok tt).
Proof. intros [_ H]%find_line_Some. apply drain_to_le. lia. Qed.

(** A line that is there is taken without a panic. *)
Lemma trailers_round_eq limits s advanced :
  trailers_round limits (s, advanced) =
    match b_phase s with
    | ChunkedTrailer =>
        match find_line (b_buf s) with
        | None => ((s, advanced), Ok (Break advanced))
        | Some O => ((with_phase Complete (drain 2 s), advanced), Ok (Break true))
        | Some pos =>
            let too_long := max_header_line_size limits <? N.of_nat pos in
            let too_many := max_headers_count limits <=? trailer_count (b_self s) in
            if too_long then ((s, advanced), Err (Throw (Error.HeaderLineTooLong (N.of_nat pos) (max_header_line_size limits))))
            else if too_many then ((s, advanced), Err (Throw (Error.TooManyHeaders (trailer_count (b_self s) + 1) (max_headers_count limits))))
            else
              match utf8_line (take pos (b_buf s)) with
              | Err e => ((s, advanced), Err (Throw e))
              | Ok line =>
                  let s := drain (pos + 2) s in
                  match parse_header_line line with
                  | Err e => ((s, advanced), Err (Throw e))
                  | Ok (name, value) =>
                      if is_prohibited_trailer_field name
                      then ((s, advanced), Err (Throw (Error.InvalidData (B "prohibited trailer field: " ++ name))))
                      else if negb (existsb (beqs (to_ascii_lowercase name)) (declared_trailers (b_self s)))
                      then ((s, advanced), Err (Throw (Error.InvalidData (B "undeclared trailer field: " ++ name))))
                      else ((with_self (fun d => set_trailers (trailers d ++ [(name, value)]) (trailer_count d + 1) d) s, true), Ok Continue)
                  end
              end
        end
    | _ => ((s, advanced), Ok (Break advanced))
    end.
Proof.
  unfold trailers_round. destruct (b_phase s); try done. destruct (find_line (b_buf s)) as [[|pos]|] eqn:Hf; [| |done].
  - pose proof (find_line_drain s 0 Hf) as Hd. change (0 + 2)%nat with 2%nat in Hd. by rewrite Hd.
  - cbv zeta. destruct (_ <? _); [done|]. destruct (_ <=? _); [done|].
    unfold mbind, st_bind, unwrap, lift. rewrite (find_line_slice _ _ Hf). destruct (utf8_line _) as [line|e]; [|done].
    cbn [map_err]. by rewrite (find_line_drain s _ Hf).
Qed.

(** ** More input: [extend y] puts [y] behind what is in the buffer. *)

Definition extend (y : bytes) (s : BodyState) : BodyState :=
  {| b_self := b_self s; b_buf := b_buf s ++ y; b_phase := b_phase s |}.

(** [bs]: read off the fields of an updated state. *)
Ltac bs := cbn [b_self b_buf b_phase drain with_self with_phase extend trailers body_consumed
                trailer_count declared_trailers set_trailers set_body_consumed set_declared_trailers fst snd].

(** The length of the buffer, the measure of the loops. *)
Definition buffered (s : BodyState) : nat := length (b_buf s).

Lemma extend_nil s : extend [] s = s.
Proof. destruct s. unfold extend. cbn. by rewrite app_nil_r. Qed.

Section Trailers.
Context (limits : DecoderLimits) (y : bytes).

Let ext (p : BodyState * bool) := (extend y (fst p), snd p).
Let short (p : BodyState * bool) (a : bool) : Prop :=
  a = snd p /\ b_phase (fst p) = ChunkedTrailer /\ find_line (b_buf (fst p)) = None.

Lemma trailers_round_ext p :
  round_ext (trailers_round limits) short (fun _ => True) (fun p => buffered (fst p)) ext p.
Proof.
  destruct p as [s a]. unfold round_ext, ext, short, buffered. rewrite !trailers_round_eq. cbv zeta. cbn [fst snd extend b_phase b_buf b_self].
  destruct (b_phase s) eqn:Hp; try (left; split; [done | cbn [fst]; rewrite Hp; by intros (_ & Hn & _)]).
  destruct (find_line (b_buf s)) as [pos|] eqn:Hf; [|by right].
  pose proof (find_line_Some _ _ Hf) as [_ Hlen].
  rewrite (find_line_app _ _ y Hf), (find_line_take _ _ y Hf).
  destruct pos as [|pos].
  - left. split; [|cbn; by intros (_ & Hn & _)].
    unfold with_phase, drain, extend. cbn [b_self b_buf b_phase]. do 3 f_equal.
    rewrite drop_app_le by lia. done.
  - destruct (_ <? _); [done|]. destruct (_ <=? _); [done|].
    destruct (utf8_line _) as [line|e]; [|done].
    assert (Hd : drain (S pos + 2) (extend y s) = extend y (drain (S pos + 2) s)).
    { unfold drain, extend. cbn [b_self b_buf b_phase]. by rewrite (find_line_drop _ _ y Hf). }
    fold (extend y s). rewrite Hd.
    destruct (parse_header_line line) as [[name value]|e]; [|done].
    destruct (is_prohibited_trailer_field name); [done|].
    cbn [drain b_self extend]. destruct (negb _); [done|].
    split; [done|]. split; [|by left]. cbn. rewrite length_drop. lia.
Qed.

(** What [advanced] was before only shows in the value at the end. *)
Lemma trailers_loop_advanced f s a :
  loop f (trailers_round limits) (s, a) =
    let '((s', b), r) := loop f (trailers_round limits) (s, false) in
    ((s', a || b), match r with Ok b => Ok (a || b) | Err e => Err e end).
Proof.
  revert s a. induction f as [|f IH]; intros s a; cbn [loop]; [by rewrite orb_false_r|].
  assert (Hr : trailers_round limits (s, a) =
    let '((s', b), r) := trailers_round limits (s, false) in
    ((s', a || b), match r with Ok (Break b) => Ok (Break (a || b)) | r => r end)).
  { rewrite !trailers_round_eq. cbv zeta. destruct (b_phase s); try by rewrite ?orb_false_r.
    destruct (find_line (b_buf s)) as [[|pos]|]; rewrite ?orb_false_r, ?orb_true_r; try done.
    destruct (_ <? _); [by rewrite orb_false_r|]. destruct (_ <=? _); [by rewrite orb_false_r|].
    destruct (utf8_line _); [|by rewrite orb_false_r].
    destruct (parse_header_line _) as [[name value]|]; [|by rewrite orb_false_r].
    destruct (is_prohibited_trailer_field name); [by rewrite orb_false_r|].
    destruct (negb _); [by rewrite orb_false_r|]. by rewrite orb_true_r. }
  rewrite Hr. destruct (trailers_round limits (s, false)) as [[s1 b] [[|v]|e]]; [|done|done].
  rewrite IH, (IH s1 b). destruct (loop f _ (s1, false)) as [[s2 b2] [v|e]]; by rewrite !orb_assoc.
Qed.

Lemma process_trailers_ext s s' r :
  process_trailers limits s = (s', r) ->
  process_trailers limits (extend y s) = (extend y s', r) \/
  exists a, r = Ok a /\ b_phase s' = ChunkedTrailer /\ find_line (b_buf s') = None /\
    process_trailers limits (extend y s) =
      let '(s2, r2) := process_trailers limits (extend y s') in
      (s2, match r2 with Ok b => Ok (a || b) | Err e => Err e end).
Proof.
  unfold process_trailers. intros H.
  destruct (loop _ _ (s, false)) as [[s1 b] r1] eqn:Hl. simplify_eq.
  apply (loop_extension _ _ _ _ ext (fun _ _ => I) (fun p _ => trailers_round_ext p)
           _ _ _ _ (S (length (b_buf (extend y s))))) in Hl; [|done|apply Nat.lt_succ_diag_r..].
  destruct Hl as [[Hl _]|(a & -> & (-> & Hp & Hf) & _ & Hl)].
  - left. unfold ext in Hl. cbn [fst snd] in Hl. by rewrite Hl.
  - right. exists b. repeat split; [done..|]. unfold ext in Hl. cbn [fst snd] in Hl.
    rewrite (Hl (S (buffered (extend y s')))) by lia. rewrite trailers_loop_advanced. unfold buffered.
    cbn [snd fst]. by destruct (loop _ _ (extend y s', false)) as [[s2 b2] [v|e]].
Qed.

(** Without a line there is nothing to do. *)
Lemma process_trailers_short s :
  find_line (b_buf s) = None -> process_trailers limits s = (s, Ok false).
Proof. intros Hf. unfold process_trailers. cbn [loop]. rewrite trailers_round_eq, Hf. by destruct (b_phase s). Qed.

End Trailers.

(** ** The invariant of the body decoder *)

(** A trailer field the decoder accepts. *)
Definition trailer_ok (declared : list str) (h : str * str) : bool :=
  is_valid_header_name (fst h) && is_valid_field_value (snd h)
  && negb (is_prohibited_trailer_field (fst h))
  && existsb (beqs (to_ascii_lowercase (fst h))) declared.

Record body_inv (limits : DecoderLimits) (s : BodyState) : Prop := {
  (** What is left to read fits under the limit together with what was read. *)
  inv_consumed :
    match b_phase s with
    | BodyContentLength r | BodyChunkedData r =>
        0 < r /\ body_consumed (b_self s) + r <= max_body_size limits
    | _ => body_consumed (b_self s) <= max_body_size limits
    end;
  inv_trailers : Forall (fun h => trailer_ok (declared_trailers (b_self s)) h = true) (trailers (b_self s));
  inv_count : blen (trailers (b_self s)) <= trailer_count (b_self s) <= max_headers_count limits
}.

Lemma parse_header_line_Ok line name value :
  parse_header_line line = Ok (name, value) ->
  is_valid_header_name name = true /\ is_valid_field_value value = true /\ ows_trimmed value = true /\
  exists raw, line = name ++ ":"%byte :: raw /\ value = trim_ows raw.
Proof.
  unfold parse_header_line, invalid. destruct (_ || _); [done|]. destruct (_ || _); [done|].
  destruct (split_once ":" line) as [[n v]|] eqn:Hs; [|done]. cbn [ok_or mbind result_bind].
  destruct (is_empty n); [done|]. destruct (_ || _); [done|].
  destruct (is_valid_header_name n) eqn:Hn; [|done]. destruct (is_valid_field_value (trim_ows v)) eqn:Hv; [|done].
  cbn [negb]. intros H. injection H as <- <-. apply split_once_Some in Hs as [-> _].
  split_and!; [done | done | | by exists v]. by destruct (trim_ows_spec v) as (l & r & _ & _ & _ & ?).
Qed.

Lemma trailers_round_inv limits s a :
  body_inv limits s ->
  let '((s', a'), r) := trailers_round limits (s, a) in
  body_inv limits s' /\ orderly r /\
  body_consumed (b_self s') = body_consumed (b_self s) /\
  declared_trailers (b_self s') = declared_trailers (b_self s) /\
  (buffered s' <= buffered s)%nat /\
  match r with
  | Ok Continue => b_phase s' = b_phase s /\ a' = true /\ (buffered s' < buffered s)%nat
  | Ok (Break b) =>
      (b = a /\ s' = s /\ (b_phase s = ChunkedTrailer -> find_line (b_buf s) = None)) \/
      (b = true /\ b_phase s = ChunkedTrailer /\ b_phase s' = Complete /\ (buffered s' < buffered s)%nat)
  | Err _ => b_phase s' = b_phase s
  end.
Proof.
  intros [H1 H2 H3]. rewrite trailers_round_eq. cbv zeta. unfold buffered. destruct (b_phase s) eqn:Hp; try (by split_and!; auto; split).
  all: try (split_and!; [by split; rewrite ?Hp| | | | |left]; done).
  rewrite ?Hp in H1.
  destruct (find_line (b_buf s)) as [pos|] eqn:Hf; [|by split_and!; auto; split; rewrite ?Hp].
  pose proof (find_line_Some _ _ Hf) as [_ Hlen]. destruct pos as [|pos].
  { split_and!; try done; bs; rewrite ?length_drop; try lia.
    right. split_and!; try done; lia. }
  destruct (_ <? _); [by split_and!; auto; split; rewrite ?Hp|].
  destruct (_ <=? _) eqn:Hc; [by split_and!; auto; split; rewrite ?Hp|].
  destruct (utf8_line _) as [line|e]; [|by split_and!; auto; split; rewrite ?Hp].
  assert (Hd : body_inv limits (drain (S pos + 2) s)) by (split; bs; rewrite ?Hp; done).
  assert (Hl : (length (drop (S pos + 2) (b_buf s)) < length (b_buf s))%nat) by (rewrite length_drop; lia).
  destruct (parse_header_line line) as [[name value]|e] eqn:Hh; [|by split_and!; first [done | bs; lia]].
  apply parse_header_line_Ok in Hh as (Hn & Hv & _).
  destruct (is_prohibited_trailer_field name) eqn:Hpr; [by split_and!; first [done | bs; lia]|].
  cbn [drain b_self]. destruct (existsb _ _) eqn:He; [|by split_and!; first [done | bs; lia]].
  cbn [negb]. split_and!; try done; bs; [|lia..]. split; bs; rewrite ?Hp; [done| |].
  - apply Forall_app. split; [done|]. constructor; [|done].
    unfold trailer_ok. cbn [fst snd]. by rewrite Hn, Hv, Hpr, He.
  - autorewrite with http11_rw. lia.
Qed.

Lemma process_trailers_inv limits s :
  body_inv limits s -> b_phase s = ChunkedTrailer ->
  let '(s', r) := process_trailers limits s in
  body_inv limits s' /\ orderly r /\ declared_trailers (b_self s') = declared_trailers (b_self s) /\
  match r with
  | Ok a =>
      (b_phase s' = Complete /\ a = true \/ b_phase s' = ChunkedTrailer /\ find_line (b_buf s') = None) /\
      (if a then (buffered s' < buffered s)%nat else s' = s)
  | Err _ => b_phase s' = ChunkedTrailer /\ (buffered s' <= buffered s)%nat
  end.
Proof.
  intros Hi Hp. unfold process_trailers.
  pose proof (loop_rule (trailers_round limits)
    (fun '(t, a) => body_inv limits t /\ b_phase t = ChunkedTrailer
       /\ declared_trailers (b_self t) = declared_trailers (b_self s)
       /\ (buffered t <= buffered s)%nat /\ if a then (buffered t < buffered s)%nat else t = s)
    (fun p r => let t := fst p in
       body_inv limits t /\ orderly r /\ declared_trailers (b_self t) = declared_trailers (b_self s) /\
       match r with
       | Ok a =>
           (b_phase t = Complete /\ a = true \/ b_phase t = ChunkedTrailer /\ find_line (b_buf t) = None) /\
           (if a then (buffered t < buffered s)%nat else t = s)
       | Err _ => b_phase t = ChunkedTrailer /\ (buffered t <= buffered s)%nat
       end) (fun p => buffered (fst p)) (S (length (b_buf s))) (s, false)) as HL.
  destruct (loop _ _ _) as [[s' b] r]. apply HL; [|done|unfold buffered; simpl; lia]. clear HL.
  intros [t a] (Hti & Htp & Htd & Htl & Hta). pose proof (trailers_round_inv limits t a Hti) as Hr.
  destruct (trailers_round limits (t, a)) as [[t' a'] r']. cbn [fst].
  destruct Hr as (H1 & H2 & H3 & H4 & H5 & H6). destruct r' as [[|v]|e].
  - destruct H6 as (H6 & -> & H7). split_and!; congruence || lia || done.
  - split_and!; [done | done | congruence | |].
    + destruct H6 as [(-> & -> & H6)|(-> & _ & H6 & _)]; auto.
    + destruct H6 as [(-> & -> & _)|(-> & _ & _ & H6)]; [done | lia].
  - split_and!; congruence || lia || done.
Qed.

(** ** Chunk extensions: the scan ends, at a suffix of what it began with. *)

Lemma ext_quoted_string_shorter s r : ext_quoted_string s = Ok r -> (length r < length s)%nat.
Proof.
  revert s r. fix IH 1. intros s r. destruct s as [|b s1]; [done|]. cbn [ext_quoted_string length].
  destruct (b =b DQUOTE); [intros [= <-]; lia|]. destruct (b =b BACKSLASH).
  - destruct s1 as [|e s2]; [done|]. destruct (_ || _); [|done].
    intros H. apply IH in H. cbn [length]. clear IH. lia.
  - destruct (is_qdtext b); [|done]. intros H. apply IH in H. clear IH. lia.
Qed.

Lemma skip_while_shorter p (s : bytes) :
  is_empty (take_while p s) = false -> (length (skip_while p s) < length s)%nat.
Proof. destruct s as [|b s]; cbn; [done|]. destruct (p b); [|done]. intros _. pose proof (skip_while_length p s). lia. Qed.

Lemma ext_value_length s r : ext_value s = Ok r -> (length r <= length s)%nat.
Proof.
  destruct s as [|c s1]; [by intros [= <-]|]. cbn [ext_value]. destruct (c =b "="); [|by intros [= <-]].
  pose proof (skip_while_length is_bws s1) as Hb. fold skip_bws in Hb. fold (skip_bws s1) in Hb.
  destruct (skip_bws s1) as [|q s3] eqn:Hq; [done|]. destruct (q =b DQUOTE).
  - intros H%ext_quoted_string_shorter. cbn [length] in *. lia.
  - destruct (is_empty _) eqn:He; [done|]. intros H%Ok_inj. subst r.
    apply skip_while_shorter in He. cbn [length] in *. lia.
Qed.

Lemma chunk_ext_round_spec s :
  match chunk_ext_round s with
  | (s', Ok Continue) => (length s' < length s)%nat
  | (_, r) => orderly r
  end.
Proof.
  unfold chunk_ext_round. destruct (is_empty s); [done|].
  pose proof (skip_while_length is_bws s) as Hb. fold (skip_bws s) in Hb.
  destruct (skip_bws s) as [|c s1]; [done|]. destruct (negb _); [done|].
  pose proof (skip_while_length is_bws s1) as Hb1. fold (skip_bws s1) in Hb1.
  destruct (is_empty _) eqn:He; [done|]. apply skip_while_shorter in He.
  pose proof (skip_while_length is_bws (skip_while is_token_char (skip_bws s1))) as Hb2.
  fold (skip_bws (skip_while is_token_char (skip_bws s1))) in Hb2.
  destruct (ext_value _) as [r|e] eqn:Hv; [|done]. apply ext_value_length in Hv. cbn [length] in *. lia.
Qed.

Lemma validate_chunk_ext_orderly ext : orderly (validate_chunk_ext ext).
Proof.
  unfold validate_chunk_ext.
  apply (loop_rule chunk_ext_round (fun _ => True) (fun _ r => orderly r) (@length byte)); [|done|lia].
  intros s _. pose proof (chunk_ext_round_spec s) as H.
  destruct (chunk_ext_round s) as [s' [[|a]|e]]; done.
Qed.

(** ** Chunk size lines *)

(** What a chunk size line (without its CRLF) says. *)
Definition chunk_line_size (line : bytes) : result (exn Error.t) N :=
  let semi_pos := find_byte ";" line in
  size ← map_err Throw (parse_chunk_size (take (default (length line) semi_pos) line)
                          (bool_decide (is_Some semi_pos)));
  match semi_pos with
  | Some sp => _ ← validate_chunk_ext (drop sp line); Ok size
  | None => Ok size
  end.

Lemma chunk_line_size_orderly line : orderly (chunk_line_size line).
Proof.
  unfold chunk_line_size. destruct (parse_chunk_size _ _) as [n|e]; [|done].
  cbn [map_err mbind result_bind]. destruct (find_byte ";" line) as [sp|]; [|done].
  pose proof (validate_chunk_ext_orderly (drop sp line)). by destruct (validate_chunk_ext _).
Qed.

(** The size read fits a [usize]. *)
Lemma chunk_line_size_bound line n : chunk_line_size line = Ok n -> n <= usize_MAX.
Proof.
  unfold chunk_line_size. destruct (parse_chunk_size _ _) as [m|e] eqn:Hp; [|done].
  assert (Hm : m <= usize_MAX).
  { revert Hp. unfold parse_chunk_size, invalid_chunk_size. destruct (is_empty _); [done|].
    destruct (_ && _); [done|]. destruct (from_utf8 _); [|done]. cbn [map_err mbind result_bind].
    destruct (from_str_radix 16 usize_MAX _) as [k|] eqn:Hk; [|done]. cbn [ok_or]. intros <-%Ok_inj.
    by eapply from_str_radix_bound. }
  cbn [map_err mbind result_bind]. destruct (find_byte ";" line) as [sp|]; [|by intros <-%Ok_inj].
  destruct (validate_chunk_ext _); [|done]. cbn [mbind result_bind]. by intros <-%Ok_inj.
Qed.

Definition over_body {A} (size : N) (limits : DecoderLimits) : result (exn Error.t) A :=
  Err (Throw (Error.BodyTooLarge size (max_body_size limits))).

Lemma find_byte_lt c line n : find_byte c line = Some n -> (n < length line)%nat.
Proof.
  unfold find_byte. revert n. induction line as [|a line IH]; intros n; [done|]. cbn. destruct (_ =b _); [intros [= <-]; lia|].
  destruct (position _ line) as [m|]; [|done]. cbn. intros [= <-]. specialize (IH m eq_refl). lia.
Qed.

(** [process_chunked_size] on a complete line. *)
Lemma process_chunked_size_eq limits s pos :
  b_phase s = BodyChunkedSize -> find_line (b_buf s) = Some pos ->
  process_chunked_size limits s =
    if max_chunk_line_size limits <? N.of_nat pos
    then (s, Err (Throw (Error.ChunkLineTooLong (N.of_nat pos) (max_chunk_line_size limits))))
    else
      match chunk_line_size (take pos (b_buf s)) with
      | Err e => (s, Err e)
      | Ok size =>
          let s1 := drain (pos + 2) s in
          if size =? 0 then
            let '(s2, r) := process_trailers limits (with_phase ChunkedTrailer s1) in
            (s2, match r with Ok _ => Ok tt | Err e => Err e end)
          else
            let total := body_consumed (b_self s) + size in
            if usize_MAX <? total then (s1, over_body usize_MAX limits)
            else if max_body_size limits <? total then (s1, over_body total limits)
            else (with_phase (BodyChunkedData size) s1, Ok tt)
      end.
Proof.
  intros Hp Hf. unfold process_chunked_size. rewrite Hp, Hf. destruct (_ <? _); [done|].
  pose proof (find_line_Some _ _ Hf) as [_ Hlen].
  assert (Hl : length (take pos (b_buf s)) = pos) by (rewrite length_take; lia).
  assert (Hsz : (default pos (find_byte ";" (take pos (b_buf s))) <= length (take pos (b_buf s)))%nat).
  { destruct (find_byte _ _) as [sp|] eqn:Hs; cbn; [|lia]. apply find_byte_lt in Hs. lia. }
  unfold chunk_line_size, mbind, st_bind, result_bind, unwrap, lift. rewrite (find_line_slice _ _ Hf), (slice_to_le _ _ Hsz), Hl.
  pose proof (find_line_drain s pos Hf) as Hdr.
  destruct (parse_chunk_size _ _) as [n|e]; [|done]. cbn [map_err].
  destruct (find_byte ";" _) as [sp|]; [destruct (validate_chunk_ext _) as [[]|e]; [|done]|]; cbn -[drain_to]; rewrite Hdr; cbn.
  all: destruct (n =? 0); [by destruct (process_trailers _ _) as [? [|]]|].
  all: unfold get, over_body, body_too_large, throw; bs; rewrite checked_add_eq.
  all: destruct (usize_MAX <? _); [done|]; by destruct (max_body_size limits <? _).
Qed.

(** Without a line, or in another phase, nothing happens. *)
Lemma process_chunked_size_idle limits s :
  (b_phase s = BodyChunkedSize -> find_line (b_buf s) = None) ->
  process_chunked_size limits s = (s, Ok tt).
Proof. intros H. unfold process_chunked_size. destruct (b_phase s); try done. by rewrite H. Qed.

Lemma process_chunked_size_inv limits s :
  body_inv limits s -> b_phase s = BodyChunkedSize ->
  let '(s', r) := process_chunked_size limits s in
  body_inv limits s' /\ orderly r /\ declared_trailers (b_self s') = declared_trailers (b_self s) /\
  (buffered s' <= buffered s)%nat /\
  (b_phase s' = BodyChunkedSize -> is_ok r = true -> s' = s) /\
  (b_phase s' <> BodyChunkedSize -> (buffered s' < buffered s)%nat) /\
  match b_phase s' with
  | BodyChunkedSize | BodyChunkedData _ | ChunkedTrailer | Complete => True
  | _ => False
  end.
Proof.
  intros Hi Hp. destruct (find_line (b_buf s)) as [pos|] eqn:Hf;
    [|by rewrite process_chunked_size_idle, Hp].
  rewrite (process_chunked_size_eq _ _ _ Hp Hf). pose proof (find_line_Some _ _ Hf) as [_ Hlen].
  destruct (_ <? _); [by rewrite Hp|].
  pose proof (chunk_line_size_orderly (take pos (b_buf s))) as Ho.
  destruct (chunk_line_size _) as [size|e]; [|by destruct e; rewrite Hp].
  pose proof Hi as [H1 H2 H3]. rewrite Hp in H1.
  assert (Hb : (buffered (drain (pos + 2) s) < buffered s)%nat)
    by (unfold buffered; bs; rewrite length_drop; lia).
  cbv zeta. destruct (size =? 0) eqn:Hz.
  - set (t := with_phase ChunkedTrailer (drain (pos + 2) s)).
    pose proof (process_trailers_inv limits t ltac:(by split) eq_refl) as Ht.
    change (buffered t) with (buffered (drain (pos + 2) s)) in Ht.
    destruct (process_trailers limits t) as [s2 [a|e]]; destruct Ht as (Ht1 & Ht2 & Ht3 & Ht4).
    + destruct Ht4 as [Ht4 Ht5].
      assert (buffered s2 <= buffered (drain (pos + 2) s))%nat by (destruct a; [lia | by subst]).
      destruct Ht4 as [[-> _]|[-> _]]; split_and!; done || lia.
    + destruct Ht4 as [-> Ht4]. split_and!; done || lia.
  - destruct (usize_MAX <? _); [bs; rewrite ?Hp; split_and!; try done; [by split; bs; rewrite ?Hp | lia]|].
    destruct (max_body_size limits <? _) eqn:Hm; [bs; rewrite ?Hp; split_and!; try done; [by split; bs; rewrite ?Hp | lia]|].
    bs. split_and!; try done; [|unfold buffered in *; cbn [b_buf drain with_phase] in *; lia..].
    split; bs; [lia | done..].
Qed.

(** ** [consume_body], phase by phase *)

Lemma consume_content_length_eq limits len s remaining :
  b_phase s = BodyContentLength remaining -> len <= remaining -> len <= blen (b_buf s) ->
  body_consumed (b_self s) + len <= usize_MAX ->
  consume_body len limits s =
    let s1 := with_self (set_body_consumed (body_consumed (b_self s) + len)) (drain (N.to_nat len) s) in
    if remaining - len =? 0 then (with_phase Complete s1, Ok (ProgressComplete []))
    else (with_phase (BodyContentLength (remaining - len)) s1,
          Ok (if 0 <? len then Advanced else NeedData)).
Proof.
  intros Hp Hr Hb Hc. unfold consume_body. rewrite Hp.
  rewrite (proj2 (N.ltb_ge _ _) Hr), (proj2 (N.ltb_ge _ _) Hb).
  unfold mbind at 1, st_bind at 1. rewrite drain_to_le by (unfold blen in *; lia).
  unfold add_consumed, mbind, st_bind, modify, get, with_phase, with_self, drain. bs.
  rewrite (checked_add_Some _ _ Hc). cbv beta iota. bs. destruct (_ =? 0); [done|]. by destruct (0 <? len).
Qed.

Lemma take_chunk_crlf_eq s :
  take_chunk_crlf s =
    if (2 <=? length (b_buf s))%nat then
      if negb (take 2 (b_buf s) =s CRLF)
      then (s, Err (Throw (Error.InvalidData (B "invalid chunked encoding: expected CRLF after chunk data"))))
      else (with_phase BodyChunkedSize (drain 2 s), Ok true)
    else (s, Ok false).
Proof.
  unfold take_chunk_crlf. destruct (2 <=? length (b_buf s))%nat eqn:E; [|done]. apply Nat.leb_le in E.
  unfold mbind, st_bind, unwrap. rewrite (slice_to_le _ _ E). destruct (negb _); [done|]. by rewrite (drain_to_le _ _ E).
Qed.

Lemma consume_close_eq limits len s :
  b_phase s = BodyCloseDelimited ->
  consume_body len limits s =
    if blen (b_buf s) <? len then fail "consume_body: len exceeds buffer" s
    else if len =? 0 then (s, Ok NeedData)
    else
      match checked_add (body_consumed (b_self s)) len with
      | None => body_too_large usize_MAX limits s
      | Some new_size =>
          if max_body_size limits <? new_size then body_too_large new_size limits s
          else (with_self (set_body_consumed new_size) (drain (N.to_nat len) s), Ok Advanced)
      end.
Proof.
  intros Hp. unfold consume_body. rewrite Hp. destruct (blen (b_buf s) <? len) eqn:Hb; [done|]. destruct (len =? 0); [done|].
  destruct (checked_add _ _) as [n|]; [|done]. destruct (_ <? n); [done|].
  unfold mbind, st_bind. by rewrite drain_to_le by (unfold blen in *; lia).
Qed.

(** What a chunk that is all there leaves to do: its CRLF. *)
Definition chunk_end (s : BodyState) : BodyState * result (exn Error.t) BodyProgress :=
  match take_chunk_crlf s with
  | (s', Ok true) => (s', Ok Advanced)
  | (s', Ok false) => (s', Ok NeedData)
  | (s', Err e) => (s', Err e)
  end.

Lemma consume_chunk_eq limits len s remaining :
  b_phase s = BodyChunkedData remaining -> 0 < len -> len <= remaining -> len <= blen (b_buf s) ->
  body_consumed (b_self s) + len <= usize_MAX ->
  consume_body len limits s =
    let s1 := with_self (set_body_consumed (body_consumed (b_self s) + len)) (drain (N.to_nat len) s) in
    if remaining - len =? 0 then chunk_end (with_phase BodyChunkedDataCrlf s1)
    else (with_phase (BodyChunkedData (remaining - len)) s1, Ok Advanced).
Proof.
  intros Hp H0 Hr Hb Hc. unfold consume_body. rewrite Hp.
  rewrite (proj2 (N.ltb_ge _ _) Hr), (proj2 (N.ltb_ge _ _) Hb), (proj2 (N.eqb_neq len 0)) by lia.
  unfold mbind at 1, st_bind at 1. rewrite drain_to_le by (unfold blen in *; lia).
  unfold add_consumed, mbind, st_bind, modify, get, with_phase, with_self, drain. bs.
  rewrite (checked_add_Some _ _ Hc). cbv beta iota. bs. destruct (_ =? 0); [|done].
  unfold chunk_end. rewrite ?take_chunk_crlf_eq. bs. destruct (2 <=? _)%nat; [|done]. by destruct (negb _).
Qed.

Lemma consume_chunk_crlf_eq limits len s :
  b_phase s = BodyChunkedDataCrlf -> consume_body len limits s = chunk_end s.
Proof.
  intros Hp. unfold consume_body, chunk_end. rewrite Hp. unfold mbind, st_bind.
  by destruct (take_chunk_crlf s) as [s' [[]|e]].
Qed.

Lemma consume_chunk_size_eq limits len s :
  b_phase s = BodyChunkedSize ->
  consume_body len limits s =
    match process_chunked_size limits s with
    | (s', Err e) => (s', Err e)
    | (s', Ok _) =>
        match b_phase s' with
        | Complete => complete_with_trailers s'
        | BodyChunkedSize => (s', Ok NeedData)
        | _ => (s', Ok Advanced)
        end
    end.
Proof.
  intros Hp. unfold consume_body. rewrite Hp. unfold mbind, st_bind, get.
  destruct (process_chunked_size limits s) as [s' [u|e]]; [|done]. by destruct (b_phase s').
Qed.

Lemma consume_trailer_eq limits len s :
  b_phase s = ChunkedTrailer ->
  consume_body len limits s =
    match process_trailers limits s with
    | (s', Err e) => (s', Err e)
    | (s', Ok advanced) =>
        match b_phase s' with
        | Complete => complete_with_trailers s'
        | _ => (s', Ok (if advanced then Advanced else NeedData))
        end
    end.
Proof.
  intros Hp. unfold consume_body. rewrite Hp. unfold mbind, st_bind, get.
  destruct (process_trailers limits s) as [s' [[]|e]]; [..|done]; by destruct (b_phase s').
Qed.

Lemma take_chunk_crlf_inv limits s :
  body_inv limits s -> b_phase s = BodyChunkedDataCrlf ->
  let '(s', r) := chunk_end s in
  body_inv limits s' /\ orderly r /\ declared_trailers (b_self s') = declared_trailers (b_self s) /\
  (buffered s' <= buffered s)%nat /\
  match r with
  | Ok Advanced => b_phase s' = BodyChunkedSize /\ (buffered s' < buffered s)%nat
  | Ok NeedData | Err _ => s' = s
  | Ok (ProgressComplete _) => False
  end.
Proof.
  intros Hi Hp. pose proof Hi as [H1 H2 H3]. rewrite Hp in H1. unfold chunk_end. rewrite ?take_chunk_crlf_eq. unfold fail, throw.
  destruct (2 <=? _)%nat eqn:Hl; [|done]. destruct (negb _); [done|].
  apply Nat.leb_le in Hl. unfold buffered. bs. rewrite length_drop. split_and!; try done; try lia.
Qed.

(** [consume_body] keeps the invariant and ends normally. *)
Definition head_phase (p : DecodePhase) : bool :=
  match p with StartLine | Headers | Tunnel => true | _ => false end.

(** What a call of [consume_body] in the state [s] ensures of its outcome. *)
Definition consume_post (limits : DecoderLimits) (s : BodyState)
    (o : BodyState * result (exn Error.t) BodyProgress) : Prop :=
  let '(s', r) := o in
  body_inv limits s' /\ orderly r /\ declared_trailers (b_self s') = declared_trailers (b_self s) /\
  (buffered s' <= buffered s)%nat /\ (head_phase (b_phase s') = true -> s' = s) /\
  (b_phase s' = BodyCloseDelimited -> b_phase s = BodyCloseDelimited) /\
  match r with
  | Ok Advanced => (buffered s' < buffered s)%nat
  | Ok (ProgressComplete ts) =>
      b_phase s' = Complete /\
      Forall (fun h => trailer_ok (declared_trailers (b_self s)) h = true) ts /\
      blen ts <= max_headers_count limits
  | _ => True
  end.

Lemma drained_length len s :
  (buffered (drain (N.to_nat len) s) <= buffered s)%nat /\
  (0 < len -> len <= blen (b_buf s) -> (buffered (drain (N.to_nat len) s) < buffered s)%nat).
Proof. unfold buffered, blen. bs. rewrite length_drop. lia. Qed.

Section ConsumeInv.
Context (limits : DecoderLimits) (len : N) (s : BodyState).
Hypothesis Hi : body_inv limits s.
Hypothesis Hmax : max_body_size limits <= usize_MAX.

Lemma consume_post_same r : orderly r -> (forall p, r <> Ok p) -> consume_post limits s (s, r).
Proof. intros Ho Hr. destruct r as [p|e]; [by destruct (Hr p)|]. by split_and!. Qed.

Lemma consume_content_length_post remaining :
  b_phase s = BodyContentLength remaining -> consume_post limits s (consume_body len limits s).
Proof.
  intros Hp. destruct Hi as [H1 H2 H3]. rewrite Hp in H1. destruct H1 as [H0 H1].
  destruct (remaining <? len) eqn:Hr; [unfold consume_body; rewrite Hp, Hr; by apply consume_post_same|].
  destruct (blen (b_buf s) <? len) eqn:Hb;
    [unfold consume_body; rewrite Hp, Hr, Hb; by apply consume_post_same|].
  rewrite (consume_content_length_eq limits len s remaining) by (done || lia).
  destruct (drained_length len s) as [Hl Hl']. unfold buffered in *. cbv zeta.
  destruct (_ =? 0) eqn:Hz; cbn [consume_post]; bs;
    split_and!; try done; try (split; bs; done || lia); try apply N.le_0_l.
  all: destruct (0 <? len) eqn:?; [apply Hl'; lia | done].
Qed.

(** The end of the chunked body hands out the trailers. *)
Lemma complete_post s1 :
  body_inv limits s1 -> b_phase s1 = Complete ->
  declared_trailers (b_self s1) = declared_trailers (b_self s) ->
  (buffered s1 <= buffered s)%nat -> consume_post limits s (complete_with_trailers s1).
Proof.
  intros [H1 H2 H3] Hp Hd Hle. unfold complete_with_trailers. cbn [consume_post]. bs.
  rewrite Hp in *. rewrite Hd in *. split_and!; try done; [|lia]. split; bs; rewrite ?Hp; [done..|].
  autorewrite with http11_rw. lia.
Qed.

Lemma consume_chunk_size_post :
  b_phase s = BodyChunkedSize -> consume_post limits s (consume_body len limits s).
Proof.
  intros Hp. rewrite (consume_chunk_size_eq _ _ _ Hp).
  pose proof (process_chunked_size_inv limits s Hi Hp) as Hc.
  destruct (process_chunked_size limits s) as [s' [u|e]]; destruct Hc as (Hi' & Ho & Hd & Hle & _ & Hlt & Hph);
    [|split_and!; try done; by destruct (b_phase s')].
  destruct (b_phase s') eqn:Hp'; try done; try (by apply complete_post);
    split_and!; try done; try (rewrite Hp'; done); by apply Hlt.
Qed.

Lemma consume_trailer_post :
  b_phase s = ChunkedTrailer -> consume_post limits s (consume_body len limits s).
Proof.
  intros Hp. rewrite (consume_trailer_eq _ _ _ Hp).
  pose proof (process_trailers_inv limits s Hi Hp) as Hc.
  destruct (process_trailers limits s) as [s' [a|e]]; destruct Hc as (Hi' & Ho & Hd & Hc);
    [|destruct Hc as [Hc ?]; split_and!; try done; by rewrite Hc].
  destruct Hc as [[[Hp' ->]|[Hp' _]] Hc]; rewrite Hp'.
  - apply complete_post; try done. lia.
  - destruct a; split_and!; try done; try lia; try (by rewrite Hp'); by subst.
Qed.

Lemma consume_chunk_data_post remaining :
  b_phase s = BodyChunkedData remaining -> consume_post limits s (consume_body len limits s).
Proof.
  intros Hp. pose proof Hi as [H1 H2 H3]. rewrite Hp in H1. destruct H1 as [H0 H1].
  destruct (remaining <? len) eqn:Hr; [unfold consume_body; rewrite Hp, Hr; by apply consume_post_same|].
  destruct (blen (b_buf s) <? len) eqn:Hb;
    [unfold consume_body; rewrite Hp, Hr, Hb; by apply consume_post_same|].
  destruct (len =? 0) eqn:Hz; [unfold consume_body; rewrite Hp, Hr, Hb, Hz; by split_and!|].
  rewrite (consume_chunk_eq limits len s remaining) by (done || lia). cbv zeta.
  destruct (drained_length len s) as [Hl Hl']. unfold buffered in *. destruct (remaining - len =? 0) eqn:Hz'.
  - set (t := with_phase BodyChunkedDataCrlf _).
    assert (Ht : body_inv limits t) by (unfold t; split; bs; done || lia).
    pose proof (take_chunk_crlf_inv limits t Ht eq_refl) as Hc. unfold buffered in Hc.
    destruct (chunk_end t) as [s' r]. destruct Hc as (Hi' & Ho & Hd & Hle & Hc).
    specialize (Hl' ltac:(lia) ltac:(lia)). unfold t in *. cbn [b_buf with_phase with_self drain] in *.
    destruct r as [[| |ts]|e]; [destruct Hc as [Hc ?] | subst s' | done | subst s'];
      split_and!; try done; try (by rewrite Hc); unfold buffered; bs; lia.
  - cbn [consume_post]. unfold buffered. bs. split_and!; try done; [split; bs; done || lia|]. apply Hl'; lia.
Qed.
End ConsumeInv.

(** [consume_body] keeps the invariant, ends normally, and makes progress
    when it says so. *)
Lemma consume_body_inv limits len s :
  body_inv limits s -> max_body_size limits <= usize_MAX ->
  consume_post limits s (consume_body len limits s).
Proof.
  intros Hi Hmax. destruct (b_phase s) as [| |remaining| |remaining| | | | |] eqn:Hp;
    [by unfold consume_body; rewrite Hp; apply consume_post_same..
    |by eapply consume_content_length_post |by apply consume_chunk_size_post
    |by eapply consume_chunk_data_post | |by apply consume_trailer_post
    | |by unfold consume_body; rewrite Hp; apply consume_post_same
    |by unfold consume_body; rewrite Hp; apply complete_post].
  - rewrite (consume_chunk_crlf_eq _ _ _ Hp). pose proof (take_chunk_crlf_inv limits s Hi Hp) as Hc.
    destruct (chunk_end s) as [s' [[| |ts]|e]]; destruct Hc as (Hi' & Ho & Hd & Hle & Hc);
      [destruct Hc as [Hc ?] | subst | done | subst]; split_and!; try done; by rewrite Hc.
  - pose proof Hi as [H1 H2 H3]. rewrite Hp in H1. rewrite (consume_close_eq _ _ _ Hp).
    destruct (_ <? len) eqn:Hb; [by apply consume_post_same|]. destruct (len =? 0) eqn:Hz; [by split_and!|].
    rewrite checked_add_eq. unfold body_too_large, throw. destruct (usize_MAX <? _); [by apply consume_post_same|].
    destruct (max_body_size limits <? _) eqn:Hm; [by apply consume_post_same|].
    destruct (drained_length len s) as [Hl Hl']. cbn [consume_post]. unfold buffered in *. bs. rewrite Hp.
    split_and!; try done; [split; bs; rewrite ?Hp; done || lia|]. apply Hl'; lia.
Qed.

(** ** A step of reading the body

    What [decode] does in one round of its loop, on the state of the body
    decoder: the data it takes, the state after it, and whether to go on. *)

Definition body_step (limits : DecoderLimits) (s : BodyState) :
    bytes * BodyState * result (exn Error.t) (flow bool) :=
  match peek_body (b_buf s) (b_phase s) with
  | Some data =>
      match consume_body (blen data) limits s with
      | (s', Ok _) =>
          (data, s', Ok (if bool_decide (b_phase s' = Complete) then Break true else Continue))
      | (s', Err e) => (data, s', Err e)
      end
  | None =>
      match consume_body 0 limits s with
      | (s', Ok (ProgressComplete _)) => ([], s', Ok (Break true))
      | (s', Ok Advanced) => ([], s', Ok Continue)
      | (s', Ok NeedData) => ([], s', Ok (Break false))
      | (s', Err e) => ([], s', Err e)
      end
  end.

Section Step.
Context (limits : DecoderLimits) (y : bytes).
Hypothesis Hmax : max_body_size limits <= usize_MAX.

(** The step on [s] and the step with [y] behind the buffer. *)
Definition step_ext (s : BodyState) : Prop :=
  let '(data, s', r) := body_step limits s in
  match r with
  | Ok Continue =>
      body_step limits (extend y s) = (data, extend y s', Ok Continue) \/
      body_step limits (extend y s) =
        let '(data2, s2, r2) := body_step limits (extend y s') in (data ++ data2, s2, r2)
  | Ok (Break false) => data = [] /\ s' = s
  | _ => body_step limits (extend y s) = (data, extend y s', r)
  end.

Lemma peek_len_le buf phase n : peek_len buf phase = Some n -> n <= blen buf.
Proof.
  clear Hmax. unfold peek_len. repeat case_match; intros; simplify_eq/=; lia.
Qed.

(** [peek_body] never panics: the slice it takes is inside the buffer. *)
Lemma peek_slice_eq buf phase : peek_slice buf phase = Ok (peek_body buf phase).
Proof.
  clear Hmax. unfold peek_slice, peek_body. destruct (peek_len buf phase) as [n|] eqn:Hn; [|done].
  apply peek_len_le in Hn. rewrite slice_to_le by (unfold blen in Hn; lia). done.
Qed.

Lemma peek_body_close buf : peek_body buf BodyCloseDelimited = if is_empty buf then None else Some buf.
Proof.
  clear Hmax. unfold peek_body, peek_len. destruct (is_empty buf); [done|].
  by rewrite take_ge by (unfold blen; lia).
Qed.

Lemma peek_length phase remaining buf :
  phase = BodyContentLength remaining \/ phase = BodyChunkedData remaining ->
  peek_body buf phase =
    if (0 <? remaining) && negb (is_empty buf)
    then Some (take (N.to_nat (N.min remaining (blen buf))) buf) else None.
Proof.
  clear Hmax. intros Hp. assert (He : is_empty buf = (blen buf =? 0)).
  { destruct buf; [done|]. rewrite blen_cons. symmetry. apply N.eqb_neq. lia. }
  rewrite He. destruct Hp as [-> | ->]; unfold peek_body, peek_len; rewrite He.
  all: destruct (blen buf =? 0) eqn:H0; [by rewrite andb_false_r|].
  all: destruct (0 <? remaining) eqn:H1; cbn [andb negb];
    destruct (0 <? N.min remaining (blen buf)) eqn:H2; done || lia.
Qed.

Lemma chunk_end_ext s :
  b_phase s = BodyChunkedDataCrlf ->
  match chunk_end s with
  | (s', Ok NeedData) => s' = s
  | (s', r) => chunk_end (extend y s) = (extend y s', r)
  end.
Proof.
  intros Hp. unfold chunk_end. rewrite ?take_chunk_crlf_eq. bs.
  destruct (2 <=? length (b_buf s))%nat eqn:Hl; [|done]. apply Nat.leb_le in Hl.
  assert ((2 <=? length (b_buf s ++ y))%nat = true) as -> by (apply Nat.leb_le; rewrite length_app; lia).
  rewrite take_app_le by lia. destruct (negb _); [done|].
  unfold with_phase, drain, extend. bs. by rewrite drop_app_le by lia.
Qed.

Lemma chunk_end_not_complete s s' ts : chunk_end s <> (s', Ok (ProgressComplete ts)).
Proof. unfold chunk_end. by destruct (take_chunk_crlf s) as [? [[]|]]. Qed.

Lemma body_step_crlf s :
  b_phase s = BodyChunkedDataCrlf ->
  body_step limits s =
    match chunk_end s with
    | (s', Ok Advanced) => ([], s', Ok Continue)
    | (s', Ok _) => ([], s', Ok (Break false))
    | (s', Err e) => ([], s', Err e)
    end.
Proof.
  intros Hp. unfold body_step, peek_body, peek_len. rewrite Hp, (consume_chunk_crlf_eq limits 0 s Hp).
  destruct (chunk_end s) as [s' [[| |ts]|e]] eqn:Hc; try done. by apply chunk_end_not_complete in Hc.
Qed.

Lemma step_ext_crlf s : b_phase s = BodyChunkedDataCrlf -> step_ext s.
Proof.
  intros Hp. unfold step_ext. rewrite (body_step_crlf s Hp), (body_step_crlf (extend y s)) by done.
  pose proof (chunk_end_ext s Hp) as Hc.
  destruct (chunk_end s) as [s' [[| |ts]|e]] eqn:Hs; [left| | |]; rewrite ?Hc; try done.
  by apply chunk_end_not_complete in Hs.
Qed.

Lemma process_chunked_size_ext s s' r :
  b_phase s = BodyChunkedSize -> process_chunked_size limits s = (s', r) ->
  process_chunked_size limits (extend y s) = (extend y s', r) \/ (r = Ok tt /\ s' = s) \/
  (r = Ok tt /\ b_phase s' = ChunkedTrailer /\
   process_chunked_size limits (extend y s) =
     let '(s2, r2) := process_trailers limits (extend y s') in
     (s2, match r2 with Ok _ => Ok tt | Err e => Err e end)).
Proof.
  intros Hp H. destruct (find_line (b_buf s)) as [pos|] eqn:Hf.
  2: { right; left. rewrite process_chunked_size_idle in H by done. by simplify_eq. }
  rewrite (process_chunked_size_eq limits (extend y s) pos) by (done || by apply find_line_app).
  rewrite (process_chunked_size_eq _ _ _ Hp Hf) in H. bs. rewrite (find_line_take _ _ y Hf).
  assert (Hd : drain (pos + 2) (extend y s) = extend y (drain (pos + 2) s))
    by (unfold drain, extend; bs; by rewrite (find_line_drop _ _ y Hf)).
  rewrite Hd. clear Hd. destruct (_ <? _); [left; by simplify_eq|].
  destruct (chunk_line_size _) as [size|e]; [|left; by simplify_eq]. cbv zeta in *.
  destruct (size =? 0).
  - set (t := with_phase ChunkedTrailer (drain (pos + 2) s)) in *.
    destruct (process_trailers limits t) as [s1 r1] eqn:Ht. injection H as <- <-.
    change (with_phase ChunkedTrailer (extend y _)) with (extend y t).
    destruct (process_trailers_ext limits y t s1 r1 Ht) as [He|(a & -> & Hp1 & _ & He)]; [left; by rewrite He|].
    right; right. rewrite He. split_and!; [done..|]. by destruct (process_trailers limits (extend y s1)) as [? []].
  - destruct (usize_MAX <? _); [left; by simplify_eq|]. destruct (max_body_size limits <? _); left; by simplify_eq.
Qed.

Lemma complete_step_ext s : 
  complete_with_trailers (extend y s) =
    let '(s', r) := complete_with_trailers s in (extend y s', r).
Proof. done. Qed.

(** The step after the trailers were cut short takes them up again. *)
Lemma body_step_trailer s :
  b_phase s = ChunkedTrailer ->
  body_step limits s =
    match process_trailers limits s with
    | (s', Err e) => ([], s', Err e)
    | (s', Ok advanced) =>
        match b_phase s' with
        | Complete => ([], fst (complete_with_trailers s'), Ok (Break true))
        | _ => ([], s', Ok (if advanced then Continue else Break false))
        end
    end.
Proof.
  intros Hp. unfold body_step, peek_body, peek_len. rewrite Hp, (consume_trailer_eq _ _ _ Hp).
  destruct (process_trailers limits s) as [s' [[]|e]]; [..|done]; by destruct (b_phase s').
Qed.

Lemma body_step_size s :
  b_phase s = BodyChunkedSize ->
  body_step limits s =
    match process_chunked_size limits s with
    | (s', Err e) => ([], s', Err e)
    | (s', Ok _) =>
        match b_phase s' with
        | Complete => ([], fst (complete_with_trailers s'), Ok (Break true))
        | BodyChunkedSize => ([], s', Ok (Break false))
        | _ => ([], s', Ok Continue)
        end
    end.
Proof.
  intros Hp. unfold body_step, peek_body, peek_len. rewrite Hp, (consume_chunk_size_eq _ _ _ Hp).
  destruct (process_chunked_size limits s) as [s' [[]|e]]; [|done]; by destruct (b_phase s').
Qed.

Lemma extend_inv s : body_inv limits s -> body_inv limits (extend y s).
Proof. by intros [H1 H2 H3]; split. Qed.

Lemma step_ext_trailer s : body_inv limits s -> b_phase s = ChunkedTrailer -> step_ext s.
Proof.
  intros Hi Hp. unfold step_ext. rewrite (body_step_trailer s Hp), (body_step_trailer (extend y s)) by done.
  pose proof (process_trailers_inv limits s Hi Hp) as Hinv.
  destruct (process_trailers limits s) as [s' r] eqn:Ht. destruct Hinv as (Hi' & _ & _ & Hc).
  destruct (process_trailers_ext limits y s s' r Ht) as [He|(a & -> & Hp' & Hf & He)].
  - rewrite He. destruct r as [a|e]; [|done].
    destruct Hc as [[[Hp' ->]|[Hp' _]] Hc]; bs; rewrite Hp'; [done|]. destruct a; [by left | done].
  - destruct Hc as [_ Hc]. rewrite Hp'. destruct a; [|done].
    rewrite (body_step_trailer (extend y s')), He by done.
    pose proof (process_trailers_inv limits _ (extend_inv s' Hi') Hp') as Hi2.
    destruct (process_trailers limits (extend y s')) as [s2 [b|e]]; [|by right].
    destruct b; cbn [orb]; [by right; destruct (b_phase s2)|].
    destruct Hi2 as (_ & _ & _ & _ & ->). bs. rewrite Hp'. by left.
Qed.

Lemma step_ext_size s : body_inv limits s -> b_phase s = BodyChunkedSize -> step_ext s.
Proof.
  intros Hi Hp. unfold step_ext. rewrite (body_step_size s Hp), (body_step_size (extend y s)) by done.
  pose proof (process_chunked_size_inv limits s Hi Hp) as Hinv.
  destruct (process_chunked_size limits s) as [s' r] eqn:Ht.
  destruct Hinv as (Hi' & _ & _ & _ & Hs & _ & Hph).
  destruct (process_chunked_size_ext s s' r Hp Ht) as [He|[[-> ->]|(-> & Hp' & He)]].
  - rewrite He. destruct r as [a|e]; [|done]. bs. destruct (b_phase s') eqn:Hp'; try done; try by left.
    split; [done|]. by apply Hs.
  - by rewrite Hp.
  - rewrite Hp', He, (body_step_trailer (extend y s')) by done.
    pose proof (process_trailers_inv limits _ (extend_inv s' Hi') Hp') as Hi2.
    destruct (process_trailers limits (extend y s')) as [s2 [b|e]]; [|by right].
    destruct Hi2 as (_ & _ & _ & Hp2 & Hb). destruct b.
    + right. destruct Hp2 as [[-> _]|[-> _]]; done.
    + subst s2. bs. rewrite Hp'. by left.
Qed.

(** Data of known length: what is there is taken, the rest when it comes. *)
Lemma take_split (n : N) (buf : bytes) :
  blen buf < n ->
  take (N.to_nat (N.min n (blen (buf ++ y)))) (buf ++ y)
  = buf ++ take (N.to_nat (N.min (n - blen buf) (blen y))) y.
Proof.
  intros Hn. rewrite take_app, take_ge by (unfold blen in *; rewrite length_app; lia).
  f_equal. f_equal. unfold blen in *. rewrite length_app. lia.
Qed.

Lemma take_whole (n : N) (buf : bytes) :
  n <= blen buf -> N.min n (blen (buf ++ y)) = n /\ N.min n (blen buf) = n /\
  take (N.to_nat n) (buf ++ y) = take (N.to_nat n) buf /\
  drop (N.to_nat n) (buf ++ y) = drop (N.to_nat n) buf ++ y.
Proof.
  intros Hn. rewrite take_app_le, drop_app_le by (unfold blen in *; lia).
  rewrite blen_app. split_and!; lia || done.
Qed.

(** [n] bytes of body data, taken from the buffer. *)
Definition take_data (n : N) (s : BodyState) : BodyState :=
  with_self (set_body_consumed (body_consumed (b_self s) + n)) (drain (N.to_nat n) s).

Lemma body_step_length s remaining :
  body_inv limits s -> b_phase s = BodyContentLength remaining ->
  body_step limits s =
    if is_empty (b_buf s) then ([], s, Ok (Break false))
    else
      let n := N.min remaining (blen (b_buf s)) in
      if remaining - n =? 0
      then (take (N.to_nat n) (b_buf s), with_phase Complete (take_data n s), Ok (Break true))
      else (take (N.to_nat n) (b_buf s), with_phase (BodyContentLength (remaining - n)) (take_data n s),
            Ok Continue).
Proof.
  intros Hi Hp. destruct Hi as [H1 _ _]. rewrite Hp in H1. destruct H1 as [H0 H1].
  unfold body_step. rewrite Hp, (peek_length _ remaining _ (or_introl eq_refl)).
  rewrite (proj2 (N.ltb_lt 0 _) H0). cbn [andb]. destruct (is_empty (b_buf s)) eqn:He; cbn [negb].
  - rewrite (consume_content_length_eq limits 0 s remaining) by (done || lia). cbv zeta.
    rewrite (proj2 (N.eqb_neq (remaining - 0) 0)) by lia. rewrite N.sub_0_r, N.add_0_r.
    cbn [N.ltb N.compare]. destruct s as [[] buf p]. bs. cbn in Hp. by subst.
  - set (n := N.min _ _).
    assert (Hn : blen (take (N.to_nat n) (b_buf s)) = n) by (rewrite blen_take; lia).
    rewrite Hn, (consume_content_length_eq limits n s remaining) by (done || lia). cbv zeta.
    by destruct (_ =? 0).
Qed.

Lemma body_step_data s remaining :
  body_inv limits s -> b_phase s = BodyChunkedData remaining ->
  body_step limits s =
    if is_empty (b_buf s) then ([], s, Ok (Break false))
    else
      let n := N.min remaining (blen (b_buf s)) in
      let data := take (N.to_nat n) (b_buf s) in
      if remaining - n =? 0 then
        match chunk_end (with_phase BodyChunkedDataCrlf (take_data n s)) with
        | (s', Ok _) => (data, s', Ok Continue)
        | (s', Err e) => (data, s', Err e)
        end
      else (data, with_phase (BodyChunkedData (remaining - n)) (take_data n s), Ok Continue).
Proof.
  intros Hi Hp. destruct Hi as [H1 _ _]. rewrite Hp in H1. destruct H1 as [H0 H1].
  unfold body_step. rewrite Hp, (peek_length _ remaining _ (or_intror eq_refl)).
  rewrite (proj2 (N.ltb_lt 0 _) H0). cbn [andb]. destruct (is_empty (b_buf s)) eqn:He; cbn [negb].
  - unfold consume_body. rewrite Hp. destruct (remaining <? 0) eqn:?; [lia|]. 
    by destruct (blen (b_buf s) <? 0) eqn:?; [lia|].
  - set (n := N.min _ _).
    assert (Hb : blen (b_buf s) <> 0) by (destruct (b_buf s); [done | rewrite blen_cons; lia]).
    assert (Hn : blen (take (N.to_nat n) (b_buf s)) = n) by (rewrite blen_take; lia).
    rewrite Hn, (consume_chunk_eq limits n s remaining) by (done || lia). cbv zeta.
    destruct (_ =? 0); [|done]. set (t := with_phase _ _). change (with_phase _ (take_data n s)) with t.
    assert (Hph : forall s' r, chunk_end t = (s', Ok r) -> b_phase s' <> Complete).
    { intros s' r. unfold chunk_end. rewrite ?take_chunk_crlf_eq. unfold fail, throw. unfold t at 1.
      destruct (2 <=? _)%nat; [destruct (negb _)|]; intros H; injection H as <- _; done. }
    destruct (chunk_end t) as [s' [r|e]] eqn:Hc; [|done]. specialize (Hph s' r eq_refl).
    by rewrite bool_decide_false by done.
Qed.

Lemma take_data_whole n s :
  n <= blen (b_buf s) -> take_data n (extend y s) = extend y (take_data n s).
Proof.
  intros Hn. unfold take_data, drain, with_self, extend. bs.
  by rewrite (proj2 (proj2 (proj2 (take_whole n (b_buf s) Hn)))).
Qed.

Lemma take_data_split s m p q :
  with_phase p (take_data (blen (b_buf s) + m) (extend y s))
  = with_phase p (take_data m (extend y (with_phase q (take_data (blen (b_buf s)) s)))).
Proof.
  unfold take_data, drain, with_self, with_phase, extend, set_body_consumed. bs. f_equal.
  - f_equal. lia.
  - rewrite (drop_ge (b_buf s)) by (unfold blen; lia). rewrite drop_app_ge by (unfold blen; lia).
    cbn [app]. f_equal. unfold blen. lia.
Qed.

Lemma is_empty_app (a b : bytes) : is_empty (a ++ b) = is_empty a && is_empty b.
Proof. by destruct a. Qed.

(** What the buffer lacks of [remaining] comes with [y]. *)
Lemma min_split remaining (s : BodyState) :
  blen (b_buf s) < remaining ->
  N.min remaining (blen (b_buf s)) = blen (b_buf s) /\
  N.min remaining (blen (b_buf (extend y s)))
    = blen (b_buf s) + N.min (remaining - blen (b_buf s)) (blen y).
Proof. intros H. bs. rewrite blen_app. lia. Qed.

Lemma empty_extend s : is_empty y = true -> extend y s = s.
Proof. intros Hy. assert (y = []) as -> by (by destruct y). apply extend_nil. Qed.

(** After all of the buffer was taken. *)
Lemma taken_buf s p : b_buf (extend y (with_phase p (take_data (blen (b_buf s)) s))) = y.
Proof. unfold take_data. bs. by rewrite drop_ge by (unfold blen; lia). Qed.

Lemma take_all (buf : bytes) : take (N.to_nat (blen buf)) buf = buf.
Proof. apply take_ge. unfold blen. lia. Qed.

(** The invariant after a part of the data was taken. *)
Lemma taken_inv s n remaining p :
  body_inv limits s -> n < remaining ->
  b_phase s = BodyContentLength remaining /\ p = BodyContentLength (remaining - n) \/
  b_phase s = BodyChunkedData remaining /\ p = BodyChunkedData (remaining - n) ->
  body_inv limits (with_phase p (take_data n s)).
Proof. intros [H1 H2 H3] Hn [[Hp ->]|[Hp ->]]; rewrite Hp in H1; unfold take_data; split; bs; done || lia. Qed.

Lemma step_ext_length s remaining :
  body_inv limits s -> b_phase s = BodyContentLength remaining -> step_ext s.
Proof.
  intros Hi Hp. unfold step_ext. rewrite (body_step_length s _ Hi Hp).
  destruct (is_empty (b_buf s)) eqn:He; [done|]. cbv zeta.
  rewrite (body_step_length (extend y s) _ (extend_inv s Hi) Hp). bs. rewrite is_empty_app, He.
  cbn [andb]. cbv zeta. destruct (N.le_gt_cases remaining (blen (b_buf s))) as [Hle|Hgt].
  - destruct (take_whole _ _ Hle) as (-> & -> & -> & _). by rewrite (take_data_whole _ s Hle), N.sub_diag.
  - destruct (min_split _ _ Hgt) as [E1 E2]. cbn [extend b_buf] in E2.
    rewrite (take_split _ _ Hgt), E1, E2, take_all, N.sub_add_distr.
    destruct (remaining - blen (b_buf s) =? 0) eqn:Hz; [lia|].
    rewrite (body_step_length (extend y _) _ (extend_inv _ (taken_inv s _ remaining _ Hi Hgt (or_introl (conj Hp eq_refl)))) eq_refl), taken_buf.
    destruct (is_empty y) eqn:Hy.
    + left. rewrite !empty_extend by done. assert (y = []) as -> by (by destruct y).
      by rewrite blen_nil, N.min_0_r, N.add_0_r, N.sub_0_r, Hz, app_nil_r.
    + right. clear Hz. cbv zeta. by destruct (_ =? 0);
        rewrite (take_data_split s _ _ (BodyContentLength (remaining - blen (b_buf s)))).
Qed.

Lemma step_ext_data s remaining :
  body_inv limits s -> b_phase s = BodyChunkedData remaining -> step_ext s.
Proof.
  intros Hi Hp. unfold step_ext. rewrite (body_step_data s _ Hi Hp).
  destruct (is_empty (b_buf s)) eqn:He; [done|]. cbv zeta.
  rewrite (body_step_data (extend y s) _ (extend_inv s Hi) Hp). bs. rewrite is_empty_app, He.
  cbn [andb]. cbv zeta. destruct (N.le_gt_cases remaining (blen (b_buf s))) as [Hle|Hgt].
  - destruct (take_whole _ _ Hle) as (-> & -> & -> & _). rewrite (take_data_whole _ s Hle), N.sub_diag.
    cbn [N.eqb]. set (t := with_phase BodyChunkedDataCrlf (take_data remaining s)).
    change (with_phase _ (extend y _)) with (extend y t).
    pose proof (chunk_end_ext t eq_refl) as Hc.
    destruct (chunk_end t) as [s' [[| |ts]|e]] eqn:Ht; [by rewrite Hc; left | | by destruct (chunk_end_not_complete t s' ts) | by rewrite Hc].
    subst s'. rewrite (body_step_crlf (extend y t)) by done.
    destruct (chunk_end (extend y t)) as [s2 [[| |ts]|e]] eqn:Ht2.
    + right. by rewrite app_nil_r.
    + left. pose proof (chunk_end_ext (extend y t) eq_refl) as Hc2. rewrite Ht2 in Hc2. by subst.
    + by destruct (chunk_end_not_complete _ _ _ Ht2).
    + right. by rewrite app_nil_r.
  - destruct (min_split _ _ Hgt) as [E1 E2]. cbn [extend b_buf] in E2.
    rewrite (take_split _ _ Hgt), E1, E2, take_all, N.sub_add_distr.
    destruct (remaining - blen (b_buf s) =? 0) eqn:Hz; [lia|].
    rewrite (body_step_data (extend y _) _ (extend_inv _ (taken_inv s _ remaining _ Hi Hgt (or_intror (conj Hp eq_refl)))) eq_refl), taken_buf.
    destruct (is_empty y) eqn:Hy.
    + left. rewrite !empty_extend by done. assert (y = []) as -> by (by destruct y).
      by rewrite blen_nil, N.min_0_r, N.add_0_r, N.sub_0_r, Hz, app_nil_r.
    + right. clear Hz. cbv zeta. destruct (_ =? 0);
        rewrite (take_data_split s _ _ (BodyChunkedData (remaining - blen (b_buf s)))); [|done].
      by destruct (chunk_end _) as [s2 [v|e]].
Qed.

(** Every step can be cut at any point of the input; a body that ends with
    the connection is left out: its limit is checked on what is there. *)
Lemma step_ext_all s : body_inv limits s -> b_phase s <> BodyCloseDelimited -> step_ext s.
Proof.
  intros Hi Hn. destruct (b_phase s) as [| |remaining| |remaining| | | | |] eqn:Hp; try done;
    [| |by eapply step_ext_length|by apply step_ext_size|by eapply step_ext_data|by apply step_ext_crlf
    |by apply step_ext_trailer| |]; unfold step_ext, body_step, peek_body, peek_len, consume_body; bs; by rewrite Hp.
Qed.

(** A step that goes on has taken something from the buffer. *)
Lemma peek_body_phase s data :
  peek_body (b_buf s) (b_phase s) = Some data ->
  (0 < blen data) /\
  ((exists r, b_phase s = BodyContentLength r) \/ (exists r, b_phase s = BodyChunkedData r) \/
   b_phase s = BodyCloseDelimited /\ data = b_buf s).
Proof.
  clear Hmax. destruct (b_phase s) as [| |r| |r| | | | |] eqn:Hp; try done.
  - rewrite (peek_length _ r _ (or_introl eq_refl)). destruct (_ && _) eqn:H0; [|done]. intros [= <-].
    split; [|by eauto]. rewrite blen_take. destruct (b_buf s); [by rewrite andb_false_r in H0|].
    rewrite blen_cons. lia.
  - rewrite (peek_length _ r _ (or_intror eq_refl)). destruct (_ && _) eqn:H0; [|done]. intros [= <-].
    split; [|by eauto]. rewrite blen_take. destruct (b_buf s); [by rewrite andb_false_r in H0|].
    rewrite blen_cons. lia.
  - rewrite peek_body_close. destruct (is_empty (b_buf s)) eqn:He; [done|]. intros [= <-].
    split; [|by eauto]. destruct (b_buf s); [done|]. rewrite blen_cons. lia.
Qed.

Lemma body_step_shrinks s data s' :
  body_inv limits s -> body_step limits s = (data, s', Ok Continue) -> (buffered s' < buffered s)%nat.
Proof.
  intros Hi Hs. destruct (peek_body (b_buf s) (b_phase s)) as [d|] eqn:Hpk.
  - apply peek_body_phase in Hpk as Hph. destruct Hph as [Hd [[r Hp]|[[r Hp]|[Hp ->]]]].
    + rewrite (body_step_length s r Hi Hp) in Hs. destruct (is_empty (b_buf s)) eqn:He; [done|].
      cbv zeta in Hs. destruct (_ =? 0); [done|]. injection Hs as <- <-.
      unfold take_data, buffered. bs. rewrite length_drop. destruct Hi as [H1 _ _]. rewrite Hp in H1.
      destruct (b_buf s); [done|]. rewrite blen_cons. cbn [length]. lia.
    + rewrite (body_step_data s r Hi Hp) in Hs. destruct (is_empty (b_buf s)) eqn:He; [done|].
      cbv zeta in Hs. destruct Hi as [H1 _ _]. rewrite Hp in H1.
      assert (Ht : (buffered (take_data (N.min r (blen (b_buf s))) s) < buffered s)%nat).
      { unfold take_data, buffered. bs. rewrite length_drop.
        destruct (b_buf s); [done|]. rewrite blen_cons. cbn [length]. lia. }
      destruct (_ =? 0); [|by injection Hs as <- <-].
      destruct (chunk_end _) as [s1 [v|e]] eqn:Hc; [|done]. injection Hs as <- <-.
      revert Hc. unfold chunk_end. rewrite ?take_chunk_crlf_eq. unfold fail, throw.
      destruct (2 <=? _)%nat; [destruct (negb _)|]; intros [= <- <-]; unfold buffered in *;
        cbn [b_buf with_phase drain] in *; rewrite ?length_drop; lia.
    + unfold body_step in Hs. rewrite Hpk in Hs.
      pose proof (consume_body_inv limits (blen (b_buf s)) s Hi Hmax) as Hc. revert Hs Hc.
      rewrite (consume_close_eq _ _ _ Hp), N.ltb_irrefl.
      rewrite (proj2 (N.eqb_neq (blen (b_buf s)) 0)) by lia. rewrite checked_add_eq.
      destruct (usize_MAX <? _); [done|]. destruct (max_body_size limits <? _); [done|].
      cbn [consume_post]. bs. intros [= <- <-] (_ & _ & _ & _ & _ & _ & Hc). done.
  - unfold body_step in Hs. rewrite Hpk in Hs. pose proof (consume_body_inv limits 0 s Hi Hmax) as Hc.
    destruct (consume_body 0 limits s) as [s1 [[| |ts]|e]]; try done. injection Hs as <- <-. apply Hc.
Qed.

(** The step in its own terms: invariant, measure, no abnormal end. *)
Lemma body_step_inv s data s' r :
  body_inv limits s -> body_step limits s = (data, s', r) ->
  body_inv limits s' /\ orderly r /\ declared_trailers (b_self s') = declared_trailers (b_self s) /\
  (buffered s' <= buffered s)%nat /\ (head_phase (b_phase s') = true -> s' = s) /\
  (b_phase s' = BodyCloseDelimited -> b_phase s = BodyCloseDelimited) /\
  match r with
  | Ok (Break true) => b_phase s' = Complete
  | _ => True
  end.
Proof.
  intros Hi. unfold body_step. destruct (peek_body _ _) as [d|] eqn:Hpk;
    [pose proof (consume_body_inv limits (blen d) s Hi Hmax) as Hc; destruct (consume_body (blen d) limits s) as [s1 [v|e]]
    |pose proof (consume_body_inv limits 0 s Hi Hmax) as Hc; destruct (consume_body 0 limits s) as [s1 [[| |ts]|e]]];
    intros [= <- <- <-]; destruct Hc as (H1 & H2 & H3 & H4 & H5 & H5' & H6); split_and!; try done.
  - by case_bool_decide.
  - by destruct H6.
Qed.
End Step.
