(* ===== verification/Compression.v ===== *)
(** * Content coding interfaces ([src/compression.rs])

    The traits [Compressor] and [Decompressor] are classes.  A method gets the
    contents of the caller's output buffer and returns the contents it leaves
    there, besides the new state and the result.  [DecompressorLaws] states
    what the documentation of the trait asks of an implementation. *)
From S2P Require Import Prelude RustStd Errors.

(** [enum CompressionStatus]; [SContinue], [SComplete] and [SOutputFull] are
    its variants [Continue], [Complete] and [OutputFull]. *)
Inductive CompressionStatus : Type :=
  | SContinue (consumed produced : N)
  | SComplete (consumed produced : N)
  | SOutputFull (consumed produced : N).

Definition consumed (s : CompressionStatus) : N :=
  match s with SContinue c _ | SComplete c _ | SOutputFull c _ => c end.
Definition produced (s : CompressionStatus) : N :=
  match s with SContinue _ p | SComplete _ p | SOutputFull _ p => p end.
Definition is_complete (s : CompressionStatus) : bool :=
  match s with SComplete _ _ => true | _ => false end.
Definition is_output_full (s : CompressionStatus) : bool :=
  match s with SOutputFull _ _ => true | _ => false end.

Abbreviation status_result := (result CompressionError.t CompressionStatus).

Class Compressor (C : Type) := {
  compress : C -> bytes -> bytes -> C * bytes * status_result;
  finish : C -> bytes -> C * bytes * status_result;
  compressor_reset : C -> C
}.

Class Decompressor (D : Type) := {
  decompress : D -> bytes -> bytes -> D * bytes * status_result;
  decompressor_reset : D -> D
}.

(** The contract of [Decompressor::decompress]. *)
Class DecompressorLaws (D : Type) `{Decompressor D} := {
  (** The output slice keeps its length, and the counts stay inside the slices. *)
  decompress_bounds d input output d' output' s :
    decompress d input output = (d', output', Ok s) ->
    length output' = length output /\
    consumed s <= blen input /\ produced s <= blen output;
  (** An empty input is no error. *)
  decompress_empty d output : is_ok (snd (decompress d [] output)) = true
}.

(** ** NoCompression *)

Record NoCompression := { finished : bool }.

Definition NoCompression_new : NoCompression := {| finished := false |}.

(** [output[..len].copy_from_slice(&input[..len])]. *)
Definition copy_prefix (input output : bytes) (len : nat) : bytes :=
  take len input ++ drop len output.

Definition no_compress (c : NoCompression) (input output : bytes) :
    NoCompression * bytes * status_result :=
  if finished c then (c, output, Err CompressionError.AlreadyFinished)
  else
    let len := Nat.min (length input) (length output) in
    (c, copy_prefix input output len,
     Ok (if (len <? length input)%nat then SOutputFull (N.of_nat len) (N.of_nat len)
         else SContinue (N.of_nat len) (N.of_nat len))).

Definition no_finish (c : NoCompression) (output : bytes) : NoCompression * bytes * status_result :=
  if finished c then (c, output, Err CompressionError.AlreadyFinished)
  else ({| finished := true |}, output, Ok (SComplete 0 0)).

Definition no_decompress (d : NoCompression) (input output : bytes) :
    NoCompression * bytes * status_result :=
  let len := Nat.min (length input) (length output) in
  (d, copy_prefix input output len,
   Ok (if (len <? length input)%nat then SOutputFull (N.of_nat len) (N.of_nat len)
       else if (length input =? 0)%nat then SComplete 0 0
       else SContinue (N.of_nat len) (N.of_nat len))).

Definition no_reset (_ : NoCompression) : NoCompression := {| finished := false |}.

#[export] Instance NoCompression_compressor : Compressor NoCompression :=
  {| compress := no_compress; finish := no_finish; compressor_reset := no_reset |}.
#[export] Instance NoCompression_decompressor : Decompressor NoCompression :=
  {| decompress := no_decompress; decompressor_reset := no_reset |}.

Lemma copy_prefix_length input output :
  length (copy_prefix input output (Nat.min (length input) (length output))) = length output.
Proof. unfold copy_prefix. rewrite length_app, length_take, length_drop. lia. Qed.

#[export] Instance NoCompression_laws : DecompressorLaws NoCompression.
Proof.
  constructor.
  - intros d input output d' output' s. cbn. unfold no_decompress. intros H. simplify_eq.
    rewrite copy_prefix_length. unfold blen. repeat case_match; simpl; lia.
  - done.
Qed.
