(* ===== verification/Message.v ===== *)
(** * Request and Response ([src/request.rs], [src/response.rs])

    The messages with their validating constructors, builders and mutators.
    A builder ([self] by value) and a mutator ([&mut self]) that do the same
    are one definition. *)
From S2P Require Import Prelude RustStd Errors Validate StatusCode Head.

(** [uri.bytes().any(|b| b >= 0x80)]. *)
Definition has_non_ascii (s : str) : bool := existsb (fun b => 128 <=? b2n b) s.

(** ** struct Request *)

Module Request.
Record t := {
  method : str;
  uri : str;
  version : str;
  headers : list (str * str);
  body : option bytes
}.

Definition with_version (method uri version : str) : result EncodeError.t t :=
  if negb (is_valid_method method) then Err (EncodeError.InvalidMethod method)
  else if negb (is_valid_request_target uri) then Err (EncodeError.InvalidRequestTarget uri)
  else if has_non_ascii uri then Err (EncodeError.InvalidRequestTarget uri)
  else if negb (is_valid_protocol_version version) then Err (EncodeError.InvalidVersion version)
  else Ok {| method := method; uri := uri; version := version; headers := []; body := None |}.

Definition new (method uri : str) : result EncodeError.t t :=
  if negb (is_valid_method method) then Err (EncodeError.InvalidMethod method)
  else if negb (is_valid_request_target uri) then Err (EncodeError.InvalidRequestTarget uri)
  else if has_non_ascii uri then Err (EncodeError.InvalidRequestTarget uri)
  else Ok {| method := method; uri := uri; version := B "HTTP/1.1"; headers := []; body := None |}.

Definition from_raw_parts (method uri version : str) (headers : list (str * str))
    (body : option bytes) : t :=
  {| method := method; uri := uri; version := version; headers := headers; body := body |}.

Definition with_headers (hs : list (str * str)) (r : t) : t :=
  {| method := method r; uri := uri r; version := version r; headers := hs; body := body r |}.

(** [add_header] and [header]. *)
Definition add_header (name value : str) (r : t) : result EncodeError.t t :=
  _ ← check_header name value;
  Ok (with_headers (headers r ++ [(name, value)]) r).

(** [set_header]. *)
Definition set_header (name value : str) (r : t) : result EncodeError.t t :=
  _ ← check_header name value;
  Ok (with_headers (List.filter (fun h => negb (named name h)) (headers r) ++ [(name, value)]) r).

(** [body]/[set_body] and [without_body]/[clear_body]. *)
Definition with_body (b : option bytes) (r : t) : t :=
  {| method := method r; uri := uri r; version := version r; headers := headers r; body := b |}.
Definition set_body (b : bytes) (r : t) : t := with_body (Some b) r.
Definition clear_body (r : t) : t := with_body None r.

Definition body_bytes (r : t) : option bytes := body r.

(** What the constructors and mutators establish, which is also what the
    [debug_assert!]s of [from_raw_parts] check. *)
Definition valid (r : t) : bool :=
  is_valid_method (method r) && is_valid_request_target (uri r) && negb (has_non_ascii (uri r))
  && is_valid_protocol_version (version r) && forallb header_ok (headers r).
End Request.

#[export] Instance Request_head : HttpHead Request.t :=
  {| version := Request.version; headers := Request.headers |}.

(** ** struct Response *)

Module Response.
Record t := {
  version : str;
  status_code : N;
  reason_phrase : str;
  headers : list (str * str);
  body : option bytes;
  omit_body : bool
}.

Definition with_version (version : str) (status_code : N) (reason_phrase : str) :
    result EncodeError.t t :=
  if negb (is_valid_protocol_version version) then Err (EncodeError.InvalidVersion version)
  else if negb (is_valid_status_code status_code)
  then Err (EncodeError.InvalidStatusCode status_code)
  else if negb (is_valid_reason_phrase reason_phrase)
  then Err (EncodeError.InvalidReasonPhrase reason_phrase)
  else Ok {| version := version; status_code := status_code; reason_phrase := reason_phrase;
             headers := []; body := None; omit_body := false |}.

Definition new (status_code : N) (reason_phrase : str) : result EncodeError.t t :=
  if negb (is_valid_status_code status_code)
  then Err (EncodeError.InvalidStatusCode status_code)
  else if negb (is_valid_reason_phrase reason_phrase)
  then Err (EncodeError.InvalidReasonPhrase reason_phrase)
  else Ok {| version := B "HTTP/1.1"; status_code := status_code;
             reason_phrase := reason_phrase; headers := []; body := None; omit_body := false |}.

(** [with_status]: its [expect] panics on [Err]. *)
Definition with_status (s : StatusCode) : result EncodeError.t t :=
  with_version (B "HTTP/1.1") (code s) (canonical_reason s).

Definition from_raw_parts (version : str) (status_code : N) (reason_phrase : str)
    (headers : list (str * str)) (body : option bytes) : t :=
  {| version := version; status_code := status_code; reason_phrase := reason_phrase;
     headers := headers; body := body; omit_body := false |}.

Definition with_headers (hs : list (str * str)) (r : t) : t :=
  {| version := version r; status_code := status_code r; reason_phrase := reason_phrase r;
     headers := hs; body := body r; omit_body := omit_body r |}.

(** [add_header] and [header]. *)
Definition add_header (name value : str) (r : t) : result EncodeError.t t :=
  _ ← check_header name value;
  Ok (with_headers (headers r ++ [(name, value)]) r).

(** [set_header]. *)
Definition set_header (name value : str) (r : t) : result EncodeError.t t :=
  _ ← check_header name value;
  Ok (with_headers (List.filter (fun h => negb (named name h)) (headers r) ++ [(name, value)]) r).

Definition with_body (b : option bytes) (r : t) : t :=
  {| version := version r; status_code := status_code r; reason_phrase := reason_phrase r;
     headers := headers r; body := b; omit_body := omit_body r |}.
Definition set_body (b : bytes) (r : t) : t := with_body (Some b) r.
Definition clear_body (r : t) : t := with_body None r.

(** [omit_body] and [set_omit_body]. *)
Definition set_omit_body (omit : bool) (r : t) : t :=
  {| version := version r; status_code := status_code r; reason_phrase := reason_phrase r;
     headers := headers r; body := body r; omit_body := omit |}.

Definition body_bytes (r : t) : option bytes := body r.
Definition is_body_omitted (r : t) : bool := omit_body r.

(** [status_class]: [None] is the failing [expect]. *)
Definition status_class (r : t) : option StatusClass := StatusClass_from_status_code (status_code r).

(** The [debug_assert!]s of [from_raw_parts]; the public constructors also
    ask for a non-empty reason phrase. *)
Definition valid (r : t) : bool :=
  is_valid_protocol_version (version r) && is_valid_status_code (status_code r)
  && (is_empty (reason_phrase r) || is_valid_reason_phrase (reason_phrase r))
  && forallb header_ok (headers r).
End Response.

#[export] Instance Response_head : HttpHead Response.t :=
  {| version := Response.version; headers := Response.headers |}.

(** ** Messages as the public constructors build them *)

(** [with_version], then [add_header] for every header, then the body. *)
Definition build_request (m : Request.t) : result EncodeError.t Request.t :=
  r ← Request.with_version (Request.method m) (Request.uri m) (Request.version m);
  r ← fold_left (fun r h => r ← r; Request.add_header (fst h) (snd h) r) (Request.headers m) (Ok r);
  Ok (Request.with_body (Request.body m) r).

Definition build_response (m : Response.t) : result EncodeError.t Response.t :=
  r ← Response.with_version (Response.version m) (Response.status_code m) (Response.reason_phrase m);
  r ← fold_left (fun r h => r ← r; Response.add_header (fst h) (snd h) r) (Response.headers m) (Ok r);
  Ok (Response.set_omit_body (Response.omit_body m) (Response.with_body (Response.body m) r)).

Lemma add_request_headers hs r :
  forallb header_ok hs = true ->
  fold_left (fun r h => r ← r; Request.add_header (fst h) (snd h) r) hs (Ok r) =
    Ok (Request.with_headers (Request.headers r ++ hs) r).
Proof.
  revert r. induction hs as [|[n v] hs IH]; intros r; cbn [forallb fold_left].
  - intros _. rewrite app_nil_r. by destruct r.
  - intros [Hh Hs]%andb_true_iff. cbn [mbind result_bind fst snd]. unfold Request.add_header.
    rewrite (header_ok_checked n v Hh). cbn [mbind result_bind]. rewrite (IH _ Hs). cbn [Request.with_headers Request.headers].
    by rewrite <- app_assoc.
Qed.

Lemma add_response_headers hs r :
  forallb header_ok hs = true ->
  fold_left (fun r h => r ← r; Response.add_header (fst h) (snd h) r) hs (Ok r) =
    Ok (Response.with_headers (Response.headers r ++ hs) r).
Proof.
  revert r. induction hs as [|[n v] hs IH]; intros r; cbn [forallb fold_left].
  - intros _. rewrite app_nil_r. by destruct r.
  - intros [Hh Hs]%andb_true_iff. cbn [mbind result_bind fst snd]. unfold Response.add_header.
    rewrite (header_ok_checked n v Hh). cbn [mbind result_bind]. rewrite (IH _ Hs). cbn [Response.with_headers Response.headers].
    by rewrite <- app_assoc.
Qed.

(** The constructors build every valid request. *)
Lemma build_request_valid m : Request.valid m = true -> build_request m = Ok m.
Proof.
  unfold Request.valid. rewrite !andb_true_iff, negb_true_iff. intros [[[[Hm Hu] Ha] Hv] Hh].
  unfold build_request, Request.with_version. rewrite Hm, Hu, Ha, Hv. cbn [negb mbind result_bind].
  rewrite add_request_headers by done. by destruct m.
Qed.

(** The constructors build every valid response that has a reason phrase. *)
Lemma build_response_valid m :
  Response.valid m = true -> Response.reason_phrase m <> [] -> build_response m = Ok m.
Proof.
  unfold Response.valid. rewrite !andb_true_iff. intros [[[Hv Hc] Hr] Hh] Hne.
  assert (Hr' : is_valid_reason_phrase (Response.reason_phrase m) = true)
    by (destruct (Response.reason_phrase m); [done | by apply orb_true_iff in Hr as [?|?]]).
  unfold build_response, Response.with_version. rewrite Hv, Hc, Hr'. cbn [negb mbind result_bind].
  rewrite add_response_headers by done. by destruct m.
Qed.

(** They build no response without one. *)
Lemma build_response_no_reason m : Response.reason_phrase m = [] -> is_ok (build_response m) = false.
Proof.
  intros Hr. unfold build_response, Response.with_version. rewrite Hr.
  destruct (negb (is_valid_protocol_version _)); [done|]. by destruct (negb (is_valid_status_code _)).
Qed.
