(* ===== verification/DecoderCore.v ===== *)
(** * What the two decoders share ([src/decoder/request.rs], [src/decoder/response.rs])

    [RequestDecoder<D>] and [ResponseDecoder<D>] have the fields of [Core] in
    common, and the methods on those fields are the same code twice.  The
    decoders extend [Core] with their head (and the request method). *)
From S2P Require Import Prelude RustStd Errors Validate Trailer Buffer BodyDecoder Compression.

Record Core (D : Type) := {
  c_buf : bytes;
  c_phase : DecodePhase;
  c_start_line : option str;
  c_headers : list (str * str);
  c_body_decoder : BodyDecoder;
  c_limits : DecoderLimits;
  c_decoded_body_kind : option BodyKind;
  c_decoded_body : bytes;
  c_decompressor : D;
  c_pending : N
}.
Arguments c_buf {D}. Arguments c_phase {D}. Arguments c_start_line {D}. Arguments c_headers {D}.
Arguments c_body_decoder {D}. Arguments c_limits {D}. Arguments c_decoded_body_kind {D}.
Arguments c_decoded_body {D}. Arguments c_decompressor {D}. Arguments c_pending {D}.

Section Core.
Context {D : Type} `{Decompressor D}.

Implicit Types c : Core D.

(** [with_decompressor_and_limits]; the other constructors fix its arguments. *)
Definition core_new (decompressor : D) (limits : DecoderLimits) : Core D := {|
  c_buf := []; c_phase := StartLine; c_start_line := None; c_headers := [];
  c_body_decoder := BodyDecoder_new; c_limits := limits; c_decoded_body_kind := None;
  c_decoded_body := []; c_decompressor := decompressor; c_pending := 0 |}.

(** ** Field updates *)

Definition set_buf (b : bytes) c : Core D := {|
  c_buf := b; c_phase := c_phase c; c_start_line := c_start_line c; c_headers := c_headers c;
  c_body_decoder := c_body_decoder c; c_limits := c_limits c;
  c_decoded_body_kind := c_decoded_body_kind c; c_decoded_body := c_decoded_body c;
  c_decompressor := c_decompressor c; c_pending := c_pending c |}.
Definition set_pending (p : N) c : Core D := {|
  c_buf := c_buf c; c_phase := c_phase c; c_start_line := c_start_line c; c_headers := c_headers c;
  c_body_decoder := c_body_decoder c; c_limits := c_limits c;
  c_decoded_body_kind := c_decoded_body_kind c; c_decoded_body := c_decoded_body c;
  c_decompressor := c_decompressor c; c_pending := p |}.
Definition set_phase (p : DecodePhase) c : Core D := {|
  c_buf := c_buf c; c_phase := p; c_start_line := c_start_line c; c_headers := c_headers c;
  c_body_decoder := c_body_decoder c; c_limits := c_limits c;
  c_decoded_body_kind := c_decoded_body_kind c; c_decoded_body := c_decoded_body c;
  c_decompressor := c_decompressor c; c_pending := c_pending c |}.
Definition set_start_line (l : option str) c : Core D := {|
  c_buf := c_buf c; c_phase := c_phase c; c_start_line := l; c_headers := c_headers c;
  c_body_decoder := c_body_decoder c; c_limits := c_limits c;
  c_decoded_body_kind := c_decoded_body_kind c; c_decoded_body := c_decoded_body c;
  c_decompressor := c_decompressor c; c_pending := c_pending c |}.
Definition set_headers (hs : list (str * str)) c : Core D := {|
  c_buf := c_buf c; c_phase := c_phase c; c_start_line := c_start_line c; c_headers := hs;
  c_body_decoder := c_body_decoder c; c_limits := c_limits c;
  c_decoded_body_kind := c_decoded_body_kind c; c_decoded_body := c_decoded_body c;
  c_decompressor := c_decompressor c; c_pending := c_pending c |}.
Definition set_body_decoder (b : BodyDecoder) c : Core D := {|
  c_buf := c_buf c; c_phase := c_phase c; c_start_line := c_start_line c; c_headers := c_headers c;
  c_body_decoder := b; c_limits := c_limits c;
  c_decoded_body_kind := c_decoded_body_kind c; c_decoded_body := c_decoded_body c;
  c_decompressor := c_decompressor c; c_pending := c_pending c |}.
Definition set_decoded_body_kind (k : option BodyKind) c : Core D := {|
  c_buf := c_buf c; c_phase := c_phase c; c_start_line := c_start_line c; c_headers := c_headers c;
  c_body_decoder := c_body_decoder c; c_limits := c_limits c;
  c_decoded_body_kind := k; c_decoded_body := c_decoded_body c;
  c_decompressor := c_decompressor c; c_pending := c_pending c |}.
Definition set_decoded_body (b : bytes) c : Core D := {|
  c_buf := c_buf c; c_phase := c_phase c; c_start_line := c_start_line c; c_headers := c_headers c;
  c_body_decoder := c_body_decoder c; c_limits := c_limits c;
  c_decoded_body_kind := c_decoded_body_kind c; c_decoded_body := b;
  c_decompressor := c_decompressor c; c_pending := c_pending c |}.
Definition set_decompressor (d : D) c : Core D := {|
  c_buf := c_buf c; c_phase := c_phase c; c_start_line := c_start_line c; c_headers := c_headers c;
  c_body_decoder := c_body_decoder c; c_limits := c_limits c;
  c_decoded_body_kind := c_decoded_body_kind c; c_decoded_body := c_decoded_body c;
  c_decompressor := d; c_pending := c_pending c |}.

(** ** Buffer access *)

Definition core_feed (data : bytes) : st (Core D) Error.t unit := fun c =>
  match Buffer.feed (c_buf c) (max_buffer_size (c_limits c)) data with
  | Ok b => (set_buf b c, Ok tt)
  | Err e => (c, Err (Throw e))
  end.

Definition core_feed_unchecked (data : bytes) c : Core D :=
  set_buf (Buffer.feed_unchecked (c_buf c) data) c.

(** [mut_buf]: the slice it returns is the last [len] bytes of the buffer. *)
Definition core_mut_buf (len : N) : st (Core D) Error.t unit := fun c =>
  let '(b, p, r) := Buffer.mut_buf (c_buf c) (c_pending c) (max_buffer_size (c_limits c)) len in
  (set_pending p (set_buf b c), map_err Throw r).

Definition core_advance_buf (len : N) c : Core D :=
  let '(b, p) := Buffer.advance_buf (c_buf c) (c_pending c) len in set_pending p (set_buf b c).

Definition core_available_buf c : N :=
  Buffer.available_buf (c_buf c) (max_buffer_size (c_limits c)).

(** [remaining]. *)
Definition core_remaining c : bytes := c_buf c.

Definition core_take_remaining c : Core D * bytes :=
  (set_buf [] (set_pending 0 c), c_buf c).

Definition core_is_tunnel c : bool := bool_decide (c_phase c = Tunnel).

(** [reset], but for the fields of the extension. *)
Definition core_reset c : Core D := {|
  c_buf := []; c_phase := StartLine; c_start_line := None; c_headers := [];
  c_body_decoder := BodyDecoder_reset (c_body_decoder c); c_limits := c_limits c;
  c_decoded_body_kind := None; c_decoded_body := [];
  c_decompressor := decompressor_reset (c_decompressor c); c_pending := 0 |}.

(** ** The body *)

(** Run a method of [body_decoder] on the buffer and the phase. *)
Definition on_body {A} (m : st BodyState Error.t A) : st (Core D) Error.t A := fun c =>
  let '(s, r) := m {| b_self := c_body_decoder c; b_buf := c_buf c; b_phase := c_phase c |} in
  (set_body_decoder (b_self s) (set_buf (b_buf s) (set_phase (b_phase s) c)), r).

Definition core_peek_body c : option bytes := BodyDecoder.peek_body (c_buf c) (c_phase c).

(** [peek_body] as a call, with the slice it takes. *)
Definition core_peek : st (Core D) Error.t (option bytes) := fun c =>
  (c, peek_slice (c_buf c) (c_phase c)).

Definition core_consume_body (len : N) : st (Core D) Error.t BodyProgress := fun c =>
  if len =? 0 then fail "consume_body(0) is not allowed, use progress() instead" c
  else on_body (BodyDecoder.consume_body len (c_limits c)) c.

Definition core_progress : st (Core D) Error.t BodyProgress := fun c =>
  on_body (BodyDecoder.consume_body 0 (c_limits c)) c.

(** [peek_body_decompressed]: the result and the output slice as left. *)
Definition core_peek_body_decompressed (output : bytes) :
    st (Core D) Error.t (option CompressionStatus * bytes) := fun c =>
  match core_peek c with
  | (c, Err e) => (c, Err e)
  | (c, Ok peeked) =>
      let input := default [] peeked in
      let '(d, output', r) := decompress (c_decompressor c) input output in
      let c := set_decompressor d c in
      match r with
      | Err e => (c, Err (Throw (Error.Compression e)))
      | Ok (SContinue 0 0) | Ok (SComplete 0 0) => (c, Ok (None, output'))
      | Ok status => (c, Ok (Some status, output'))
      end
  end.

(** One round of the [loop] of [decode] for a delimited body: [Break true]
    leaves the loop, [Break false] is [return Ok(None)]. *)
Definition body_round : st (Core D) Error.t (flow bool) :=
  peeked ← core_peek;
  match peeked with
  | Some data =>
      _ ← modify (fun c => set_decoded_body (c_decoded_body c ++ data) c);
      _ ← core_consume_body (blen data);
      p ← gets c_phase;
      if bool_decide (p = Complete) then mret (Break true) else mret Continue
  | None =>
      progress ← core_progress;
      match progress with
      | ProgressComplete _ => mret (Break true)
      | Advanced => mret Continue
      | NeedData => mret (Break false)
      end
  end.

Definition body_loop : st (Core D) Error.t bool := fun c =>
  loop (S (length (c_buf c))) body_round c.

(** ** Header lines *)

(** [self.buf.drain(..n)], which panics when the buffer is shorter. *)
Definition core_drain (n : nat) : st (Core D) Error.t unit := fun c =>
  if (n <=? length (c_buf c))%nat then (set_buf (drop n (c_buf c)) c, Ok tt) else (c, Err Panic).

(** A non-empty header line of length [pos] at the front of the buffer. *)
Definition header_line (pos : nat) : st (Core D) Error.t unit := fun c =>
  let limits := c_limits c in
  if max_header_line_size limits <? N.of_nat pos
  then throw (Error.HeaderLineTooLong (N.of_nat pos) (max_header_line_size limits)) c
  else if max_headers_count limits <=? blen (c_headers c)
  then throw (Error.TooManyHeaders (blen (c_headers c) + 1) (max_headers_count limits)) c
  else
    (slice ← unwrap (slice_to pos (c_buf c));
     line ← lift (utf8_line slice);
     _ ← core_drain (pos + 2);
     h ← lift (parse_header_line line);
     modify (fun c => set_headers (c_headers c ++ [h]) c)) c.

(** The phase that follows the head, and [collect_declared_trailers]. *)
Definition phase_after_head (close_delimited : DecodePhase) (k : BodyKind) : DecodePhase :=
  match k with
  | KContentLength len => if 0 <? len then BodyContentLength len else Complete
  | KChunked => BodyChunkedSize
  | KCloseDelimited => close_delimited
  | KNone => Complete
  | KTunnel => Tunnel
  end.

Definition enter_body (close_delimited : DecodePhase) (k : BodyKind) : st (Core D) Error.t unit :=
  _ ← modify (set_phase (phase_after_head close_delimited k));
  modify (fun c => set_body_decoder
                     (set_declared_trailers (collect_declared_trailers (c_headers c))
                        (c_body_decoder c)) c).

(** [DecodePhase::Complete] in [decode_headers]: get ready for the next message. *)
Definition core_next_message c : Core D :=
  set_decompressor (decompressor_reset (c_decompressor c))
    (set_body_decoder (BodyDecoder_reset (c_body_decoder c))
      (set_headers [] (set_start_line None (set_phase StartLine c)))).

(** The end of [decode]: the state for the next message. *)
Definition core_message_done c : Core D :=
  set_decompressor (decompressor_reset (c_decompressor c))
    (set_body_decoder (BodyDecoder_reset (c_body_decoder c))
      (set_decoded_body [] (set_decoded_body_kind None (set_phase StartLine c)))).

Definition body_of_kind (k : BodyKind) : st (Core D) Error.t (option bytes) := fun c =>
  match k with
  | KNone | KTunnel => (c, Ok None)
  | _ => (set_decoded_body [] c, Ok (Some (c_decoded_body c)))
  end.
End Core.

(** ** Reading a head

    [decode_headers] is the same loop in both decoders but for the checks of
    the start line, the end of the head and what a new message clears.  It
    runs on a state [T] that has a [Core] in it. *)

Class CoreOf (D T : Type) := {
  core_of : T -> Core D;
  put_core : Core D -> T -> T
}.

#[export] Instance core_self D : CoreOf D (Core D) := {| core_of c := c; put_core c _ := c |}.

Section HeadReader.
Context {D T : Type} `{Decompressor D} `{CoreOf D T} {A : Type}.

(** A method of the shared part. *)
Definition on_core {B} (m : st (Core D) Error.t B) : st T Error.t B := fun t =>
  let '(c, r) := m (core_of t) in (put_core c t, r).

(** [DecodePhase::StartLine]. *)
Definition start_line_round (check_line : str -> result Error.t unit) :
    st T Error.t (flow (option A)) := fun t =>
  match find_line (c_buf (core_of t)) with
  | None => (t, Ok (Break None))
  | Some pos =>
      on_core
        (slice ← (c ← get; unwrap (slice_to pos (c_buf c)));
         line ← lift (utf8_line slice);
         _ ← core_drain (pos + 2);
         _ ← lift (check_line line);
         _ ← modify (fun c => set_phase Headers (set_start_line (Some line) c));
         mret Continue) t
  end.

(** [DecodePhase::Headers]. *)
Definition header_round (head_done : st T Error.t (flow (option A))) :
    st T Error.t (flow (option A)) := fun t =>
  match find_line (c_buf (core_of t)) with
  | None => (t, Ok (Break None))
  | Some O => head_done t
  | Some pos => (_ ← on_core (header_line pos); mret Continue) t
  end.

(** One round of the [loop] of [decode_headers]. *)
Definition head_round (check_line : str -> result Error.t unit)
    (head_done : st T Error.t (flow (option A))) (next_message : T -> T) :
    st T Error.t (flow (option A)) := fun t =>
  match c_phase (core_of t) with
  | StartLine => start_line_round check_line t
  | Headers => header_round head_done t
  | Complete => (next_message t, Ok Continue)
  | Tunnel => fail "decode_headers cannot be used in tunnel mode" t
  | _ => fail "decode_headers called during body decoding" t
  end.

(** [decode_headers]: every round but one, which follows [Complete], takes
    bytes from the buffer. *)
Definition read_head (round : st T Error.t (flow (option A))) : st T Error.t (option A) := fun t =>
  loop (S (S (length (c_buf (core_of t))))) round t.
End HeadReader.
