(* ===== verification/CoreFacts.v ===== *)
(** * Facts about the shared part of the decoders

    The invariant of [Core]; the body loop of [decode], which runs the steps
    of [BodyFacts]; and that the loop can be cut at any point of the input. *)
From S2P Require Import Prelude RustStd Errors Validate Trailer Head Buffer.
From S2P Require Import BodyDecoder BodyFacts Compression DecoderCore.

(** ** Header lines that were read *)

(** A header that survives the way: well formed, the value a string without
    white space at its ends (which the reader cuts off). *)
Definition sendable (h : str * str) : bool :=
  header_ok h && ows_trimmed (snd h) && utf8_valid (snd h).

Lemma sendable_header_ok hs : forallb sendable hs = true -> forallb header_ok hs = true.
Proof. apply forallb_impl. intros h. unfold sendable. rewrite !andb_true_iff. tauto. Qed.

Lemma ows_ascii b : is_ows b = true -> is_ascii b = true.
Proof. byte_solve b. Qed.

(** A header read from a line survives the way. *)
Lemma parsed_sendable line h :
  utf8_valid line = true -> parse_header_line line = Ok h -> sendable h = true.
Proof.
  destruct h as [n v]. intros Hu (Hn & Hv & Ht & raw & -> & ->)%parse_header_line_Ok.
  unfold sendable, header_ok. cbn [fst snd]. rewrite Hn, Hv, Ht. cbn [andb].
  destruct (trim_ows_spec raw) as (l & r & E & Hl & Hr & _). rewrite E in Hu.
  change (n ++ ":"%byte :: l ++ trim_ows raw ++ r) with (n ++ [":"%byte] ++ l ++ trim_ows raw ++ r) in Hu.
  rewrite !app_assoc, <- app_assoc in Hu. apply utf8_between in Hu; [done| |].
  - rewrite !forallb_app. rewrite is_valid_header_name_token in Hn. apply is_valid_token_iff in Hn as [_ Hn].
    rewrite (forallb_impl _ _ _ is_token_char_ascii Hn), (forallb_impl _ _ _ ows_ascii Hl). done.
  - exact (forallb_impl _ _ _ ows_ascii Hr).
Qed.

Lemma utf8_line_Ok b line : utf8_line b = Ok line -> line = b /\ utf8_valid line = true.
Proof.
  unfold utf8_line. destruct (from_utf8 b) as [t|e] eqn:E; [|done]. intros <-%Ok_inj.
  by apply from_utf8_Ok in E as [-> ?].
Qed.

(** ** The shared part *)

(** The part of the state the body decoder works on. *)
Definition body_state {D} (c : Core D) : BodyState :=
  {| b_self := c_body_decoder c; b_buf := c_buf c; b_phase := c_phase c |}.

Definition put_body {D} (s : BodyState) (c : Core D) : Core D :=
  set_body_decoder (b_self s) (set_buf (b_buf s) (set_phase (b_phase s) c)).

(** More input in the buffer. *)
Definition core_extend {D} (y : bytes) (c : Core D) : Core D := set_buf (c_buf c ++ y) c.

(** [cs]: read off the fields of an updated state. *)
Ltac cs := cbn [c_buf c_phase c_start_line c_headers c_body_decoder c_limits c_decoded_body_kind
  c_decoded_body c_decompressor c_pending set_buf set_pending set_phase set_start_line set_headers
  set_body_decoder set_decoded_body_kind set_decoded_body set_decompressor put_body core_extend
  body_state b_self b_buf b_phase].

Section CoreFacts.
Context {D : Type} `{Decompressor D}.

Implicit Types c : Core D.

(** The data [d] taken, and the body decoder in the state [s]. *)
Definition stepped (d : bytes) (s : BodyState) c : Core D :=
  put_body s (set_decoded_body (c_decoded_body c ++ d) c).

(** Looking at the body is no panic. *)
Lemma core_peek_eq c : core_peek c = (c, Ok (core_peek_body c)).
Proof. unfold core_peek. by rewrite peek_slice_eq. Qed.

(** One round of the loop of [decode] is one step. *)
Lemma body_round_eq c :
  body_round c =
    let '(d, s, r) := body_step (c_limits c) (body_state c) in (stepped d s c, r).
Proof.
  unfold body_round, mbind at 1, st_bind at 1. rewrite core_peek_eq. unfold body_step, core_peek_body, stepped. cs.
  destruct (peek_body (c_buf c) (c_phase c)) as [data|] eqn:Hpk.
  - pose proof (peek_body_phase (body_state c) data Hpk) as [Hd _].
    unfold mbind, st_bind, modify, core_consume_body, gets. cs.
    rewrite (proj2 (N.eqb_neq (blen data) 0)) by lia. unfold on_body. cs. unfold body_state.
    destruct (consume_body _ _ _) as [s [p|e]]; [|done]. cs. by case_bool_decide.
  - unfold mbind, st_bind, core_progress, on_body. unfold body_state.
    by destruct (consume_body _ _ _) as [s [[| |ts]|e]]; rewrite app_nil_r.
Qed.

(** ** The invariant *)

Definition fresh (b : BodyDecoder) : Prop :=
  trailers b = [] /\ body_consumed b = 0 /\ trailer_count b = 0.

Record core_inv (line_ok : str -> Prop) c : Prop := {
  inv_limits : limits_ok (c_limits c);
  inv_body : body_inv (c_limits c) (body_state c);
  (** Before the body of a message the body decoder is as new. *)
  inv_fresh : c_phase c = StartLine \/ c_phase c = Headers -> fresh (c_body_decoder c);
  (** A stored start line has passed its checks. *)
  inv_line : c_phase c = Headers -> exists l, c_start_line c = Some l /\ utf8_valid l = true /\ line_ok l;
  inv_headers : forallb sendable (c_headers c) = true;
  inv_headers_count : blen (c_headers c) <= max_headers_count (c_limits c)
}.

Lemma stepped_inv line_ok c d s r :
  core_inv line_ok c -> body_step (c_limits c) (body_state c) = (d, s, r) ->
  core_inv line_ok (stepped d s c).
Proof.
  intros [H1 H2 H3 H4 H5 H6] Hs.
  apply body_step_inv in Hs as (Hi & _ & _ & _ & Hh & _ & _); [|apply H1|done].
  split; unfold stepped; cs; try done.
  - by destruct s.
  - intros Hp. assert (s = body_state c) as -> by (apply Hh; by destruct Hp as [-> | ->]). by apply H3.
  - intros Hp. assert (s = body_state c) as -> by (apply Hh; by rewrite Hp). by apply H4.
Qed.

Definition core_buffered c : nat := length (c_buf c).

(** ** Header lines *)

Lemma core_drain_le n c : (n <= length (c_buf c))%nat -> core_drain n c = (set_buf (drop n (c_buf c)) c, Ok tt).
Proof. intros Hn. unfold core_drain. by rewrite (proj2 (Nat.leb_le _ _) Hn). Qed.

(** A line that is in the buffer is taken without a panic. *)
Lemma header_line_eq pos c :
  (pos + 2 <= length (c_buf c))%nat ->
  header_line pos c =
    let limits := c_limits c in
    if max_header_line_size limits <? N.of_nat pos
    then throw (Error.HeaderLineTooLong (N.of_nat pos) (max_header_line_size limits)) c
    else if max_headers_count limits <=? blen (c_headers c)
    then throw (Error.TooManyHeaders (blen (c_headers c) + 1) (max_headers_count limits)) c
    else
      match utf8_line (take pos (c_buf c)) with
      | Err e => (c, Err (Throw e))
      | Ok line =>
          let c1 := set_buf (drop (pos + 2) (c_buf c)) c in
          match parse_header_line line with
          | Err e => (c1, Err (Throw e))
          | Ok h => (set_headers (c_headers c ++ [h]) c1, Ok tt)
          end
      end.
Proof.
  intros Hp. unfold header_line. cbv zeta. destruct (_ <? _); [done|]. destruct (_ <=? _); [done|].
  unfold mbind, st_bind, unwrap, lift. rewrite slice_to_le by lia. destruct (utf8_line _) as [line|e]; [|done].
  cbn [map_err]. rewrite core_drain_le by done. by destruct (parse_header_line line).
Qed.

Lemma header_line_ext y c pos :
  (pos + 2 <= length (c_buf c))%nat ->
  header_line pos (core_extend y c) =
    let '(c', r) := header_line pos c in (core_extend y c', r).
Proof.
  intros Hp. rewrite !header_line_eq by (cs; rewrite ?length_app; lia). unfold throw. cs.
  rewrite take_app_le by lia. destruct (_ <? _); [done|]. destruct (_ <=? _); [done|].
  destruct (utf8_line _) as [line|e]; [|done]. cs. rewrite drop_app_le by lia.
  by destruct (parse_header_line line) as [[n v]|e].
Qed.

Lemma header_line_inv line_ok c pos c' r :
  core_inv line_ok c -> (pos + 2 <= length (c_buf c))%nat -> header_line pos c = (c', r) ->
  core_inv line_ok c' /\ orderly r /\ c_phase c' = c_phase c /\ c_start_line c' = c_start_line c /\
  (core_buffered c' <= core_buffered c)%nat /\ (is_ok r = true -> (core_buffered c' < core_buffered c)%nat).
Proof.
  intros Hi Hp. pose proof Hi as [H1 H2 H3 H4 H5 H6].
  rewrite (header_line_eq _ _ Hp). unfold throw, core_buffered.
  destruct (_ <? _); [by intros [= <- <-]|]. destruct (_ <=? _) eqn:Hc; [by intros [= <- <-]|].
  destruct (utf8_line _) as [line|e] eqn:Hu; [|by intros [= <- <-]]. cs.
  assert (Hl : (length (drop (pos + 2) (c_buf c)) < length (c_buf c))%nat) by (rewrite length_drop; lia).
  assert (Hd : core_inv line_ok (set_buf (drop (pos + 2) (c_buf c)) c))
    by (destruct H2; by split; [|split|..]).
  destruct (parse_header_line line) as [[n v]|e] eqn:Hh;
    intros [= <- <-]; cs; [|by split_and!; first [done | lia]].
  apply parsed_sendable in Hh; [|by destruct (utf8_line_Ok _ _ Hu)]. destruct H2. split_and!; try done; [|lia].
  split; cs; try done.
  - by rewrite forallb_app, H5; cbn [forallb]; rewrite Hh.
  - autorewrite with http11_rw. lia.
Qed.

(** Two steps in one. *)
Lemma stepped_stepped d1 s1 d2 s2 c : stepped d2 s2 (stepped d1 s1 c) = stepped (d1 ++ d2) s2 c.
Proof. unfold stepped. cs. by rewrite app_assoc. Qed.

Lemma body_state_stepped d s c : body_state (stepped d s c) = s.
Proof. by destruct s. Qed.

Lemma stepped_extend y d s c : stepped d (extend y s) c = core_extend y (stepped d s c).
Proof. done. Qed.

Lemma stepped_core_extend y d s c : stepped d s (core_extend y c) = stepped d s c.
Proof. done. Qed.

(** ** The body loop *)

Section Loop.
Context (line_ok : str -> Prop) (y : bytes).

(** The states of the loop for a delimited body. *)
Definition loop_inv c : Prop := core_inv line_ok c /\ c_phase c <> BodyCloseDelimited.

Lemma body_round_ext c :
  loop_inv c ->
  round_ext body_round (fun _ a => a = false) loop_inv core_buffered (core_extend y) c.
Proof.
  intros [Hi Hp]. unfold round_ext. rewrite !body_round_eq. cs.
  change (body_state (core_extend y c)) with (extend y (body_state c)).
  pose proof Hi as [Hl Hb _ _ _ _]. destruct Hl as (_ & _ & _ & Hmax & _).
  pose proof (step_ext_all (c_limits c) y Hmax (body_state c) Hb Hp) as Hs. unfold step_ext in Hs.
  destruct (body_step (c_limits c) (body_state c)) as [[d s] r] eqn:Hbs.
  destruct r as [[|[|]]|e].
  - split_and!.
    + split; [by eapply stepped_inv|]. eapply body_step_inv in Hbs as (_ & _ & _ & _ & _ & Hn & _); [|done..].
      intros Hc. by apply Hp, Hn.
    + by eapply body_step_shrinks in Hbs.
    + destruct Hs as [->|Hs]; [by left|]. right. rewrite body_round_eq. cs.
      rewrite Hs. change (body_state (core_extend y (stepped d s c))) with (extend y (body_state (stepped d s c))).
      rewrite body_state_stepped. change (c_limits (stepped d s c)) with (c_limits c).
      destruct (body_step (c_limits c) (extend y s)) as [[d2 s2] r2]. by rewrite !stepped_core_extend, stepped_stepped.
  - left. by rewrite Hs.
  - right. split; [done|]. destruct Hs as [-> ->]. unfold stepped. rewrite app_nil_r. by destruct c.
  - by rewrite Hs.
Qed.

Lemma core_extend_inv c : core_inv line_ok c -> core_inv line_ok (core_extend y c).
Proof. intros [H1 [B1 B2 B3] H3 H4 H5 H6]. by split. Qed.

Lemma loop_inv_extend c : loop_inv c -> loop_inv (core_extend y c).
Proof. intros [Hi Hp]. split; [by apply core_extend_inv | done]. Qed.

(** The body loop on what was there, then on the rest, is the body loop on
    all of it; a loop that ended leaves the rest alone. *)
Lemma body_loop_ext c c' r :
  loop_inv c -> body_loop c = (c', r) ->
  match r with
  | Ok false => loop_inv c' /\ body_loop (core_extend y c) = body_loop (core_extend y c')
  | _ => body_loop (core_extend y c) = (core_extend y c', r)
  end.
Proof.
  intros Hi Hl. unfold body_loop in *.
  destruct (loop_extension _ _ _ core_buffered (core_extend y) loop_inv_extend body_round_ext
    _ _ _ _ (S (length (c_buf (core_extend y c)))) Hi (Nat.lt_succ_diag_r _) Hl (Nat.lt_succ_diag_r _))
    as [[He Hn]|(a & -> & -> & Hi' & He)].
  - rewrite He. destruct r as [[]|]; try done. by destruct (Hn false eq_refl eq_refl).
  - split; [done|]. apply He, Nat.lt_succ_diag_r.
Qed.

(** One round more or less. *)
Lemma body_loop_continue c c' :
  loop_inv c -> body_round c = (c', Ok Continue) -> body_loop c = body_loop c'.
Proof.
  intros Hi Hr. pose proof (body_round_ext c Hi) as He. unfold round_ext in He. rewrite Hr in He.
  destruct He as (Hi' & Hm & _). unfold body_loop at 1. cbn [loop]. rewrite Hr.
  apply (loop_enough _ _ _ core_buffered (core_extend y) body_round_ext); [done | exact Hm | apply Nat.lt_succ_diag_r].
Qed.

(** The loop ends normally, keeps the invariant, and changes nothing but
    the data decoded and what the body decoder works on. *)
Definition body_loop_post c c' (r : result (exn Error.t) bool) : Prop :=
  core_inv line_ok c' /\ orderly r /\ (core_buffered c' <= core_buffered c)%nat /\
  (r = Ok true -> c_phase c' = Complete) /\
  (c_phase c' = BodyCloseDelimited -> c_phase c = BodyCloseDelimited) /\ exists d s, c' = stepped d s c.

Lemma body_loop_inv c :
  core_inv line_ok c -> body_loop_post c (fst (body_loop c)) (snd (body_loop c)).
Proof.
  intros Hi. unfold body_loop.
  apply (loop_rule body_round (fun c1 => core_inv line_ok c1 /\
           (core_buffered c1 <= core_buffered c)%nat /\
           (c_phase c1 = BodyCloseDelimited -> c_phase c = BodyCloseDelimited) /\
           exists d s, c1 = stepped d s c)
    (body_loop_post c) core_buffered); [| |apply Nat.lt_succ_diag_r].
  - intros c1 (Hi1 & Hle & Hcl & d0 & s0 & Hc1). rewrite body_round_eq. pose proof Hi1 as [Hl Hb _ _ _ _].
    destruct Hl as (_ & _ & _ & Hmax & _).
    destruct (body_step (c_limits c1) (body_state c1)) as [[d s] r1] eqn:Hs.
    pose proof (stepped_inv _ _ _ _ _ Hi1 Hs) as Hi2.
    pose proof (body_step_inv _ Hmax _ _ _ _ Hb Hs) as (_ & Ho & _ & Hle2 & _ & Hn & Ht).
    assert (Hle3 : (core_buffered (stepped d s c1) <= core_buffered c)%nat)
      by (unfold core_buffered, buffered in *; cbn in *; lia).
    assert (Hex : exists d' s', stepped d s c1 = stepped d' s' c) by
      (exists (d0 ++ d), s; by rewrite Hc1, stepped_stepped).
    assert (Hcl' : c_phase (stepped d s c1) = BodyCloseDelimited -> c_phase c = BodyCloseDelimited)
      by (intros Hc; by apply Hcl, Hn).
    destruct Hex as (d3 & s3 & Hex). destruct r1 as [[|[|]]|e]; try (by split_and!; eauto).
    split_and!; try done; [by eauto|]. by eapply body_step_shrinks in Hs.
  - split_and!; try done. exists [], (body_state c). unfold stepped. rewrite app_nil_r. by destruct c.
Qed.
End Loop.
End CoreFacts.
