(* ===== verification/CoreApi.v ===== *)
(** * The calls on the shared part

    Every call of the streaming interface that both decoders pass on to the
    shared part keeps its invariant, ends normally, and leaves the rest of the
    decoder consistent.  Then the assertions of debug builds. *)
From S2P Require Import Prelude RustStd Errors Validate Trailer Head Buffer.
From S2P Require Import BodyDecoder BodyFacts Compression DecoderCore CoreFacts.

(** A call for its effect. *)
Definition discard {S E A} (m : st S E A) : st S E unit := _ ← m; mret tt.

Lemma discard_fst {S E A} (m : st S E A) s : fst (discard m s) = fst (m s).
Proof. unfold discard, mbind, st_bind. by destruct (m s) as [s' [a|e]]. Qed.

(** The caller writes [data] into the slice of [len] bytes that [mut_buf] gave it. *)
Definition core_write_slice {D} (len : N) (data : bytes) (c : Core D) : Core D :=
  set_buf (write_slice (c_buf c) len data) c.

(** The call keeps the invariant and does not panic. *)
Definition core_keeps {D A} (line_ok : str -> Prop) (m : st (Core D) Error.t A) : Prop :=
  forall c, core_inv line_ok c ->
    core_inv line_ok (fst (m c)) /\ orderly (snd (m c)) /\
    c_limits (fst (m c)) = c_limits c /\
    c_decoded_body_kind (fst (m c)) = c_decoded_body_kind c /\
    (c_phase (fst (m c)) = BodyCloseDelimited -> c_phase c = BodyCloseDelimited).

Section CoreApi.
Context {D : Type} `{Decompressor D} (line_ok : str -> Prop).

Implicit Types c : Core D.

Lemma core_new_inv (z : D) limits : limits_ok limits -> core_inv line_ok (core_new z limits).
Proof.
  intros Hl. split; cbn; try done; try apply N.le_0_l.
  split; [apply N.le_0_l | constructor | split; apply N.le_0_l].
Qed.

Lemma core_reset_inv c : core_inv line_ok c -> core_inv line_ok (core_reset c).
Proof.
  intros [I1 [B1 B2 B3] I3 I4 I5 I6]. split; cbn; try done; try apply N.le_0_l.
  split; [apply N.le_0_l | constructor | split; apply N.le_0_l].
Qed.

Lemma core_buffer_inv b p c : core_inv line_ok c -> core_inv line_ok (set_pending p (set_buf b c)).
Proof. intros [I1 [B1 B2 B3] I3 I4 I5 I6]. by split; [|split|..]. Qed.

(** A call that only touches the receive buffer. *)
Lemma buffer_keeps {A} (m : st (Core D) Error.t A) :
  (forall c, (exists b p, fst (m c) = set_pending p (set_buf b c)) /\ orderly (snd (m c))) -> core_keeps line_ok m.
Proof.
  intros Hm c Hi. destruct (Hm c) as [(b & p & Hb) Ho]. rewrite Hb. split_and!; try done. by apply core_buffer_inv.
Qed.

Lemma core_feed_keeps data : core_keeps (D := D) line_ok (core_feed data).
Proof.
  apply buffer_keeps. intros c. unfold core_feed. destruct (feed _ _ _) as [b|e]; (split; [|done]).
  - by exists b, (c_pending c).
  - exists (c_buf c), (c_pending c). by destruct c.
Qed.

Lemma core_feed_unchecked_keeps data : core_keeps (D := D) line_ok (modify (core_feed_unchecked data)).
Proof. apply buffer_keeps. intros c. split; [|done]. by exists (c_buf c ++ data), (c_pending c). Qed.

Lemma core_mut_buf_keeps len : core_keeps (D := D) line_ok (core_mut_buf len).
Proof.
  apply buffer_keeps. intros c. unfold core_mut_buf. destruct (mut_buf _ _ _ _) as [[b p] r].
  split; [by exists b, p | by destruct r].
Qed.

Lemma core_write_slice_keeps len data : core_keeps (D := D) line_ok (modify (core_write_slice len data)).
Proof. apply buffer_keeps. intros c. split; [|done]. by eexists _, (c_pending c). Qed.

Lemma core_advance_buf_keeps len : core_keeps (D := D) line_ok (modify (core_advance_buf len)).
Proof.
  apply buffer_keeps. intros c. split; [|done]. cbn [modify fst]. unfold core_advance_buf.
  destruct (advance_buf _ _ _) as [b p]. by exists b, p.
Qed.

Lemma core_take_remaining_keeps : core_keeps (D := D) line_ok (modify (fun c => fst (core_take_remaining c))).
Proof. apply buffer_keeps. intros c. split; [|done]. by exists [], 0. Qed.

Lemma core_peek_decompressed_keeps output : core_keeps line_ok (core_peek_body_decompressed output).
Proof.
  intros c [I1 [B1 B2 B3] I3 I4 I5 I6]. unfold core_peek_body_decompressed. rewrite core_peek_eq.
  destruct (decompress _ _ _) as [[z o] r].
  assert (core_inv line_ok (set_decompressor z c)) by (by split; [|split|..]).
  destruct r as [[[] []|[] []|]|e]; by split_and!.
Qed.

(** A method of the body decoder. *)
Lemma on_body_keeps len :
  core_keeps line_ok (fun c => on_body (consume_body len (c_limits c)) c).
Proof.
  intros c Hi. pose proof Hi as [I1 I2 I3 I4 I5 I6].
  pose proof (consume_body_inv (c_limits c) len (body_state c)) as Hc. unfold on_body.
  change (Build_BodyState _ _ _) with (body_state c).
  destruct (consume_body _ _ _) as [s r].
  destruct Hc as (M1 & M2 & _ & _ & M3 & M4 & _); [exact I2|apply I1|].
  cbn [fst snd]. split_and!; try done. split; cs; try done.
  - by destruct s.
  - intros Hp. assert (s = body_state c) as -> by (apply M3; destruct Hp as [Hp|Hp]; by rewrite Hp).
    by apply I3.
  - intros Hp. assert (s = body_state c) as -> by (apply M3; by rewrite Hp). by apply I4.
Qed.

Lemma core_consume_body_keeps len : core_keeps (D := D) line_ok (core_consume_body len).
Proof.
  intros c Hi. unfold core_consume_body. destruct (len =? 0); [by split_and!|]. by apply on_body_keeps.
Qed.

Lemma on_body_shrinks len c :
  core_inv line_ok c -> (core_buffered (fst (on_body (consume_body len (c_limits c)) c)) <= core_buffered c)%nat.
Proof.
  intros [I1 I2 I3 I4 I5 I6]. unfold on_body. change (Build_BodyState _ _ _) with (body_state c).
  pose proof (consume_body_inv (c_limits c) len (body_state c)) as Hc. destruct (consume_body _ _ _) as [s r].
  destruct Hc as (_ & _ & _ & Hle & _); [exact I2 | apply I1 | exact Hle].
Qed.

Lemma core_consume_body_shrinks len c :
  core_inv line_ok c -> (core_buffered (fst (core_consume_body len c)) <= core_buffered c)%nat.
Proof. intros Hi. unfold core_consume_body. destruct (len =? 0); [done|]. by apply on_body_shrinks. Qed.

Lemma core_progress_keeps : core_keeps (D := D) line_ok core_progress.
Proof. apply on_body_keeps. Qed.

Lemma core_peek_keeps : core_keeps (D := D) line_ok core_peek.
Proof. intros c Hi. rewrite core_peek_eq. by split_and!. Qed.
End CoreApi.

(** ** The refusals of [feed] *)

Definition buffer_overflow (e : exn Error.t) : Prop := exists size limit, e = Throw (Error.BufferOverflow size limit).

Lemma core_feed_cases {D} data (c : Core D) :
  limits_ok (c_limits c) ->
  if blen (c_buf c) + blen data <=? max_buffer_size (c_limits c)
  then core_feed data c = (core_feed_unchecked data c, Ok tt)
  else exists e, core_feed data c = (c, Err e) /\ buffer_overflow e.
Proof.
  intros (Hm & _). unfold core_feed. rewrite feed_spec by done. destruct (_ <=? _); [done|].
  eexists. split; [done|]. by do 2 eexists.
Qed.

(** ** Trailers *)

Section Trailers.
Context {D : Type} `{Decompressor D} (line_ok : str -> Prop).

Implicit Types c : Core D.

Abbreviation declared c := (declared_trailers (c_body_decoder c)).

(** Reading the body leaves the names alone that the head declared. *)
Lemma on_body_declared len c :
  core_inv line_ok c -> declared (fst (on_body (consume_body len (c_limits c)) c)) = declared c.
Proof.
  intros [I1 I2 I3 I4 I5 I6]. unfold on_body. change (Build_BodyState _ _ _) with (body_state c).
  pose proof (consume_body_inv (c_limits c) len (body_state c)) as Hc. destruct (consume_body _ _ _) as [s r].
  destruct Hc as (_ & _ & Hd & _); [exact I2 | apply I1 | exact Hd].
Qed.

Lemma consume_declared len c : core_inv line_ok c -> declared (fst (core_consume_body len c)) = declared c.
Proof. intros Hi. unfold core_consume_body. destruct (len =? 0); [done|]. by apply on_body_declared. Qed.

Lemma peek_decompressed_declared output c : declared (fst (core_peek_body_decompressed output c)) = declared c.
Proof.
  unfold core_peek_body_decompressed. rewrite core_peek_eq.
  by destruct (decompress _ _ _) as [[z o] [[[] []|[] []|]|e]].
Qed.

Lemma mut_buf_declared len c : declared (fst (core_mut_buf len c)) = declared c.
Proof. unfold core_mut_buf. by destruct (mut_buf _ _ _ _) as [[b p] r]. Qed.

Lemma feed_declared data c : declared (fst (core_feed data c)) = declared c.
Proof. unfold core_feed. by destruct (feed _ _ _). Qed.

(** A trailer field is a well-formed field, is none of those that a trailer
    may not hold, and is named in a Trailer header of [hs]. *)
Definition allowed_trailer (hs : list (str * str)) (h : str * str) : Prop :=
  header_ok h = true /\ is_prohibited_trailer_field (fst h) = false /\ declares_trailer hs (fst h).

Lemma trailer_ok_allowed hs h : trailer_ok (collect_declared_trailers hs) h = true -> allowed_trailer hs h.
Proof.
  unfold trailer_ok, allowed_trailer, header_ok. rewrite !andb_true_iff, negb_true_iff, collect_declared_iff. tauto.
Qed.

(** The trailers handed out with the end of a body. *)
Lemma handed_out_ok hs len c c' ts :
  core_inv line_ok c -> declared c = collect_declared_trailers hs ->
  on_body (consume_body len (c_limits c)) c = (c', Ok (ProgressComplete ts)) ->
  Forall (allowed_trailer hs) ts /\ blen ts <= max_headers_count (c_limits c).
Proof.
  intros [(_ & _ & _ & Hmax & _) I2 _ _ _ _] Hd. unfold on_body. change (Build_BodyState _ _ _) with (body_state c).
  pose proof (consume_body_inv _ len _ I2 Hmax) as Hpost. destruct (consume_body len _ _) as [s r]. intros [= _ ->].
  destruct Hpost as (_ & _ & _ & _ & _ & _ & _ & Hf & Hn). split; [|done]. cbn [body_state b_self] in Hf. rewrite Hd in Hf.
  revert Hf. apply Forall_impl. intros x. apply trailer_ok_allowed.
Qed.
End Trailers.

(** ** Debug builds

    Where debug assertions are compiled in, a method starts with the check
    that its caller keeps to the contract: no slice of [mut_buf] is out when
    the input is read or fed, [advance_buf] settles no more than was handed
    out, and [consume_body] takes data only where there is data.  Arithmetic
    on [usize] that would wrap around panics as well.  The checks are values
    here, and [asserting] puts one in front of a method. *)

Definition debug_assert {S} (ok : S -> bool) : st S Error.t unit := fun s =>
  (s, if ok s then Ok tt else Err Panic).

Definition asserting {S A} (ok : S -> bool) (m : st S Error.t A) : st S Error.t A := _ ← debug_assert ok; m.

(** [debug_assert!(self.pending == 0)]. *)
Definition settled {D} (c : Core D) : bool := c_pending c =? 0.

(** [debug_assert_eq!(len, 0)] in the phases of a chunked body without data. *)
Definition consume_asserts (len : N) (phase : DecodePhase) : bool :=
  match phase with
  | BodyChunkedSize | BodyChunkedDataCrlf | ChunkedTrailer => len =? 0
  | _ => true
  end.

(** The phases of a chunked body in which there is no data to consume. *)
Definition between_chunks (phase : DecodePhase) : Prop :=
  match phase with
  | BodyChunkedSize | BodyChunkedDataCrlf | ChunkedTrailer => True
  | _ => False
  end.

Definition consume_body_asserts {D} (len : N) (c : Core D) : bool := settled c && consume_asserts len (c_phase c).

(** [buf.len() - *pending] in [mut_buf]. *)
Definition mut_buf_asserts {D} (c : Core D) : bool := c_pending c <=? blen (c_buf c).

(** [debug_assert!(len <= *pending)] and [buf.len() - drop] in [advance_buf]. *)
Definition advance_buf_asserts {D} (len : N) (c : Core D) : bool :=
  (len <=? c_pending c) && (c_pending c - len <=? blen (c_buf c)).

(** The caller has a slice of [len] bytes and stays inside it. *)
Definition write_slice_asserts {D} (len : N) (data : bytes) (c : Core D) : bool :=
  (len =? c_pending c) && (blen data <=? len).

(** What the slice that is out takes is at the end of the buffer. *)
Definition slice_inside {D} (c : Core D) : Prop := pending_ok (c_buf c) (c_pending c).

Lemma asserting_holds {S A} ok (m : st S Error.t A) s : ok s = true -> asserting ok m s = m s.
Proof. intros Ho. unfold asserting, debug_assert, mbind, st_bind. by rewrite Ho. Qed.

Lemma asserting_fails {S A} ok (m : st S Error.t A) s : ok s = false -> asserting ok m s = (s, Err Panic).
Proof. intros Ho. unfold asserting, debug_assert, mbind, st_bind. by rewrite Ho. Qed.

Section Debug.
Context {D : Type} `{Decompressor D}.

Implicit Types c : Core D.

(** A round of the body loop of [decode] with the assertions of the calls in it. *)
Definition body_round_debug : st (Core D) Error.t (flow bool) :=
  peeked ← core_peek;
  match peeked with
  | Some data =>
      _ ← modify (fun c => set_decoded_body (c_decoded_body c ++ data) c);
      _ ← asserting (consume_body_asserts (blen data)) (core_consume_body (blen data));
      p ← gets c_phase;
      if bool_decide (p = Complete) then mret (Break true) else mret Continue
  | None =>
      progress ← asserting settled core_progress;
      match progress with
      | ProgressComplete _ => mret (Break true)
      | Advanced => mret Continue
      | NeedData => mret (Break false)
      end
  end.

Definition body_loop_debug : st (Core D) Error.t bool := fun c =>
  loop (S (length (c_buf c))) body_round_debug c.

(** [decode] asks for no more than it was shown. *)
Lemma peeked_asserts c data :
  settled c = true -> core_peek_body c = Some data -> consume_body_asserts (blen data) c = true.
Proof.
  intros Hs Hp. unfold consume_body_asserts. rewrite Hs. cbn [andb].
  apply (peek_body_phase (body_state c)) in Hp as [_ [[r Hp]|[[r Hp]|[Hp _]]]];
    cbn [body_state b_phase] in Hp; by rewrite Hp.
Qed.

Lemma body_round_debug_eq c : settled c = true -> body_round_debug c = body_round c.
Proof.
  intros Hs. unfold body_round_debug, body_round, mbind, st_bind, modify.
  rewrite core_peek_eq. destruct (core_peek_body c) as [data|] eqn:Hp.
  - by rewrite (asserting_holds (consume_body_asserts (blen data))) by (by apply peeked_asserts).
  - by rewrite (asserting_holds settled) by done.
Qed.

Lemma body_round_pending c : c_pending (fst (body_round c)) = c_pending c.
Proof. rewrite body_round_eq. by destruct (body_step _ _) as [[d s] r]. Qed.

Lemma body_loop_debug_eq c : settled c = true -> body_loop_debug c = body_loop c.
Proof.
  unfold body_loop_debug, body_loop. generalize (S (length (c_buf c))) as fuel.
  intros fuel. revert c. induction fuel as [|fuel IH]; intros c Hs; [done|]. cbn [loop].
  rewrite (body_round_debug_eq c Hs). pose proof (body_round_pending c) as Hp.
  destruct (body_round c) as [c' [[|b]|e]]; [|done..]. apply IH. unfold settled in *. cbn [fst] in Hp. by rewrite Hp.
Qed.

(** ** Pending stays inside the buffer *)

Lemma slice_inside_settled c : settled c = true -> slice_inside c.
Proof. unfold settled, slice_inside, pending_ok. intros ->%N.eqb_eq. apply N.le_0_l. Qed.

Lemma mut_buf_inside len c : slice_inside c -> slice_inside (fst (core_mut_buf len c)).
Proof.
  unfold slice_inside, core_mut_buf. intros Hp. destruct (mut_buf _ _ _ _) as [[b p] r] eqn:Hm.
  by destruct (mut_buf_pending_ok _ _ _ _ _ _ _ Hp Hm).
Qed.

Lemma advance_buf_inside len c : slice_inside c -> slice_inside (core_advance_buf len c).
Proof.
  unfold slice_inside, core_advance_buf. intros Hp. pose proof (advance_buf_pending_ok _ _ len Hp) as Ha.
  by destruct (advance_buf _ _ _) as [b p].
Qed.

Lemma write_slice_inside len data c :
  write_slice_asserts len data c = true -> slice_inside c -> slice_inside (core_write_slice len data c).
Proof.
  unfold write_slice_asserts, slice_inside, core_write_slice, write_slice, pending_ok. cs.
  rewrite andb_true_iff, N.eqb_eq, N.leb_le. intros [Hl Hd] Hp.
  rewrite !blen_app, blen_take, blen_drop. unfold blen in *. lia.
Qed.
End Debug.

(** ** Receiving without a copy *)

(** To take a slice of the receive buffer with [mut_buf], to write the
    bytes read into it and to settle with [advance_buf] is to [feed] those
    bytes: the slice is refused, and nothing changes, exactly when it would not
    fit the buffer. *)
Lemma receive_slice_is_feed {D} (c : Core D) len data :
  limits_ok (c_limits c) -> c_pending c = 0 -> blen data <= len ->
  match core_mut_buf len c with
  | (c1, Ok _) =>
      blen (c_buf c) + len <= max_buffer_size (c_limits c) /\
      core_feed data c = (core_advance_buf (blen data) (core_write_slice len data c1), Ok tt)
  | (c1, Err e) =>
      max_buffer_size (c_limits c) < blen (c_buf c) + len /\ c1 = c /\
      exists size, e = Throw (Error.BufferOverflow size (max_buffer_size (c_limits c)))
  end.
Proof.
  intros (Hm & _) Hp Hd. unfold core_mut_buf. rewrite Hp.
  destruct (mut_buf (c_buf c) 0 (max_buffer_size (c_limits c)) len) as [[b p] r] eqn:Hmb.
  assert (Hr : if usize_MAX <? blen (c_buf c) + len then b = c_buf c /\ p = 0 /\ r = overflow usize_MAX (max_buffer_size (c_limits c))
               else if max_buffer_size (c_limits c) <? blen (c_buf c) + len
               then b = c_buf c /\ p = 0 /\ r = overflow (blen (c_buf c) + len) (max_buffer_size (c_limits c))
               else r = Ok tt).
  { revert Hmb. unfold mut_buf. cbn [N.ltb N.compare]. rewrite checked_add_eq.
    destruct (usize_MAX <? _); [by intros [= <- <- <-]|]. by destruct (_ <? _); intros [= <- <- <-]. }
  destruct (usize_MAX <? _) eqn:H1; [|destruct (max_buffer_size (c_limits c) <? _) eqn:H2].
  - destruct Hr as (-> & -> & ->). cbn. split_and!; [lia | rewrite <- Hp; by destruct c | by eauto].
  - destruct Hr as (-> & -> & ->). cbn. split_and!; [lia | rewrite <- Hp; by destruct c | by eauto].
  - subst r. cbn [map_err]. split; [lia|]. unfold core_feed. rewrite feed_spec by done.
    rewrite (proj2 (N.leb_le _ _)) by lia. f_equal. unfold core_advance_buf, core_write_slice.
    cbn [c_buf c_pending set_buf set_pending]. rewrite (mut_buf_write_advance _ _ _ data _ _ Hmb Hd).
    destruct c. cbn in *. by subst.
Qed.

Lemma receive_slice_is_feed_witness :
  let c := core_feed_unchecked (B "GET /") (core_new NoCompression_new DecoderLimits_default) in
  core_feed (B " HT") c = (core_advance_buf 3 (core_write_slice 8 (B " HT") (fst (core_mut_buf 8 c))), Ok tt).
Proof.
  exact (proj2 (receive_slice_is_feed (core_feed_unchecked (B "GET /") (core_new NoCompression_new DecoderLimits_default))
    8 (B " HT") limits_ok_default eq_refl ltac:(vm_compute; discriminate))).
Defined.
