(* ===== verification/HeadFacts.v ===== *)
(** * Facts about reading a head

    [read_head] over the shared part of the decoders, for any check of the
    start line and any end of the head that meet [head_end]: it ends, keeps
    the invariant, and can be cut at any point of the input. *)
From S2P Require Import Prelude RustStd Errors Validate Trailer Head.
From S2P Require Import Buffer BodyDecoder BodyFacts Compression DecoderCore CoreFacts.

(** The laws of the access to the shared part. *)
Class CoreOfLaws (D T : Type) `{CoreOf D T} : Prop := {
  core_put (c : Core D) (t : T) : core_of (put_core c t) = c;
  put_core_id (t : T) : put_core (core_of t) t = t;
  put_put (c1 c2 : Core D) (t : T) : put_core c2 (put_core c1 t) = put_core c2 t
}.

#[export] Instance core_self_laws D : CoreOfLaws D (Core D).
Proof. done. Qed.

(** More input in the buffer of the shared part. *)
Definition extend_core {D T} `{CoreOf D T} (y : bytes) (t : T) : T :=
  put_core (core_extend y (core_of t)) t.

Definition reading_head {D} (c : Core D) : Prop := c_phase c = StartLine \/ c_phase c = Headers.

(** The rounds of [read_head]; [Complete] takes one more. *)
Definition head_measure {D} (c : Core D) : nat :=
  (core_buffered c + if bool_decide (c_phase c = Complete) then 1 else 0)%nat.

Lemma head_measure_fuel {D} (c : Core D) : (head_measure c < S (S (length (c_buf c))))%nat.
Proof. unfold head_measure, core_buffered. case_bool_decide; lia. Qed.

(** The fields of the shared part that reading a head leaves alone. *)
Definition same_rest {D} (c c' : Core D) : Prop :=
  c_limits c' = c_limits c /\ c_decoded_body_kind c' = c_decoded_body_kind c /\
  c_decoded_body c' = c_decoded_body c /\ c_pending c' = c_pending c.

#[export] Instance same_rest_preorder D : PreOrder (@same_rest D).
Proof. split; [by intros c; split_and!|]. intros c1 c2 c3 (A1 & A2 & A3 & A4) (B1 & B2 & B3 & B4). split_and!; congruence. Qed.

(** ** The end of a head *)

(** The state in which the body is read. *)
Definition entered {D} (close_delimited : DecodePhase) (k : BodyKind) (c : Core D) : Core D :=
  set_headers [] (set_start_line None
    (set_body_decoder (set_declared_trailers (collect_declared_trailers (c_headers c)) (c_body_decoder c))
      (set_phase (phase_after_head close_delimited k) c))).

Definition length_ok (limits : DecoderLimits) (k : BodyKind) : Prop :=
  match k with KContentLength n => n <= max_body_size limits | _ => True end.

Lemma phase_after_head_body close k :
  close = Complete \/ close = BodyCloseDelimited ->
  phase_after_head close k <> StartLine /\ phase_after_head close k <> Headers.
Proof. intros [-> | ->]; destruct k as [n| | | |]; cbn; try destruct (0 <? n); done. Qed.

Lemma entered_inv {D} line_ok close k (c : Core D) :
  core_inv line_ok c -> c_phase c = Headers ->
  close = Complete \/ close = BodyCloseDelimited -> length_ok (c_limits c) k ->
  core_inv line_ok (entered close k (set_buf (drop 2 (c_buf c)) c)).
Proof.
  intros [I1 [B1 B2 B3] I3 I4 I5 I6] Hp Hc Hk. destruct (I3 (or_intror Hp)) as (F1 & F2 & F3).
  destruct (phase_after_head_body close k Hc) as [Hn1 Hn2].
  unfold entered. split; cs; try done.
  - split; cs; bs.
    + rewrite F2. destruct k as [n| | | |]; cbn; try apply N.le_0_l.
      * destruct (0 <? n) eqn:?; cbn in *; lia.
      * destruct Hc as [-> | ->]; apply N.le_0_l.
    + rewrite F1. constructor.
    + rewrite F1, F3. rewrite blen_nil. lia.
  - rewrite blen_nil. lia.
Qed.

(** ** What the two decoders promise

    [line_ok]: what the start line that is kept satisfies; [keep]: what reading
    a head leaves alone outside of the shared part; [decoded]: what holds of a
    head that was read, and the state it leaves. *)

Section Promise.
Context {D T : Type} `{Decompressor D} `{CoreOf D T} {Hd : Type}.
Context (line_ok : str -> Prop) (keep : T -> T -> Prop).

Implicit Types t : T.

Definition head_inv t : Prop := core_inv line_ok (core_of t).

Definition kept t t' : Prop := same_rest (core_of t) (core_of t') /\ keep t t'.

Definition tbuffered t : nat := core_buffered (core_of t).
Definition tmeasure t : nat := head_measure (core_of t).

Definition failed t t' (e : exn Error.t) : Prop :=
  head_inv t' /\ (tbuffered t' <= tbuffered t)%nat /\ kept t t' /\
  c_phase (core_of t') = c_phase (core_of t) /\ exists e', e = Throw e'.

(** What the code after the last header line does. *)
Record head_end (decoded : Hd -> BodyKind -> T -> Prop)
    (head_done : st T Error.t (flow (option (Hd * BodyKind)))) : Prop := {
  end_post t :
    head_inv t -> c_phase (core_of t) = Headers -> (2 <= length (c_buf (core_of t)))%nat ->
    match head_done t with
    | (t', Ok (Break (Some (h, k)))) =>
        head_inv t' /\ decoded h k t' /\ (tbuffered t' < tbuffered t)%nat /\ kept t t'
    | (t', Err e) => failed t t' e
    | _ => False
    end;
  end_ext y t :
    head_inv t -> c_phase (core_of t) = Headers -> (2 <= length (c_buf (core_of t)))%nat ->
    head_done (extend_core y t) = let '(t', r) := head_done t in (extend_core y t', r)
}.

Record next_ok (next_message : T -> T) : Prop := {
  next_core t : core_of (next_message t) = core_next_message (core_of t);
  next_keep t : keep t (next_message t);
  next_ext y t : next_message (extend_core y t) = extend_core y (next_message t)
}.

Record head_reader (check_line : str -> result Error.t unit) (decoded : Hd -> BodyKind -> T -> Prop)
    (head_done : st T Error.t (flow (option (Hd * BodyKind)))) (next_message : T -> T) : Prop := {
  reader_keep : PreOrder keep;
  reader_put c t : keep t (put_core c t);
  reader_check l : check_line l = Ok tt -> line_ok l;
  reader_end : head_end decoded head_done;
  reader_next : next_ok next_message
}.
End Promise.

Section HeadFacts.
Context {D T : Type} `{Decompressor D} `{CoreOfLaws D T} {Hd : Type}.
Context {line_ok : str -> Prop} {keep : T -> T -> Prop}.
Context {check_line : str -> result Error.t unit} {decoded : Hd -> BodyKind -> T -> Prop}.
Context {head_done : st T Error.t (flow (option (Hd * BodyKind)))} {next_message : T -> T}.
Context (R : head_reader line_ok keep check_line decoded head_done next_message).

Implicit Types t : T.

Notation outcome := (T * result (exn Error.t) (flow (option (Hd * BodyKind))))%type.
Notation head_inv := (head_inv line_ok).
Notation kept := (kept keep).
Notation failed := (failed line_ok keep).
Notation round := (head_round check_line head_done next_message).

#[local] Instance keep_preorder : PreOrder keep := reader_keep _ _ _ _ _ _ R.

Lemma core_of_extend y t : core_of (extend_core y t) = core_extend y (core_of t).
Proof. apply core_put. Qed.

Lemma kept_refl t : kept t t.
Proof. by split. Qed.

Lemma kept_trans t1 t2 t3 : kept t1 t2 -> kept t2 t3 -> kept t1 t3.
Proof. intros [A1 A2] [B1 B2]. split; by etransitivity. Qed.

Lemma kept_put c t : same_rest (core_of t) c -> kept t (put_core c t).
Proof. intros Hs. split; [by rewrite core_put | apply (reader_put _ _ _ _ _ _ R)]. Qed.

Definition round_post t (o : outcome) : Prop :=
  match o with
  | (t', Ok Continue) =>
      head_inv t' /\ reading_head (core_of t') /\ (tmeasure t' < tmeasure t)%nat /\
      (tbuffered t' <= tbuffered t)%nat /\ kept t t'
  | (t', Ok (Break None)) => t' = t /\ reading_head (core_of t)
  | (t', Ok (Break (Some (h, k)))) =>
      head_inv t' /\ decoded h k t' /\ (tbuffered t' < tbuffered t)%nat /\ kept t t'
  | (t', Err e) => failed t t' e
  end.

Lemma drained_inv n (c : Core D) : core_inv line_ok c -> core_inv line_ok (set_buf (drop n (c_buf c)) c).
Proof. intros [I1 [B1 B2 B3] I3 I4 I5 I6]. by split. Qed.

Lemma drained_buffered n (c : Core D) :
  (0 < n)%nat -> (n <= length (c_buf c))%nat ->
  (core_buffered (set_buf (drop n (c_buf c)) c) < core_buffered c)%nat.
Proof. intros Hn1 Hn2. unfold core_buffered. cs. rewrite length_drop. lia. Qed.

(** The state after a start line. *)
Definition line_taken pos line (c : Core D) : Core D :=
  set_phase Headers (set_start_line (Some line) (set_buf (drop (pos + 2) (c_buf c)) c)).

Lemma line_taken_inv pos line (c : Core D) :
  core_inv line_ok c -> c_phase c = StartLine -> utf8_valid line = true -> line_ok line ->
  core_inv line_ok (line_taken pos line c).
Proof.
  intros [I1 [B1 B2 B3] I3 I4 I5 I6] Hp Hu Hl. cbn [body_state b_phase] in *. rewrite Hp in *.
  split; unfold line_taken; cs; try done.
  - intros _. apply I3. by left.
  - intros _. by exists line.
Qed.

Lemma start_line_round_eq t pos :
  find_line (c_buf (core_of t)) = Some pos ->
  start_line_round (A := Hd * BodyKind) check_line t =
    let c := core_of t in
    let c1 := set_buf (drop (pos + 2) (c_buf c)) c in
    match utf8_line (take pos (c_buf c)) with
    | Err e => (t, Err (Throw e))
    | Ok line =>
        match check_line line with
        | Err e => (put_core c1 t, Err (Throw e))
        | Ok _ => (put_core (line_taken pos line c) t, Ok Continue)
        end
    end.
Proof.
  intros Hf. unfold start_line_round, on_core, mbind, st_bind, get, unwrap, lift, modify, line_taken.
  rewrite Hf, (find_line_slice _ _ Hf). pose proof (find_line_Some _ _ Hf) as [_ Hlen].
  destruct (utf8_line _) as [line|e]; cbn [map_err]; [|by rewrite put_core_id]. rewrite (core_drain_le _ _ Hlen).
  by destruct (check_line line) as [[]|e].
Qed.

Lemma start_line_round_post t :
  head_inv t -> c_phase (core_of t) = StartLine -> round_post t (start_line_round check_line t).
Proof.
  intros Hi Hp. destruct (find_line (c_buf (core_of t))) as [pos|] eqn:Hf.
  2: { unfold start_line_round. rewrite Hf. split; [done | by left]. }
  pose proof (find_line_Some _ _ Hf) as [_ Hlen]. rewrite (start_line_round_eq t pos Hf). cbv zeta.
  pose proof (drained_buffered (pos + 2) (core_of t) ltac:(lia) Hlen) as Hb.
  destruct (utf8_line _) as [line|e] eqn:Hu.
  2: { split_and!; [done..|apply kept_refl|done|by eauto]. }
  apply utf8_line_Ok in Hu as [_ Hu].
  pose proof (reader_check _ _ _ _ _ _ R line) as Hok.
  destruct (check_line line) as [[]|e]; cbn [round_post].
  - unfold HeadFacts.head_inv, tmeasure, tbuffered. rewrite core_put.
    pose proof (line_taken_inv pos line _ Hi Hp Hu (Hok eq_refl)) as Hi2.
    assert (Hlt : (core_buffered (line_taken pos line (core_of t)) < core_buffered (core_of t))%nat) by exact Hb.
    split_and!; [done | by right | |lia|by apply kept_put].
    unfold head_measure. rewrite Hp. change (c_phase (line_taken _ _ _)) with Headers.
    rewrite !bool_decide_false by done. lia.
  - unfold HeadFacts.failed, HeadFacts.head_inv, tbuffered. rewrite core_put.
    split_and!; [by apply drained_inv | lia | by apply kept_put | done | by eauto].
Qed.

Lemma header_round_post t :
  head_inv t -> c_phase (core_of t) = Headers -> round_post t (header_round head_done t).
Proof.
  intros Hi Hp. unfold header_round.
  destruct (find_line (c_buf (core_of t))) as [pos|] eqn:Hf; [|by split; [|right]].
  pose proof (find_line_Some _ _ Hf) as [_ Hlen]. destruct pos as [|pos].
  - pose proof (end_post _ _ _ _ (reader_end _ _ _ _ _ _ R) t Hi Hp Hlen) as Hdone.
    by destruct (head_done t) as [t' [[|[[h k]|]]|e]].
  - unfold on_core, mbind, st_bind. destruct (header_line (S pos) (core_of t)) as [c' r] eqn:Hh.
    pose proof (header_line_inv _ _ _ _ _ Hi Hlen Hh) as (Hi' & Ho & Hp' & _ & Hle & Hlt).
    assert (Hk : kept t (put_core c' t)).
    { apply kept_put. revert Hh. rewrite header_line_eq by done. unfold throw.
      destruct (_ <? _); [by intros [= <- <-]|]. destruct (_ <=? _); [by intros [= <- <-]|].
      destruct (utf8_line _) as [line|e]; [|by intros [= <- <-]].
      by destruct (parse_header_line line) as [[n v]|e]; intros [= <- <-]. }
    destruct r as [[]|e]; cbn [round_post mret st_ret]; unfold HeadFacts.failed, HeadFacts.head_inv, tmeasure, tbuffered; rewrite core_put.
    + split_and!; [done | right; by rewrite Hp' | |done|done].
      unfold head_measure. rewrite Hp', Hp. cbn. specialize (Hlt eq_refl). lia.
    + split_and!; [done | done | done | done |]. destruct e; try done. by eauto.
Qed.

Lemma next_message_inv (c : Core D) : core_inv line_ok c -> core_inv line_ok (core_next_message c).
Proof.
  intros [I1 [B1 B2 B3] I3 I4 I5 I6]. unfold core_next_message. split; cs; try done.
  - split; cs; [apply N.le_0_l | constructor | split; apply N.le_0_l].
  - rewrite blen_nil. lia.
Qed.

(** ** The rounds together *)

Lemma head_round_post t : head_inv t -> round_post t (round t).
Proof.
  intros Hi. unfold head_round, fail, throw.
  destruct (c_phase (core_of t)) eqn:Hp; try (by split_and!; [..|apply kept_refl| |eauto]).
  - by apply start_line_round_post.
  - by apply header_round_post.
  - cbn [round_post]. unfold HeadFacts.head_inv, tmeasure, tbuffered. destruct (reader_next _ _ _ _ _ _ R) as [Hc Hk _]. rewrite !Hc.
    split_and!; [by apply next_message_inv | by left | |done|].
    + unfold head_measure. rewrite Hp. rewrite bool_decide_false by done. rewrite bool_decide_true by done.
      unfold core_buffered, core_next_message. cs. lia.
    + split; [by rewrite Hc | apply Hk].
Qed.

Lemma head_inv_extend y t : head_inv t -> head_inv (extend_core y t).
Proof. unfold HeadFacts.head_inv. rewrite core_of_extend. apply core_extend_inv. Qed.

Lemma extend_put y c t : extend_core y (put_core c t) = put_core (core_extend y c) t.
Proof. unfold extend_core. by rewrite core_put, put_put. Qed.

Lemma head_round_extend y t :
  head_inv t ->
  match round t with
  | (t', Ok (Break None)) => t' = t
  | (t', r) => round (extend_core y t) = (extend_core y t', r)
  end.
Proof.
  intros Hi. unfold head_round, fail, throw. rewrite core_of_extend. cs.
  destruct (c_phase (core_of t)) eqn:Hp; try done.
  - destruct (find_line (c_buf (core_of t))) as [pos|] eqn:Hf.
    2: { unfold start_line_round. by rewrite Hf. }
    pose proof (find_line_Some _ _ Hf) as [_ Hlen]. rewrite (start_line_round_eq t pos Hf).
    assert (Hf' : find_line (c_buf (core_of (extend_core y t))) = Some pos).
    { rewrite core_of_extend. apply (find_line_app _ _ y Hf). }
    rewrite (start_line_round_eq _ pos Hf'), core_of_extend. cbv zeta. cs. rewrite (find_line_take _ _ y Hf).
    assert (Hput : forall c, put_core c (extend_core y t) = put_core c t) by (intros; apply put_put).
    destruct (utf8_line _) as [line|e]; [|done].
    destruct (check_line line) as [[]|e]; rewrite Hput, extend_put; unfold line_taken; cs;
      by rewrite (find_line_drop _ _ y Hf).
  - unfold header_round. rewrite core_of_extend. cs.
    destruct (find_line (c_buf (core_of t))) as [pos|] eqn:Hf; [|done].
    pose proof (find_line_Some _ _ Hf) as [_ Hlen]. rewrite (find_line_app _ _ y Hf). destruct pos as [|pos].
    + rewrite (end_ext _ _ _ _ (reader_end _ _ _ _ _ _ R) y t Hi Hp Hlen). pose proof (end_post _ _ _ _ (reader_end _ _ _ _ _ _ R) t Hi Hp Hlen) as Hpost.
      by destruct (head_done t) as [t' [[|[[h k]|]]|e]].
    + unfold on_core, mbind, st_bind. rewrite core_of_extend, (header_line_ext y _ (S pos) Hlen).
      assert (Hput : forall c, put_core c (extend_core y t) = put_core c t) by (intros; apply put_put).
      destruct (header_line (S pos) (core_of t)) as [c' [[]|e]]; rewrite Hput; cbn [mret st_ret]; by rewrite extend_put.
  - f_equal. apply (next_ext _ _ (reader_next _ _ _ _ _ _ R)).
Qed.

Definition headers_post t (o : T * result (exn Error.t) (option (Hd * BodyKind))) : Prop :=
  let '(t', r) := o in
  head_inv t' /\ orderly r /\ (tbuffered t' <= tbuffered t)%nat /\ kept t t' /\
  match r with
  | Ok (Some (h, k)) => decoded h k t' /\ (tbuffered t' < tbuffered t)%nat
  | Ok None => reading_head (core_of t')
  | Err _ => c_phase (core_of t') = c_phase (core_of t) \/ reading_head (core_of t')
  end.

Lemma read_head_post t : head_inv t -> headers_post t (read_head round t).
Proof.
  intros Hi. unfold read_head.
  pose proof (loop_rule round
    (fun t1 => head_inv t1 /\ (tbuffered t1 <= tbuffered t)%nat /\ kept t t1 /\
       (c_phase (core_of t1) = c_phase (core_of t) \/ reading_head (core_of t1)))
    (fun t' r => headers_post t (t', r)) tmeasure (S (S (length (c_buf (core_of t))))) t) as HL.
  destruct (loop _ _ _) as [t' r]. apply HL; [|by split_and!; [..|apply kept_refl|left]|apply head_measure_fuel].
  clear HL. intros t1 (Hi1 & Hle & Hk & Hph). pose proof (head_round_post t1 Hi1) as Hr.
  destruct (round t1) as [t2 [[|[[h k]|]]|e]]; cbn [round_post headers_post] in *.
  - destruct Hr as (? & ? & ? & ? & ?).
    split_and!; [done | lia | by eapply kept_trans | by right | done].
  - destruct Hr as (? & ? & ? & ?). split_and!; [done | done | lia | by eapply kept_trans | done | lia].
  - destruct Hr as [-> Hr]. by split_and!.
  - destruct Hr as (? & ? & ? & Hp & e' & ->). split_and!; [done | done | lia | by eapply kept_trans |].
    unfold reading_head in *. by rewrite Hp.
Qed.

Lemma head_round_ext y t :
  head_inv t -> round_ext round (fun _ a => a = None) head_inv tmeasure (extend_core y) t.
Proof.
  intros Hi. unfold round_ext. pose proof (head_round_post t Hi) as Hp.
  pose proof (head_round_extend y t Hi) as He.
  destruct (round t) as [t2 [[|[[h k]|]]|e]]; cbn [round_post] in Hp; try done.
  - destruct Hp as (? & ? & ? & _). split_and!; [done | done | by left].
  - by left.
  - by right.
Qed.

(** One round more or less. *)
Lemma read_head_continue t t' :
  head_inv t -> round t = (t', Ok Continue) -> read_head round t = read_head round t' /\ head_inv t'.
Proof.
  intros Hi Hr. pose proof (head_round_ext [] t Hi) as He. unfold round_ext in He. rewrite Hr in He.
  destruct He as (Hi' & Hm & _). split; [|done]. unfold read_head at 1.
  pose proof (head_measure_fuel (core_of t)) as Hf. remember (S (length (c_buf (core_of t)))) as g. cbn [loop].
  rewrite Hr. unfold tmeasure in Hm.
  apply (loop_enough _ _ _ tmeasure (extend_core []) (head_round_ext [])); [done | unfold tmeasure; lia | apply head_measure_fuel].
Qed.

Lemma read_head_ext y t t' r :
  head_inv t -> read_head round t = (t', r) ->
  match r with
  | Ok None => read_head round (extend_core y t) = read_head round (extend_core y t')
  | _ => read_head round (extend_core y t) = (extend_core y t', r)
  end.
Proof.
  intros Hi Hl. unfold read_head in *.
  destruct (loop_extension _ _ _ tmeasure (extend_core y) (head_inv_extend y) (head_round_ext y)
    _ _ _ _ (S (S (length (c_buf (core_of (extend_core y t)))))) Hi (head_measure_fuel _) Hl (head_measure_fuel _))
    as [[He Hn]|(a & -> & -> & Hi' & He)].
  - rewrite He. destruct r as [[]|]; try done. by destruct (Hn None eq_refl eq_refl).
  - apply He, head_measure_fuel.
Qed.
End HeadFacts.
