(* ===== verification/Stream.v ===== *)
(** * Decoders of a stream of messages

    What a decoder promises to a caller that feeds it bytes and calls
    [decode]: an interface, its laws, and what follows from them for a caller
    that decodes all that is ready after every piece of input, whether it
    appends the pieces without a check or within the limit of the buffer. *)
From S2P Require Import Prelude RustStd Errors.

(** The same state and result, or related errors. *)
Definition same_outcome {T E A} (rel : exn E -> exn E -> Prop) (o1 o2 : T * result (exn E) A) : Prop :=
  match o1, o2 with
  | (_, Err e1), (_, Err e2) => rel e1 e2
  | (t1, Ok a1), (t2, Ok a2) => t1 = t2 /\ a1 = a2
  | _, _ => False
  end.

Lemma same_outcome_refl {T E A} (rel : exn E -> exn E -> Prop) `{!Reflexive rel} (o : T * result (exn E) A) :
  same_outcome rel o o.
Proof. destruct o as [t [a|e]]; cbn; [done | reflexivity]. Qed.

Class StreamDecoder (T M E : Type) := {
  (** [decode]. *)
  sd_decode : st T E (option M);
  (** Bytes added to the receive buffer, as [feed_unchecked] does. *)
  sd_extend : bytes -> T -> T;
  (** A bound on the messages that can still come out without more input. *)
  sd_measure : T -> nat;
  sd_inv : T -> Prop;
  (** When two errors are the same to a caller. *)
  sd_error : exn E -> exn E -> Prop
}.

Class StreamDecoderLaws (T M E : Type) `{StreamDecoder T M E} : Prop := {
  sd_error_equiv :: Equivalence sd_error;
  sd_extend_app x y t : sd_extend y (sd_extend x t) = sd_extend (x ++ y) t;
  sd_extend_inv y t : sd_inv t -> sd_inv (sd_extend y t);
  sd_decode_inv t :
    sd_inv t ->
    let '(t', r) := sd_decode t in
    sd_inv t' /\ orderly r /\ forall m, r = Ok (Some m) -> (sd_measure t' < sd_measure t)%nat;
  (** [decode] on a part of the input, then with the rest, is [decode] on all. *)
  sd_decode_extend y t :
    sd_inv t ->
    match sd_decode t with
    | (t', Ok None) => same_outcome sd_error (sd_decode (sd_extend y t)) (sd_decode (sd_extend y t'))
    | (t', Ok (Some m)) => sd_decode (sd_extend y t) = (sd_extend y t', Ok (Some m))
    | (_, Err e) => exists e', snd (sd_decode (sd_extend y t)) = Err e' /\ sd_error e' e
    end
}.

Section Stream.
Context {T M E : Type} `{StreamDecoderLaws T M E}.

Implicit Types t : T.

(** What came out of a run: the state, the messages and the error that ended
    it; after an error the state is of no use to the caller. *)
Definition run := (T * list M * option (exn E))%type.

Definition same_run (r1 r2 : run) : Prop :=
  let '(t1, ms1, e1) := r1 in
  let '(t2, ms2, e2) := r2 in
  ms1 = ms2 /\
  match e1, e2 with
  | None, None => t1 = t2
  | Some x1, Some x2 => sd_error x1 x2
  | _, _ => False
  end.

#[export] Instance same_run_equiv : Equivalence same_run.
Proof.
  split.
  - intros [[t ms] [e|]]; by split.
  - intros [[t1 ms1] [e1|]] [[t2 ms2] [e2|]] [-> He]; split; by try symmetry.
  - intros [[t1 ms1] [e1|]] [[t2 ms2] [e2|]] [[t3 ms3] [e3|]] [-> H1] [-> H2]; split; by try etransitivity.
Qed.

(** Call [decode] until it returns no message. *)
Fixpoint decode_all (fuel : nat) t : run :=
  match fuel with
  | O => (t, [], Some Diverge)
  | S fuel =>
      match sd_decode t with
      | (t', Ok (Some m)) => let '(t2, ms, e) := decode_all fuel t' in (t2, m :: ms, e)
      | (t', Ok None) => (t', [], None)
      | (t', Err e) => (t', [], Some e)
      end
  end.

Definition decode_ready t : run := decode_all (S (sd_measure t)) t.

(** Messages before a run. *)
Definition after (ms : list M) (r : run) : run := let '(t, ms2, e) := r in (t, ms ++ ms2, e).

#[export] Instance after_proper : Proper (eq ==> same_run ==> same_run) after.
Proof. intros ms ? <- [[t1 ms1] e1] [[t2 ms2] e2] [-> He]. by split. Qed.

Lemma after_after ms1 ms2 r : after ms1 (after ms2 r) = after (ms1 ++ ms2) r.
Proof. destruct r as [[t ms] e]. cbn. by rewrite app_assoc. Qed.

(** Go on from a run that met no error. *)
Definition and_then (r : run) (f : T -> run) : run :=
  match r with
  | (t, ms, None) => after ms (f t)
  | (t, ms, Some e) => (t, ms, Some e)
  end.

#[export] Instance and_then_proper :
  Proper (same_run ==> pointwise_relation T same_run ==> same_run) and_then.
Proof.
  intros [[t1 ms1] [e1|]] [[t2 ms2] [e2|]] [-> He] f g Hfg; try done. cbn [and_then].
  subst t2. by rewrite (Hfg t1).
Qed.

Lemma and_then_after ms r f : and_then (after ms r) f = after ms (and_then r f).
Proof. destruct r as [[t ms2] [e|]]; [done|]. cbn [after and_then]. by rewrite after_after. Qed.

Lemma and_then_assoc r f g : and_then (and_then r f) g = and_then r (fun t => and_then (f t) g).
Proof. destruct r as [[t ms] [e|]]; [done|]. cbn [and_then]. by rewrite and_then_after. Qed.

(** Feed the pieces one after the other, decoding all that is ready after each. *)
Fixpoint decode_pieces (pieces : list bytes) t : run :=
  match pieces with
  | [] => (t, [], None)
  | p :: ps => and_then (decode_ready (sd_extend p t)) (decode_pieces ps)
  end.

Lemma decode_all_enough f f' t :
  sd_inv t -> (sd_measure t < f)%nat -> (sd_measure t < f')%nat -> decode_all f t = decode_all f' t.
Proof.
  revert f' t. induction f as [|f IH]; intros f' t Hi H1 H2; [lia|]. destruct f' as [|f']; [lia|].
  cbn [decode_all]. pose proof (sd_decode_inv t Hi) as Hd.
  destruct (sd_decode t) as [t' [[m|]|e]]; try done.
  destruct Hd as (Hi' & _ & Hm). specialize (Hm m eq_refl). by rewrite (IH f') by (done || lia).
Qed.

(** [decode_ready] does not run out of fuel: one call, and then the rest. *)
Lemma decode_ready_eq t :
  sd_inv t ->
  decode_ready t =
    match sd_decode t with
    | (t', Ok (Some m)) => after [m] (decode_ready t')
    | (t', Ok None) => (t', [], None)
    | (t', Err e) => (t', [], Some e)
    end.
Proof.
  intros Hi. unfold decode_ready at 1. cbn [decode_all]. pose proof (sd_decode_inv t Hi) as Hd.
  destruct (sd_decode t) as [t' [[m|]|e]]; try done. destruct Hd as (Hi' & _ & Hm).
  specialize (Hm m eq_refl). by rewrite (decode_all_enough (sd_measure t) (S (sd_measure t')) t') by (done || lia).
Qed.

Lemma decode_ready_inv t : sd_inv t -> sd_inv (fst (fst (decode_ready t))).
Proof.
  remember (sd_measure t) as n eqn:Hn. revert t Hn. induction (lt_wf n) as [n _ IH]. intros t -> Hi.
  rewrite (decode_ready_eq t Hi). pose proof (sd_decode_inv t Hi) as Hd.
  destruct (sd_decode t) as [t' [[m|]|e]]; destruct Hd as (Hi' & _ & Hm); try done.
  specialize (IH _ (Hm m eq_refl) t' eq_refl Hi'). by destruct (decode_ready t') as [[? ?] ?].
Qed.

(** No run ends in a panic or runs on for ever. *)
Lemma decode_ready_orderly t e : sd_inv t -> snd (decode_ready t) = Some e -> exists e', e = Throw e'.
Proof.
  remember (sd_measure t) as n eqn:Hn. revert t Hn. induction (lt_wf n) as [n _ IH]. intros t -> Hi.
  rewrite (decode_ready_eq t Hi). pose proof (sd_decode_inv t Hi) as Hd.
  destruct (sd_decode t) as [t' [[m|]|x]]; destruct Hd as (Hi' & Ho & Hm); try done.
  - specialize (IH _ (Hm m eq_refl) t' eq_refl Hi'). by destruct (decode_ready t') as [[? ?] ?].
  - intros [= <-]. destruct x; try done. by eauto.
Qed.

Lemma decode_ready_extend y t :
  sd_inv t ->
  same_run (decode_ready (sd_extend y t)) (and_then (decode_ready t) (fun t' => decode_ready (sd_extend y t'))).
Proof.
  remember (sd_measure t) as n eqn:Hn. revert t Hn. induction (lt_wf n) as [n _ IH]. intros t -> Hi.
  rewrite (decode_ready_eq t Hi), (decode_ready_eq _ (sd_extend_inv y t Hi)).
  pose proof (sd_decode_inv t Hi) as Hd. pose proof (sd_decode_extend y t Hi) as He.
  destruct (sd_decode t) as [t' [[m|]|e]]; destruct Hd as (Hi' & _ & Hm).
  - rewrite He, and_then_after, (IH _ (Hm m eq_refl) t' eq_refl Hi'). done.
  - cbn [and_then]. rewrite (decode_ready_eq _ (sd_extend_inv y t' Hi')).
    destruct (sd_decode (sd_extend y t)) as [t1 [m1|e1]], (sd_decode (sd_extend y t')) as [t2 [m2|e2]]; try done.
    + destruct He as [-> ->]. destruct m2 as [m2|]; [|done]. by destruct (decode_ready t2) as [[? ?] [?|]].
  - destruct He as (e' & He & Hx). destruct (sd_decode (sd_extend y t)) as [t1 r1]. cbn in He. subst r1. by split.
Qed.

#[export] Instance decode_pieces_proper ps : Proper (eq ==> same_run) (decode_pieces ps).
Proof. by intros t ? <-. Qed.

(** Cutting a piece in two changes nothing. *)
Lemma decode_pieces_cut x y ps t :
  sd_inv t -> same_run (decode_pieces (x :: y :: ps) t) (decode_pieces ((x ++ y) :: ps) t).
Proof.
  intros Hi. cbn [decode_pieces]. rewrite <- sd_extend_app.
  rewrite (decode_ready_extend y _ (sd_extend_inv x t Hi)). by rewrite and_then_assoc.
Qed.

Lemma decode_pieces_concat p ps t :
  sd_inv t -> same_run (decode_pieces (p :: ps) t) (decode_pieces [p ++ concat ps] t).
Proof.
  revert p. induction ps as [|q ps IH]; intros p Hi; [by rewrite app_nil_r|].
  rewrite (decode_pieces_cut p q ps t Hi), (IH _ Hi). cbn [concat]. by rewrite app_assoc.
Qed.

(** The outcome depends on the bytes and not on the pieces. *)
Lemma decode_pieces_any ps qs t :
  sd_inv t -> ps <> [] -> qs <> [] -> concat ps = concat qs ->
  same_run (decode_pieces ps t) (decode_pieces qs t).
Proof.
  intros Hi Hp Hq Hc. destruct ps as [|p ps]; [done|]. destruct qs as [|q qs]; [done|].
  rewrite (decode_pieces_concat p ps t Hi), (decode_pieces_concat q qs t Hi). cbn [concat] in Hc. by rewrite Hc.
Qed.

(** What holds of every message that one call of [decode] hands out holds of
    all the messages of a run. *)
Section Messages.
Context (I : T -> Prop) (P : M -> Prop).
Hypothesis Hext : forall y t, I t -> I (sd_extend y t).
Hypothesis Hdec : forall t, sd_inv t -> I t ->
  match sd_decode t with
  | (t', Ok (Some m)) => I t' /\ P m
  | (t', Ok None) => I t'
  | (_, Err _) => True
  end.

Definition run_good (r : run) : Prop :=
  let '(t, ms, e) := r in Forall P ms /\ (e = None -> sd_inv t /\ I t).

Lemma decode_ready_good t : sd_inv t -> I t -> run_good (decode_ready t).
Proof.
  remember (sd_measure t) as n eqn:Hn. revert t Hn. induction (lt_wf n) as [n _ IH]. intros t -> Hi HI.
  rewrite (decode_ready_eq t Hi). pose proof (sd_decode_inv t Hi) as Hd. specialize (Hdec t Hi HI).
  destruct (sd_decode t) as [t' [[m|]|x]]; destruct Hd as (Hi' & _ & Hm); [|by split..].
  destruct Hdec as [HI' HP]. specialize (IH _ (Hm m eq_refl) t' eq_refl Hi' HI').
  destruct (decode_ready t') as [[t2 ms] e]. destruct IH as [Hf He]. split; [by constructor | done].
Qed.

Lemma decode_pieces_good ps t : sd_inv t -> I t -> run_good (decode_pieces ps t).
Proof.
  revert t. induction ps as [|p ps IH]; intros t Hi HI; [by split|]. cbn [decode_pieces].
  pose proof (decode_ready_good _ (sd_extend_inv p t Hi) (Hext p t HI)) as Hg.
  destruct (decode_ready _) as [[t1 ms1] [e|]]; cbn [and_then]; [done|]. destruct Hg as [Hf He].
  destruct (He eq_refl) as [Hi1 HI1]. specialize (IH t1 Hi1 HI1).
  destruct (decode_pieces ps t1) as [[t2 ms2] e]. destruct IH as [Hf2 He2]. split; [by apply Forall_app | done].
Qed.
End Messages.
End Stream.

(** ** Feeding within the limit of the buffer

    [feed] refuses a piece that would take the buffer over its limit, so the
    outcome of a run can depend on how its input was cut: [sd_level] is what
    the buffer holds and [sd_limit] the most it may hold. *)

Class FeedDecoder (T E : Type) := {
  (** [feed]. *)
  sd_feed : bytes -> st T E unit;
  sd_level : T -> N;
  sd_limit : T -> N;
  (** The error of a refused piece. *)
  sd_refusal : exn E -> Prop
}.

Class FeedDecoderLaws (T M E : Type) `{StreamDecoder T M E} `{FeedDecoder T E} : Prop := {
  sd_feed_spec p t :
    sd_inv t ->
    if sd_level t + blen p <=? sd_limit t then sd_feed p t = (sd_extend p t, Ok tt)
    else exists e, sd_feed p t = (t, Err e) /\ sd_refusal e;
  sd_level_extend p t : sd_level (sd_extend p t) = sd_level t + blen p;
  sd_limit_extend p t : sd_limit (sd_extend p t) = sd_limit t;
  sd_level_decode t :
    sd_inv t ->
    sd_level (fst (sd_decode t)) <= sd_level t /\ sd_limit (fst (sd_decode t)) = sd_limit t
}.

Section Fed.
Context {T M E : Type} `{StreamDecoderLaws T M E}.
Context `{!FeedDecoder T E} `{!FeedDecoderLaws T M E}.

Implicit Types t : T.

(** Feed the pieces one after the other, decoding all that is ready after
    each, until one is refused. *)
Fixpoint fed_pieces (pieces : list bytes) t : run (T := T) (M := M) (E := E) :=
  match pieces with
  | [] => (t, [], None)
  | p :: ps =>
      match sd_feed p t with
      | (t', Ok _) => and_then (decode_ready t') (fed_pieces ps)
      | (t', Err e) => (t', [], Some e)
      end
  end.

(** The run ended because a piece did not fit, and what it decoded until then
    is the beginning of what the run [whole] decodes. *)
Definition cut_short (r whole : run (T := T) (M := M) (E := E)) : Prop :=
  let '(_, ms, e) := r in
  (exists x, e = Some x /\ sd_refusal x) /\ ms `prefix_of` snd (fst whole).

Lemma cut_short_after ms r whole : cut_short r whole -> cut_short (after ms r) (after ms whole).
Proof.
  destruct r as [[t1 ms1] e1], whole as [[t2 ms2] e2]. cbn. intros [He Hp]. split; [done|]. by apply prefix_app.
Qed.

Lemma cut_short_same r w1 w2 : same_run w1 w2 -> cut_short r w1 -> cut_short r w2.
Proof. destruct r as [[t ms] e], w1 as [[t1 ms1] e1], w2 as [[t2 ms2] e2]. by intros [-> _]. Qed.

Lemma cut_short_then r whole f : cut_short r whole -> cut_short (and_then r f) (and_then whole f).
Proof.
  destruct r as [[t1 ms1] e1], whole as [[t2 ms2] [e2|]]; intros [(x & -> & Hx) Hp]; (split; [by exists x|]); [done|].
  cbn [and_then fst snd] in *. destruct (f t2) as [[t3 ms3] e3]. cbn. by apply prefix_app_r.
Qed.

(** A run through [feed] is the run without a limit, or it is cut short. *)
Lemma fed_pieces_cases ps t :
  sd_inv t -> fed_pieces ps t = decode_pieces ps t \/ cut_short (fed_pieces ps t) (decode_pieces ps t).
Proof.
  revert t. induction ps as [|p ps IH]; intros t Hi; [by left|]. cbn [fed_pieces decode_pieces].
  pose proof (sd_feed_spec p t Hi) as Hf. destruct (_ <=? _).
  - rewrite Hf. pose proof (decode_ready_inv _ (sd_extend_inv p t Hi)) as Hi'.
    destruct (decode_ready (sd_extend p t)) as [[t1 ms1] [e1|]]; cbn [and_then fst] in *; [by left|].
    destruct (IH t1 Hi') as [->|Hc]; [by left|]. right. by apply cut_short_after.
  - destruct Hf as (e & -> & He). right. split; [by exists e|]. apply prefix_nil.
Qed.

Lemma decode_ready_level t :
  sd_inv t -> sd_level (fst (fst (decode_ready t))) <= sd_level t /\ sd_limit (fst (fst (decode_ready t))) = sd_limit t.
Proof.
  remember (sd_measure t) as n eqn:Hn. revert t Hn. induction (lt_wf n) as [n _ IH]. intros t -> Hi.
  rewrite (decode_ready_eq t Hi). pose proof (sd_decode_inv t Hi) as Hd. pose proof (sd_level_decode t Hi) as Hl.
  destruct (sd_decode t) as [t' [[m|]|x]]; destruct Hd as (Hi' & _ & Hm); try exact Hl. cbn [fst] in Hl.
  specialize (IH _ (Hm m eq_refl) t' eq_refl Hi'). destruct (decode_ready t') as [[t2 ms] e]. cbn in *.
  destruct Hl as [Hl1 Hl2], IH as [H1 H2]. split; [lia | congruence].
Qed.

(** Input that fits the buffer as a whole is never refused. *)
Lemma fed_pieces_fit ps t :
  sd_inv t -> sd_level t + blen (concat ps) <= sd_limit t -> fed_pieces ps t = decode_pieces ps t.
Proof.
  revert t. induction ps as [|p ps IH]; intros t Hi Hfit; [done|]. cbn [fed_pieces decode_pieces concat] in *.
  rewrite blen_app in Hfit. pose proof (sd_feed_spec p t Hi) as Hf.
  rewrite (proj2 (N.leb_le _ _)) in Hf by lia. rewrite Hf.
  pose proof (decode_ready_inv _ (sd_extend_inv p t Hi)) as Hi'.
  pose proof (decode_ready_level _ (sd_extend_inv p t Hi)) as [Hl1 Hl2].
  destruct (decode_ready (sd_extend p t)) as [[t1 ms1] [e1|]]; cbn [and_then fst] in *; [done|].
  rewrite sd_level_extend in Hl1. rewrite sd_limit_extend in Hl2. rewrite (IH t1 Hi') by lia. done.
Qed.

(** The outcome of any two ways to cut the input. *)
Lemma fed_pieces_any ps qs t :
  sd_inv t -> ps <> [] -> qs <> [] -> concat ps = concat qs ->
  (same_run (fed_pieces ps t) (decode_pieces qs t) \/ cut_short (fed_pieces ps t) (decode_pieces qs t)) /\
  (sd_level t + blen (concat ps) <= sd_limit t -> same_run (fed_pieces ps t) (fed_pieces qs t)).
Proof.
  intros Hi Hp Hq Hc. pose proof (decode_pieces_any ps qs t Hi Hp Hq Hc) as Hs. split.
  - destruct (fed_pieces_cases ps t Hi) as [-> | Hcut]; [by left|]. right. by eapply cut_short_same.
  - intros Hfit. rewrite (fed_pieces_fit ps t Hi Hfit). rewrite (fed_pieces_fit qs t Hi) by (by rewrite <- Hc). done.
Qed.
End Fed.
