(* ===== verification/RequestDecoder.v ===== *)
(** * The request decoder ([src/decoder/request.rs]) *)
From S2P Require Import Prelude RustStd Errors Validate Host Target Trailer Framing Head.
From S2P Require Import Buffer BodyDecoder Compression Message DecoderCore.

Record RequestDecoder (D : Type) := {
  rq_core : Core D;
  rq_decoded_head : option RequestHead.t
}.
Arguments rq_core {D}. Arguments rq_decoded_head {D}.

#[export] Instance rq_core_of D : CoreOf D (RequestDecoder D) := {|
  core_of := rq_core;
  put_core c d := {| rq_core := c; rq_decoded_head := rq_decoded_head d |} |}.

Section RequestDecoder.
Context {D : Type} `{Decompressor D}.

Implicit Types d : RequestDecoder D.

Definition rq_new (decompressor : D) (limits : DecoderLimits) : RequestDecoder D :=
  {| rq_core := core_new decompressor limits; rq_decoded_head := None |}.

Definition rq_reset d : RequestDecoder D :=
  {| rq_core := core_reset (rq_core d); rq_decoded_head := None |}.

Definition rq_feed (data : bytes) : st (RequestDecoder D) Error.t unit := on_core (core_feed data).
Definition rq_feed_unchecked (data : bytes) d : RequestDecoder D :=
  {| rq_core := core_feed_unchecked data (rq_core d); rq_decoded_head := rq_decoded_head d |}.
Definition rq_mut_buf (len : N) : st (RequestDecoder D) Error.t unit := on_core (core_mut_buf len).
Definition rq_advance_buf (len : N) d : RequestDecoder D :=
  {| rq_core := core_advance_buf len (rq_core d); rq_decoded_head := rq_decoded_head d |}.
Definition rq_available_buf d : N := core_available_buf (rq_core d).
Definition rq_remaining d : bytes := core_remaining (rq_core d).
Definition rq_limits d : DecoderLimits := c_limits (rq_core d).
Definition rq_is_tunnel d : bool := core_is_tunnel (rq_core d).
Definition rq_take_remaining d : RequestDecoder D * bytes :=
  let '(c, b) := core_take_remaining (rq_core d) in
  ({| rq_core := c; rq_decoded_head := rq_decoded_head d |}, b).
Definition rq_peek_body_decompressed (output : bytes) :
    st (RequestDecoder D) Error.t (option CompressionStatus * bytes) :=
  on_core (core_peek_body_decompressed output).
Definition rq_consume_body (len : N) : st (RequestDecoder D) Error.t BodyProgress :=
  on_core (core_consume_body len).
Definition rq_progress : st (RequestDecoder D) Error.t BodyProgress := on_core core_progress.
Definition rq_peek_body d : option bytes := core_peek_body (rq_core d).

(** [determine_body_kind]. *)
Definition determine_body_kind (hs : list (str * str)) (limits : DecoderLimits) (version : str) :
    result Error.t BodyKind :=
  '(chunked, content_length) ← resolve_body_headers_for_request hs;
  if (chunked : bool) then
    if negb (version =s B "HTTP/1.1")
    then invalid "Transfer-Encoding is only defined for HTTP/1.1"
    else Ok KChunked
  else
    match content_length with
    | Some len =>
        if max_body_size limits <? len
        then Err (Error.BodyTooLarge (N.min len usize_MAX) (max_body_size limits))
        else Ok (KContentLength len)
    | None => Ok KNone
    end.

(** The checks of a request line. *)
Definition check_request_line (line : str) : result Error.t unit :=
  if contains_byte CR line || contains_byte LF line
  then invalid "invalid request line: contains CR/LF"
  else
    match splitn 3 " " line with
    | [method; target; version] =>
        if negb (is_valid_method method) then invalid "invalid request line: invalid method"
        else if negb (is_valid_request_target target)
        then invalid "invalid request line: invalid request-target"
        else if has_non_ascii target then invalid "invalid request-target: non-ASCII characters"
        else
          form ← parse_request_target_form target;
          _ ← validate_request_target_for_method method form;
          if negb (is_valid_protocol_version version)
          then invalid "invalid request line: invalid protocol version"
          else Ok tt
    | _ => Err (Error.InvalidData (B "invalid request line: " ++ line))
    end.

(** The Host rules for HTTP/1.1. *)
Definition check_host (hs : list (str * str)) (version : str) : result Error.t unit :=
  if version =s B "HTTP/1.1" then
    match List.filter (named (B "Host")) hs with
    | [] => invalid "HTTP/1.1 request missing Host header"
    | [(_, host_value)] =>
        if negb (is_empty host_value) && is_err (Host_parse host_value)
        then invalid "HTTP/1.1 request contains invalid Host header value"
        else Ok tt
    | _ => invalid "HTTP/1.1 request contains multiple Host headers"
    end
  else Ok tt.

(** The empty line after the headers. *)
Definition request_head_done :
    st (Core D) Error.t (flow (option (RequestHead.t * BodyKind))) :=
  _ ← core_drain 2;
  c ← get;
  start_line ← lift (ok_or (Error.InvalidData (B "missing request line")) (c_start_line c));
  let pieces := split " " start_line in
  let version := nth 2 pieces [] in
  _ ← lift (check_host (c_headers c) version);
  let method := nth 0 pieces [] in
  body_kind ← (if method =s B "CONNECT" then mret KTunnel
               else lift (determine_body_kind (c_headers c) (c_limits c) version));
  _ ← enter_body Complete body_kind;
  _ ← modify (set_start_line None);
  let parts := splitn 3 " " start_line in
  method ← unwrap (parts !! 0%nat);
  uri ← unwrap (parts !! 1%nat);
  version ← unwrap (parts !! 2%nat);
  hs ← gets c_headers;
  _ ← modify (set_headers []);
  mret (Break (Some (RequestHead.from_validated_parts method uri version hs, body_kind))).

(** One round of the [loop] of [decode_headers]. *)
Definition request_round : st (Core D) Error.t (flow (option (RequestHead.t * BodyKind))) :=
  head_round check_request_line request_head_done core_next_message.

Definition rq_core_decode_headers : st (Core D) Error.t (option (RequestHead.t * BodyKind)) :=
  read_head request_round.

Definition rq_decode_headers : st (RequestDecoder D) Error.t (option (RequestHead.t * BodyKind)) :=
  on_core rq_core_decode_headers.

(** The first part of [decode]: [false] is [return Ok(None)]. *)
Definition rq_decode_head : st (RequestDecoder D) Error.t bool := fun d =>
  match rq_decoded_head d with
  | Some _ => (d, Ok true)
  | None =>
      match c_phase (rq_core d) with
      | StartLine | Headers =>
          (r ← rq_decode_headers;
           match r with
           | Some (head, body_kind) =>
               _ ← modify (fun d => {| rq_core := set_decoded_body_kind (Some body_kind) (rq_core d);
                                       rq_decoded_head := Some head |});
               mret true
           | None => mret false
           end) d
      | _ => fail "decode cannot be mixed with streaming API" d
      end
  end.

(** The body part of [decode]: [false] is [return Ok(None)]. *)
Definition rq_decode_body (k : BodyKind) : st (Core D) Error.t bool :=
  match k with
  | KTunnel =>
      fail "decode() cannot be used in tunnel mode, use take_remaining() instead"
  | KContentLength _ | KChunked => body_loop
  | KCloseDelimited | KNone => mret true
  end.

(** The last part of [decode]: [self.decoded_head.take().unwrap()] and the
    reset for the next message. *)
Definition rq_finish (k : BodyKind) : st (RequestDecoder D) Error.t Request.t :=
  head ← (d ← get; unwrap (rq_decoded_head d));
  _ ← modify (fun d => {| rq_core := rq_core d; rq_decoded_head := None |});
  body ← on_core (body_of_kind k);
  _ ← on_core (modify core_message_done);
  mret (Request.from_raw_parts (RequestHead.method head) (RequestHead.uri head)
          (RequestHead.version head) (RequestHead.headers head) body).

(** [decode]. *)
Definition rq_decode : st (RequestDecoder D) Error.t (option Request.t) :=
  have_head ← rq_decode_head;
  if negb have_head then mret None
  else
    k ← (d ← get; unwrap (c_decoded_body_kind (rq_core d)));
    have_body ← on_core (rq_decode_body k);
    if negb have_body then mret None
    else r ← rq_finish k; mret (Some r).
End RequestDecoder.
