(* ===== verification/RequestFacts.v ===== *)
(** * Facts about the request decoder

    The request line; the head; and that [decode_headers] and [decode] can be
    cut at any point of the input, keep their invariant and end normally. *)
From S2P Require Import Prelude RustStd Errors Validate Host Target Trailer Framing Head.
From S2P Require Import Buffer BodyDecoder BodyFacts Compression Message DecoderCore CoreFacts HeadFacts RequestDecoder.

(** ** The request line *)

Record request_line_parts (l m u v : str) : Prop := {
  rl_line : l = m ++ " "%byte :: u ++ " "%byte :: v;
  rl_method : is_valid_method m = true;
  rl_target : is_valid_request_target u = true;
  rl_ascii : has_non_ascii u = false;
  rl_form : exists form, parse_request_target_form u = Ok form /\
                         validate_request_target_for_method m form = Ok tt;
  rl_version : is_valid_protocol_version v = true
}.

Lemma splitn_3 m u v :
  contains_byte " " m = false -> contains_byte " " u = false ->
  splitn 3 " " (m ++ " "%byte :: u ++ " "%byte :: v) = [m; u; v].
Proof. intros Hm Hu. cbn [splitn]. by rewrite (split_once_app " " m), (split_once_app " " u). Qed.

(** A method, a request target and a version hold no space and no line break. *)
Definition line_safe (s : str) : Prop :=
  contains_byte " " s = false /\ contains_byte CR s = false /\ contains_byte LF s = false.

Lemma line_safe_forallb (p : byte -> bool) s :
  p " "%byte = false -> p CR = false -> p LF = false -> forallb p s = true -> line_safe s.
Proof. intros H1 H2 H3 Hs. split_and!; by eapply contains_byte_forallb. Qed.

Lemma method_safe m : is_valid_method m = true -> line_safe m.
Proof. intros [_ H]%andb_true_iff. by eapply line_safe_forallb; [..|exact H]. Qed.

Lemma target_safe u : is_valid_request_target u = true -> line_safe u.
Proof. intros [_ H]%is_valid_request_target_chars. by eapply line_safe_forallb; [..|exact H]. Qed.

Lemma version_safe v : is_valid_protocol_version v = true -> line_safe v.
Proof. intros [_ H]%protocol_version_chars. by eapply line_safe_forallb; [..|exact H]. Qed.

Lemma request_line_split l m u v :
  request_line_parts l m u v -> splitn 3 " " l = [m; u; v] /\ split " " l = [m; u; v].
Proof.
  intros [-> Hm Hu _ _ Hv]. apply method_safe in Hm as (Hm & _). apply target_safe in Hu as (Hu & _).
  apply version_safe in Hv as (Hv & _). split; [by apply splitn_3|].
  by rewrite split_app, split_app, split_no_sep.
Qed.

Lemma split_once_join c s a r : split_once c s = Some (a, r) -> s = a ++ c :: r.
Proof. by intros [-> _]%split_once_Some. Qed.

(** The checks of a request line, on its three parts. *)
Lemma check_request_line_iff l :
  check_request_line l = Ok tt <-> exists m u v, request_line_parts l m u v.
Proof.
  unfold check_request_line, invalid. split.
  - destruct (_ || _); [done|]. cbn [splitn]. destruct (split_once " " l) as [[m r]|] eqn:Hm; [|done].
    destruct (split_once " " r) as [[u v]|] eqn:Hu; [|done].
    apply split_once_join in Hm as ->. apply split_once_join in Hu as ->.
    destruct (is_valid_method m) eqn:Em; [|done]. destruct (is_valid_request_target u) eqn:Eu; [|done].
    cbn [negb]. destruct (has_non_ascii u) eqn:Ea; [done|].
    destruct (parse_request_target_form u) as [form|] eqn:Ef; [|done]. cbn [mbind result_bind].
    destruct (validate_request_target_for_method m form) as [[]|] eqn:Ev; [|done]. cbn [mbind result_bind].
    destruct (is_valid_protocol_version v) eqn:Ep; [|done]. intros _. exists m, u, v. by split; eauto.
  - intros (m & u & v & Hp). pose proof (request_line_split _ _ _ _ Hp) as [-> _].
    destruct Hp as [-> Hm Hu Ha (form & Hf & Hvf) Hv].
    pose proof (method_safe _ Hm) as (_ & Hm1 & Hm2). pose proof (target_safe _ Hu) as (_ & Hu1 & Hu2).
    pose proof (version_safe _ Hv) as (_ & Hv1 & Hv2).
    assert (Hl : contains_byte CR (m ++ " "%byte :: u ++ " "%byte :: v)
                 || contains_byte LF (m ++ " "%byte :: u ++ " "%byte :: v) = false).
    { rewrite !contains_byte_app. change (" "%byte :: u ++ " "%byte :: v) with ([" "%byte] ++ u ++ [" "%byte] ++ v).
      rewrite !contains_byte_app. by rewrite Hm1, Hm2, Hu1, Hu2, Hv1, Hv2. }
    rewrite Hl, Hm, Hu, Ha, Hf, Hv. cbn [negb mbind result_bind]. by rewrite Hvf.
Qed.

Definition request_line_ok (l : str) : Prop := check_request_line l = Ok tt.

(** ** The head *)

Section RequestFacts.
Context {D : Type} `{Decompressor D}.

Implicit Types c : Core D.

(** The kind of the body that follows the head. *)
Definition request_kind (m v : str) c : result Error.t BodyKind :=
  _ ← check_host (c_headers c) v;
  if m =s B "CONNECT" then Ok KTunnel else determine_body_kind (c_headers c) (c_limits c) v.

Lemma request_head_done_eq c l m u v :
  c_start_line c = Some l -> request_line_parts l m u v -> (2 <= length (c_buf c))%nat ->
  request_head_done c =
    let c1 := set_buf (drop 2 (c_buf c)) c in
    match request_kind m v c with
    | Err e => (c1, Err (Throw e))
    | Ok k => (entered Complete k c1, Ok (Break (Some (RequestHead.from_validated_parts m u v (c_headers c), k))))
    end.
Proof.
  intros Hl Hp Hn. pose proof (request_line_split _ _ _ _ Hp) as [Hs3 Hs].
  unfold request_head_done. unfold mbind at 1, st_bind at 1. rewrite (core_drain_le _ _ Hn).
  unfold request_kind, mbind, st_bind, modify, get, lift. cs. rewrite Hl.
  cbn [ok_or map_err]. rewrite Hs, Hs3. cbn [nth]. destruct (check_host _ v) as [[]|e]; [|done].
  cbn [map_err result_bind]. destruct (m =s B "CONNECT"); [done|]. unfold lift.
  by destruct (determine_body_kind _ _ _) as [k|e].
Qed.

Definition kind_ok (limits : DecoderLimits) (k : BodyKind) : Prop :=
  match k with KContentLength n => n <= max_body_size limits | KCloseDelimited => False | _ => True end.

Lemma kind_ok_length limits k : kind_ok limits k -> length_ok limits k.
Proof. by destruct k. Qed.

Lemma request_kind_ok m v c k : request_kind m v c = Ok k -> kind_ok (c_limits c) k.
Proof.
  unfold request_kind. destruct (check_host _ v); [|done]. cbn [mbind result_bind].
  destruct (m =s B "CONNECT"); [by intros <-%Ok_inj|]. unfold determine_body_kind, invalid.
  destruct (resolve_body_headers_for_request _) as [[[] [n|]]|]; [..|done]; cbn [mbind result_bind];
    try (destruct (negb _); [done|]; by intros <-%Ok_inj).
  - destruct (max_body_size (c_limits c) <? n) eqn:Hn; [done|]. intros <-%Ok_inj. cbn. lia.
  - by intros <-%Ok_inj.
Qed.

(** What is known of a decoded head and the kind of the body behind it. *)
Record head_known (limits : DecoderLimits) (h : RequestHead.t) (k : BodyKind) : Prop := {
  hd_line : exists l, request_line_parts l (RequestHead.method h) (RequestHead.uri h) (RequestHead.version h);
  hd_headers : forallb sendable (RequestHead.headers h) = true;
  hd_count : blen (RequestHead.headers h) <= max_headers_count limits;
  hd_kind : kind_ok limits k;
  hd_host : check_host (RequestHead.headers h) (RequestHead.version h) = Ok tt;
  hd_framing :
    if RequestHead.method h =s B "CONNECT" then k = KTunnel
    else determine_body_kind (RequestHead.headers h) limits (RequestHead.version h) = Ok k
}.

(** The same, in the state after the head. *)
Record head_decoded (h : RequestHead.t) (k : BodyKind) c : Prop := {
  hd_known : head_known (c_limits c) h k;
  hd_phase : c_phase c = phase_after_head Complete k;
  hd_declared : declared_trailers (c_body_decoder c) = collect_declared_trailers (RequestHead.headers h);
  hd_clean : c_headers c = [] /\ c_start_line c = None
}.

Lemma head_known_valid limits h k :
  head_known limits h k -> RequestHead.valid h = true /\ has_non_ascii (RequestHead.uri h) = false.
Proof.
  intros [(l & [_ Hm Hu Ha _ Hv]) Hh%sendable_header_ok _ _ _ _]. split; [|done].
  unfold RequestHead.valid. by rewrite Hm, Hu, Hv, Hh.
Qed.

Lemma request_kind_extend y m v c : request_kind m v (core_extend y c) = request_kind m v c.
Proof. done. Qed.

Lemma phase_not_close k limits : kind_ok limits k -> phase_after_head Complete k <> BodyCloseDelimited.
Proof. destruct k; cbn; try done. by destruct (0 <? len). Qed.

(** Nothing but the shared part. *)
Definition keep_core c c' : Prop := True.

#[local] Instance keep_core_preorder : PreOrder keep_core.
Proof. done. Qed.

Lemma request_head_end : head_end request_line_ok keep_core head_decoded request_head_done.
Proof.
  split; cbn [core_of core_self]; intros; rename select (head_inv _ _) into Hi;
    rename select (c_phase _ = Headers) into Hp; rename select (_ <= _)%nat into Hlen;
    pose proof Hi as [_ _ _ I4 I5 I6]; cbn [core_of core_self] in *;
    destruct (I4 Hp) as (l & Hl & _ & (m & u & v & Hlp)%check_request_line_iff).
  - pose proof (drained_buffered 2 t ltac:(lia) Hlen) as Hb.
    rewrite (request_head_done_eq t l m u v Hl Hlp Hlen). cbv zeta.
    destruct (request_kind m v t) as [k|e] eqn:Hk.
    + apply request_kind_ok in Hk as Hko. split_and!; [by apply entered_inv; [..|by left|by apply kind_ok_length] | |done|done].
      revert Hk. unfold request_kind. destruct (check_host _ v) as [[]|] eqn:Hho; [|done].
      cbn [mbind result_bind]. intros Hk.
      split; cs; [|done..].
      split; cs; cbn [RequestHead.from_validated_parts RequestHead.method RequestHead.headers RequestHead.version];
        try done; [by eexists|].
      destruct (m =s B "CONNECT"); [by apply Ok_inj in Hk | done].
    + split_and!; [by apply drained_inv | unfold tbuffered; cbn [core_of core_self]; lia | done | done | by eauto].
  - change (extend_core y t) with (core_extend y t).
    assert (Hlen2 : (2 <= length (c_buf (core_extend y t)))%nat) by (cs; rewrite length_app; lia).
    rewrite (request_head_done_eq t l m u v Hl Hlp Hlen), (request_head_done_eq (core_extend y t) l m u v Hl Hlp Hlen2).
    cbv zeta. rewrite request_kind_extend. cs. rewrite drop_app_le by lia.
    by destruct (request_kind m v t).
Qed.

Lemma request_reader :
  head_reader request_line_ok keep_core check_request_line head_decoded request_head_done core_next_message.
Proof. split; [apply _ | done | done | apply request_head_end | done]. Qed.

Definition headers_post c (o : Core D * result (exn Error.t) (option (RequestHead.t * BodyKind))) : Prop :=
  let '(c', r) := o in
  loop_inv request_line_ok c' /\ orderly r /\ (core_buffered c' <= core_buffered c)%nat /\
  same_rest c c' /\
  match r with
  | Ok (Some (h, k)) => head_decoded h k c' /\ (core_buffered c' < core_buffered c)%nat
  | Ok None => reading_head c'
  | _ => True
  end.

Lemma reading_head_loop_inv c :
  core_inv request_line_ok c -> reading_head c -> loop_inv request_line_ok c.
Proof. intros Hi Hp. split; [done|]. by destruct Hp as [-> | ->]. Qed.

Lemma decode_headers_post c :
  loop_inv request_line_ok c -> headers_post c (rq_core_decode_headers c).
Proof.
  intros [Hi Hn]. pose proof (read_head_post request_reader c Hi) as Hp.
  unfold rq_core_decode_headers, request_round. destruct (read_head _ c) as [c' r].
  destruct Hp as (Hi' & Ho & Hle & [Hs _] & Hp). cbn [headers_post]. split_and!; try done; try apply Hs.
  - split; [done|]. destruct r as [[[h k]|]|e].
    + destruct Hp as [Hd _]. rewrite (hd_phase _ _ _ Hd). eapply phase_not_close, hd_kind, hd_known, Hd.
    + by destruct Hp as [Hp | Hp]; cbn in Hp; rewrite Hp.
    + destruct Hp as [Hp | [Hp | Hp]]; cbn in Hp; by rewrite Hp.
  - by destruct r as [[[h k]|]|e].
Qed.

Lemma loop_inv_core_extend y c : loop_inv request_line_ok c -> loop_inv request_line_ok (core_extend y c).
Proof. intros Hi. by apply loop_inv_extend. Qed.

(** One round more or less. *)
Lemma decode_headers_continue c c' :
  loop_inv request_line_ok c -> request_round c = (c', Ok Continue) ->
  rq_core_decode_headers c = rq_core_decode_headers c' /\ loop_inv request_line_ok c'.
Proof.
  intros [Hi Hn] Hr.
  destruct (read_head_continue request_reader c c' Hi Hr) as [He Hi']. split; [done|].
  pose proof (head_round_post request_reader c Hi) as Hp.
  unfold request_round in Hr. rewrite Hr in Hp. by apply reading_head_loop_inv; [|apply Hp].
Qed.

Lemma decode_headers_ext y c c' r :
  loop_inv request_line_ok c -> rq_core_decode_headers c = (c', r) ->
  match r with
  | Ok None => rq_core_decode_headers (core_extend y c) = rq_core_decode_headers (core_extend y c')
  | _ => rq_core_decode_headers (core_extend y c) = (core_extend y c', r)
  end.
Proof.
  intros [Hi Hn]. exact (read_head_ext request_reader y c c' r Hi).
Qed.

(** ** The decoder *)

Implicit Types d : RequestDecoder D.

Definition rq_extend (y : bytes) d : RequestDecoder D :=
  {| rq_core := core_extend y (rq_core d); rq_decoded_head := rq_decoded_head d |}.

Record rq_inv d : Prop := {
  ri_core : loop_inv request_line_ok (rq_core d);
  (** The kind of the body that a head waits for is known. *)
  ri_head : forall h, rq_decoded_head d = Some h ->
    exists k, c_decoded_body_kind (rq_core d) = Some k /\ head_known (c_limits (rq_core d)) h k
}.

Definition rq_buffered d : nat := core_buffered (rq_core d).

Lemma rq_extend_inv y d : rq_inv d -> rq_inv (rq_extend y d).
Proof. intros [Hc Hh]. split; [by apply loop_inv_core_extend | done]. Qed.

(** A state of the decoder with another core. *)
Definition with_core c d : RequestDecoder D := {| rq_core := c; rq_decoded_head := rq_decoded_head d |}.

#[export] Instance rq_core_laws : CoreOfLaws D (RequestDecoder D).
Proof. split; by intros []. Qed.

Lemma decode_head_eq d :
  rq_decode_head d =
    match rq_decoded_head d with
    | Some _ => (d, Ok true)
    | None =>
        match c_phase (rq_core d) with
        | StartLine | Headers =>
            match rq_core_decode_headers (rq_core d) with
            | (c', Ok (Some (h, k))) =>
                ({| rq_core := set_decoded_body_kind (Some k) c'; rq_decoded_head := Some h |}, Ok true)
            | (c', Ok None) => (with_core c' d, Ok false)
            | (c', Err e) => (with_core c' d, Err e)
            end
        | _ => fail "decode cannot be mixed with streaming API" d
        end
    end.
Proof.
  unfold rq_decode_head. destruct (rq_decoded_head d) eqn:Hd; [done|].
  destruct (c_phase (rq_core d)); try done;
    unfold mbind, st_bind, rq_decode_headers, on_core, with_core; cbn [core_of put_core rq_core_of];
    destruct (rq_core_decode_headers (rq_core d)) as [c' [[[h k]|]|e]]; by rewrite ?Hd.
Qed.

Lemma with_core_inv c d :
  loop_inv request_line_ok c -> rq_decoded_head d = None -> rq_inv (with_core c d).
Proof. intros Hc Hd. split; [done|]. intros h. cbn. by rewrite Hd. Qed.

Lemma decode_head_inv d :
  rq_inv d ->
  let '(d', r) := rq_decode_head d in
  rq_inv d' /\ orderly r /\ (rq_buffered d' <= rq_buffered d)%nat /\
  match r with
  | Ok true => exists h k, rq_decoded_head d' = Some h /\ c_decoded_body_kind (rq_core d') = Some k
  | Ok false => rq_decoded_head d' = None /\ reading_head (rq_core d')
  | Err _ => True
  end.
Proof.
  intros Hi. rewrite decode_head_eq. pose proof Hi as [Hc Hh].
  destruct (rq_decoded_head d) as [h|] eqn:Hd.
  { split_and!; try done. destruct (Hh h eq_refl) as (k & Hk & _). by exists h, k. }
  pose proof (decode_headers_post _ Hc) as Hp. unfold headers_post in Hp.
  destruct (c_phase (rq_core d)); try (by split_and!);
    destruct (rq_core_decode_headers (rq_core d)) as [c' [[[h k]|]|e]]; unfold rq_buffered;
    cbn [with_core rq_core rq_decoded_head]; destruct Hp as (Hi' & Ho & Hle & _ & Hp).
  all: split_and!; try done; try (by exists h, k); try (by apply with_core_inv).
  all: split; [destruct Hi' as [[I1 [B1 B2 B3] I3 I4 I5 I6] Hn]; by split; [split; [|split|..]|]|].
  all: intros h' [= <-]; destruct Hp as [[Hp _] _]; by exists k.
Qed.

Lemma decode_head_ext y d d' r :
  rq_inv d -> rq_decode_head d = (d', r) ->
  match r with
  | Ok false => rq_decode_head (rq_extend y d) = rq_decode_head (rq_extend y d')
  | _ => rq_decode_head (rq_extend y d) = (rq_extend y d', r)
  end.
Proof.
  intros Hi Hdh. pose proof (decode_head_inv d Hi) as Hpost. rewrite Hdh in Hpost.
  revert Hdh. rewrite !decode_head_eq. cbn [rq_extend rq_decoded_head rq_core].
  destruct (rq_decoded_head d) as [h|] eqn:Hd; [by intros [= <- <-]|].
  cs. destruct (c_phase (rq_core d)) eqn:Hp; try (by intros [= <- <-]).
  all: destruct (rq_core_decode_headers (rq_core d)) as [c' r'] eqn:Hdec.
  all: pose proof (decode_headers_ext y _ _ _ (ri_core _ Hi) Hdec) as He.
  all: destruct r' as [[[h k]|]|e]; intros [= <- <-]; cbn [rq_extend with_core rq_core rq_decoded_head];
    cs; rewrite ?He; rewrite ?Hd; try done.
  all: destruct Hpost as (_ & _ & _ & _ & Hph); cbn [with_core rq_core] in Hph.
  all: by destruct Hph as [-> | ->].
Qed.

(** The body part. *)
Lemma decode_body_ext y k c c' r :
  loop_inv request_line_ok c -> rq_decode_body k c = (c', r) ->
  match r with
  | Ok false => rq_decode_body k (core_extend y c) = rq_decode_body k (core_extend y c')
  | _ => rq_decode_body k (core_extend y c) = (core_extend y c', r)
  end.
Proof.
  intros Hi. destruct k; cbn [rq_decode_body]; unfold fail, throw, mret, st_ret; try (by intros [= <- <-]).
  all: intros Hl; pose proof (body_loop_ext _ y _ _ _ Hi Hl) as He; destruct r as [[]|]; try done; apply He.
Qed.

Lemma decode_body_inv k c :
  loop_inv request_line_ok c ->
  let '(c', r) := rq_decode_body k c in
  loop_inv request_line_ok c' /\ orderly r /\ (core_buffered c' <= core_buffered c)%nat /\
  c_decoded_body_kind c' = c_decoded_body_kind c /\ c_limits c' = c_limits c.
Proof.
  intros Hi. destruct k; cbn [rq_decode_body]; try by split_and!.
  all: destruct (body_loop c) as [c' r] eqn:Hl; pose proof (body_loop_inv _ c (proj1 Hi)) as Hb.
  all: rewrite Hl in Hb; destruct Hb as (H1 & H2 & H3 & H4 & H5 & d & s & Hc); cbn [fst snd] in *.
  all: split_and!; try done; [|by rewrite Hc..]; split; [done|]; intros Hn; by apply (proj2 Hi), H5.
Qed.

(** What is left of the state when a message is handed out. *)
Definition message_done (k : BodyKind) d : RequestDecoder D :=
  {| rq_core := core_message_done
       (match k with KNone | KTunnel => rq_core d | _ => set_decoded_body [] (rq_core d) end);
     rq_decoded_head := None |}.

Definition message (h : RequestHead.t) (k : BodyKind) c : Request.t :=
  Request.from_raw_parts (RequestHead.method h) (RequestHead.uri h) (RequestHead.version h)
    (RequestHead.headers h) (match k with KNone | KTunnel => None | _ => Some (c_decoded_body c) end).

(** [decode] as a whole. *)
Lemma rq_decode_eq d :
  rq_inv d ->
  rq_decode d =
    match rq_decode_head d with
    | (d1, Err e) => (d1, Err e)
    | (d1, Ok false) => (d1, Ok None)
    | (d1, Ok true) =>
        match rq_decoded_head d1, c_decoded_body_kind (rq_core d1) with
        | Some h, Some k =>
            match rq_decode_body k (rq_core d1) with
            | (c, Err e) => (with_core c d1, Err e)
            | (c, Ok false) => (with_core c d1, Ok None)
            | (c, Ok true) => (message_done k (with_core c d1), Ok (Some (message h k c)))
            end
        | _, _ => (d1, Err Panic)
        end
    end.
Proof.
  intros Hi. unfold rq_decode. unfold mbind at 1, st_bind at 1.
  pose proof (decode_head_inv d Hi) as Hpost. destruct (rq_decode_head d) as [d1 [[]|e]]; try done.
  destruct Hpost as (_ & _ & _ & h & k & Hh & Hk). cbn [negb]. rewrite Hh, Hk.
  unfold mbind, st_bind, get, unwrap. rewrite Hk. unfold on_core at 1. cbn [core_of put_core rq_core_of].
  destruct (rq_decode_body k (rq_core d1)) as [c [[]|e]]; [|done..]. cbn [negb].
  unfold rq_finish, mbind, st_bind, get, unwrap, modify, on_core. cbn [rq_decoded_head rq_core]. rewrite Hh.
  by destruct k.
Qed.

Lemma message_done_inv k d : loop_inv request_line_ok (rq_core d) -> rq_inv (message_done k d).
Proof.
  intros [[I1 [B1 B2 B3] I3 I4 I5 I6] Hn]. split; [|done]. unfold message_done, core_message_done.
  destruct k; cbn [rq_core]; (split; [split; cs; try done|done]);
    (split; [apply N.le_0_l | constructor | split; apply N.le_0_l]).
Qed.

Lemma rq_decode_inv d :
  rq_inv d ->
  let '(d', r) := rq_decode d in
  rq_inv d' /\ orderly r /\ (rq_buffered d' <= rq_buffered d)%nat.
Proof.
  intros Hi. rewrite (rq_decode_eq d Hi). pose proof (decode_head_inv d Hi) as Hpost.
  destruct (rq_decode_head d) as [d1 [[]|e]]; destruct Hpost as (Hi1 & Ho & Hle & Hpost); try done.
  destruct Hpost as (h & k & Hh & Hk). rewrite Hh, Hk.
  pose proof (decode_body_inv k (rq_core d1) (ri_core _ Hi1)) as Hb.
  destruct (rq_decode_body k (rq_core d1)) as [c [[]|e]]; destruct Hb as (Hc & Ho' & Hle' & Hkind & Hlim);
    unfold rq_buffered in *.
  - split_and!; [by apply message_done_inv | done |]. unfold message_done, core_message_done.
    destruct k; unfold core_buffered in *; cbn [rq_core with_core]; cs; lia.
  - split_and!; [|done|cbn; lia]. split; [done|]. cbn. rewrite Hkind, Hlim. apply Hi1.
  - split_and!; [|done|cbn; lia]. split; [done|]. cbn. rewrite Hkind, Hlim. apply Hi1.
Qed.

(** Each message decoded takes input away. *)
Lemma rq_decode_shrinks d d' m :
  rq_inv d -> rq_decoded_head d = None -> rq_decode d = (d', Ok (Some m)) ->
  (rq_buffered d' < rq_buffered d)%nat /\ rq_decoded_head d' = None.
Proof.
  intros Hi Hd. rewrite (rq_decode_eq d Hi), decode_head_eq, Hd.
  pose proof (decode_headers_post _ (ri_core _ Hi)) as Hp. unfold headers_post in Hp.
  destruct (c_phase (rq_core d)); try done;
    destruct (rq_core_decode_headers (rq_core d)) as [c' [[[h k]|]|e]]; try done.
  all: cbn [with_core rq_core rq_decoded_head]; cs; destruct Hp as (Hi' & _ & _ & _ & _ & Hlt).
  all: assert (Hi2 : loop_inv request_line_ok (set_decoded_body_kind (Some k) c'))
    by (destruct Hi' as [[I1 [B1 B2 B3] I3 I4 I5 I6] Hn]; split; [split; [|split|..]|]; done).
  all: pose proof (decode_body_inv k _ Hi2) as Hb;
    destruct (rq_decode_body k _) as [c2 [[]|e]]; try done;
    destruct Hb as (_ & _ & Hle' & _); intros [= <- <-]; split; [|done];
    unfold message_done, rq_buffered, core_message_done, core_buffered in *; destruct k; cbn in *; lia.
Qed.

(** [decode] on a part of the input and then with the rest behind it is
    [decode] on all of it. *)
Lemma rq_decode_ext y d d' r :
  rq_inv d -> rq_decode d = (d', r) ->
  match r with
  | Ok None => rq_decode (rq_extend y d) = rq_decode (rq_extend y d')
  | _ => rq_decode (rq_extend y d) = (rq_extend y d', r)
  end.
Proof.
  intros Hi Hdec. pose proof (rq_decode_inv d Hi) as Hpost. rewrite Hdec in Hpost.
  destruct Hpost as (Hi' & _ & _). revert Hdec.
  rewrite (rq_decode_eq d Hi), (rq_decode_eq _ (rq_extend_inv y d Hi)).
  pose proof (decode_head_inv d Hi) as Hpost. destruct (rq_decode_head d) as [d1 r1] eqn:Hdh.
  pose proof (decode_head_ext y d d1 r1 Hi Hdh) as He. destruct Hpost as (Hi1 & _ & _ & Hpost).
  destruct r1 as [[]|e].
  - destruct Hpost as (h & k & Hh & Hk). rewrite He. cbn [rq_extend rq_decoded_head rq_core]. cs. rewrite Hh, Hk.
    destruct (rq_decode_body k (rq_core d1)) as [c2 r2] eqn:Hb.
    pose proof (decode_body_ext y k _ _ _ (ri_core _ Hi1) Hb) as Hbe.
    pose proof (decode_body_inv k (rq_core d1) (ri_core _ Hi1)) as Hbi. rewrite Hb in Hbi.
    destruct Hbi as (_ & _ & _ & Hkind & _).
    destruct r2 as [[]|e]; intros [= <- <-]; rewrite Hbe.
    + unfold message_done, rq_extend, message, with_core, core_message_done. by destruct k.
    + rewrite (rq_decode_eq _ (rq_extend_inv y _ Hi')), decode_head_eq.
      cbn [rq_extend with_core rq_decoded_head rq_core]. cs. rewrite Hh.
      cbn [rq_extend with_core rq_decoded_head rq_core]. cs. by rewrite Hh, Hkind, Hk.
    + done.
  - intros [= <- <-]. rewrite He. by rewrite (rq_decode_eq _ (rq_extend_inv y _ Hi')).
  - intros [= <- <-]. by rewrite He.
Qed.
End RequestFacts.
