(* ===== verification/RequestTheorems.v ===== *)
(** * What the request decoder guarantees

    The results over whole runs of the API: no call panics or loops, whatever
    the calls before it; the messages do not depend on how the input was cut;
    what a decoded request satisfies. *)
From stdpp Require Import relations.
From S2P Require Import Prelude RustStd Errors Validate Host Target Trailer Framing Head.
From S2P Require Import Buffer BodyDecoder BodyFacts Compression Message DecoderCore CoreFacts CoreApi HeadFacts Stream.
From S2P Require Import FramingFacts RequestDecoder RequestFacts.

(** ** The public calls *)

Inductive rq_call : Type :=
  | CallFeed (data : bytes)
  | CallFeedUnchecked (data : bytes)
  | CallMutBuf (len : N)
  (** The caller writes [data] into the slice of [len] bytes it got. *)
  | CallWriteSlice (len : N) (data : bytes)
  | CallAdvanceBuf (len : N)
  | CallDecode
  | CallDecodeHeaders
  | CallPeekBody
  | CallPeekDecompressed (output : bytes)
  | CallConsumeBody (len : N)
  | CallProgress
  | CallRemaining
  | CallTakeRemaining
  | CallReset.

Section Api.
Context {D : Type} `{Decompressor D}.

Implicit Types d : RequestDecoder D.

Definition rq_write_slice (len : N) (data : bytes) d : RequestDecoder D :=
  with_core (core_write_slice len data (rq_core d)) d.

(** One step of the decoder: the state after the call, and its outcome. *)
Definition rq_step (call : rq_call) : st (RequestDecoder D) Error.t unit :=
  match call with
  | CallFeed data => rq_feed data
  | CallFeedUnchecked data => modify (rq_feed_unchecked data)
  | CallMutBuf len => rq_mut_buf len
  | CallWriteSlice len data => modify (rq_write_slice len data)
  | CallAdvanceBuf len => modify (rq_advance_buf len)
  | CallDecode => discard rq_decode
  | CallDecodeHeaders => discard rq_decode_headers
  | CallPeekBody => discard (on_core core_peek)
  | CallPeekDecompressed output => discard (rq_peek_body_decompressed output)
  | CallConsumeBody len => discard (rq_consume_body len)
  | CallProgress => discard rq_progress
  | CallRemaining => mret tt
  | CallTakeRemaining => modify (fun d => fst (rq_take_remaining d))
  | CallReset => modify rq_reset
  end.

(** The states a decoder can reach, through calls that fail as well. *)
Inductive rq_reachable (z : D) (limits : DecoderLimits) : RequestDecoder D -> Prop :=
  | rq_start : rq_reachable z limits (rq_new z limits)
  | rq_next d call : rq_reachable z limits d -> rq_reachable z limits (fst (rq_step call d)).

(** ** The invariant holds in every reachable state *)

Lemma rq_new_inv (z : D) limits : limits_ok limits -> rq_inv (rq_new z limits).
Proof. intros Hl. split; [|done]. split; [by apply core_new_inv | done]. Qed.

Lemma rq_reset_inv d : rq_inv d -> rq_inv (rq_reset d).
Proof. intros [[Hi Hn] Hh]. split; [|done]. split; [by apply core_reset_inv | done]. Qed.

(** A step keeps the invariant and ends normally. *)
Definition step_ok {A} (m : st (RequestDecoder D) Error.t A) d : Prop :=
  rq_inv (fst (m d)) /\ orderly (snd (m d)).

Lemma discard_ok {A} (m : st (RequestDecoder D) Error.t A) d : step_ok m d -> step_ok (discard m) d.
Proof.
  unfold step_ok, discard, mbind, st_bind. by destruct (m d) as [d' [a|e]].
Qed.

Lemma on_core_ok {A} (m : st (Core D) Error.t A) d :
  core_keeps request_line_ok m -> rq_inv d -> step_ok (on_core m) d.
Proof.
  intros Hm [[Hi Hn] Hh]. destruct (Hm _ Hi) as (H1 & H2 & H3 & H4 & H5).
  unfold step_ok, on_core. cbn [core_of put_core rq_core_of].
  destruct (m (rq_core d)) as [c r]. cbn [fst snd] in *. split; [|done]. split; [|cbn; by rewrite H3, H4].
  split; [done|]. intros Hp. by apply Hn, H5.
Qed.

Lemma rq_on_core {A} (m : st (Core D) Error.t A) d : rq_core (fst (on_core m d)) = fst (m (rq_core d)).
Proof. unfold on_core. cbn [core_of rq_core_of]. by destruct (m (rq_core d)). Qed.

Lemma rq_step_inv call d : rq_inv d -> step_ok (rq_step call) d.
Proof.
  intros Hi. destruct call; cbn [rq_step].
  - apply on_core_ok, Hi. apply core_feed_keeps.
  - apply (on_core_ok (modify (core_feed_unchecked data))), Hi. apply core_feed_unchecked_keeps.
  - apply on_core_ok, Hi. apply core_mut_buf_keeps.
  - apply (on_core_ok (modify (core_write_slice len data))), Hi. apply core_write_slice_keeps.
  - apply (on_core_ok (modify (core_advance_buf len))), Hi. apply core_advance_buf_keeps.
  - apply discard_ok. pose proof (rq_decode_inv d Hi) as Hp. unfold step_ok.
    by destruct (rq_decode d) as [d' r]; destruct Hp as (H1 & H2 & _).
  - apply discard_ok. unfold step_ok, rq_decode_headers, on_core. cbn [core_of put_core rq_core_of].
    pose proof (decode_headers_post _ (ri_core _ Hi)) as Hp.
    destruct (rq_core_decode_headers (rq_core d)) as [c' r]. destruct Hp as (H1 & H2 & _ & (Hl & Hk & _) & _).
    split; [|done]. split; [done|]. cbn. rewrite Hk, Hl. apply Hi.
  - apply discard_ok, on_core_ok, Hi. apply core_peek_keeps.
  - apply discard_ok, on_core_ok, Hi. apply core_peek_decompressed_keeps.
  - apply discard_ok, on_core_ok, Hi. apply core_consume_body_keeps.
  - apply discard_ok, on_core_ok, Hi. apply core_progress_keeps.
  - by split.
  - apply (on_core_ok (modify (fun c => fst (core_take_remaining c)))), Hi. apply core_take_remaining_keeps.
  - split; [|done]. by apply rq_reset_inv.
Qed.

Lemma rq_reachable_inv (z : D) limits d : limits_ok limits -> rq_reachable z limits d -> rq_inv d.
Proof.
  intros Hl. induction 1 as [|d call Hr IH]; [by apply rq_new_inv|]. by apply rq_step_inv.
Qed.

(** A request that [decode] hands out meets the assertions of [from_raw_parts]. *)
Lemma message_valid d h k (c : Core D) : rq_inv d -> rq_decoded_head d = Some h -> Request.valid (message h k c) = true.
Proof.
  intros Hi Hh. destruct (ri_head _ Hi h Hh) as (k' & _ & [Hv Ha]%head_known_valid). unfold RequestHead.valid in Hv.
  unfold Request.valid, message, Request.from_raw_parts.
  cbn [Request.method Request.uri Request.version Request.headers].
  rewrite !andb_true_iff in Hv. destruct Hv as [[[V1 V2] V3] V4]. by rewrite V1, V2, Ha, V3, V4.
Qed.

Lemma decoded_request_valid (z : D) limits d d' m :
  limits_ok limits -> rq_reachable z limits d -> rq_decode d = (d', Ok (Some m)) ->
  Request.valid m = true.
Proof.
  intros Hl Hr. pose proof (rq_reachable_inv z limits d Hl Hr) as Hi. rewrite (rq_decode_eq d Hi).
  pose proof (decode_head_inv d Hi) as Hp. destruct (rq_decode_head d) as [d1 [[]|e]]; try done.
  destruct Hp as (Hi1 & _ & _ & h & k & Hh & Hk). rewrite Hh, Hk.
  destruct (rq_decode_body k (rq_core d1)) as [c [[]|e]]; try done. intros [= _ <-].
  by apply (message_valid d1).
Qed.

(** ** Debug builds *)

(** What a method asserts when it is called. *)
Definition rq_asserts (call : rq_call) d : bool :=
  let c := rq_core d in
  match call with
  | CallMutBuf _ => mut_buf_asserts c
  | CallWriteSlice len data => write_slice_asserts len data c
  | CallAdvanceBuf len => advance_buf_asserts len c
  | CallConsumeBody len => consume_body_asserts len c
  | CallReset => true
  | _ => settled c
  end.

(** [decode_headers] with the assertions of [from_validated_parts]. *)
Definition rq_decode_headers_debug : st (RequestDecoder D) Error.t (option (RequestHead.t * BodyKind)) :=
  asserting (fun d => settled (rq_core d))
    (r ← rq_decode_headers;
     _ ← debug_assert (fun _ => match r with Some (head, _) => RequestHead.valid head | None => true end);
     mret r).

Definition rq_decode_head_debug : st (RequestDecoder D) Error.t bool := fun d =>
  match rq_decoded_head d with
  | Some _ => (d, Ok true)
  | None =>
      match c_phase (rq_core d) with
      | StartLine | Headers =>
          (r ← rq_decode_headers_debug;
           match r with
           | Some (head, body_kind) =>
               _ ← modify (fun d => {| rq_core := set_decoded_body_kind (Some body_kind) (rq_core d);
                                       rq_decoded_head := Some head |});
               mret true
           | None => mret false
           end) d
      | _ => fail "decode cannot be mixed with streaming API" d
      end
  end.

Definition rq_decode_body_debug (k : BodyKind) : st (Core D) Error.t bool :=
  match k with
  | KContentLength _ | KChunked => body_loop_debug
  | _ => rq_decode_body k
  end.

(** [decode] with the assertions of the calls in it and of [from_raw_parts]. *)
Definition rq_decode_debug : st (RequestDecoder D) Error.t (option Request.t) :=
  asserting (fun d => settled (rq_core d))
    (have_head ← rq_decode_head_debug;
     if negb have_head then mret None
     else
       k ← (d ← get; unwrap (c_decoded_body_kind (rq_core d)));
       have_body ← on_core (rq_decode_body_debug k);
       if negb have_body then mret None
       else
         r ← rq_finish k;
         _ ← debug_assert (fun _ => Request.valid r);
         mret (Some r)).

Definition rq_debug_step (call : rq_call) : st (RequestDecoder D) Error.t unit :=
  asserting (rq_asserts call)
    match call with
    | CallDecode => discard rq_decode_debug
    | CallDecodeHeaders => discard rq_decode_headers_debug
    | _ => rq_step call
    end.

(** The contract of the methods, as their documentation has it. *)
Definition rq_contract (call : rq_call) d : Prop :=
  let pending := c_pending (rq_core d) in
  match call with
  | CallMutBuf _ | CallReset => True
  | CallWriteSlice len data => pending = len /\ blen data <= len
  | CallAdvanceBuf len => len <= pending
  | CallConsumeBody len =>
      pending = 0 /\ (len = 0 \/ ~ between_chunks (c_phase (rq_core d)))
  | _ => pending = 0
  end.

(** The states of a decoder of a debug build: no call panicked. *)
Inductive rq_debug_reachable (z : D) (limits : DecoderLimits) : RequestDecoder D -> Prop :=
  | rq_debug_start : rq_debug_reachable z limits (rq_new z limits)
  | rq_debug_next d call :
      rq_debug_reachable z limits d -> snd (rq_debug_step call d) <> Err Panic ->
      rq_debug_reachable z limits (fst (rq_debug_step call d)).

(** Reading a head and decoding settle no slice and take none. *)
Lemma rq_decode_headers_pending d :
  rq_inv d -> c_pending (rq_core (fst (rq_decode_headers d))) = c_pending (rq_core d).
Proof.
  intros Hi. pose proof (decode_headers_post _ (ri_core _ Hi)) as Hp.
  unfold rq_decode_headers, on_core. cbn [core_of put_core rq_core_of].
  destruct (rq_core_decode_headers (rq_core d)) as [c' r]. by destruct Hp as (_ & _ & _ & (_ & _ & _ & Hl) & _).
Qed.

Lemma decode_head_pending d :
  rq_inv d -> c_pending (rq_core (fst (rq_decode_head d))) = c_pending (rq_core d).
Proof.
  intros Hi. pose proof (rq_decode_headers_pending d Hi) as Hp. unfold rq_decode_head.
  destruct (rq_decoded_head d); [done|]. unfold mbind, st_bind.
  destruct (c_phase (rq_core d)); try done; by destruct (rq_decode_headers d) as [d' [[[h k]|]|e]].
Qed.

Lemma decode_body_pending k (c : Core D) :
  loop_inv request_line_ok c -> c_pending (fst (rq_decode_body k c)) = c_pending c.
Proof.
  intros [Hi _]. destruct k; try done; cbn [rq_decode_body];
    destruct (body_loop_inv _ c Hi) as (_ & _ & _ & _ & _ & ? & ? & ->); done.
Qed.

Lemma rq_decode_pending d : rq_inv d -> c_pending (rq_core (fst (rq_decode d))) = c_pending (rq_core d).
Proof.
  intros Hi. rewrite (rq_decode_eq d Hi). pose proof (decode_head_pending d Hi) as Hp.
  pose proof (decode_head_inv d Hi) as Hpost. destruct (rq_decode_head d) as [d1 [[]|e]]; try done.
  destruct Hpost as (Hi1 & _ & _ & h & k & Hh & Hk). rewrite Hh, Hk. cbn [fst] in Hp.
  pose proof (decode_body_pending k _ (ri_core _ Hi1)) as Hb.
  destruct (rq_decode_body k (rq_core d1)) as [c [[]|e]]; cbn [fst] in *; cbn; try congruence.
  destruct k; cbn; congruence.
Qed.

(** The assertions inside of [decode] hold when its own does. *)
Lemma rq_decode_headers_debug_eq d :
  rq_inv d -> settled (rq_core d) = true -> rq_decode_headers_debug d = rq_decode_headers d.
Proof.
  intros Hi Hs. unfold rq_decode_headers_debug. rewrite asserting_holds by done.
  pose proof (decode_headers_post _ (ri_core _ Hi)) as Hp. revert Hp.
  unfold rq_decode_headers, on_core, mbind, st_bind, debug_assert. cbn [core_of put_core rq_core_of].
  destruct (rq_core_decode_headers (rq_core d)) as [c' [[[h k]|]|e]]; [|done..].
  intros (_ & _ & _ & _ & [[Hk _ _ _] _]). by apply head_known_valid in Hk as [-> _].
Qed.

Lemma rq_decode_head_debug_eq d :
  rq_inv d -> settled (rq_core d) = true -> rq_decode_head_debug d = rq_decode_head d.
Proof.
  intros Hi Hs. unfold rq_decode_head_debug, rq_decode_head, mbind, st_bind.
  by rewrite (rq_decode_headers_debug_eq d Hi Hs).
Qed.

Lemma rq_decode_body_debug_eq k (c : Core D) : settled c = true -> rq_decode_body_debug k c = rq_decode_body k c.
Proof. intros Hs. destruct k; try done; by apply body_loop_debug_eq. Qed.

Lemma rq_decode_debug_eq d : rq_inv d -> settled (rq_core d) = true -> rq_decode_debug d = rq_decode d.
Proof.
  intros Hi Hs. rewrite (rq_decode_eq d Hi). unfold rq_decode_debug. rewrite asserting_holds by done.
  unfold mbind at 1, st_bind at 1. rewrite (rq_decode_head_debug_eq d Hi Hs).
  pose proof (decode_head_pending d Hi) as Hp. pose proof (decode_head_inv d Hi) as Hpost.
  destruct (rq_decode_head d) as [d1 [[]|e]]; [|done..]. destruct Hpost as (Hi1 & _ & _ & h & k & Hh & Hk).
  assert (Hs1 : settled (rq_core d1) = true) by (unfold settled in *; cbn [fst] in Hp; by rewrite Hp).
  cbn [negb]. rewrite Hh, Hk. unfold mbind, st_bind, get, unwrap. rewrite Hk. unfold on_core at 1.
  cbn [core_of put_core rq_core_of]. rewrite (rq_decode_body_debug_eq k _ Hs1).
  destruct (rq_decode_body k (rq_core d1)) as [c [[]|e]]; [|done..]. cbn [negb].
  pose proof (message_valid d1 h k c Hi1 Hh) as Hv.
  unfold rq_finish, mbind, st_bind, get, unwrap, modify, on_core, debug_assert. cbn [rq_decoded_head rq_core]. rewrite Hh.
  unfold message, mret, st_ret in *.
  destruct k; cbn [body_of_kind core_of put_core rq_core_of rq_core rq_decoded_head] in *; by rewrite Hv.
Qed.

(** A call that keeps to the contract passes its assertion, and no other does. *)
Lemma rq_asserts_iff call d : slice_inside (rq_core d) -> rq_asserts call d = true <-> rq_contract call d.
Proof.
  unfold slice_inside, pending_ok, rq_asserts, rq_contract, mut_buf_asserts, write_slice_asserts, advance_buf_asserts,
    consume_body_asserts, settled. intros Hin.
  destruct call; try (rewrite ?andb_true_iff, ?N.eqb_eq, ?N.leb_le; lia); try done.
  rewrite andb_true_iff, N.eqb_eq. apply and_iff_compat_l. unfold consume_asserts.
  destruct (c_phase (rq_core d)); cbn [between_chunks]; rewrite ?N.eqb_eq; tauto.
Qed.

Lemma rq_debug_step_eq call d :
  rq_inv d -> rq_asserts call d = true -> rq_debug_step call d = rq_step call d.
Proof.
  intros Hi Ha. unfold rq_debug_step. rewrite (asserting_holds (rq_asserts call)) by done.
  destruct call; try done; cbn [rq_step rq_asserts] in *; unfold discard, mbind, st_bind.
  - by rewrite (rq_decode_debug_eq d Hi Ha).
  - by rewrite (rq_decode_headers_debug_eq d Hi Ha).
Qed.

Lemma rq_step_inside call d :
  rq_inv d -> rq_asserts call d = true -> slice_inside (rq_core d) -> slice_inside (rq_core (fst (rq_step call d))).
Proof.
  intros Hi Ha Hin. assert (Hz : forall d', c_pending (rq_core d') = c_pending (rq_core d) -> settled (rq_core d) = true ->
    slice_inside (rq_core d')) by (intros d' E Hs; apply slice_inside_settled; unfold settled in *; by rewrite E).
  destruct call; cbn [rq_step rq_asserts] in *; rewrite ?discard_fst.
  - apply Hz; [|done]. unfold rq_feed, on_core, core_feed. cbn [core_of put_core rq_core_of]. by destruct (feed _ _ _).
  - by apply Hz.
  - unfold rq_mut_buf, on_core. cbn [core_of put_core rq_core_of]. pose proof (mut_buf_inside len _ Hin) as Hm.
    by destruct (core_mut_buf len (rq_core d)).
  - by apply write_slice_inside.
  - by apply advance_buf_inside.
  - apply Hz; [by apply rq_decode_pending | done].
  - apply Hz; [by apply rq_decode_headers_pending | done].
  - apply Hz; [|done]. unfold on_core. cbn [core_of put_core rq_core_of]. by rewrite core_peek_eq.
  - apply Hz; [|done]. unfold rq_peek_body_decompressed, on_core, core_peek_body_decompressed. cbn [core_of put_core rq_core_of].
    rewrite core_peek_eq. by destruct (decompress _ _ _) as [[z o] [[[] []|[] []|]|e]].
  - apply andb_true_iff in Ha as [Ha _]. apply Hz; [|done]. unfold rq_consume_body, on_core, core_consume_body, on_body.
    cbn [core_of put_core rq_core_of]. destruct (len =? 0); [done|]. by destruct (consume_body _ _ _).
  - apply Hz; [|done]. unfold rq_progress, on_core, core_progress, on_body. cbn [core_of put_core rq_core_of].
    by destruct (consume_body _ _ _).
  - done.
  - by apply slice_inside_settled.
  - by apply slice_inside_settled.
Qed.

Lemma rq_debug_reachable_inv (z : D) limits d :
  limits_ok limits -> rq_debug_reachable z limits d ->
  rq_reachable z limits d /\ rq_inv d /\ slice_inside (rq_core d).
Proof.
  intros Hl. induction 1 as [|d call _ (Hr & Hi & Hin) Hp].
  { split_and!; [apply rq_start | by apply rq_new_inv | by apply slice_inside_settled]. }
  destruct (rq_asserts call d) eqn:Ha.
  - rewrite (rq_debug_step_eq call d Hi Ha). split_and!; [by apply rq_next | by apply rq_step_inv | by apply rq_step_inside].
  - unfold rq_debug_step in Hp. by rewrite (asserting_fails (rq_asserts call)) in Hp.
Qed.


(** ** The input may be cut anywhere *)

(** Messages yet to come: one more when a head waits for its body. *)
Definition all_measure d : nat :=
  (rq_buffered d + match rq_decoded_head d with Some _ => 1 | None => 0 end)%nat.

Lemma decode_some_measure d d' m :
  rq_inv d -> rq_decode d = (d', Ok (Some m)) -> rq_inv d' /\ (all_measure d' < all_measure d)%nat.
Proof.
  intros Hi Hd. pose proof (rq_decode_inv d Hi) as Hp. rewrite Hd in Hp. destruct Hp as (Hi' & _ & Hle).
  split; [done|]. unfold all_measure. destruct (rq_decoded_head d) as [h|] eqn:Hh.
  - assert (rq_decoded_head d' = None) as ->; [|lia].
    rewrite (rq_decode_eq d Hi), decode_head_eq, Hh, Hh in Hd.
    destruct (c_decoded_body_kind (rq_core d)); [|done].
    destruct (rq_decode_body b (rq_core d)) as [c [[]|e]]; try done. by injection Hd as <- _.
  - apply rq_decode_shrinks in Hd as [Hlt ->]; [lia | done | done].
Qed.

#[export] Instance rq_stream : StreamDecoder (RequestDecoder D) Request.t Error.t := {|
  sd_decode := rq_decode; sd_extend := rq_feed_unchecked; sd_measure := all_measure; sd_inv := rq_inv;
  sd_error := eq |}.

#[export] Instance rq_stream_laws : StreamDecoderLaws (RequestDecoder D) Request.t Error.t.
Proof.
  split; cbn [sd_decode sd_extend sd_measure sd_inv sd_error rq_stream]; [apply _| | |..]; intros.
  - unfold rq_feed_unchecked, core_feed_unchecked, feed_unchecked. cbn. by rewrite app_assoc.
  - by apply (rq_extend_inv y).
  - rename select (rq_inv t) into Hi. pose proof (rq_decode_inv t Hi) as Hp.
    destruct (rq_decode t) as [t' r] eqn:Hd. destruct Hp as (Hi' & Ho & _). split_and!; [done..|].
    intros m ->. by apply decode_some_measure in Hd as [_ Hm].
  - rename select (rq_inv t) into Hi. destruct (rq_decode t) as [t' r] eqn:Hd.
    pose proof (rq_decode_ext y t t' r Hi Hd) as He. change rq_feed_unchecked with (@rq_extend D).
    destruct r as [[m|]|e]; [done| |].
    + rewrite He. by destruct (rq_decode (rq_extend y t')) as [? [?|?]].
    + exists e. by rewrite He.
Qed.

Lemma rq_head_limits d : rq_inv d -> c_limits (rq_core (fst (rq_decode_head d))) = c_limits (rq_core d).
Proof.
  intros Hi. rewrite decode_head_eq. destruct (rq_decoded_head d); [done|].
  pose proof (decode_headers_post _ (ri_core _ Hi)) as Hp. unfold headers_post in Hp.
  destruct (c_phase (rq_core d)); try done;
    destruct (rq_core_decode_headers (rq_core d)) as [c' [[[h k]|]|e]]; by destruct Hp as (_ & _ & _ & [Hl _] & _).
Qed.

Lemma rq_decode_limits d : rq_inv d -> c_limits (rq_core (fst (rq_decode d))) = c_limits (rq_core d).
Proof.
  intros Hi. rewrite (rq_decode_eq d Hi). pose proof (rq_head_limits d Hi) as Hl.
  pose proof (decode_head_inv d Hi) as Hp. destruct (rq_decode_head d) as [d1 [[]|e]]; try done. cbn [fst] in Hl.
  destruct Hp as (Hi1 & _ & _ & h & k & Hh & Hk). rewrite Hh, Hk.
  pose proof (decode_body_inv k (rq_core d1) (ri_core _ Hi1)) as Hb.
  destruct (rq_decode_body k (rq_core d1)) as [c [[]|e]]; destruct Hb as (_ & _ & _ & _ & Hb); cbn; [|congruence..].
  destruct k; cbn; congruence.
Qed.

#[export] Instance rq_feeder : FeedDecoder (RequestDecoder D) Error.t := {|
  sd_feed := rq_feed; sd_level d := blen (c_buf (rq_core d)); sd_limit d := max_buffer_size (c_limits (rq_core d));
  sd_refusal := buffer_overflow |}.

#[export] Instance rq_feeder_laws : FeedDecoderLaws (RequestDecoder D) Request.t Error.t.
Proof.
  split; cbn [sd_feed sd_level sd_limit sd_refusal rq_feeder sd_decode sd_extend sd_inv rq_stream]; intros.
  - rename select (rq_inv t) into Hi. pose proof (core_feed_cases p (rq_core t) (inv_limits _ _ (proj1 (ri_core _ Hi)))) as Hf.
    unfold rq_feed, on_core. cbn [core_of put_core rq_core_of].
    destruct (_ <=? _); [by rewrite Hf|]. destruct Hf as (e & -> & He). exists e. split; [by destruct t | done].
  - unfold rq_feed_unchecked, core_feed_unchecked, feed_unchecked. cbn. apply blen_app.
  - done.
  - rename select (rq_inv t) into Hi. split; [|by rewrite rq_decode_limits].
    pose proof (rq_decode_inv t Hi) as Hp. destruct (rq_decode t) as [t' r]. destruct Hp as (_ & _ & Hle).
    unfold rq_buffered, core_buffered, blen in *. cbn [fst]. lia.
Qed.

(** The run of [feed] against the run without a limit, on a new connection. *)
Lemma fed_requests_cases (z : D) limits ps :
  limits_ok limits ->
  fed_pieces ps (rq_new z limits) = decode_pieces ps (rq_new z limits) \/
  cut_short (fed_pieces ps (rq_new z limits)) (decode_pieces ps (rq_new z limits)).
Proof.
  intros Hl. assert (Hi : sd_inv (M := Request.t) (rq_new z limits)) by (by apply rq_new_inv).
  by apply fed_pieces_cases.
Qed.

Lemma fed_requests_fit (z : D) limits ps :
  limits_ok limits -> blen (concat ps) <= max_buffer_size limits ->
  fed_pieces ps (rq_new z limits) = decode_pieces ps (rq_new z limits).
Proof.
  intros Hl Hb. assert (Hi : sd_inv (M := Request.t) (rq_new z limits)) by (by apply rq_new_inv).
  apply fed_pieces_fit; [exact Hi | exact Hb].
Qed.

(** C3: the messages decoded, and the error that ends them, depend on the
    bytes received and not on the pieces they arrived in.  A decoder that is fed
    one or more pieces with [feed], from any state that it can reach, and
    decodes all that is ready after each, either does what it would do with any
    other pieces of the same bytes if its buffer had no limit (with
    [feed_unchecked]), or it ends with the [BufferOverflow] of a piece that was
    refused, and has decoded the first of those messages until then; and no piece
    is refused when the bytes fit [max_buffer_size] together with what is in the
    buffer. *)
Theorem requests_any_segmentation (z : D) limits d ps qs :
  limits_ok limits -> rq_reachable z limits d -> ps <> [] -> qs <> [] -> concat ps = concat qs ->
  (same_run (fed_pieces ps d) (decode_pieces qs d) \/ cut_short (fed_pieces ps d) (decode_pieces qs d)) /\
  (blen (c_buf (rq_core d)) + blen (concat ps) <= max_buffer_size (c_limits (rq_core d)) ->
   same_run (fed_pieces ps d) (fed_pieces qs d)).
Proof. intros Hl Hr Hp Hq Hc. exact (fed_pieces_any ps qs d (rq_reachable_inv z limits d Hl Hr) Hp Hq Hc). Qed.

(** ** Trailers *)

(** The calls that do not begin another message. *)
Definition rq_same_message (call : rq_call) : Prop :=
  match call with CallDecode | CallDecodeHeaders | CallReset => False | _ => True end.

Definition rq_body_call d d' : Prop := exists call, rq_same_message call /\ d' = fst (rq_step call d).

Lemma rq_body_call_declared d d' :
  rq_inv d -> rq_body_call d d' ->
  rq_inv d' /\ declared_trailers (c_body_decoder (rq_core d')) = declared_trailers (c_body_decoder (rq_core d)) /\
  c_limits (rq_core d') = c_limits (rq_core d).
Proof.
  intros Hi (call & Hc & ->). split; [by apply rq_step_inv|]. pose proof (ri_core _ Hi) as [Hi0 _].
  destruct call; cbn [rq_step rq_same_message] in *; try done; rewrite ?discard_fst; try done.
  all: unfold rq_feed, rq_mut_buf, rq_peek_body_decompressed, rq_consume_body, rq_progress; rewrite rq_on_core.
  - split; [apply feed_declared | apply (core_feed_keeps request_line_ok data _ Hi0)].
  - split; [apply mut_buf_declared | apply (core_mut_buf_keeps request_line_ok len _ Hi0)].
  - split; [apply peek_decompressed_declared | apply (core_peek_decompressed_keeps request_line_ok output _ Hi0)].
  - split; [by apply (consume_declared request_line_ok) | apply (core_consume_body_keeps request_line_ok len _ Hi0)].
  - split; [by apply (on_body_declared request_line_ok 0) | apply (core_progress_keeps request_line_ok _ Hi0)].
Qed.

(** The trailers handed out at the end of the body of the request [h]. *)
Lemma request_trailers_declared d0 d1 h k d d' len ts :
  rq_inv d0 -> rq_decode_headers d0 = (d1, Ok (Some (h, k))) -> rtc rq_body_call d1 d ->
  rq_progress d = (d', Ok (ProgressComplete ts)) \/ rq_consume_body len d = (d', Ok (ProgressComplete ts)) ->
  Forall (allowed_trailer (RequestHead.headers h)) ts /\ blen ts <= max_headers_count (c_limits (rq_core d0)).
Proof.
  intros Hi0 Hd Hs Hp. pose proof (rq_step_inv CallDecodeHeaders d0 Hi0) as [Hi1 _].
  cbn [rq_step] in Hi1. rewrite discard_fst, Hd in Hi1. cbn [fst] in Hi1.
  pose proof (decode_headers_post _ (ri_core _ Hi0)) as Hpost. revert Hd Hpost.
  unfold rq_decode_headers, on_core. cbn [core_of put_core rq_core_of].
  destruct (rq_core_decode_headers (rq_core d0)) as [c1 r]. intros [= <- ->] (_ & _ & _ & (Hlim & _) & [[_ _ Hdec _] _]).
  assert (Hall : forall d1, rtc rq_body_call d1 d -> rq_inv d1 -> rq_inv d /\
    declared_trailers (c_body_decoder (rq_core d)) = declared_trailers (c_body_decoder (rq_core d1)) /\
    c_limits (rq_core d) = c_limits (rq_core d1)).
  { clear. intros d1. induction 1 as [d1|d1 d2 d3 Hc _ IH]; [done|]. intros Hi.
    destruct (rq_body_call_declared d1 d2 Hi Hc) as (Hi2 & Hd & Hl). rewrite <- Hd, <- Hl. by apply IH. }
  destruct (Hall _ Hs Hi1) as ([[Hi _] _] & Hd & Hl). cbn [put_core rq_core_of rq_core] in Hd, Hl. rewrite Hdec in Hd.
  rewrite <- Hlim, <- Hl. revert Hp. unfold rq_progress, rq_consume_body, core_progress, core_consume_body.
  unfold on_core. cbn [core_of put_core rq_core_of]. intros [Hp|Hp].
  - destruct (on_body (consume_body 0 (c_limits (rq_core d))) (rq_core d)) as [c' r] eqn:Hb. injection Hp as _ ->.
    by apply (handed_out_ok request_line_ok _ 0 _ c').
  - destruct (len =? 0); [done|].
    destruct (on_body (consume_body len (c_limits (rq_core d))) (rq_core d)) as [c' r] eqn:Hb. injection Hp as _ ->.
    by apply (handed_out_ok request_line_ok _ len _ c').
Qed.
End Api.

(** ** Framing *)

(** How [determine_body_kind] frames a request. *)
Lemma request_framing_iff hs limits v k :
  determine_body_kind hs limits v = Ok k <->
  match k with
  | KChunked => (exists t, te_tokens hs = [t] /\ chunked_token t = true) /\ cl_values hs = [] /\ v = B "HTTP/1.1"
  | KContentLength n => te_tokens hs = [] /\ length_is n hs /\ n <= max_body_size limits
  | KNone => te_tokens hs = [] /\ cl_values hs = []
  | _ => False
  end.
Proof.
  unfold determine_body_kind, resolve_body_headers_for_request, invalid. split.
  - destruct (parse_transfer_encoding_for_request hs) as [b|e] eqn:Ht; [|done].
    destruct (parse_content_length hs) as [r|e] eqn:Hc; [|done]. cbn [mbind result_bind].
    apply parse_te_request_iff in Ht. apply parse_content_length_iff in Hc.
    destruct b; cbn [andb mbind result_bind].
    + destruct Hc as [[Hc ->]|(n & -> & _)]; [|done]. cbn [is_some mbind result_bind].
      destruct Ht as [[_ Hb]|(t & Ht & Htc & _)]; [done|].
      destruct (v =s B "HTTP/1.1") eqn:Hv; [|done]. apply beqs_eq in Hv. intros <-%Ok_inj.
      split_and!; [by exists t | done | done].
    + destruct Ht as [[Ht _]|(t & _ & _ & Hb)]; [|done].
      destruct Hc as [[Hc ->]|(n & -> & Hn)]; [by intros <-%Ok_inj|].
      destruct (max_body_size limits <? n) eqn:Hm; [done|]. intros <-%Ok_inj. by rewrite N.ltb_ge in Hm.
  - assert (Hno : te_tokens hs = [] -> parse_transfer_encoding_for_request hs = Ok false)
      by (intros; apply parse_te_request_iff; by left).
    assert (Hnc : cl_values hs = [] -> parse_content_length hs = Ok None)
      by (intros; apply parse_content_length_iff; by left).
    destruct k as [n| | | |]; try done.
    + intros (Ht & Hc & Hm).
      rewrite (Hno Ht), (proj2 (parse_content_length_iff hs (Some n))) by (right; by exists n).
      cbn [mbind result_bind andb]. by rewrite (proj2 (N.ltb_ge _ _) Hm).
    + intros ((t & Ht & Htc) & Hc & ->).
      rewrite (Hnc Hc), (proj2 (parse_te_request_iff hs true)) by (right; by exists t). done.
    + intros (Ht & Hc). by rewrite (Hno Ht), (Hnc Hc).
Qed.

(** An HTTP/1.1 request passes the Host check when it has exactly one Host
    header, whose value is empty or parses as a host; another version is not
    checked. *)
Lemma host_rule_exact hs v :
  check_host hs v = Ok tt <->
  v <> B "HTTP/1.1" \/
  exists h, List.filter (named (B "Host")) hs = [h] /\ (snd h = [] \/ is_ok (Host_parse (snd h)) = true).
Proof.
  unfold check_host, invalid. destruct (v =s B "HTTP/1.1") eqn:Hv.
  2: { apply beqs_neq in Hv. split; [by left | done]. }
  apply beqs_eq in Hv. destruct (List.filter _ hs) as [|[n x] [|h2 hs']].
  - split; [done | intros [?|(h & ? & _)]; done].
  - destruct (negb (is_empty x) && is_err (Host_parse x)) eqn:Hx.
    + split; [done|]. intros [?|(h & [= <-] & Hh)]; [done|]. cbn [snd] in Hh. unfold is_err in Hx.
      destruct Hh as [->|Hh]; [done|]. by rewrite Hh, andb_false_r in Hx.
    + split; [|done]. intros _. right. exists (n, x). split; [done|]. cbn [snd]. unfold is_err in Hx.
      destruct x; [by left|]. right. by destruct (is_ok _).
  - split; [done | intros [?|(h & ? & _)]; done].
Qed.

(** ** Concrete runs *)

Definition start : RequestDecoder NoCompression := rq_new NoCompression_new DecoderLimits_default.

Definition example_bytes : bytes :=
  B "GET /a HTTP/1.1" ++ CRLF ++ B "Host: example.com" ++ CRLF ++ B "Content-Length: 2" ++ CRLF ++ CRLF ++ B "ok".

Lemma fed_reachable data : rq_reachable NoCompression_new DecoderLimits_default (rq_feed_unchecked data start).
Proof. apply (rq_next _ _ start (CallFeedUnchecked data)), rq_start. Defined.

(** A call in each build; feeding while a slice is out panics in a debug build. *)
Definition slice_out : RequestDecoder NoCompression := fst (rq_debug_step (CallMutBuf 8) start).

Lemma slice_out_reachable : rq_debug_reachable NoCompression_new DecoderLimits_default slice_out.
Proof.
  apply (rq_debug_next NoCompression_new DecoderLimits_default start (CallMutBuf 8)); [apply rq_debug_start|].
  vm_compute. discriminate.
Defined.


Example decoded_request_valid_at :
  exists d' m, rq_decode (rq_feed_unchecked example_bytes start) = (d', Ok (Some m)) /\ Request.valid m = true.
Proof.
  eexists _, _. split; [vm_compute; reflexivity|].
  eapply (decoded_request_valid NoCompression_new DecoderLimits_default);
    [apply limits_ok_default | apply (fed_reachable example_bytes) | vm_compute; reflexivity].
Defined.

Lemma requests_any_segmentation_witness :
  same_run (fed_pieces [example_bytes] start) (fed_pieces (map (fun b => [b]) example_bytes) start).
Proof.
  pose proof (requests_any_segmentation NoCompression_new DecoderLimits_default start [example_bytes]
    (map (fun b => [b]) example_bytes) limits_ok_default (rq_start _ _)) as [_ Hs]; [done..|vm_compute; reflexivity|].
  apply Hs. vm_compute. discriminate.
Defined.

Definition trailer_bytes : bytes :=
  B "POST / HTTP/1.1" ++ CRLF ++ B "Host: a" ++ CRLF ++ B "Transfer-Encoding: chunked" ++ CRLF
  ++ B "Trailer: X-Sum" ++ CRLF ++ CRLF ++ B "0" ++ CRLF ++ B "X-Sum: 1" ++ CRLF ++ CRLF.
