(* ===== verification/ResponseDecoder.v ===== *)
(** * The response decoder ([src/decoder/response.rs]) *)
From S2P Require Import Prelude RustStd Errors Validate Trailer Framing StatusCode Head.
From S2P Require Import Buffer BodyDecoder Compression Message DecoderCore.

Record ResponseDecoder (D : Type) := {
  rs_core : Core D;
  rs_decoded_head : option ResponseHead.t;
  rs_request_method : option str
}.
Arguments rs_core {D}. Arguments rs_decoded_head {D}. Arguments rs_request_method {D}.

#[export] Instance rs_core_of D : CoreOf D (ResponseDecoder D) := {|
  core_of := rs_core;
  put_core c d := {| rs_core := c; rs_decoded_head := rs_decoded_head d;
                     rs_request_method := rs_request_method d |} |}.

(** [status_has_body]. *)
Definition status_has_body (status_code : N) : bool :=
  negb (((100 <=? status_code) && (status_code <? 200)) || (status_code =? 204) || (status_code =? 304)).

Section ResponseDecoder.
Context {D : Type} `{Decompressor D}.

Implicit Types d : ResponseDecoder D.

Definition rs_new (decompressor : D) (limits : DecoderLimits) : ResponseDecoder D :=
  {| rs_core := core_new decompressor limits; rs_decoded_head := None; rs_request_method := None |}.

Definition rs_reset d : ResponseDecoder D :=
  {| rs_core := core_reset (rs_core d); rs_decoded_head := None; rs_request_method := None |}.

Definition set_request_method (m : str) d : ResponseDecoder D :=
  {| rs_core := rs_core d; rs_decoded_head := rs_decoded_head d; rs_request_method := Some m |}.

Definition rs_feed (data : bytes) : st (ResponseDecoder D) Error.t unit := on_core (core_feed data).
Definition rs_feed_unchecked (data : bytes) d : ResponseDecoder D :=
  {| rs_core := core_feed_unchecked data (rs_core d); rs_decoded_head := rs_decoded_head d;
     rs_request_method := rs_request_method d |}.
Definition rs_mut_buf (len : N) : st (ResponseDecoder D) Error.t unit := on_core (core_mut_buf len).
Definition rs_advance_buf (len : N) d : ResponseDecoder D :=
  {| rs_core := core_advance_buf len (rs_core d); rs_decoded_head := rs_decoded_head d;
     rs_request_method := rs_request_method d |}.
Definition rs_available_buf d : N := core_available_buf (rs_core d).
Definition rs_remaining d : bytes := core_remaining (rs_core d).
Definition rs_limits d : DecoderLimits := c_limits (rs_core d).
Definition rs_is_tunnel d : bool := core_is_tunnel (rs_core d).
Definition rs_take_remaining d : ResponseDecoder D * bytes :=
  let '(c, b) := core_take_remaining (rs_core d) in
  ({| rs_core := c; rs_decoded_head := rs_decoded_head d;
     rs_request_method := rs_request_method d |}, b).
Definition rs_peek_body_decompressed (output : bytes) :
    st (ResponseDecoder D) Error.t (option CompressionStatus * bytes) :=
  on_core (core_peek_body_decompressed output).
Definition rs_consume_body (len : N) : st (ResponseDecoder D) Error.t BodyProgress :=
  on_core (core_consume_body len).
Definition rs_progress : st (ResponseDecoder D) Error.t BodyProgress := on_core core_progress.
Definition rs_peek_body d : option bytes := core_peek_body (rs_core d).

Definition mark_eof d : ResponseDecoder D :=
  match c_phase (rs_core d) with
  | BodyCloseDelimited =>
      {| rs_core := set_phase Complete (rs_core d); rs_decoded_head := rs_decoded_head d;
         rs_request_method := rs_request_method d |}
  | _ => d
  end.

Definition is_close_delimited d : bool := bool_decide (c_phase (rs_core d) = BodyCloseDelimited).

(** [self.request_method.as_deref().is_some_and(|m| m == name)]. *)
Definition method_is (name : string) (request_method : option str) : bool :=
  match request_method with Some m => m =s B name | None => false end.

(** [self.headers.retain(..)] for a tunnel: no framing headers. *)
Definition drop_framing (hs : list (str * str)) : list (str * str) :=
  List.filter (fun h => negb (named (B "Transfer-Encoding") h) && negb (named (B "Content-Length") h)) hs.

(** [determine_body_kind]: the kind and the headers it leaves. *)
Definition determine_body_kind_response (request_method start_line : option str)
    (limits : DecoderLimits) (status_code : N) (hs : list (str * str)) :
    result Error.t (BodyKind * list (str * str)) :=
  if method_is "HEAD" request_method || negb (status_has_body status_code) then Ok (KNone, hs)
  else if method_is "CONNECT" request_method && ((200 <=? status_code) && (status_code <? 300))
  then Ok (KTunnel, drop_framing hs)
  else
    let version := match start_line with Some sl => hd [] (split " " sl) | None => [] end in
    if negb (version =s B "HTTP/1.1") && existsb (named (B "Transfer-Encoding")) hs
    then invalid "Transfer-Encoding is only defined for HTTP/1.1"
    else
      '(te_result, content_length) ← resolve_body_headers_for_response hs;
      match te_result with
      | TeChunked => Ok (KChunked, hs)
      | TeOther => Ok (KCloseDelimited, hs)
      | TeNone =>
          match content_length with
          | Some len =>
              if max_body_size limits <? len
              then Err (Error.BodyTooLarge (N.min len usize_MAX) (max_body_size limits))
              else Ok (KContentLength len, hs)
          | None => Ok (KCloseDelimited, hs)
          end
      end.

(** The checks of a status line. *)
Definition check_status_line (line : str) : result Error.t unit :=
  if contains_byte CR line || contains_byte LF line
  then invalid "invalid status line: contains CR/LF"
  else
    match splitn 3 " " line with
    | version :: status :: reason =>
        if negb (is_valid_protocol_version version)
        then invalid "invalid status line: invalid protocol version"
        else
          status_code ←
            ok_or (Error.InvalidData (B "invalid status line: invalid status code: " ++ status))
              (parse_u16 status);
          if negb (is_valid_status_code status_code)
          then Err (Error.InvalidData (B "invalid status line: status code out of range: "
                                         ++ show_dec status_code))
          else
            match reason with
            | r :: _ =>
                if negb (is_empty r) && negb (is_valid_reason_phrase r)
                then invalid "invalid status line: invalid reason-phrase"
                else Ok tt
            | [] => Ok tt
            end
    | _ => Err (Error.InvalidData (B "invalid status line: " ++ line))
    end.

(** The empty line after the headers. *)
Definition response_head_done :
    st (ResponseDecoder D) Error.t (flow (option (ResponseHead.t * BodyKind))) :=
  _ ← on_core (core_drain 2);
  d ← get;
  start_line ← lift (ok_or (Error.InvalidData (B "missing status line")) (c_start_line (rs_core d)));
  let parts := splitn 3 " " start_line in
  status ← unwrap (parts !! 1%nat);
  status_code ← lift (ok_or (Error.InvalidData (B "invalid status code: " ++ status))
                        (parse_u16 status));
  '(body_kind, hs) ← lift (determine_body_kind_response (rs_request_method d)
                             (c_start_line (rs_core d)) (c_limits (rs_core d)) status_code
                             (c_headers (rs_core d)));
  _ ← on_core (modify (set_headers hs));
  _ ← on_core (enter_body BodyCloseDelimited body_kind);
  _ ← on_core (modify (set_start_line None));
  version ← unwrap (parts !! 0%nat);
  hs ← gets (fun d => c_headers (rs_core d));
  _ ← on_core (modify (set_headers []));
  mret (Break (Some (ResponseHead.from_validated_parts version status_code
                       (default [] (parts !! 2%nat)) hs, body_kind))).

(** [DecodePhase::Complete]: the request method belongs to one response. *)
Definition rs_next_message d : ResponseDecoder D :=
  {| rs_core := core_next_message (rs_core d); rs_decoded_head := rs_decoded_head d;
     rs_request_method := None |}.

(** One round of the [loop] of [decode_headers]. *)
Definition response_round : st (ResponseDecoder D) Error.t (flow (option (ResponseHead.t * BodyKind))) :=
  head_round check_status_line response_head_done rs_next_message.

Definition rs_decode_headers : st (ResponseDecoder D) Error.t (option (ResponseHead.t * BodyKind)) :=
  read_head response_round.

(** The first part of [decode]: [false] is [return Ok(None)]. *)
Definition rs_decode_head : st (ResponseDecoder D) Error.t bool := fun d =>
  match rs_decoded_head d with
  | Some _ => (d, Ok true)
  | None =>
      match c_phase (rs_core d) with
      | StartLine | Headers =>
          (r ← rs_decode_headers;
           match r with
           | Some (head, body_kind) =>
               _ ← modify (fun d => {| rs_core := set_decoded_body_kind (Some body_kind) (rs_core d);
                                       rs_decoded_head := Some head;
                                       rs_request_method := rs_request_method d |});
               mret true
           | None => mret false
           end) d
      | _ => fail "decode cannot be mixed with streaming API" d
      end
  end.

(** The close-delimited body of [decode]. *)
Definition close_delimited_round : st (Core D) Error.t bool := fun c =>
  (peeked ← core_peek;
   _ ← match peeked with
       | Some data =>
           let limit := max_body_size (c_limits c) in
           match checked_add (blen (c_decoded_body c)) (blen data) with
           | None => throw (Error.BodyTooLarge usize_MAX limit)
           | Some new_size =>
               if limit <? new_size then throw (Error.BodyTooLarge new_size limit)
               else
                 _ ← modify (fun c => set_decoded_body (c_decoded_body c ++ data) c);
                 _ ← core_consume_body (blen data);
                 mret tt
           end
       | None => mret tt
       end;
   p ← gets c_phase;
   mret (bool_decide (p = Complete))) c.

Definition rs_decode_body (k : BodyKind) : st (Core D) Error.t bool :=
  match k with
  | KTunnel =>
      fail "decode() cannot be used in tunnel mode, use take_remaining() instead"
  | KContentLength _ | KChunked => body_loop
  | KCloseDelimited => close_delimited_round
  | KNone => mret true
  end.

Definition rs_finish (k : BodyKind) : st (ResponseDecoder D) Error.t Response.t :=
  head ← (d ← get; unwrap (rs_decoded_head d));
  _ ← modify (fun d => {| rs_core := rs_core d; rs_decoded_head := None;
                          rs_request_method := rs_request_method d |});
  body ← on_core (body_of_kind k);
  _ ← on_core (modify core_message_done);
  _ ← modify (fun d => {| rs_core := rs_core d; rs_decoded_head := rs_decoded_head d;
                          rs_request_method := None |});
  mret (Response.from_raw_parts (ResponseHead.version head) (ResponseHead.status_code head)
          (ResponseHead.reason_phrase head) (ResponseHead.headers head) body).

(** [decode]. *)
Definition rs_decode : st (ResponseDecoder D) Error.t (option Response.t) :=
  have_head ← rs_decode_head;
  if negb have_head then mret None
  else
    k ← (d ← get; unwrap (c_decoded_body_kind (rs_core d)));
    have_body ← on_core (rs_decode_body k);
    if negb have_body then mret None
    else r ← rs_finish k; mret (Some r).
End ResponseDecoder.
