(* ===== verification/ResponseFacts.v ===== *)
(** * Facts about the response decoder

    The status line; the head and the framing of the body; and that
    [decode_headers] and [decode] keep their invariant, end normally and can
    be cut at any point of the input. *)
From S2P Require Import Prelude RustStd Errors Validate Trailer Framing StatusCode Head.
From S2P Require Import Buffer BodyDecoder BodyFacts Compression Message DecoderCore CoreFacts CoreApi HeadFacts Stream.
From S2P Require Import ResponseDecoder.

(** ** The status line *)

(** A status line with version [v], status [s] of value [code], and [reason],
    which is empty when there is none. *)
Record status_line_parts (l v s : str) (code : N) (reason : str) : Prop := {
  sl_line : l = v ++ " "%byte :: s ++ " "%byte :: reason \/ (l = v ++ " "%byte :: s /\ reason = []);
  sl_one_line : contains_byte CR l = false /\ contains_byte LF l = false;
  sl_version : is_valid_protocol_version v = true;
  sl_no_space : contains_byte " " s = false;
  sl_status : parse_u16 s = Some code;
  sl_code : is_valid_status_code code = true;
  sl_reason : reason = [] \/ is_valid_reason_phrase reason = true
}.

Lemma version_no_space v : is_valid_protocol_version v = true -> contains_byte " " v = false.
Proof. intros [_ H]%protocol_version_chars. by eapply contains_byte_forallb; [exact H|]. Qed.

(** The parts by [splitn(3, ' ')], and the version by [split(' ')]. *)
Lemma status_line_split l v s code reason :
  status_line_parts l v s code reason ->
  exists rest, splitn 3 " " l = v :: s :: rest /\ hd [] rest = reason /\ hd [] (split " " l) = v.
Proof.
  intros [Hl _ Hv Hs _ _ _]. apply version_no_space in Hv.
  destruct Hl as [-> | [-> ->]]; cbn [splitn]; rewrite (split_once_app " " v), split_app by done.
  - rewrite (split_once_app " " s) by done. by exists [reason].
  - rewrite (proj2 (split_once_None " " s)) by done. by exists [].
Qed.

Lemma check_status_line_iff l :
  check_status_line l = Ok tt <-> exists v s code reason, status_line_parts l v s code reason.
Proof.
  unfold check_status_line, invalid. split.
  - destruct (contains_byte CR l || contains_byte LF l) eqn:Hcl; [done|]. apply orb_false_iff in Hcl.
    cbn [splitn]. destruct (split_once " " l) as [[v r]|] eqn:Hl; [|done]. apply split_once_Some in Hl as [Hl _].
    assert (Hfinish : forall s rest,
      contains_byte " " s = false ->
      (l = v ++ " "%byte :: s ++ " "%byte :: hd [] rest \/ (l = v ++ " "%byte :: s /\ hd [] rest = [])) ->
      (if negb (is_valid_protocol_version v)
       then Err (Error.InvalidData (B "invalid status line: invalid protocol version"))
       else status_code ← ok_or (Error.InvalidData (B "invalid status line: invalid status code: " ++ s)) (parse_u16 s);
         if negb (is_valid_status_code status_code)
         then Err (Error.InvalidData (B "invalid status line: status code out of range: " ++ show_dec status_code))
         else match rest with
              | r :: _ => if negb (is_empty r) && negb (is_valid_reason_phrase r)
                          then Err (Error.InvalidData (B "invalid status line: invalid reason-phrase")) else Ok tt
              | [] => Ok tt
              end) = Ok tt ->
      exists v s code reason, status_line_parts l v s code reason).
    { intros s rest Hs Hls. destruct (is_valid_protocol_version v) eqn:Hv; [|done]. cbn [negb].
      destruct (parse_u16 s) as [code|] eqn:Hc; [|done]. cbn [ok_or mbind result_bind].
      destruct (is_valid_status_code code) eqn:Hcv; [|done]. cbn [negb]. intros Hr.
      exists v, s, code, (hd [] rest). split; try done. destruct rest as [|x rest]; [by left|]. cbn [hd].
      destruct x; [by left|]. right. cbn [is_empty negb andb] in Hr. by destruct (is_valid_reason_phrase _). }
    destruct (split_once " " r) as [[s reason]|] eqn:Hr.
    + apply split_once_Some in Hr as [-> Hs]. apply (Hfinish s [reason]); [done|by left].
    + apply (Hfinish r []); [by apply split_once_None | by right].
  - intros (v & s & code & reason & Hp). pose proof (status_line_split _ _ _ _ _ Hp) as (rest & -> & Hr & _).
    destruct Hp as [_ [-> ->] -> _ -> Hc Hreason]. cbn [orb negb ok_or mbind result_bind]. rewrite Hc. cbn [negb].
    destruct rest as [|x rest]; [done|]. cbn [hd] in Hr. subst x.
    destruct Hreason as [-> | ->]; [done|]. by rewrite andb_false_r.
Qed.

Definition status_line_ok (l : str) : Prop := check_status_line l = Ok tt.

(** ** The head *)

Lemma drop_framing_length hs : blen (drop_framing hs) <= blen hs.
Proof.
  unfold drop_framing. induction hs as [|h hs IH]; cbn [List.filter]; [done|].
  destruct (_ && _); rewrite ?blen_cons; lia.
Qed.

Lemma drop_framing_ok hs : forallb sendable hs = true -> forallb sendable (drop_framing hs) = true.
Proof.
  rewrite !forallb_forall. intros Hf h [Hin _]%filter_In. by apply Hf.
Qed.

Lemma method_is_Some name m : method_is name m = true <-> m = Some (B name).
Proof. destruct m as [x|]; cbn; [|done]. rewrite beqs_eq. split; [by intros -> | by intros [= ->]]. Qed.

(** The headers left are among those received, and a length is under the limit. *)
Lemma determine_response_ok m sl limits code hs k hs' :
  determine_body_kind_response m sl limits code hs = Ok (k, hs') ->
  length_ok limits k /\ (hs' = hs \/ hs' = drop_framing hs) /\ (k = KTunnel -> hs' = drop_framing hs).
Proof.
  unfold determine_body_kind_response, invalid. destruct (_ || _); [by intros [= <- <-]%Ok_inj; split_and!; auto|].
  destruct (_ && _); [by intros [= <- <-]%Ok_inj; split_and!; auto|].
  destruct (negb _ && _); [done|]. destruct (resolve_body_headers_for_response hs) as [[[| |] [n|]]|]; [..|done];
    cbn [mbind result_bind]; try (by intros [= <- <-]%Ok_inj; split_and!; auto).
  destruct (max_body_size limits <? n) eqn:Hn; [done|]. intros [= <- <-]%Ok_inj. cbn. split_and!; [lia|by auto|done].
Qed.

Section ResponseFacts.
Context {D : Type} `{Decompressor D}.

Implicit Types d : ResponseDecoder D.

#[export] Instance rs_core_laws : CoreOfLaws D (ResponseDecoder D).
Proof. split; try done. by intros []. Qed.

Definition response_kind l (code : N) d : result Error.t (BodyKind * list (str * str)) :=
  determine_body_kind_response (rs_request_method d) (Some l) (c_limits (rs_core d)) code
    (c_headers (rs_core d)).

Lemma response_head_done_eq d l v s code reason :
  c_start_line (rs_core d) = Some l -> status_line_parts l v s code reason -> (2 <= length (c_buf (rs_core d)))%nat ->
  response_head_done d =
    let c := rs_core d in
    let c1 := set_buf (drop 2 (c_buf c)) c in
    match response_kind l code d with
    | Err e => (put_core c1 d, Err (Throw e))
    | Ok (k, hs) =>
        (put_core (entered BodyCloseDelimited k (set_headers hs c1)) d,
         Ok (Break (Some (ResponseHead.from_validated_parts v code reason hs, k))))
    end.
Proof.
  intros Hl Hp Hn. pose proof (status_line_split _ _ _ _ _ Hp) as (rest & Hs & Hr & _).
  assert (Hreason : default [] (rest !! 0%nat) = reason) by (rewrite <- Hr; by destruct rest).
  unfold response_head_done. unfold mbind at 1, st_bind at 1, on_core at 1. cbn [core_of rs_core_of]. rewrite (core_drain_le _ _ Hn).
  unfold response_kind, on_core, mbind, st_bind, modify, get, lift.
  cbn [core_of put_core rs_core_of rs_core rs_request_method rs_decoded_head]. cs. rewrite Hl.
  cbn [ok_or map_err]. rewrite Hs. cbn [lookup list_lookup unwrap].
  unfold unwrap, mret, st_ret. rewrite (sl_status _ _ _ _ _ Hp). cbn [ok_or map_err].
  destruct (determine_body_kind_response _ _ _ _ _) as [[k hs]|e]; cbn [map_err]; [|done].
  unfold entered, gets, enter_body, mbind, st_bind, modify. cbn [rs_core rs_decoded_head rs_request_method]. cs.
  cbn [lookup list_lookup]. rewrite <- Hreason. by destruct rest.
Qed.

(** A decoded head with the kind of its body, in the state after it. *)
Record rs_head_decoded (h : ResponseHead.t) (k : BodyKind) d : Prop := {
  rd_valid : ResponseHead.valid h = true;
  rd_reason : utf8_valid (ResponseHead.reason_phrase h) = true;
  rd_headers : forallb sendable (ResponseHead.headers h) = true;
  rd_count : blen (ResponseHead.headers h) <= max_headers_count (c_limits (rs_core d));
  rd_kind : length_ok (c_limits (rs_core d)) k;
  (** The framing rules, applied to the headers received. *)
  rd_framing : exists l hs,
    hd [] (split " " l) = ResponseHead.version h /\
    determine_body_kind_response (rs_request_method d) (Some l) (c_limits (rs_core d))
      (ResponseHead.status_code h) hs = Ok (k, ResponseHead.headers h);
  rd_declared : declared_trailers (c_body_decoder (rs_core d)) = collect_declared_trailers (ResponseHead.headers h);
  rd_phase : c_phase (rs_core d) = phase_after_head BodyCloseDelimited k
}.

(** Reading a head keeps a head that was decoded before. *)
Definition keep_head d d' : Prop := rs_decoded_head d' = rs_decoded_head d.

#[local] Instance keep_head_preorder : PreOrder keep_head.
Proof. split; [done|]. unfold keep_head. intros d1 d2 d3. congruence. Qed.

Lemma status_line_valid l v s code reason hs :
  status_line_parts l v s code reason -> forallb header_ok hs = true ->
  ResponseHead.valid (ResponseHead.from_validated_parts v code reason hs) = true.
Proof.
  intros [_ _ Hv _ _ Hc Hr] Hh. unfold ResponseHead.valid. cbn. rewrite Hv, Hc, Hh.
  destruct Hr as [-> | ->]; [done|]. by rewrite orb_true_r.
Qed.

(** The reason is a string: the line is, and what is before the reason is ASCII. *)
Lemma status_line_utf8 l v s code reason :
  status_line_parts l v s code reason -> utf8_valid l = true -> utf8_valid reason = true.
Proof.
  intros [Hl _ Hv _ Hs _ _] Hu. destruct Hl as [-> | [-> ->]]; [|done].
  change (v ++ " "%byte :: s ++ " "%byte :: reason) with (v ++ B " " ++ s ++ B " " ++ reason) in Hu.
  rewrite !app_assoc, <- (app_nil_r reason), <- !app_assoc, !(app_assoc _ _ (reason ++ [])) in Hu.
  apply utf8_between in Hu; [done| |done]. apply protocol_version_chars in Hv as [_ Hv].
  rewrite !forallb_app, !andb_true_iff. split_and!; try done.
  - revert Hv. apply forallb_impl. intros b. byte_solve b.
  - eapply from_str_radix_ascii, Hs.
Qed.

(** Other headers of a head that is complete. *)
Lemma set_headers_inv line_ok hs (c : Core D) :
  core_inv line_ok c -> forallb sendable hs = true -> blen hs <= max_headers_count (c_limits c) ->
  core_inv line_ok (set_headers hs c).
Proof. intros [I1 [B1 B2 B3] I3 I4 I5 I6] Hh Hn. by split; [|split|..]. Qed.

Lemma response_head_end : head_end status_line_ok keep_head rs_head_decoded response_head_done.
Proof.
  split; intros; rename select (head_inv _ _) into Hi;
    rename select (c_phase _ = Headers) into Hp; rename select (_ <= _)%nat into Hlen;
    pose proof Hi as [I1 _ I3 I4 I5 I6]; cbn [core_of rs_core_of] in *;
    destruct (I4 Hp) as (l & Hl & Hu & (v & s & code & reason & Hlp)%check_status_line_iff).
  - pose proof (drained_buffered 2 (rs_core t) ltac:(lia) Hlen) as Hb.
    rewrite (response_head_done_eq t l v s code reason Hl Hlp Hlen). cbv zeta.
    destruct (response_kind l code t) as [[k hs]|e] eqn:Hk.
    + pose proof (determine_response_ok _ _ _ _ _ _ _ Hk) as (Hlen2 & Hhs & _).
      assert (Hh : forallb sendable hs = true /\ blen hs <= max_headers_count (c_limits (rs_core t))).
      { pose proof (drop_framing_ok _ I5). pose proof (drop_framing_length (c_headers (rs_core t))).
        destruct Hhs as [-> | ->]; (split; [done | lia]). }
      destruct Hh as [Hh Hn]. split_and!; [|split|done|done].
      * apply (entered_inv _ _ _ (set_headers hs (rs_core t))); [by apply set_headers_inv | done | by right | done].
      * by eapply status_line_valid, sendable_header_ok.
      * by apply (status_line_utf8 l v s code).
      * done.
      * done.
      * done.
      * exists l, (c_headers (rs_core t)). split; [|done].
        by pose proof (status_line_split _ _ _ _ _ Hlp) as (_ & _ & _ & ->).
      * done.
      * done.
    + split_and!; [by apply drained_inv | unfold tbuffered; cbn [core_of rs_core_of put_core rs_core]; lia | done | done | by eauto].
  - assert (Hl2 : c_start_line (rs_core (extend_core y t)) = Some l) by exact Hl.
    assert (Hlen2 : (2 <= length (c_buf (rs_core (extend_core y t))))%nat) by (cbn; rewrite length_app; lia).
    rewrite (response_head_done_eq t l v s code reason Hl Hlp Hlen).
    rewrite (response_head_done_eq (extend_core y t) l v s code reason Hl2 Hlp Hlen2).
    cbv zeta. change (response_kind l code (extend_core y t)) with (response_kind l code t).
    unfold extend_core.
    cbn [core_of put_core rs_core_of rs_core rs_decoded_head rs_request_method]. cs. rewrite drop_app_le by lia.
    by destruct (response_kind l code t) as [[k hs]|e].
Qed.

Lemma response_reader :
  head_reader status_line_ok keep_head check_status_line rs_head_decoded response_head_done rs_next_message.
Proof. split; [apply _ | done | done | apply response_head_end | done]. Qed.

(** ** The body *)

(** Where [decode] can be with a body of kind [k]. *)
Definition kind_phase (k : BodyKind) (p : DecodePhase) : Prop :=
  match k with
  | KContentLength _ | KChunked => p <> BodyCloseDelimited
  | KCloseDelimited => p = BodyCloseDelimited \/ p = Complete
  | KNone | KTunnel => True
  end.

Lemma kind_phase_after_head k : kind_phase k (phase_after_head BodyCloseDelimited k).
Proof. destruct k as [n| | | |]; cbn; try destruct (0 <? n); auto. Qed.

Implicit Types c : Core D.

Lemma close_delimited_inv c :
  core_inv status_line_ok c ->
  let '(c', r) := close_delimited_round c in
  core_inv status_line_ok c' /\ orderly r /\ (core_buffered c' <= core_buffered c)%nat /\
  c_decoded_body_kind c' = c_decoded_body_kind c /\ c_limits c' = c_limits c.
Proof.
  intros Hi. unfold close_delimited_round, mbind, st_bind, gets. rewrite core_peek_eq.
  destruct (core_peek_body c) as [data|]; [|by split_and!].
  rewrite checked_add_eq. destruct (usize_MAX <? _); [by split_and!|].
  unfold throw. destruct (max_body_size (c_limits c) <? _); [by split_and!|].
  unfold modify. set (c1 := set_decoded_body _ c).
  assert (Hi1 : core_inv status_line_ok c1) by (destruct Hi as [I1 [B1 B2 B3] I3 I4 I5 I6]; by split; [|split|..]).
  destruct (core_consume_body_keeps _ (blen data) c1 Hi1) as (H1 & H2 & H3 & H4 & _).
  pose proof (core_consume_body_shrinks status_line_ok (blen data) c1 Hi1) as H5.
  destruct (core_consume_body (blen data) c1) as [c2 [p|e]]; by split_and!.
Qed.

Lemma rs_body_inv k c :
  core_inv status_line_ok c ->
  let '(c', r) := rs_decode_body k c in
  core_inv status_line_ok c' /\ orderly r /\ (core_buffered c' <= core_buffered c)%nat /\
  c_decoded_body_kind c' = c_decoded_body_kind c /\ c_limits c' = c_limits c.
Proof.
  intros Hi. destruct k; cbn [rs_decode_body]; try by split_and!.
  3: by apply close_delimited_inv.
  all: destruct (body_loop c) as [c' r] eqn:Hl; pose proof (body_loop_inv _ c Hi) as Hb.
  all: rewrite Hl in Hb; destruct Hb as (H1 & H2 & H3 & H4 & H5 & d & s & Hc); cbn [fst snd] in *.
  all: split_and!; try done; by rewrite Hc.
Qed.

(** ** Cutting a close-delimited body *)

(** A body over the limit is one error to a caller: the size reported is that
    of the piece that went over it. *)
Definition same_error (e1 e2 : exn Error.t) : Prop :=
  e1 = e2 \/ exists s1 s2 l, e1 = Throw (Error.BodyTooLarge s1 l) /\ e2 = Throw (Error.BodyTooLarge s2 l).

#[export] Instance same_error_equiv : Equivalence same_error.
Proof.
  split.
  - by left.
  - intros e1 e2 [->|(s1 & s2 & l & -> & ->)]; [by left|]. right. by exists s2, s1, l.
  - intros e1 e2 e3 [->|(s1 & s2 & l & -> & ->)] H2; [done|].
    destruct H2 as [<-|(s3 & s4 & l2 & [= <- <-] & ->)]; right; [by exists s1, s2, l | by exists s1, s4, l].
Qed.

(** All that was received, taken into the body. *)
Definition absorbed c : Core D :=
  set_buf [] (set_decoded_body (c_decoded_body c ++ c_buf c)
    (set_body_decoder (set_body_consumed (body_consumed (c_body_decoder c) + blen (c_buf c)) (c_body_decoder c)) c)).

Definition absorbs c : Prop :=
  blen (c_decoded_body c) + blen (c_buf c) <= max_body_size (c_limits c) /\
  body_consumed (c_body_decoder c) + blen (c_buf c) <= max_body_size (c_limits c).

Lemma close_round_spec c :
  limits_ok (c_limits c) -> c_phase c = BodyCloseDelimited ->
  (c_buf c = [] /\ close_delimited_round c = (c, Ok false)) \/
  (c_buf c <> [] /\ absorbs c /\ close_delimited_round c = (absorbed c, Ok false)) \/
  (c_buf c <> [] /\ ~ absorbs c /\
   exists c' s, c_phase c' = BodyCloseDelimited /\
     close_delimited_round c = (c', Err (Throw (Error.BodyTooLarge s (max_body_size (c_limits c)))))).
Proof.
  intros (_ & _ & _ & Hmax & _) Hp.
  unfold close_delimited_round, mbind, st_bind, gets. rewrite core_peek_eq.
  unfold core_peek_body. rewrite Hp, peek_body_close.
  destruct (c_buf c) as [|b buf] eqn:Hb.
  { left. split; [done|]. cbn [is_empty]. unfold mret, st_ret. by rewrite Hp. }
  right. cbn [is_empty]. rewrite <- Hb in *. assert (Hne : c_buf c <> []) by (by rewrite Hb).
  assert (Hpos : 0 < blen (c_buf c)) by (rewrite Hb, blen_cons; lia).
  rewrite checked_add_eq. unfold absorbs.
  destruct (usize_MAX <? _) eqn:H1.
  { right. split; [done|]. split; [lia|]. by eexists _, _; split; [|done]. }
  destruct (max_body_size (c_limits c) <? _) eqn:H2.
  { right. split; [done|]. split; [lia|]. by eexists _, _; split; [|done]. }
  unfold modify, core_consume_body. rewrite (proj2 (N.eqb_neq _ 0)) by lia.
  unfold on_body. cs. rewrite consume_close_eq by done. bs.
  rewrite N.ltb_irrefl, (proj2 (N.eqb_neq (blen (c_buf c)) 0)) by lia.
  rewrite checked_add_eq. destruct (usize_MAX <? body_consumed _ + _) eqn:H3.
  { right. split; [done|]. split; [lia|]. by eexists _, _; split; [|done]. }
  destruct (max_body_size (c_limits c) <? body_consumed _ + _) eqn:H4.
  { right. split; [done|]. split; [lia|]. by eexists _, _; split; [|done]. }
  left. split; [done|]. split; [lia|]. unfold with_self, drain. cs.
  rewrite (drop_ge (c_buf c)) by (unfold blen; lia). cs. unfold mret, st_ret, absorbed.
  destruct c. cbn in *. by subst.
Qed.

(** More input can only make the body larger. *)
Lemma absorbs_extend y c : absorbs (core_extend y c) -> absorbs c.
Proof. unfold absorbs. cs. rewrite blen_app. lia. Qed.

Lemma absorbs_absorbed y c : absorbs (core_extend y (absorbed c)) <-> absorbs (core_extend y c).
Proof. unfold absorbs, absorbed, set_body_consumed. cs. cbn [body_consumed]. rewrite !blen_app, blen_nil. lia. Qed.

Lemma absorbed_absorbed y c : absorbed (core_extend y (absorbed c)) = absorbed (core_extend y c).
Proof.
  unfold absorbed, set_body_consumed. cs. cbn [body_consumed trailers trailer_count declared_trailers].
  rewrite !app_nil_l, blen_app, N.add_assoc, app_assoc. done.
Qed.

Lemma close_round_extend y c :
  core_inv status_line_ok c -> c_phase c = BodyCloseDelimited ->
  match close_delimited_round c with
  | (c', Ok true) => False
  | (c', Ok false) =>
      c_phase c' = BodyCloseDelimited /\ c_limits c' = c_limits c /\
      same_outcome same_error (close_delimited_round (core_extend y c)) (close_delimited_round (core_extend y c'))
  | (_, Err e) => exists e', snd (close_delimited_round (core_extend y c)) = Err e' /\ same_error e' e
  end.
Proof.
  intros Hi Hp. pose proof (inv_limits _ _ Hi) as Hl.
  destruct (close_round_spec c Hl Hp) as [(Hb & ->)|[(Hb & Ha & ->)|(Hb & Ha & c' & s & _ & ->)]].
  - split_and!; [done..|]. by apply same_outcome_refl, _.
  - split_and!; [done..|].
    assert (Hbe : c_buf (core_extend y c) <> []) by (cs; by destruct (c_buf c)).
    destruct (close_round_spec (core_extend y c) Hl Hp) as [(H1 & _)|[(_ & H1 & ->)|(_ & H1 & c1 & s1 & _ & ->)]]; [done|..];
      destruct (close_round_spec (core_extend y (absorbed c)) Hl Hp)
        as [(H2 & ->)|[(_ & H2 & ->)|(_ & H2 & c2 & s2 & _ & ->)]]; rewrite ?absorbs_absorbed in *; try done.
    + split; [|done]. unfold absorbed in H2. cs. cbn in H2. subst y. unfold core_extend, absorbed. cs.
      by rewrite !app_nil_r.
    + by rewrite absorbed_absorbed.
    + exfalso. unfold absorbed in H2. cbn in H2. subst y. apply H1. unfold absorbs, core_extend in *. cs.
      by rewrite app_nil_r.
    + right. by exists s1, s2, (max_body_size (c_limits c)).
  - assert (Hbe : c_buf (core_extend y c) <> []) by (cs; by destruct (c_buf c)).
    destruct (close_round_spec (core_extend y c) Hl Hp) as [(H1 & _)|[(_ & H1 & _)|(_ & H1 & c1 & s1 & _ & ->)]]; [done|..].
    + by apply absorbs_extend in H1.
    + eexists. split; [done|]. right. by exists s1, s, (max_body_size (c_limits c)).
Qed.

(** The body part of [decode]. *)
Lemma rs_body_ext y k c :
  core_inv status_line_ok c -> kind_phase k (c_phase c) ->
  match rs_decode_body k c with
  | (c', Ok true) => rs_decode_body k (core_extend y c) = (core_extend y c', Ok true)
  | (c', Ok false) =>
      kind_phase k (c_phase c') /\
      same_outcome same_error (rs_decode_body k (core_extend y c)) (rs_decode_body k (core_extend y c'))
  | (_, Err e) => exists e', snd (rs_decode_body k (core_extend y c)) = Err e' /\ same_error e' e
  end.
Proof.
  intros Hi Hk.
  assert (Hloop : c_phase c <> BodyCloseDelimited ->
    match body_loop c with
    | (c', Ok true) => body_loop (core_extend y c) = (core_extend y c', Ok true)
    | (c', Ok false) =>
        c_phase c' <> BodyCloseDelimited /\
        same_outcome same_error (body_loop (core_extend y c)) (body_loop (core_extend y c'))
    | (_, Err e) => exists e', snd (body_loop (core_extend y c)) = Err e' /\ same_error e' e
    end).
  { intros Hn. destruct (body_loop c) as [c' r] eqn:Hl. pose proof (body_loop_ext _ y c c' r (conj Hi Hn) Hl) as He.
    destruct r as [[]|e]; [done| |].
    - destruct He as [[_ Hn'] ->]. split; [done|]. by apply same_outcome_refl, _.
    - exists e. rewrite He. split; [done | by left]. }
  destruct k; cbn [rs_decode_body kind_phase] in *; [by apply Hloop|by apply Hloop| |done|].
  - destruct Hk as [Hk | Hk].
    + pose proof (close_round_extend y c Hi Hk) as He.
      destruct (close_delimited_round c) as [c' [[]|e]]; [done| |done]. destruct He as (He & _ & ?). auto.
    + assert (Hd : forall c0, c_phase c0 = Complete -> close_delimited_round c0 = (c0, Ok true)).
      { intros c0 Hc0. unfold close_delimited_round, mbind, st_bind, gets. rewrite core_peek_eq. unfold core_peek_body. rewrite Hc0.
        unfold peek_body, peek_len, mret, st_ret. by rewrite Hc0. }
      rewrite (Hd c Hk). by apply Hd.
  - eexists. split; [done|]. by left.
Qed.

Lemma rs_body_in_step k c :
  core_inv status_line_ok c -> kind_phase k (c_phase c) -> kind_phase k (c_phase (fst (rs_decode_body k c))).
Proof.
  intros Hi Hk.
  pose proof (body_loop_inv _ c Hi) as (_ & _ & _ & _ & Hn & _).
  destruct k; cbn [rs_decode_body kind_phase fst] in *; try done; try (intros Hx; by apply Hk, Hn).
  destruct Hk as [Hk | Hk].
  - left. destruct (close_round_spec c (inv_limits _ _ Hi) Hk) as [(_ & ->)|[(_ & _ & ->)|(_ & _ & c' & s & Hp & ->)]]; done.
  - right. unfold close_delimited_round, mbind, st_bind, gets. rewrite core_peek_eq. unfold core_peek_body, peek_body, peek_len. rewrite Hk. cbn. by rewrite Hk.
Qed.

(** ** The decoder *)

Definition rs_extend (y : bytes) d : ResponseDecoder D := extend_core y d.

Definition rs_buffered d : nat := core_buffered (rs_core d).

Record rs_inv d : Prop := {
  rsi_core : core_inv status_line_ok (rs_core d);
  (** A head that waits for its body is valid and can be sent on, and its kind is known. *)
  rsi_head : forall h, rs_decoded_head d = Some h ->
    (ResponseHead.valid h = true /\ utf8_valid (ResponseHead.reason_phrase h) = true /\
     forallb sendable (ResponseHead.headers h) = true) /\
    exists k, c_decoded_body_kind (rs_core d) = Some k
}.

(** The phase belongs to the body that [decode] waits for: so it is as long as
    the streaming calls are not mixed in. *)
Definition in_step d : Prop :=
  forall h k, rs_decoded_head d = Some h -> c_decoded_body_kind (rs_core d) = Some k ->
    kind_phase k (c_phase (rs_core d)).

Lemma rs_extend_inv y d : rs_inv d -> rs_inv (rs_extend y d).
Proof. intros [Hc Hh]. split; [by apply core_extend_inv | done]. Qed.

Lemma rs_decode_headers_post d :
  rs_inv d ->
  let '(d', r) := rs_decode_headers d in
  rs_inv d' /\ orderly r /\ (rs_buffered d' <= rs_buffered d)%nat /\ rs_decoded_head d' = rs_decoded_head d /\
  match r with
  | Ok (Some (h, k)) => rs_head_decoded h k d' /\ (rs_buffered d' < rs_buffered d)%nat
  | Ok None => reading_head (rs_core d')
  | Err _ => True
  end.
Proof.
  intros [Hc Hh]. pose proof (read_head_post response_reader d Hc) as Hp. unfold rs_decode_headers, response_round.
  destruct (read_head _ d) as [d' r]. destruct Hp as (Hi & Ho & Hle & [(_ & Hk & _) Hkeep] & Hp).
  cbn [core_of rs_core_of] in Hk.
  split_and!; try done; [split; [done|]; intros h; rewrite Hkeep, Hk; apply Hh|].
  by destruct r as [[[h k]|]|e].
Qed.

Lemma rs_decode_headers_ext y d d' r :
  rs_inv d -> rs_decode_headers d = (d', r) ->
  match r with
  | Ok None => rs_decode_headers (rs_extend y d) = rs_decode_headers (rs_extend y d')
  | _ => rs_decode_headers (rs_extend y d) = (rs_extend y d', r)
  end.
Proof. intros [Hc _]. exact (read_head_ext response_reader y d d' r Hc). Qed.

(** A decoded head put aside for its body. *)
Definition with_head (h : ResponseHead.t) (k : BodyKind) d : ResponseDecoder D :=
  {| rs_core := set_decoded_body_kind (Some k) (rs_core d); rs_decoded_head := Some h;
     rs_request_method := rs_request_method d |}.

Lemma rs_decode_head_eq d :
  rs_decode_head d =
    match rs_decoded_head d with
    | Some _ => (d, Ok true)
    | None =>
        match c_phase (rs_core d) with
        | StartLine | Headers =>
            match rs_decode_headers d with
            | (d', Ok (Some (h, k))) => (with_head h k d', Ok true)
            | (d', Ok None) => (d', Ok false)
            | (d', Err e) => (d', Err e)
            end
        | _ => fail "decode cannot be mixed with streaming API" d
        end
    end.
Proof.
  unfold rs_decode_head. destruct (rs_decoded_head d); [done|].
  destruct (c_phase (rs_core d)); try done; unfold mbind, st_bind;
    by destruct (rs_decode_headers d) as [d' [[[h k]|]|e]].
Qed.

Lemma with_head_inv h k d :
  rs_inv d -> rs_head_decoded h k d -> rs_inv (with_head h k d) /\ in_step (with_head h k d).
Proof.
  intros [[I1 [B1 B2 B3] I3 I4 I5 I6] _] Hd. split.
  - split; [by split; [|split|..]|]. intros h' [= <-]. split; [split_and!; apply Hd | by exists k].
  - intros h' k' [= <-] [= <-]. cbn. rewrite (rd_phase _ _ _ Hd). apply kind_phase_after_head.
Qed.

Lemma rs_decode_head_inv d :
  rs_inv d ->
  let '(d', r) := rs_decode_head d in
  rs_inv d' /\ orderly r /\ (rs_buffered d' <= rs_buffered d)%nat /\ (in_step d -> in_step d') /\
  match r with
  | Ok true => exists h k, rs_decoded_head d' = Some h /\ c_decoded_body_kind (rs_core d') = Some k
      /\ (rs_decoded_head d = None -> (rs_buffered d' < rs_buffered d)%nat)
  | Ok false => rs_decoded_head d' = None /\ reading_head (rs_core d')
  | Err _ => True
  end.
Proof.
  intros Hi. rewrite rs_decode_head_eq. pose proof Hi as [Hc Hh].
  destruct (rs_decoded_head d) as [h|] eqn:Hd.
  { split_and!; try done. destruct (Hh h eq_refl) as (_ & k & Hk). by exists h, k. }
  pose proof (rs_decode_headers_post d Hi) as Hp.
  destruct (c_phase (rs_core d)); try (by split_and!);
    destruct (rs_decode_headers d) as [d' [[[h k]|]|e]]; destruct Hp as (Hi' & Ho & Hle & Hkeep & Hp).
  all: rewrite Hd in Hkeep.
  all: try (match type of Hp with _ /\ _ => destruct Hp as [Hp Hlt] end; destruct (with_head_inv h k d' Hi' Hp) as [Hi2 Hs2];
            split_and!; [done | done | done | done |]; exists h, k; by split_and!).
  all: split_and!; try done; intros _ h k Hx; congruence.
Qed.

Lemma in_step_extend y d : in_step d -> in_step (rs_extend y d).
Proof. done. Qed.

Lemma rs_decode_head_ext y d d' r :
  rs_inv d -> rs_decode_head d = (d', r) ->
  match r with
  | Ok false => rs_decode_head (rs_extend y d) = rs_decode_head (rs_extend y d')
  | _ => rs_decode_head (rs_extend y d) = (rs_extend y d', r)
  end.
Proof.
  intros Hi Hdh. pose proof (rs_decode_head_inv d Hi) as Hpost. rewrite Hdh in Hpost.
  revert Hdh. rewrite !rs_decode_head_eq. change (rs_decoded_head (rs_extend y d)) with (rs_decoded_head d).
  change (c_phase (rs_core (rs_extend y d))) with (c_phase (rs_core d)).
  change (rs_decoded_head (rs_extend y d')) with (rs_decoded_head d').
  change (c_phase (rs_core (rs_extend y d'))) with (c_phase (rs_core d')).
  destruct (rs_decoded_head d) as [h|] eqn:Hd; [by intros [= <- <-]|].
  destruct (c_phase (rs_core d)) eqn:Hp; try (by intros [= <- <-]).
  all: destruct (rs_decode_headers d) as [d1 r1] eqn:Hdec.
  all: pose proof (rs_decode_headers_ext y _ _ _ Hi Hdec) as He.
  all: destruct r1 as [[[h k]|]|e]; intros [= <- <-]; rewrite He; try done.
  all: destruct Hpost as (_ & _ & _ & _ & -> & Hph); by destruct Hph as [-> | ->].
Qed.

(** What is left of the state when a message is handed out. *)
Definition rs_message_done (k : BodyKind) d : ResponseDecoder D :=
  {| rs_core := core_message_done
       (match k with KNone | KTunnel => rs_core d | _ => set_decoded_body [] (rs_core d) end);
     rs_decoded_head := None; rs_request_method := None |}.

Definition response_message (h : ResponseHead.t) (k : BodyKind) c : Response.t :=
  Response.from_raw_parts (ResponseHead.version h) (ResponseHead.status_code h) (ResponseHead.reason_phrase h)
    (ResponseHead.headers h) (match k with KNone | KTunnel => None | _ => Some (c_decoded_body c) end).

(** [decode] as a whole. *)
Lemma rs_decode_eq d :
  rs_inv d ->
  rs_decode d =
    match rs_decode_head d with
    | (d1, Err e) => (d1, Err e)
    | (d1, Ok false) => (d1, Ok None)
    | (d1, Ok true) =>
        match rs_decoded_head d1, c_decoded_body_kind (rs_core d1) with
        | Some h, Some k =>
            match rs_decode_body k (rs_core d1) with
            | (c, Err e) => (put_core c d1, Err e)
            | (c, Ok false) => (put_core c d1, Ok None)
            | (c, Ok true) => (rs_message_done k (put_core c d1), Ok (Some (response_message h k c)))
            end
        | _, _ => (d1, Err Panic)
        end
    end.
Proof.
  intros Hi. unfold rs_decode. unfold mbind at 1, st_bind at 1.
  pose proof (rs_decode_head_inv d Hi) as Hpost. destruct (rs_decode_head d) as [d1 [[]|e]]; try done.
  destruct Hpost as (_ & _ & _ & _ & h & k & Hh & Hk & _). cbn [negb]. rewrite Hh, Hk.
  unfold mbind, st_bind, get, unwrap. rewrite Hk. unfold on_core at 1. cbn [core_of put_core rs_core_of].
  destruct (rs_decode_body k (rs_core d1)) as [c [[]|e]]; [|done..]. cbn [negb].
  unfold rs_finish, mbind, st_bind, get, unwrap, modify, on_core.
  cbn [core_of put_core rs_core_of rs_decoded_head rs_core]. rewrite Hh. by destruct k.
Qed.
End ResponseFacts.
