(* ===== verification/ResponseTheorems.v ===== *)
(** * What the response decoder guarantees

    The results over whole runs of the API, as for the request decoder: no
    call panics or loops; the messages do not depend on how the input was cut;
    what a decoded response satisfies; and how a response is framed. *)
From stdpp Require Import relations.
From S2P Require Import Prelude RustStd Errors Validate Trailer Framing StatusCode Head.
From S2P Require Import Buffer BodyDecoder BodyFacts Compression Message DecoderCore CoreFacts CoreApi HeadFacts Stream.
From S2P Require Import FramingFacts ResponseDecoder ResponseFacts.

Section Decode.
Context {D : Type} `{Decompressor D}.

Implicit Types d : ResponseDecoder D.

Lemma put_core_inv (c : Core D) d :
  core_inv status_line_ok c -> c_decoded_body_kind c = c_decoded_body_kind (rs_core d) -> rs_inv d ->
  rs_inv (put_core c d).
Proof. intros Hc Hk [_ Hh]. split; [done|]. cbn. by rewrite Hk. Qed.

Lemma rs_message_done_inv k d : core_inv status_line_ok (rs_core d) -> rs_inv (rs_message_done k d).
Proof.
  intros [I1 [B1 B2 B3] I3 I4 I5 I6]. split; [|done]. unfold rs_message_done, core_message_done.
  destruct k; cbn [rs_core]; (split; cs; try done);
    (split; [apply N.le_0_l | constructor | split; apply N.le_0_l]).
Qed.

Lemma rs_message_done_buffered k d : rs_buffered (rs_message_done k d) = rs_buffered d.
Proof. by destruct k. Qed.

(** Messages yet to come: one more when a head waits for its body. *)
Definition rs_measure d : nat :=
  (rs_buffered d + match rs_decoded_head d with Some _ => 1 | None => 0 end)%nat.

Lemma rs_decode_inv d :
  rs_inv d ->
  let '(d', r) := rs_decode d in
  rs_inv d' /\ orderly r /\ forall m, r = Ok (Some m) -> (rs_measure d' < rs_measure d)%nat.
Proof.
  intros Hi. rewrite (rs_decode_eq d Hi). pose proof (rs_decode_head_inv d Hi) as Hpost.
  destruct (rs_decode_head d) as [d1 [[]|e]]; destruct Hpost as (Hi1 & Ho & Hle & _ & Hpost); try (by split_and!).
  destruct Hpost as (h & k & Hh & Hk & Hlt). rewrite Hh, Hk.
  pose proof (rs_body_inv k (rs_core d1) (rsi_core _ Hi1)) as Hb.
  destruct (rs_decode_body k (rs_core d1)) as [c [[]|e]]; destruct Hb as (Hc & Ho' & Hle' & Hkind & _).
  - split_and!; [by apply rs_message_done_inv | done |]. intros _ _. unfold rs_measure.
    rewrite rs_message_done_buffered. cbn [rs_message_done rs_decoded_head].
    change (rs_buffered (put_core c d1)) with (core_buffered c). unfold rs_buffered in *.
    destruct (rs_decoded_head d); [lia|]. specialize (Hlt eq_refl). lia.
  - split_and!; [by apply put_core_inv | done | done].
  - split_and!; [by apply put_core_inv | done | done].
Qed.

Lemma rs_decode_in_step d : rs_inv d -> in_step d -> in_step (fst (rs_decode d)).
Proof.
  intros Hi Hs. rewrite (rs_decode_eq d Hi). pose proof (rs_decode_head_inv d Hi) as Hpost.
  destruct (rs_decode_head d) as [d1 [[]|e]]; destruct Hpost as (Hi1 & _ & _ & Hs1 & Hpost); cbn [fst]; try by apply Hs1.
  destruct Hpost as (h & k & Hh & Hk & _). rewrite Hh, Hk.
  pose proof (rs_body_in_step k (rs_core d1) (rsi_core _ Hi1) (Hs1 Hs h k Hh Hk)) as Hp.
  pose proof (rs_body_inv k (rs_core d1) (rsi_core _ Hi1)) as Hb.
  destruct (rs_decode_body k (rs_core d1)) as [c [[]|e]]; destruct Hb as (_ & _ & _ & Hkind & _); cbn [fst] in *;
    [done|..]; intros h' k' Hh' Hk'; cbn in Hh', Hk'; rewrite Hkind, Hk in Hk'; by injection Hk' as <-.
Qed.

(** [decode] on a part of the input and then with the rest behind it is
    [decode] on all of it. *)
Lemma rs_decode_ext y d :
  rs_inv d -> in_step d ->
  match rs_decode d with
  | (d', Ok (Some m)) => rs_decode (rs_extend y d) = (rs_extend y d', Ok (Some m))
  | (d', Ok None) =>
      same_outcome same_error (rs_decode (rs_extend y d)) (rs_decode (rs_extend y d'))
  | (d', Err e) => exists e', snd (rs_decode (rs_extend y d)) = Err e' /\ same_error e' e
  end.
Proof.
  intros Hi Hs. pose proof (rs_decode_inv d Hi) as Hinv. revert Hinv.
  rewrite (rs_decode_eq d Hi), (rs_decode_eq _ (rs_extend_inv y d Hi)).
  pose proof (rs_decode_head_inv d Hi) as Hpost. destruct (rs_decode_head d) as [d1 r1] eqn:Hdh.
  pose proof (rs_decode_head_ext y d d1 r1 Hi Hdh) as He. destruct Hpost as (Hi1 & _ & _ & Hs1 & Hpost).
  specialize (Hs1 Hs). destruct r1 as [[]|e]; intros Hinv.
  - destruct Hpost as (h & k & Hh & Hk & _). rewrite He.
    change (rs_decoded_head (rs_extend y d1)) with (rs_decoded_head d1).
    change (c_decoded_body_kind (rs_core (rs_extend y d1))) with (c_decoded_body_kind (rs_core d1)).
    change (rs_core (rs_extend y d1)) with (core_extend y (rs_core d1)). revert Hinv. rewrite Hh, Hk.
    pose proof (rs_body_ext y k (rs_core d1) (rsi_core _ Hi1) (Hs1 h k Hh Hk)) as Hbe.
    pose proof (rs_body_inv k (rs_core d1) (rsi_core _ Hi1)) as Hbi.
    destruct (rs_decode_body k (rs_core d1)) as [c2 r2]. destruct Hbi as (_ & _ & _ & Hkind & _).
    destruct r2 as [[]|e]; intros Hinv.
    + rewrite Hbe. unfold response_message. by destruct k.
    + destruct Hbe as [_ Hbe]. rewrite (rs_decode_eq _ (rs_extend_inv y _ (proj1 Hinv))), rs_decode_head_eq.
      change (rs_decoded_head (rs_extend y (put_core c2 d1))) with (rs_decoded_head d1). rewrite Hh.
      change (rs_decoded_head (rs_extend y (put_core c2 d1))) with (rs_decoded_head d1). rewrite Hh.
      change (rs_core (rs_extend y (put_core c2 d1))) with (core_extend y c2).
      change (c_decoded_body_kind (core_extend y c2)) with (c_decoded_body_kind c2). rewrite Hkind, Hk.
      destruct (rs_decode_body k (core_extend y (rs_core d1))) as [c3 [b3|e3]],
        (rs_decode_body k (core_extend y c2)) as [c4 [b4|e4]]; try done.
      destruct Hbe as [-> ->]. by destruct b4.
    + destruct Hbe as (e' & Hbe & Hx). destruct (rs_decode_body k (core_extend y (rs_core d1))) as [c3 r3].
      cbn in Hbe. subst r3. by exists e'.
  - rewrite He.
    rewrite (rs_decode_eq _ (rs_extend_inv y d1 Hi1)). apply same_outcome_refl, _.
  - rewrite He. exists e. split; [done | by left].
Qed.

#[export] Instance rs_stream : StreamDecoder (ResponseDecoder D) Response.t Error.t := {|
  sd_decode := rs_decode; sd_extend := rs_feed_unchecked; sd_measure := rs_measure;
  sd_inv d := rs_inv d /\ in_step d; sd_error := same_error |}.

#[export] Instance rs_stream_laws : StreamDecoderLaws (ResponseDecoder D) Response.t Error.t.
Proof.
  split; cbn [sd_decode sd_extend sd_measure sd_inv sd_error rs_stream]; [apply _| | |..]; intros.
  - unfold rs_feed_unchecked, core_feed_unchecked, feed_unchecked. cbn. by rewrite app_assoc.
  - rename select (_ /\ _) into Hi. destruct Hi. split; [by apply (rs_extend_inv y) | done].
  - rename select (_ /\ _) into Hi. destruct Hi as [Hi Hs]. pose proof (rs_decode_inv t Hi) as Hp.
    pose proof (rs_decode_in_step t Hi Hs) as Hs'.
    destruct (rs_decode t) as [t' r]; by destruct Hp as (Hi' & Ho & Hm).
  - rename select (_ /\ _) into Hi. destruct Hi as [Hi Hs]. exact (rs_decode_ext y t Hi Hs).
Qed.
End Decode.

(** ** The public calls *)

Inductive rs_call : Type :=
  | RsFeed (data : bytes)
  | RsFeedUnchecked (data : bytes)
  | RsMutBuf (len : N)
  (** The caller writes [data] into the slice of [len] bytes it got. *)
  | RsWriteSlice (len : N) (data : bytes)
  | RsAdvanceBuf (len : N)
  | RsSetRequestMethod (method : str)
  | RsMarkEof
  | RsDecode
  | RsDecodeHeaders
  | RsPeekBody
  | RsPeekDecompressed (output : bytes)
  | RsConsumeBody (len : N)
  | RsProgress
  | RsRemaining
  | RsTakeRemaining
  | RsReset.

Section Api.
Context {D : Type} `{Decompressor D}.

Implicit Types d : ResponseDecoder D.

Definition rs_write_slice (len : N) (data : bytes) d : ResponseDecoder D :=
  put_core (core_write_slice len data (rs_core d)) d.

(** One step of the decoder: the state after the call, and its outcome. *)
Definition rs_step (call : rs_call) : st (ResponseDecoder D) Error.t unit :=
  match call with
  | RsFeed data => rs_feed data
  | RsFeedUnchecked data => modify (rs_feed_unchecked data)
  | RsMutBuf len => rs_mut_buf len
  | RsWriteSlice len data => modify (rs_write_slice len data)
  | RsAdvanceBuf len => modify (rs_advance_buf len)
  | RsSetRequestMethod m => modify (set_request_method m)
  | RsMarkEof => modify mark_eof
  | RsDecode => discard rs_decode
  | RsDecodeHeaders => discard rs_decode_headers
  | RsPeekBody => discard (on_core core_peek)
  | RsPeekDecompressed output => discard (rs_peek_body_decompressed output)
  | RsConsumeBody len => discard (rs_consume_body len)
  | RsProgress => discard rs_progress
  | RsRemaining => mret tt
  | RsTakeRemaining => modify (fun d => fst (rs_take_remaining d))
  | RsReset => modify rs_reset
  end.

(** The states a decoder can reach, through calls that fail as well. *)
Inductive rs_reachable (z : D) (limits : DecoderLimits) : ResponseDecoder D -> Prop :=
  | rs_start : rs_reachable z limits (rs_new z limits)
  | rs_next d call : rs_reachable z limits d -> rs_reachable z limits (fst (rs_step call d)).

Definition rs_step_ok {A} (m : st (ResponseDecoder D) Error.t A) d : Prop :=
  rs_inv (fst (m d)) /\ orderly (snd (m d)).

Lemma rs_discard_ok {A} (m : st (ResponseDecoder D) Error.t A) d : rs_step_ok m d -> rs_step_ok (discard m) d.
Proof. unfold rs_step_ok, discard, mbind, st_bind. by destruct (m d) as [d' [a|e]]. Qed.

Lemma rs_on_core_ok {A} (m : st (Core D) Error.t A) d :
  core_keeps status_line_ok m -> rs_inv d -> rs_step_ok (on_core m) d.
Proof.
  intros Hm Hi. destruct (Hm _ (rsi_core _ Hi)) as (H1 & H2 & _ & H4 & _).
  unfold rs_step_ok, on_core. cbn [core_of rs_core_of].
  destruct (m (rs_core d)) as [c r]. split; [by apply put_core_inv | done].
Qed.

Lemma rs_on_core {A} (m : st (Core D) Error.t A) d : rs_core (fst (on_core m d)) = fst (m (rs_core d)).
Proof. unfold on_core. cbn [core_of rs_core_of]. by destruct (m (rs_core d)). Qed.

Lemma mark_eof_inv d : rs_inv d -> rs_inv (mark_eof d).
Proof.
  intros Hi. pose proof Hi as [[I1 [B1 B2 B3] I3 I4 I5 I6] Hh]. unfold mark_eof.
  destruct (c_phase (rs_core d)) eqn:Hp; try exact Hi.
  split; [|done]. split; cs; try done; try (by intros [? | ?]).
  split; cs; try done. cbn [body_state b_phase] in B1. by rewrite Hp in B1.
Qed.

Lemma rs_step_inv call d : rs_inv d -> rs_step_ok (rs_step call) d.
Proof.
  intros Hi. destruct call; cbn [rs_step].
  - apply rs_on_core_ok, Hi. apply core_feed_keeps.
  - apply (rs_on_core_ok (modify (core_feed_unchecked data))), Hi. apply core_feed_unchecked_keeps.
  - apply rs_on_core_ok, Hi. apply core_mut_buf_keeps.
  - apply (rs_on_core_ok (modify (core_write_slice len data))), Hi. apply core_write_slice_keeps.
  - apply (rs_on_core_ok (modify (core_advance_buf len))), Hi. apply core_advance_buf_keeps.
  - split; [|done]. by destruct Hi.
  - split; [|done]. by apply mark_eof_inv.
  - apply rs_discard_ok. pose proof (rs_decode_inv d Hi) as Hp. unfold rs_step_ok.
    by destruct (rs_decode d) as [d' r]; destruct Hp as (H1 & H2 & _).
  - apply rs_discard_ok. pose proof (rs_decode_headers_post d Hi) as Hp. unfold rs_step_ok.
    by destruct (rs_decode_headers d) as [d' r]; destruct Hp as (H1 & H2 & _).
  - apply rs_discard_ok, rs_on_core_ok, Hi. apply core_peek_keeps.
  - apply rs_discard_ok, rs_on_core_ok, Hi. apply core_peek_decompressed_keeps.
  - apply rs_discard_ok, rs_on_core_ok, Hi. apply core_consume_body_keeps.
  - apply rs_discard_ok, rs_on_core_ok, Hi. apply core_progress_keeps.
  - by split.
  - apply (rs_on_core_ok (modify (fun c => fst (core_take_remaining c)))), Hi. apply core_take_remaining_keeps.
  - split; [|done]. split; [|done]. apply core_reset_inv, Hi.
Qed.

Lemma rs_new_inv (z : D) limits : limits_ok limits -> rs_inv (rs_new z limits).
Proof. intros Hl. split; [by apply core_new_inv | done]. Qed.

Lemma rs_reachable_inv (z : D) limits d : limits_ok limits -> rs_reachable z limits d -> rs_inv d.
Proof. intros Hl. induction 1 as [|d call Hr IH]; [by apply rs_new_inv|]. by apply rs_step_inv. Qed.

(** A response that [decode] hands out meets the assertions of [from_raw_parts]. *)
Lemma response_message_valid d h k (c : Core D) :
  rs_inv d -> rs_decoded_head d = Some h -> Response.valid (response_message h k c) = true.
Proof. intros Hi Hh. exact (proj1 (proj1 (rsi_head _ Hi h Hh))). Qed.

Lemma decoded_response_valid (z : D) limits d d' m :
  limits_ok limits -> rs_reachable z limits d -> rs_decode d = (d', Ok (Some m)) ->
  Response.valid m = true.
Proof.
  intros Hl Hr. pose proof (rs_reachable_inv z limits d Hl Hr) as Hi. rewrite (rs_decode_eq d Hi).
  pose proof (rs_decode_head_inv d Hi) as Hp. destruct (rs_decode_head d) as [d1 [[]|e]]; try done.
  destruct Hp as (Hi1 & _ & _ & _ & h & k & Hh & Hk & _). rewrite Hh, Hk.
  destruct (rs_decode_body k (rs_core d1)) as [c [[]|e]]; try done. intros [= _ <-].
  by apply (response_message_valid d1).
Qed.

(** ** Debug builds *)

(** What a method asserts when it is called. *)
Definition rs_asserts (call : rs_call) d : bool :=
  let c := rs_core d in
  match call with
  | RsMutBuf _ => mut_buf_asserts c
  | RsWriteSlice len data => write_slice_asserts len data c
  | RsAdvanceBuf len => advance_buf_asserts len c
  | RsConsumeBody len => consume_body_asserts len c
  | RsSetRequestMethod _ | RsReset => true
  | _ => settled c
  end.

(** [decode_headers] with the assertions of [from_validated_parts]. *)
Definition rs_decode_headers_debug : st (ResponseDecoder D) Error.t (option (ResponseHead.t * BodyKind)) :=
  asserting (fun d => settled (rs_core d))
    (r ← rs_decode_headers;
     _ ← debug_assert (fun _ => match r with Some (head, _) => ResponseHead.valid head | None => true end);
     mret r).

Definition rs_decode_head_debug : st (ResponseDecoder D) Error.t bool := fun d =>
  match rs_decoded_head d with
  | Some _ => (d, Ok true)
  | None =>
      match c_phase (rs_core d) with
      | StartLine | Headers =>
          (r ← rs_decode_headers_debug;
           match r with
           | Some (head, body_kind) =>
               _ ← modify (fun d => {| rs_core := set_decoded_body_kind (Some body_kind) (rs_core d);
                                       rs_decoded_head := Some head;
                                       rs_request_method := rs_request_method d |});
               mret true
           | None => mret false
           end) d
      | _ => fail "decode cannot be mixed with streaming API" d
      end
  end.

(** The close-delimited body with the assertions of the calls in it. *)
Definition close_delimited_round_debug : st (Core D) Error.t bool := fun c =>
  (peeked ← core_peek;
   _ ← match peeked with
       | Some data =>
           let limit := max_body_size (c_limits c) in
           match checked_add (blen (c_decoded_body c)) (blen data) with
           | None => throw (Error.BodyTooLarge usize_MAX limit)
           | Some new_size =>
               if limit <? new_size then throw (Error.BodyTooLarge new_size limit)
               else
                 _ ← modify (fun c => set_decoded_body (c_decoded_body c ++ data) c);
                 _ ← asserting (consume_body_asserts (blen data)) (core_consume_body (blen data));
                 mret tt
           end
       | None => mret tt
       end;
   p ← gets c_phase;
   mret (bool_decide (p = Complete))) c.

Definition rs_decode_body_debug (k : BodyKind) : st (Core D) Error.t bool :=
  match k with
  | KContentLength _ | KChunked => body_loop_debug
  | KCloseDelimited => close_delimited_round_debug
  | _ => rs_decode_body k
  end.

(** [decode] with the assertions of the calls in it and of [from_raw_parts]. *)
Definition rs_decode_debug : st (ResponseDecoder D) Error.t (option Response.t) :=
  asserting (fun d => settled (rs_core d))
    (have_head ← rs_decode_head_debug;
     if negb have_head then mret None
     else
       k ← (d ← get; unwrap (c_decoded_body_kind (rs_core d)));
       have_body ← on_core (rs_decode_body_debug k);
       if negb have_body then mret None
       else
         r ← rs_finish k;
         _ ← debug_assert (fun _ => Response.valid r);
         mret (Some r)).

Definition rs_debug_step (call : rs_call) : st (ResponseDecoder D) Error.t unit :=
  asserting (rs_asserts call)
    match call with
    | RsDecode => discard rs_decode_debug
    | RsDecodeHeaders => discard rs_decode_headers_debug
    | _ => rs_step call
    end.

(** The contract of the methods, as their documentation has it. *)
Definition rs_contract (call : rs_call) d : Prop :=
  let pending := c_pending (rs_core d) in
  match call with
  | RsMutBuf _ | RsSetRequestMethod _ | RsReset => True
  | RsWriteSlice len data => pending = len /\ blen data <= len
  | RsAdvanceBuf len => len <= pending
  | RsConsumeBody len => pending = 0 /\ (len = 0 \/ ~ between_chunks (c_phase (rs_core d)))
  | _ => pending = 0
  end.

(** The states of a decoder of a debug build: no call panicked. *)
Inductive rs_debug_reachable (z : D) (limits : DecoderLimits) : ResponseDecoder D -> Prop :=
  | rs_debug_start : rs_debug_reachable z limits (rs_new z limits)
  | rs_debug_next d call :
      rs_debug_reachable z limits d -> snd (rs_debug_step call d) <> Err Panic ->
      rs_debug_reachable z limits (fst (rs_debug_step call d)).

(** Reading a head and decoding settle no slice and take none. *)
Lemma rs_decode_headers_pending d :
  rs_inv d -> c_pending (rs_core (fst (rs_decode_headers d))) = c_pending (rs_core d).
Proof.
  intros [Hc _]. pose proof (read_head_post response_reader d Hc) as Hp. unfold rs_decode_headers, response_round.
  destruct (read_head _ d) as [d' r]. destruct Hp as (_ & _ & _ & [(_ & _ & _ & Hl) _] & _). exact Hl.
Qed.

Lemma rs_decode_head_pending d :
  rs_inv d -> c_pending (rs_core (fst (rs_decode_head d))) = c_pending (rs_core d).
Proof.
  intros Hi. pose proof (rs_decode_headers_pending d Hi) as Hp. rewrite rs_decode_head_eq.
  destruct (rs_decoded_head d); [done|].
  destruct (c_phase (rs_core d)); try done; by destruct (rs_decode_headers d) as [d' [[[h k]|]|e]].
Qed.

Lemma consume_pending len (c : Core D) : c_pending (fst (core_consume_body len c)) = c_pending c.
Proof. unfold core_consume_body, on_body. destruct (len =? 0); [done|]. by destruct (consume_body _ _ _). Qed.

Lemma close_round_pending (c : Core D) : c_pending (fst (close_delimited_round c)) = c_pending c.
Proof.
  unfold close_delimited_round, mbind, st_bind, gets. rewrite core_peek_eq.
  destruct (core_peek_body c) as [data|]; [|done]. destruct (checked_add _ _) as [n|]; [|done]. unfold throw.
  destruct (_ <? n); [done|]. unfold modify. pose proof (consume_pending (blen data) (set_decoded_body (c_decoded_body c ++ data) c)) as Hc.
  by destruct (core_consume_body _ _) as [c' [p|e]].
Qed.

Lemma rs_body_pending k (c : Core D) :
  core_inv status_line_ok c -> c_pending (fst (rs_decode_body k c)) = c_pending c.
Proof.
  intros Hi. destruct k; try done; cbn [rs_decode_body]; [| |apply close_round_pending];
    destruct (body_loop_inv _ c Hi) as (_ & _ & _ & _ & _ & ? & ? & ->); done.
Qed.

Lemma rs_decode_pending d : rs_inv d -> c_pending (rs_core (fst (rs_decode d))) = c_pending (rs_core d).
Proof.
  intros Hi. rewrite (rs_decode_eq d Hi). pose proof (rs_decode_head_pending d Hi) as Hp.
  pose proof (rs_decode_head_inv d Hi) as Hpost. destruct (rs_decode_head d) as [d1 [[]|e]]; try done.
  destruct Hpost as (Hi1 & _ & _ & _ & h & k & Hh & Hk & _). rewrite Hh, Hk. cbn [fst] in Hp.
  pose proof (rs_body_pending k _ (rsi_core _ Hi1)) as Hb.
  destruct (rs_decode_body k (rs_core d1)) as [c [[]|e]]; cbn [fst] in *; cbn; try congruence.
  destruct k; cbn; congruence.
Qed.

(** The assertions inside of [decode] hold when its own does. *)
Lemma rs_decode_headers_debug_eq d :
  rs_inv d -> settled (rs_core d) = true -> rs_decode_headers_debug d = rs_decode_headers d.
Proof.
  intros Hi Hs. unfold rs_decode_headers_debug. rewrite asserting_holds by done.
  pose proof (rs_decode_headers_post d Hi) as Hp. revert Hp. unfold mbind, st_bind, debug_assert.
  destruct (rs_decode_headers d) as [d' [[[h k]|]|e]]; [|done..].
  intros (_ & _ & _ & _ & [Hd _]). by rewrite (rd_valid _ _ _ Hd).
Qed.

Lemma rs_decode_head_debug_eq d :
  rs_inv d -> settled (rs_core d) = true -> rs_decode_head_debug d = rs_decode_head d.
Proof.
  intros Hi Hs. unfold rs_decode_head_debug, rs_decode_head, mbind, st_bind.
  by rewrite (rs_decode_headers_debug_eq d Hi Hs).
Qed.

Lemma close_round_debug_eq (c : Core D) : settled c = true -> close_delimited_round_debug c = close_delimited_round c.
Proof.
  intros Hs. unfold close_delimited_round_debug, close_delimited_round, mbind, st_bind, modify.
  rewrite core_peek_eq. destruct (core_peek_body c) as [data|] eqn:Hp; [|done].
  destruct (checked_add _ _) as [n|]; [|done]. destruct (_ <? n); [done|].
  by rewrite (asserting_holds (consume_body_asserts (blen data))) by (by apply peeked_asserts).
Qed.

Lemma rs_decode_body_debug_eq k (c : Core D) : settled c = true -> rs_decode_body_debug k c = rs_decode_body k c.
Proof. intros Hs. destruct k; try done; [by apply body_loop_debug_eq..|by apply close_round_debug_eq]. Qed.

Lemma rs_decode_debug_eq d : rs_inv d -> settled (rs_core d) = true -> rs_decode_debug d = rs_decode d.
Proof.
  intros Hi Hs. rewrite (rs_decode_eq d Hi). unfold rs_decode_debug. rewrite asserting_holds by done.
  unfold mbind at 1, st_bind at 1. rewrite (rs_decode_head_debug_eq d Hi Hs).
  pose proof (rs_decode_head_pending d Hi) as Hp. pose proof (rs_decode_head_inv d Hi) as Hpost.
  destruct (rs_decode_head d) as [d1 [[]|e]]; [|done..]. destruct Hpost as (Hi1 & _ & _ & _ & h & k & Hh & Hk & _).
  assert (Hs1 : settled (rs_core d1) = true) by (unfold settled in *; cbn [fst] in Hp; by rewrite Hp).
  cbn [negb]. rewrite Hh, Hk. unfold mbind, st_bind, get, unwrap. rewrite Hk. unfold on_core at 1.
  cbn [core_of put_core rs_core_of]. rewrite (rs_decode_body_debug_eq k _ Hs1).
  destruct (rs_decode_body k (rs_core d1)) as [c [[]|e]]; [|done..]. cbn [negb].
  pose proof (response_message_valid d1 h k c Hi1 Hh) as Hv.
  unfold rs_finish, mbind, st_bind, get, unwrap, modify, on_core, debug_assert.
  cbn [rs_decoded_head rs_core rs_request_method]. rewrite Hh. unfold response_message, mret, st_ret in *.
  destruct k; cbn [body_of_kind core_of put_core rs_core_of rs_core rs_decoded_head rs_request_method] in *; by rewrite Hv.
Qed.

(** A call that keeps to the contract passes its assertion, and no other does. *)
Lemma rs_asserts_iff call d : slice_inside (rs_core d) -> rs_asserts call d = true <-> rs_contract call d.
Proof.
  unfold slice_inside, pending_ok, rs_asserts, rs_contract, mut_buf_asserts, write_slice_asserts, advance_buf_asserts,
    consume_body_asserts, settled. intros Hin.
  destruct call; try (rewrite ?andb_true_iff, ?N.eqb_eq, ?N.leb_le; lia); try done.
  rewrite andb_true_iff, N.eqb_eq. apply and_iff_compat_l. unfold consume_asserts.
  destruct (c_phase (rs_core d)); cbn [between_chunks]; rewrite ?N.eqb_eq; tauto.
Qed.

Lemma rs_debug_step_eq call d :
  rs_inv d -> rs_asserts call d = true -> rs_debug_step call d = rs_step call d.
Proof.
  intros Hi Ha. unfold rs_debug_step. rewrite (asserting_holds (rs_asserts call)) by done.
  destruct call; try done; cbn [rs_step rs_asserts] in *; unfold discard, mbind, st_bind.
  - by rewrite (rs_decode_debug_eq d Hi Ha).
  - by rewrite (rs_decode_headers_debug_eq d Hi Ha).
Qed.

Lemma rs_step_inside call d :
  rs_inv d -> rs_asserts call d = true -> slice_inside (rs_core d) -> slice_inside (rs_core (fst (rs_step call d))).
Proof.
  intros Hi Ha Hin. assert (Hz : forall d', c_pending (rs_core d') = c_pending (rs_core d) -> settled (rs_core d) = true ->
    slice_inside (rs_core d')) by (intros d' E Hs; apply slice_inside_settled; unfold settled in *; by rewrite E).
  destruct call; cbn [rs_step rs_asserts] in *; rewrite ?discard_fst; try done.
  - apply Hz; [|done]. unfold rs_feed. rewrite rs_on_core. unfold core_feed. by destruct (feed _ _ _).
  - by apply Hz.
  - unfold rs_mut_buf. rewrite rs_on_core. by apply mut_buf_inside.
  - by apply write_slice_inside.
  - by apply advance_buf_inside.
  - apply Hz; [|done]. unfold mark_eof. cbn [modify fst]. by destruct (c_phase (rs_core d)).
  - apply Hz; [by apply rs_decode_pending | done].
  - apply Hz; [by apply rs_decode_headers_pending | done].
  - apply Hz; [|done]. unfold rs_peek_body_decompressed. rewrite rs_on_core. unfold core_peek_body_decompressed.
    rewrite core_peek_eq. by destruct (decompress _ _ _) as [[z o] [[[] []|[] []|]|e]].
  - apply andb_true_iff in Ha as [Ha _]. apply Hz; [|done]. unfold rs_consume_body. rewrite rs_on_core. apply consume_pending.
  - apply Hz; [|done]. unfold rs_progress. rewrite rs_on_core. unfold core_progress, on_body. by destruct (consume_body _ _ _).
Qed.

Lemma rs_debug_reachable_inv (z : D) limits d :
  limits_ok limits -> rs_debug_reachable z limits d ->
  rs_reachable z limits d /\ rs_inv d /\ slice_inside (rs_core d).
Proof.
  intros Hl. induction 1 as [|d call _ (Hr & Hi & Hin) Hp].
  { split_and!; [apply rs_start | by apply rs_new_inv | by apply slice_inside_settled]. }
  destruct (rs_asserts call d) eqn:Ha.
  - rewrite (rs_debug_step_eq call d Hi Ha). split_and!; [by apply rs_next | by apply rs_step_inv | by apply rs_step_inside].
  - unfold rs_debug_step in Hp. by rewrite (asserting_fails (rs_asserts call)) in Hp.
Qed.


(** ** Responses as a whole

    The calls of a caller that does not read a head of its own while [decode]
    waits for the body of another: [decode_headers] is not called then. *)
Inductive rs_unmixed (z : D) (limits : DecoderLimits) : ResponseDecoder D -> Prop :=
  | rs_unmixed_start : rs_unmixed z limits (rs_new z limits)
  | rs_unmixed_next d call :
      rs_unmixed z limits d -> (call = RsDecodeHeaders -> rs_decoded_head d = None) ->
      rs_unmixed z limits (fst (rs_step call d)).

(** Reading the body leaves a close-delimited body close-delimited, or complete. *)
Lemma on_body_kind_phase k len (c : Core D) :
  core_inv status_line_ok c -> kind_phase k (c_phase c) ->
  kind_phase k (c_phase (fst (on_body (consume_body len (c_limits c)) c))).
Proof.
  intros Hi Hk. destruct (on_body_keeps status_line_ok len c Hi) as (_ & _ & _ & _ & Hclose).
  destruct k; cbn [kind_phase] in *; try done; try (intros Hx; by apply Hk, Hclose).
  unfold on_body. change (Build_BodyState _ _ _) with (body_state c). destruct Hk as [Hk|Hk].
  - left. rewrite consume_close_eq by exact Hk. unfold fail, throw. destruct (_ <? len); [done|].
    destruct (len =? 0); [done|]. rewrite checked_add_eq. destruct (usize_MAX <? _); [done|]. by destruct (_ <? _).
  - right. unfold consume_body. cbn [body_state b_phase]. rewrite Hk. cbn. exact Hk.
Qed.

Lemma kind_phase_complete k : kind_phase k Complete.
Proof. destruct k; cbn; auto. Qed.

Lemma rs_step_in_step call d :
  rs_inv d -> in_step d -> (call = RsDecodeHeaders -> rs_decoded_head d = None) -> in_step (fst (rs_step call d)).
Proof.
  intros Hi Hs Hc.
  assert (Hcore : forall m : st (Core D) Error.t unit,
    c_phase (fst (m (rs_core d))) = c_phase (rs_core d) ->
    c_decoded_body_kind (fst (m (rs_core d))) = c_decoded_body_kind (rs_core d) -> in_step (fst (on_core m d))).
  { intros m H1 H2 h k. unfold on_core. cbn [core_of rs_core_of]. destruct (m (rs_core d)) as [c r].
    cbn [put_core rs_core_of rs_core rs_decoded_head fst] in *. rewrite H1, H2. apply Hs. }
  destruct call; cbn [rs_step]; rewrite ?discard_fst; try (by apply Hs); try done.
  - apply Hcore; unfold core_feed; by destruct (feed _ _ _).
  - apply Hcore; unfold core_mut_buf; by destruct (mut_buf _ _ _ _) as [[b p] r].
  - unfold mark_eof. cbn [modify fst]. destruct (c_phase (rs_core d)); try done. intros h k _ _. apply kind_phase_complete.
  - by apply rs_decode_in_step.
  - pose proof (rs_decode_headers_post d Hi) as Hp. destruct (rs_decode_headers d) as [d' r].
    destruct Hp as (_ & _ & _ & Hkeep & _). intros h k. cbn [fst]. rewrite Hkeep, (Hc eq_refl). done.
  - unfold rs_peek_body_decompressed, on_core, core_peek_body_decompressed. cbn [core_of rs_core_of]. rewrite core_peek_eq.
    by destruct (decompress _ _ _) as [[z o] [[[] []|[] []|]|e]].
  - intros h k. unfold rs_consume_body. rewrite rs_on_core. unfold core_consume_body, on_core. cbn [core_of rs_core_of].
    destruct (len =? 0); [apply Hs|].
    destruct (on_body_keeps status_line_ok len _ (rsi_core _ Hi)) as (_ & _ & _ & Hk & _).
    intros Hh Hkd. apply on_body_kind_phase; [apply Hi|]. apply (Hs h).
    + by destruct (on_body _ _).
    + revert Hkd Hk. destruct (on_body _ _) as [c r]. cbn. congruence.
  - intros h k. unfold rs_progress. rewrite rs_on_core. unfold core_progress, on_core. cbn [core_of rs_core_of].
    destruct (on_body_keeps status_line_ok 0 _ (rsi_core _ Hi)) as (_ & _ & _ & Hk & _).
    intros Hh Hkd. apply on_body_kind_phase; [apply Hi|]. apply (Hs h).
    + by destruct (on_body _ _).
    + revert Hkd Hk. destruct (on_body _ _) as [c r]. cbn. congruence.
Qed.

Lemma rs_unmixed_inv (z : D) limits d : limits_ok limits -> rs_unmixed z limits d -> rs_inv d /\ in_step d.
Proof.
  intros Hl. induction 1 as [|d call _ [Hi Hs] Hc]; [split; [by apply rs_new_inv | done]|].
  split; [by apply rs_step_inv | by apply rs_step_in_step].
Qed.

(** ** The input may be cut anywhere *)

Lemma rs_headers_limits d : rs_inv d -> c_limits (rs_core (fst (rs_decode_headers d))) = c_limits (rs_core d).
Proof.
  intros [Hc _]. pose proof (read_head_post response_reader d Hc) as Hp. unfold rs_decode_headers, response_round.
  destruct (read_head _ d) as [d' r]. apply Hp.
Qed.

Lemma rs_decode_rest d :
  rs_inv d -> c_limits (rs_core (fst (rs_decode d))) = c_limits (rs_core d) /\
  (rs_buffered (fst (rs_decode d)) <= rs_buffered d)%nat.
Proof.
  intros Hi. rewrite (rs_decode_eq d Hi).
  assert (Hl : c_limits (rs_core (fst (rs_decode_head d))) = c_limits (rs_core d)).
  { rewrite rs_decode_head_eq. destruct (rs_decoded_head d); [done|]. pose proof (rs_headers_limits d Hi) as Hh.
    destruct (c_phase (rs_core d)); try done; by destruct (rs_decode_headers d) as [d' [[[h k]|]|e]]. }
  pose proof (rs_decode_head_inv d Hi) as Hp.
  destruct (rs_decode_head d) as [d1 [[]|e]]; destruct Hp as (Hi1 & _ & Hle & _ & Hp); try done. cbn [fst] in Hl.
  destruct Hp as (h & k & Hh & Hk & _). rewrite Hh, Hk.
  pose proof (rs_body_inv k (rs_core d1) (rsi_core _ Hi1)) as Hb. unfold rs_buffered in *.
  destruct (rs_decode_body k (rs_core d1)) as [c [[]|e]]; destruct Hb as (_ & _ & Hle2 & _ & Hb).
  - cbn [fst]. split; [destruct k; cbn; congruence|].
    assert (core_buffered (rs_core (rs_message_done k (put_core c d1))) = core_buffered c) as -> by (by destruct k). lia.
  - cbn. split; [congruence | lia].
  - cbn. split; [congruence | lia].
Qed.

#[export] Instance rs_feeder : FeedDecoder (ResponseDecoder D) Error.t := {|
  sd_feed := rs_feed; sd_level d := blen (c_buf (rs_core d)); sd_limit d := max_buffer_size (c_limits (rs_core d));
  sd_refusal := buffer_overflow |}.

#[export] Instance rs_feeder_laws : FeedDecoderLaws (ResponseDecoder D) Response.t Error.t.
Proof.
  split; cbn [sd_feed sd_level sd_limit sd_refusal rs_feeder sd_decode sd_extend sd_inv rs_stream]; intros.
  - rename select (_ /\ _) into Hi. destruct Hi as [Hi _]. pose proof (core_feed_cases p (rs_core t) (inv_limits _ _ (rsi_core _ Hi))) as Hf.
    unfold rs_feed, on_core. cbn [core_of put_core rs_core_of].
    destruct (_ <=? _); [by rewrite Hf|]. destruct Hf as (e & -> & He). exists e. split; [by destruct t | done].
  - unfold rs_feed_unchecked, core_feed_unchecked, feed_unchecked. cbn. apply blen_app.
  - done.
  - rename select (_ /\ _) into Hi. destruct Hi as [Hi _]. destruct (rs_decode_rest t Hi) as [Hl Hle].
    split; [|by rewrite Hl]. unfold rs_buffered, core_buffered, blen in *. lia.
Qed.

(** What is decoded when the connection ends after a run, if it does. *)
Definition at_eof (eof : bool) (r : run (T := ResponseDecoder D) (M := Response.t) (E := Error.t)) :=
  if eof then and_then r (fun d => decode_ready (mark_eof d)) else r.

Lemma at_eof_same eof r1 r2 : same_run r1 r2 -> same_run (at_eof eof r1) (at_eof eof r2).
Proof. intros Hr. destruct eof; [|done]. cbn [at_eof]. by rewrite Hr. Qed.

(** The run of [feed] against the run without a limit, on a new connection. *)
Lemma fed_responses_cases (z : D) limits ps eof :
  limits_ok limits ->
  at_eof eof (fed_pieces ps (rs_new z limits)) = at_eof eof (decode_pieces ps (rs_new z limits)) \/
  cut_short (at_eof eof (fed_pieces ps (rs_new z limits))) (at_eof eof (decode_pieces ps (rs_new z limits))).
Proof.
  intros Hl. assert (Hi : sd_inv (M := Response.t) (rs_new z limits)) by (split; [by apply rs_new_inv | done]).
  destruct (fed_pieces_cases ps _ Hi) as [->|Hc]; [by left|]. right. destruct eof; [by apply cut_short_then | done].
Qed.

(** C4: as long as [decode_headers] was not called while [decode] waited for
    the body of another response, the responses decoded from then on, the error that ends them (but for the size in [BodyTooLarge]) and, if
    there is none, the state of the decoder depend on the bytes received and
    not on the pieces they arrived in; and so does what the end of the connection
    ([mark_eof]) adds.  A decoder that is fed one or more pieces with [feed]
    either does what it would do with any other pieces of the same bytes if its
    buffer had no limit (with [feed_unchecked]), or it ends with the
    [BufferOverflow] of a piece that was refused, and has decoded the first of
    those messages until then; and no piece is refused when the bytes fit
    [max_buffer_size] together with what is in the buffer. *)
Theorem responses_any_segmentation (z : D) limits d ps qs eof :
  limits_ok limits -> rs_unmixed z limits d -> ps <> [] -> qs <> [] -> concat ps = concat qs ->
  (same_run (at_eof eof (fed_pieces ps d)) (at_eof eof (decode_pieces qs d)) \/
   cut_short (at_eof eof (fed_pieces ps d)) (at_eof eof (decode_pieces qs d))) /\
  (blen (c_buf (rs_core d)) + blen (concat ps) <= max_buffer_size (c_limits (rs_core d)) ->
   same_run (at_eof eof (fed_pieces ps d)) (at_eof eof (fed_pieces qs d))).
Proof.
  intros Hl Hr Hp Hq Hc. pose proof (rs_unmixed_inv z limits d Hl Hr) as Hi.
  destruct (fed_pieces_any (T := ResponseDecoder D) (M := Response.t) (E := Error.t) ps qs d) as [[Hs|Hcut] Hfit]; [exact Hi | done..| |].
  - split; [left; by apply at_eof_same | intros Hb; by apply at_eof_same, Hfit].
  - split; [right | intros Hb; by apply at_eof_same, Hfit]. destruct eof; [by apply cut_short_then | done].
Qed.

(** ** Trailers *)

(** The calls that do not begin another message. *)
Definition rs_same_message (call : rs_call) : Prop :=
  match call with RsDecode | RsDecodeHeaders | RsReset => False | _ => True end.

Definition rs_body_call d d' : Prop := exists call, rs_same_message call /\ d' = fst (rs_step call d).

Lemma rs_body_call_declared d d' :
  rs_inv d -> rs_body_call d d' ->
  rs_inv d' /\ declared_trailers (c_body_decoder (rs_core d')) = declared_trailers (c_body_decoder (rs_core d)) /\
  c_limits (rs_core d') = c_limits (rs_core d).
Proof.
  intros Hi (call & Hc & ->). split; [by apply rs_step_inv|]. pose proof (rsi_core _ Hi) as Hi0.
  destruct call; cbn [rs_step rs_same_message] in *; try done; rewrite ?discard_fst; try done.
  all: try (by unfold mark_eof; cbn [modify fst]; destruct (c_phase (rs_core d))).
  all: unfold rs_feed, rs_mut_buf, rs_peek_body_decompressed, rs_consume_body, rs_progress; rewrite rs_on_core.
  - split; [apply feed_declared | apply (core_feed_keeps status_line_ok data _ Hi0)].
  - split; [apply mut_buf_declared | apply (core_mut_buf_keeps status_line_ok len _ Hi0)].
  - split; [apply peek_decompressed_declared | apply (core_peek_decompressed_keeps status_line_ok output _ Hi0)].
  - split; [by apply (consume_declared status_line_ok) | apply (core_consume_body_keeps status_line_ok len _ Hi0)].
  - split; [by apply (on_body_declared status_line_ok 0) | apply (core_progress_keeps status_line_ok _ Hi0)].
Qed.

(** The trailers handed out at the end of the body of the response [h]. *)
Lemma response_trailers_declared d0 d1 h k d d' len ts :
  rs_inv d0 -> rs_decode_headers d0 = (d1, Ok (Some (h, k))) -> rtc rs_body_call d1 d ->
  rs_progress d = (d', Ok (ProgressComplete ts)) \/ rs_consume_body len d = (d', Ok (ProgressComplete ts)) ->
  Forall (allowed_trailer (ResponseHead.headers h)) ts /\ blen ts <= max_headers_count (c_limits (rs_core d0)).
Proof.
  intros Hi0 Hd Hs Hp. pose proof (rs_decode_headers_post d0 Hi0) as Hpost. pose proof (rs_headers_limits d0 Hi0) as Hlim.
  rewrite Hd in Hpost, Hlim. cbn [fst] in Hlim. destruct Hpost as (Hi1 & _ & _ & _ & [Hdec _]).
  assert (Hall : forall d1, rtc rs_body_call d1 d -> rs_inv d1 -> rs_inv d /\
    declared_trailers (c_body_decoder (rs_core d)) = declared_trailers (c_body_decoder (rs_core d1)) /\
    c_limits (rs_core d) = c_limits (rs_core d1)).
  { clear. intros d1. induction 1 as [d1|d1 d2 d3 Hc _ IH]; [done|]. intros Hi.
    destruct (rs_body_call_declared d1 d2 Hi Hc) as (Hi2 & Hd & Hl). rewrite <- Hd, <- Hl. by apply IH. }
  destruct (Hall _ Hs Hi1) as ([Hi _] & Hde & Hl). rewrite (rd_declared _ _ _ Hdec) in Hde.
  rewrite <- Hlim, <- Hl. revert Hp. unfold rs_progress, rs_consume_body, core_progress, core_consume_body.
  unfold on_core. cbn [core_of put_core rs_core_of]. intros [Hp|Hp].
  - destruct (on_body (consume_body 0 (c_limits (rs_core d))) (rs_core d)) as [c' r] eqn:Hb. injection Hp as _ ->.
    by apply (handed_out_ok status_line_ok _ 0 _ c').
  - destruct (len =? 0); [done|].
    destruct (on_body (consume_body len (c_limits (rs_core d))) (rs_core d)) as [c' r] eqn:Hb. injection Hp as _ ->.
    by apply (handed_out_ok status_line_ok _ len _ c').
Qed.
End Api.

(** ** Framing *)

(** The kind of the body by the headers alone. *)
Definition headers_kind (hs : list (str * str)) (limits : DecoderLimits) (v : str) (k : BodyKind) : Prop :=
  let codings_ok :=
    forallb coding_ok (te_tokens hs) = true /\ chunked_count (te_tokens hs) <= 1 in
  match k with
  | KChunked => codings_ok /\ te_kind (te_tokens hs) = TeChunked /\ cl_values hs = [] /\ v = B "HTTP/1.1"
  | KContentLength n => te_tokens hs = [] /\ length_is n hs /\ n <= max_body_size limits
  | KCloseDelimited => codings_ok /\ te_kind (te_tokens hs) <> TeChunked /\ cl_values hs = []
  | _ => False
  end.

Lemma te_kind_none ts : te_kind ts = TeNone <-> ts = [].
Proof.
  unfold te_kind. destruct (list.last ts) as [t|] eqn:Hl.
  - split; [by destruct (is_chunked_coding t) | by intros ->].
  - by apply last_None in Hl.
Qed.

Lemma resolve_response_iff hs te cl :
  resolve_body_headers_for_response hs = Ok (te, cl) <->
  (forallb coding_ok (te_tokens hs) = true /\ chunked_count (te_tokens hs) <= 1) /\
  te = te_kind (te_tokens hs) /\
  if bool_decide (te = TeNone) then parse_content_length hs = Ok cl else cl = None /\ cl_values hs = [].
Proof.
  unfold resolve_body_headers_for_response, invalid.
  pose proof (parse_te_response_iff hs) as Hte. pose proof (parse_content_length_iff hs None) as Hno.
  destruct (parse_transfer_encoding_for_response hs) as [te0|e]; cbn [mbind result_bind].
  2: { split; [done|]. intros ([H1 H2] & -> & _). by discriminate (proj2 (Hte _) (conj H1 (conj H2 eq_refl))). }
  destruct (proj1 (Hte te0) eq_refl) as (H1 & H2 & H3).
  destruct (parse_content_length hs) as [cl0|e] eqn:Hcl; cbn [mbind result_bind].
  - case_bool_decide as H0; cbn [negb andb].
    + split.
      { intros [= <- <-]%Ok_inj. split; [done|]. split; [congruence|]. by rewrite bool_decide_true. }
     
      intros (_ & -> & Hx). rewrite <- H3, H0, bool_decide_true in Hx by done. apply Ok_inj in Hx as ->. by rewrite <- H3, H0.
    + destruct cl0 as [n|]; cbn [is_some].
      * split; [done|]. intros (_ & -> & Hx). rewrite <- H3, bool_decide_false in Hx by done.
        destruct Hx as [_ Hx]. by discriminate (proj2 Hno (or_introl (conj Hx eq_refl))).
      * assert (Hn : cl_values hs = []) by (destruct (proj1 Hno eq_refl) as [[? _]|(n & ? & _)]; done).
        split; [intros [= <- <-]%Ok_inj; by rewrite bool_decide_false|].
        intros (_ & -> & Hx). rewrite <- H3, bool_decide_false in Hx by done. destruct Hx as [-> _]. by rewrite <- H3.
  - split; [done|]. intros (_ & -> & Hx). case_bool_decide; [done|]. destruct Hx as [_ Hx].
    by discriminate (proj2 Hno (or_introl (conj Hx eq_refl))).
Qed.

(** How [determine_body_kind] frames a response. *)
Lemma response_framing_iff m l limits code hs k hs' :
  determine_body_kind_response m (Some l) limits code hs = Ok (k, hs') <->
  if method_is "HEAD" m || negb (status_has_body code) then k = KNone /\ hs' = hs
  else if method_is "CONNECT" m && ((200 <=? code) && (code <? 300)) then k = KTunnel /\ hs' = drop_framing hs
  else
    hs' = hs /\ headers_kind hs limits (hd [] (split " " l)) k /\
    (existsb (named (B "Transfer-Encoding")) hs = true -> hd [] (split " " l) = B "HTTP/1.1").
Proof.
  unfold determine_body_kind_response. destruct (_ || _).
  { split; [by intros [= <- <-]%Ok_inj | by intros [-> ->]]. }
  destruct (_ && _); [split; [by intros [= <- <-]%Ok_inj | by intros [-> ->]]|].
  set (v := hd [] (split " " l)).
  assert (Hgate : (negb (v =s B "HTTP/1.1") && existsb (named (B "Transfer-Encoding")) hs = false) <->
                  (existsb (named (B "Transfer-Encoding")) hs = true -> v = B "HTTP/1.1")).
  { rewrite <- beqs_eq. destruct (v =s _), (existsb _ hs); cbn; naive_solver. }
  destruct (negb (v =s B "HTTP/1.1") && existsb (named (B "Transfer-Encoding")) hs) eqn:Hg.
  { unfold invalid. split; [done|]. intros (_ & _ & Hx). by apply Hgate in Hx. }
  assert (Hv : existsb (named (B "Transfer-Encoding")) hs = true -> v = B "HTTP/1.1") by (by apply Hgate).
  pose proof (resolve_response_iff hs) as Hr.
  pose proof (parse_content_length_iff hs) as Hcl. pose proof (te_kind_none (te_tokens hs)) as Hnone.
  unfold headers_kind. destruct (resolve_body_headers_for_response hs) as [[te cl]|e]; cbn [mbind result_bind].
  - destruct (proj1 (Hr te cl) eq_refl) as (Hok & Hte & Hcase). clear Hr. rewrite <- Hte in *.
    destruct te; cbn [bool_decide] in Hcase.
    + rewrite bool_decide_true in Hcase by done. rewrite (proj1 Hnone eq_refl) in *.
      apply Hcl in Hcase. destruct Hcase as [[Hc ->]|(n & -> & Hn)].
      * split; [by intros [= <- <-]%Ok_inj|]. intros (-> & Hk & _). destruct k as [n| | | |]; try done.
        -- destruct Hk as (_ & [Hx _] & _). by rewrite Hc in Hx.
        -- by destruct Hk as (_ & ? & _).
      * destruct (max_body_size limits <? n) eqn:Hm; [split; [done|]|].
        -- intros (_ & Hk & _). destruct k as [n'| | | |]; try done.
           ++ destruct Hk as (_ & Hx & Hy). rewrite (length_is_unique _ _ _ Hx Hn) in Hy. lia.
           ++ by destruct Hk as (_ & ? & _).
           ++ destruct Hk as (_ & _ & Hx). destruct Hn as [Hn _]. by rewrite Hx in Hn.
        -- split; [intros [= <- <-]%Ok_inj; split_and!; try done; lia|].
           intros (-> & Hk & _). destruct k as [n'| | | |]; try done.
           ++ destruct Hk as (_ & Hx & Hy). by rewrite (length_is_unique _ _ _ Hx Hn).
           ++ by destruct Hk as (_ & ? & _).
           ++ destruct Hk as (_ & _ & Hx). destruct Hn as [Hn _]. by rewrite Hx in Hn.
    + destruct Hcase as [-> Hc].
      assert (Hver : v = B "HTTP/1.1").
      { apply Hv. destruct (existsb _ hs) eqn:Hx; [done|]. apply te_tokens_absent in Hx. by apply Hnone in Hx. }
      split; [by intros [= <- <-]%Ok_inj|]. intros (-> & Hk & _). destruct k as [n| | | |]; try done.
      * destruct Hk as [Hx _]. by apply Hnone in Hx.
      * by destruct Hk as (_ & ? & _).
    + destruct Hcase as [-> Hc]. split; [by intros [= <- <-]%Ok_inj|].
      intros (-> & Hk & _). destruct k as [n| | | |]; try done.
      * destruct Hk as [Hx _]. by apply Hnone in Hx.
      * by destruct Hk as (_ & ? & _).
  - split; [done|]. intros (_ & Hk & _). exfalso. destruct k as [n| | | |]; try done.
    + destruct Hk as (Hx & Hn & _). discriminate (proj2 (Hr TeNone (Some n))). rewrite Hx. split_and!; try done.
      apply Hcl. right. by exists n.
    + destruct Hk as (Hok & Hx & Hc & _). by discriminate (proj2 (Hr TeChunked None) (conj Hok (conj (eq_sym Hx) (conj eq_refl Hc)))).
    + destruct Hk as (Hok & Hx & Hc). destruct (te_kind (te_tokens hs)) eqn:Hk; [|done|].
      * discriminate (proj2 (Hr TeNone None)). split; [exact Hok|]. split; [done|]. apply Hcl. by left.
      * by discriminate (proj2 (Hr TeOther None) (conj Hok (conj eq_refl (conj eq_refl Hc)))).
Qed.

(** ** The status line *)

(** A line passes the checks of a status line exactly when it is one line
    of a version, a space, a status that reads as a number from 100 to 599 and,
    if there is more, a space and a reason phrase, which may be empty. *)
Lemma status_line_exact l :
  check_status_line l = Ok tt <->
  contains_byte CR l = false /\ contains_byte LF l = false /\
  exists v s code,
    is_valid_protocol_version v = true /\ contains_byte " " s = false /\
    parse_u16 s = Some code /\ 100 <= code <= 599 /\
    (l = v ++ B " " ++ s \/
     exists reason, l = v ++ B " " ++ s ++ B " " ++ reason /\ (reason = [] \/ is_valid_reason_phrase reason = true)).
Proof.
  assert (Hcode : forall code, is_valid_status_code code = true <-> 100 <= code <= 599)
    by (intros; unfold is_valid_status_code; lia).
  rewrite check_status_line_iff. split.
  - intros (v & s & code & reason & [Hl [Hc1 Hc2] Hv Hs Hp Hc Hr]). split_and!; [done..|].
    exists v, s, code. split_and!; try done; try by apply Hcode.
    destruct Hl as [-> | [-> _]]; [right; by exists reason | by left].
  - intros (Hc1 & Hc2 & v & s & code & Hv & Hs & Hp & Hc & Hl). apply Hcode in Hc.
    destruct Hl as [-> | (reason & -> & Hr)].
    + exists v, s, code, []. split; try done; [by right | by left].
    + exists v, s, code, reason. split; try done. by left.
Qed.

Lemma parse_zeros max z s : parse_digits 10 max 0 (replicate z "0"%byte ++ s) = parse_digits 10 max 0 s.
Proof. induction z as [|z IH]; [done|]. cbn [replicate app parse_digits].
  change (digit_value 10 "0") with (Some 0). cbn [mbind option_bind]. by rewrite (proj2 (N.leb_le (0 * 10 + 0) max)) by lia.
Qed.

(** A status that is not three digits passes: with a plus sign before it,
    and with any number of zeros before it. *)
Lemma status_code_sign_and_zeros v code z (plus : bool) :
  is_valid_protocol_version v = true -> 100 <= code <= 599 ->
  check_status_line (v ++ B " " ++ (if plus then B "+" else []) ++ replicate z "0"%byte ++ show_dec code ++ B " OK")
  = Ok tt.
Proof.
  intros Hv Hc. set (ds := replicate z "0"%byte ++ show_dec code).
  assert (Hds : forallb is_ascii_digit ds = true).
  { unfold ds. rewrite forallb_app, show_dec_digits, andb_true_r. induction z; [done|exact IHz]. }
  assert (Hne : ds <> []) by (unfold ds; destruct z; [apply show_dec_not_nil | done]).
  assert (Hp : parse_digits 10 u16_MAX 0 ds = Some code).
  { unfold ds. rewrite parse_zeros. apply parse_digits_show. unfold u16_MAX. lia. }
  assert (Hsafe : forall c, is_ascii_digit c = false -> contains_byte c ds = false)
    by (intros; by eapply contains_byte_forallb).
  set (s := (if plus then B "+" else []) ++ ds).
  assert (Hs : forall c, is_ascii_digit c = false -> c <> "+"%byte -> contains_byte c s = false).
  { intros c H1 H2. unfold s. rewrite contains_byte_app, (Hsafe c H1), orb_false_r. destruct plus; [|done].
    unfold contains_byte. cbn [B existsb]. apply orb_false_iff. split; [|done]. by apply byte_eqb_neq, not_eq_sym. }
  replace (v ++ B " " ++ (if plus then B "+" else []) ++ replicate z "0"%byte ++ show_dec code ++ B " OK")
    with (v ++ " "%byte :: s ++ " "%byte :: B "OK")
    by (unfold s, ds; cbn [app]; by rewrite <- !app_assoc).
  assert (Hv' : forall c, is_token_char c || (c =b "/") = false -> contains_byte c v = false).
  { intros c. apply (contains_byte_forallb c v _ (proj2 (protocol_version_chars v Hv))). }
  assert (Hl : forall c, c = CR \/ c = LF -> contains_byte c (v ++ " "%byte :: s ++ " "%byte :: B "OK") = false).
  { intros c Hcr. change (v ++ " "%byte :: s ++ " "%byte :: B "OK") with (v ++ [" "%byte] ++ s ++ B " OK").
    rewrite !contains_byte_app, Hv', Hs by (by destruct Hcr as [-> | ->]). by destruct Hcr as [-> | ->]. }
  apply check_status_line_iff. exists v, s, code, (B "OK"). split; try done.
  - by left.
  - split; apply Hl; auto.
  - by apply Hs.
  - unfold parse_u16, from_str_radix, s. destruct plus; cbn [app B].
    + destruct ds; [done|exact Hp].
    + rewrite <- Hp. apply (from_str_radix_digits u16_MAX ds Hne Hds).
  - unfold is_valid_status_code. lia.
  - by right.
Qed.

(** ** Concrete runs *)

Definition start_response : ResponseDecoder NoCompression := rs_new NoCompression_new DecoderLimits_default.

Definition example_response : bytes :=
  B "HTTP/1.1 200 OK" ++ CRLF ++ B "Transfer-Encoding: chunked" ++ CRLF ++ CRLF ++
  B "2" ++ CRLF ++ B "ok" ++ CRLF ++ B "0" ++ CRLF ++ CRLF.

Lemma rs_fed_reachable data :
  rs_reachable NoCompression_new DecoderLimits_default (rs_feed_unchecked data start_response).
Proof. apply (rs_next _ _ start_response (RsFeedUnchecked data)), rs_start. Defined.

(** A call in each build; ending the connection while a slice is out panics in
    a debug build. *)
Definition response_slice_out : ResponseDecoder NoCompression := fst (rs_debug_step (RsMutBuf 8) start_response).

Lemma response_slice_out_reachable : rs_debug_reachable NoCompression_new DecoderLimits_default response_slice_out.
Proof.
  apply (rs_debug_next NoCompression_new DecoderLimits_default start_response (RsMutBuf 8)); [apply rs_debug_start|].
  vm_compute. discriminate.
Defined.


Example decoded_response_valid_at :
  exists d' m, rs_decode (rs_feed_unchecked example_response start_response) = (d', Ok (Some m)) /\
               Response.body m = Some (B "ok") /\ Response.valid m = true.
Proof.
  eexists _, _. split; [vm_compute; reflexivity|]. split; [reflexivity|].
  eapply (decoded_response_valid NoCompression_new DecoderLimits_default);
    [apply limits_ok_default | apply (rs_fed_reachable example_response) | vm_compute; reflexivity].
Defined.

Lemma responses_any_segmentation_witness :
  same_run (at_eof true (fed_pieces [example_response] start_response))
           (at_eof true (fed_pieces (map (fun b => [b]) example_response) start_response)).
Proof.
  pose proof (responses_any_segmentation NoCompression_new DecoderLimits_default start_response [example_response]
    (map (fun b => [b]) example_response) true limits_ok_default (rs_unmixed_start _ _)) as [_ Hs];
    [done..|vm_compute; reflexivity|].
  apply Hs. vm_compute. discriminate.
Defined.

Lemma status_code_sign_and_zeros_witness :
  check_status_line (B "HTTP/1.1 +0200 OK") = Ok tt.
Proof. apply (status_code_sign_and_zeros (B "HTTP/1.1") 200 1 true); [reflexivity | lia]. Defined.
