(* ===== verification/BufferLimit.v ===== *)
(** * The receive buffer stays within its limit

    As long as the caller feeds with [feed] or through the slice of [mut_buf],
    and not with [feed_unchecked], no sequence of calls takes the buffer of a
    decoder over [max_buffer_size]. *)
From S2P Require Import Prelude RustStd Errors Validate Trailer Head Message.
From S2P Require Import Buffer BodyDecoder BodyFacts Compression DecoderCore CoreFacts CoreApi HeadFacts.
From S2P Require Import RequestDecoder RequestFacts RequestTheorems ResponseDecoder ResponseFacts ResponseTheorems.

Section Core.
Context {D : Type} `{Decompressor D}.

Implicit Types c : Core D.

Definition bounded c : Prop := blen (c_buf c) <= max_buffer_size (c_limits c).

(** Under the same limits, a buffer that did not grow. *)
Lemma bounded_shrinks c c' :
  c_limits c' = c_limits c -> (core_buffered c' <= core_buffered c)%nat -> bounded c -> bounded c'.
Proof. unfold bounded, core_buffered, blen. intros ->. lia. Qed.

Lemma feed_bounded data c : bounded c -> bounded (fst (core_feed data c)).
Proof.
  unfold core_feed. destruct (feed _ _ _) as [b|e] eqn:Hf; [|done]. intros _.
  by apply feed_Ok in Hf as [_ Hb].
Qed.

Lemma mut_buf_bounded len c : bounded c -> bounded (fst (core_mut_buf len c)).
Proof.
  unfold core_mut_buf, bounded. intros Hb. destruct (mut_buf _ _ _ _) as [[b p] r] eqn:Hm. cs. cbn [fst]. cs.
  revert Hm. unfold mut_buf, overflow. set (b0 := if 0 <? c_pending c then _ else _).
  assert (H0 : blen b0 <= blen (c_buf c)) by (subst b0; destruct (0 <? _); [rewrite truncate_blen|]; lia).
  rewrite checked_add_eq. destruct (usize_MAX <? _); [intros [= <- _ _]; lia|].
  destruct (_ <? blen b0 + len) eqn:E; intros [= <- _ _]; [lia|]. rewrite blen_app, blen_replicate. lia.
Qed.

(** The caller writes no more than the slice holds, which is part of the buffer. *)
Lemma write_slice_bounded len data c :
  blen data <= len -> len <= blen (c_buf c) -> bounded c -> bounded (core_write_slice len data c).
Proof.
  unfold bounded, core_write_slice, write_slice. cs. intros Hd Hl Hb.
  rewrite !blen_app, blen_take, blen_drop. unfold blen in *. lia.
Qed.

Lemma advance_buf_bounded len c : bounded c -> bounded (core_advance_buf len c).
Proof.
  unfold bounded, core_advance_buf. intros Hb. destruct (advance_buf _ _ _) as [b p] eqn:Ha. cs.
  injection Ha as <- _. destruct (0 <? _); [rewrite truncate_blen|]; lia.
Qed.

Lemma empty_bounded c : c_buf c = [] -> bounded c.
Proof. unfold bounded. intros ->. rewrite blen_nil. lia. Qed.

Lemma peek_decompressed_bounded output c : bounded c -> bounded (fst (core_peek_body_decompressed output c)).
Proof.
  unfold core_peek_body_decompressed. rewrite core_peek_eq. destruct (decompress _ _ _) as [[z o] [[[] []|[] []|]|e]]; done.
Qed.

Lemma on_body_bounded line_ok len c :
  core_inv line_ok c -> bounded c -> bounded (fst (on_body (consume_body len (c_limits c)) c)).
Proof.
  intros Hi. apply bounded_shrinks; [apply (on_body_keeps line_ok len c Hi) | by apply (on_body_shrinks line_ok)].
Qed.

Lemma consume_bounded line_ok len c : core_inv line_ok c -> bounded c -> bounded (fst (core_consume_body len c)).
Proof. intros Hi. unfold core_consume_body. destruct (len =? 0); [done|]. by apply (on_body_bounded line_ok). Qed.
End Core.

(** ** Requests *)

Section Requests.
Context {D : Type} `{Decompressor D}.

Implicit Types d : RequestDecoder D.

(** The calls that keep to the limit: not [feed_unchecked], and what is written
    into a slice fits it. *)
Definition rq_within (call : rq_call) d : Prop :=
  match call with
  | CallFeedUnchecked _ => False
  | CallWriteSlice len data => blen data <= len /\ len <= blen (c_buf (rq_core d))
  | _ => True
  end.

Inductive rq_careful (z : D) (limits : DecoderLimits) : RequestDecoder D -> Prop :=
  | rq_careful_start : rq_careful z limits (rq_new z limits)
  | rq_careful_next d call : rq_careful z limits d -> rq_within call d -> rq_careful z limits (fst (rq_step call d)).

Lemma rq_step_bounded call d :
  rq_inv d -> rq_within call d -> bounded (rq_core d) -> bounded (rq_core (fst (rq_step call d))).
Proof.
  intros Hi Hw Hb. pose proof (ri_core _ Hi) as [Hc _].
  destruct call; cbn [rq_step rq_within] in *; rewrite ?discard_fst; try done.
  - unfold rq_feed. rewrite rq_on_core. by apply feed_bounded.
  - unfold rq_mut_buf. rewrite rq_on_core. by apply mut_buf_bounded.
  - destruct Hw. by apply write_slice_bounded.
  - by apply advance_buf_bounded.
  - eapply bounded_shrinks; [by apply rq_decode_limits | | exact Hb].
    pose proof (rq_decode_inv d Hi) as Hp. destruct (rq_decode d) as [d' r]. by destruct Hp as (_ & _ & Hle).
  - pose proof (decode_headers_post _ (ri_core _ Hi)) as Hp.
    unfold rq_decode_headers. rewrite rq_on_core. destruct (rq_core_decode_headers (rq_core d)) as [c' r].
    destruct Hp as (_ & _ & Hle & [Hl _] & _). by apply (bounded_shrinks (rq_core d)).
  - unfold rq_peek_body_decompressed. rewrite rq_on_core. by apply peek_decompressed_bounded.
  - unfold rq_consume_body. rewrite rq_on_core. by apply (consume_bounded request_line_ok).
  - unfold rq_progress. rewrite rq_on_core. by apply (on_body_bounded request_line_ok).
  - by apply empty_bounded.
  - by apply empty_bounded.
Qed.
End Requests.

(** ** Responses *)

Section Responses.
Context {D : Type} `{Decompressor D}.

Implicit Types d : ResponseDecoder D.

Definition rs_within (call : rs_call) d : Prop :=
  match call with
  | RsFeedUnchecked _ => False
  | RsWriteSlice len data => blen data <= len /\ len <= blen (c_buf (rs_core d))
  | _ => True
  end.

Inductive rs_careful (z : D) (limits : DecoderLimits) : ResponseDecoder D -> Prop :=
  | rs_careful_start : rs_careful z limits (rs_new z limits)
  | rs_careful_next d call : rs_careful z limits d -> rs_within call d -> rs_careful z limits (fst (rs_step call d)).

Lemma rs_step_bounded call d :
  rs_inv d -> rs_within call d -> bounded (rs_core d) -> bounded (rs_core (fst (rs_step call d))).
Proof.
  intros Hi Hw Hb. pose proof (rsi_core _ Hi) as Hc.
  destruct call; cbn [rs_step rs_within] in *; rewrite ?discard_fst; try done.
  - unfold rs_feed. rewrite rs_on_core. by apply feed_bounded.
  - unfold rs_mut_buf. rewrite rs_on_core. by apply mut_buf_bounded.
  - destruct Hw. by apply write_slice_bounded.
  - by apply advance_buf_bounded.
  - unfold mark_eof. cbn [modify fst]. by destruct (c_phase (rs_core d)).
  - destruct (rs_decode_rest d Hi) as [Hl Hle]. by apply (bounded_shrinks (rs_core d)).
  - eapply bounded_shrinks; [by apply rs_headers_limits | | exact Hb].
    pose proof (rs_decode_headers_post d Hi) as Hp. destruct (rs_decode_headers d) as [d' r].
    by destruct Hp as (_ & _ & Hle & _).
  - unfold rs_peek_body_decompressed. rewrite rs_on_core. by apply peek_decompressed_bounded.
  - unfold rs_consume_body. rewrite rs_on_core. by apply (consume_bounded status_line_ok).
  - unfold rs_progress. rewrite rs_on_core. by apply (on_body_bounded status_line_ok).
  - by apply empty_bounded.
  - by apply empty_bounded.
Qed.
End Responses.

(** ** Both decoders *)

Section Limit.
Context {D : Type} `{Decompressor D}.

(** What a step keeps: the limits, too, are those of the start. *)
Lemma rq_step_limits call (d : RequestDecoder D) : rq_inv d -> c_limits (rq_core (fst (rq_step call d))) = c_limits (rq_core d).
Proof.
  intros Hi. pose proof (ri_core _ Hi) as [Hc _].
  destruct call; cbn [rq_step]; rewrite ?discard_fst; try done;
    unfold rq_feed, rq_mut_buf, rq_peek_body_decompressed, rq_consume_body, rq_progress; rewrite ?rq_on_core.
  - apply (core_feed_keeps request_line_ok data _ Hc).
  - apply (core_mut_buf_keeps request_line_ok len _ Hc).
  - by apply rq_decode_limits.
  - pose proof (decode_headers_post _ (ri_core _ Hi)) as Hp. unfold rq_decode_headers. rewrite rq_on_core.
    destruct (rq_core_decode_headers (rq_core d)) as [c' r]. by destruct Hp as (_ & _ & _ & [Hl _] & _).
  - apply (core_peek_decompressed_keeps request_line_ok output _ Hc).
  - apply (core_consume_body_keeps request_line_ok len _ Hc).
  - apply (core_progress_keeps request_line_ok _ Hc).
Qed.

Lemma rs_step_limits call (d : ResponseDecoder D) : rs_inv d -> c_limits (rs_core (fst (rs_step call d))) = c_limits (rs_core d).
Proof.
  intros Hi. pose proof (rsi_core _ Hi) as Hc.
  destruct call; cbn [rs_step]; rewrite ?discard_fst; try done;
    unfold rs_feed, rs_mut_buf, rs_peek_body_decompressed, rs_consume_body, rs_progress; rewrite ?rs_on_core.
  - apply (core_feed_keeps status_line_ok data _ Hc).
  - apply (core_mut_buf_keeps status_line_ok len _ Hc).
  - unfold mark_eof. cbn [modify fst]. by destruct (c_phase (rs_core d)).
  - apply (rs_decode_rest d Hi).
  - by apply rs_headers_limits.
  - apply (core_peek_decompressed_keeps status_line_ok output _ Hc).
  - apply (core_consume_body_keeps status_line_ok len _ Hc).
  - apply (core_progress_keeps status_line_ok _ Hc).
Qed.

Lemma rq_careful_inv (z : D) limits d :
  limits_ok limits -> rq_careful z limits d -> rq_inv d /\ bounded (rq_core d) /\ c_limits (rq_core d) = limits.
Proof.
  intros Hl. induction 1 as [|d call _ (Hi & Hb & Hlim) Hw].
  - split_and!; [by apply rq_new_inv | by apply empty_bounded | done].
  - split_and!; [by apply rq_step_inv | by apply rq_step_bounded | by rewrite rq_step_limits].
Qed.

Lemma rs_careful_inv (z : D) limits d :
  limits_ok limits -> rs_careful z limits d -> rs_inv d /\ bounded (rs_core d) /\ c_limits (rs_core d) = limits.
Proof.
  intros Hl. induction 1 as [|d call _ (Hi & Hb & Hlim) Hw].
  - split_and!; [by apply rs_new_inv | by apply empty_bounded | done].
  - split_and!; [by apply rs_step_inv | by apply rs_step_bounded | by rewrite rs_step_limits].
Qed.

(** C17: The receive buffer never holds more than [max_buffer_size] bytes, and the
    limits stay those the decoder was made with, in every state that a decoder
    reaches by calls other than [feed_unchecked], failed calls and the slices of
    [mut_buf] included. *)
Theorem buffer_within_limit (z : D) limits :
  limits_ok limits ->
  (forall d, rq_careful z limits d ->
     blen (c_buf (rq_core d)) <= max_buffer_size limits /\ c_limits (rq_core d) = limits) /\
  (forall d, rs_careful z limits d ->
     blen (c_buf (rs_core d)) <= max_buffer_size limits /\ c_limits (rs_core d) = limits).
Proof.
  intros Hl. split; intros d Hc.
  - destruct (rq_careful_inv z limits d Hl Hc) as (_ & Hb & E). unfold bounded in Hb. by rewrite E in Hb.
  - destruct (rs_careful_inv z limits d Hl Hc) as (_ & Hb & E). unfold bounded in Hb. by rewrite E in Hb.
Qed.
End Limit.

(** A buffer of eight bytes: five are fed, five more are refused, and a slice of
    three fills it. *)
Definition small_limits : DecoderLimits :=
  {| max_buffer_size := 8; max_headers_count := 2; max_header_line_size := 16; max_body_size := 4; max_chunk_line_size := 8 |}.

Definition full_decoder : RequestDecoder NoCompression :=
  fst (rq_step (CallMutBuf 3) (fst (rq_step (CallFeed (B "67890"))
    (fst (rq_step (CallFeed (B "12345")) (rq_new NoCompression_new small_limits)))))).

Lemma buffer_within_limit_witness :
  blen (c_buf (rq_core full_decoder)) = 8 /\
  blen (c_buf (rq_core full_decoder)) <= max_buffer_size small_limits /\ c_limits (rq_core full_decoder) = small_limits.
Proof.
  split; [vm_compute; reflexivity|].
  assert (Hl : limits_ok small_limits) by (by vm_compute).
  apply (proj1 (buffer_within_limit NoCompression_new small_limits Hl) full_decoder).
  unfold full_decoder. do 3 (apply rq_careful_next; [|done]). apply rq_careful_start.
Defined.
