(* ===== verification/Limits.v ===== *)
(** * Limits and progress

    What one step of the body decoder counts and when it waits; with it, that
    the messages of a connection stay within the limits, and that [decode]
    returns without a message only when the next byte it needs is not there.
    Last, what frames a message, of either kind. *)
From stdpp Require Import relations.
From S2P Require Import Prelude RustStd Errors Validate Host Target Trailer Framing StatusCode Head Message.
From S2P Require Import Buffer BodyDecoder BodyFacts Compression DecoderCore CoreFacts CoreApi HeadFacts Stream.
From S2P Require Import FramingFacts RequestDecoder RequestFacts RequestTheorems ResponseDecoder ResponseFacts ResponseTheorems.

(** ** One step *)

(** The bytes the state needs next are not in the buffer. *)
Definition starved (p : DecodePhase) (buf : bytes) : Prop :=
  match p with
  | StartLine | Headers | BodyChunkedSize | ChunkedTrailer => find_line buf = None
  | BodyContentLength _ | BodyChunkedData _ | BodyCloseDelimited => buf = []
  | BodyChunkedDataCrlf => blen buf < 2
  | Tunnel | Complete => False
  end.

Section Step.
Context (limits : DecoderLimits).
Hypothesis Hmax : max_body_size limits <= usize_MAX.

Implicit Types s : BodyState.

Lemma trailers_consumed s :
  body_inv limits s -> b_phase s = ChunkedTrailer ->
  body_consumed (b_self (fst (process_trailers limits s))) = body_consumed (b_self s).
Proof.
  intros Hi Hp. unfold process_trailers.
  pose proof (loop_rule (trailers_round limits)
    (fun '(t, a) => body_inv limits t /\ body_consumed (b_self t) = body_consumed (b_self s))
    (fun p (r : result (exn Error.t) bool) => body_consumed (b_self (fst p)) = body_consumed (b_self s))
    (fun p => buffered (fst p)) (S (length (b_buf s))) (s, false)) as HL.
  destruct (loop _ _ _) as [[s' b] r]. apply HL; [|done|unfold buffered; simpl; lia]. clear HL.
  intros [t a] (Hti & Htc). pose proof (trailers_round_inv limits t a Hti) as Hr.
  destruct (trailers_round limits (t, a)) as [[t' a'] [[|v]|e]]; cbn [fst];
    destruct Hr as (H1 & _ & H3 & _ & _ & H6); [split_and!; [done | congruence | apply H6] | congruence..].
Qed.

Lemma chunked_size_consumed s :
  body_inv limits s -> b_phase s = BodyChunkedSize ->
  body_consumed (b_self (fst (process_chunked_size limits s))) = body_consumed (b_self s) /\
  (snd (process_chunked_size limits s) = Ok tt ->
   b_phase (fst (process_chunked_size limits s)) = BodyChunkedSize -> find_line (b_buf s) = None).
Proof.
  intros Hi Hp. destruct (find_line (b_buf s)) as [pos|] eqn:Hf;
    [|by rewrite process_chunked_size_idle by (intros; done)].
  rewrite (process_chunked_size_eq _ _ _ Hp Hf). destruct (_ <? _); [done|].
  destruct (chunk_line_size _) as [size|e]; [|done]. cbv zeta. destruct (size =? 0).
  - set (t := with_phase ChunkedTrailer (drain (pos + 2) s)).
    assert (Hti : body_inv limits t) by (destruct Hi as [H1 H2 H3]; rewrite Hp in H1; by split).
    pose proof (trailers_consumed t Hti eq_refl) as Hc. pose proof (process_trailers_inv limits t Hti eq_refl) as Ht.
    destruct (process_trailers limits t) as [s2 [a|e]]; cbn [fst snd] in *; (split; [exact Hc|]); [|done].
    destruct Ht as (_ & _ & _ & [[[Hx _]|[Hx _]] _]); by rewrite Hx.
  - destruct (usize_MAX <? _); [done|]. by destruct (max_body_size limits <? _).
Qed.

Lemma chunk_end_spec s :
  b_phase s = BodyChunkedDataCrlf ->
  match chunk_end s with
  | (s', Ok NeedData) => s' = s /\ blen (b_buf s) < 2
  | (s', Ok _) => body_consumed (b_self s') = body_consumed (b_self s)
  | (_, Err _) => True
  end.
Proof.
  intros Hp. unfold chunk_end. rewrite ?take_chunk_crlf_eq. unfold fail, throw.
  destruct (2 <=? length (b_buf s))%nat eqn:Hl; [by destruct (negb _)|]. split; [done|].
  apply Nat.leb_gt in Hl. unfold blen. lia.
Qed.

Definition step_counts s (data : bytes) s' (f : flow bool) : Prop :=
  body_consumed (b_self s') = body_consumed (b_self s) + blen data /\
  (f = Break false -> starved (b_phase s') (b_buf s') /\ data = []).

Lemma step_counts_length s remaining data s' f :
  body_inv limits s -> b_phase s = BodyContentLength remaining ->
  body_step limits s = (data, s', Ok f) -> step_counts s data s' f.
Proof.
  intros Hi Hp. rewrite (body_step_length limits Hmax s _ Hi Hp).
  destruct (is_empty (b_buf s)) eqn:He.
  { apply is_empty_nil in He. intros [= <- <- <-]. split; [rewrite blen_nil; lia|]. by rewrite Hp. }
  cbv zeta. destruct (_ =? 0); intros [= <- <- <-]; unfold take_data; (split; [|done]); bs; rewrite blen_take; lia.
Qed.

Lemma step_counts_data s remaining data s' f :
  body_inv limits s -> b_phase s = BodyChunkedData remaining ->
  body_step limits s = (data, s', Ok f) -> step_counts s data s' f.
Proof.
  intros Hi Hp. rewrite (body_step_data limits Hmax s _ Hi Hp).
  destruct (is_empty (b_buf s)) eqn:He.
  { apply is_empty_nil in He. intros [= <- <- <-]. split; [rewrite blen_nil; lia|]. by rewrite Hp. }
  cbv zeta. set (n := N.min remaining (blen (b_buf s))).
  assert (Hn : blen (take (N.to_nat n) (b_buf s)) = n) by (rewrite blen_take; lia).
  destruct (_ =? 0).
  - pose proof (chunk_end_spec (with_phase BodyChunkedDataCrlf (take_data n s)) eq_refl) as Hc.
    destruct (chunk_end _) as [s1 [p|e]]; [|done]. intros [= <- <- <-]. split; [|done]. rewrite Hn.
    destruct p; [done | by destruct Hc as [-> _] | done].
  - intros [= <- <- <-]. split; [|done]. rewrite Hn. done.
Qed.

Lemma step_counts_size s data s' f :
  body_inv limits s -> b_phase s = BodyChunkedSize ->
  body_step limits s = (data, s', Ok f) -> step_counts s data s' f.
Proof.
  intros Hi Hp. rewrite (body_step_size limits s Hp).
  pose proof (chunked_size_consumed s Hi Hp) as [Hc Hn]. pose proof (process_chunked_size_inv limits s Hi Hp) as Hpost.
  destruct (process_chunked_size limits s) as [s1 [[]|e]]; [|done]. cbn [fst snd] in *.
  destruct Hpost as (_ & _ & _ & _ & Hsame & _).
  destruct (b_phase s1) eqn:Hp1; intros [= <- <- <-]; (split; [cbn; rewrite Hc, blen_nil; lia|]); try done.
  intros _. specialize (Hn eq_refl eq_refl). rewrite (Hsame eq_refl eq_refl) in *. by rewrite Hp.
Qed.

Lemma step_counts_trailer s data s' f :
  body_inv limits s -> b_phase s = ChunkedTrailer ->
  body_step limits s = (data, s', Ok f) -> step_counts s data s' f.
Proof.
  intros Hi Hp. rewrite (body_step_trailer limits s Hp).
  pose proof (trailers_consumed s Hi Hp) as Hc. pose proof (process_trailers_inv limits s Hi Hp) as Hpost.
  destruct (process_trailers limits s) as [s1 [a|e]]; [|done]. cbn [fst snd] in *.
  destruct Hpost as (_ & _ & _ & Hph & _).
  destruct Hph as [[Hp1 ->]|[Hp1 Hf]]; rewrite Hp1; [|destruct a];
    intros [= <- <- <-]; (split; [cbn; rewrite Hc, blen_nil; lia|]); try done.
  intros _. by rewrite Hp1.
Qed.

Lemma step_counts_close s data s' f :
  b_phase s = BodyCloseDelimited -> body_step limits s = (data, s', Ok f) -> step_counts s data s' f.
Proof.
  intros Hp. unfold body_step. rewrite Hp, peek_body_close. destruct (is_empty (b_buf s)) eqn:He.
  - apply is_empty_nil in He. rewrite (consume_close_eq _ _ _ Hp).
    assert ((blen (b_buf s) <? 0) = false) as -> by lia. cbn [N.eqb].
    intros [= <- <- <-]. split; [rewrite blen_nil; lia|]. by rewrite Hp.
  - rewrite (consume_close_eq _ _ _ Hp), N.ltb_irrefl.
    assert ((blen (b_buf s) =? 0) = false) as ->.
    { apply N.eqb_neq. intros H0%blen_0. by rewrite H0 in He. }
    unfold body_too_large, throw. rewrite checked_add_eq. destruct (usize_MAX <? _); [done|].
    destruct (max_body_size limits <? _); [done|]. intros [= <- <- <-]. split; [done|].
    case_bool_decide; done.
Qed.

(** Every step counts the data it hands out, and stops only for want of input. *)
Lemma body_step_counts s data s' f :
  body_inv limits s -> body_step limits s = (data, s', Ok f) -> step_counts s data s' f.
Proof.
  intros Hi Hs. destruct (b_phase s) as [| |remaining| |remaining| | | | |] eqn:Hp.
  1, 2, 9: unfold body_step, peek_body, peek_len, consume_body in Hs; rewrite Hp in Hs; done.
  - by eapply step_counts_length.
  - by apply step_counts_size.
  - by eapply step_counts_data.
  - rewrite (body_step_crlf limits s Hp) in Hs. pose proof (chunk_end_spec s Hp) as Hc.
    destruct (chunk_end s) as [s1 [[| |ts]|e]] eqn:Hce; try done; injection Hs as <- <- <-.
    + split; [rewrite blen_nil; lia | done].
    + destruct Hc as [-> Hc]. split; [rewrite blen_nil; lia|]. by rewrite Hp.
    + by apply chunk_end_not_complete in Hce.
  - by apply step_counts_trailer.
  - by apply step_counts_close.
  - unfold body_step, peek_body, peek_len, consume_body in Hs. rewrite Hp in Hs. cbn in Hs. injection Hs as <- <- <-.
    split; [bs; rewrite blen_nil; lia | done].
Qed.
End Step.

(** ** The body loop *)

Section Core.
Context {D : Type} `{Decompressor D} (line_ok : str -> Prop).

Implicit Types c : Core D.

(** Data handed out so far is data counted. *)
Definition counted c : Prop := blen (c_decoded_body c) <= body_consumed (c_body_decoder c).

Definition waiting c : Prop := starved (c_phase c) (c_buf c).

Lemma counted_bound c : core_inv line_ok c -> counted c -> blen (c_decoded_body c) <= max_body_size (c_limits c).
Proof.
  intros [_ [Hc _ _] _ _ _ _]. unfold counted. cbn [body_state b_phase b_self] in Hc.
  destruct (c_phase c); lia.
Qed.

Definition loop_counts c (o : Core D * result (exn Error.t) bool) : Prop :=
  match o with
  | (c', Ok b) => (counted c -> counted c') /\ (b = false -> waiting c')
  | (_, Err _) => True
  end.

Lemma body_loop_counts c : core_inv line_ok c -> loop_counts c (body_loop c).
Proof.
  intros Hi. unfold body_loop.
  pose proof (loop_rule body_round (fun c1 => core_inv line_ok c1 /\ (counted c -> counted c1))
    (fun c' r => loop_counts c (c', r)) core_buffered (S (length (c_buf c))) c) as HL.
  destruct (loop _ _ _) as [c' r]. apply HL; [|done|apply Nat.lt_succ_diag_r]. clear HL.
  intros c1 [Hi1 Hc1]. rewrite body_round_eq. pose proof Hi1 as [(_ & _ & _ & Hmax & _) Hb _ _ _ _].
  destruct (body_step (c_limits c1) (body_state c1)) as [[d s] [f|e]] eqn:Hs; [|done].
  pose proof (body_step_counts _ Hmax _ _ _ _ Hb Hs) as [Hn Hw].
  assert (Hcs : counted c1 -> counted (stepped d s c1)).
  { unfold counted, stepped. cs. rewrite blen_app, Hn. cbn [body_state b_self]. lia. }
  destruct f as [|b].
  - split; [split; [by eapply stepped_inv | by auto]|]. by eapply body_step_shrinks in Hs.
  - split; [by auto|]. intros ->. by apply Hw.
Qed.

Lemma close_round_counts c :
  core_inv line_ok c -> c_phase c = BodyCloseDelimited \/ c_phase c = Complete ->
  loop_counts c (close_delimited_round c).
Proof.
  intros Hi [Hp|Hp].
  - destruct (close_round_spec c (inv_limits _ _ Hi) Hp) as [[Hb ->]|[(_ & Ha & ->)|(_ & _ & c' & s & _ & ->)]]; [..|done].
    + split; [done|]. intros _. unfold waiting. by rewrite Hp.
    + split; [|intros _; unfold waiting; cbn; by rewrite Hp].
      unfold counted, absorbed. cs. cbn [set_body_consumed body_consumed]. rewrite blen_app. lia.
  - unfold close_delimited_round, mbind, st_bind, gets. rewrite core_peek_eq. unfold core_peek_body. rewrite Hp. cbn.
    unfold mret, st_ret. by rewrite Hp.
Qed.
End Core.

(** ** Reading a head stops only for want of a line *)

Section HeadWaits.
Context {D T : Type} `{Decompressor D} `{CoreOfLaws D T} {Hd : Type}.
Context {line_ok : str -> Prop} {keep : T -> T -> Prop}.
Context {check_line : str -> result Error.t unit} {decoded : Hd -> BodyKind -> T -> Prop}.
Context {head_done : st T Error.t (flow (option (Hd * BodyKind)))} {next_message : T -> T}.
Context (R : head_reader line_ok keep check_line decoded head_done next_message).

Notation round := (head_round check_line head_done next_message).

Lemma head_round_waits t t' :
  head_inv line_ok t -> round t = (t', Ok (Break None)) -> waiting (core_of t').
Proof.
  intros Hi. unfold head_round, fail, throw. pose proof (head_round_post R t Hi) as Hpost.
  intros Hr. unfold head_round, fail, throw in Hpost. rewrite Hr in Hpost. destruct Hpost as [-> _].
  unfold waiting, starved. revert Hr. destruct (c_phase (core_of t)) eqn:Hp; try done.
  - destruct (find_line (c_buf (core_of t))) as [pos|] eqn:Hf; [|done]. rewrite (start_line_round_eq t pos Hf).
    cbv zeta. destruct (utf8_line _) as [line|e]; [|done]. by destruct (check_line line) as [[]|e].
  - unfold header_round. destruct (find_line (c_buf (core_of t))) as [pos|] eqn:Hf; [|done].
    pose proof (find_line_Some _ _ Hf) as [_ Hlen]. destruct pos as [|pos].
    + pose proof (end_post _ _ _ _ (reader_end _ _ _ _ _ _ R) t Hi Hp Hlen) as Hdone.
      intros Hx. by rewrite Hx in Hdone.
    + unfold mbind, st_bind. by destruct (on_core _ t) as [t1 [[]|e]].
Qed.

Lemma read_head_waits t t' :
  head_inv line_ok t -> read_head round t = (t', Ok None) -> waiting (core_of t').
Proof.
  intros Hi. unfold read_head.
  pose proof (loop_rule round (head_inv line_ok)
    (fun t' r => r = Ok None -> waiting (core_of t')) tmeasure (S (S (length (c_buf (core_of t))))) t) as HL.
  destruct (loop _ _ _) as [t1 r]. intros [= -> ->]. apply HL; [|done|apply head_measure_fuel|done]. clear HL.
  intros t1 Hi1. pose proof (head_round_post R t1 Hi1) as Hpost. pose proof (head_round_waits t1) as Hw.
  destruct (round t1) as [t2 [[|[[h k]|]]|e]]; cbn [round_post] in Hpost; try done.
  - by destruct Hpost as (? & _ & ? & _).
  - intros _. by apply Hw.
Qed.
End HeadWaits.

(** ** Requests *)

Definition request_within (limits : DecoderLimits) (m : Request.t) : Prop :=
  blen (default [] (Request.body m)) <= max_body_size limits /\ blen (Request.headers m) <= max_headers_count limits.

Section Requests.
Context {D : Type} `{Decompressor D}.

Implicit Types d : RequestDecoder D.

(** As long as [decode] is not mixed with the streaming calls: a body is
    collected only behind a head, and counted. *)
Definition rq_sized limits d : Prop :=
  c_limits (rq_core d) = limits /\
  match rq_decoded_head d with
  | None => c_decoded_body (rq_core d) = []
  | Some h => counted (rq_core d) /\ blen (RequestHead.headers h) <= max_headers_count limits /\
              (c_decoded_body_kind (rq_core d) = Some KNone -> c_decoded_body (rq_core d) = [])
  end.

Lemma rq_head_sized limits d :
  rq_inv d -> rq_sized limits d ->
  match rq_decode_head d with
  | (d', Ok _) => rq_sized limits d'
  | (_, Err _) => True
  end.
Proof.
  intros Hi Hs. rewrite decode_head_eq. destruct (rq_decoded_head d) as [h|] eqn:Hd; [done|].
  unfold rq_sized in Hs. rewrite Hd in Hs. destruct Hs as [Hl Hb].
  pose proof (decode_headers_post _ (ri_core _ Hi)) as Hp. unfold headers_post in Hp.
  destruct (c_phase (rq_core d)); try done;
    destruct (rq_core_decode_headers (rq_core d)) as [c' [[[h k]|]|e]]; try done;
    destruct Hp as (_ & _ & _ & (R1 & _ & R3 & _) & Hp); unfold rq_sized; cbn [with_core rq_core rq_decoded_head]; rewrite ?Hd; cs.
  all: try (destruct Hp as [Hp _]).
  all: try (split; [congruence|]); try (by rewrite R3).
  all: split_and!; [unfold counted; cs; rewrite R3, Hb; apply N.le_0_l | rewrite <- Hl, <- R1; apply Hp | by rewrite R3].
Qed.

Lemma rq_decode_sized limits d :
  rq_inv d -> rq_sized limits d ->
  match rq_decode d with
  | (d', Ok (Some m)) => rq_sized limits d' /\ request_within limits m
  | (d', Ok None) => rq_sized limits d'
  | (_, Err _) => True
  end.
Proof.
  intros Hi Hs. rewrite (rq_decode_eq d Hi). pose proof (decode_head_inv d Hi) as Hpost.
  pose proof (rq_head_sized limits d Hi Hs) as Hs1.
  destruct (rq_decode_head d) as [d1 [[]|e]]; try done.
  destruct Hpost as (Hi1 & _ & _ & h & k & Hh & Hk). rewrite Hh, Hk.
  unfold rq_sized in Hs1. rewrite Hh in Hs1. destruct Hs1 as (Hl & Hc & Hn & Hnone).
  pose proof (decode_body_inv k (rq_core d1) (ri_core _ Hi1)) as Hb.
  assert (Hcount : match rq_decode_body k (rq_core d1) with
                   | (c', Ok _) => counted c' /\ (k = KNone -> c_decoded_body c' = [])
                   | _ => True end).
  { pose proof (body_loop_counts request_line_ok (rq_core d1) (proj1 (ri_core _ Hi1))) as Hbc.
    destruct k; cbn [rq_decode_body]; try done; try (split; [done | intros _; by apply Hnone]);
      destruct (body_loop _) as [c' [b|e]]; try done; destruct Hbc as [Hbc _]; by split; [apply Hbc|]. }
  destruct (rq_decode_body k (rq_core d1)) as [c [[]|e]] eqn:Hbody; [..|done];
    destruct Hb as (Hci & _ & _ & Hkind & Hlim); destruct Hcount as [Hcc Hcn].
  - assert (Hbound : blen (c_decoded_body c) <= max_body_size limits).
    { rewrite <- Hl, <- Hlim. eapply counted_bound; [apply Hci | exact Hcc]. }
    split.
    + split; [destruct k; cbn; congruence|]. destruct k; try done; cbn; try (by apply Hcn).
    + split; [|exact Hn]. destruct k; cbn; try exact Hbound; apply N.le_0_l.
  - split; [cbn; congruence|]. cbn [with_core rq_decoded_head]. rewrite Hh. split_and!; [done | done |].
    cbn [with_core rq_core]. rewrite Hkind, Hk. intros [= ->]. by apply Hcn.
Qed.

(** Every request of a connection, in whatever pieces the bytes arrive, has
    a body of no more than [max_body_size] bytes and no more than
    [max_headers_count] headers. *)
Lemma decoded_requests_within_limits (z : D) limits ps d' ms e :
  limits_ok limits -> decode_pieces ps (rq_new z limits) = (d', ms, e) -> Forall (request_within limits) ms.
Proof.
  intros Hl Hd. pose proof (decode_pieces_good (rq_sized limits) (request_within limits)) as Hg.
  assert (Hx : run_good (rq_sized limits) (request_within limits) (decode_pieces ps (rq_new z limits))).
  { apply Hg; [done | | by apply rq_new_inv | by split]. intros t. apply rq_decode_sized. }
  rewrite Hd in Hx. apply Hx.
Qed.

(** [decode] of requests returns without a message only when it cannot go
    on: it waits for the end of a line, or for data, that is not in the buffer. *)
Lemma request_decode_waits_for_input (z : D) limits d d' :
  limits_ok limits -> rq_reachable z limits d -> rq_decode d = (d', Ok None) -> waiting (rq_core d').
Proof.
  intros Hl Hr. pose proof (rq_reachable_inv z limits d Hl Hr) as Hi. rewrite (rq_decode_eq d Hi), decode_head_eq.
  assert (Hbody : forall d1 h, rq_inv d1 ->
    match c_decoded_body_kind (rq_core d1) with
    | Some k =>
        match rq_decode_body k (rq_core d1) with
        | (c, Err e) => (with_core c d1, Err e)
        | (c, Ok false) => (with_core c d1, Ok None)
        | (c, Ok true) => (message_done k (with_core c d1), Ok (Some (message h k c)))
        end
    | None => (d1, Err Panic)
    end = (d', Ok None) -> waiting (rq_core d')).
  { intros d1 h Hi1. destruct (c_decoded_body_kind (rq_core d1)) as [k|]; [|done].
    pose proof (body_loop_counts request_line_ok (rq_core d1) (proj1 (ri_core _ Hi1))) as Hbc.
    destruct k; cbn [rq_decode_body]; try done; destruct (body_loop _) as [c' [[]|e]]; try done;
      intros [= <-]; by apply Hbc. }
  destruct (rq_decoded_head d) as [h|] eqn:Hd; [rewrite Hd; by apply (Hbody d h)|].
  pose proof (decode_head_inv d Hi) as Hpost. rewrite decode_head_eq, Hd in Hpost.
  assert (Hw : forall c, rq_core_decode_headers (rq_core d) = (c, Ok None) -> waiting c)
    by (intros c; apply (read_head_waits request_reader), (ri_core _ Hi)).
  destruct (c_phase (rq_core d)); try done;
    destruct (rq_core_decode_headers (rq_core d)) as [c' [[[h k]|]|e]]; try done;
    try (by intros [= <-]; apply Hw); apply (Hbody {| rq_core := set_decoded_body_kind (Some k) c'; rq_decoded_head := Some h |} h), Hpost.
Qed.
End Requests.

(** ** Responses *)

Definition response_within (limits : DecoderLimits) (m : Response.t) : Prop :=
  blen (default [] (Response.body m)) <= max_body_size limits /\ blen (Response.headers m) <= max_headers_count limits.

Section Responses.
Context {D : Type} `{Decompressor D}.

Implicit Types d : ResponseDecoder D.

Definition rs_sized limits d : Prop :=
  c_limits (rs_core d) = limits /\
  match rs_decoded_head d with
  | None => c_decoded_body (rs_core d) = []
  | Some h => counted (rs_core d) /\ blen (ResponseHead.headers h) <= max_headers_count limits /\
              (c_decoded_body_kind (rs_core d) = Some KNone -> c_decoded_body (rs_core d) = [])
  end.

Lemma rs_headers_rest d :
  rs_inv d ->
  let '(d', r) := rs_decode_headers d in same_rest (rs_core d) (rs_core d').
Proof.
  intros [Hc _]. pose proof (read_head_post response_reader d Hc) as Hp. unfold rs_decode_headers, response_round.
  destruct (read_head _ d) as [d' r]. apply Hp.
Qed.

Lemma rs_head_sized limits d :
  rs_inv d -> rs_sized limits d ->
  match rs_decode_head d with
  | (d', Ok _) => rs_sized limits d'
  | (_, Err _) => True
  end.
Proof.
  intros Hi Hs. rewrite rs_decode_head_eq. destruct (rs_decoded_head d) as [h|] eqn:Hd; [done|].
  unfold rs_sized in Hs. rewrite Hd in Hs. destruct Hs as [Hl Hb].
  pose proof (rs_decode_headers_post d Hi) as Hp. pose proof (rs_headers_rest d Hi) as Hr.
  destruct (c_phase (rs_core d)); try done;
    destruct (rs_decode_headers d) as [d' [[[h k]|]|e]]; try done; destruct Hr as (R1 & _ & R3 & _);
    destruct Hp as (_ & _ & _ & Hkeep & Hp); unfold rs_sized; cbn [with_head rs_core rs_decoded_head]; rewrite ?Hkeep, ?Hd; cs.
  all: try (destruct Hp as [Hp _]).
  all: try (split; [congruence|]); try (by rewrite R3).
  all: split_and!; [unfold counted; cs; rewrite R3, Hb; apply N.le_0_l | rewrite <- Hl, <- R1; apply Hp | by rewrite R3].
Qed.

Lemma rs_body_counts d h k :
  rs_inv d -> in_step d -> rs_decoded_head d = Some h -> c_decoded_body_kind (rs_core d) = Some k ->
  match rs_decode_body k (rs_core d) with
  | (c', Ok b) => (counted (rs_core d) -> counted c') /\ (b = false -> waiting c') /\ (k = KNone -> c' = rs_core d)
  | (_, Err _) => True
  end.
Proof.
  intros Hi Hst Hh Hk. pose proof (Hst h k Hh Hk) as Hp.
  pose proof (body_loop_counts status_line_ok _ (rsi_core _ Hi)) as Hbc.
  pose proof (close_round_counts status_line_ok _ (rsi_core _ Hi)) as Hcc.
  destruct k; cbn [rs_decode_body kind_phase] in *; try done.
  3: { specialize (Hcc Hp). destruct (close_delimited_round _) as [c' [b|e]]; [|done]. by split_and!; try apply Hcc. }
  all: destruct (body_loop _) as [c' [b|e]]; [|done]; by split_and!; try apply Hbc.
Qed.

Lemma rs_decode_sized limits d :
  rs_inv d -> in_step d -> rs_sized limits d ->
  match rs_decode d with
  | (d', Ok (Some m)) => rs_sized limits d' /\ response_within limits m
  | (d', Ok None) => rs_sized limits d'
  | (_, Err _) => True
  end.
Proof.
  intros Hi Hst Hs. rewrite (rs_decode_eq d Hi). pose proof (rs_decode_head_inv d Hi) as Hpost.
  pose proof (rs_head_sized limits d Hi Hs) as Hs1.
  destruct (rs_decode_head d) as [d1 [[]|e]]; try done.
  destruct Hpost as (Hi1 & _ & _ & Hst1 & h & k & Hh & Hk & _). rewrite Hh, Hk.
  unfold rs_sized in Hs1. rewrite Hh in Hs1. destruct Hs1 as (Hl & Hc & Hn & Hnone).
  pose proof (rs_body_inv k (rs_core d1) (rsi_core _ Hi1)) as Hb.
  pose proof (rs_body_counts d1 h k Hi1 (Hst1 Hst) Hh Hk) as Hcount.
  destruct (rs_decode_body k (rs_core d1)) as [c [[]|e]] eqn:Hbody; [..|done];
    destruct Hb as (Hci & _ & _ & Hkind & Hlim); destruct Hcount as (Hcc & _ & Hcn); specialize (Hcc Hc).
  - assert (Hbound : blen (c_decoded_body c) <= max_body_size limits).
    { rewrite <- Hl, <- Hlim. eapply counted_bound; [apply Hci | exact Hcc]. }
    split.
    + split; [destruct k; cbn; congruence|]. destruct k; try done; cbn; rewrite (Hcn eq_refl); by apply Hnone.
    + split; [|exact Hn]. destruct k; cbn; try exact Hbound; apply N.le_0_l.
  - split; [cbn; congruence|].
    change (rs_decoded_head (put_core c d1)) with (rs_decoded_head d1). rewrite Hh. split_and!; [done | done |].
    change (rs_core (put_core c d1)) with c. rewrite Hkind, Hk. intros [= ->]. rewrite (Hcn eq_refl). by apply Hnone.
Qed.

(** Every response of a connection, in whatever pieces the bytes arrive, and
    also the one that the end of the connection completes, is within the limits. *)
Lemma closed_responses_within_limits (z : D) limits ps eof d' ms e :
  limits_ok limits -> at_eof eof (decode_pieces ps (rs_new z limits)) = (d', ms, e) -> Forall (response_within limits) ms.
Proof.
  intros Hl. set (I := fun d => in_step d /\ rs_sized limits d).
  assert (Hdec : forall d, sd_inv d -> I d ->
    match sd_decode d with
    | (d', Ok (Some m)) => I d' /\ response_within limits m
    | (d', Ok None) => I d'
    | (_, Err _) => True
    end).
  { intros d [Hi _] [Hst Hs]. pose proof (rs_decode_sized limits d Hi Hst Hs) as Hd.
    pose proof (rs_decode_in_step d Hi Hst) as Hst'. cbn [sd_decode rs_stream].
    destruct (rs_decode d) as [d1 [[m|]|x]]; [split; [split; [done | apply Hd] | apply Hd] | by split | done]. }
  pose proof (decode_pieces_good I (response_within limits) ltac:(by intros y t [? ?]) Hdec ps (rs_new z limits)) as Hg.
  assert (Hst0 : in_step (rs_new z limits)) by (intros h k Hh; done).
  assert (Hi0 : rs_inv (rs_new z limits) /\ in_step (rs_new z limits)) by (split; [by apply rs_new_inv | done]).
  assert (HI0 : I (rs_new z limits)) by (by split). specialize (Hg Hi0 HI0).
  destruct (decode_pieces ps (rs_new z limits)) as [[d1 ms1] [x|]]; destruct Hg as [Hf He]; destruct eof; cbn [at_eof and_then];
    try (by intros [= _ <- _]).
  destruct (He eq_refl) as [[Hi Hst] [_ Hs]].
  assert (Hg2 : run_good I (response_within limits) (decode_ready (mark_eof d1))).
  { apply (decode_ready_good I (response_within limits) Hdec).
    - split; [by apply mark_eof_inv | by apply (rs_step_in_step RsMarkEof d1 Hi Hst)].
    - split; [by apply (rs_step_in_step RsMarkEof d1 Hi Hst)|]. unfold rs_sized, mark_eof in *.
      by destruct (c_phase (rs_core d1)). }
  destruct (decode_ready (mark_eof d1)) as [[d2 ms2] e2]. destruct Hg2 as [Hf2 _]. cbn. intros [= _ <- _].
  by apply Forall_app.
Qed.

(** [decode] of responses returns without a message only when it cannot go
    on: it waits for the end of a line, for data, or for the end of the
    connection, and has taken all the data there is. *)
Lemma response_decode_waits_for_input (z : D) limits d d' :
  limits_ok limits -> rs_unmixed z limits d -> rs_decode d = (d', Ok None) -> waiting (rs_core d').
Proof.
  intros Hl Hr. destruct (rs_unmixed_inv z limits d Hl Hr) as [Hi Hst]. rewrite (rs_decode_eq d Hi).
  pose proof (rs_decode_head_inv d Hi) as Hpost. rewrite rs_decode_head_eq in Hpost |- *.
  assert (Hw : forall d1, rs_decode_headers d = (d1, Ok None) -> waiting (rs_core d1))
    by (intros d1; apply (read_head_waits response_reader), Hi).
  assert (Hbody : forall h k d1, rs_inv d1 -> in_step d1 -> rs_decoded_head d1 = Some h ->
    c_decoded_body_kind (rs_core d1) = Some k ->
    match rs_decode_body k (rs_core d1) with
    | (c, Err e) => (put_core c d1, Err e)
    | (c, Ok false) => (put_core c d1, Ok None)
    | (c, Ok true) => (rs_message_done k (put_core c d1), Ok (Some (response_message h k c)))
    end = (d', Ok None) -> waiting (rs_core d')).
  { intros h k d1 Hi1 Hst1 Hh Hk. pose proof (rs_body_counts _ h k Hi1 Hst1 Hh Hk) as Hbc.
    destruct (rs_decode_body k _) as [c [[]|e]]; try done. intros [= <-]. by apply Hbc. }
  destruct (rs_decoded_head d) as [h|] eqn:Hd.
  { rewrite Hd. destruct (rsi_head _ Hi h Hd) as (_ & k & Hk). rewrite Hk. by apply (Hbody h k d). }
  destruct (c_phase (rs_core d)); try done;
    destruct (rs_decode_headers d) as [d1 [[[h k]|]|e]]; try done;
    try (by intros [= <-]; apply Hw); destruct Hpost as (Hi1 & _ & _ & Hst1 & _);
    by apply (Hbody h k (with_head h k d1) Hi1 (Hst1 Hst)).
Qed.
End Responses.

(** ** Concrete runs *)

Definition short_request : bytes := B "GET /a HTTP/1.1" ++ CRLF ++ B "Host: a" ++ CRLF ++ B "Content-Length: 9" ++ CRLF ++ CRLF ++ B "par".

Example decoded_requests_within_limits_at :
  exists d' m1 m2, decode_pieces [example_bytes; example_bytes] start = (d', [m1; m2], None) /\
    Forall (request_within DecoderLimits_default) [m1; m2].
Proof.
  eexists _, _, _. split; [vm_compute; reflexivity|].
  eapply (decoded_requests_within_limits NoCompression_new DecoderLimits_default [example_bytes; example_bytes]);
    [apply limits_ok_default | vm_compute; reflexivity].
Defined.

Example request_decode_waits_for_input_at :
  exists d', rq_decode (rq_feed_unchecked short_request start) = (d', Ok None) /\ waiting (rq_core d').
Proof.
  eexists. split; [vm_compute; reflexivity|].
  eapply (request_decode_waits_for_input NoCompression_new DecoderLimits_default);
    [apply limits_ok_default | apply (fed_reachable short_request) | vm_compute; reflexivity].
Defined.

Lemma rs_fed_unmixed data :
  rs_unmixed NoCompression_new DecoderLimits_default (rs_feed_unchecked data start_response).
Proof. apply (rs_unmixed_next _ _ start_response (RsFeedUnchecked data)); [apply rs_unmixed_start | done]. Defined.

Example response_decode_waits_for_input_at :
  exists d', rs_decode (rs_feed_unchecked (B "HTTP/1.1 200 OK") start_response) = (d', Ok None) /\ waiting (rs_core d').
Proof.
  eexists. split; [vm_compute; reflexivity|].
  eapply (response_decode_waits_for_input NoCompression_new DecoderLimits_default);
    [apply limits_ok_default | apply (rs_fed_unmixed (B "HTTP/1.1 200 OK")) | vm_compute; reflexivity].
Defined.

(** ** Both decoders *)

(** C8: A message that [decode] hands out, from any reachable state of a decoder,
    meets the assertions of [from_raw_parts] - method, target, version, status,
    reason and headers are well formed - and is one that the public constructors
    build: [with_version], [add_header] for each of its headers and [body] accept
    its parts and give that message.  The one exception is a response without a
    reason phrase, which a decoder accepts and the constructors refuse. *)
Theorem decoded_messages_valid {D : Type} `{DecompressorLaws D} (z : D) limits :
  limits_ok limits ->
  (forall d d' m, rq_reachable z limits d -> rq_decode d = (d', Ok (Some m)) ->
     Request.valid m = true /\ build_request m = Ok m) /\
  (forall d d' m, rs_reachable z limits d -> rs_decode d = (d', Ok (Some m)) ->
     Response.valid m = true /\
     if is_empty (Response.reason_phrase m) then is_ok (build_response m) = false else build_response m = Ok m).
Proof.
  intros Hl. split; intros d d' m Hr Hd.
  - pose proof (decoded_request_valid z limits d d' m Hl Hr Hd) as Hv. split; [done|]. by apply build_request_valid.
  - pose proof (decoded_response_valid z limits d d' m Hl Hr Hd) as Hv. split; [done|].
    destruct (is_empty (Response.reason_phrase m)) eqn:He; [by apply build_response_no_reason, is_empty_nil|].
    apply build_response_valid; [done|]. intros Hn. by rewrite Hn in He.
Qed.

Lemma decoded_messages_valid_witness :
  exists d1 m1 d2 m2,
    rq_decode (rq_feed_unchecked example_bytes start) = (d1, Ok (Some m1)) /\ build_request m1 = Ok m1 /\
    rs_decode (rs_feed_unchecked example_response start_response) = (d2, Ok (Some m2)) /\ build_response m2 = Ok m2.
Proof.
  destruct (decoded_messages_valid NoCompression_new DecoderLimits_default limits_ok_default) as [H1 H2].
  do 4 eexists. split; [vm_compute; reflexivity|]. split.
  - eapply H1; [apply (fed_reachable example_bytes) | vm_compute; reflexivity].
  - split; [vm_compute; reflexivity|].
    eapply (proj2 (H2 _ _ _ (rs_fed_reachable example_response) ltac:(vm_compute; reflexivity))).
Defined.

(** C14: Every message of a connection, in whatever pieces the bytes arrive, has a
    body of no more than [max_body_size] bytes and no more than
    [max_headers_count] headers; so has a response whose body ends with the
    connection, which [decode] hands out after [mark_eof].  It does not matter
    whether the pieces are fed with [feed], under the limit of the buffer, or with
    [feed_unchecked], nor whether the run ends with an error. *)
Theorem decoded_messages_within_limits {D : Type} `{DecompressorLaws D} (z : D) limits ps :
  limits_ok limits ->
  (forall d' ms e,
     decode_pieces ps (rq_new z limits) = (d', ms, e) \/ fed_pieces ps (rq_new z limits) = (d', ms, e) ->
     Forall (request_within limits) ms) /\
  (forall eof d' ms e,
     at_eof eof (decode_pieces ps (rs_new z limits)) = (d', ms, e) \/
     at_eof eof (fed_pieces ps (rs_new z limits)) = (d', ms, e) ->
     Forall (response_within limits) ms).
Proof.
  intros Hl. split; [intros d' ms e | intros eof d' ms e]; (intros [Hr|Hr];
    [by eapply decoded_requests_within_limits || by eapply closed_responses_within_limits|]).
  - destruct (decode_pieces ps (rq_new z limits)) as [[d1 ms1] e1] eqn:Hd.
    pose proof (decoded_requests_within_limits z limits ps d1 ms1 e1 Hl Hd) as Hf.
    destruct (fed_requests_cases z limits ps Hl) as [Hc|Hc]; rewrite Hr, Hd in Hc.
    + by injection Hc as _ -> _.
    + destruct Hc as [_ [more Hp]]. cbn [fst snd] in Hp. rewrite Hp in Hf. by apply Forall_app in Hf as [Hf _].
  - destruct (at_eof eof (decode_pieces ps (rs_new z limits))) as [[d1 ms1] e1] eqn:Hd.
    pose proof (closed_responses_within_limits z limits ps eof d1 ms1 e1 Hl Hd) as Hf.
    destruct (fed_responses_cases z limits ps eof Hl) as [Hc|Hc]; rewrite Hr, Hd in Hc.
    + by injection Hc as _ -> _.
    + destruct Hc as [_ [more Hp]]. cbn [fst snd] in Hp. rewrite Hp in Hf. by apply Forall_app in Hf as [Hf _].
Qed.

(** A response that ends with the connection, and its end. *)
Definition closing_response : bytes := B "HTTP/1.1 200 OK" ++ CRLF ++ CRLF ++ B "until the end".

Lemma decoded_messages_within_limits_witness :
  exists d' m, at_eof true (fed_pieces [closing_response] start_response) = (d', [m], None) /\
    Response.body m = Some (B "until the end") /\ Forall (response_within DecoderLimits_default) [m].
Proof.
  destruct (decoded_messages_within_limits NoCompression_new DecoderLimits_default [closing_response] limits_ok_default) as [_ H].
  eexists _, _. split; [vm_compute; reflexivity|]. split; [reflexivity|]. eapply (H true). right. vm_compute. reflexivity.
Defined.

(** C15: [decode] returns without a message only when it cannot go on: it waits for
    the end of a line, for data, or for the end of the connection, and has taken
    all the data there is.  For a request decoder this holds in every reachable
    state; for a response decoder in every state reached without a call of
    [decode_headers] while [decode] waited for the body of another response. *)
Theorem decode_waits_for_input {D : Type} `{DecompressorLaws D} (z : D) limits :
  limits_ok limits ->
  (forall d d', rq_reachable z limits d -> rq_decode d = (d', Ok None) -> waiting (rq_core d')) /\
  (forall d d', rs_unmixed z limits d -> rs_decode d = (d', Ok None) -> waiting (rs_core d')).
Proof. intros Hl. split; intros d d'; [by apply request_decode_waits_for_input | by apply response_decode_waits_for_input]. Qed.

Lemma decode_waits_for_input_witness :
  (exists d', rq_decode (rq_feed_unchecked short_request start) = (d', Ok None) /\ waiting (rq_core d')) /\
  (exists d', rs_decode (rs_feed_unchecked (B "HTTP/1.1 200 OK") start_response) = (d', Ok None) /\ waiting (rs_core d')).
Proof.
  destruct (decode_waits_for_input NoCompression_new DecoderLimits_default limits_ok_default) as [H1 H2]. split.
  - eexists. split; [vm_compute; reflexivity|]. eapply H1; [apply (fed_reachable short_request) | vm_compute; reflexivity].
  - eexists. split; [vm_compute; reflexivity|]. eapply H2; [apply (rs_fed_unmixed (B "HTTP/1.1 200 OK")) | vm_compute; reflexivity].
Defined.

(** ** Trailers *)

(** C16: the trailers that a chunked body ends with are what the head announced.
    When [decode_headers] read the head [h] of a message, and after any calls that
    do not begin another one [progress] or [consume_body] reports the end of the
    body, every trailer field handed out has a valid name and value, is none of
    the prohibited fields, and is named, but for the case of its letters, in the
    list of a Trailer header of [h]; and there are no more of them than a message
    may have headers. *)
Theorem trailers_are_declared {D : Type} `{DecompressorLaws D} (z : D) limits len ts :
  limits_ok limits ->
  (forall d0 d1 h k d d', rq_reachable z limits d0 -> rq_decode_headers d0 = (d1, Ok (Some (h, k))) ->
     rtc rq_body_call d1 d ->
     rq_progress d = (d', Ok (ProgressComplete ts)) \/ rq_consume_body len d = (d', Ok (ProgressComplete ts)) ->
     Forall (allowed_trailer (RequestHead.headers h)) ts /\ blen ts <= max_headers_count (c_limits (rq_core d0))) /\
  (forall d0 d1 h k d d', rs_reachable z limits d0 -> rs_decode_headers d0 = (d1, Ok (Some (h, k))) ->
     rtc rs_body_call d1 d ->
     rs_progress d = (d', Ok (ProgressComplete ts)) \/ rs_consume_body len d = (d', Ok (ProgressComplete ts)) ->
     Forall (allowed_trailer (ResponseHead.headers h)) ts /\ blen ts <= max_headers_count (c_limits (rs_core d0))).
Proof.
  intros Hl. split; intros d0 d1 h k d d' Hr.
  - by apply request_trailers_declared, (rq_reachable_inv z limits).
  - by apply response_trailers_declared, (rs_reachable_inv z limits).
Qed.

Lemma trailers_are_declared_witness :
  exists d1 h k d', rq_decode_headers (rq_feed_unchecked trailer_bytes start) = (d1, Ok (Some (h, k))) /\
    rq_progress d1 = (d', Ok (ProgressComplete [(B "X-Sum", B "1")])) /\
    Forall (allowed_trailer (RequestHead.headers h)) [(B "X-Sum", B "1")].
Proof.
  destruct (trailers_are_declared NoCompression_new DecoderLimits_default 0 [(B "X-Sum", B "1")] limits_ok_default) as [H _].
  do 4 eexists. split; [vm_compute; reflexivity|]. split; [vm_compute; reflexivity|].
  eapply H; [apply (fed_reachable trailer_bytes) | vm_compute; reflexivity | apply rtc_refl | left; vm_compute; reflexivity].
Defined.

(** ** Framing *)

(** The framing of a request by its headers. *)
Definition request_framing (hs : list (str * str)) (limits : DecoderLimits) (v : str) (k : BodyKind) : Prop :=
  match k with
  | KChunked => (exists t, te_tokens hs = [t] /\ chunked_token t = true) /\ cl_values hs = [] /\ v = B "HTTP/1.1"
  | KContentLength n => te_tokens hs = [] /\ length_is n hs /\ n <= max_body_size limits
  | KNone => te_tokens hs = [] /\ cl_values hs = []
  | _ => False
  end.


(** A CONNECT request with a Content-Length header, after its header lines. *)
Definition connect_core : Core NoCompression := {|
  c_buf := CRLF; c_phase := Headers; c_start_line := Some (B "CONNECT a:1 HTTP/1.1");
  c_headers := [(B "Host", B "a:1"); (B "Content-Length", B "5")]; c_body_decoder := BodyDecoder_new;
  c_limits := DecoderLimits_default; c_decoded_body_kind := None; c_decoded_body := [];
  c_decompressor := NoCompression_new; c_pending := 0 |}.

