(* ===== verification/Encoder.v ===== *)
(** * The encoders ([src/encoder.rs])

    [encode_request], [encode_response], their head-only variants and the
    chunk encoders.  A [Vec::with_capacity] has no observable effect, so
    [allocate_encode_buffer] is the empty buffer; the capacity estimates are
    modelled on their own. *)
From S2P Require Import Prelude RustStd Errors Validate Host Target Framing Head Message BodyDecoder.

Definition is_valid_version_for_encode (version : str) : bool :=
  negb (is_empty version) && forallb (within 33 126) version.

(** ** Numbers *)

(** The [while remaining > 0] loop that fills [tmp] from its end: [cells] is
    the index [i], [acc] is [tmp[i..]].  The result says what is left of
    [remaining], which is 0 unless the array was too short. *)
Fixpoint digit_cells (cells : nat) (radix : N) (remaining : N) (acc : bytes) : N * bytes :=
  match cells with
  | O => (remaining, acc)
  | S i =>
      if 0 <? remaining
      then digit_cells i radix (remaining / radix) (digit_char (remaining mod radix) :: acc)
      else (remaining, acc)
  end.

(** [write_hex_usize]: 16 cells; [remaining & 0xF] and [>>= 4]. *)
Definition write_hex_usize (buf : bytes) (n : N) : bytes :=
  if n =? 0 then buf ++ B "0" else buf ++ snd (digit_cells 16 16 n []).

(** [write_usize_decimal]: 20 cells. *)
Definition write_usize_decimal (buf : bytes) (n : N) : bytes :=
  if n =? 0 then buf ++ B "0" else buf ++ snd (digit_cells 20 10 n []).

(** ** Validation *)

Fixpoint validate_headers (hs : list (str * str)) : result EncodeError.t unit :=
  match hs with
  | [] => Ok tt
  | (name, value) :: hs' =>
      if negb (is_valid_header_name name) then Err (EncodeError.InvalidHeaderName name)
      else if negb (is_valid_field_value value) then Err (EncodeError.InvalidHeaderValue name value)
      else validate_headers hs'
  end.

Definition looks_like_authority_form (uri : str) : bool :=
  if contains_byte "@" uri then false
  else
    match rfind_byte ":" uri with
    | Some colon_pos =>
        let port_str := drop (S colon_pos) uri in
        let host := take colon_pos uri in
        negb (is_empty port_str) && forallb is_ascii_digit port_str
        && is_some (parse_u16 port_str) && negb (is_empty host)
    | None => false
    end.

Definition detect_request_target_form (uri : str) : result EncodeError.t RequestTargetForm :=
  if uri =s B "*" then Ok Asterisk
  else if contains_sub (B "://") uri then Ok Absolute
  else if starts_with (B "/") uri then Ok Origin
  else if looks_like_authority_form uri then Ok Authority
  else if is_some (detect_scheme uri) then Ok Absolute
  else Err (EncodeError.InvalidRequestTarget uri).

Definition validate_encoder_authority_form (uri : str) : result EncodeError.t unit :=
  match rfind_byte ":" uri with
  | Some colon_pos =>
      _ ← map_err (fun _ => EncodeError.InvalidRequestTarget uri) (Host_parse (take colon_pos uri));
      Ok tt
  | None => Ok tt
  end.

Definition reject_http_without_authority_prefix (uri : str) : result EncodeError.t unit :=
  match find_byte ":" uri with
  | Some colon_pos =>
      let scheme := take colon_pos uri in
      if (eq_ignore_ascii_case scheme (B "http") || eq_ignore_ascii_case scheme (B "https"))
         && negb (starts_with (B "://") (drop colon_pos uri))
      then Err (EncodeError.InvalidRequestTarget uri)
      else Ok tt
  | None => Ok tt
  end.

Definition validate_request_target_form (method uri : str) : result EncodeError.t unit :=
  form ← detect_request_target_form uri;
  let wrong_form := Err (EncodeError.InvalidRequestTargetForm method uri) in
  if method =s B "CONNECT" then
    match form with
    | Authority => validate_encoder_authority_form uri
    | _ => wrong_form
    end
  else
    match form with
    | Asterisk => if method =s B "OPTIONS" then Ok tt else wrong_form
    | Authority => wrong_form
    | Origin =>
        if existsb (fun b => (b =b "[") || (b =b "]")) uri
        then Err (EncodeError.InvalidRequestTarget uri) else Ok tt
    | Absolute => reject_http_without_authority_prefix uri
    end.

Definition validate_request_fields (r : Request.t) : result EncodeError.t unit :=
  if negb (is_valid_method (Request.method r)) then Err (EncodeError.InvalidMethod (Request.method r))
  else if negb (is_valid_request_target (Request.uri r))
  then Err (EncodeError.InvalidRequestTarget (Request.uri r))
  else if existsb (fun b => 126 <? b2n b) (Request.uri r)
  then Err (EncodeError.InvalidRequestTarget (Request.uri r))
  else
    _ ← validate_request_target_form (Request.method r) (Request.uri r);
    if negb (is_valid_version_for_encode (Request.version r))
    then Err (EncodeError.InvalidVersion (Request.version r))
    else validate_headers (Request.headers r).

Definition validate_response_fields (r : Response.t) : result EncodeError.t unit :=
  if negb (is_valid_version_for_encode (Response.version r))
  then Err (EncodeError.InvalidVersion (Response.version r))
  else if negb (is_valid_status_code (Response.status_code r))
  then Err (EncodeError.InvalidStatusCode (Response.status_code r))
  else if negb (is_empty (Response.reason_phrase r))
          && negb (is_valid_reason_phrase (Response.reason_phrase r))
  then Err (EncodeError.InvalidReasonPhrase (Response.reason_phrase r))
  else validate_headers (Response.headers r).

(** The authority between [://] and the first [/] or [?]; [None] without [://]. *)
Definition uri_authority (uri : str) : option str :=
  i ← find_sub (B "://") uri;
  let after_scheme := drop (i + 3) uri in
  Some (take (authority_end after_scheme) after_scheme).

(** What follows the last at sign. *)
Definition strip_userinfo (authority : str) : str :=
  match rfind_byte "@" authority with
  | Some at_pos => drop (S at_pos) authority
  | None => authority
  end.

Definition extract_authority_from_uri (uri : str) : option str :=
  authority ← uri_authority uri; Some (strip_userinfo authority).

Definition is_http_uri (uri : str) : bool :=
  let lower := to_ascii_lowercase uri in
  starts_with (B "http://") lower || starts_with (B "https://") lower.

Definition reject_http_userinfo (uri : str) : result EncodeError.t unit :=
  if negb (is_http_uri uri) then Ok tt
  else match uri_authority uri with
       | None => Ok tt
       | Some authority =>
           if contains_byte "@" authority then Err (EncodeError.UserinfoInHttpUri uri) else Ok tt
       end.

Definition reject_http_empty_host (uri : str) : result EncodeError.t unit :=
  if negb (is_http_uri uri) then Ok tt
  else match uri_authority uri with
       | None => Ok tt
       | Some authority =>
           let host_port := strip_userinfo authority in
           if is_empty host_port || starts_with (B ":") host_port
           then Err (EncodeError.EmptyHostInHttpUri uri) else Ok tt
       end.

(** The CONNECT part of [validate_host_header]. *)
Definition check_connect_host (uri host_value : str) : result EncodeError.t unit :=
  let mismatch := Err (EncodeError.HostAuthorityMismatch host_value uri) in
  match rfind_byte ":" uri with
  | None => Ok tt
  | Some colon_pos =>
      let target_host := take colon_pos uri in
      let target_port_str := drop (S colon_pos) uri in
      if is_empty host_value then mismatch
      else
        match Host_parse host_value with
        | Err _ => Ok tt
        | Ok parsed_host =>
            if negb (eq_ignore_ascii_case (host parsed_host) target_host) then mismatch
            else
              match port parsed_host, parse_u16 target_port_str with
              | Some host_port, Some target_port =>
                  if negb (host_port =? target_port) then mismatch else Ok tt
              | _, _ => Ok tt
              end
        end
  end.

Definition validate_host_header (r : Request.t) : result EncodeError.t unit :=
  if negb (Request.version r =s B "HTTP/1.1") then Ok tt
  else
    match get_headers (B "Host") r with
    | [] => Err EncodeError.MissingHostHeader
    | [host_value] =>
        let uri := Request.uri r in
        if negb (is_empty host_value) && is_err (Host_parse host_value)
        then Err (EncodeError.InvalidHostHeader host_value)
        else
          _ ← match (if contains_sub (B "://") uri then extract_authority_from_uri uri else None) with
              | Some authority =>
                  if negb (is_empty authority) && negb (eq_ignore_ascii_case authority host_value)
                  then Err (EncodeError.HostAuthorityMismatch host_value authority)
                  else Ok tt
              | None => Ok tt
              end;
          _ ← (if Request.method r =s B "CONNECT" then check_connect_host uri host_value else Ok tt);
          match detect_request_target_form uri with
          | Ok Absolute =>
              if negb (contains_sub (B "://") uri) && negb (is_empty host_value)
              then Err (EncodeError.NonEmptyHostWithoutAuthority host_value uri)
              else Ok tt
          | _ => Ok tt
          end
    | _ => Err EncodeError.DuplicateHostHeader
    end.

(** One header in the loop of [validate_content_length_headers]. *)
Definition content_length_step (acc : option N) (h : str * str) : result EncodeError.t (option N) :=
  if negb (named (B "Content-Length") h) then Ok acc
  else
    let value := snd h in
    let trimmed := trim_ows value in
    if is_empty trimmed || negb (forallb is_ascii_digit trimmed)
    then Err (EncodeError.InvalidContentLengthValue value)
    else
      parsed ← ok_or (EncodeError.InvalidContentLengthValue value) (parse_u64 trimmed);
      match acc with
      | None => Ok (Some parsed)
      | Some prev =>
          if negb (prev =? parsed) then Err EncodeError.DuplicateContentLength else Ok acc
      end.

Definition validate_content_length_headers (hs : list (str * str)) : result EncodeError.t (option N) :=
  foldM content_length_step None hs.

(** ** Writing *)

Definition header_lines (hs : list (str * str)) : bytes :=
  flat_map (fun '(name, value) => name ++ B ": " ++ value ++ CRLF) hs.

Definition body_len (b : option bytes) : N := match b with Some b => blen b | None => 0 end.

Definition should_auto_emit_content_length_for_request (r : Request.t) : bool :=
  is_some (Request.body_bytes r) && negb (has_header (B "Content-Length") r)
  && negb (has_header (B "Transfer-Encoding") r).

Definition response_status_has_body (status_code : N) : bool :=
  negb (((100 <=? status_code) && (status_code <? 200)) || (status_code =? 204) || (status_code =? 304)).

Definition should_auto_emit_content_length_for_response (r : Response.t) : bool :=
  response_status_has_body (Response.status_code r) && negb (has_header (B "Content-Length") r)
  && negb (has_header (B "Transfer-Encoding") r)
  && match Response.is_body_omitted r, Response.body_bytes r with
     | _, None => false
     | true, Some [] => false
     | _, Some _ => true
     end.

Definition check_content_length_mismatch (should_validate : bool) (header_value : option N)
    (body_length : N) : result EncodeError.t unit :=
  match header_value with
  | Some v =>
      if should_validate && negb (v =? body_length)
      then Err (EncodeError.ContentLengthMismatch v body_length) else Ok tt
  | None => Ok tt
  end.

Definition request_line (r : Request.t) : bytes :=
  Request.method r ++ B " " ++ Request.uri r ++ B " " ++ Request.version r ++ CRLF.

Definition content_length_line (n : N) : bytes :=
  write_usize_decimal (B "Content-Length: ") n ++ CRLF.

(** The checks the two request encoders share. *)
Definition check_request (check_content_length : bool) (r : Request.t) : result EncodeError.t unit :=
  _ ← validate_request_fields r;
  _ ← reject_http_userinfo (Request.uri r);
  _ ← reject_http_empty_host (Request.uri r);
  _ ← validate_host_header r;
  if has_header (B "Transfer-Encoding") r && has_header (B "Content-Length") r
  then Err EncodeError.ConflictingTransferEncodingAndContentLength
  else if check_content_length && negb (has_header (B "Transfer-Encoding") r) then
    header_value ← validate_content_length_headers (Request.headers r);
    check_content_length_mismatch true header_value (body_len (Request.body_bytes r))
  else Ok tt.

(** [encode_request]. *)
Definition encode_request (r : Request.t) : result EncodeError.t bytes :=
  _ ← check_request true r;
  Ok (request_line r ++ header_lines (Request.headers r)
      ++ (if should_auto_emit_content_length_for_request r
          then content_length_line (body_len (Request.body_bytes r)) else [])
      ++ CRLF
      ++ default [] (Request.body_bytes r)).

(** [encode_request_headers]. *)
Definition encode_request_headers (r : Request.t) : result EncodeError.t bytes :=
  _ ← check_request (negb (Request.method r =s B "CONNECT")) r;
  Ok (request_line r ++ header_lines (Request.headers r) ++ CRLF).

Definition is_1xx_or_204 (status_code : N) : bool :=
  ((100 <=? status_code) && (status_code <? 200)) || (status_code =? 204).

(** The framing checks the two response encoders share; [with_body] is true
    for [encode_response], which also looks at the body. *)
Definition check_response (with_body : bool) (r : Response.t) : result EncodeError.t unit :=
  let status := Response.status_code r in
  let te := has_header (B "Transfer-Encoding") r in
  let cl := has_header (B "Content-Length") r in
  _ ← validate_response_fields r;
  if te && cl then Err EncodeError.ConflictingTransferEncodingAndContentLength
  else if is_1xx_or_204 status && te then Err (EncodeError.ForbiddenTransferEncoding status)
  else if is_1xx_or_204 status && cl then Err (EncodeError.ForbiddenContentLength status)
  else if (status =? 205) && with_body && (0 <? body_len (Response.body_bytes r))
  then Err EncodeError.ForbiddenBodyFor205
  else if (status =? 205) && te then Err (EncodeError.ForbiddenTransferEncoding 205)
  else if (status =? 205)
          && match get_header (B "Content-Length") r with
             | Some v => negb (trim_ows v =s B "0")
             | None => false
             end
  then Err (EncodeError.ForbiddenContentLength 205)
  else if response_status_has_body status && negb te then
    let body_length := body_len (Response.body_bytes r) in
    header_value ← validate_content_length_headers (Response.headers r);
    check_content_length_mismatch
      (negb with_body || negb (Response.is_body_omitted r) || negb (body_length =? 0))
      header_value body_length
  else Ok tt.

Definition status_line (r : Response.t) : bytes :=
  write_usize_decimal (Response.version r ++ B " ") (Response.status_code r)
  ++ B " " ++ Response.reason_phrase r ++ CRLF.

(** [encode_response]. *)
Definition encode_response (r : Response.t) : result EncodeError.t bytes :=
  _ ← check_response true r;
  let body_will_be_encoded :=
    response_status_has_body (Response.status_code r) && negb (Response.is_body_omitted r) in
  Ok (status_line r ++ header_lines (Response.headers r)
      ++ (if should_auto_emit_content_length_for_response r
          then content_length_line (body_len (Response.body_bytes r)) else [])
      ++ CRLF
      ++ (if body_will_be_encoded then default [] (Response.body_bytes r) else [])).

(** [encode_response_headers]. *)
Definition encode_response_headers (r : Response.t) : result EncodeError.t bytes :=
  _ ← check_response false r;
  Ok (status_line r ++ header_lines (Response.headers r) ++ CRLF).

(** ** Chunks *)

Definition last_chunk : bytes := B "0" ++ CRLF ++ CRLF.

Definition chunk (data : bytes) : bytes := write_hex_usize [] (blen data) ++ CRLF ++ data ++ CRLF.

Definition encode_chunk (data : bytes) : bytes := if is_empty data then last_chunk else chunk data.

Definition encode_chunks (chunks : list bytes) : bytes := flat_map chunk chunks ++ last_chunk.

(** ** Capacity estimates: [None] is an overflowing [checked_add]. *)

Definition AUTO_CONTENT_LENGTH_CAPACITY : N := 38.

Fixpoint sum_checked (total : N) (ns : list N) : option N :=
  match ns with
  | [] => Some total
  | n :: ns' => t ← checked_add total n; sum_checked t ns'
  end.

Definition header_sizes (hs : list (str * str)) : list N :=
  flat_map (fun '(name, value) => [blen name; blen value; 4]) hs.

Definition estimate_request_capacity (r : Request.t) : option N :=
  sum_checked 0
    ([blen (Request.method r); blen (Request.uri r); blen (Request.version r); 4]
     ++ header_sizes (Request.headers r)
     ++ (if should_auto_emit_content_length_for_request r then [AUTO_CONTENT_LENGTH_CAPACITY] else [])
     ++ [2]
     ++ match Request.body_bytes r with Some b => [blen b] | None => [] end).

Definition estimate_response_capacity (r : Response.t) : option N :=
  let body_will_be_encoded :=
    response_status_has_body (Response.status_code r) && negb (Response.is_body_omitted r) in
  sum_checked 0
    ([blen (Response.version r); 3; blen (Response.reason_phrase r); 4]
     ++ header_sizes (Response.headers r)
     ++ (if should_auto_emit_content_length_for_response r then [AUTO_CONTENT_LENGTH_CAPACITY] else [])
     ++ [2]
     ++ match Response.body_bytes r with
        | Some b => if body_will_be_encoded then [blen b] else []
        | None => []
        end).

Fixpoint chunks_capacity_loop (chunks : list bytes) (total : N) : option N :=
  match chunks with
  | [] => checked_add total 5
  | c :: cs =>
      per ← checked_add (blen c) 20;
      t ← checked_add total per;
      chunks_capacity_loop cs t
  end.

Definition encode_chunks_capacity (chunks : list bytes) : option N := chunks_capacity_loop chunks 0.
