(* ===== verification/EncoderFacts.v ===== *)
(** * Facts about the encoders

    The number writers; the lines the encoders write and how the decoders read
    them back; the checks and what they leave. *)
From S2P Require Import Prelude RustStd Errors Validate Host Target Framing Head Message.
From S2P Require Import BodyDecoder BodyFacts Encoder.

(** ** Numbers *)

Lemma div_pow_lt radix n (k : nat) :
  0 < radix -> n < radix ^ N.of_nat (S k) -> n / radix < radix ^ N.of_nat k.
Proof. intros Hr Hn. apply N.Div0.div_lt_upper_bound. by rewrite Nat2N.inj_succ, N.pow_succ_r' in Hn. Qed.

Lemma digit_cells_zero cells radix acc : digit_cells cells radix 0 acc = (0, acc).
Proof. by destruct cells. Qed.

(** With enough cells the loop writes all the digits. *)
Lemma digit_cells_eq cells radix n acc :
  2 <= radix -> 0 < n -> n < radix ^ N.of_nat cells ->
  digit_cells cells radix n acc = (0, digits_onto cells radix n acc).
Proof.
  intros Hr. revert n acc. induction cells as [|i IH]; intros n acc H0 Hn; [cbn in Hn; lia|].
  cbn [digit_cells digits_onto]. rewrite (proj2 (N.ltb_lt _ _) H0).
  destruct (n <? radix) eqn:E.
  - apply N.ltb_lt in E. by rewrite (N.div_small n radix E), digit_cells_zero.
  - apply N.ltb_ge in E. apply IH; [|apply div_pow_lt; [lia | done]].
    apply N.div_str_pos. lia.
Qed.

Lemma digits_onto_enough f f' radix n acc :
  2 <= radix -> n < radix ^ N.of_nat (S f) -> n < radix ^ N.of_nat (S f') ->
  digits_onto (S f) radix n acc = digits_onto (S f') radix n acc.
Proof.
  intros Hr. revert f' n acc. induction f as [|f IH]; intros f' n acc H1 H2.
  - assert (Hlt : n < radix) by (cbn in H1; lia). cbn [digits_onto]. by rewrite (proj2 (N.ltb_lt _ _) Hlt).
  - cbn [digits_onto]. destruct (n <? radix) eqn:E; [done|]. apply N.ltb_ge in E.
    destruct f' as [|f'].
    + assert (Hlt : n < radix) by (cbn in H2; lia). lia.
    + change (digits_onto (S f) radix (n / radix) (digit_char (n mod radix) :: acc)
        = digits_onto (S f') radix (n / radix) (digit_char (n mod radix) :: acc)).
      apply IH; apply div_pow_lt; lia || done.
Qed.

Lemma pow_size_le radix n : 2 <= radix -> n < radix ^ N.of_nat (S (N.size_nat n)).
Proof.
  intros Hr. pose proof (lt_pow2_size n) as Hn. rewrite Nat2N.inj_succ.
  eapply N.lt_le_trans; [exact Hn|]. transitivity (2 ^ N.succ (N.of_nat (N.size_nat n))).
  - apply N.pow_le_mono_r; lia.
  - by apply N.pow_le_mono_l.
Qed.

(** The decimal writer of the encoders prints what [to_string] prints. *)
Lemma write_usize_decimal_eq buf n : n <= usize_MAX -> write_usize_decimal buf n = buf ++ show_dec n.
Proof.
  intros Hn. unfold write_usize_decimal. destruct (n =? 0) eqn:E; [by apply N.eqb_eq in E as ->|].
  apply N.eqb_neq in E. rewrite digit_cells_eq; [|lia|lia|unfold usize_MAX in Hn; cbn; lia]. cbn [snd]. f_equal.
  unfold show_dec. apply digits_onto_enough; [lia|unfold usize_MAX in Hn; cbn; lia|].
  apply pow_size_le. lia.
Qed.

Lemma write_hex_eq n : n <= usize_MAX -> write_hex_usize [] n = digits_onto 65 16 n [].
Proof.
  intros Hn. unfold write_hex_usize. destruct (n =? 0) eqn:E; [by apply N.eqb_eq in E as ->|].
  apply N.eqb_neq in E. rewrite digit_cells_eq; [|lia|lia|unfold usize_MAX in Hn; cbn; lia]. cbn [snd app].
  apply digits_onto_enough; [lia|unfold usize_MAX in Hn; cbn; lia..].
Qed.

Lemma digits_onto_all (p : byte -> bool) fuel radix n acc :
  0 < radix -> (forall d, d < radix -> p (digit_char d) = true) ->
  forallb p acc = true -> forallb p (digits_onto fuel radix n acc) = true.
Proof.
  intros Hr Hp. revert n acc. induction fuel as [|fuel IH]; intros n acc H; cbn [digits_onto]; [done|].
  assert (Hd : forallb p (digit_char (n mod radix) :: acc) = true).
  { cbn [forallb]. rewrite Hp, H; [done|]. apply N.mod_lt. lia. }
  destruct (n <? radix); [done | by apply IH].
Qed.

Lemma digit_char_hex d : d < 16 -> is_ascii_hexdigit (digit_char d) = true.
Proof.
  intros Hd. assert (H : forallb (fun d => is_ascii_hexdigit (digit_char d)) (map N.of_nat (seq 0 16)) = true)
    by (vm_compute; reflexivity).
  rewrite forallb_forall in H. apply H. apply in_map_iff. exists (N.to_nat d). split; [lia|]. apply in_seq. lia.
Qed.

Lemma digits_onto_length fuel radix n acc :
  (length (digits_onto fuel radix n acc) <= fuel + length acc)%nat.
Proof.
  revert n acc. induction fuel as [|fuel IH]; intros n acc; cbn [digits_onto]; [done|].
  destruct (n <? radix); [cbn; lia|]. etransitivity; [apply IH|]. cbn. lia.
Qed.

Lemma digits_onto_S_not_nil fuel radix n acc : digits_onto (S fuel) radix n acc <> [].
Proof. cbn [digits_onto]. destruct (n <? radix); [done | by apply digits_onto_not_nil]. Qed.

Record hex_written (n : N) (s : bytes) : Prop := {
  hex_digits : forallb is_ascii_hexdigit s = true;
  hex_not_nil : s <> [];
  hex_length : (length s <= 16)%nat;
  hex_parse : from_str_radix 16 usize_MAX s = Some n
}.

(** The hexadecimal writer and the reader of chunk sizes agree. *)
Lemma write_hex_written n : n <= usize_MAX -> hex_written n (write_hex_usize [] n).
Proof.
  intros Hn.
  assert (Hd : forallb is_ascii_hexdigit (write_hex_usize [] n) = true).
  { rewrite write_hex_eq by done. apply digits_onto_all; [done | apply digit_char_hex | done]. }
  assert (Hne : write_hex_usize [] n <> []).
  { rewrite write_hex_eq by done. apply digits_onto_S_not_nil. }
  split; [done | done | |].
  - unfold write_hex_usize. destruct (n =? 0) eqn:E; [cbn; lia|].
    apply N.eqb_neq in E. rewrite digit_cells_eq; [|lia|lia|unfold usize_MAX in Hn; cbn; lia]. cbn [snd app].
    etransitivity; [apply digits_onto_length|]. done.
  - unfold from_str_radix. destruct (write_hex_usize [] n) as [|b s] eqn:Hw; [done|].
    destruct (b =b "+") eqn:Eb; [apply byte_eqb_eq in Eb as ->; by vm_compute in Hd|].
    rewrite <- Hw, write_hex_eq by done. rewrite parse_digits_onto; [done | lia | done |].
    unfold usize_MAX in Hn. cbn. lia.
Qed.
