(* ===== verification/Capacity.v ===== *)
(** * The capacity the encoders reserve ([src/encoder.rs])

    [estimate_request_capacity], [estimate_response_capacity] and the loop of
    [encode_chunks] add up sizes with [checked_add] before anything is written.
    What they reserve is enough for what is written, and not much more. *)
From S2P Require Import Prelude RustStd Errors Validate Host Target Framing Head Message BodyDecoder Encoder EncoderFacts.

(** ** Sums *)

Fixpoint total (ns : list N) : N := match ns with [] => 0 | n :: ns' => n + total ns' end.

Lemma total_app ns ms : total (ns ++ ms) = total ns + total ms.
Proof. induction ns as [|n ns IH]; cbn; [done|]. rewrite IH. lia. Qed.

(** A checked sum is the sum, or the sum does not fit. *)
Lemma sum_checked_total ns : forall t, t <= usize_MAX ->
  sum_checked t ns = if t + total ns <=? usize_MAX then Some (t + total ns) else None.
Proof.
  induction ns as [|n ns IH]; intros t Ht; cbn [sum_checked total].
  - rewrite N.add_0_r. by apply N.leb_le in Ht as ->.
  - rewrite checked_add_eq. destruct (usize_MAX <? t + n) eqn:E; cbn.
    + replace (_ <=? _) with false by lia. done.
    + rewrite IH by lia. replace (t + n + total ns) with (t + (n + total ns)) by lia. done.
Qed.

Lemma header_sizes_total hs : total (header_sizes hs) = blen (header_lines hs).
Proof.
  induction hs as [|[n v] hs IH]; [done|]. cbn [header_sizes flat_map header_lines total app].
  fold (header_sizes hs). fold (header_lines hs). rewrite IH, !blen_app.
  change (blen (B ": ")) with 2. change (blen CRLF) with 2. lia.
Qed.

(** ** The widths of numbers *)

Lemma show_dec_width n : n <= usize_MAX -> 1 <= blen (show_dec n) <= 20.
Proof.
  intros Hn. assert (E : show_dec n = digits_onto 20 10 n []).
  { apply digits_onto_enough; [lia | apply pow_size_le; lia | unfold usize_MAX in Hn; cbn; lia]. }
  pose proof (digits_onto_length 20 10 n []) as Hl. rewrite <- E in Hl. cbn [length] in Hl.
  assert (Hne : show_dec n <> []) by apply digits_onto_S_not_nil.
  unfold blen. destruct (show_dec n); [done|]. cbn [length] in *. lia.
Qed.

Lemma status_width n : is_valid_status_code n = true -> blen (show_dec n) = 3.
Proof.
  assert (H : forallb (fun k => blen (show_dec (N.of_nat k)) =? 3) (seq 100 500) = true) by (vm_compute; reflexivity).
  rewrite forallb_forall in H. unfold is_valid_status_code. intros Hn. apply N.eqb_eq.
  rewrite <- (N2Nat.id n). apply H, in_seq. lia.
Qed.

Lemma content_length_width n : n <= usize_MAX -> 19 <= blen (content_length_line n) <= 38.
Proof.
  intros Hn. unfold content_length_line. rewrite write_usize_decimal_eq by done. rewrite !blen_app.
  change (blen (B "Content-Length: ")) with 16. change (blen CRLF) with 2. pose proof (show_dec_width n Hn). lia.
Qed.

(** The line that may be added, against what is reserved for it. *)
Lemma auto_line_width (auto : bool) n : n <= usize_MAX ->
  let written := blen (if auto then content_length_line n else []) in
  let reserved := total (if auto then [AUTO_CONTENT_LENGTH_CAPACITY] else []) in
  written <= reserved <= written + 19.
Proof.
  intros Hn. destruct auto; cbn [total]; [|rewrite blen_nil; lia]. unfold AUTO_CONTENT_LENGTH_CAPACITY.
  pose proof (content_length_width n Hn). lia.
Qed.

(** ** The estimates *)

(** The reserve [o] for [bs]: enough and at most 19 bytes too many, or the message
    does not fit into memory. *)
Definition reserves (o : option N) (bs : bytes) : Prop :=
  match o with Some c => blen bs <= c <= blen bs + 19 | None => usize_MAX < blen bs + 19 end.

Lemma reserves_total ns bs : blen bs <= total ns <= blen bs + 19 -> reserves (sum_checked 0 ns) bs.
Proof.
  intros H. rewrite sum_checked_total by done. rewrite N.add_0_l. unfold reserves.
  destruct (_ <=? _) eqn:E; [done | lia].
Qed.

Lemma request_reserve r bs : body_len (Request.body_bytes r) <= usize_MAX ->
  encode_request r = Ok bs -> reserves (estimate_request_capacity r) bs.
Proof.
  intros Hb. unfold encode_request. destruct (check_request true r) as [[]|]; [|done]. cbn [mbind result_bind]. intros [= <-].
  apply reserves_total. rewrite !total_app, header_sizes_total, !blen_app. unfold request_line.
  rewrite !blen_app. cbn [total]. change (blen (B " ")) with 1. change (blen CRLF) with 2.
  pose proof (auto_line_width (should_auto_emit_content_length_for_request r) _ Hb) as Ha. cbv zeta in Ha.
  destruct (Request.body_bytes r) as [b|]; cbn [total]; unfold default, from_option, id in *;
    rewrite ?blen_cons; change (blen (@nil byte)) with 0; lia.
Qed.

Lemma response_reserve r bs : body_len (Response.body_bytes r) <= usize_MAX ->
  encode_response r = Ok bs -> reserves (estimate_response_capacity r) bs.
Proof.
  intros Hb. unfold encode_response. destruct (check_response true r) as [[]|] eqn:Hc; [|done]. cbn [mbind result_bind]. intros [= <-].
  assert (Hs : is_valid_status_code (Response.status_code r) = true).
  { unfold check_response in Hc. destruct (validate_response_fields r) as [[]|] eqn:Ev; [|done]. unfold validate_response_fields in Ev.
    destruct (negb (is_valid_version_for_encode _)); [done|]. by destruct (is_valid_status_code _). }
  apply reserves_total. rewrite !total_app, header_sizes_total, !blen_app. unfold status_line.
  rewrite write_usize_decimal_eq by (unfold is_valid_status_code, usize_MAX in *; lia).
  rewrite !blen_app, (status_width _ Hs). cbn [total]. change (blen (B " ")) with 1. change (blen CRLF) with 2.
  pose proof (auto_line_width (should_auto_emit_content_length_for_response r) _ Hb) as Ha. cbv zeta in Ha.
  destruct (Response.body_bytes r) as [b|]; destruct (_ && negb _); cbn [total]; unfold default, from_option, id in *;
    rewrite ?blen_cons; change (blen (@nil byte)) with 0; lia.
Qed.

(** Chunks: 20 bytes for a size, which has at most 16 digits, and its line ends. *)
Lemma chunk_width data : blen data <= usize_MAX -> blen data + 5 <= blen (chunk data) <= blen data + 20.
Proof.
  intros H. destruct (write_hex_written _ H) as [_ Hne Hl _]. unfold chunk. rewrite !blen_app. change (blen CRLF) with 2.
  unfold blen in *. destruct (write_hex_usize _ _); [done|]. cbn [length] in *. lia.
Qed.

Lemma chunks_reserve chunks : forall t c, t <= usize_MAX -> chunks_capacity_loop chunks t = Some c ->
  t + blen (encode_chunks chunks) <= c.
Proof.
  induction chunks as [|data chunks IH]; intros t c Ht; cbn [chunks_capacity_loop].
  - unfold checked_add. destruct (_ <=? _); [|done]. intros [= <-]. by rewrite (eq_refl : blen (encode_chunks []) = 5).
  - rewrite checked_add_eq. destruct (usize_MAX <? blen data + 20) eqn:E1; [done|]. cbn.
    rewrite checked_add_eq. destruct (usize_MAX <? t + _) eqn:E2; [done|]. cbn.
    intros H%IH; [|lia]. unfold encode_chunks in *. cbn [flat_map]. rewrite <- app_assoc, blen_app.
    pose proof (chunk_width data ltac:(lia)). change ("0"%byte :: CR :: LF :: CRLF) with last_chunk. lia.
Qed.

(** The capacity that the encoders reserve suffices: a message that was
    encoded is no longer than the estimate, and no more than 19 bytes shorter (the digits a
    Content-Length may not need), and there is no estimate only when the message would
    not fit into the address space; a chunked body is no longer than what [encode_chunks] reserves. *)
Lemma capacity_suffices :
  (forall r bs, body_len (Request.body_bytes r) <= usize_MAX ->
    encode_request r = Ok bs -> reserves (estimate_request_capacity r) bs) /\
  (forall r bs, body_len (Response.body_bytes r) <= usize_MAX ->
    encode_response r = Ok bs -> reserves (estimate_response_capacity r) bs) /\
  (forall chunks c, encode_chunks_capacity chunks = Some c -> blen (encode_chunks chunks) <= c).
Proof.
  split_and!; [apply request_reserve | apply response_reserve|].
  intros chunks c H. by apply chunks_reserve in H.
Qed.

Definition sized_response : Response.t :=
  Response.from_raw_parts (B "HTTP/1.1") 200 (B "OK") [] (Some (B "hello")).

Example capacity_suffices_witness :
  exists bs, encode_response sized_response = Ok bs /\ blen bs = 43 /\
    estimate_response_capacity sized_response = Some 62 /\ reserves (estimate_response_capacity sized_response) bs.
Proof.
  destruct capacity_suffices as (_ & H & _). eexists. split; [vm_compute; reflexivity|].
  split; [vm_compute; reflexivity|]. split; [vm_compute; reflexivity|]. apply H; [|vm_compute; reflexivity].
  apply N.leb_le. vm_compute. reflexivity.
Defined.
