(* ===== verification/BodyEncoder.v ===== *)
(** * The encoders with a compressor ([src/encoder.rs])

    [RequestEncoder] and [ResponseEncoder] hold a compressor and hand the calls
    on to it.  A caller gives the input that was not consumed again until all
    of it was; what that loop writes with [NoCompression] is the input. *)
From S2P Require Import Prelude RustStd Errors Compression.

Module RequestEncoder.
Record t (C : Type) := mk { compressor : C }.
Arguments mk {C}. Arguments compressor {C}.

(** [new] and [default]. *)
Definition new : t NoCompression := mk NoCompression_new.

Section Operations.
Context {C : Type} `{Compressor C}.

Definition with_compressor (c : C) : t C := mk c.

Definition compress_body (input output : bytes) (e : t C) : t C * bytes * status_result :=
  let '(c, output', r) := compress (compressor e) input output in (mk c, output', r).

Definition finish (output : bytes) (e : t C) : t C * bytes * status_result :=
  let '(c, output', r) := Compression.finish (compressor e) output in (mk c, output', r).

Definition reset (e : t C) : t C := mk (compressor_reset (compressor e)).
End Operations.
End RequestEncoder.

Module ResponseEncoder.
Record t (C : Type) := mk { compressor : C }.
Arguments mk {C}. Arguments compressor {C}.

(** [new] and [default]. *)
Definition new : t NoCompression := mk NoCompression_new.

Section Operations.
Context {C : Type} `{Compressor C}.

Definition with_compressor (c : C) : t C := mk c.

Definition compress_body (input output : bytes) (e : t C) : t C * bytes * status_result :=
  let '(c, output', r) := compress (compressor e) input output in (mk c, output', r).

Definition finish (output : bytes) (e : t C) : t C * bytes * status_result :=
  let '(c, output', r) := Compression.finish (compressor e) output in (mk c, output', r).

Definition reset (e : t C) : t C := mk (compressor_reset (compressor e)).
End Operations.
End ResponseEncoder.

(** ** A body in rounds

    The loop the documentation of [compress_body] describes, over any of the two
    encoders: [step] is one call with an output buffer of the caller's. *)
Section Rounds.
Context {E : Type} (step : bytes -> bytes -> E -> E * bytes * status_result) (output : bytes).

Fixpoint compress_all (fuel : nat) (input : bytes) (e : E) : E * bytes * option CompressionError.t :=
  match fuel with
  | O => (e, [], None)
  | S f =>
      let '(e', output', r) := step input output e in
      match r with
      | Err x => (e', [], Some x)
      | Ok s =>
          let written := take (N.to_nat (produced s)) output' in
          if is_output_full s then
            let '(e2, rest, x) := compress_all f (drop (N.to_nat (consumed s)) input) e' in (e2, written ++ rest, x)
          else (e', written, None)
      end
  end.

(** A call that copies as much as fits. *)
Definition copies (e : E) : Prop := forall input,
  let n := Nat.min (length input) (length output) in
  step input output e =
    (e, copy_prefix input output n,
     Ok (if (n <? length input)%nat then SOutputFull (N.of_nat n) (N.of_nat n) else SContinue (N.of_nat n) (N.of_nat n))).

Lemma compress_all_copies e :
  copies e -> output <> [] -> forall fuel input, (length input < fuel)%nat -> compress_all fuel input e = (e, input, None).
Proof.
  intros He Ho. assert (Hlen : (0 < length output)%nat) by (destruct output; [done | cbn; lia]).
  induction fuel as [|fuel IH]; intros input Hf; [lia|]. cbn [compress_all]. rewrite (He input).
  set (n := Nat.min (length input) (length output)).
  assert (Hw : take n (copy_prefix input output n) = take n input).
  { unfold copy_prefix. rewrite take_app_le by (rewrite length_take; lia). rewrite take_take. f_equal. lia. }
  destruct (n <? length input)%nat eqn:Hn; cbn [produced consumed is_output_full]; rewrite Nat2N.id, Hw.
  - rewrite (IH (drop n input)) by (rewrite length_drop; lia). by rewrite take_drop.
  - rewrite take_ge by lia. done.
Qed.
End Rounds.

Lemma no_compress_copies output c :
  finished c = false -> copies (fun i o c => no_compress c i o) output c.
Proof. intros Hc input. unfold no_compress. by rewrite Hc. Qed.

(** What a body becomes in the encoders without compression: itself, after no more calls
    than it has bytes and one, with any output buffer but the empty one; after
    [finish] every call fails until [reset]. *)
Lemma uncompressed_body (output input : bytes) :
  output <> [] ->
  compress_all RequestEncoder.compress_body output (S (length input)) input RequestEncoder.new
    = (RequestEncoder.new, input, None) /\
  compress_all ResponseEncoder.compress_body output (S (length input)) input ResponseEncoder.new
    = (ResponseEncoder.new, input, None).
Proof.
  intros Ho. split; apply compress_all_copies; try done; try apply Nat.lt_succ_diag_r.
Qed.

Lemma finished_encoder (o1 o2 input : bytes) :
  let '(e, o1', r) := RequestEncoder.finish o1 RequestEncoder.new in
  r = Ok (SComplete 0 0) /\ o1' = o1 /\
  RequestEncoder.compress_body input o2 e = (e, o2, Err CompressionError.AlreadyFinished) /\
  RequestEncoder.finish o2 e = (e, o2, Err CompressionError.AlreadyFinished) /\
  RequestEncoder.reset e = RequestEncoder.new.
Proof. done. Qed.
