(* ===== verification/BodyRoundTrip.v ===== *)
(** * Reading a body back

    The body loop of [decode] on a body of known length, and on what
    [encode_chunks] writes. *)
From S2P Require Import Prelude RustStd Errors Validate Host Target Trailer Framing Head Message.
From S2P Require Import Buffer BodyDecoder BodyFacts Compression DecoderCore CoreFacts Encoder EncoderFacts.

Lemma take_while_all (p : byte -> bool) s :
  forallb p s = true -> take_while p s = s /\ skip_while p s = [].
Proof.
  induction s as [|b s IH]; [done|]. cbn [forallb]. intros [Hb Hs]%andb_true_iff.
  cbn [take_while skip_while]. rewrite Hb. destruct (IH Hs) as [-> ->]. done.
Qed.

Lemma hexdigit_ascii b : is_ascii_hexdigit b = true -> is_ascii b = true.
Proof. byte_solve b. Qed.

(** The size line of a chunk. *)
Lemma chunk_line_written n s : hex_written n s -> chunk_line_size s = Ok n /\ contains_byte CR s = false.
Proof.
  intros [Hd Hne Hl Hp]. split; [|by eapply contains_byte_forallb].
  assert (Hsemi : find_byte ";" s = None).
  { apply position_None. assert (Hc : contains_byte ";" s = false) by (by eapply contains_byte_forallb).
    unfold contains_byte in Hc. by rewrite existsb_negb_forallb, negb_false_iff in Hc. }
  unfold chunk_line_size. rewrite Hsemi. cbn [default from_option id]. rewrite take_ge by lia.
  unfold parse_chunk_size. destruct (take_while_all _ _ Hd) as [-> ->].
  assert (is_empty s = false) as -> by (by destruct s). cbn [is_empty negb andb].
  rewrite from_utf8_valid by (apply utf8_ascii; revert Hd; apply forallb_impl, hexdigit_ascii).
  cbn [map_err mbind result_bind]. by rewrite Hp.
Qed.

Section Steps.
Context (limits : DecoderLimits).
Hypothesis Hlimits : limits_ok limits.

Implicit Types s : BodyState.

(** [s] with [buf] in the buffer, in the phase [p], and [n] more bytes read. *)
Definition at_phase (p : DecodePhase) (buf : bytes) (n : N) s : BodyState :=
  {| b_self := set_body_consumed (body_consumed (b_self s) + n) (b_self s); b_buf := buf; b_phase := p |}.

(** Data of known length that is all there. *)
Lemma step_length s data rest :
  body_inv limits s -> b_phase s = BodyContentLength (blen data) -> b_buf s = data ++ rest ->
  body_step limits s = (data, at_phase Complete rest (blen data) s, Ok (Break true)).
Proof.
  intros Hi Hp Hb. rewrite (body_step_length limits ltac:(apply Hlimits) s _ Hi Hp).
  destruct Hi as [H1 _ _]. rewrite Hp in H1. rewrite Hb. rewrite is_empty_app.
  assert (is_empty data = false) as -> by (destruct data; [by destruct H1 | done]).
  cbn [andb]. cbv zeta. rewrite blen_app. replace (N.min _ _) with (blen data) by lia.
  rewrite N.sub_diag. cbn [N.eqb]. unfold take_data, with_phase, with_self, drain, at_phase. bs.
  assert (Hn : N.to_nat (blen data) = length data) by (unfold blen; lia).
  by rewrite Hb, Hn, take_app_length, drop_app_length.
Qed.

(** A whole chunk: its size line. *)
Lemma step_size s n line rest :
  body_inv limits s -> b_phase s = BodyChunkedSize -> b_buf s = line ++ CRLF ++ rest ->
  hex_written n line -> 0 < n -> body_consumed (b_self s) + n <= max_body_size limits ->
  16 <= max_chunk_line_size limits ->
  body_step limits s = ([], at_phase (BodyChunkedData n) rest 0 s, Ok Continue).
Proof.
  intros Hi Hp Hb Hw Hn Hmax Hline. destruct (chunk_line_written n line Hw) as [Hc Hcr].
  assert (Hf : find_line (b_buf s) = Some (length line)) by (rewrite Hb; by apply find_line_line).
  rewrite (body_step_size limits s Hp), (process_chunked_size_eq _ _ _ Hp Hf).
  destruct Hlimits as (_ & _ & _ & Hm & _). destruct Hw as [_ _ Hl _].
  rewrite (proj2 (N.ltb_ge _ _)) by lia. rewrite Hb, take_app_length, Hc. cbv zeta.
  rewrite (proj2 (N.eqb_neq n 0)), !(proj2 (N.ltb_ge _ _)) by lia. bs.
  unfold with_phase, drain, at_phase. bs. rewrite Hb, N.add_0_r.
  assert (drop (length line + 2) (line ++ CRLF ++ rest) = rest) as ->.
  { rewrite app_assoc. replace (length line + 2)%nat with (length (line ++ CRLF)) by (rewrite length_app; done).
    apply drop_app_length. }
  destruct s as [[] ? ?]. done.
Qed.

(** Its data, with the CRLF behind. *)
Lemma step_data s data rest :
  body_inv limits s -> b_phase s = BodyChunkedData (blen data) -> b_buf s = data ++ CRLF ++ rest ->
  body_step limits s = (data, at_phase BodyChunkedSize rest (blen data) s, Ok Continue).
Proof.
  intros Hi Hp Hb. rewrite (body_step_data limits ltac:(apply Hlimits) s _ Hi Hp).
  destruct Hi as [H1 _ _]. rewrite Hp in H1. rewrite Hb. rewrite is_empty_app.
  assert (is_empty data = false) as -> by (destruct data; [by destruct H1 | done]).
  cbn [andb]. cbv zeta. rewrite blen_app. replace (N.min _ _) with (blen data) by lia.
  rewrite N.sub_diag. cbn [N.eqb].
  assert (Hn : N.to_nat (blen data) = length data) by (unfold blen; lia).
  unfold chunk_end, take_chunk_crlf, take_data, with_phase, with_self, drain, at_phase. bs.
  by rewrite Hb, Hn, take_app_length, drop_app_length.
Qed.

(** The last chunk and the end of the trailers. *)
Lemma step_last s rest :
  b_phase s = BodyChunkedSize -> b_buf s = last_chunk ++ rest -> 1 <= max_chunk_line_size limits ->
  body_step limits s =
    ([], {| b_self := set_trailers [] (trailer_count (b_self s)) (b_self s); b_buf := rest; b_phase := Complete |},
     Ok (Break true)).
Proof.
  intros Hp Hb Hline.
  assert (Hf : find_line (b_buf s) = Some 1%nat) by (by rewrite Hb).
  rewrite (body_step_size limits s Hp), (process_chunked_size_eq _ _ _ Hp Hf).
  rewrite (proj2 (N.ltb_ge _ _)) by lia. rewrite Hb. cbn [last_chunk B app take].
  assert (Hc : chunk_line_size ["0"%byte] = Ok 0) by (by vm_compute).
  change (take 1 (last_chunk ++ rest)) with ["0"%byte]. rewrite Hc. cbv zeta. cbn [N.eqb].
  unfold process_trailers, with_phase, drain. bs. rewrite Hb.
  change (drop (1 + 2) (last_chunk ++ rest)) with (CRLF ++ rest).
  cbn [loop trailers_round]. bs. rewrite find_line_crlf. cbv beta iota. unfold with_phase, drain, with_self. bs. done.
Qed.
End Steps.

Section Loops.
Context {D : Type} `{Decompressor D} (line_ok : str -> Prop).

Implicit Types c : Core D.

Lemma body_loop_length c data rest :
  core_inv line_ok c -> c_phase c = BodyContentLength (blen data) -> c_buf c = data ++ rest ->
  body_loop c = (stepped data (at_phase Complete rest (blen data) (body_state c)) c, Ok true).
Proof.
  intros Hi Hp Hb. unfold body_loop. cbn [loop]. rewrite body_round_eq.
  by rewrite (step_length (c_limits c) (inv_limits _ _ Hi) (body_state c) data rest (inv_body _ _ Hi) Hp Hb).
Qed.

(** Nothing to read. *)
Lemma body_loop_complete c :
  c_phase c = Complete ->
  exists s, body_loop c = (stepped [] s c, Ok true) /\ b_buf s = c_buf c /\ b_phase s = Complete.
Proof.
  intros Hp. unfold body_loop. cbn [loop]. rewrite body_round_eq. unfold body_step, peek_body, peek_len, consume_body. cs.
  rewrite Hp. unfold complete_with_trailers. eexists. split_and!; [reflexivity | done | done].
Qed.

(** One chunk at the front of the buffer. *)
Lemma body_loop_chunk c data rest :
  core_inv line_ok c -> c_phase c = BodyChunkedSize -> c_buf c = chunk data ++ rest ->
  data <> [] -> body_consumed (c_body_decoder c) + blen data <= max_body_size (c_limits c) ->
  16 <= max_chunk_line_size (c_limits c) ->
  let c' := stepped data (at_phase BodyChunkedSize rest (blen data) (body_state c)) c in
  body_loop c = body_loop c' /\ core_inv line_ok c'.
Proof.
  intros Hi Hp Hb Hne Hmax Hline. cbv zeta. pose proof (inv_limits _ _ Hi) as Hl.
  assert (H0 : 0 < blen data) by (destruct data; [done | rewrite blen_cons; lia]).
  assert (Hw : hex_written (blen data) (write_hex_usize [] (blen data))).
  { apply write_hex_written. destruct Hl as (_ & _ & _ & ? & _). lia. }
  assert (Hb1 : c_buf c = write_hex_usize [] (blen data) ++ CRLF ++ (data ++ CRLF ++ rest)).
  { rewrite Hb. unfold chunk. by rewrite <- !app_assoc. }
  pose proof (step_size (c_limits c) Hl (body_state c) (blen data) _ _ (inv_body _ _ Hi) Hp Hb1 Hw H0 Hmax Hline) as Hs1.
  set (s1 := at_phase (BodyChunkedData (blen data)) (data ++ CRLF ++ rest) 0 (body_state c)) in *.
  pose proof (stepped_inv line_ok c _ _ _ Hi Hs1) as Hi1.
  assert (Hr1 : body_round c = (stepped [] s1 c, Ok Continue)) by (by rewrite body_round_eq, Hs1).
  pose proof (step_data (c_limits c) Hl s1 data rest) as Hs2.
  rewrite <- (body_state_stepped [] s1 c) in Hs2.
  specialize (Hs2 (inv_body _ _ Hi1) ltac:(by rewrite body_state_stepped) ltac:(by rewrite body_state_stepped)).
  pose proof (stepped_inv line_ok (stepped [] s1 c) _ _ _ Hi1 Hs2) as Hi2.
  assert (Hr2 : body_round (stepped [] s1 c) =
    (stepped data (at_phase BodyChunkedSize rest (blen data) (body_state (stepped [] s1 c))) (stepped [] s1 c), Ok Continue))
    by (rewrite body_round_eq; change (c_limits (stepped [] s1 c)) with (c_limits c); by rewrite Hs2).
  assert (Heq : stepped data (at_phase BodyChunkedSize rest (blen data) (body_state (stepped [] s1 c))) (stepped [] s1 c)
    = stepped data (at_phase BodyChunkedSize rest (blen data) (body_state c)) c).
  { rewrite body_state_stepped, stepped_stepped. cbn [app]. f_equal. unfold s1, at_phase. cs.
    cbn [b_self set_body_consumed body_consumed]. by rewrite N.add_0_r. }
  rewrite Heq in Hr2, Hi2. split; [|done].
  assert (Hn : c_phase c <> BodyCloseDelimited) by (by rewrite Hp).
  assert (Hn1 : c_phase (stepped [] s1 c) <> BodyCloseDelimited) by done.
  rewrite (body_loop_continue line_ok [] c _ (conj Hi Hn) Hr1).
  by rewrite (body_loop_continue line_ok [] (stepped [] s1 c) _ (conj Hi1 Hn1) Hr2).
Qed.

(** The body that [encode_chunks] writes for non-empty chunks. *)
Lemma body_loop_chunks cs c rest :
  core_inv line_ok c -> c_phase c = BodyChunkedSize -> c_buf c = encode_chunks cs ++ rest ->
  Forall (fun d => d <> []) cs ->
  body_consumed (c_body_decoder c) + blen (concat cs) <= max_body_size (c_limits c) ->
  16 <= max_chunk_line_size (c_limits c) ->
  exists s, body_loop c = (stepped (concat cs) s c, Ok true) /\ b_buf s = rest /\ b_phase s = Complete.
Proof.
  revert c. induction cs as [|d cs IH]; intros c Hi Hp Hb Hne Hmax Hline.
  - unfold body_loop. cbn [loop]. rewrite body_round_eq. unfold encode_chunks in Hb. cbn [flat_map app] in Hb.
    rewrite (step_last (c_limits c) (body_state c) rest Hp Hb ltac:(lia)).
    eexists. split_and!; [reflexivity | done | done].
  - inversion Hne as [|? ? Hd Hne']; subst. cbn [concat] in Hmax. rewrite blen_app in Hmax.
    assert (Hb1 : c_buf c = chunk d ++ (encode_chunks cs ++ rest)).
    { rewrite Hb. unfold encode_chunks. cbn [flat_map]. by rewrite <- !app_assoc. }
    destruct (body_loop_chunk c d _ Hi Hp Hb1 Hd ltac:(lia) Hline) as [Hl Hi'].
    set (c' := stepped _ _ c) in *.
    destruct (IH c' Hi' eq_refl eq_refl Hne') as (s & Hs & Hsb & Hsp); [cbn [c' stepped]; cs; cbn; lia | done|].
    exists s. rewrite Hl, Hs. split; [|done]. unfold c'. rewrite stepped_stepped. done.
Qed.
End Loops.
