(* ===== verification/HeadRoundTrip.v ===== *)
(** * Reading header lines back

    A header written as a line, read by [parse_header_line]; header lines at
    the front of the buffer. *)
From S2P Require Import Prelude RustStd Errors Validate Trailer Framing Head Message.
From S2P Require Import Buffer BodyDecoder BodyFacts Compression DecoderCore CoreFacts HeadFacts Encoder EncoderFacts.

Definition line_of (h : str * str) : bytes := fst h ++ B ": " ++ snd h.

Lemma header_lines_cons h hs : header_lines (h :: hs) = line_of h ++ CRLF ++ header_lines hs.
Proof. destruct h as [n v]. unfold header_lines, line_of. cbn [flat_map fst snd]. by rewrite <- !app_assoc. Qed.

Lemma header_lines_app hs ks : header_lines (hs ++ ks) = header_lines hs ++ header_lines ks.
Proof. apply flat_map_app. Qed.

Lemma chars_ascii s : forallb is_ascii s = true -> chars s = map b2n s.
Proof.
  induction s as [|b s IH]; [done|]. cbn [forallb chars map]. intros [Hb Hs]%andb_true_iff.
  unfold is_ascii in Hb. by rewrite Hb, (IH Hs).
Qed.

Lemma token_char_not_space b : is_token_char b = true -> is_whitespace (b2n b) = false.
Proof. byte_solve b. Qed.

(** Trimming leaves a token as it is. *)
Lemma token_trim s : forallb is_token_char s = true -> trim_changes s = false.
Proof.
  intros Hs. unfold trim_changes.
  rewrite chars_ascii by (revert Hs; apply forallb_impl, is_token_char_ascii).
  destruct s as [|b s]; [done|]. change (map b2n (b :: s)) with (b2n b :: map b2n s). apply orb_false_iff.
  assert (Hall : Forall (fun c => is_whitespace c = false) (b2n b :: map b2n s)).
  { change (b2n b :: map b2n s) with (map b2n (b :: s)). apply Forall_fmap.
    apply forallb_Forall in Hs. eapply Forall_impl; [apply token_char_not_space | exact Hs]. }
  split; [by inversion Hall|]. rewrite Forall_forall in Hall. apply Hall.
  destruct (@exists_last _ (b2n b :: map b2n s)) as (l & x & ->); [done|].
  rewrite last_last. apply in_or_app. right. by left.
Qed.

Lemma token_no_space_or_tab s :
  forallb is_token_char s = true -> existsb (fun b => (b =b " ") || (b =b "009")) s = false.
Proof.
  intros Hs. rewrite existsb_negb_forallb, negb_false_iff. revert Hs. apply forallb_impl.
  intros b. byte_solve b.
Qed.

Lemma field_value_no_line v :
  is_valid_field_value v = true -> contains_byte CR v = false /\ contains_byte LF v = false.
Proof. intros Hv. split; by eapply contains_byte_forallb. Qed.

Lemma header_name_chars n : is_valid_header_name n = true -> n <> [] /\ forallb is_token_char n = true.
Proof. rewrite is_valid_header_name_token. apply is_valid_token_iff. Qed.

Lemma line_of_safe h :
  header_ok h = true -> contains_byte CR (line_of h) = false /\ contains_byte LF (line_of h) = false.
Proof.
  intros [[_ Hn]%header_name_chars Hv]%header_ok_iff. apply field_value_no_line in Hv as [Hv1 Hv2].
  unfold line_of. rewrite !contains_byte_app, Hv1, Hv2.
  by rewrite (token_contains CR _ Hn), (token_contains LF _ Hn).
Qed.

(** Writing a header and reading it back gives the header. *)
Lemma parse_header_line_written h :
  header_ok h = true -> ows_trimmed (snd h) = true -> parse_header_line (line_of h) = Ok h.
Proof.
  intros Hok Htrim. pose proof (line_of_safe h Hok) as [Hcr Hlf].
  apply header_ok_iff in Hok as [Hname Hv]. pose proof (header_name_chars _ Hname) as [Hne Hn].
  unfold parse_header_line. rewrite Hcr, Hlf.
  assert (Hs : split_once ":" (line_of h) = Some (fst h, " "%byte :: snd h)).
  { unfold line_of. change (B ": " ++ snd h) with (":"%byte :: " "%byte :: snd h).
    apply split_once_app. by apply (token_contains ":"). }
  rewrite Hs. cbn [ok_or mbind result_bind].
  assert (Hstart : starts_with (B " ") (line_of h) || starts_with ["009"%byte] (line_of h) = false).
  { unfold line_of. destruct (fst h) as [|b n]; [done|]. cbn [forallb] in Hn.
    apply andb_true_iff in Hn as [Hb _]. apply token_not_line in Hb as (_ & _ & Hb1 & _ & Hb2).
    unfold starts_with. change (B " ") with [" "%byte]. cbn [app strip_prefix].
    rewrite (proj2 (byte_eqb_neq " " b)), (proj2 (byte_eqb_neq "009" b)) by congruence. done. }
  rewrite Hstart. assert (is_empty (fst h) = false) as -> by (by destruct (fst h)).
  rewrite (token_trim _ Hn), (token_no_space_or_tab _ Hn), Hname. cbn [orb negb].
  assert (Ht : trim_ows (" "%byte :: snd h) = snd h).
  { change (" "%byte :: snd h) with ([" "%byte] ++ snd h). rewrite <- (app_nil_r (snd h)) at 1.
    by apply trim_ows_sandwich. }
  rewrite Ht, Hv. by destruct h.
Qed.

Lemma line_of_utf8 h :
  header_ok h = true -> utf8_valid (snd h) = true -> utf8_valid (line_of h) = true.
Proof.
  intros [[_ Hn]%header_name_chars _]%header_ok_iff Hv. unfold line_of.
  apply utf8_app; [|by apply utf8_app]. apply utf8_ascii. revert Hn. apply forallb_impl, is_token_char_ascii.
Qed.

Lemma drop_line (l rest : bytes) : drop (length l + 2) (l ++ CRLF ++ rest) = rest.
Proof.
  rewrite app_assoc. replace (length l + 2)%nat with (length (l ++ CRLF)) by (rewrite length_app; done).
  apply drop_app_length.
Qed.

Section Core.
Context {D : Type} `{Decompressor D}.

Implicit Types c : Core D.

(** What the limits ask of a list of headers. *)
Definition fits (limits : DecoderLimits) (hs : list (str * str)) : Prop :=
  blen hs <= max_headers_count limits /\
  Forall (fun h => blen (line_of h) <= max_header_line_size limits) hs.

(** A header line at the front of the buffer. *)
Lemma header_line_written c h rest :
  sendable h = true -> c_buf c = line_of h ++ CRLF ++ rest ->
  blen (line_of h) <= max_header_line_size (c_limits c) ->
  blen (c_headers c) < max_headers_count (c_limits c) ->
  find_line (c_buf c) = Some (length (line_of h)) /\ (0 < length (line_of h))%nat /\
  header_line (length (line_of h)) c = (set_headers (c_headers c ++ [h]) (set_buf rest c), Ok tt).
Proof.
  unfold sendable. rewrite !andb_true_iff. intros [[Hok Ht] Hu] Hb Hlen Hcount.
  pose proof (line_of_safe h Hok) as [Hcr _]. split_and!.
  - rewrite Hb. by apply find_line_line.
  - unfold line_of. rewrite !length_app. cbn. lia.
  - rewrite header_line_eq by (rewrite Hb, !length_app; cbn; lia). cbv zeta. unfold blen in Hlen. rewrite (proj2 (N.ltb_ge _ _)) by exact Hlen.
    rewrite (proj2 (N.leb_gt _ _)) by exact Hcount. rewrite Hb, take_app_length.
    unfold utf8_line. rewrite (from_utf8_valid _ (line_of_utf8 h Hok Hu)).
    cbn [map_err]. rewrite (parse_header_line_written h Hok Ht). by rewrite drop_line.
Qed.
End Core.

(** ** A head at the front of the buffer *)

Section WrittenHead.
Context {D T : Type} `{Decompressor D} `{CoreOfLaws D T} {Hd : Type}.
Context {line_ok : str -> Prop} {keep : T -> T -> Prop}.
Context {check_line : str -> result Error.t unit} {decoded : Hd -> BodyKind -> T -> Prop}.
Context {head_done : st T Error.t (flow (option (Hd * BodyKind)))} {next_message : T -> T}.
Context (R : head_reader line_ok keep check_line decoded head_done next_message).

Implicit Types t : T.

Notation round := (head_round check_line head_done next_message).

(** The state after the start line [l]. *)
Lemma start_line_written t l rest :
  c_phase (core_of t) = StartLine -> c_buf (core_of t) = l ++ CRLF ++ rest ->
  contains_byte CR l = false -> utf8_valid l = true -> check_line l = Ok tt ->
  round t = (put_core (set_phase Headers (set_start_line (Some l) (set_buf rest (core_of t)))) t, Ok Continue).
Proof.
  intros Hp Hb Hcr Hu Hc. unfold head_round. rewrite Hp.
  assert (Hf : find_line (c_buf (core_of t)) = Some (length l)) by (rewrite Hb; by apply find_line_line).
  rewrite (start_line_round_eq t _ Hf). cbv zeta. unfold line_taken. rewrite Hb, take_app_length, drop_line.
  unfold utf8_line. rewrite (from_utf8_valid _ Hu). cbn [map_err]. by rewrite Hc.
Qed.

(** The state after the header lines [hs]. *)
Lemma header_lines_written hs t rest :
  head_inv line_ok t -> c_phase (core_of t) = Headers -> c_buf (core_of t) = header_lines hs ++ rest ->
  forallb sendable hs = true -> fits (c_limits (core_of t)) (c_headers (core_of t) ++ hs) ->
  let t' := put_core (set_headers (c_headers (core_of t) ++ hs) (set_buf rest (core_of t))) t in
  read_head round t = read_head round t' /\ head_inv line_ok t'.
Proof.
  revert t. induction hs as [|h hs IH]; intros t Hi Hp Hb Hs [Hn Hf]; cbv zeta.
  - cbn [header_lines flat_map app] in Hb. rewrite app_nil_r, <- Hb.
    assert (set_headers (c_headers (core_of t)) (set_buf (c_buf (core_of t)) (core_of t)) = core_of t) as ->
      by (by destruct (core_of t)).
    by rewrite put_core_id.
  - rewrite header_lines_cons, <- !app_assoc in Hb. cbn [forallb] in Hs. apply andb_true_iff in Hs as [Hh Hs].
    apply Forall_app in Hf as [Hf0 Hf]. inversion Hf as [|? ? Hfh Hf']; subst.
    rewrite blen_app, blen_cons in Hn.
    destruct (header_line_written (core_of t) h _ Hh Hb Hfh ltac:(lia)) as (Hfl & Hpos & Hhl).
    set (c1 := set_headers (c_headers (core_of t) ++ [h]) (set_buf (header_lines hs ++ rest) (core_of t))) in *.
    assert (Hr : round t = (put_core c1 t, Ok Continue)).
    { unfold head_round, header_round. rewrite Hp, Hfl.
      destruct (length (line_of h)) as [|n] eqn:Hln; [lia|]. unfold on_core, mbind, st_bind. by rewrite Hhl. }
    destruct (read_head_continue R t _ Hi Hr) as [-> Hi'].
    specialize (IH (put_core c1 t) Hi'). rewrite !core_put in IH. unfold c1 in IH. cs.
    cbn [c_headers set_headers] in IH. rewrite !put_put, <- !app_assoc in IH. cbv zeta in IH.
    apply IH; try done. split.
    + rewrite !blen_app, blen_cons, blen_nil. cs. lia.
    + rewrite !Forall_app. split_and!; [done | by constructor | done].
Qed.

(** The state at the empty line of a head that was written as [l] and [hs]. *)
Definition head_read l hs rest t : T :=
  put_core (set_headers hs (set_buf (CRLF ++ rest) (set_phase Headers (set_start_line (Some l) (core_of t))))) t.

Lemma head_written t l hs rest t' a :
  head_inv line_ok t -> c_phase (core_of t) = StartLine -> c_headers (core_of t) = [] ->
  c_buf (core_of t) = l ++ CRLF ++ header_lines hs ++ CRLF ++ rest ->
  contains_byte CR l = false -> utf8_valid l = true -> check_line l = Ok tt ->
  forallb sendable hs = true -> fits (c_limits (core_of t)) hs ->
  head_done (head_read l hs rest t) = (t', Ok (Break a)) ->
  read_head round t = (t', Ok a) /\ head_inv line_ok (head_read l hs rest t).
Proof.
  intros Hi Hp Hh Hb Hcr Hu Hl Hs Hf Hdone.
  pose proof (start_line_written t l _ Hp Hb Hcr Hu Hl) as Hr1.
  destruct (read_head_continue R t _ Hi Hr1) as [-> Hi1].
  pose proof (header_lines_written hs _ (CRLF ++ rest) Hi1) as Hr2. cbv zeta in Hr2. rewrite !core_put in Hr2.
  cs. cbn [c_phase c_buf c_limits c_headers set_phase set_start_line set_buf] in Hr2. rewrite Hh, !put_put in Hr2.
  destruct (Hr2 eq_refl eq_refl Hs Hf) as [-> Hi2]. split; [|exact Hi2].
  change (put_core _ t) with (head_read l hs rest t). unfold read_head. cbn [loop].
  assert (Hr3 : round (head_read l hs rest t) = (t', Ok (Break a))).
  { unfold head_round, header_round, head_read in *. by rewrite core_put. }
  by rewrite Hr3.
Qed.
End WrittenHead.
