(* ===== verification/LengthRoundTrip.v ===== *)
(** * Lengths, and a head at the front of the buffer

    What the round trips of requests and of responses share: a Content-Length
    that the encoder accepts or adds is the one the decoder reads, a body of
    that length, and the head before it. *)
From S2P Require Import Prelude RustStd Errors Validate Trailer Framing Head FramingFacts Message.
From S2P Require Import Buffer BodyDecoder BodyFacts Compression DecoderCore CoreFacts HeadFacts.
From S2P Require Import Encoder EncoderFacts BodyRoundTrip HeadRoundTrip.

Lemma result_bind_Ok {E A C} (m : result E A) (f : A -> result E C) c :
  (x ← m; f x) = Ok c -> exists a, m = Ok a /\ f a = Ok c.
Proof. destruct m as [a|e]; [|done]. intros Hf. by exists a. Qed.

(** ** Content-Length *)

(** A Content-Length the encoder accepts. *)
Definition plain_length (n : N) (v : str) : Prop :=
  trim_ows v <> [] /\ forallb is_ascii_digit (trim_ows v) = true /\ parse_u64 (trim_ows v) = Some n.

Lemma plain_length_parts n v : plain_length n v -> cl_parts v <> [] /\ Forall (is_number n) (cl_parts v).
Proof.
  intros (Hne & Hd & Hp). rewrite digits_cl_parts by done. split; [done|]. by apply Forall_singleton.
Qed.

Lemma validate_lengths hs acc r :
  foldM content_length_step acc hs = Ok r ->
  cl_values hs = [] /\ r = acc \/
  exists n, r = Some n /\ (acc = None \/ acc = Some n) /\ cl_values hs <> [] /\ Forall (plain_length n) (cl_values hs).
Proof.
  revert acc. induction hs as [|h hs IH]; intros acc; cbn [foldM]; [intros <-%Ok_inj; by left|].
  intros (a & Hs & Hr)%result_bind_Ok. specialize (IH a Hr). unfold cl_values in *. cbn [List.filter].
  unfold content_length_step in Hs. destruct (named (B "Content-Length") h); cbn [negb] in Hs;
    [|apply Ok_inj in Hs as <-; exact IH].
  right. cbn [map]. destruct (is_empty (trim_ows (snd h)) || negb (forallb is_ascii_digit (trim_ows (snd h)))) eqn:Hv; [done|].
  apply orb_false_iff in Hv as [He Hd]. apply negb_false_iff in Hd.
  apply result_bind_Ok in Hs as (n & Hn & Hs). destruct (parse_u64 (trim_ows (snd h))) as [n'|] eqn:Hp; [|done].
  apply Ok_inj in Hn as ->.
  assert (Hpl : plain_length n (snd h)) by (split_and!; [by intros Hx; rewrite Hx in He | done | done]).
  assert (Ha : a = Some n /\ (acc = None \/ acc = Some n)).
  { destruct acc as [prev|]; [|apply Ok_inj in Hs as <-; by auto].
    destruct (prev =? n) eqn:E; [|done]. apply N.eqb_eq in E as ->. apply Ok_inj in Hs as <-. by auto. }
  destruct Ha as [-> Ha]. destruct IH as [[Hx ->]|(m & -> & [?|[= <-]] & _ & Hf)]; [|done|].
  - exists n. rewrite Hx. split_and!; [done..|by apply Forall_singleton].
  - exists n. split_and!; [done..|by constructor].
Qed.

(** A string without white space is trimmed. *)
Lemma no_ows_trimmed s : forallb not_ows s = true -> ows_trimmed s = true.
Proof.
  intros Hs. unfold ows_trimmed. destruct s as [|b s]; [done|].
  apply forallb_Forall in Hs as Hall. apply andb_true_iff. split; [by inversion Hall|].
  rewrite Forall_forall in Hall. apply Hall.
  destruct (@exists_last _ (b :: s)) as (l & x & ->); [done|]. rewrite last_last. apply in_or_app. right. by left.
Qed.

Lemma show_dec_chars (p : byte -> bool) n :
  (forall b, is_ascii_digit b = true -> p b = true) -> forallb p (show_dec n) = true.
Proof. intros Hp. pose proof (show_dec_digits n) as Hd. revert Hd. by apply forallb_impl. Qed.

Lemma show_dec_trimmed n : ows_trimmed (show_dec n) = true.
Proof. apply no_ows_trimmed, show_dec_chars. intros b. byte_solve b. Qed.

Lemma show_dec_plain n : n <= u64_MAX -> plain_length n (show_dec n).
Proof.
  intros Hn. unfold plain_length. rewrite (trim_ows_id _ (show_dec_trimmed n)).
  split_and!; [apply show_dec_not_nil | apply show_dec_digits | by apply parse_u64_show].
Qed.

(** A line of the encoder's own. *)
Lemma length_header_sendable n : sendable (B "Content-Length", show_dec n) = true.
Proof.
  unfold sendable, header_ok, is_valid_field_value. cbn [fst snd].
  rewrite (show_dec_chars is_valid_field_vchar), show_dec_trimmed, utf8_ascii; [done| |].
  - apply show_dec_chars. intros b. byte_solve b.
  - intros b. byte_solve b.
Qed.

Lemma body_len_default b : body_len b = blen (default [] b).
Proof. by destruct b. Qed.

Section Body.
Context {D : Type} `{Decompressor D} (line_ok : str -> Prop) (close : DecodePhase).

Implicit Types c : Core D.

(** The body that follows. *)
Lemma length_body_read c data rest :
  core_inv line_ok c -> c_phase c = phase_after_head close (KContentLength (blen data)) ->
  c_buf c = data ++ rest ->
  exists s, body_loop c = (stepped data s c, Ok true) /\ b_buf s = rest.
Proof.
  intros Hi Hp Hb. cbn [phase_after_head] in Hp. destruct (0 <? blen data) eqn:H0.
  - rewrite (body_loop_length line_ok c data rest Hi Hp Hb). by eexists.
  - assert (data = []) as -> by (apply blen_0; lia).
    destruct (body_loop_complete c Hp) as (s & -> & Hs & _). exists s. by rewrite Hs, Hb.
Qed.
End Body.
