(* ===== verification/RequestRoundTrip.v ===== *)
(** * Encoding a request and decoding it

    What [encode_request] writes, [decode] reads back; and so for requests one
    after the other on a connection. *)
From S2P Require Import Prelude RustStd Errors Validate Host Target Trailer Framing Head FramingFacts Message.
From S2P Require Import Buffer BodyDecoder BodyFacts Compression DecoderCore CoreFacts CoreApi HeadFacts Stream.
From S2P Require Import RequestDecoder RequestFacts RequestTheorems.
From S2P Require Import Encoder EncoderFacts BodyRoundTrip HeadRoundTrip LengthRoundTrip.

Section Head.
Context {D : Type} `{Decompressor D}.

Implicit Types c : Core D.

Definition line_bytes (m u v : str) : bytes := m ++ " "%byte :: u ++ " "%byte :: v.

Lemma ascii_valid_target u :
  is_valid_request_target u = true -> has_non_ascii u = false -> forallb is_ascii u = true.
Proof.
  intros _ Hu. unfold has_non_ascii in Hu. rewrite existsb_negb_forallb, negb_false_iff in Hu.
  revert Hu. apply forallb_impl. intros b. unfold is_ascii. rewrite negb_true_iff, N.leb_gt, N.ltb_lt. done.
Qed.

Lemma request_line_utf8 m u v :
  request_line_parts (line_bytes m u v) m u v -> utf8_valid (line_bytes m u v) = true.
Proof.
  intros [_ Hm Hu Ha _ Hv]. apply utf8_ascii. unfold line_bytes.
  change (m ++ " "%byte :: u ++ " "%byte :: v) with (m ++ [" "%byte] ++ u ++ [" "%byte] ++ v).
  rewrite !forallb_app, (ascii_valid_target u Hu Ha). cbn [forallb andb].
  rewrite is_valid_method_token in Hm. apply is_valid_token_iff in Hm as [_ Hm].
  apply protocol_version_chars in Hv as [_ Hv].
  assert (Hva : forallb is_ascii v = true) by (revert Hv; apply forallb_impl; intros b; byte_solve b).
  by rewrite (forallb_impl _ _ _ is_token_char_ascii Hm), Hva.
Qed.

(** The head of a request at the front of the buffer. *)
Lemma request_head_written c m u v hs k rest :
  loop_inv request_line_ok c -> c_phase c = StartLine -> c_headers c = [] ->
  c_buf c = line_bytes m u v ++ CRLF ++ header_lines hs ++ CRLF ++ rest ->
  request_line_parts (line_bytes m u v) m u v -> m <> B "CONNECT" ->
  forallb sendable hs = true -> fits (c_limits c) hs -> check_host hs v = Ok tt ->
  determine_body_kind hs (c_limits c) v = Ok k ->
  exists c', rq_core_decode_headers c = (c', Ok (Some (RequestHead.from_validated_parts m u v hs, k))) /\
    c_phase c' = phase_after_head Complete k /\ c_buf c' = rest /\ c_headers c' = [] /\
    fresh (c_body_decoder c').
Proof.
  intros [Hi _] Hp Hh0 Hb Hl Hm Hs Hf Hho Hk.
  assert (Hchk : check_request_line (line_bytes m u v) = Ok tt) by (apply check_request_line_iff; by exists m, u, v).
  assert (Hcr : contains_byte CR (line_bytes m u v) = false).
  { unfold check_request_line, invalid in Hchk. by destruct (contains_byte CR _). }
  set (c2 := head_read (line_bytes m u v) hs rest c).
  assert (Hdone : request_head_done c2 = (entered Complete k (set_buf rest c2),
      Ok (Break (Some (RequestHead.from_validated_parts m u v hs, k))))).
  { rewrite (request_head_done_eq c2 _ m u v eq_refl Hl ltac:(cbn; lia)). cbv zeta.
    assert (request_kind m v c2 = Ok k) as ->; [|done].
    unfold request_kind. change (c_headers c2) with hs. change (c_limits c2) with (c_limits c).
    rewrite Hho. cbn [mbind result_bind]. by rewrite (proj2 (beqs_neq _ _) Hm). }
  destruct (head_written request_reader c _ hs rest _ _ Hi Hp Hh0 Hb Hcr (request_line_utf8 m u v Hl) Hchk Hs Hf Hdone)
    as [He Hi2].
  eexists. split; [exact He|]. split_and!; try done. exact (inv_fresh _ _ Hi2 (or_intror eq_refl)).
Qed.
End Head.

(** ** What is sent *)

Definition auto_length (r : Request.t) : list (str * str) :=
  if should_auto_emit_content_length_for_request r
  then [(B "Content-Length", show_dec (body_len (Request.body_bytes r)))] else [].

(** The request as the peer sees it: with the Content-Length the encoder
    adds, and with a body whenever it has a Content-Length. *)
Definition sent (r : Request.t) : Request.t :=
  let hs := Request.headers r ++ auto_length r in
  Request.from_raw_parts (Request.method r) (Request.uri r) (Request.version r) hs
    (if existsb (named (B "Content-Length")) hs then Some (default [] (Request.body r)) else None).

(** What the peer needs to accept a request. *)
Record receivable (limits : DecoderLimits) (r : Request.t) : Prop := {
  rv_line : request_line_parts (line_bytes (Request.method r) (Request.uri r) (Request.version r))
              (Request.method r) (Request.uri r) (Request.version r);
  rv_connect : Request.method r <> B "CONNECT";
  rv_headers : forallb sendable (Request.headers r) = true;
  rv_chunked : has_header (B "Transfer-Encoding") r = false;
  rv_fits : fits limits (Request.headers r ++ auto_length r);
  rv_body : body_len (Request.body r) <= max_body_size limits;
  rv_limits : limits_ok limits
}.

(** The checks of the encoder, one by one. *)
Lemma check_request_Ok r :
  check_request true r = Ok tt ->
  validate_request_fields r = Ok tt /\ validate_host_header r = Ok tt /\
  (has_header (B "Transfer-Encoding") r = false ->
   exists v, validate_content_length_headers (Request.headers r) = Ok v /\
             check_content_length_mismatch true v (body_len (Request.body_bytes r)) = Ok tt).
Proof.
  unfold check_request. intros H.
  apply result_bind_Ok in H as ([] & H1 & H). apply result_bind_Ok in H as ([] & _ & H).
  apply result_bind_Ok in H as ([] & _ & H). apply result_bind_Ok in H as ([] & H2 & H).
  split_and!; [done..|]. intros Hte. rewrite Hte in H. cbn [andb negb] in H.
  apply result_bind_Ok in H as (v & H3 & H). by exists v.
Qed.

Lemma encode_request_bytes r bs :
  encode_request r = Ok bs -> body_len (Request.body r) <= usize_MAX ->
  check_request true r = Ok tt /\
  bs = line_bytes (Request.method r) (Request.uri r) (Request.version r) ++ CRLF
       ++ header_lines (Request.headers r ++ auto_length r) ++ CRLF ++ default [] (Request.body r).
Proof.
  unfold encode_request. intros H Hb. apply result_bind_Ok in H as ([] & Hc & H). split; [done|].
  apply Ok_inj in H as <-. unfold request_line, auto_length, Request.body_bytes in *.
  assert (Hl : forall m u v, line_bytes m u v = m ++ B " " ++ u ++ B " " ++ v) by done. rewrite Hl.
  rewrite header_lines_app. destruct (should_auto_emit_content_length_for_request r).
  - unfold content_length_line. rewrite write_usize_decimal_eq by done. rewrite header_lines_cons. unfold line_of.
    cbn [fst snd header_lines flat_map]. by rewrite <- !app_assoc.
  - cbn [header_lines flat_map]. rewrite !app_nil_r. by rewrite <- !app_assoc.
Qed.

(** ** The encoder's checks imply the decoder's *)

Lemma host_checked r :
  validate_host_header r = Ok tt -> check_host (Request.headers r ++ auto_length r) (Request.version r) = Ok tt.
Proof.
  unfold validate_host_header, check_host, invalid. destruct (Request.version r =s B "HTTP/1.1") eqn:Hv; [|done].
  cbn [negb]. rewrite List.filter_app.
  assert (Ha : List.filter (named (B "Host")) (auto_length r) = []).
  { unfold auto_length. by destruct (should_auto_emit_content_length_for_request r). }
  rewrite Ha, app_nil_r. unfold get_headers. change (headers r) with (Request.headers r).
  destruct (List.filter (named (B "Host")) (Request.headers r)) as [|[n x] [|h hs]]; [done| |done].
  cbn [map snd]. by destruct (negb (is_empty x) && is_err (Host_parse x)).
Qed.

Definition sent_kind (r : Request.t) : BodyKind :=
  if existsb (named (B "Content-Length")) (Request.headers r ++ auto_length r)
  then KContentLength (body_len (Request.body r)) else KNone.

Lemma auto_length_spec r :
  has_header (B "Transfer-Encoding") r = false ->
  auto_length r = [] /\ (has_header (B "Content-Length") r = true \/ Request.body r = None) \/
  auto_length r = [(B "Content-Length", show_dec (body_len (Request.body r)))] /\
  has_header (B "Content-Length") r = false.
Proof.
  intros Hte. unfold auto_length, should_auto_emit_content_length_for_request, Request.body_bytes. rewrite Hte.
  destruct (has_header (B "Content-Length") r), (Request.body r) as [b|]; cbn [is_some negb andb]; auto.
Qed.

Lemma sent_framing limits r :
  check_request true r = Ok tt -> receivable limits r ->
  determine_body_kind (Request.headers r ++ auto_length r) limits (Request.version r) = Ok (sent_kind r).
Proof.
  intros Hc [_ _ _ Hte _ Hb Hl]. apply check_request_Ok in Hc as (_ & _ & Hcl).
  destruct (Hcl Hte) as (v & Hv & Hm). unfold validate_content_length_headers in Hv. apply validate_lengths in Hv.
  assert (Hu : body_len (Request.body r) <= u64_MAX) by (destruct Hl as (_ & _ & _ & ? & _); unfold usize_MAX, u64_MAX in *; lia).
  assert (Hno : te_tokens (Request.headers r ++ auto_length r) = []).
  { apply te_tokens_absent. rewrite existsb_app. unfold has_header in Hte. change (headers r) with (Request.headers r) in Hte.
    rewrite Hte. unfold auto_length. by destruct (should_auto_emit_content_length_for_request r). }
  assert (Hlen : forall hs n, cl_values hs <> [] -> Forall (plain_length n) (cl_values hs) -> length_is n hs).
  { intros hs n H1 H2. split; [done|]. eapply Forall_impl; [|exact H2]. intros x. apply plain_length_parts. }
  unfold sent_kind. rewrite existsb_app. change (existsb _ (Request.headers r)) with (has_header (B "Content-Length") r).
  destruct (auto_length_spec r Hte) as [[Ha Hn]|[Ha Hn]]; rewrite Ha in *; cbn [existsb].
  - rewrite app_nil_r, orb_false_r in *. destruct (has_header (B "Content-Length") r) eqn:Hh.
    + apply request_framing_iff. split_and!; [done| |done].
      destruct Hv as [[Hx _]|(n & -> & _ & Hne & Hf)].
      { apply cl_values_absent in Hx. unfold has_header in Hh. change (headers r) with (Request.headers r) in Hh.
        by rewrite Hx in Hh. }
      unfold check_content_length_mismatch, Request.body_bytes in Hm. cbn [andb] in Hm.
      destruct (n =? body_len (Request.body r)) eqn:E; [|done]. apply N.eqb_eq in E as <-. by apply Hlen.
    + apply request_framing_iff. split; [done|]. by apply cl_values_absent.
  - rewrite Hn. apply request_framing_iff. split_and!; [done| |done].
    apply cl_values_absent in Hn. change (headers r) with (Request.headers r) in Hn.
    apply Hlen; rewrite cl_values_app, Hn; [done|]. apply Forall_singleton, show_dec_plain. done.
Qed.

(** ** The round trip *)

Section RoundTrip.
Context {D : Type} `{Decompressor D}.

Implicit Types c : Core D.
Implicit Types d : RequestDecoder D.

(** Between two messages, with [buf] received. *)
Record rq_idle (limits : DecoderLimits) (buf : bytes) d : Prop := {
  idle_inv : rq_inv d;
  idle_phase : c_phase (rq_core d) = StartLine;
  idle_headers : c_headers (rq_core d) = [];
  idle_body : c_decoded_body (rq_core d) = [];
  idle_head : rq_decoded_head d = None;
  idle_buf : c_buf (rq_core d) = buf;
  idle_limits : c_limits (rq_core d) = limits
}.

Lemma sent_headers_ok limits r : receivable limits r -> forallb sendable (Request.headers r ++ auto_length r) = true.
Proof.
  intros [_ _ Hs _ _ _ _]. rewrite forallb_app, Hs. unfold auto_length.
  destruct (should_auto_emit_content_length_for_request r); [|done]. cbn [forallb]. by rewrite length_header_sendable.
Qed.

Lemma message_done_idle limits rest k c d :
  rq_inv (message_done k (with_core c d)) -> c_headers c = [] -> c_buf c = rest -> c_limits c = limits ->
  (k = KNone -> c_decoded_body c = []) -> k <> KTunnel ->
  rq_idle limits rest (message_done k (with_core c d)).
Proof. intros Hi Hh Hb Hl Hn Ht. split; try done; destruct k; by auto. Qed.

Lemma sent_no_body r :
  has_header (B "Transfer-Encoding") r = false -> sent_kind r = KNone -> Request.body r = None.
Proof.
  intros Hte. unfold sent_kind. rewrite existsb_app.
  change (existsb _ (Request.headers r)) with (has_header (B "Content-Length") r).
  destruct (auto_length_spec r Hte) as [[-> [Hn|Hn]]|[-> Hn]]; rewrite Hn; done.
Qed.

(** One message of a connection. *)
Lemma request_step limits d r bs rest :
  encode_request r = Ok bs -> receivable limits r -> rq_idle limits (bs ++ rest) d ->
  exists d', rq_decode d = (d', Ok (Some (sent r))) /\ rq_idle limits rest d'.
Proof.
  intros Henc Hrv Hid. pose proof Hid as [Hi Hp Hh Hdb Hhead Hbuf Hlim].
  pose proof Hrv as [Hline Hcon _ _ Hfits Hbody Hl].
  assert (Hmax : body_len (Request.body r) <= usize_MAX) by (destruct Hl as (_ & _ & _ & ? & _); lia).
  destruct (encode_request_bytes r bs Henc Hmax) as [Hchk ->]. rewrite <- !app_assoc in Hbuf.
  pose proof (check_request_Ok r Hchk) as (_ & Hhost & _).
  destruct (request_head_written (rq_core d) _ _ _ _ (sent_kind r) _ (ri_core _ Hi) Hp Hh Hbuf Hline Hcon
    (sent_headers_ok limits r Hrv)) as (c' & Hdec & Hp' & Hb' & Hh' & Hfr);
    [by rewrite Hlim | by apply host_checked | rewrite Hlim; by apply sent_framing|].
  pose proof (rq_decode_inv d Hi) as Hinv. rewrite (rq_decode_eq d Hi), decode_head_eq, Hhead, Hp, Hdec in Hinv |- *.
  pose proof (decode_headers_post _ (ri_core _ Hi)) as Hpost. rewrite Hdec in Hpost.
  destruct Hpost as (Hi' & _ & _ & (Hr1 & _ & Hr3 & _) & _).
  cbn [rq_decoded_head rq_core] in Hinv |- *. cs. cbn [c_decoded_body_kind set_decoded_body_kind] in Hinv.
  set (c2 := set_decoded_body_kind _ c') in *.
  assert (Hi2 : core_inv request_line_ok c2) by (destruct Hi' as [[I1 [B1 B2 B3] I3 I4 I5 I6] Hn]; by split; [|split|..]).
  unfold sent. pose proof (sent_no_body r (rv_chunked _ _ Hrv)) as Hno. unfold sent_kind in *.
  destruct (existsb _ (Request.headers r ++ auto_length r)); cbn [rq_decode_body] in *.
  - rewrite body_len_default in *. cs.
    destruct (length_body_read request_line_ok Complete c2 _ rest Hi2 Hp' Hb') as (s & Hbl & Hbs). rewrite Hbl in Hinv |- *.
    destruct Hinv as [Hinv _]. assert (Hlim2 : c_limits (stepped (default [] (Request.body r)) s c2) = limits) by (cbn; by rewrite Hr1).
    eexists. split; [|refine (message_done_idle limits rest _ _ _ Hinv Hh' Hbs Hlim2 _ _); done].
    unfold message. cbn. by rewrite Hr3, Hdb.
  - rewrite (Hno eq_refl) in Hb'. unfold mret, st_ret in *.
    destruct Hinv as [Hinv _]. assert (Hlim2 : c_limits c2 = limits) by (cbn; by rewrite Hr1).
    eexists. split; [done|]. refine (message_done_idle limits rest _ _ _ Hinv Hh' Hb' Hlim2 _ _); [|done].
    intros _. cbn. by rewrite Hr3.
Qed.

(** C6: what [encode_request] writes of a request that can be received, [decode]
    reads back, whatever follows it in the buffer: the same method, target,
    version and headers, the Content-Length the encoder added behind them, and the
    body (an absent one is read as empty when the head has a Content-Length); and
    the decoder, which was between two messages, is so again with the rest of the
    input.  A request can be received ([receivable]) when its method, target and
    version make a request line that the decoder accepts, its method is not
    CONNECT, it has no Transfer-Encoding header, its fields are well formed and in
    UTF-8 with no white space at the ends of their values, the number and the size
    of its header lines, with the added one, are within the decoder's limits, and
    its body within [max_body_size]. *)
Theorem request_roundtrip limits d r bs rest :
  encode_request r = Ok bs -> receivable limits r -> rq_idle limits (bs ++ rest) d ->
  exists d', rq_decode d = (d', Ok (Some (sent r))) /\ rq_idle limits rest d'.
Proof. apply request_step. Qed.

(** With nothing received there is nothing to decode. *)
Lemma idle_empty limits d : rq_idle limits [] d -> rq_decode d = (d, Ok None).
Proof.
  intros [Hi Hp Hh Hb Hd Hbuf Hl]. rewrite (rq_decode_eq d Hi), decode_head_eq, Hd, Hp.
  assert (rq_core_decode_headers (rq_core d) = (rq_core d, Ok None)) as ->.
  { unfold rq_core_decode_headers, read_head. cbn [loop].
    unfold request_round, head_round, start_line_round. cbn [core_of core_self]. by rewrite Hp, Hbuf. } unfold with_core. by destruct d.
Qed.

Lemma pipeline_ready limits rs bss d :
  Forall2 (fun r bs => encode_request r = Ok bs /\ receivable limits r) rs bss ->
  rq_idle limits (concat bss) d ->
  exists d', decode_ready d = (d', map sent rs, None) /\ rq_idle limits [] d'.
Proof.
  intros Hf. revert d. induction Hf as [|r bs rs bss [He Hr] Hf IH]; intros d Hid;
    pose proof (decode_ready_eq (H := rq_stream) d (idle_inv _ _ _ Hid)) as Heq; cbn [sd_decode rq_stream] in Heq.
  - exists d. by rewrite Heq, (idle_empty limits d Hid).
  - destruct (request_step limits d r bs (concat bss) He Hr Hid) as (d1 & Hd & Hid1).
    destruct (IH d1 Hid1) as (d2 & Hd2 & Hid2). exists d2.
    by rewrite Heq, Hd, Hd2.
Qed.

(** ** Chunked bodies *)

Record chunked_receivable (limits : DecoderLimits) (r : Request.t) (cs : list bytes) : Prop := {
  cr_line : request_line_parts (line_bytes (Request.method r) (Request.uri r) (Request.version r))
              (Request.method r) (Request.uri r) (Request.version r);
  cr_connect : Request.method r <> B "CONNECT";
  cr_version : Request.version r = B "HTTP/1.1";
  cr_headers : forallb sendable (Request.headers r) = true;
  cr_chunked : exists t, te_tokens (Request.headers r) = [t] /\ chunked_token t = true;
  cr_fits : fits limits (Request.headers r);
  cr_chunks : Forall (fun x : bytes => x <> []) cs;
  cr_body : blen (concat cs) <= max_body_size limits;
  cr_line_size : 16 <= max_chunk_line_size limits;
  cr_limits : limits_ok limits
}.

Definition sent_chunked (r : Request.t) (cs : list bytes) : Request.t :=
  Request.from_raw_parts (Request.method r) (Request.uri r) (Request.version r) (Request.headers r)
    (Some (concat cs)).

Lemma te_tokens_present hs : te_tokens hs <> [] -> existsb (named (B "Transfer-Encoding")) hs = true.
Proof. intros Hn. destruct (existsb _ hs) eqn:He; [done|]. by rewrite te_tokens_absent in Hn. Qed.

(** What the head encoder has checked of a message with a transfer coding. *)
Lemma encode_headers_checked r bs :
  encode_request_headers r = Ok bs -> has_header (B "Transfer-Encoding") r = true ->
  bs = request_line r ++ header_lines (Request.headers r) ++ CRLF /\
  validate_host_header r = Ok tt /\ has_header (B "Content-Length") r = false.
Proof.
  unfold encode_request_headers, check_request. intros Henc Hte. apply result_bind_Ok in Henc as ([] & Hc & Henc).
  apply Ok_inj in Henc as <-. split; [done|].
  apply result_bind_Ok in Hc as ([] & _ & Hc). apply result_bind_Ok in Hc as ([] & _ & Hc).
  apply result_bind_Ok in Hc as ([] & _ & Hc). apply result_bind_Ok in Hc as ([] & Hh & Hc).
  split; [done|]. rewrite Hte in Hc. by destruct (has_header (B "Content-Length") r).
Qed.

(** One message with a chunked body. *)
Lemma chunked_request_step limits d r cs bs rest :
  encode_request_headers r = Ok bs -> chunked_receivable limits r cs ->
  rq_idle limits (bs ++ encode_chunks cs ++ rest) d ->
  exists d', rq_decode d = (d', Ok (Some (sent_chunked r cs))) /\ rq_idle limits rest d'.
Proof.
  intros Henc [Hline Hcon Hv Hs (t & Hte & Htc) Hf Hcs Hbody Hsize Hl] [Hi Hp Hh Hdb Hhead Hbuf Hlim].
  assert (Hhas : has_header (B "Transfer-Encoding") r = true) by (apply te_tokens_present; change (te_tokens (Request.headers r) <> []); by rewrite Hte).
  destruct (encode_headers_checked r bs Henc Hhas) as (-> & Hhost & Hcl). unfold request_line in Hbuf.
  assert (Hlb : forall m u v, line_bytes m u v = m ++ B " " ++ u ++ B " " ++ v) by done.
  rewrite <- !app_assoc in Hbuf.
  assert (Hbuf2 : c_buf (rq_core d) = line_bytes (Request.method r) (Request.uri r) (Request.version r) ++ CRLF
    ++ header_lines (Request.headers r) ++ CRLF ++ (encode_chunks cs ++ rest))
    by (by rewrite Hbuf, Hlb, <- !app_assoc).
  assert (Hk : determine_body_kind (Request.headers r) limits (Request.version r) = Ok KChunked).
  { apply request_framing_iff. split_and!; [by exists t | by apply cl_values_absent | done]. }
  assert (Hck : check_host (Request.headers r) (Request.version r) = Ok tt).
  { pose proof (host_checked r Hhost) as Hx. unfold auto_length, should_auto_emit_content_length_for_request in Hx.
    by rewrite Hhas, andb_false_r, app_nil_r in Hx. }
  rewrite <- Hlim in Hk, Hf.
  destruct (request_head_written (rq_core d) _ _ _ _ KChunked _ (ri_core _ Hi) Hp Hh Hbuf2 Hline Hcon Hs Hf Hck Hk)
    as (c' & Hdec & Hp' & Hb' & Hh' & Hfr1 & Hfr2 & Hfr3).
  pose proof (rq_decode_inv d Hi) as Hinv. rewrite (rq_decode_eq d Hi), decode_head_eq, Hhead, Hp, Hdec in Hinv |- *.
  pose proof (decode_headers_post _ (ri_core _ Hi)) as Hpost. rewrite Hdec in Hpost.
  destruct Hpost as (Hi' & _ & _ & (Hr1 & _ & Hr3 & _) & _).
  cbn [rq_decoded_head rq_core] in Hinv |- *. cs. cbn [c_decoded_body_kind set_decoded_body_kind rq_decode_body] in Hinv |- *.
  set (c2 := set_decoded_body_kind _ c') in *.
  assert (Hi2 : core_inv request_line_ok c2) by (destruct Hi' as [[I1 [B1 B2 B3] I3 I4 I5 I6] Hn]; by split; [|split|..]).
  destruct (body_loop_chunks request_line_ok cs c2 rest Hi2 Hp' Hb' Hcs) as (s & Hbl & Hbs & _);
    [cbn; rewrite Hfr2, Hr1, Hlim; lia | cbn; by rewrite Hr1, Hlim|].
  rewrite Hbl in Hinv |- *. destruct Hinv as [Hinv _].
  assert (Hlim2 : c_limits (stepped (concat cs) s c2) = limits) by (cbn; by rewrite Hr1).
  eexists. split; [|refine (message_done_idle limits rest _ _ _ Hinv Hh' Hbs Hlim2 _ _); done].
  unfold message, sent_chunked. cbn. by rewrite Hr3, Hdb.
Qed.

(** C12: a head from [encode_request_headers] with the one transfer coding chunked
    and a body from [encode_chunks] for chunks none of which is empty (an empty one
    would end the body) are read back by [decode] as one request with the chunks
    joined, whatever follows them in the buffer.  The request can be received: its
    request line is one that the decoder accepts, the version is HTTP/1.1, the
    method is not CONNECT, the fields are well formed and in UTF-8 with no white
    space at the ends of their values, the header lines and the chunks joined are
    within the decoder's limits, and [max_chunk_line_size] is at least 16. *)
Theorem chunked_request_roundtrip limits d r cs bs rest :
  encode_request_headers r = Ok bs -> chunked_receivable limits r cs ->
  rq_idle limits (bs ++ encode_chunks cs ++ rest) d ->
  exists d', rq_decode d = (d', Ok (Some (sent_chunked r cs))) /\ rq_idle limits rest d'.
Proof. apply chunked_request_step. Qed.
End RoundTrip.

(** ** A connection *)

Section Connection.
Context {D : Type} `{Decompressor D}.

Lemma fresh_idle (z : D) limits buf :
  limits_ok limits -> rq_idle limits buf (rq_feed_unchecked buf (rq_new z limits)).
Proof. intros Hl. split; try done. by apply (rq_extend_inv buf), rq_new_inv. Qed.

(** Requests that were encoded one after the other on a connection are
    decoded to the same requests in the same order, in whatever pieces the
    bytes arrive. *)
Lemma pipelined_requests (z : D) limits rs bss ps :
  limits_ok limits -> Forall2 (fun r bs => encode_request r = Ok bs /\ receivable limits r) rs bss ->
  ps <> [] -> concat ps = concat bss ->
  exists d', decode_pieces ps (rq_new z limits) = (d', map sent rs, None) /\ rq_idle limits [] d'.
Proof.
  intros Hl Hf Hp Hc. destruct ps as [|p ps]; [done|]. cbn [concat] in Hc.
  pose proof (decode_pieces_concat p ps _ (rq_new_inv z limits Hl)) as Hs. rewrite Hc in Hs.
  destruct (pipeline_ready limits rs bss _ Hf (fresh_idle z limits (concat bss) Hl)) as (d' & Hd & Hid).
  cbn [decode_pieces sd_extend rq_stream] in Hs. rewrite Hd in Hs. cbn [and_then after] in Hs.
  rewrite app_nil_r in Hs. exists d'. split; [|done].
  change (decode_pieces (p :: ps) (rq_new z limits))
    with (and_then (decode_ready (rq_feed_unchecked p (rq_new z limits))) (decode_pieces ps)).
  destruct (and_then _ _) as [[d2 ms] [e|]]; destruct Hs as [-> Hs]; [done|]. by subst d2.
Qed.
End Connection.

(** An empty chunk among the chunks of [encode_chunks] ends the body: what
    it writes is the encoding of the chunks before it, with their terminating
    chunk, and then a second body that the receiver takes for the start of the
    next message. *)
Lemma encode_chunks_empty_chunk_splits cs1 cs2 :
  encode_chunks (cs1 ++ [] :: cs2) = encode_chunks cs1 ++ encode_chunks cs2.
Proof.
  unfold encode_chunks. rewrite flat_map_app. cbn [flat_map]. rewrite <- !app_assoc. done.
Qed.

(** ** Concrete requests *)

Definition example_post : Request.t :=
  Request.from_raw_parts (B "POST") (B "/submit?q=1") (B "HTTP/1.1") [(B "Host", B "example.com"); (B "Accept", B "*/*")]
    (Some (B "hello")).

Definition example_get : Request.t :=
  Request.from_raw_parts (B "GET") (B "/") (B "HTTP/1.1") [(B "Host", B "example.com")] None.

Definition example_chunked : Request.t :=
  Request.from_raw_parts (B "PUT") (B "/x") (B "HTTP/1.1")
    [(B "Host", B "example.com"); (B "Transfer-Encoding", B "chunked")] None.

Lemma line_parts_check m u v form :
  is_valid_method m && is_valid_request_target u && negb (has_non_ascii u) && is_valid_protocol_version v = true ->
  parse_request_target_form u = Ok form -> validate_request_target_for_method m form = Ok tt ->
  request_line_parts (line_bytes m u v) m u v.
Proof.
  rewrite !andb_true_iff, negb_true_iff. intros [[[Hm Hu] Ha] Hv] Hf Hvf. split; try done. by exists form.
Qed.

Lemma fits_check limits hs :
  (blen hs <=? max_headers_count limits)
  && forallb (fun h => blen (line_of h) <=? max_header_line_size limits) hs = true -> fits limits hs.
Proof.
  rewrite andb_true_iff, N.leb_le, forallb_Forall. intros [Hn Hf]. split; [done|].
  eapply Forall_impl; [|exact Hf]. intros h. apply N.leb_le.
Qed.

Lemma example_post_receivable : receivable DecoderLimits_default example_post.
Proof.
  split; [by apply (line_parts_check _ _ _ Origin); vm_compute | by vm_compute | by vm_compute | by vm_compute
    | by apply fits_check; vm_compute | by vm_compute | by vm_compute].
Defined.

Lemma example_get_receivable : receivable DecoderLimits_default example_get.
Proof.
  split; [by apply (line_parts_check _ _ _ Origin); vm_compute | by vm_compute | by vm_compute | by vm_compute
    | by apply fits_check; vm_compute | by vm_compute | by vm_compute].
Defined.

Definition fresh_decoder (buf : bytes) : RequestDecoder NoCompression :=
  rq_feed_unchecked buf (rq_new NoCompression_new DecoderLimits_default).

Definition ok_or_nil {E} (r : result E bytes) : bytes := match r with Ok b => b | Err _ => [] end.

Lemma request_roundtrip_witness :
  exists d', rq_decode (fresh_decoder (ok_or_nil (encode_request example_post) ++ B "GET")) = (d', Ok (Some (sent example_post)))
    /\ rq_idle DecoderLimits_default (B "GET") d'.
Proof.
  apply (request_roundtrip DecoderLimits_default _ example_post (ok_or_nil (encode_request example_post)));
    [by vm_compute | apply example_post_receivable|].
  apply fresh_idle. apply limits_ok_default.
Defined.

Lemma chunked_request_roundtrip_witness :
  exists d', rq_decode (fresh_decoder (ok_or_nil (encode_request_headers example_chunked)
      ++ encode_chunks [B "hello "; B "world"] ++ B "PUT"))
    = (d', Ok (Some (sent_chunked example_chunked [B "hello "; B "world"])))
    /\ rq_idle DecoderLimits_default (B "PUT") d'.
Proof.
  apply (chunked_request_roundtrip DecoderLimits_default _ example_chunked _
    (ok_or_nil (encode_request_headers example_chunked))); [by vm_compute| |apply fresh_idle; apply limits_ok_default].
  split; [by apply (line_parts_check _ _ _ Origin); vm_compute | by vm_compute | by vm_compute | by vm_compute
    | by exists (B "chunked"); vm_compute | by apply fits_check; vm_compute | by repeat constructor
    | by vm_compute | by vm_compute | by vm_compute].
Defined.

Example pipelined_requests_at :
  let bs := ok_or_nil (encode_request example_post) ++ ok_or_nil (encode_request example_get) in
  exists d', decode_pieces (map (fun b => [b]) bs) (rq_new NoCompression_new DecoderLimits_default)
      = (d', [sent example_post; sent example_get], None)
    /\ rq_idle DecoderLimits_default [] d'.
Proof.
  apply (pipelined_requests NoCompression_new DecoderLimits_default [example_post; example_get]
    [ok_or_nil (encode_request example_post); ok_or_nil (encode_request example_get)]).
  - apply limits_ok_default.
  - constructor; [split; [by vm_compute | apply example_post_receivable]|].
    constructor; [split; [by vm_compute | apply example_get_receivable]|]. constructor.
  - by vm_compute.
  - by vm_compute.
Defined.
