(* ===== verification/ResponseRoundTrip.v ===== *)
(** * Encoding a response and decoding it

    What [encode_response] writes, [decode] reads back, with the method of the
    request it answers; and so for a chunked body, for a body that ends with
    the connection, and for the responses of a connection in order. *)
From S2P Require Import Prelude RustStd Errors Validate Trailer Framing StatusCode Head FramingFacts Message.
From S2P Require Import Buffer BodyDecoder BodyFacts Compression DecoderCore CoreFacts CoreApi HeadFacts Stream.
From S2P Require Import ResponseDecoder ResponseFacts ResponseTheorems.
From S2P Require Import Encoder EncoderFacts BodyRoundTrip HeadRoundTrip LengthRoundTrip.

(** ** The status line *)

Definition status_bytes (r : Response.t) : bytes :=
  Response.version r ++ " "%byte :: show_dec (Response.status_code r) ++ " "%byte :: Response.reason_phrase r.

Lemma reason_no_line s : is_valid_reason_phrase s = true -> contains_byte CR s = false /\ contains_byte LF s = false.
Proof. intros [_ Hs]%andb_true_iff. split; by eapply contains_byte_forallb. Qed.

Lemma status_bytes_parts r :
  Response.valid r = true ->
  status_line_parts (status_bytes r) (Response.version r) (show_dec (Response.status_code r))
    (Response.status_code r) (Response.reason_phrase r).
Proof.
  unfold Response.valid. rewrite !andb_true_iff. intros [[[Hv Hc] Hr] _].
  assert (Hd : forall c, is_ascii_digit c = false -> contains_byte c (show_dec (Response.status_code r)) = false)
    by (intros; eapply contains_byte_forallb; [apply show_dec_digits | done]).
  pose proof (protocol_version_chars _ Hv) as [_ Hvc].
  assert (Hr' : Response.reason_phrase r = [] \/ is_valid_reason_phrase (Response.reason_phrase r) = true).
  { destruct (Response.reason_phrase r); [by left | by right]. }
  assert (Hrl : contains_byte CR (Response.reason_phrase r) = false /\ contains_byte LF (Response.reason_phrase r) = false).
  { destruct Hr' as [-> | Hr']; [done | by apply reason_no_line]. }
  split; try done; [by left| |by apply Hd|].
  - unfold status_bytes.
    change (show_dec (Response.status_code r) ++ " "%byte :: Response.reason_phrase r)
      with (show_dec (Response.status_code r) ++ B " " ++ Response.reason_phrase r).
    change (" "%byte :: show_dec (Response.status_code r) ++ B " " ++ Response.reason_phrase r)
      with (B " " ++ show_dec (Response.status_code r) ++ B " " ++ Response.reason_phrase r).
    rewrite !contains_byte_app, !Hd by done. destruct Hrl as [-> ->].
    split; (rewrite (contains_byte_forallb _ _ _ Hvc); done).
  - apply parse_u16_show. unfold is_valid_status_code, u16_MAX in *. lia.
Qed.

Lemma status_bytes_utf8 r :
  Response.valid r = true -> utf8_valid (Response.reason_phrase r) = true -> utf8_valid (status_bytes r) = true.
Proof.
  unfold Response.valid. rewrite !andb_true_iff. intros [[[Hv _] _] _] Hu. unfold status_bytes.
  apply protocol_version_chars in Hv as [_ Hv].
  change (Response.version r ++ " "%byte :: show_dec (Response.status_code r) ++ " "%byte :: Response.reason_phrase r)
    with (Response.version r ++ B " " ++ show_dec (Response.status_code r) ++ B " " ++ Response.reason_phrase r).
  rewrite !app_assoc. apply utf8_app; [|done]. apply utf8_ascii. rewrite !forallb_app, !andb_true_iff.
  split_and!; try done.
  - revert Hv. apply forallb_impl. intros b. byte_solve b.
  - apply show_dec_chars. intros b. byte_solve b.
Qed.

(** ** The head at the front of the buffer *)

(** A response between the constructors and the encoder that the peer can read. *)
Record head_receivable (limits : DecoderLimits) (r : Response.t) (hs : list (str * str)) : Prop := {
  hr_valid : Response.valid r = true;
  hr_reason : utf8_valid (Response.reason_phrase r) = true;
  hr_headers : forallb sendable hs = true;
  hr_fits : fits limits hs;
  hr_limits : limits_ok limits
}.

Definition head_bytes (r : Response.t) (hs : list (str * str)) : bytes :=
  status_bytes r ++ CRLF ++ header_lines hs ++ CRLF.

Section Head.
Context {D : Type} `{Decompressor D}.

Implicit Types d : ResponseDecoder D.
Implicit Types c : Core D.

(** Between two messages, with [buf] received and [m] the method of the
    request that waits for its response. *)
Record rs_idle (limits : DecoderLimits) (m : option str) (buf : bytes) d : Prop := {
  ridle_inv : rs_inv d;
  ridle_phase : c_phase (rs_core d) = StartLine;
  ridle_headers : c_headers (rs_core d) = [];
  ridle_body : c_decoded_body (rs_core d) = [];
  ridle_head : rs_decoded_head d = None;
  ridle_method : rs_request_method d = m;
  ridle_buf : c_buf (rs_core d) = buf;
  ridle_limits : c_limits (rs_core d) = limits
}.

(** The head is decoded, the body of kind [k] comes next. *)
Record body_next (limits : DecoderLimits) (h : ResponseHead.t) (k : BodyKind) (buf : bytes) c : Prop := {
  bn_inv : core_inv status_line_ok c;
  bn_phase : c_phase c = phase_after_head BodyCloseDelimited k;
  bn_kind : c_decoded_body_kind c = Some k;
  bn_headers : c_headers c = [];
  bn_body : c_decoded_body c = [];
  bn_fresh : fresh (c_body_decoder c);
  bn_buf : c_buf c = buf;
  bn_limits : c_limits c = limits
}.

Definition head_of (r : Response.t) (hs : list (str * str)) : ResponseHead.t :=
  ResponseHead.from_validated_parts (Response.version r) (Response.status_code r) (Response.reason_phrase r) hs.

Lemma response_head_written limits m d r hs k rest :
  rs_idle limits m (head_bytes r hs ++ rest) d -> head_receivable limits r hs ->
  determine_body_kind_response m (Some (status_bytes r)) limits (Response.status_code r) hs = Ok (k, hs) ->
  exists d', rs_decode_head d = (d', Ok true) /\ rs_inv d' /\ rs_decoded_head d' = Some (head_of r hs) /\
    body_next limits (head_of r hs) k rest (rs_core d').
Proof.
  intros [Hi Hp Hh Hb Hd Hm Hbuf Hl] [Hv Hu Hs Hf _] Hk. pose proof Hi as [Hc _].
  pose proof (status_bytes_parts r Hv) as Hparts. unfold head_bytes in Hbuf. rewrite <- !app_assoc in Hbuf.
  set (d2 := head_read (status_bytes r) hs rest d).
  assert (Hdone : response_head_done d2 =
    (put_core (entered BodyCloseDelimited k (set_headers hs (set_buf rest (rs_core d2)))) d2,
     Ok (Break (Some (head_of r hs, k))))).
  { rewrite (response_head_done_eq d2 _ _ _ _ _ eq_refl Hparts ltac:(cbn; lia)). cbv zeta.
    assert (response_kind (status_bytes r) (Response.status_code r) d2 = Ok (k, hs)) as ->; [|done].
    unfold response_kind. change (c_headers (rs_core d2)) with hs.
    change (rs_request_method d2) with (rs_request_method d).
    change (c_limits (rs_core d2)) with (c_limits (rs_core d)). by rewrite Hm, Hl. }
  rewrite <- Hl in Hf.
  destruct (head_written response_reader d (status_bytes r) hs rest _ _ Hc Hp Hh Hbuf
    (proj1 (sl_one_line _ _ _ _ _ Hparts)) (status_bytes_utf8 r Hv Hu)
    (proj2 (check_status_line_iff _) ltac:(by eauto)) Hs Hf Hdone) as [He Hi2].
  pose proof (rs_decode_head_inv d Hi) as Hinv. rewrite rs_decode_head_eq, Hd, Hp in Hinv |- *.
  assert (rs_decode_headers d = (put_core (entered BodyCloseDelimited k (set_headers hs (set_buf rest (rs_core d2)))) d2,
            Ok (Some (head_of r hs, k)))) as Hdec by exact He.
  rewrite Hdec in Hinv |- *. destruct Hinv as (Hinv & _).
  eexists. split; [done|]. split; [exact Hinv|]. split; [done|].
  split; try done; [apply Hinv | exact (inv_fresh _ _ Hi2 (or_intror eq_refl))].
Qed.

(** The body has been read: the response is handed out. *)
Lemma response_body_done limits d d1 h k body rest c :
  rs_inv d -> rs_decode_head d = (d1, Ok true) -> rs_inv d1 -> rs_decoded_head d1 = Some h ->
  c_decoded_body_kind (rs_core d1) = Some k -> k <> KTunnel ->
  rs_decode_body k (rs_core d1) = (c, Ok true) ->
  c_headers c = [] -> c_buf c = rest -> c_limits c = limits -> c_decoded_body c = default [] body ->
  body = match k with KNone => None | _ => Some (c_decoded_body c) end ->
  exists d', rs_decode d =
      (d', Ok (Some (Response.from_raw_parts (ResponseHead.version h) (ResponseHead.status_code h)
                       (ResponseHead.reason_phrase h) (ResponseHead.headers h) body))) /\
    rs_idle limits None rest d'.
Proof.
  intros Hi Hdh Hi1 Hh Hk Ht Hbody Hhs Hbuf Hl Hb ->.
  pose proof (rs_decode_inv d Hi) as Hinv. rewrite (rs_decode_eq d Hi), Hdh, Hh, Hk, Hbody in Hinv |- *.
  destruct Hinv as [Hinv _]. eexists. split; [unfold response_message; by destruct k|].
  split; try done; by destruct k.
Qed.
End Head.

(** ** What is sent *)

Definition response_auto_length (r : Response.t) : list (str * str) :=
  if should_auto_emit_content_length_for_response r
  then [(B "Content-Length", show_dec (body_len (Response.body_bytes r)))] else [].

(** The body bytes on the wire. *)
Definition written_body (r : Response.t) : bytes :=
  if response_status_has_body (Response.status_code r) && negb (Response.is_body_omitted r)
  then default [] (Response.body_bytes r) else [].

(** A response with this status to this method has no body. *)
Definition bodyless (m : option str) (r : Response.t) : bool :=
  method_is "HEAD" m || negb (status_has_body (Response.status_code r)).

Definition sent_response_kind (m : option str) (r : Response.t) : BodyKind :=
  if bodyless m r then KNone else KContentLength (blen (written_body r)).

(** The response as the peer sees it. *)
Definition sent_response (m : option str) (r : Response.t) : Response.t :=
  Response.from_raw_parts (Response.version r) (Response.status_code r) (Response.reason_phrase r)
    (Response.headers r ++ response_auto_length r)
    (if bodyless m r then None else Some (written_body r)).

Definition opens_tunnel (m : option str) (r : Response.t) : bool :=
  method_is "CONNECT" m && ((200 <=? Response.status_code r) && (Response.status_code r <? 300)).

(** What the peer needs to accept a response whose end its head tells: for a
    response without a body no body is written; any other has a length. *)
Record response_receivable (limits : DecoderLimits) (m : option str) (r : Response.t) : Prop := {
  sr_head : head_receivable limits r (Response.headers r ++ response_auto_length r);
  sr_body : blen (written_body r) <= max_body_size limits;
  (** A byte vector has no more than [usize::MAX] bytes. *)
  sr_size : body_len (Response.body r) <= usize_MAX;
  sr_tunnel : opens_tunnel m r = false;
  sr_framed :
    if bodyless m r then written_body r = []
    else has_header (B "Transfer-Encoding") r = false /\ Response.is_body_omitted r = false /\
         (has_header (B "Content-Length") r = true \/ is_some (Response.body r) = true)
}.

Lemma response_auto_length_spec r :
  response_status_has_body (Response.status_code r) = true -> Response.is_body_omitted r = false ->
  has_header (B "Transfer-Encoding") r = false ->
  has_header (B "Content-Length") r = true \/ is_some (Response.body r) = true ->
  response_auto_length r = [] /\ has_header (B "Content-Length") r = true \/
  response_auto_length r = [(B "Content-Length", show_dec (blen (written_body r)))] /\
  has_header (B "Content-Length") r = false.
Proof.
  intros Hs Ho Hte Hc. unfold response_auto_length, should_auto_emit_content_length_for_response, written_body, Response.body_bytes.
  rewrite Hs, Ho, Hte. destruct (has_header (B "Content-Length") r); [by left|]. right.
  destruct Hc as [?|Hc]; [done|]. by destruct (Response.body r).
Qed.

Lemma check_response_Ok r :
  check_response true r = Ok tt -> response_status_has_body (Response.status_code r) = true ->
  has_header (B "Transfer-Encoding") r = false -> Response.is_body_omitted r = false ->
  exists v, validate_content_length_headers (Response.headers r) = Ok v /\
            check_content_length_mismatch true v (body_len (Response.body_bytes r)) = Ok tt.
Proof.
  unfold check_response. intros H Hs Hte Ho. apply result_bind_Ok in H as ([] & _ & H).
  rewrite Hte, Ho, Hs in H. cbn [andb orb negb] in H. rewrite andb_false_r in H.
  destruct (is_1xx_or_204 _ && _); [done|]. destruct (_ && _ && _); [done|].
  destruct (_ =? 205); cbn [andb] in H;
    [destruct (match get_header _ _ with Some _ => _ | None => _ end); [done|]|];
    apply result_bind_Ok in H as (v & Hv & H); by exists v.
Qed.

(** The encoder's checks are enough for the decoder's framing. *)
Lemma sent_response_framing limits m r l :
  check_response true r = Ok tt -> response_receivable limits m r ->
  determine_body_kind_response m (Some l) limits (Response.status_code r)
    (Response.headers r ++ response_auto_length r)
  = Ok (sent_response_kind m r, Response.headers r ++ response_auto_length r).
Proof.
  intros Hc [Hhead Hb _ Ht Hf]. apply response_framing_iff. unfold sent_response_kind. fold (bodyless m r).
  unfold opens_tunnel in Ht. rewrite Ht. destruct (bodyless m r) eqn:Hbl; [done|].
  destruct Hf as (Hte & Ho & Hcl).
  assert (Hs : response_status_has_body (Response.status_code r) = true).
  { unfold bodyless in Hbl. apply orb_false_iff in Hbl as [_ Hbl]. by apply negb_false_iff in Hbl. }
  destruct (check_response_Ok r Hc Hs Hte Ho) as (v & Hv & Hm).
  unfold validate_content_length_headers in Hv. apply validate_lengths in Hv.
  assert (Hlim : blen (written_body r) <= u64_MAX).
  { destruct Hhead as [_ _ _ _ (_ & _ & _ & ? & _)]. unfold usize_MAX, u64_MAX in *. lia. }
  assert (Hw : body_len (Response.body_bytes r) = blen (written_body r)).
  { unfold written_body. by rewrite body_len_default, Hs, Ho. }
  rewrite Hw in Hm. unfold has_header in Hte. change (headers r) with (Response.headers r) in Hte.
  pose proof (response_auto_length_spec r Hs Ho ltac:(done) Hcl) as Hauto.
  assert (Hno : existsb (named (B "Transfer-Encoding")) (Response.headers r ++ response_auto_length r) = false).
  { rewrite existsb_app, Hte. by destruct Hauto as [[-> _]|[-> _]]. }
  split; [done|]. split; [|by rewrite Hno]. cbn [headers_kind]. split; [by apply te_tokens_absent|]. split; [|done].
  assert (Hlen : forall hs n, cl_values hs <> [] -> Forall (plain_length n) (cl_values hs) -> length_is n hs).
  { intros hs n H1 H2. split; [done|]. eapply Forall_impl; [|exact H2]. intros x. apply plain_length_parts. }
  destruct Hauto as [[-> Hn]|[-> Hn]].
  - rewrite app_nil_r. destruct Hv as [[Hx _]|(n & -> & _ & Hne & Hall)].
    { apply cl_values_absent in Hx. unfold has_header in Hn. change (headers r) with (Response.headers r) in Hn.
      by rewrite Hx in Hn. }
    cbn [check_content_length_mismatch andb] in Hm. destruct (n =? _) eqn:E; [|done]. apply N.eqb_eq in E as <-.
    by apply Hlen.
  - apply cl_values_absent in Hn. change (headers r) with (Response.headers r) in Hn.
    apply Hlen; rewrite cl_values_app, Hn; [done|]. apply Forall_singleton, show_dec_plain. done.
Qed.

Lemma status_line_eq r : Response.valid r = true -> status_line r = status_bytes r ++ CRLF.
Proof.
  intros Hv. unfold status_line, status_bytes. rewrite write_usize_decimal_eq.
  - change (" "%byte :: show_dec (Response.status_code r) ++ " "%byte :: Response.reason_phrase r)
      with (B " " ++ show_dec (Response.status_code r) ++ B " " ++ Response.reason_phrase r).
    by rewrite <- !app_assoc.
  - unfold Response.valid, is_valid_status_code in Hv. unfold usize_MAX. lia.
Qed.

Lemma encode_response_bytes r bs :
  encode_response r = Ok bs -> Response.valid r = true -> body_len (Response.body r) <= usize_MAX ->
  check_response true r = Ok tt /\
  bs = head_bytes r (Response.headers r ++ response_auto_length r) ++ written_body r.
Proof.
  unfold encode_response. intros H Hv Hb. apply result_bind_Ok in H as ([] & Hc & H). split; [done|].
  apply Ok_inj in H as <-. unfold head_bytes, written_body, response_auto_length.
  rewrite (status_line_eq r Hv), header_lines_app.
  destruct (should_auto_emit_content_length_for_response r).
  - unfold content_length_line. rewrite write_usize_decimal_eq by done. rewrite header_lines_cons.
    unfold line_of. cbn [fst snd header_lines flat_map]. by rewrite <- !app_assoc.
  - cbn [header_lines flat_map]. rewrite !app_nil_r. by rewrite <- !app_assoc.
Qed.

(** ** The round trips *)

Section RoundTrip.
Context {D : Type} `{Decompressor D}.

Implicit Types d : ResponseDecoder D.
Implicit Types c : Core D.

Lemma length_body_response c data rest limits h :
  body_next limits h (KContentLength (blen data)) (data ++ rest) c ->
  exists c', body_loop c = (c', Ok true) /\ c_headers c' = [] /\ c_buf c' = rest /\ c_limits c' = limits /\
             c_decoded_body c' = data.
Proof.
  intros [Hi Hp _ Hh Hb _ Hbuf Hl].
  destruct (length_body_read status_line_ok BodyCloseDelimited c data rest Hi Hp Hbuf) as (s & Hbl & Hs).
  eexists. split; [exact Hbl|]. cbn. rewrite Hb. by split_and!.
Qed.

(** One message of a connection. *)
Lemma response_step limits m d r bs rest :
  encode_response r = Ok bs -> response_receivable limits m r -> rs_idle limits m (bs ++ rest) d ->
  exists d', rs_decode d = (d', Ok (Some (sent_response m r))) /\ rs_idle limits None rest d'.
Proof.
  intros Henc Hr Hid. pose proof Hr as [Hhead Hbody Hsize _ Hf].
  destruct (encode_response_bytes r bs Henc (hr_valid _ _ _ Hhead) Hsize) as [Hc ->].
  rewrite <- app_assoc in Hid. pose proof (sent_response_framing limits m r (status_bytes r) Hc Hr) as Hk.
  destruct (response_head_written limits m d r _ _ _ Hid Hhead Hk) as (d1 & Hdh & Hi1 & Hh1 & Hnext).
  pose proof (bn_kind _ _ _ _ _ Hnext) as Hkind. unfold sent_response, sent_response_kind in *.
  assert (Hi : rs_inv d) by apply Hid.
  destruct (bodyless m r).
  - rewrite Hf in Hnext. destruct Hnext as [_ _ _ Hhs Hb _ Hbuf Hl].
    by apply (response_body_done limits d d1 _ KNone None rest (rs_core d1) Hi Hdh Hi1 Hh1 Hkind).
  - destruct (length_body_response _ _ _ _ _ Hnext) as (c & Hbl & H1 & H2 & H3 & H4).
    apply (response_body_done limits d d1 _ (KContentLength (blen (written_body r))) (Some (written_body r)) rest c
             Hi Hdh Hi1 Hh1 Hkind); try done. by rewrite H4.
Qed.

(** C7: what [encode_response] writes of a response that can be received, [decode]
    reads back when it knows the method of the request, whatever follows it in the
    buffer: the same version, status, reason and headers, the Content-Length the
    encoder added behind them, and the body, if a response of this status to this
    method has one.  A response can be received ([response_receivable]) when it is
    valid (its reason phrase may be empty, and is in UTF-8), its fields are in
    UTF-8 with no white space at the ends of their values, the number and the size
    of its header lines, with the added one, are within the decoder's limits and
    its body within [max_body_size], it is not a 2xx response to CONNECT, and its
    head tells where it ends: either it is the answer to HEAD or has the status
    1xx, 204 or 304, and the encoder writes no body, or it has no
    Transfer-Encoding header, its body is not omitted, and it has a body or a
    Content-Length header. *)
Theorem response_roundtrip limits m d r bs rest :
  encode_response r = Ok bs -> response_receivable limits m r -> rs_idle limits m (bs ++ rest) d ->
  exists d', rs_decode d = (d', Ok (Some (sent_response m r))) /\ rs_idle limits None rest d'.
Proof. apply response_step. Qed.

(** ** Bodies that are sent after the head *)

Lemma encode_response_headers_bytes r bs :
  encode_response_headers r = Ok bs -> Response.valid r = true ->
  bs = head_bytes r (Response.headers r) /\
  (has_header (B "Transfer-Encoding") r = true -> has_header (B "Content-Length") r = false).
Proof.
  unfold encode_response_headers. intros He Hv. apply result_bind_Ok in He as ([] & Hc & He). apply Ok_inj in He as <-.
  split.
  - unfold head_bytes. by rewrite (status_line_eq r Hv), <- !app_assoc.
  - intros Hte. unfold check_response in Hc. apply result_bind_Ok in Hc as ([] & _ & Hc). rewrite Hte in Hc.
    by destruct (has_header (B "Content-Length") r).
Qed.

(** A response to [m] whose head is sent first and leaves the body to come. *)
Record streamed (limits : DecoderLimits) (m : option str) (r : Response.t) : Prop := {
  st_head : head_receivable limits r (Response.headers r);
  st_body : bodyless m r = false;
  st_tunnel : opens_tunnel m r = false
}.

Lemma streamed_kind limits m r k :
  streamed limits m r -> headers_kind (Response.headers r) limits (Response.version r) k ->
  (has_header (B "Transfer-Encoding") r = true -> Response.version r = B "HTTP/1.1") ->
  determine_body_kind_response m (Some (status_bytes r)) limits (Response.status_code r) (Response.headers r)
  = Ok (k, Response.headers r).
Proof.
  intros [Hh Hb Ht] Hk Hv. apply response_framing_iff. fold (bodyless m r). unfold opens_tunnel in Ht. rewrite Hb, Ht.
  pose proof (status_line_split _ _ _ _ _ (status_bytes_parts r (hr_valid _ _ _ Hh))) as (_ & _ & _ & ->).
  split_and!; [done | exact Hk | exact Hv].
Qed.

(** The headers of a chunked message. *)
Definition chunked_headers (hs : list (str * str)) : Prop :=
  forallb coding_ok (te_tokens hs) = true /\ chunked_count (te_tokens hs) <= 1 /\ te_kind (te_tokens hs) = TeChunked.

Definition streamed_response (r : Response.t) (body : bytes) : Response.t :=
  Response.from_raw_parts (Response.version r) (Response.status_code r) (Response.reason_phrase r)
    (Response.headers r) (Some body).

(** A chunked response at the front of the buffer. *)
Lemma chunked_response_step limits m d r cs bs rest :
  encode_response_headers r = Ok bs -> streamed limits m r -> chunked_headers (Response.headers r) ->
  Response.version r = B "HTTP/1.1" -> Forall (fun x : bytes => x <> []) cs ->
  blen (concat cs) <= max_body_size limits -> 16 <= max_chunk_line_size limits ->
  rs_idle limits m (bs ++ encode_chunks cs ++ rest) d ->
  exists d', rs_decode d = (d', Ok (Some (streamed_response r (concat cs)))) /\ rs_idle limits None rest d'.
Proof.
  intros Henc Hst (Hco & Hcc & Hte) Hv Hcs Hmax Hline Hid. pose proof (st_head _ _ _ Hst) as Hhead.
  destruct (encode_response_headers_bytes r bs Henc (hr_valid _ _ _ Hhead)) as [-> Hcl].
  assert (Hhas : has_header (B "Transfer-Encoding") r = true).
  { unfold has_header. change (headers r) with (Response.headers r). destruct (existsb _ _) eqn:He; [done|].
    apply te_tokens_absent in He. by rewrite He in Hte. }
  specialize (Hcl Hhas).
  assert (Hk : headers_kind (Response.headers r) limits (Response.version r) KChunked)
    by (split_and!; [done..| by apply cl_values_absent | done]).
  pose proof (streamed_kind limits m r KChunked Hst Hk (fun _ => Hv)) as Hkind.
  destruct (response_head_written limits m d r _ _ _ Hid Hhead Hkind) as (d1 & Hdh & Hi1 & Hh1 & [Hc Hp Hk1 Hhs Hb Hfr Hbuf Hl]).
  destruct Hfr as (_ & Hfr & _).
  destruct (body_loop_chunks status_line_ok cs (rs_core d1) rest Hc Hp Hbuf Hcs) as (s & Hbl & Hbs & _);
    [rewrite Hfr, Hl; lia | by rewrite Hl|].
  apply (response_body_done limits d d1 _ KChunked (Some (concat cs)) rest _ (ridle_inv _ _ _ _ Hid) Hdh Hi1 Hh1 Hk1
           ltac:(done) Hbl); try done; cbn; by rewrite Hb.
Qed.

(** C13: a head from [encode_response_headers] whose last and only chunked transfer
    coding is chunked and a body from [encode_chunks] for chunks none of which is
    empty (an empty one would end the body) are read back by [decode] as one
    response with the chunks joined, whatever follows them in the buffer.  The
    response is valid with its version HTTP/1.1, its fields are in UTF-8 with no
    white space at the ends of their values, its header lines and the chunks
    joined are within the decoder's limits, [max_chunk_line_size] is at least 16,
    and it is one with a body: not to HEAD, not 1xx, 204 or 304, and not 2xx to
    CONNECT. *)
Theorem chunked_response_roundtrip limits m d r cs bs rest :
  encode_response_headers r = Ok bs -> streamed limits m r -> chunked_headers (Response.headers r) ->
  Response.version r = B "HTTP/1.1" -> Forall (fun x : bytes => x <> []) cs ->
  blen (concat cs) <= max_body_size limits -> 16 <= max_chunk_line_size limits ->
  rs_idle limits m (bs ++ encode_chunks cs ++ rest) d ->
  exists d', rs_decode d = (d', Ok (Some (streamed_response r (concat cs)))) /\ rs_idle limits None rest d'.
Proof. apply chunked_response_step. Qed.

(** The body so far of a response that ends with the connection. *)
Lemma close_delimited_waits limits m d r data bs :
  encode_response_headers r = Ok bs -> streamed limits m r ->
  has_header (B "Transfer-Encoding") r = false -> has_header (B "Content-Length") r = false ->
  blen data <= max_body_size limits -> rs_idle limits m (bs ++ data) d ->
  exists d1 d2, rs_decode d = (d1, Ok None) /\
    rs_decode (mark_eof d1) = (d2, Ok (Some (streamed_response r data))) /\ rs_idle limits None [] d2.
Proof.
  intros Henc Hst Hte Hcl Hmax Hid. pose proof (st_head _ _ _ Hst) as Hhead.
  destruct (encode_response_headers_bytes r bs Henc (hr_valid _ _ _ Hhead)) as [-> _].
  apply te_tokens_absent in Hte as Hno. apply cl_values_absent in Hcl.
  change (headers r) with (Response.headers r) in Hno, Hcl.
  assert (Hk : headers_kind (Response.headers r) limits (Response.version r) KCloseDelimited)
    by (unfold headers_kind; rewrite Hno; by split_and!).
  pose proof (streamed_kind limits m r _ Hst Hk ltac:(by rewrite Hte)) as Hkind.
  destruct (response_head_written limits m d r _ _ _ Hid Hhead Hkind)
    as (d1 & Hdh & Hi1 & Hh1 & [Hc Hp Hk1 Hhs Hb (_ & Hfr & _) Hbuf Hl]).
  assert (Hi : rs_inv d) by apply Hid.
  (* the bytes so far are taken, and more are waited for *)
  assert (Hround : exists c, rs_decode_body KCloseDelimited (rs_core d1) = (c, Ok false) /\
    core_inv status_line_ok c /\ c_phase c = BodyCloseDelimited /\ c_buf c = [] /\ c_decoded_body c = data /\
    c_decoded_body_kind c = Some KCloseDelimited /\ c_headers c = [] /\ c_limits c = limits).
  { pose proof (rs_body_inv KCloseDelimited (rs_core d1) Hc) as Hpost. cbn [rs_decode_body] in *.
    assert (Ha : absorbs (rs_core d1)) by (split; rewrite ?Hb, ?Hfr, ?Hbuf, ?Hl, ?blen_nil; lia).
    destruct (close_round_spec (rs_core d1) (inv_limits _ _ Hc) Hp) as [[Hx Hr]|[(_ & _ & Hr)|(_ & Hx & _)]]; [..|done];
      rewrite Hr in *; destruct Hpost as (Hc' & _); eexists; (split; [done|]).
    - subst data. split_and!; try done. by rewrite Hb.
    - split_and!; try done. cbn. by rewrite Hb, Hbuf. }
  destruct Hround as (c & Hround & Hc2 & Hp2 & Hb2 & Hd2 & Hk2 & Hh2 & Hl2).
  pose proof (rs_decode_inv d Hi) as Hinv. rewrite (rs_decode_eq d Hi), Hdh, Hh1, Hk1, Hround in Hinv |- *.
  destruct Hinv as [Hinv _]. set (dw := put_core c d1) in *.
  assert (He : mark_eof dw = put_core (set_phase Complete c) dw) by (unfold mark_eof; change (c_phase (rs_core dw)) with (c_phase c); by rewrite Hp2).
  pose proof (mark_eof_inv dw Hinv) as Hie. rewrite He in Hie.
  assert (Hdone : rs_decode_body KCloseDelimited (rs_core (put_core (set_phase Complete c) dw)) = (set_phase Complete c, Ok true)).
  { done. }
  assert (Hdh2 : rs_decode_head (put_core (set_phase Complete c) dw) = (put_core (set_phase Complete c) dw, Ok true)).
  { rewrite rs_decode_head_eq. change (rs_decoded_head (put_core _ dw)) with (rs_decoded_head d1). by rewrite Hh1. }
  destruct (response_body_done limits _ _ (head_of r (Response.headers r)) KCloseDelimited (Some data) []
              (set_phase Complete c) Hie Hdh2 Hie Hh1 Hk2 ltac:(done) Hdone) as (d2 & Hdec & Hidle); try done.
  { cbn. by rewrite Hd2. }
  exists dw, d2. by rewrite He.
Qed.

(** A head from [encode_response_headers] with neither a Content-Length nor
    a transfer coding, and a body behind it, arrive in any pieces: [decode]
    waits for more, and after [mark_eof] hands out one response with all the
    bytes that came after the head. *)
Lemma close_delimited_roundtrip limits m d r data bs ps :
  encode_response_headers r = Ok bs -> streamed limits m r ->
  has_header (B "Transfer-Encoding") r = false -> has_header (B "Content-Length") r = false ->
  blen data <= max_body_size limits -> rs_idle limits m [] d -> ps <> [] -> concat ps = bs ++ data ->
  exists d1 d2, decode_pieces ps d = (d1, [], None) /\
    rs_decode (mark_eof d1) = (d2, Ok (Some (streamed_response r data))) /\ rs_idle limits None [] d2.
Proof.
  intros Henc Hst Hte Hcl Hmax Hid Hp Hc. destruct ps as [|p ps]; [done|]. cbn [concat] in Hc.
  assert (Hinv : sd_inv d).
  { split; [apply Hid|]. intros h k Hh. rewrite (ridle_head _ _ _ _ Hid) in Hh. done. }
  pose proof (decode_pieces_concat p ps d Hinv) as Hs. rewrite Hc in Hs.
  assert (Hid2 : rs_idle limits m (bs ++ data) (rs_feed_unchecked (bs ++ data) d)).
  { destruct Hid as [Hi ? ? ? ? ? Hb ?]. split; try done; [by apply (rs_extend_inv (bs ++ data))|].
    cbn. unfold feed_unchecked. by rewrite Hb. }
  destruct (close_delimited_waits limits m _ r data bs Henc Hst Hte Hcl Hmax Hid2) as (d1 & d2 & Hd1 & Hd2 & Hidle).
  exists d1, d2. split; [|done].
  assert (Hready : decode_ready (rs_feed_unchecked (bs ++ data) d) = (d1, [], None)).
  { assert (Hi2 : sd_inv (rs_feed_unchecked (bs ++ data) d)) by (destruct Hinv as [? ?]; split; [by apply Hid2 | done]).
    rewrite (decode_ready_eq _ Hi2). cbn [sd_decode rs_stream]. by rewrite Hd1. }
  cbn [decode_pieces sd_extend rs_stream] in Hs. rewrite Hready in Hs. cbn [and_then after] in Hs.
  rewrite app_nil_r in Hs.
  change (decode_pieces (p :: ps) d)
    with (and_then (decode_ready (rs_feed_unchecked p d)) (decode_pieces ps)).
  destruct (and_then _ _) as [[d3 ms] [e|]]; destruct Hs as [-> Hs]; [done|]. by subst d3.
Qed.

(** ** The responses of a connection *)

(** A client that has sent requests with the methods [ms] and reads the
    responses: [set_request_method] and [decode] for each, until one fails or
    is not there yet. *)
Fixpoint receive (ms : list str) d : ResponseDecoder D * list Response.t :=
  match ms with
  | [] => (d, [])
  | m :: ms' =>
      match rs_decode (set_request_method m d) with
      | (d', Ok (Some r)) => let '(d'', rs) := receive ms' d' in (d'', r :: rs)
      | (d', _) => (d', [])
      end
  end.

Lemma set_method_idle limits m0 m buf d :
  rs_idle limits m0 buf d -> rs_idle limits (Some m) buf (set_request_method m d).
Proof. intros [[Hc Hh] ? ? ? ? ? ? ?]. by split. Qed.

(** A client that tells the decoder the method of each request gets the
    responses that were encoded one after the other, in the order of its
    requests, whether or not they have a body. *)
Lemma pipelined_responses limits m0 d (xs : list (str * Response.t * bytes)) rest :
  Forall (fun '(m, r, bs) => encode_response r = Ok bs /\ response_receivable limits (Some m) r) xs ->
  xs <> [] -> rs_idle limits m0 (concat (map snd xs) ++ rest) d ->
  exists d', receive (map (fun x => fst (fst x)) xs) d
      = (d', map (fun x => sent_response (Some (fst (fst x))) (snd (fst x))) xs) /\
    rs_idle limits None rest d'.
Proof.
  intros Hf. revert m0 d. induction Hf as [|[[m r] bs] xs [He Hr] Hf IH]; [done|]. intros m0 d _ Hid.
  cbn [map concat snd fst receive] in *. rewrite <- app_assoc in Hid.
  destruct (response_step limits (Some m) _ r bs _ He Hr (set_method_idle _ _ m _ _ Hid)) as (d1 & -> & Hid1).
  destruct xs as [|x xs].
  - exists d1. by split.
  - destruct (IH None d1 ltac:(done) Hid1) as (d2 & Hrec & Hid2). exists d2. by rewrite Hrec.
Qed.

Lemma fresh_response_idle (z : D) limits buf :
  limits_ok limits -> rs_idle limits None buf (rs_feed_unchecked buf (rs_new z limits)).
Proof. intros Hl. split; try done. by apply (rs_extend_inv buf), rs_new_inv. Qed.
End RoundTrip.

(** ** Concrete responses *)

Definition example_ok : Response.t :=
  Response.from_raw_parts (B "HTTP/1.1") 200 (B "OK") [(B "Content-Type", B "text/plain")] (Some (B "hello")).

Definition example_not_modified : Response.t :=
  Response.from_raw_parts (B "HTTP/1.1") 304 (B "Not Modified") [(B "ETag", B "abc")] None.

Definition example_chunked_response : Response.t :=
  Response.from_raw_parts (B "HTTP/1.1") 200 (B "OK") [(B "Transfer-Encoding", B "gzip, chunked")] None.

Definition example_close : Response.t := Response.from_raw_parts (B "HTTP/1.0") 200 [] [] None.

Lemma head_receivable_check limits r hs :
  Response.valid r && utf8_valid (Response.reason_phrase r) && forallb sendable hs
  && (blen hs <=? max_headers_count limits)
  && forallb (fun h => blen (line_of h) <=? max_header_line_size limits) hs = true ->
  limits_ok limits -> head_receivable limits r hs.
Proof.
  rewrite !andb_true_iff, N.leb_le. intros [[[[H1 H2] H3] H4] H5] Hl. split; try done. split; [done|].
  apply forallb_Forall in H5. eapply Forall_impl; [|exact H5]. intros h. apply N.leb_le.
Qed.

Lemma example_ok_receivable m :
  m = B "GET" -> response_receivable DecoderLimits_default (Some m) example_ok.
Proof.
  intros ->. split; [apply head_receivable_check; [by vm_compute | apply limits_ok_default] | by vm_compute..|].
  vm_compute. split_and!; auto.
Defined.

Lemma example_304_receivable : response_receivable DecoderLimits_default (Some (B "GET")) example_not_modified.
Proof.
  split; [apply head_receivable_check; [by vm_compute | apply limits_ok_default] | by vm_compute..].
Defined.

Definition encoded_response (r : Response.t) : bytes :=
  match encode_response r with Ok b => b | Err _ => [] end.
Definition encoded_response_head (r : Response.t) : bytes :=
  match encode_response_headers r with Ok b => b | Err _ => [] end.

Definition fresh_response_decoder (buf : bytes) : ResponseDecoder NoCompression :=
  rs_feed_unchecked buf (rs_new NoCompression_new DecoderLimits_default).

Lemma fresh_response_decoder_idle buf : rs_idle DecoderLimits_default None buf (fresh_response_decoder buf).
Proof. apply fresh_response_idle, limits_ok_default. Defined.

Lemma response_roundtrip_witness :
  exists d', rs_decode (set_request_method (B "GET") (fresh_response_decoder (encoded_response example_ok ++ B "HTTP")))
      = (d', Ok (Some (sent_response (Some (B "GET")) example_ok)))
    /\ rs_idle DecoderLimits_default None (B "HTTP") d'.
Proof.
  apply (response_roundtrip DecoderLimits_default _ _ example_ok (encoded_response example_ok));
    [by vm_compute | by apply example_ok_receivable|].
  eapply set_method_idle, fresh_response_decoder_idle.
Defined.

Example pipelined_responses_at :
  exists d', receive [B "GET"; B "GET"; B "GET"]
      (fresh_response_decoder (encoded_response example_ok ++ encoded_response example_not_modified ++ encoded_response example_ok))
    = (d', [sent_response (Some (B "GET")) example_ok; sent_response (Some (B "GET")) example_not_modified;
            sent_response (Some (B "GET")) example_ok])
    /\ rs_idle DecoderLimits_default None [] d'.
Proof.
  apply (pipelined_responses DecoderLimits_default None _
    [(B "GET", example_ok, encoded_response example_ok);
     (B "GET", example_not_modified, encoded_response example_not_modified);
     (B "GET", example_ok, encoded_response example_ok)] []).
  - repeat constructor; try (by vm_compute); first [by apply example_ok_receivable | apply example_304_receivable].
  - done.
  - apply fresh_response_decoder_idle.
Defined.

Lemma chunked_response_roundtrip_witness :
  exists d', rs_decode (fresh_response_decoder
      (encoded_response_head example_chunked_response ++ encode_chunks [B "hello "; B "world"] ++ []))
    = (d', Ok (Some (streamed_response example_chunked_response (B "hello world"))))
    /\ rs_idle DecoderLimits_default None [] d'.
Proof.
  apply (chunked_response_roundtrip DecoderLimits_default None _ _ [B "hello "; B "world"]
    (encoded_response_head example_chunked_response));
    [by vm_compute | | by vm_compute | by vm_compute | by repeat constructor | by vm_compute | by vm_compute
    | apply fresh_response_decoder_idle].
  split; [apply head_receivable_check; [by vm_compute | apply limits_ok_default] | by vm_compute..].
Defined.

Example close_delimited_roundtrip_at :
  exists d1 d2,
    decode_pieces (map (fun b => [b]) (encoded_response_head example_close ++ B "until the end")) (fresh_response_decoder [])
      = (d1, [], None) /\
    rs_decode (mark_eof d1) = (d2, Ok (Some (streamed_response example_close (B "until the end")))) /\
    rs_idle DecoderLimits_default None [] d2.
Proof.
  apply (close_delimited_roundtrip DecoderLimits_default None _ _ (B "until the end") (encoded_response_head example_close));
    [by vm_compute | | by vm_compute | by vm_compute | by vm_compute | apply fresh_response_decoder_idle | done | by vm_compute].
  split; [apply head_receivable_check; [by vm_compute | apply limits_ok_default] | by vm_compute..].
Defined.
