(* ===== verification/Forward.v ===== *)
(** * Forwarding messages

    A message that [decode] handed out is given to the encoder: the next hop
    decodes the same message.  What a decoded request satisfies beyond
    [decoded_messages_valid]: its body has the length its head announces. *)
From S2P Require Import Prelude RustStd Errors Validate Host Target Trailer Framing Head FramingFacts Message.
From S2P Require Import Buffer BodyDecoder BodyFacts Compression DecoderCore CoreFacts CoreApi HeadFacts Stream.
From S2P Require Import RequestDecoder RequestFacts RequestTheorems Limits.
From S2P Require Import ResponseDecoder ResponseFacts ResponseTheorems.
From S2P Require Import Encoder EncoderFacts BodyRoundTrip HeadRoundTrip LengthRoundTrip RequestRoundTrip ResponseRoundTrip.

(** ** The body has the announced length *)

Section Lengths.
Context {D : Type} `{Decompressor D}.

Implicit Types c : Core D.
Implicit Types d : RequestDecoder D.

(** Of [n] bytes, those decoded and those to come. *)
Definition length_left (n : N) c : Prop :=
  match c_phase c with
  | BodyContentLength remaining => blen (c_decoded_body c) + remaining = n
  | Complete => blen (c_decoded_body c) = n
  | _ => False
  end.

Lemma length_left_step n c data s f :
  core_inv request_line_ok c -> length_left n c -> body_step (c_limits c) (body_state c) = (data, s, Ok f) ->
  length_left n (stepped data s c) /\ (f = Break true -> b_phase s = Complete).
Proof.
  intros Hi Hn Hs. pose proof Hi as [(_ & _ & _ & Hmax & _) Hb _ _ _ _].
  assert (Hend : f = Break true -> b_phase s = Complete).
  { intros ->. apply (body_step_inv _ Hmax _ _ _ _ Hb) in Hs as (_ & _ & _ & _ & _ & _ & Ht). exact Ht. }
  split; [|exact Hend]. unfold length_left, stepped in *. cs. destruct (c_phase c) eqn:Hp; try done.
  - rewrite (body_step_length _ Hmax (body_state c) _ Hb Hp) in Hs. change (b_buf (body_state c)) with (c_buf c) in Hs.
    destruct (is_empty (c_buf c)); [injection Hs as <- <- <-; cs; by rewrite Hp, app_nil_r|]. cbv zeta in Hs.
    destruct (_ =? 0) eqn:E; injection Hs as <- <- <-; cbn [with_phase b_phase]; rewrite blen_app, blen_take; lia.
  - unfold body_step, peek_body, peek_len, consume_body in Hs. cbn [body_state b_phase] in Hs. rewrite Hp in Hs. cbn in Hs.
    injection Hs as <- <- <-. cbn. rewrite app_nil_r, ?Hp. done.
Qed.

Lemma body_loop_length_left n c c' b :
  core_inv request_line_ok c -> length_left n c -> body_loop c = (c', Ok b) ->
  length_left n c' /\ (b = true -> blen (c_decoded_body c') = n).
Proof.
  intros Hi Hn. unfold body_loop.
  pose proof (loop_rule body_round (fun c1 => core_inv request_line_ok c1 /\ length_left n c1)
    (fun c' r => forall b, r = Ok b -> length_left n c' /\ (b = true -> c_phase c' = Complete))
    core_buffered (S (length (c_buf c))) c) as HL.
  destruct (loop _ _ _) as [c1 r]. intros [= -> ->].
  assert (Hc : length_left n c' /\ (b = true -> c_phase c' = Complete)).
  { apply HL; [|done|apply Nat.lt_succ_diag_r|done]. clear HL. intros c1 [Hi1 Hn1]. rewrite body_round_eq.
    destruct (body_step (c_limits c1) (body_state c1)) as [[d s] [f|e]] eqn:Hs; [|done].
    destruct (length_left_step n c1 d s f Hi1 Hn1 Hs) as [Hn2 He]. destruct f as [|b2].
    - split; [split; [by eapply stepped_inv | done]|]. by eapply body_step_shrinks in Hs; [|apply Hi1..].
    - intros b3 [= <-]. split; [done|]. intros ->. by apply He. }
  destruct Hc as [Hl He]. split; [done|]. intros Hb. unfold length_left in Hl. by rewrite (He Hb) in Hl.
Qed.

(** As long as [decode] is not mixed with the streaming calls. *)
Definition rq_lengths d : Prop :=
  match rq_decoded_head d with
  | Some _ => forall n, c_decoded_body_kind (rq_core d) = Some (KContentLength n) -> length_left n (rq_core d)
  | None => True
  end.

Definition rq_counted limits d : Prop := rq_sized limits d /\ rq_lengths d.

(** What is known of the body: there is one exactly when the headers say so,
    as long as they say. *)
Definition body_framed (limits : DecoderLimits) (m : Request.t) : Prop :=
  match Request.body m with
  | Some b => determine_body_kind (Request.headers m) limits (Request.version m) = Ok (KContentLength (blen b)) \/
              determine_body_kind (Request.headers m) limits (Request.version m) = Ok KChunked
  | None => determine_body_kind (Request.headers m) limits (Request.version m) = Ok KNone
  end.

(** A request as it comes out of the decoder. *)
Record received (limits : DecoderLimits) (m : Request.t) : Prop := {
  rc_line : exists l, request_line_parts l (Request.method m) (Request.uri m) (Request.version m);
  rc_connect : Request.method m <> B "CONNECT";
  rc_headers : forallb sendable (Request.headers m) = true;
  rc_host : check_host (Request.headers m) (Request.version m) = Ok tt;
  rc_body : body_framed limits m
}.

Lemma decode_head_lengths limits d d' b :
  rq_inv d -> rq_counted limits d -> rq_decode_head d = (d', Ok b) -> rq_lengths d'.
Proof.
  intros Hi [[_ Hs] Hl] Hd. unfold rq_lengths in *. rewrite decode_head_eq in Hd.
  destruct (rq_decoded_head d) as [h|] eqn:Hh; [injection Hd as <- _; by rewrite Hh|].
  pose proof (decode_headers_post _ (ri_core _ Hi)) as Hp. unfold headers_post in Hp.
  destruct (c_phase (rq_core d)); try done;
    destruct (rq_core_decode_headers (rq_core d)) as [c' [[[h k]|]|e]]; injection Hd as <- _;
    cbn [with_core rq_decoded_head rq_core]; rewrite ?Hh; try done.
  all: destruct Hp as (_ & _ & _ & (_ & _ & R3 & _) & [[_ Hph] _]); cs; intros n [= ->].
  all: unfold length_left; cs; rewrite R3, Hs, Hph; cbn [phase_after_head]; destruct (0 <? n) eqn:E; rewrite blen_nil; lia.
Qed.

(** One call of [decode]. *)
Lemma rq_decode_received limits d :
  rq_inv d -> rq_counted limits d ->
  match rq_decode d with
  | (d', Ok (Some m)) => rq_counted limits d' /\ received limits m
  | (d', Ok None) => rq_counted limits d'
  | (_, Err _) => True
  end.
Proof.
  intros Hi Hc. pose proof (rq_decode_sized limits d Hi (proj1 Hc)) as Hsized.
  pose proof (rq_head_sized limits d Hi (proj1 Hc)) as Hl.
  rewrite (rq_decode_eq d Hi) in *. pose proof (decode_head_inv d Hi) as Hpost. pose proof (decode_head_lengths limits d) as Hlen.
  destruct (rq_decode_head d) as [d1 [[]|e]]; [|by split; [|eapply Hlen]|done].
  destruct Hpost as (Hi1 & _ & _ & h & k & Hh & Hk). rewrite Hh, Hk in *. specialize (Hlen _ _ Hi Hc eq_refl).
  destruct (ri_head _ Hi1 h Hh) as (k' & Hk' & Hkn). assert (k' = k) as -> by congruence.
  destruct Hl as [Hlim _]. rewrite Hlim in Hkn.
  unfold rq_lengths in Hlen. rewrite Hh in Hlen. pose proof (ri_core _ Hi1) as [Hci _].
  assert (Hbody : match rq_decode_body k (rq_core d1) with
    | (c, Ok b) => forall n, k = KContentLength n -> length_left n c /\ (b = true -> blen (c_decoded_body c) = n)
    | _ => True end).
  { destruct k; try done; cbn [rq_decode_body];
      destruct (body_loop (rq_core d1)) as [c [b|e]] eqn:Hbl; try done; intros m [= <-].
    by apply (body_loop_length_left _ (rq_core d1)); [|apply Hlen|]. }
  pose proof (decode_body_inv k (rq_core d1) (ri_core _ Hi1)) as Hb.
  assert (Hnt : k <> KTunnel \/ exists c e, rq_decode_body k (rq_core d1) = (c, Err e)) by (destruct k; eauto).
  destruct (rq_decode_body k (rq_core d1)) as [c [[]|e]]; [| |done]; destruct Hnt as [Hnt|(? & ? & ?)]; try done.
  - destruct Hsized as [Hs _]. split; [by split|]. destruct Hkn as [Hli Hhs _ _ Hho Hf].
    assert (Hm : RequestHead.method h <> B "CONNECT") by (intros E; by rewrite E in Hf).
    rewrite (proj2 (beqs_neq _ _) Hm) in Hf. split; try done. unfold body_framed, message. cbn.
    destruct k as [n| | | |]; try done.
    + left. destruct (Hbody n eq_refl) as [_ Hn]. by rewrite (Hn eq_refl).
    + by right.
    + by apply request_framing_iff in Hf.
  - split; [done|]. unfold rq_lengths. cbn [with_core rq_decoded_head rq_core]. rewrite Hh.
    destruct Hb as (_ & _ & _ & Hkind & _). rewrite Hkind, Hk. intros n [= ->]. by apply Hbody.
Qed.

Lemma received_requests (z : D) limits ps d' ms e :
  limits_ok limits -> decode_pieces ps (rq_new z limits) = (d', ms, e) -> Forall (received limits) ms.
Proof.
  intros Hl Hd. pose proof (decode_pieces_good (rq_counted limits) (received limits)) as Hg.
  assert (Hx : run_good (rq_counted limits) (received limits) (decode_pieces ps (rq_new z limits))).
  { apply Hg; [done | | by apply rq_new_inv | by repeat split]. intros t. apply rq_decode_received. }
  rewrite Hd in Hx. apply Hx.
Qed.

Lemma received_by_any_feed (z : D) limits ps d' ms e :
  limits_ok limits ->
  decode_pieces ps (rq_new z limits) = (d', ms, e) \/ fed_pieces ps (rq_new z limits) = (d', ms, e) ->
  Forall (received limits) ms.
Proof.
  intros Hl [Hd|Hd]; [by eapply received_requests|].
  destruct (decode_pieces ps (rq_new z limits)) as [[d1 ms1] e1] eqn:Hw.
  pose proof (received_requests z limits ps d1 ms1 e1 Hl Hw) as Hf.
  destruct (fed_requests_cases z limits ps Hl) as [Hc|Hc]; rewrite Hd, Hw in Hc.
  - by injection Hc as _ -> _.
  - destruct Hc as [_ [more Hp]]. cbn [fst snd] in Hp. rewrite Hp in Hf. by apply Forall_app in Hf as [Hf _].
Qed.
End Lengths.

(** ** The encoder accepts it *)

Lemma validate_headers_ok hs : forallb header_ok hs = true -> validate_headers hs = Ok tt.
Proof.
  induction hs as [|[n v] hs IH]; [done|]. cbn [forallb validate_headers]. unfold header_ok at 1. cbn [fst snd].
  rewrite !andb_true_iff. intros [[-> ->] Hhs]. by apply IH.
Qed.

(** One number, in digits, in each Content-Length: not a list of them. *)
Definition single_lengths (hs : list (str * str)) : bool :=
  forallb (fun v => negb (is_empty (trim_ows v)) && forallb is_ascii_digit (trim_ows v)) (cl_values hs).

Lemma single_plain n hs :
  single_lengths hs = true -> length_is n hs -> Forall (plain_length n) (cl_values hs).
Proof.
  intros Hs [_ Hn]. apply forallb_Forall in Hs. rewrite Forall_forall in *. intros v Hv.
  specialize (Hs v Hv). apply andb_true_iff in Hs as [Hne Hd].
  assert (Hne' : trim_ows v <> []) by (intros E; by rewrite E in Hne).
  destruct (Hn v Hv) as [_ Hp]. rewrite (digits_cl_parts v Hd Hne') in Hp.
  split_and!; [done..|]. by apply Forall_inv in Hp as [_ ?].
Qed.

Lemma plain_lengths_ok n hs acc :
  Forall (plain_length n) (cl_values hs) -> acc = None \/ acc = Some n ->
  exists r, foldM content_length_step acc hs = Ok r /\ (r = None \/ r = Some n).
Proof.
  revert acc. induction hs as [|h hs IH]; intros acc Hf Ha; [by exists acc|]. cbn [foldM].
  unfold cl_values in *. cbn [List.filter] in Hf.
  assert (Hs : exists a, content_length_step acc h = Ok a /\ (a = None \/ a = Some n)).
  { unfold content_length_step. destruct (named (B "Content-Length") h); cbn [negb]; [|by exists acc].
    cbn [map] in Hf. apply Forall_inv in Hf as (Hne & Hd & Hp). rewrite Hp.
    assert (is_empty (trim_ows (snd h)) = false) as -> by (by destruct (trim_ows (snd h))).
    rewrite Hd. cbn [orb negb ok_or mbind result_bind].
    destruct Ha as [-> | ->]; [|rewrite N.eqb_refl]; exists (Some n); by auto. }
  destruct Hs as (a & -> & Ha'). apply IH; [|done].
  destruct (named (B "Content-Length") h); [by apply Forall_inv_tail in Hf | done].
Qed.

(** A target in origin form that the encoder takes for one: it looks for ://
    first, which a query may hold. *)
Definition origin_target (u : str) : bool := starts_with (B "/") u && negb (contains_sub (B "://") u).

Lemma scanned_no_bracket p e1 e2 e3 s :
  (forall b, p b = true -> ((b =b "[") || (b =b "]")) = false) -> scan_chars p e1 e2 e3 s = Ok tt ->
  existsb (fun b => (b =b "[") || (b =b "]")) s = false.
Proof.
  intros Hp. induction s as [s IH] using (induction_ltof1 _ (@length byte)); unfold ltof in IH.
  destruct s as [|b s]; [done|]. cbn [scan_chars existsb]. destruct (b =b "%") eqn:Hb.
  - destruct s as [|h [|l s]]; try done. destruct (is_ascii_hexdigit h) eqn:Hh; [|done].
    destruct (is_ascii_hexdigit l) eqn:Hl; [|done]. cbn [negb orb existsb]. intros Hs.
    rewrite (IH s ltac:(cbn; lia) Hs). apply byte_eqb_eq in Hb as ->.
    assert (Hx : forall b, is_ascii_hexdigit b = true -> ((b =b "[") || (b =b "]")) = false) by (intros x; byte_solve x).
    by rewrite (Hx h Hh), (Hx l Hl).
  - destruct (p b) eqn:Hpb; [|done]. intros Hs. by rewrite (IH s ltac:(cbn; lia) Hs), (Hp b Hpb).
Qed.

Lemma origin_form_no_bracket u :
  starts_with (B "/") u = true -> (exists form, parse_request_target_form u = Ok form) ->
  existsb (fun b => (b =b "[") || (b =b "]")) u = false.
Proof.
  intros Hs [form Hf]. unfold parse_request_target_form in Hf. rewrite Hs in Hf.
  destruct (is_empty u); [done|]. destruct (u =s B "*") eqn:Hu; [by apply beqs_eq in Hu as ->|].
  unfold validate_origin_form in Hf. rewrite Hs in Hf. cbn [negb] in Hf. destruct (contains_byte "#" u); [done|].
  unfold split_query in Hf.
  assert (Hp : forall b, is_pchar_or_slash b = true -> ((b =b "[") || (b =b "]")) = false) by (intros b; byte_solve b).
  assert (Hq : forall b, is_query_char b = true -> ((b =b "[") || (b =b "]")) = false) by (intros b; byte_solve b).
  destruct (find_byte "?" u) as [pos|] eqn:Hpos.
  - destruct (validate_path_chars (take pos u)) as [[]|] eqn:H1; [|done]. cbn [mbind result_bind] in Hf.
    destruct (validate_query_chars (drop (S pos) u)) as [[]|] eqn:H2; [|done].
    apply (scanned_no_bracket _ _ _ _ _ Hp) in H1. apply (scanned_no_bracket _ _ _ _ _ Hq) in H2.
    apply position_Some in Hpos as (b & Hb & Hm & _). apply byte_eqb_eq in Hm as ->.
    by rewrite <- (take_drop_middle u pos "?"%byte Hb), existsb_app, H1.
  - destruct (validate_path_chars u) as [[]|] eqn:H1; [|done]. by apply (scanned_no_bracket _ _ _ _ _ Hp) in H1.
Qed.

Lemma target_visible u :
  is_valid_request_target u = true -> has_non_ascii u = false -> existsb (fun b => 126 <? b2n b) u = false.
Proof.
  intros [_ Hu]%is_valid_request_target_chars Ha. unfold has_non_ascii in Ha.
  rewrite existsb_negb_forallb, negb_false_iff in Ha |- *. rewrite forallb_forall in *. intros b Hb.
  specialize (Hu b Hb). specialize (Ha b Hb). lia.
Qed.

Lemma version_for_encode v : is_valid_protocol_version v = true -> is_valid_version_for_encode v = true.
Proof.
  intros [Hne Hv]%protocol_version_chars. unfold is_valid_version_for_encode. rewrite andb_true_iff. split; [by destruct v|].
  revert Hv. apply forallb_impl. intros b. byte_solve b.
Qed.

Lemma origin_form_accepted method u :
  origin_target u = true -> method <> B "CONNECT" -> (exists form, parse_request_target_form u = Ok form) ->
  detect_request_target_form u = Ok Origin /\ validate_request_target_form method u = Ok tt.
Proof.
  intros [Hs Hn%negb_true_iff]%andb_true_iff Hm Hf. pose proof (origin_form_no_bracket u Hs Hf) as Hb.
  assert (Hd : detect_request_target_form u = Ok Origin).
  { unfold detect_request_target_form. rewrite Hn, Hs. destruct (u =s B "*") eqn:E; [by apply beqs_eq in E as ->|done]. }
  split; [done|]. unfold validate_request_target_form. rewrite Hd. cbn [mbind result_bind].
  by rewrite (proj2 (beqs_neq _ _) Hm), Hb.
Qed.

Lemma origin_not_http u : starts_with (B "/") u = true -> is_http_uri u = false.
Proof. destruct u as [|b u]; [done|]. unfold starts_with. cbn. destruct b; done. Qed.

Lemma received_checked limits m :
  received limits m -> origin_target (Request.uri m) = true ->
  validate_request_fields m = Ok tt /\ reject_http_userinfo (Request.uri m) = Ok tt /\
  reject_http_empty_host (Request.uri m) = Ok tt /\ validate_host_header m = Ok tt.
Proof.
  intros [(l & [_ Hm Hu Ha (form & Hf & _) Hv]) Hc Hh Hho _] Ho.
  destruct (origin_form_accepted (Request.method m) _ Ho Hc) as [Hd Hform]; [by eexists|].
  apply andb_true_iff in Ho as [Hslash Hno%negb_true_iff]. unfold reject_http_userinfo, reject_http_empty_host.
  rewrite (origin_not_http _ Hslash). split_and!; [|done|done|].
  - unfold validate_request_fields. rewrite Hm, Hu, (target_visible _ Hu Ha), Hform. cbn [negb mbind result_bind].
    rewrite (version_for_encode _ Hv). by apply validate_headers_ok, sendable_header_ok.
  - unfold validate_host_header. unfold check_host, invalid in Hho. destruct (Request.version m =s B "HTTP/1.1"); [|done].
    cbn [negb]. unfold get_headers. change (headers m) with (Request.headers m).
    destruct (List.filter (named (B "Host")) (Request.headers m)) as [|[n x] [|h hs]]; [done| |done]. cbn [map snd].
    destruct (negb (is_empty x) && is_err (Host_parse x)); [done|]. rewrite Hno. cbn [mbind result_bind].
    by rewrite (proj2 (beqs_neq _ _) Hc), Hd.
Qed.

(** What a body that came out of the decoder says of the headers. *)
Lemma received_length limits m :
  received limits m -> te_tokens (Request.headers m) = [] ->
  cl_values (Request.headers m) = [] /\ Request.body m = None \/
  length_is (body_len (Request.body m)) (Request.headers m) /\ is_some (Request.body m) = true.
Proof.
  intros [_ _ _ _ Hb] Hte. unfold body_framed in Hb. destruct (Request.body m) as [b|].
  - destruct Hb as [(_ & Hx & _)%request_framing_iff|((t & Ht & _) & _)%request_framing_iff]; [by right|].
    by rewrite Hte in Ht.
  - apply request_framing_iff in Hb as (_ & Hx). by left.
Qed.

Lemma received_chunked limits m :
  received limits m -> te_tokens (Request.headers m) <> [] ->
  (exists t, te_tokens (Request.headers m) = [t] /\ chunked_token t = true) /\
  cl_values (Request.headers m) = [] /\ Request.version m = B "HTTP/1.1" /\ is_some (Request.body m) = true.
Proof.
  intros [_ _ _ _ Hb] Hte. unfold body_framed in Hb. destruct (Request.body m) as [b|].
  - destruct Hb as [(? & _)%request_framing_iff|(? & ? & ?)%request_framing_iff]; by split_and!.
  - by apply request_framing_iff in Hb as (? & _).
Qed.

Lemma received_encodes limits m :
  received limits m -> has_header (B "Transfer-Encoding") m = false ->
  origin_target (Request.uri m) = true -> single_lengths (Request.headers m) = true ->
  exists bs, encode_request m = Ok bs.
Proof.
  intros Hr Hte Ho Hs. unfold encode_request. assert (check_request true m = Ok tt) as ->; [|by eexists].
  unfold check_request. destruct (received_checked limits m Hr Ho) as (-> & -> & -> & ->). rewrite Hte.
  cbn [negb andb mbind result_bind]. change (headers m) with (Request.headers m) in *.
  unfold validate_content_length_headers, check_content_length_mismatch, Request.body_bytes.
  destruct (received_length limits m Hr (te_tokens_absent (Request.headers m) Hte)) as [[Hn Hbody]|[Hn _]].
  - destruct (plain_lengths_ok 0 (Request.headers m) None) as (r & -> & Hx); [by rewrite Hn | by left|].
    rewrite Hbody. by destruct Hx as [-> | ->].
  - destruct (plain_lengths_ok _ _ None (single_plain _ _ Hs Hn) (or_introl eq_refl)) as (r & -> & Hx).
    cbn [mbind result_bind]. destruct Hx as [-> | ->]; [done|]. by rewrite N.eqb_refl.
Qed.

Lemma received_encodes_head limits m :
  received limits m -> te_tokens (Request.headers m) <> [] -> origin_target (Request.uri m) = true ->
  exists bs, encode_request_headers m = Ok bs.
Proof.
  intros Hr Hte Ho. unfold encode_request_headers.
  assert (forall b, check_request b m = Ok tt) as ->; [|by eexists]. intros b.
  unfold check_request. destruct (received_checked limits m Hr Ho) as (-> & -> & -> & ->).
  destruct (received_chunked limits m Hr Hte) as (_ & Hcl%cl_values_absent & _).
  unfold has_header. change (headers m) with (Request.headers m). rewrite Hcl, (te_tokens_present _ Hte).
  by rewrite !andb_false_r.
Qed.

(** ** The next hop *)

Lemma received_sent limits m :
  received limits m -> has_header (B "Transfer-Encoding") m = false -> auto_length m = [] /\ sent m = m.
Proof.
  intros Hr Hte.
  assert (Hx : existsb (named (B "Content-Length")) (Request.headers m) = is_some (Request.body m)).
  { destruct (received_length limits m Hr (te_tokens_absent (Request.headers m) Hte)) as [[Hn ->]|[[Hn _] ->]].
    - by apply cl_values_absent.
    - destruct (existsb _ _) eqn:E; [done|]. by apply cl_values_absent in E. }
  assert (Ha : auto_length m = []).
  { unfold auto_length, should_auto_emit_content_length_for_request, Request.body_bytes, has_header.
    change (headers m) with (Request.headers m). rewrite Hx. by destruct (Request.body m). }
  split; [done|]. unfold sent. rewrite Ha, app_nil_r, Hx. by destruct m as [? ? ? ? [b|]].
Qed.

(** What the next decoder has to admit. *)
Definition admits (limits : DecoderLimits) (m : Request.t) : Prop :=
  limits_ok limits /\ fits limits (Request.headers m) /\ body_len (Request.body m) <= max_body_size limits.

Lemma received_receivable limits limits2 m :
  received limits m -> has_header (B "Transfer-Encoding") m = false -> admits limits2 m -> receivable limits2 m.
Proof.
  intros Hr Hte (Hl & Hf & Hb). destruct (received_sent limits m Hr Hte) as [Ha _].
  destruct Hr as [(l & Hp) Hc Hh _ _]. split; try done; [|by rewrite Ha, app_nil_r].
  pose proof (rl_line _ _ _ _ Hp) as ->. exact Hp.
Qed.

Lemma received_chunked_receivable limits limits2 m cs :
  received limits m -> te_tokens (Request.headers m) <> [] -> admits limits2 m -> 16 <= max_chunk_line_size limits2 ->
  Forall (fun x : bytes => x <> []) cs -> Request.body m = Some (concat cs) -> chunked_receivable limits2 m cs.
Proof.
  intros Hr Hte (Hl & Hf & Hb) Hsize Hcs Hbody. destruct (received_chunked limits m Hr Hte) as (Ht & _ & Hv & _).
  rewrite Hbody in Hb. destruct Hr as [(l & Hp) Hc Hh _ _]. split; try done.
  pose proof (rl_line _ _ _ _ Hp) as ->. exact Hp.
Qed.

(** C10: A request that came out of the decoder, however its bytes were cut, goes
    through the encoder to the next decoder unchanged, whatever that one's
    limits are, as long as they admit it (its header lines and its body): the
    same headers, none added, and exactly the bytes that frame it, so that the
    next message starts where this one ends.  A request without a
    Transfer-Encoding header goes through [encode_request]; one with a transfer
    coding through [encode_request_headers] and [encode_chunks], the body cut into
    chunks in any way that leaves none of them empty, as long as the next
    decoder's [max_chunk_line_size] is at least 16.  The encoder takes them
    whenever the target is in origin form (as the encoder recognizes it) and, for
    a request without a transfer coding, each Content-Length is one number. *)
Theorem forwarded_request_unchanged {D : Type} `{DecompressorLaws D} (z : D) limits ps d' ms e m :
  limits_ok limits ->
  decode_pieces ps (rq_new z limits) = (d', ms, e) \/ fed_pieces ps (rq_new z limits) = (d', ms, e) -> In m ms ->
  (has_header (B "Transfer-Encoding") m = false ->
   (origin_target (Request.uri m) = true -> single_lengths (Request.headers m) = true ->
    exists bs, encode_request m = Ok bs) /\
   forall limits2 d bs rest, encode_request m = Ok bs -> admits limits2 m -> rq_idle limits2 (bs ++ rest) d ->
     exists d2, rq_decode d = (d2, Ok (Some m)) /\ rq_idle limits2 rest d2) /\
  (te_tokens (Request.headers m) <> [] ->
   (origin_target (Request.uri m) = true -> exists bs, encode_request_headers m = Ok bs) /\
   forall limits2 d bs cs rest, encode_request_headers m = Ok bs -> admits limits2 m ->
     16 <= max_chunk_line_size limits2 ->
     Forall (fun x : bytes => x <> []) cs -> Request.body m = Some (concat cs) ->
     rq_idle limits2 (bs ++ encode_chunks cs ++ rest) d ->
     exists d2, rq_decode d = (d2, Ok (Some m)) /\ rq_idle limits2 rest d2).
Proof.
  intros Hl Hd Hin. pose proof (received_by_any_feed z limits ps d' ms e Hl Hd) as Hf.
  rewrite Forall_forall in Hf. specialize (Hf m Hin). split; intros Hte; (split; [by eauto using received_encodes, received_encodes_head|]).
  - intros limits2 d bs rest He Ha Hi. destruct (received_sent limits m Hf Hte) as [_ Hs].
    destruct (request_step limits2 d m bs rest He) as (d2 & Hd2 & Hi2); [by eapply received_receivable | done|].
    exists d2. by rewrite Hs in Hd2.
  - intros limits2 d bs cs rest He Ha Hsize Hcs Hb Hi.
    destruct (chunked_request_step limits2 d m cs bs rest He) as (d2 & Hd2 & Hi2);
      [by eapply received_chunked_receivable | done|].
    exists d2. unfold sent_chunked in Hd2. rewrite <- Hb in Hd2. by destruct m.
Qed.

(** ** Responses *)

Section Responses.
Context {D : Type} `{DecompressorLaws D}.

Implicit Types d : ResponseDecoder D.

(** What the encoder needs of a response besides the framing. *)
Lemma decoded_response_sendable (z : D) limits d d' m :
  limits_ok limits -> rs_reachable z limits d -> rs_decode d = (d', Ok (Some m)) ->
  Response.valid m = true /\ utf8_valid (Response.reason_phrase m) = true /\
  forallb sendable (Response.headers m) = true /\ Response.is_body_omitted m = false.
Proof.
  intros Hl Hr. pose proof (rs_reachable_inv z limits d Hl Hr) as Hi. rewrite (rs_decode_eq d Hi).
  pose proof (rs_decode_head_inv d Hi) as Hp. destruct (rs_decode_head d) as [d1 [[]|e]]; try done.
  destruct Hp as (Hi1 & _ & _ & _ & h & k & Hh & Hk & _). rewrite Hh, Hk.
  destruct (rs_decode_body k (rs_core d1)) as [c [[]|e]]; try done. intros [= _ <-].
  by destruct (rsi_head _ Hi1 h Hh) as [(? & ? & ?) _].
Qed.

(** A response with the Content-Length that the encoder adds to a body that
    came without one: the body of the connection that was closed. *)
Definition with_length (m : Response.t) : Response.t :=
  Response.with_headers (Response.headers m ++ response_auto_length m) m.

Definition admits_response (limits : DecoderLimits) (m : Response.t) : Prop :=
  limits_ok limits /\ fits limits (Response.headers m ++ response_auto_length m) /\
  body_len (Response.body m) <= max_body_size limits.

(** The next hop's request is one that such a response answers. *)
Definition answers (meth : option str) (m : Response.t) : Prop :=
  bodyless meth m = negb (is_some (Response.body m)) /\ opens_tunnel meth m = false.

Lemma sent_with_length meth m :
  answers meth m -> Response.is_body_omitted m = false -> sent_response meth m = with_length m.
Proof.
  intros [Hb _] Ho. unfold sent_response, with_length, written_body. rewrite Hb, Ho.
  unfold Response.body_bytes. destruct m as [v s r hs [b|] o]; cbn in *; [|by rewrite Ho].
  apply orb_false_iff in Hb as [_ Hs%negb_false_iff]. cbn [Response.status_code] in Hs.
  change (response_status_has_body s) with (status_has_body s). by rewrite Hs, Ho.
Qed.

Lemma written_body_len m : blen (written_body m) <= body_len (Response.body m).
Proof.
  unfold written_body, Response.body_bytes. rewrite body_len_default. destruct (_ && _); [lia|]. rewrite blen_nil. lia.
Qed.

(** C11: A response without a Transfer-Encoding header that came out of the
    decoder, in any state that calls can reach, and that [encode_response] takes,
    goes through it to the next decoder unchanged but for the Content-Length that
    is added when the body ended with the connection: the next hop, whose limits
    admit the header lines (with the added one) and the body, and which waits for
    the answer to a request of a kind that such a response answers (one that has
    a body exactly when this has one, and opens no tunnel), gets the same status,
    reason, headers and body, and is ready for the next response where this one
    ends. *)
Theorem forwarded_response_unchanged (z : D) limits d d' m bs limits2 meth d1 rest :
  limits_ok limits -> rs_reachable z limits d -> rs_decode d = (d', Ok (Some m)) ->
  has_header (B "Transfer-Encoding") m = false -> encode_response m = Ok bs ->
  admits_response limits2 m -> answers meth m -> rs_idle limits2 meth (bs ++ rest) d1 ->
  (exists d2, rs_decode d1 = (d2, Ok (Some (with_length m))) /\ rs_idle limits2 None rest d2) /\
  (has_header (B "Content-Length") m = true \/ Response.body m = None -> with_length m = m).
Proof.
  intros Hl Hr Hd Hte He (Hl2 & Hfit & Hb) Ha Hidle.
  destruct (decoded_response_sendable z limits d d' m Hl Hr Hd) as (Hv & Hu & Hs & Ho). split.
  - destruct (response_step limits2 meth d1 m bs rest He) as (d2 & Hd2 & Hi2); [|done|].
    + pose proof (written_body_len m) as Hw. destruct Ha as [Hbl Ht]. split; try done.
      * split; try done. rewrite forallb_app, Hs. unfold response_auto_length.
        destruct (should_auto_emit_content_length_for_response m); [|done]. cbn [forallb andb].
        by rewrite length_header_sendable.
      * lia.
      * destruct Hl2 as (_ & _ & _ & ? & _). lia.
      * rewrite Hbl. destruct (Response.body m) as [b|] eqn:Hbody; cbn [is_some negb]; [by auto|].
        unfold written_body, Response.body_bytes. rewrite Hbody. by destruct (_ && _).
    + exists d2. by rewrite (sent_with_length meth m Ha Ho) in Hd2.
  - intros Hc. unfold with_length, response_auto_length, should_auto_emit_content_length_for_response, Response.body_bytes.
    destruct Hc as [-> | ->]; rewrite ?andb_false_r; [|rewrite ?andb_false_r; destruct (Response.is_body_omitted m)];
      rewrite ?andb_false_r; cbn [andb negb]; rewrite ?andb_false_r, app_nil_r; by destruct m.
Qed.
End Responses.

(** ** One after the other *)

(** C9: Requests that were encoded one after the other on a connection, each of
    which can be received as in the round trip of one request ([receivable]: no
    CONNECT, no Transfer-Encoding header, fields in UTF-8 with values that have no
    white space at their ends, within the limits), are decoded to the same requests
    in the same order, in whatever pieces the bytes arrive: with [feed] either all
    of them, or, when a piece is refused with [BufferOverflow], the first of them,
    and no piece is refused when all the bytes fit [max_buffer_size].  And a client
    that tells the decoder the method of each request gets, from a buffer that
    holds them, the responses that were encoded one after the other, in the order
    of its requests, whether or not they have a body, when each can be received as
    an answer to that method ([response_receivable]: not a 2xx to CONNECT, fields
    as above, within the limits, and with a head that tells where it ends without
    a Transfer-Encoding header). *)
Theorem pipelined_messages_roundtrip {D : Type} `{DecompressorLaws D} limits :
  limits_ok limits ->
  (forall (z : D) rs bss ps,
     Forall2 (fun r bs => encode_request r = Ok bs /\ receivable limits r) rs bss ->
     ps <> [] -> concat ps = concat bss ->
     match fed_pieces ps (rq_new z limits) with
     | (d', ms, None) => ms = map sent rs /\ rq_idle limits [] d'
     | (_, ms, Some e) => buffer_overflow e /\ ms `prefix_of` map sent rs /\ max_buffer_size limits < blen (concat bss)
     end) /\
  (forall m0 (d : ResponseDecoder D) (xs : list (str * Response.t * bytes)) rest,
     Forall (fun '(m, r, bs) => encode_response r = Ok bs /\ response_receivable limits (Some m) r) xs ->
     xs <> [] -> rs_idle limits m0 (concat (map snd xs) ++ rest) d ->
     exists d', receive (map (fun x => fst (fst x)) xs) d
         = (d', map (fun x => sent_response (Some (fst (fst x))) (snd (fst x))) xs) /\
       rs_idle limits None rest d').
Proof.
  intros Hl. split; [|intros m0 d xs rest; apply pipelined_responses]. intros z rs bss ps Hf Hp Hc.
  destruct (pipelined_requests z limits rs bss ps Hl Hf Hp Hc) as (d' & Hd & Hid).
  pose proof (fed_requests_fit z limits ps Hl) as Hfit. pose proof (fed_requests_cases z limits ps Hl) as Hcases.
  rewrite Hd in Hfit, Hcases. destruct (fed_pieces ps (rq_new z limits)) as [[d1 ms] [e|]].
  - destruct Hcases as [Hx|[(x & [= <-] & Hx) Hpre]]; [done|]. split_and!; [exact Hx | exact Hpre |].
    apply N.lt_nge. rewrite <- Hc. intros Hle. by discriminate (Hfit Hle).
  - destruct Hcases as [[= -> ->]|[(x & ? & _) _]]; [by split | done].
Qed.

(** ** Concrete runs *)

Definition forwarded : Request.t :=
  Request.from_raw_parts (B "GET") (B "/a") (B "HTTP/1.1")
    [(B "Host", B "example.com"); (B "Content-Length", B "2")] (Some (B "ok")).

Definition chunked_bytes : bytes :=
  B "POST / HTTP/1.1" ++ CRLF ++ B "Host: a" ++ CRLF ++ B "Transfer-Encoding: chunked" ++ CRLF ++ CRLF
  ++ B "5" ++ CRLF ++ B "hello" ++ CRLF ++ B "0" ++ CRLF ++ CRLF.

Definition forwarded_chunked : Request.t :=
  Request.from_raw_parts (B "POST") (B "/") (B "HTTP/1.1")
    [(B "Host", B "a"); (B "Transfer-Encoding", B "chunked")] (Some (B "hello")).

Lemma forwarded_request_unchanged_witness :
  exists d', decode_pieces [example_bytes ++ chunked_bytes] start = (d', [forwarded; forwarded_chunked], None) /\
  (exists bs, encode_request forwarded = Ok bs) /\
  (exists d2, rq_decode (fresh_decoder (ok_or_nil (encode_request forwarded) ++ B "GET")) = (d2, Ok (Some forwarded)) /\
     rq_idle DecoderLimits_default (B "GET") d2) /\
  exists d2, rq_decode (fresh_decoder (ok_or_nil (encode_request_headers forwarded_chunked)
       ++ encode_chunks [B "he"; B "llo"] ++ B "GET")) = (d2, Ok (Some forwarded_chunked)) /\
    rq_idle DecoderLimits_default (B "GET") d2.
Proof.
  assert (Hd : exists d', decode_pieces [example_bytes ++ chunked_bytes] start = (d', [forwarded; forwarded_chunked], None))
    by (eexists; vm_compute; reflexivity).
  destruct Hd as [d' Hd]. exists d'. split; [exact Hd|].
  pose proof (fun m Hm => forwarded_request_unchanged NoCompression_new DecoderLimits_default _ d' _ None m
    limits_ok_default (or_introl Hd) Hm) as Hf.
  destruct (Hf forwarded (or_introl eq_refl)) as [[He Hn] _]; [done|].
  destruct (Hf forwarded_chunked (or_intror (or_introl eq_refl))) as [_ [_ Hc]]; [by vm_compute|].
  assert (Ha : forall m, (blen (Request.headers m) <=? max_headers_count DecoderLimits_default)
    && forallb (fun h => blen (line_of h) <=? max_header_line_size DecoderLimits_default) (Request.headers m) = true ->
    body_len (Request.body m) <= max_body_size DecoderLimits_default -> admits DecoderLimits_default m)
    by (intros m Hm Hb; split_and!; [apply limits_ok_default | by apply fits_check | done]).
  split; [by apply He; vm_compute|]. split.
  - apply (Hn DecoderLimits_default _ (ok_or_nil (encode_request forwarded)));
      [by vm_compute | by apply Ha; vm_compute | apply fresh_idle, limits_ok_default].
  - apply (Hc DecoderLimits_default _ (ok_or_nil (encode_request_headers forwarded_chunked)) [B "he"; B "llo"]);
      [by vm_compute | by apply Ha; vm_compute | by vm_compute | by repeat constructor | by vm_compute
      | apply fresh_idle, limits_ok_default].
Defined.

(** A response that ended with the connection. *)
Definition closed_bytes : bytes := B "HTTP/1.0 200 OK" ++ CRLF ++ B "A: b" ++ CRLF ++ CRLF ++ B "hello".

Definition closed_decoder : ResponseDecoder NoCompression :=
  fst (rs_step RsMarkEof (fst (rs_step RsDecode (rs_feed_unchecked closed_bytes start_response)))).

Definition closed_response : Response.t :=
  Response.from_raw_parts (B "HTTP/1.0") 200 (B "OK") [(B "A", B "b")] (Some (B "hello")).

Lemma forwarded_response_unchanged_witness :
  Response.headers (with_length closed_response) = [(B "A", B "b"); (B "Content-Length", B "5")] /\
  exists d2, rs_decode (set_request_method (B "GET") (fresh_response_decoder (encoded_response closed_response ++ B "HTTP")))
      = (d2, Ok (Some (with_length closed_response))) /\
    rs_idle DecoderLimits_default None (B "HTTP") d2.
Proof.
  split; [vm_compute; reflexivity|].
  assert (Hd : exists d', rs_decode closed_decoder = (d', Ok (Some closed_response))) by (eexists; vm_compute; reflexivity).
  destruct Hd as [d' Hd].
  assert (Hr : rs_reachable NoCompression_new DecoderLimits_default closed_decoder).
  { unfold closed_decoder. exact (rs_next _ _ _ RsMarkEof (rs_next _ _ _ RsDecode (rs_fed_reachable closed_bytes))). }
  assert (He : encode_response closed_response = Ok (encoded_response closed_response)) by (vm_compute; reflexivity).
  assert (Hadm : admits_response DecoderLimits_default closed_response)
    by (split_and!; [apply limits_ok_default | by apply fits_check; vm_compute | by vm_compute]).
  assert (Hans : answers (Some (B "GET")) closed_response) by (split; vm_compute; reflexivity).
  destruct (forwarded_response_unchanged NoCompression_new DecoderLimits_default closed_decoder d' closed_response
    (encoded_response closed_response) DecoderLimits_default (Some (B "GET"))
    (set_request_method (B "GET") (fresh_response_decoder (encoded_response closed_response ++ B "HTTP"))) (B "HTTP")
    limits_ok_default Hr Hd eq_refl He Hadm Hans
    (set_method_idle _ _ _ _ _ (fresh_response_decoder_idle _))) as [Hf _].
  exact Hf.
Defined.

Lemma pipelined_messages_roundtrip_witness :
  exists d', receive [B "GET"; B "GET"]
      (fresh_response_decoder (encoded_response example_not_modified ++ encoded_response example_ok))
    = (d', [sent_response (Some (B "GET")) example_not_modified; sent_response (Some (B "GET")) example_ok])
    /\ rs_idle DecoderLimits_default None [] d'.
Proof.
  destruct (pipelined_messages_roundtrip DecoderLimits_default limits_ok_default (D := NoCompression)) as [_ Hf].
  apply (Hf None _ [(B "GET", example_not_modified, encoded_response example_not_modified);
                    (B "GET", example_ok, encoded_response example_ok)] []).
  - repeat constructor; try (by vm_compute); first [by apply example_ok_receivable | apply example_304_receivable].
  - done.
  - apply fresh_response_decoder_idle.
Defined.

(** A target in origin form whose query holds a URI: the decoder takes the
    request, the encoder takes the target for the absolute form and refuses
    it, because the Host is not the authority inside the query. *)
Definition url_in_query : bytes := B "GET /login?next=http://b.org/ HTTP/1.1" ++ CRLF ++ B "Host: a.org" ++ CRLF ++ CRLF.

Example origin_form_refused :
  exists d' m, decode_pieces [url_in_query] start = (d', [m], None) /\
    parse_request_target_form (Request.uri m) = Ok Origin /\
    encode_request m = Err (EncodeError.HostAuthorityMismatch (B "a.org") (B "b.org")).
Proof. do 2 eexists. split; [vm_compute; reflexivity|]. split; vm_compute; reflexivity. Qed.

(** A decoded chunked request is written with its body as it is: not what the
    next decoder takes for chunks. *)
Example chunked_body_written_raw :
  exists d' m bs d2 e, decode_pieces [chunked_bytes] start = (d', [m], None) /\ Request.body m = Some (B "hello") /\
    encode_request m = Ok bs /\ decode_pieces [bs ++ CRLF] start = (d2, [], Some e).
Proof.
  do 5 eexists. split; [vm_compute; reflexivity|]. split; [reflexivity|].
  split; [vm_compute; reflexivity|]. vm_compute. reflexivity.
Qed.
