(* ===== verification/RustStr.v ===== *)
(** * Strings by character

    [str::trim], [str::split_whitespace], [str::split_terminator]-like
    functions and padded numbers, as the standard library documents them.  A
    string is cut into the encodings of its characters; white space is the
    Unicode property. *)
From S2P Require Import Prelude RustStd Validate.

(** ** Characters *)

(** The encodings of the characters of a string, in order; on a string that is
    not UTF-8 (which no [str] is) the pieces still make up the string. *)
Fixpoint char_list (s : str) : list bytes :=
  match s with
  | [] => []
  | b0 :: s1 =>
      if b2n b0 <? 128 then [b0] :: char_list s1
      else if b2n b0 <? 224 then
        match s1 with
        | b1 :: s2 => [b0; b1] :: char_list s2
        | [] => [[b0]]
        end
      else if b2n b0 <? 240 then
        match s1 with
        | b1 :: b2 :: s3 => [b0; b1; b2] :: char_list s3
        | _ => [s]
        end
      else
        match s1 with
        | b1 :: b2 :: b3 :: s4 => [b0; b1; b2; b3] :: char_list s4
        | _ => [s]
        end
  end.

(** [c.is_whitespace()] for the character with the encoding [c]. *)
Definition white (c : bytes) : bool := existsb is_whitespace (chars c).

(** The encodings from the end of the string backwards, as [chars().rev()] gives
    them: continuation bytes are collected in [acc] up to the byte before them
    that is none.  The argument is the string in reverse. *)
Fixpoint rchar_list (acc r : bytes) : list bytes :=
  match r with
  | [] => if is_empty acc then [] else [acc]
  | b :: r' => if is_cont b then rchar_list (b :: acc) r' else (b :: acc) :: rchar_list [] r'
  end.

(** [s.trim_start()], [s.trim_end()] and [s.trim()]. *)
Definition trim_start (s : str) : str := concat (skip_while white (char_list s)).
Definition trim_end (s : str) : str := concat (rev (skip_while white (rchar_list [] (rev s)))).
Definition trim (s : str) : str := trim_end (trim_start s).

(** [s.split_whitespace()]: the pieces between white space, empty ones left out. *)
Fixpoint words_from (cs : list bytes) (word : str) : list str :=
  let flush := if is_empty word then [] else [word] in
  match cs with
  | [] => flush
  | c :: cs' => if white c then flush ++ words_from cs' [] else words_from cs' (word ++ c)
  end.
Definition split_whitespace (s : str) : list str := words_from (char_list s) [].

(** [c.to_ascii_uppercase()] on strings. *)
Definition to_ascii_uppercase_byte (b : byte) : byte :=
  if is_ascii_lowercase b then n2b (b2n b - 32) else b.
Definition to_ascii_uppercase (s : bytes) : bytes := map to_ascii_uppercase_byte s.

(** [s.strip_suffix(p)] and [s.ends_with(p)]. *)
Definition strip_suffix (p s : bytes) : option bytes :=
  r ← strip_prefix (rev p) (rev s); Some (rev r).
Definition ends_with (p s : bytes) : bool := match strip_suffix p s with Some _ => true | None => false end.

(** ** Numbers *)

Definition u8_MAX : N := 255.
Definition u32_MAX : N := 4294967295.
Definition parse_u8 (s : str) : option N := from_str_radix 10 u8_MAX s.
Definition parse_u32 (s : str) : option N := from_str_radix 10 u32_MAX s.

(** [ParseIntError]: why [uN::from_str_radix] failed; the first offending
    character decides. *)
Inductive IntErrorKind : Type := IntEmpty | InvalidDigit | PosOverflow.

Fixpoint digits_error (radix max acc : N) (s : str) : option IntErrorKind :=
  match s with
  | [] => None
  | b :: s' =>
      match digit_value radix b with
      | None => Some InvalidDigit
      | Some d =>
          let acc' := acc * radix + d in
          if acc' <=? max then digits_error radix max acc' s' else Some PosOverflow
      end
  end.

Definition int_error (radix max : N) (s : str) : option IntErrorKind :=
  match s with
  | [] => Some IntEmpty
  | b :: s' =>
      if b =b "+" then match s' with [] => Some InvalidDigit | _ => digits_error radix max 0 s' end
      else digits_error radix max 0 s
  end.

(** [impl Display for ParseIntError]. *)
Definition show_int_error (k : IntErrorKind) : str :=
  match k with
  | IntEmpty => B "cannot parse integer from empty string"
  | InvalidDigit => B "invalid digit found in string"
  | PosOverflow => B "number too large to fit in target type"
  end.

(** [format!("{:0w}", n)]. *)
Definition show_pad (w : nat) (n : N) : str :=
  replicate (w - length (show_dec n)) "0"%byte ++ show_dec n.

(** ** Lemmas *)

Definition byte_white (b : byte) : bool := within 9 13 b || (b =b " ").

Lemma white_byte b : is_ascii b = true -> white [b] = byte_white b.
Proof. byte_solve b. Qed.

Lemma concat_char_list s : concat (char_list s) = s.
Proof.
  induction s as [s IH] using (induction_ltof1 _ (@length byte)); unfold ltof in IH.
  destruct s as [|b0 s]; [done|]. cbn [char_list].
  destruct (b2n b0 <? 128); [cbn [concat app]; by rewrite IH by (cbn; lia)|].
  destruct (b2n b0 <? 224); [destruct s as [|b1 s]; [done|]; cbn [concat app]; by rewrite IH by (cbn; lia)|].
  destruct (b2n b0 <? 240).
  - destruct s as [|b1 [|b2 s]]; [done..|]. cbn [concat app]. by rewrite IH by (cbn; lia).
  - destruct s as [|b1 [|b2 [|b3 s]]]; [done..|]. cbn [concat app]. by rewrite IH by (cbn; lia).
Qed.

Lemma char_list_ascii_app a s : forallb is_ascii a = true -> char_list (a ++ s) = map (fun b => [b]) a ++ char_list s.
Proof.
  induction a as [|b a IH]; [done|]. cbn [forallb app char_list map]. intros [Hb Ha]%andb_true_iff.
  unfold is_ascii in Hb. by rewrite Hb, IH.
Qed.

Lemma char_list_ascii s : forallb is_ascii s = true -> char_list s = map (fun b => [b]) s.
Proof. intros Hs. rewrite <- (app_nil_r s) at 1. by rewrite char_list_ascii_app, app_nil_r. Qed.

(** The characters of a valid string end where it ends. *)
Lemma char_list_app a s : utf8_valid a = true -> char_list (a ++ s) = char_list a ++ char_list s.
Proof.
  intros H%utf8_valid_None. revert H. generalize 0.
  induction a as [a IH] using (induction_ltof1 _ (@length byte)); unfold ltof in IH.
  intros i. destruct a as [|b0 a]; [done|]. cbn [run_utf8_validation app char_list].
  unfold is_ascii, within.
  destruct (b2n b0 <? 128) eqn:E; [intros H; cbn [app]; by rewrite (IH a ltac:(simpl; lia) _ H)|].
  destruct ((194 <=? b2n b0) && (b2n b0 <=? 223)) eqn:E2.
  { replace (b2n b0 <? 224) with true by lia. destruct a as [|b1 a]; [done|]. destruct (is_cont b1); [|done].
    intros H. cbn [app]. by rewrite (IH a ltac:(simpl; lia) _ H). }
  destruct ((224 <=? b2n b0) && (b2n b0 <=? 239)) eqn:E3.
  { replace (b2n b0 <? 224) with false by lia. replace (b2n b0 <? 240) with true by lia.
    destruct a as [|b1 a]; [done|]. destruct (utf8_second3 b0 b1); [|done]. destruct a as [|b2 a]; [done|].
    destruct (is_cont b2); [|done]. intros H. cbn [app]. by rewrite (IH a ltac:(simpl; lia) _ H). }
  destruct ((240 <=? b2n b0) && (b2n b0 <=? 244)) eqn:E4; [|done].
  replace (b2n b0 <? 224) with false by lia. replace (b2n b0 <? 240) with false by lia.
  destruct a as [|b1 a]; [done|]. destruct (utf8_second4 b0 b1); [|done]. destruct a as [|b2 a]; [done|].
  destruct (is_cont b2); [|done]. destruct a as [|b3 a]; [done|]. destruct (is_cont b3); [|done].
  intros H. cbn [app]. by rewrite (IH a ltac:(simpl; lia) _ H).
Qed.

Lemma trim_start_id b s : is_ascii b = true -> byte_white b = false -> trim_start (b :: s) = b :: s.
Proof.
  intros Ha Hw. unfold trim_start. change (b :: s) with ([b] ++ s) at 1.
  rewrite char_list_ascii_app by (cbn; by rewrite Ha). cbn [map app skip_while].
  rewrite (white_byte b Ha), Hw. cbn [concat app]. by rewrite concat_char_list.
Qed.

Lemma concat_rchar_list acc r : concat (rev (rchar_list acc r)) = rev r ++ acc.
Proof.
  revert acc. induction r as [|b r IH]; intros acc; cbn [rchar_list].
  - destruct acc; [done|]. cbn [is_empty rev app concat]. by rewrite app_nil_r.
  - destruct (is_cont b).
    + rewrite IH. cbn [rev]. by rewrite <- app_assoc.
    + cbn [rev]. rewrite concat_app, IH. cbn [concat]. by rewrite !app_nil_r, <- app_assoc.
Qed.

Lemma trim_end_id s b : is_ascii b = true -> byte_white b = false -> trim_end (s ++ [b]) = s ++ [b].
Proof.
  intros Ha Hw. unfold trim_end. rewrite rev_app_distr. cbn [rev app rchar_list].
  assert (is_cont b = false) as -> by (revert Ha; clear; byte_solve b).
  cbn [skip_while]. rewrite (white_byte b Ha), Hw. cbn [rev]. rewrite concat_app, concat_rchar_list, rev_involutive, app_nil_r. done.
Qed.

(** A string that begins and ends with an ASCII character other than white space. *)
Definition solid_ends (s : str) : bool :=
  match s with
  | [] => true
  | b :: _ => let e := List.last s b in
      is_ascii b && negb (byte_white b) && is_ascii e && negb (byte_white e)
  end.

Lemma trim_id s : solid_ends s = true -> trim s = s.
Proof.
  intros Hs. destruct s as [|b s]; [done|]. unfold solid_ends in Hs. cbv zeta in Hs.
  rewrite !andb_true_iff, !negb_true_iff in Hs. destruct Hs as [[[Ha Hw] Ha2] Hw2].
  unfold trim. rewrite (trim_start_id b s Ha Hw). destruct (@exists_last _ (b :: s)) as (l & e & He); [done|].
  rewrite He in *. rewrite last_last in *. by apply trim_end_id.
Qed.

Definition visible (b : byte) : bool := is_ascii b && negb (byte_white b).

Lemma solid_ends_intro s b m m' e :
  s = b :: m -> s = m' ++ [e] -> visible b = true -> visible e = true -> solid_ends s = true.
Proof.
  intros Hs He Hb Hv. unfold solid_ends. rewrite Hs. rewrite <- Hs, He, last_last. cbv zeta.
  unfold visible in *. by rewrite <- (andb_assoc _ (is_ascii e)), Hb, Hv.
Qed.

(** The last character of a text that ends in a visible one. *)
Definition visible_end (s : str) : Prop := exists m e, s = m ++ [e] /\ visible e = true.
Definition visible_start (s : str) : Prop := exists b m, s = b :: m /\ visible b = true.

Lemma visible_end_app a s : visible_end s -> visible_end (a ++ s).
Proof. intros (m & e & -> & He). exists (a ++ m), e. by rewrite <- app_assoc. Qed.

Lemma visible_start_app s a : visible_start s -> visible_start (s ++ a).
Proof. intros (b & m & -> & Hb). by exists b, (m ++ a). Qed.

Lemma trim_visible s : visible_start s -> visible_end s -> trim s = s.
Proof. intros (b & m & Hs & Hb) (m' & e & He & Hv). by apply trim_id, (solid_ends_intro s b m m' e). Qed.

Lemma visible_all s : s <> [] -> forallb visible s = true -> visible_start s /\ visible_end s.
Proof.
  intros Hne Hs. split.
  - destruct s as [|b s]; [done|]. apply andb_true_iff in Hs as [Hb _]. by exists b, s.
  - destruct (exists_last Hne) as (m & e & ->). rewrite forallb_app in Hs. cbn in Hs. rewrite andb_true_r in Hs.
    apply andb_true_iff in Hs as [_ He]. by exists m, e.
Qed.

Lemma trim_start_visible s : visible_start s -> trim_start s = s.
Proof. intros (b & m & -> & Hb). unfold visible in Hb. apply andb_true_iff in Hb as [Ha Hw]. apply trim_start_id; [done | by apply negb_true_iff]. Qed.

Lemma trim_start_space c s : is_ascii c = true -> byte_white c = true -> trim_start (c :: s) = trim_start s.
Proof.
  intros Ha Hw. unfold trim_start. change (c :: s) with ([c] ++ s). rewrite char_list_ascii_app by (cbn; by rewrite Ha).
  cbn [map app skip_while]. by rewrite (white_byte c Ha), Hw.
Qed.

Lemma forallb_rev {A} (p : A -> bool) l : forallb p (rev l) = forallb p l.
Proof. induction l as [|x l IH]; [done|]. cbn [rev forallb]. rewrite forallb_app, IH. cbn. by rewrite andb_true_r, andb_comm. Qed.

(** ** Lists with commas *)

Lemma trim_space_visible s : visible_start s -> visible_end s -> trim (" "%byte :: s) = s.
Proof.
  intros Hs He. unfold trim. rewrite trim_start_space, trim_start_visible by done. rewrite <- (trim_start_visible s) at 1 by done.
  fold (trim s). by apply trim_visible.
Qed.

Lemma join_ends {A} (f : A -> str) xs :
  xs <> [] -> (forall x, In x xs -> visible_start (f x) /\ visible_end (f x)) ->
  visible_start (join (B ", ") (map f xs)) /\ visible_end (join (B ", ") (map f xs)).
Proof.
  intros Hne Hf. split.
  - destruct xs as [|x xs]; [done|]. destruct (Hf x ltac:(by left)) as [Hs _]. destruct xs as [|y ys]; [exact Hs|].
    cbn [map]. rewrite join_cons by done. by apply visible_start_app.
  - induction xs as [|x xs IH]; [done|]. destruct xs as [|y ys]; [apply (Hf x); by left|].
    cbn [map]. rewrite join_cons by done. do 2 apply visible_end_app. apply IH; [done|]. intros z Hz. apply Hf. by right.
Qed.

(** ** Case *)

Lemma lower_byte_idem b : to_ascii_lowercase_byte (to_ascii_lowercase_byte b) = to_ascii_lowercase_byte b.
Proof. byte_solve b. Qed.

Lemma lower_idem s : to_ascii_lowercase (to_ascii_lowercase s) = to_ascii_lowercase s.
Proof. unfold to_ascii_lowercase. rewrite map_map. apply map_ext, lower_byte_idem. Qed.

(** ** Words *)

Definition solid (s : str) : bool := negb (is_empty s) && forallb (fun b => is_ascii b && negb (byte_white b)) s.

Lemma words_solid w cs acc :
  forallb (fun b => is_ascii b && negb (byte_white b)) w = true ->
  words_from (map (fun b => [b]) w ++ cs) acc = words_from cs (acc ++ w).
Proof.
  revert acc. induction w as [|b w IH]; intros acc; [by rewrite app_nil_r|]. cbn [forallb map app words_from].
  rewrite !andb_true_iff, negb_true_iff. intros [[Ha Hb] Hw]. rewrite (white_byte b Ha), Hb, (IH _ Hw).
  by rewrite <- app_assoc.
Qed.

Lemma solid_ascii w : solid w = true -> w <> [] /\ forallb is_ascii w = true /\
  forallb (fun b => is_ascii b && negb (byte_white b)) w = true.
Proof.
  unfold solid. rewrite andb_true_iff, negb_true_iff. intros [He Hw]. split_and!; [by destruct w| |done].
  revert Hw. apply forallb_impl. intros b [? _]%andb_true_iff. done.
Qed.

Lemma split_whitespace_cons w s :
  solid w = true -> split_whitespace (w ++ B " " ++ s) = w :: split_whitespace s.
Proof.
  intros (Hne & Ha & Hw)%solid_ascii. unfold split_whitespace. rewrite char_list_ascii_app, words_solid by done.
  change (B " " ++ s) with ([" "%byte] ++ s). rewrite char_list_ascii_app by done. cbn [map app words_from].
  change (white [" "%byte]) with true. by destruct w.
Qed.

Lemma split_whitespace_one w : solid w = true -> split_whitespace w = [w].
Proof.
  intros (Hne & Ha & Hw)%solid_ascii. unfold split_whitespace.
  rewrite <- (app_nil_r w) at 1. rewrite char_list_ascii_app, words_solid by done. cbn. by destruct w.
Qed.

(** ** Numbers of any size *)

(** The number that a text of digits stands for. *)
Definition decimal_from (n : N) (s : str) : N := fold_left (fun n b => n * 10 + (b2n b - 48)) s n.
Definition decimal : str -> N := decimal_from 0.

Lemma digit_value_iff b d : digit_value 10 b = Some d <-> is_ascii_digit b = true /\ d = b2n b - 48.
Proof.
  assert (Hb : (fun b => match digit_value 10 b with Some d => is_ascii_digit b && (d =? b2n b - 48) | None => negb (is_ascii_digit b) end) b = true)
    by (revert b; apply byte_forall; vm_compute; reflexivity).
  cbn beta in Hb. destruct (digit_value 10 b) as [d'|].
  - apply andb_true_iff in Hb as [-> Hd]. apply N.eqb_eq in Hd as ->. split; [by intros [= <-] | by intros [_ ->]].
  - apply negb_true_iff in Hb. rewrite Hb. split; [done | by intros [? _]].
Qed.

Lemma decimal_from_le n s : n <= decimal_from n s.
Proof.
  revert n. induction s as [|b s IH]; intros n; cbn; [done|]. etransitivity; [|apply IH]. lia.
Qed.

Lemma parse_digits_iff max acc s n :
  acc <= max -> parse_digits 10 max acc s = Some n <-> forallb is_ascii_digit s = true /\ n = decimal_from acc s /\ n <= max.
Proof.
  revert acc. induction s as [|b s IH]; intros acc Ha; cbn [parse_digits forallb].
  - unfold decimal_from. cbn. split; [by intros [= <-] | by intros (_ & -> & _)].
  - destruct (digit_value 10 b) as [d|] eqn:Hd; cbn [mbind option_bind].
    + apply digit_value_iff in Hd as [-> ->]. cbn [andb]. cbv zeta. unfold decimal_from. cbn [fold_left]. fold (decimal_from (acc * 10 + (b2n b - 48)) s).
      destruct (acc * 10 + (b2n b - 48) <=? max) eqn:E; [apply IH; lia|]. split; [done|]. intros (_ & -> & Hn).
      pose proof (decimal_from_le (acc * 10 + (b2n b - 48)) s). lia.
    + split; [done|]. intros [[Hb _]%andb_true_iff _]. assert (Hx : digit_value 10 b = Some (b2n b - 48)) by (by apply digit_value_iff). congruence.
Qed.

(** A text of digits is read as its number, when that is in range. *)
Lemma digits_read max s n :
  s <> [] -> forallb is_ascii_digit s = true -> from_str_radix 10 max s = Some n <-> n = decimal s /\ n <= max.
Proof.
  intros Hne Hs. rewrite from_str_radix_digits, parse_digits_iff by (done || lia). unfold decimal. naive_solver.
Qed.

(** What is read as a number: digits, and a plus sign before them. *)
Lemma number_read max s n :
  from_str_radix 10 max s = Some n <->
  exists ds, (s = ds \/ s = B "+" ++ ds) /\ ds <> [] /\ forallb is_ascii_digit ds = true /\ n = decimal ds /\ n <= max.
Proof.
  split.
  - intros H. assert (Hd : exists ds, (s = ds \/ s = B "+" ++ ds) /\ ds <> [] /\ parse_digits 10 max 0 ds = Some n).
    { unfold from_str_radix in H. destruct s as [|b s]; [done|]. destruct (b =b "+") eqn:E.
      - apply byte_eqb_eq in E as ->. exists s. destruct s as [|c s]; [done|]. by split_and!; [right| |].
      - exists (b :: s). by split_and!; [left| |]. }
    destruct Hd as (ds & Hs & Hne & Hp). apply parse_digits_iff in Hp as (? & ? & ?); [|lia]. by exists ds.
  - intros (ds & Hs & Hne & Hd & Hn). assert (Hp : parse_digits 10 max 0 ds = Some n) by (apply parse_digits_iff; [lia | done]).
    destruct Hs as [-> | ->]; [by rewrite from_str_radix_digits|]. cbn [app B]. by destruct ds.
Qed.

(** ** Padded numbers *)

Lemma parse_digits_zeros max z s : parse_digits 10 max 0 (replicate z "0"%byte ++ s) = parse_digits 10 max 0 s.
Proof.
  induction z as [|z IH]; [done|]. cbn [replicate app parse_digits].
  change (digit_value 10 "0") with (Some 0). cbn [mbind option_bind]. by rewrite (proj2 (N.leb_le (0 * 10 + 0) max)) by lia.
Qed.

Lemma show_pad_digits w n : forallb is_ascii_digit (show_pad w n) = true.
Proof. unfold show_pad. rewrite forallb_app, show_dec_digits, andb_true_r. by induction (w - _)%nat. Qed.

Lemma show_pad_no c w n : is_ascii_digit c = false -> contains_byte c (show_pad w n) = false.
Proof. intros Hc. by apply (contains_byte_forallb c _ is_ascii_digit); [apply show_pad_digits|]. Qed.

Lemma show_pad_not_nil w n : show_pad w n <> [].
Proof. unfold show_pad. pose proof (show_dec_not_nil n). by destruct (replicate _ _). Qed.

Lemma parse_show_pad max w n : n <= max -> from_str_radix 10 max (show_pad w n) = Some n.
Proof.
  intros Hn. rewrite from_str_radix_digits by (apply show_pad_not_nil || apply show_pad_digits).
  unfold show_pad. rewrite parse_digits_zeros. by apply parse_digits_show.
Qed.

Lemma show_pad_solid w n : solid (show_pad w n) = true.
Proof.
  unfold solid. pose proof (show_pad_not_nil w n). pose proof (show_pad_digits w n) as Hd.
  destruct (show_pad w n); [done|]. revert Hd. apply forallb_impl. intros c. byte_solve c.
Qed.

Lemma solid_app a b : solid a = true -> solid b = true -> solid (a ++ b) = true.
Proof.
  unfold solid. rewrite !andb_true_iff, forallb_app. intros [H1 H2] [_ H3]. split; [by destruct a|]. by rewrite H2, H3.
Qed.

(** ** Tokens *)

Lemma token_ends s : is_valid_token s = true -> visible_start s /\ visible_end s.
Proof. intros [Hne Hf]%is_valid_token_iff. apply visible_all; [done|]. revert Hf. apply forallb_impl. intros b. byte_solve b. Qed.

Lemma trim_token s : is_valid_token s = true -> trim s = s.
Proof. intros Hs. destruct (token_ends s Hs). by apply trim_visible. Qed.

Lemma token_no s c : is_valid_token s = true -> is_token_char c = false -> contains_byte c s = false.
Proof. intros [_ Hf]%is_valid_token_iff Hc. by apply token_contains. Qed.


(** ** Trimming by characters

    A valid string is the concatenation of the encodings of its characters, read
    as the same ones from either end: trimming works on that list. *)

Definition one_char (c : bytes) : Prop :=
  utf8_valid c = true /\ char_list c = [c] /\
  match c with [] => False | b :: r => is_cont b = false /\ forallb is_cont r = true end.

(** Which lead byte begins which length. *)
Lemma lead_bytes b :
  (is_ascii b = true -> (b2n b <? 128) = true /\ is_cont b = false) /\
  (within 194 223 b = true -> is_ascii b = false /\ (b2n b <? 224) = true /\ is_cont b = false) /\
  (within 224 239 b = true -> within 194 223 b = false /\ is_ascii b = false /\ (b2n b <? 224) = false /\ (b2n b <? 240) = true /\ is_cont b = false) /\
  (within 240 244 b = true -> within 224 239 b = false /\ within 194 223 b = false /\ is_ascii b = false /\ (b2n b <? 224) = false /\ (b2n b <? 240) = false /\ is_cont b = false).
Proof. unfold is_ascii, is_cont, within. lia. Qed.

Lemma first_char i s :
  run_utf8_validation i s = None -> s = [] \/
  exists c s', s = c ++ s' /\ one_char c /\ run_utf8_validation i s' = None.
Proof.
  intros H. destruct s as [|b0 s]; [by left|]. right. cbn [run_utf8_validation] in H.
  destruct (lead_bytes b0) as (L1 & L2 & L3 & L4). destruct (is_ascii b0) eqn:E1.
  { exists [b0], s. split; [done|]. split; [|by eapply utf8_shift, H]. destruct L1 as [La Lc]; [done|].
    unfold one_char, utf8_valid, from_utf8. cbn [run_utf8_validation char_list]. by rewrite E1, La, Lc. }
  clear L1. destruct (within 194 223 b0) eqn:E2.
  { destruct s as [|b1 s]; [done|]. destruct (is_cont b1) eqn:C1; [|done].
    exists [b0; b1], s. split; [done|]. split; [|by eapply utf8_shift, H]. destruct L2 as (_ & La & Lc); [done|].
    unfold one_char, utf8_valid, from_utf8. cbn [run_utf8_validation char_list forallb].
    unfold is_ascii in E1. rewrite E1. unfold is_ascii. by rewrite E1, E2, C1, La, Lc. }
  clear L2. destruct (within 224 239 b0) eqn:E3.
  { destruct s as [|b1 s]; [done|]. destruct (utf8_second3 b0 b1) eqn:S1; [|done].
    destruct s as [|b2 s]; [done|]. destruct (is_cont b2) eqn:C2; [|done].
    assert (C1 : is_cont b1 = true) by (revert S1; clear; unfold utf8_second3, is_cont, within; lia).
    exists [b0; b1; b2], s. split; [done|]. split; [|by eapply utf8_shift, H]. destruct L3 as (_ & _ & La & Lb & Lc); [done|].
    unfold one_char, utf8_valid, from_utf8. cbn [run_utf8_validation char_list forallb].
    unfold is_ascii in E1. rewrite E1. unfold is_ascii. by rewrite E1, E2, E3, S1, C1, C2, La, Lb, Lc. }
  clear L3. destruct (within 240 244 b0) eqn:E4; [|done].
  destruct s as [|b1 s]; [done|]. destruct (utf8_second4 b0 b1) eqn:S1; [|done].
  destruct s as [|b2 s]; [done|]. destruct (is_cont b2) eqn:C2; [|done].
  destruct s as [|b3 s]; [done|]. destruct (is_cont b3) eqn:C3; [|done].
  assert (C1 : is_cont b1 = true) by (revert S1; clear; unfold utf8_second4, is_cont, within; lia).
  exists [b0; b1; b2; b3], s. split; [done|]. split; [|by eapply utf8_shift, H]. destruct L4 as (_ & _ & _ & La & Lb & Lc); [done|].
  unfold one_char, utf8_valid, from_utf8. cbn [run_utf8_validation char_list forallb].
  unfold is_ascii in E1. rewrite E1. unfold is_ascii. by rewrite E1, E2, E3, E4, S1, C1, C2, C3, La, Lb, Lc.
Qed.

Lemma one_chars s : utf8_valid s = true -> exists cs, s = concat cs /\ Forall one_char cs.
Proof.
  intros H%utf8_valid_None. revert H. induction s as [s IH] using (induction_ltof1 _ (@length byte)); unfold ltof in IH.
  intros H. destruct (first_char 0 s H) as [->|(c & s' & -> & Hc & Hs)]; [by exists []|].
  destruct (IH s') as (cs & -> & Hcs); [|done|exists (c :: cs); by split; [|constructor]].
  rewrite length_app. destruct Hc as (_ & _ & Hc). destruct c; [done | cbn; lia].
Qed.

Lemma concat_valid cs : Forall one_char cs -> utf8_valid (concat cs) = true.
Proof. induction 1 as [|c cs (Hc & _) _ IH]; [done|]. by apply utf8_app. Qed.

Lemma char_list_concat cs : Forall one_char cs -> char_list (concat cs) = cs.
Proof.
  induction 1 as [|c cs (Hv & Hc & _) _ IH]; [done|]. cbn [concat]. by rewrite char_list_app, Hc, IH by done.
Qed.

Lemma rchar_list_conts acc l r : forallb is_cont l = true -> rchar_list acc (rev l ++ r) = rchar_list (l ++ acc) r.
Proof.
  revert acc r. induction l as [|b l IH]; intros acc r; [done|]. cbn [forallb rev]. intros [Hb Hl]%andb_true_iff.
  rewrite <- app_assoc, IH by done. cbn [app rchar_list]. by rewrite Hb.
Qed.

Lemma rchar_list_concat cs : Forall one_char cs -> rchar_list [] (rev (concat cs)) = rev cs.
Proof.
  induction cs as [|c cs IH] using rev_ind; [done|]. rewrite Forall_app. intros [Hcs (_ & _ & Hc)%Forall_inv].
  rewrite concat_app, !rev_app_distr. cbn [concat rev app]. rewrite app_nil_r. destruct c as [|b r]; [done|].
  destruct Hc as [Hb Hr]. cbn [rev]. rewrite <- app_assoc, rchar_list_conts by done. cbn [app rchar_list].
  by rewrite Hb, app_nil_r, IH.
Qed.

Definition trim_list {A} (p : A -> bool) (l : list A) : list A := rev (skip_while p (rev (skip_while p l))).

Lemma skip_while_Forall {A} (P : A -> Prop) p l : Forall P l -> Forall P (skip_while p l).
Proof. induction 1; cbn; [done|]. destruct (p x); [done|by constructor]. Qed.

Lemma trim_concat cs : Forall one_char cs -> trim (concat cs) = concat (trim_list white cs).
Proof.
  intros Hcs. unfold trim, trim_start, trim_end. rewrite char_list_concat by done.
  by rewrite rchar_list_concat by (by apply skip_while_Forall).
Qed.

Lemma trim_list_Forall {A} (P : A -> Prop) p l : Forall P l -> Forall P (trim_list p l).
Proof. intros H. unfold trim_list. by apply Forall_rev, skip_while_Forall, Forall_rev, skip_while_Forall. Qed.

Lemma skip_while_idem {A} (p : A -> bool) l : skip_while p (skip_while p l) = skip_while p l.
Proof. induction l as [|x l IH]; [done|]. cbn. destruct (p x) eqn:E; [done|]. cbn. by rewrite E. Qed.

(** What is left of a list without its beginning has the same beginning. *)
Lemma skip_rev_skip {A} (p : A -> bool) l : skip_while p l = l -> skip_while p (rev (skip_while p (rev l))) = rev (skip_while p (rev l)).
Proof.
  intros Hl. destruct l as [|x l]; [done|]. cbn in Hl. destruct (p x) eqn:E.
  { exfalso. pose proof (skip_while_length p l) as H. rewrite Hl in H. cbn in H. lia. }
  cbn [rev]. assert (H : forall k, exists k', skip_while p (k ++ [x]) = k' ++ [x]).
  { intros k. induction k as [|y k [k' IH]]; cbn; [rewrite E; by exists []|]. destruct (p y); [by exists k'|]. by exists (y :: k). }
  destruct (H (rev l)) as [k' ->]. rewrite rev_app_distr. cbn. by rewrite E.
Qed.

Lemma trim_list_idem {A} (p : A -> bool) l : trim_list p (trim_list p l) = trim_list p l.
Proof.
  unfold trim_list. rewrite (skip_rev_skip p (skip_while p l)) by apply skip_while_idem. by rewrite rev_involutive, skip_while_idem.
Qed.

Lemma trim_valid s : utf8_valid s = true -> utf8_valid (trim s) = true.
Proof. intros (cs & -> & Hcs)%one_chars. rewrite trim_concat by done. by apply concat_valid, trim_list_Forall. Qed.

Lemma trim_idem s : utf8_valid s = true -> trim (trim s) = trim s.
Proof.
  intros (cs & -> & Hcs)%one_chars. rewrite trim_concat by done. rewrite trim_concat by (by apply trim_list_Forall).
  by rewrite trim_list_idem.
Qed.

Lemma skip_concat_length {A} (p : list A -> bool) l : (length (concat (skip_while p l)) <= length (concat l))%nat.
Proof. induction l as [|x l IH]; [done|]. cbn. destruct (p x); cbn; rewrite ?length_app; [lia | done]. Qed.

Lemma trim_length s : (length (trim s) <= length s)%nat.
Proof.
  unfold trim, trim_end. change (trim_start s) with (concat (skip_while white (char_list s))). set (u := concat (skip_while white (char_list s))).
  assert (Hu : (length u <= length s)%nat) by (pose proof (skip_concat_length white (char_list s)) as H; rewrite concat_char_list in H; exact H).
  clearbody u. set (cs := rchar_list [] (rev u)).
  assert (Hcs : (length (concat (rev cs)) = length u)%nat) by (unfold cs; by rewrite concat_rchar_list, rev_involutive, app_nil_r).
  assert (Hrev : forall l : list bytes, (length (concat (rev l)) = length (concat l))%nat).
  { intros l. induction l as [|x l IH]; [done|]. cbn [rev concat]. rewrite concat_app, !length_app, IH. cbn. rewrite app_nil_r. lia. }
  rewrite Hrev in *. pose proof (skip_concat_length white cs). lia.
Qed.

Lemma rchar_suffix p acc r :
  skip_while p (rchar_list acc r) = rchar_list acc r \/ exists r', skip_while p (rchar_list acc r) = rchar_list [] r'.
Proof.
  revert acc. induction r as [|b r IH]; intros acc; cbn [rchar_list].
  - destruct acc; [by left|]. cbn [is_empty skip_while]. destruct (p _); [right; by exists [] | by left].
  - destruct (is_cont b); [apply IH|]. cbn [skip_while]. destruct (p _); [|by left]. right.
    destruct (IH []) as [->|[r' ->]]; by eexists.
Qed.

(** What [trim_end] leaves ends in a character that is no white space. *)
Lemma trim_end_rev s : exists r, trim_end s = rev r /\ skip_while white (rchar_list [] r) = rchar_list [] r.
Proof.
  unfold trim_end. destruct (rchar_suffix white [] (rev s)) as [E|[r E]].
  - exists (rev s). rewrite E, concat_rchar_list, app_nil_r. done.
  - exists r. split; [by rewrite E, concat_rchar_list, app_nil_r|]. rewrite <- E. apply skip_while_idem.
Qed.

Lemma trim_end_idem s : trim_end (trim_end s) = trim_end s.
Proof.
  destruct (trim_end_rev s) as (r & -> & Hr). unfold trim_end. rewrite rev_involutive, Hr.
  by rewrite concat_rchar_list, app_nil_r.
Qed.

Lemma trim_end_last s m c : trim_end s = m ++ [c] -> is_ascii c = true -> byte_white c = false.
Proof.
  destruct (trim_end_rev s) as (r & -> & Hr). intros E Hc. apply (f_equal (@rev _)) in E. rewrite rev_involutive, rev_app_distr in E.
  cbn [rev app] in E. subst r. cbn [rchar_list] in Hr. assert (is_cont c = false) as Hn by (revert Hc; clear; byte_solve c).
  rewrite Hn in Hr. cbn [skip_while] in Hr. rewrite (white_byte c Hc) in Hr. destruct (byte_white c); [|done].
  pose proof (skip_while_length white (rchar_list [] (rev m))) as H. rewrite Hr in H. cbn in H. lia.
Qed.

Lemma forallb_concat_skip p (q : bytes -> bool) cs : forallb p (concat cs) = true -> forallb p (concat (skip_while q cs)) = true.
Proof. induction cs as [|c cs IH]; [done|]. cbn [concat skip_while]. rewrite forallb_app, andb_true_iff. intros [Hc Hcs]. destruct (q c); [by apply IH|]. cbn [concat]. by rewrite forallb_app, Hc, Hcs. Qed.

Lemma forallb_trim p s : forallb p s = true -> forallb p (trim s) = true.
Proof.
  intros Hs. unfold trim, trim_end. assert (Ht : forallb p (trim_start s) = true) by (apply forallb_concat_skip; by rewrite concat_char_list).
  revert Ht. generalize (trim_start s). clear s Hs. intros s Hs.
  assert (Hrev : forall l : list bytes, forallb p (concat (rev l)) = forallb p (concat l)).
  { intros l. induction l as [|x l IH]; [done|]. cbn [rev concat]. rewrite concat_app, !forallb_app, IH. cbn. rewrite app_nil_r. apply andb_comm. }
  rewrite Hrev. apply forallb_concat_skip. rewrite <- Hrev, concat_rchar_list, rev_involutive, app_nil_r. done.
Qed.

(** A number is refused for a reason, and only then. *)
Lemma int_error_spec radix max s : from_str_radix radix max s = None <-> is_some (int_error radix max s) = true.
Proof.
  assert (Hd : forall acc s, parse_digits radix max acc s = None <-> is_some (digits_error radix max acc s) = true).
  { intros acc s0. revert acc. induction s0 as [|b s0 IH]; intros acc; cbn; [done|].
    destruct (digit_value radix b); cbn; [|done]. destruct (_ <=? max); [apply IH | done]. }
  unfold from_str_radix, int_error. destruct s as [|b s]; [done|]. destruct (b =b "+"); [|apply Hd].
  destruct s; [done | apply Hd].
Qed.
