(* ===== verification/FieldList.v ===== *)
(** * Fields that are lists

    Most field parsers of the library are one loop: split the value at a
    delimiter (outside quoted strings or not), trim each piece, leave out the
    empty ones, and parse the others.  [list_loop] is that loop.  What the
    parsers share is stated once: [Trimmer] is what a function that removes
    white space promises, [Splitter] what a function that splits does, and
    [field_read_back] turns a round trip of the items into one of the list. *)
From S2P Require Import Prelude RustStd Validate RustStr.

(** [for part in parts { let part = trim(part); if part.is_empty() { continue }
    items.push(item(part)?) }]. *)
Fixpoint list_loop {E A} (tr : str -> str) (item : str -> result E A) (parts : list str) : result E (list A) :=
  match parts with
  | [] => Ok []
  | part :: parts' =>
      let part := tr part in
      if is_empty part then list_loop tr item parts'
      else
        x ← item part;
        xs ← list_loop tr item parts';
        Ok (x :: xs)
  end.

(** The same loop where the body updates a value, [s = body(s, part)?]. *)
Fixpoint for_parts {E S} (tr : str -> str) (body : S -> str -> result E S) (parts : list str) (s : S) : result E S :=
  match parts with
  | [] => Ok s
  | part :: parts' =>
      let part := tr part in
      if is_empty part then for_parts tr body parts' s
      else s' ← body s part; for_parts tr body parts' s'
  end.

(** Texts of which every piece begins and ends with a visible character. *)
Definition text_ends (s : str) : Prop := visible_start s /\ visible_end s.

Lemma text_ends_not_empty s : text_ends s -> is_empty s = false.
Proof. by intros [(b & m & -> & _) _]. Qed.

Lemma text_ends_app a b : text_ends a -> text_ends b -> text_ends (a ++ b).
Proof. intros [Ha _] [_ Hb]. split; [by apply visible_start_app | by apply visible_end_app]. Qed.

Lemma text_ends_mid a m b : text_ends a -> text_ends b -> text_ends (a ++ m ++ b).
Proof. intros [Ha _] [_ Hb]. split; [by apply visible_start_app | do 2 apply visible_end_app; done]. Qed.

Lemma token_text_ends s : is_valid_token s = true -> text_ends s.
Proof. apply token_ends. Qed.

(** ** What trimming promises *)

Class Trimmer (tr : str -> str) : Prop := {
  trim_nil : tr [] = [];
  trim_text s : text_ends s -> tr s = s;
  trim_space_text s : text_ends s -> tr (" "%byte :: s) = s;
}.

#[export] Instance trim_Trimmer : Trimmer trim.
Proof.
  split; [done | |]; intros s [Hs He]; [by apply trim_visible | by apply trim_space_visible].
Qed.

Lemma text_ows_trimmed s : text_ends s -> ows_trimmed s = true.
Proof.
  intros [(b & m & -> & Hb) (m' & e & He & Hv)]. unfold ows_trimmed. rewrite He, last_last.
  apply andb_true_iff. split; [revert Hb; clear; byte_solve b | revert Hv; clear; byte_solve e].
Qed.

#[export] Instance trim_ows_Trimmer : Trimmer trim_ows.
Proof.
  split; [done | |]; intros s Hs%text_ows_trimmed; [by apply trim_ows_id|].
  rewrite <- (trim_ows_sandwich [" "%byte] s [] ltac:(done) ltac:(done) Hs) at 2. by rewrite app_nil_r.
Qed.

(** ** What splitting promises *)

(** The pieces of texts that were joined with a delimiter and a space. *)
Definition spaced (ts : list str) : list str :=
  match ts with [] => [[]] | t :: ts' => t :: map (fun y => " "%byte :: y) ts' end.

Definition sep (d : byte) : str := [d; " "%byte].

Class Splitter (sp : str -> list str) (d : byte) (piece : str -> Prop) : Prop :=
  split_texts ts : Forall piece ts -> sp (join (sep d) ts) = spaced ts.

Definition without (d : byte) (t : str) : Prop := contains_byte d t = false.

#[export] Instance split_Splitter d : (" "%byte =b d) = false -> Splitter (split d) d (without d).
Proof.
  intros Hd ts Hf. destruct ts as [|x xs]; [done|]. revert x Hf. unfold without.
  induction xs as [|y ys IH]; intros x [Hx Hf]%Forall_cons_iff; [by apply split_no_sep|].
  rewrite join_cons by done. unfold sep at 1. cbn [app]. rewrite split_app by done.
  cbn [spaced map]. f_equal. cbn [split]. by rewrite Hd, (IH y Hf).
Qed.

Lemma split_join xs :
  Forall (fun x => contains_byte "," x = false) xs -> split "," (join (B ", ") xs) = spaced xs.
Proof. change (B ", ") with (sep ","). by apply (split_texts (Splitter := split_Splitter "," ltac:(done))). Qed.

(** A text whose quotes are closed and that has no delimiter outside of them. *)
Definition closed (d : byte) (t : str) : Prop :=
  forall rest part, split_quotes_loop (t ++ rest) d part false false = split_quotes_loop rest d (part ++ t) false false.

Lemma closed_app d a b : closed d a -> closed d b -> closed d (a ++ b).
Proof. intros Ha Hb rest part. by rewrite <- app_assoc, Ha, Hb, app_assoc. Qed.

Lemma closed_plain d t : forallb (fun b => (b <>b DQUOTE) && (b <>b d)) t = true -> closed d t.
Proof.
  intros Ht rest part. revert part. induction t as [|b t IH]; intros part; [by rewrite app_nil_r|].
  cbn [forallb] in Ht. rewrite !andb_true_iff, !negb_true_iff in Ht. destruct Ht as [[H1 H2] Ht].
  cbn [app split_quotes_loop]. rewrite andb_false_r, H1, H2. cbn [andb]. by rewrite (IH Ht), <- app_assoc.
Qed.

Lemma quoted_part_loop d s rest part :
  split_quotes_loop (escape_quotes s ++ rest) d part true false = split_quotes_loop rest d (part ++ escape_quotes s) true false.
Proof.
  revert part. induction s as [|c s IH]; intros part; [by rewrite app_nil_r|]. unfold escape_quotes. cbn [flat_map].
  fold (escape_quotes s). rewrite <- app_assoc.
  assert (Hc : split_quotes_loop (escape_char c ++ escape_quotes s ++ rest) d part true false =
               split_quotes_loop (escape_quotes s ++ rest) d (part ++ escape_char c) true false).
  { unfold escape_char. destruct (is_quoted_pair_char c) eqn:E; cbn [negb].
    - destruct (c =b DQUOTE) eqn:E1; cbn [orb]; [apply byte_eqb_eq in E1 as ->; cbn; by rewrite <- app_assoc|].
      destruct (c =b BACKSLASH) eqn:E2; [apply byte_eqb_eq in E2 as ->; cbn; by rewrite <- app_assoc|].
      cbn [app split_quotes_loop]. by rewrite E1, E2, andb_false_r.
    - cbn [app split_quotes_loop]. change (" "%byte =b BACKSLASH) with false. change (" "%byte =b DQUOTE) with false.
      by rewrite andb_false_r. }
  by rewrite Hc, IH, <- app_assoc.
Qed.

Lemma closed_quoted d s : d <> DQUOTE -> closed d (DQUOTE :: escape_quotes s ++ [DQUOTE]).
Proof.
  intros Hd rest part. cbn [app split_quotes_loop]. rewrite andb_false_r, byte_eqb_refl. cbn [negb].
  rewrite <- app_assoc, quoted_part_loop. cbn [app split_quotes_loop].
  change (DQUOTE =b BACKSLASH) with false. rewrite byte_eqb_refl. cbn [andb negb]. by rewrite <- !app_assoc.
Qed.

Lemma closed_token d s : is_token_char d = false -> is_valid_token s = true -> closed d s.
Proof.
  intros Hd [_ Hf]%is_valid_token_iff. apply closed_plain. revert Hf. apply forallb_impl. intros b Hb.
  apply andb_true_iff. split; [revert Hb; clear; byte_solve b|]. apply negb_true_iff, byte_eqb_neq. congruence.
Qed.

#[export] Instance quotes_Splitter d :
  (" "%byte =b d) = false -> d <> DQUOTE -> Splitter (fun s => split_with_quotes s d) d (closed d).
Proof.
  intros Hd Hq ts Hf. unfold split_with_quotes. destruct ts as [|x xs]; [done|].
  assert (H : forall part, split_quotes_loop (join (sep d) (x :: xs)) d part false false =
    (part ++ x) :: map (fun y => " "%byte :: y) xs); [|by rewrite H].
  revert x Hf. induction xs as [|y ys IH]; intros x [Hx Hf]%Forall_cons_iff part.
  - cbn [join map]. rewrite <- (app_nil_r x), Hx. cbn [split_quotes_loop]. by rewrite app_nil_r.
  - rewrite join_cons by done. rewrite Hx. unfold sep at 1. cbn [app split_quotes_loop].
    assert ((d =b DQUOTE) = false) as -> by (by apply byte_eqb_neq). rewrite andb_false_r, byte_eqb_refl. cbn [andb negb].
    rewrite Hd. cbn [andb]. change (" "%byte =b DQUOTE) with false. cbv iota. by rewrite (IH y Hf).
Qed.

(** ** Lists are read back *)

Section ReadBack.
Context {E A : Type} (tr : str -> str) (item : str -> result E A) (fmt : A -> str) (sp : str -> list str)
  (d : byte) (piece : str -> Prop) `{!Trimmer tr} `{!Splitter sp d piece}.

(** An item whose text is a piece of the list and is read back. *)
Definition item_text (x : A) : Prop := text_ends (fmt x) /\ piece (fmt x) /\ item (fmt x) = Ok x.

Lemma list_loop_one x t parts : item_text x -> tr t = fmt x ->
  list_loop tr item (t :: parts) = (xs ← list_loop tr item parts; Ok (x :: xs)).
Proof.
  intros (He & _ & Hi) Ht. cbn [list_loop]. cbv zeta. by rewrite Ht, text_ends_not_empty, Hi by done.
Qed.

Lemma list_loop_spaced xs : Forall item_text xs -> list_loop tr item (spaced (map fmt xs)) = Ok xs.
Proof.
  intros Hf. destruct xs as [|x xs]; [cbn; cbv zeta; by rewrite trim_nil|]. apply Forall_cons_iff in Hf as [Hx Hf].
  cbn [map spaced]. rewrite (list_loop_one x) by (done || apply trim_text, Hx).
  assert (list_loop tr item (map (fun y => " "%byte :: y) (map fmt xs)) = Ok xs) as ->; [|done].
  induction Hf as [|y ys Hy Hf IH]; [done|]. cbn [map].
  rewrite (list_loop_one y) by (done || apply trim_space_text, Hy). by rewrite IH.
Qed.

Lemma field_read_back xs : Forall item_text xs -> list_loop tr item (sp (join (sep d) (map fmt xs))) = Ok xs.
Proof.
  intros Hf. rewrite split_texts; [by apply list_loop_spaced|]. clear -Hf.
  induction Hf as [|x xs (_ & Hx & _) Hf IH]; by constructor.
Qed.

Lemma list_text_ends xs : Forall item_text xs -> xs <> [] -> text_ends (join (sep d) (map fmt xs)).
Proof.
  induction xs as [|x xs IH]; [done|]. intros [Hx Hf]%Forall_cons_iff _. destruct xs as [|y ys]; [apply Hx|].
  cbn [map]. rewrite join_cons by done. apply text_ends_mid; [apply Hx | by apply IH].
Qed.

Lemma trim_list_text xs : Forall item_text xs -> tr (join (sep d) (map fmt xs)) = join (sep d) (map fmt xs).
Proof. intros Hf. destruct xs as [|x xs]; [apply trim_nil|]. by apply trim_text, list_text_ends. Qed.

(** Whatever holds of the items that are parsed holds of the list. *)
Lemma list_loop_ok (P : A -> Prop) parts xs :
  (forall t x, item t = Ok x -> P x) -> list_loop tr item parts = Ok xs -> Forall P xs.
Proof.
  intros Hitem. revert xs. induction parts as [|t parts IH]; intros xs; cbn [list_loop]; [by intros [= <-]|]. cbv zeta.
  destruct (is_empty (tr t)); [apply IH|]. destruct (item (tr t)) as [x|] eqn:Ex; [|done]. cbn [mbind result_bind].
  destruct (list_loop tr item parts) as [ys|]; [|done]. cbn [mbind result_bind]. intros [= <-].
  constructor; [by eapply Hitem | by apply IH].
Qed.
End ReadBack.

Arguments trim_list_text {E A} tr {item fmt} d {piece _ xs} _.
Arguments field_read_back {E A} tr {item fmt} sp d {piece _ _ xs} _.
Arguments list_text_ends {E A item fmt} d {piece xs} _ _.
Arguments list_loop_ok {E A tr item P parts xs} _ _.

#[export] Hint Extern 1 ((_ =b _) = false) => reflexivity : typeclass_instances.
#[export] Hint Extern 1 (_ <> DQUOTE) => discriminate : typeclass_instances.

(** The body over the pieces themselves. *)
Fixpoint run {E S} (body : S -> str -> result E S) (ts : list str) (s : S) : result E S :=
  match ts with [] => Ok s | t :: ts' => s' ← body s t; run body ts' s' end.

Lemma run_app {E S} (body : S -> str -> result E S) a b s : run body (a ++ b) s = (s' ← run body a s; run body b s').
Proof. revert s. induction a as [|t a IH]; intros s; [done|]. cbn. destruct (body s t); [apply IH | done]. Qed.

Lemma for_parts_run {E S} tr (body : S -> str -> result E S) ts s :
  Forall (fun t => tr (" "%byte :: t) = t /\ t <> []) ts ->
  for_parts tr body (map (fun y => " "%byte :: y) ts) s = run body ts s.
Proof.
  intros Hf. revert s. induction Hf as [|u us [Hu Hne] Hf IH]; intros s; [done|]. cbn [map for_parts run]. cbv zeta. rewrite Hu.
  destruct u as [|b u]; [done|]. cbn [is_empty]. destruct (body s _); [apply IH | done].
Qed.

Lemma for_parts_spaced {E S} tr `{!Trimmer tr} (body : S -> str -> result E S) ts s :
  Forall text_ends ts -> for_parts tr body (spaced ts) s = run body ts s.
Proof.
  intros Hf. destruct ts as [|t ts]; [cbn; cbv zeta; by rewrite trim_nil|]. apply Forall_cons_iff in Hf as [Ht Hf].
  cbn [spaced for_parts run]. cbv zeta. rewrite trim_text, text_ends_not_empty by done. destruct (body s t) as [s'|]; [|done].
  cbn [mbind result_bind]. apply for_parts_run. revert Hf. apply List.Forall_impl. intros u Hu. split; [by apply trim_space_text|].
  intros ->. by destruct Hu as [(? & ? & ? & _) _].
Qed.

Lemma texts_join_ends d ts t : text_ends t -> Forall text_ends ts -> text_ends (join (sep d) (t :: ts)).
Proof.
  intros Ht Hf. revert t Ht. induction Hf as [|u us Hu Hf IH]; intros t Ht; [done|].
  rewrite join_cons by done. apply text_ends_mid; [done | by apply IH].
Qed.

Lemma join_concat d x ts : join (sep d) (x :: ts) = x ++ concat (map (fun t => sep d ++ t) ts).
Proof.
  revert x. induction ts as [|y ts IH]; intros x; [cbn; by rewrite app_nil_r|].
  rewrite join_cons, IH by done. cbn [map concat]. by rewrite <- !app_assoc.
Qed.

(** ** Values that are tokens or quoted strings *)

Definition value_text (v : str) : str :=
  if is_empty v || existsb (fun b => negb (is_token_char b)) v
  then [DQUOTE] ++ escape_quotes v ++ [DQUOTE] else v.

Lemma value_text_cases v :
  (value_text v = v /\ is_valid_token v = true) \/ value_text v = [DQUOTE] ++ escape_quotes v ++ [DQUOTE].
Proof.
  unfold value_text. destruct (is_empty v || _) eqn:E; [by right | left]. split; [done|].
  apply orb_false_iff in E as [Ee Et]. apply is_valid_token_iff. split; [by destruct v|].
  rewrite existsb_negb_forallb, negb_false_iff in Et. revert Et. apply forallb_impl. intros b. by rewrite negb_involutive.
Qed.

Lemma quoted_text_ends m : text_ends ([DQUOTE] ++ m ++ [DQUOTE]).
Proof. apply text_ends_mid; (split; [by exists DQUOTE, [] | by exists [], DQUOTE]). Qed.

Lemma value_text_ends v : text_ends (value_text v).
Proof.
  destruct (value_text_cases v) as [[-> Hv]| ->]; [by apply token_text_ends | apply quoted_text_ends].
Qed.

Lemma value_text_closed d v : is_token_char d = false -> d <> DQUOTE -> closed d (value_text v).
Proof.
  intros Hd Hq. destruct (value_text_cases v) as [[-> Hv]| ->]; [by apply closed_token | by apply closed_quoted].
Qed.

Lemma token_quotable v : is_valid_token v = true -> forallb is_quoted_pair_char v = true.
Proof. intros [_ Hf]%is_valid_token_iff. revert Hf. apply forallb_impl. intros b. byte_solve b. Qed.

(** What the parser of quoted strings takes and gives. *)
Lemma parse_quoted_escape v rest :
  forallb is_quoted_pair_char v = true -> parse_quoted_string (escape_quotes v ++ DQUOTE :: rest) = Ok (v, rest).
Proof. intros Hv. unfold parse_quoted_string. by rewrite quoted_loop_escape, sanitize_chars. Qed.

Lemma quoted_loop_quotable input acc esc v rest :
  quoted_string_loop input acc esc = Ok (v, rest) -> forallb is_quoted_pair_char acc = true -> forallb is_quoted_pair_char v = true.
Proof.
  revert acc esc. induction input as [|c input IH]; intros acc esc; cbn [quoted_string_loop]; [done|].
  assert (Hsnoc : is_quoted_pair_char c = true -> forallb is_quoted_pair_char acc = true -> forallb is_quoted_pair_char (acc ++ [c]) = true).
  { intros Hc Ha. rewrite forallb_app, Ha. cbn. by rewrite Hc. }
  destruct esc.
  - destruct (is_quoted_pair_char c) eqn:E; [|done]. intros H Ha. eapply IH; [exact H | by apply Hsnoc].
  - destruct (c =b BACKSLASH); [apply IH|]. destruct (c =b DQUOTE); [by intros [= <- _]|].
    destruct (is_qdtext_char c) eqn:E; [|done]. intros H Ha. eapply IH; [exact H|]. apply Hsnoc; [|done].
    revert E. clear. byte_solve c.
Qed.

Lemma parse_quoted_quotable input v rest :
  parse_quoted_string input = Ok (v, rest) -> forallb is_quoted_pair_char v = true.
Proof. intros H. by eapply quoted_loop_quotable. Qed.

Lemma lower_valid_token s : is_valid_token s = true -> is_valid_token (to_ascii_lowercase s) = true.
Proof.
  intros [Hne Hf]%is_valid_token_iff. apply is_valid_token_iff. split; [by destruct s|].
  unfold to_ascii_lowercase. induction s as [|b s IH]; [done|]. cbn [map forallb] in *. apply andb_true_iff in Hf as [Hb Hs].
  apply andb_true_iff. split; [revert Hb; clear; byte_solve b|]. destruct s as [|c s]; [done|]. by apply IH.
Qed.

Lemma token_not_empty s : is_valid_token s = true -> is_empty s = false.
Proof. intros [? _]%is_valid_token_iff. by destruct s. Qed.

(** The characters of a language tag. *)
Lemma language_tag_chars s :
  is_valid_language_tag s = true -> s <> [] /\ forallb (fun b => is_ascii_alphanumeric b || (b =b "-")) s = true.
Proof.
  unfold is_valid_language_tag. destruct (is_empty s) eqn:En; [done|]. intros H. split; [by destruct s|].
  assert (Hp : Forall (fun p => forallb is_ascii_alphanumeric p = true) (split "-" s)).
  { destruct (split "-" s) as [|p ps]; [done|]. apply andb_true_iff in H as [H1 H2]. unfold language_subtag_ok in *.
    assert (Hsub : forall (q : byte -> bool) (part : str), negb (is_empty part || (8 <? blen part) || negb (forallb q part)) = true -> forallb q part = true).
    { intros q part Hq. rewrite negb_true_iff, !orb_false_iff, negb_false_iff in Hq. tauto. }
    constructor; [apply Hsub in H1; revert H1; apply forallb_impl; intros b; byte_solve b|].
    apply forallb_Forall in H2. revert H2. apply List.Forall_impl. intros part. apply Hsub. }
  clear H. rewrite <- (join_split "-" s). induction Hp as [|p ps Hp _ IH]; [done|].
  assert (Hpp : forallb (fun b => is_ascii_alphanumeric b || (b =b "-")) p = true) by (revert Hp; apply forallb_impl; intros b ->; done).
  destruct ps as [|q qs]; [done|]. rewrite join_cons by done. rewrite !forallb_app, Hpp, IH. done.
Qed.
