(* ===== verification/Base64.v ===== *)
(** * Base64 ([src/base64.rs])

    The encoder and the strict decoder of RFC 4648, and that they are inverse
    to each other up to white space: the decoder takes the one spelling the
    encoder writes and no other. *)
From S2P Require Import Prelude RustStd Validate.

Module Base64.

Inductive Base64Error : Type := InvalidCharacter | InvalidPadding.

Definition BASE64_ALPHABET : bytes :=
  B "ABCDEFGHIJKLMNOPQRSTUVWXYZabcdefghijklmnopqrstuvwxyz0123456789+/".

(** [BASE64_ALPHABET[n as usize] as char] for [n] masked to six bits. *)
Definition alphabet (n : N) : byte := nth (N.to_nat (N.land n 63)) BASE64_ALPHABET "="%byte.

(** A round of the loop of [encode]: the bytes at [i], [i + 1] and [i + 2], of
    which the last two may be past the end. *)
Definition octet (o : option byte) : N := match o with Some b => b2n b | None => 0 end.

Definition encode_group (b0 : byte) (b1 b2 : option byte) : str :=
  let n := N.lor (N.lor (N.shiftl (b2n b0) 16) (N.shiftl (octet b1) 8)) (octet b2) in
  [alphabet (N.shiftr n 18); alphabet (N.shiftr n 12);
   match b1 with Some _ => alphabet (N.shiftr n 6) | None => "="%byte end;
   match b2 with Some _ => alphabet n | None => "="%byte end].

Fixpoint encode (input : bytes) : str :=
  match input with
  | [] => []
  | [b0] => encode_group b0 None None
  | [b0; b1] => encode_group b0 (Some b1) None
  | b0 :: b1 :: b2 :: rest => encode_group b0 (Some b1) (Some b2) ++ encode rest
  end.

Definition is_skipped (b : byte) : bool := (b =b " ") || (b =b "009") || (b =b "010") || (b =b "013").

(** The first loop of [decode]: no white space, ASCII only. *)
Definition normalized (input : str) : result Base64Error bytes :=
  if forallb is_ascii input then Ok (List.filter (fun b => negb (is_skipped b)) input)
  else Err InvalidCharacter.

Definition base64_value (b : byte) : option N :=
  if is_ascii_uppercase b then Some (b2n b - 65)
  else if is_ascii_lowercase b then Some (b2n b - 97 + 26)
  else if is_ascii_digit b then Some (b2n b - 48 + 52)
  else if b =b "+" then Some 62
  else if b =b "/" then Some 63
  else None.

Definition u32 (n : N) : N := n mod 2 ^ 32.

(** The loop over the data: the bytes it pushes and what is left in [buf]. *)
Fixpoint data_loop (buf bits : N) (data : bytes) : result Base64Error (bytes * N) :=
  match data with
  | [] => Ok ([], buf)
  | b :: data' =>
      val ← ok_or InvalidCharacter (base64_value b);
      let buf := N.lor (u32 (N.shiftl buf 6)) val in
      let bits := bits + 6 in
      if 8 <=? bits then
        let bits := bits - 8 in
        '(out, last) ← data_loop (N.land buf (u32 (N.shiftl 1 bits) - 1)) bits data';
        Ok (n2b (N.shiftr buf bits) :: out, last)
      else data_loop buf bits data'
  end.

Definition pad_count (normalized : bytes) : nat := length (take_while (fun b => b =b "=") (rev normalized)).

Definition padding_valid (pad_count last_block_chars : nat) : bool :=
  match pad_count with
  | 0 => (last_block_chars =? 0)%nat
  | 1 => (last_block_chars =? 3)%nat
  | 2 => (last_block_chars =? 2)%nat
  | _ => false
  end%nat.

Definition decode (input : str) : result Base64Error bytes :=
  normalized ← normalized input;
  if is_empty normalized then Ok []
  else
    let pad_count := pad_count normalized in
    if (2 <? pad_count)%nat then Err InvalidPadding
    else if negb (length normalized mod 4 =? 0)%nat then Err InvalidPadding
    else
      let data := take (length normalized - pad_count) normalized in
      if negb (padding_valid pad_count (length data mod 4)) then Err InvalidPadding
      else
        '(result, buf) ← data_loop 0 0 data;
        if negb (buf =? 0) then Err InvalidPadding else Ok result.

Example encode_foob : encode (B "foob") = B "Zm9vYg==". Proof. reflexivity. Qed.
Example decode_foob : decode (B "Zm9v Yg==") = Ok (B "foob"). Proof. vm_compute. reflexivity. Qed.
Example decode_not_canonical : decode (B "Zh==") = Err InvalidPadding. Proof. vm_compute. reflexivity. Qed.

(** ** The alphabet *)

Lemma alphabet_mod n : alphabet (n mod 64) = alphabet n.
Proof.
  unfold alphabet. change 63 with (N.ones 6). rewrite !N.land_ones. change (2 ^ 6) with 64.
  by rewrite N.Div0.mod_mod.
Qed.

Lemma value_alphabet n : n < 64 -> base64_value (alphabet n) = Some n.
Proof.
  intros Hn. assert (H : forallb (fun i => bool_decide (base64_value (alphabet (N.of_nat i)) = Some (N.of_nat i))) (seq 0 64) = true)
    by (vm_compute; reflexivity).
  rewrite forallb_forall in H. specialize (H (N.to_nat n)). rewrite N2Nat.id in H.
  apply bool_decide_eq_true_1 in H; [done|]. apply in_seq. lia.
Qed.

Lemma alphabet_value b n : base64_value b = Some n -> n < 64 /\ alphabet n = b.
Proof.
  assert (H : forall b, (fun b => match base64_value b with
    | Some n => (n <? 64) && (alphabet n =b b) | None => true end) b = true)
    by (apply byte_forall; vm_compute; reflexivity).
  specialize (H b). cbn beta in H. intros Hv. rewrite Hv in H. apply andb_true_iff in H as [H1 H2].
  apply byte_eqb_eq in H2. split; [lia | done].
Qed.

(** ** Six-bit groups

    The numbers behind the characters: three bytes are four of them. *)

Fixpoint sextets (s : bytes) : list N :=
  match s with
  | [] => []
  | [a] => [b2n a / 4; b2n a mod 4 * 16]
  | [a; b] => [b2n a / 4; b2n a mod 4 * 16 + b2n b / 16; b2n b mod 16 * 4]
  | a :: b :: c :: s' =>
      b2n a / 4 :: b2n a mod 4 * 16 + b2n b / 16 :: b2n b mod 16 * 4 + b2n c / 64 :: b2n c mod 64 :: sextets s'
  end.

(** The padding behind them. *)
Definition pads (s : bytes) : nat := match (length s mod 3)%nat with O => 0 | 1 => 2 | _ => 1 end%nat.

(** Induction over groups of three and of four. *)
Lemma three_ind (P : bytes -> Prop) :
  P [] -> (forall a, P [a]) -> (forall a b, P [a; b]) -> (forall a b c s, P s -> P (a :: b :: c :: s)) -> forall s, P s.
Proof.
  intros H0 H1 H2 H3. fix IH 1. intros [|a [|b [|c s]]]; [done | apply H1 | apply H2 | apply H3, IH].
Qed.

Lemma four_ind {A} (P : list A -> Prop) :
  P [] -> (forall a, P [a]) -> (forall a b, P [a; b]) -> (forall a b c, P [a; b; c]) ->
  (forall a b c d s, P s -> P (a :: b :: c :: d :: s)) -> forall s, P s.
Proof.
  intros H0 H1 H2 H3 H4. fix IH 1.
  intros [|a [|b [|c [|d s]]]]; [done | apply H1 | apply H2 | apply H3 | apply H4, IH].
Qed.

Lemma lor_add a b k : b < 2 ^ k -> N.lor (N.shiftl a k) b = a * 2 ^ k + b.
Proof.
  intros Hb. rewrite <- N.shiftl_mul_pow2.
  assert (Hl : N.land (N.shiftl a k) b = 0).
  { apply N.bits_inj. intros i. rewrite N.land_spec, N.bits_0.
    destruct (N.lt_ge_cases i k) as [Hi|Hi]; [by rewrite N.shiftl_spec_low|].
    by rewrite <- (N.mod_small b (2 ^ k) Hb), N.mod_pow2_bits_high, andb_false_r. }
  by rewrite (N.add_nocarry_lxor _ _ Hl), (N.lxor_lor _ _ Hl).
Qed.

#[local] Ltac Zify.zify_post_hook ::= Z.to_euclidean_division_equations.

Lemma group_number b0 v1 v2 :
  v1 < 256 -> v2 < 256 ->
  N.lor (N.lor (N.shiftl (b2n b0) 16) (N.shiftl v1 8)) v2 = b2n b0 * 65536 + v1 * 256 + v2.
Proof.
  intros H1 H2. rewrite (N.shiftl_mul_pow2 v1 8). change (2 ^ 8) with 256.
  rewrite (lor_add _ (v1 * 256) 16) by (change (2 ^ 16) with 65536; lia). change (2 ^ 16) with 65536.
  replace (b2n b0 * 65536 + v1 * 256) with ((b2n b0 * 256 + v1) * 2 ^ 8) by (change (2 ^ 8) with 256; lia).
  rewrite <- N.shiftl_mul_pow2, lor_add by done. by rewrite N.shiftl_mul_pow2.
Qed.

Lemma alphabet_eq m n : m mod 64 = n mod 64 -> alphabet m = alphabet n.
Proof. intros Hm. by rewrite <- (alphabet_mod m), Hm, alphabet_mod. Qed.

Lemma list4_eq {A} (a b c d a' b' c' d' : A) :
  a = a' -> b = b' -> c = c' -> d = d' -> [a; b; c; d] = [a'; b'; c'; d'].
Proof. congruence. Qed.

(** The characters of a group by the value of each. *)
Lemma encode_group_eq b0 b1 b2 :
  encode_group b0 b1 b2 =
    [alphabet (b2n b0 / 4); alphabet (b2n b0 mod 4 * 16 + octet b1 / 16);
     match b1 with Some _ => alphabet (octet b1 mod 16 * 4 + octet b2 / 64) | None => "="%byte end;
     match b2 with Some _ => alphabet (octet b2 mod 64) | None => "="%byte end].
Proof.
  assert (Hv : forall o, octet o < 256) by (intros [b|]; [apply b2n_lt | done]).
  unfold encode_group. rewrite group_number by apply Hv. rewrite !N.shiftr_div_pow2.
  change (2 ^ 18) with 262144. change (2 ^ 12) with 4096. change (2 ^ 6) with 64.
  pose proof (b2n_lt b0). pose proof (Hv b1). pose proof (Hv b2).
  apply list4_eq; [| |destruct b1; [|done]|destruct b2; [|done]]; apply alphabet_eq; lia.
Qed.

Lemma encode_eq s : encode s = map alphabet (sextets s) ++ replicate (pads s) "="%byte.
Proof.
  induction s as [|a|a b|a b c s IH] using three_ind; [done|..]; cbn [encode sextets].
  - rewrite encode_group_eq. cbn. by rewrite N.add_0_r.
  - rewrite encode_group_eq. cbn. by rewrite N.add_0_r.
  - rewrite encode_group_eq, IH. cbn [map app].
    assert (pads (a :: b :: c :: s) = pads s) as ->; [|done]. unfold pads. cbn [length].
    replace (S (S (S (length s)))) with (length s + 1 * 3)%nat by lia. by rewrite Nat.Div0.mod_add.
Qed.

(** ** Reading the groups back *)

(** The bytes of a list of groups, and the bits left over. *)
Fixpoint unsext (vs : list N) : bytes * N :=
  match vs with
  | [] => ([], 0)
  | [v0] => ([], v0)
  | [v0; v1] => ([n2b (v0 * 4 + v1 / 16)], v1 mod 16)
  | [v0; v1; v2] => ([n2b (v0 * 4 + v1 / 16); n2b (v1 mod 16 * 16 + v2 / 4)], v2 mod 4)
  | v0 :: v1 :: v2 :: v3 :: vs' =>
      let '(out, last) := unsext vs' in
      (n2b (v0 * 4 + v1 / 16) :: n2b (v1 mod 16 * 16 + v2 / 4) :: n2b (v2 mod 4 * 64 + v3) :: out, last)
  end.

Definition sextet (v : N) : Prop := v < 64.

Lemma push_bits buf v : buf < 64 -> v < 64 -> N.lor (u32 (N.shiftl buf 6)) v = buf * 64 + v.
Proof.
  intros Hb Hv. unfold u32. rewrite N.mod_small.
  - by rewrite lor_add.
  - rewrite N.shiftl_mul_pow2. change (2 ^ 6) with 64. change (2 ^ 32) with 4294967296. lia.
Qed.

Lemma low_bits n k : k < 32 -> N.land n (u32 (N.shiftl 1 k) - 1) = n mod 2 ^ k.
Proof.
  intros Hk. unfold u32. rewrite N.shiftl_1_l, N.mod_small by (apply N.pow_lt_mono_r; lia).
  rewrite N.sub_1_r. change (N.pred (2 ^ k)) with (N.pred (2 ^ k)).
  replace (N.pred (2 ^ k)) with (N.ones k) by (by rewrite N.ones_equiv). apply N.land_ones.
Qed.

(** One character of the data. *)
Lemma data_loop_step buf bits v data :
  buf < 64 -> v < 64 -> bits <= 6 ->
  data_loop buf bits (alphabet v :: data) =
    let n := buf * 64 + v in
    if 2 <=? bits then
      '(out, last) ← data_loop (n mod 2 ^ (bits - 2)) (bits - 2) data;
      Ok (n2b (n / 2 ^ (bits - 2)) :: out, last)
    else data_loop n (bits + 6) data.
Proof.
  intros Hb Hv Hk. cbn [data_loop]. rewrite (value_alphabet v Hv). cbn [ok_or mbind result_bind].
  rewrite (push_bits buf v Hb Hv). cbv zeta.
  assert ((8 <=? bits + 6) = (2 <=? bits)) as -> by lia. destruct (2 <=? bits) eqn:H2; [|done].
  replace (bits + 6 - 8) with (bits - 2) by lia. by rewrite low_bits, N.shiftr_div_pow2 by lia.
Qed.

Ltac groups_of H :=
  repeat match goal with H : Forall sextet (_ :: _) |- _ => inversion H; clear H; subst end; unfold sextet in *.

Lemma data_loop_eq vs : Forall sextet vs -> data_loop 0 0 (map alphabet vs) = Ok (unsext vs).
Proof.
  induction vs as [|v0|v0 v1|v0 v1 v2|v0 v1 v2 v3 vs IH] using four_ind; intros Hf; [done|..]; groups_of Hf;
    cbn [map]; rewrite data_loop_step by lia; cbn [N.leb N.compare]; cbv zeta;
    change (0 * 64 + v0) with v0; change (0 + 6) with 6; [done|..];
    rewrite data_loop_step by lia; change (2 <=? 6) with true; change (6 - 2) with 4; cbv zeta iota;
    change (2 ^ 4) with 16;
    replace ((v0 * 64 + v1) / 16) with (v0 * 4 + v1 / 16) by lia;
    replace ((v0 * 64 + v1) mod 16) with (v1 mod 16) by lia; [done|..];
    rewrite data_loop_step by lia; change (2 <=? 4) with true; change (4 - 2) with 2; cbv zeta iota;
    change (2 ^ 2) with 4;
    replace ((v1 mod 16 * 64 + v2) / 4) with (v1 mod 16 * 16 + v2 / 4) by lia;
    replace ((v1 mod 16 * 64 + v2) mod 4) with (v2 mod 4) by lia; [done|].
  rewrite data_loop_step by lia. change (2 <=? 2) with true. change (2 - 2) with 0. cbv zeta iota.
  change (2 ^ 0) with 1. rewrite N.div_1_r, N.mod_1_r, IH by done. cbn [mbind result_bind unsext].
  by destruct (unsext vs).
Qed.

Lemma sextets_sextet s : Forall sextet (sextets s).
Proof.
  induction s as [|a|a b|a b c s IH] using three_ind; cbn [sextets]; repeat apply Forall_cons_2; try apply Forall_nil_2; try exact IH;
    unfold sextet; try (pose proof (b2n_lt a)); try (pose proof (b2n_lt b)); try (pose proof (b2n_lt c)); lia.
Qed.

Lemma n2b_eq n b : n = b2n b -> n2b n = b.
Proof. intros ->. apply n2b_b2n. Qed.

Lemma unsext_sextets s : unsext (sextets s) = (s, 0).
Proof.
  induction s as [|a|a b|a b c s IH] using three_ind; [done|..]; cbn [sextets unsext];
    try rewrite IH; try (pose proof (b2n_lt a)); try (pose proof (b2n_lt b)); try (pose proof (b2n_lt c));
    apply (f_equal2 pair); try lia; repeat (apply (f_equal2 cons); [apply n2b_eq; lia|]); done.
Qed.

Lemma padding_valid_pads p q m : padding_valid p m = true -> padding_valid q m = true -> p = q.
Proof. destruct p as [|[|[|p]]], q as [|[|[|q]]]; cbn; try done; intros H1%Nat.eqb_eq H2%Nat.eqb_eq; congruence. Qed.

Lemma mod_add_3 n : (S (S (S n)) mod 3 = n mod 3)%nat.
Proof. replace (S (S (S n))) with (n + 1 * 3)%nat by lia. apply Nat.Div0.mod_add. Qed.

Lemma mod_add_4 n : (S (S (S (S n))) mod 4 = n mod 4)%nat.
Proof. replace (S (S (S (S n)))) with (n + 1 * 4)%nat by lia. apply Nat.Div0.mod_add. Qed.

(** The padding that goes with the number of characters. *)
Lemma pads_valid s : padding_valid (pads s) (length (sextets s) mod 4) = true.
Proof.
  induction s as [|a|a b|a b c s IH] using three_ind; [done..|]. unfold pads in *. cbn [sextets length].
  by rewrite mod_add_3, mod_add_4.
Qed.

Lemma sextets_length s : ((length (sextets s) + pads s) mod 4 = 0)%nat.
Proof.
  induction s as [|a|a b|a b c s IH] using three_ind; [done..|]. unfold pads in *. cbn [sextets length plus].
  by rewrite mod_add_3, mod_add_4.
Qed.

(** Groups without bits left over are those of their bytes. *)
Lemma sextets_unsext vs out :
  Forall sextet vs -> unsext vs = (out, 0) -> (length vs mod 4 <> 1)%nat -> sextets out = vs.
Proof.
  revert out. induction vs as [|v0|v0 v1|v0 v1 v2|v0 v1 v2 v3 vs IH] using four_ind; intros out Hf; groups_of Hf.
  - by intros [= <-].
  - done.
  - cbn [unsext]. intros [= <- H0] _. cbn [sextets]. rewrite b2n_n2b by lia. repeat f_equal; lia.
  - cbn [unsext]. intros [= <- H0] _. cbn [sextets]. rewrite !b2n_n2b by lia. repeat f_equal; lia.
  - cbn [unsext length]. rewrite mod_add_4. destruct (unsext vs) as [o l] eqn:Hu. intros [= <- ->] Hm.
    cbn [sextets]. rewrite !b2n_n2b, (IH o) by (done || lia). repeat f_equal; lia.
Qed.

(** Data that is read is made of characters of the alphabet. *)
Lemma data_loop_chars buf bits data r :
  data_loop buf bits data = Ok r -> exists vs, data = map alphabet vs /\ Forall sextet vs.
Proof.
  revert buf bits r. induction data as [|b data IH]; intros buf bits r; [by exists []|]. cbn [data_loop].
  destruct (base64_value b) as [v|] eqn:Hv; [|done]. apply alphabet_value in Hv as [Hv <-].
  cbn [ok_or mbind result_bind]. cbv zeta. intros Hd.
  assert (Hr : exists buf bits r, data_loop buf bits data = Ok r).
  { destruct (8 <=? bits + 6); [|by eauto]. destruct (data_loop _ _ data) as [r1|] eqn:Hr; [by eauto | done]. }
  destruct Hr as (buf2 & bits2 & r2 & Hr). destruct (IH _ _ _ Hr) as (vs & -> & Hf).
  exists (v :: vs). split; [done | by constructor].
Qed.

(** ** Padding *)

Lemma take_while_replicate {A} (p : A -> bool) n x l :
  p x = true -> take_while p (replicate n x ++ l) = replicate n x ++ take_while p l.
Proof. intros Hx. induction n as [|n IH]; [done|]. cbn. by rewrite Hx, IH. Qed.

Lemma all_equal (l : bytes) : forallb (fun b => b =b "=") l = true -> l = replicate (length l) "="%byte.
Proof.
  induction l as [|b l IH]; [done|]. cbn [forallb length replicate]. intros [->%byte_eqb_eq Hl]%andb_true_iff.
  by rewrite <- IH.
Qed.

Lemma rev_replicate {A} n (x : A) : rev (replicate n x) = replicate n x.
Proof. rewrite rev_alt. apply reverse_replicate. Qed.

Lemma pad_count_split n : n = take (length n - pad_count n) n ++ replicate (pad_count n) "="%byte.
Proof.
  unfold pad_count. set (p := fun b => b =b "=").
  pose proof (take_skip_while p (rev n)) as Hs. pose proof (take_while_forallb p (rev n)) as Hall.
  apply all_equal in Hall. set (k := length (take_while p (rev n))) in *.
  set (sk := skip_while p (rev n)) in *. clearbody k sk. rewrite Hall in Hs.
  apply (f_equal (@rev _)) in Hs. rewrite rev_app_distr, rev_replicate, rev_involutive in Hs. subst n.
  rewrite length_app, length_replicate.
  replace (length (rev sk) + k - k)%nat with (length (rev sk)) by lia. by rewrite take_app_length.
Qed.

Lemma alphabet_not_pad v : v < 64 -> (alphabet v =b "=") = false.
Proof.
  intros Hv. destruct (alphabet v =b "=") eqn:E; [|done]. apply byte_eqb_eq in E.
  pose proof (value_alphabet v Hv) as Hx. by rewrite E in Hx.
Qed.

Lemma pad_count_written vs k :
  Forall sextet vs -> pad_count (map alphabet vs ++ replicate k "="%byte) = k.
Proof.
  intros Hf. unfold pad_count. rewrite rev_app_distr, rev_replicate.
  rewrite take_while_replicate by done. rewrite length_app, length_replicate.
  assert (take_while (fun b => b =b "=") (rev (map alphabet vs)) = []) as ->; [|cbn; lia].
  rewrite <- map_rev. destruct (rev vs) as [|v l] eqn:Hr; [done|]. cbn [map take_while].
  rewrite alphabet_not_pad; [done|]. rewrite Forall_forall in Hf. apply Hf.
  apply in_rev. rewrite Hr. by left.
Qed.

(** ** The decoder is the inverse of the encoder *)

Lemma encode_chars s b : In b (encode s) -> is_ascii b = true /\ is_skipped b = false.
Proof.
  rewrite encode_eq, in_app_iff, in_map_iff. intros [(v & <- & Hv)|Hb]; [|apply list_elem_of_In, elem_of_replicate in Hb as [-> _]; done].
  pose proof (sextets_sextet s) as Hf. rewrite Forall_forall in Hf. specialize (Hf v Hv).
  assert (H : forallb (fun i => is_ascii (alphabet (N.of_nat i)) && negb (is_skipped (alphabet (N.of_nat i)))) (seq 0 64) = true)
    by (vm_compute; reflexivity).
  rewrite forallb_forall in H. specialize (H (N.to_nat v)). rewrite N2Nat.id in H.
  apply andb_true_iff in H as [? ?%negb_true_iff]; [done|]. apply in_seq. unfold sextet in Hf. lia.
Qed.

(** The characters that encoding uses. *)
Definition is_base64_char (b : byte) : bool := is_ascii_alphanumeric b || (b =b "+") || (b =b "/") || (b =b "=").

Lemma encode_alphabet s : forallb is_base64_char (encode s) = true.
Proof.
  apply forallb_forall. intros b. rewrite encode_eq, in_app_iff, in_map_iff.
  intros [(v & <- & Hv)|Hb]; [|apply list_elem_of_In, elem_of_replicate in Hb as [-> _]; done].
  pose proof (sextets_sextet s) as Hf. rewrite Forall_forall in Hf. specialize (Hf v Hv).
  assert (H : forallb (fun i => is_base64_char (alphabet (N.of_nat i))) (seq 0 64) = true) by (vm_compute; reflexivity).
  rewrite forallb_forall in H. specialize (H (N.to_nat v)). rewrite N2Nat.id in H. apply H, in_seq. unfold sextet in Hf. lia.
Qed.

Definition without_space (s : str) : str := List.filter (fun b => negb (is_skipped b)) s.

Lemma decode_normalized n b :
  n <> [] ->
  (let p := pad_count n in
   if (2 <? p)%nat then Err InvalidPadding
   else if negb (length n mod 4 =? 0)%nat then Err InvalidPadding
   else if negb (padding_valid p (length (take (length n - p) n) mod 4)) then Err InvalidPadding
   else '(result, buf) ← data_loop 0 0 (take (length n - p) n); if negb (buf =? 0) then Err InvalidPadding else Ok result)
  = Ok b <-> n = encode b.
Proof.
  intros Hn. cbv zeta. split.
  - destruct (2 <? pad_count n)%nat; [done|]. destruct (negb (length n mod 4 =? 0)%nat); [done|].
    destruct (padding_valid _ _) eqn:Hp; [|done]. cbn [negb].
    destruct (data_loop 0 0 _) as [[out buf]|] eqn:Hd; [|done]. cbn [mbind result_bind].
    destruct (buf =? 0) eqn:Hz; [|done]. cbn [negb]. apply N.eqb_eq in Hz as ->. intros <-%Ok_inj.
    destruct (data_loop_chars _ _ _ _ Hd) as (vs & Hvs & Hf). rewrite Hvs in Hd, Hp. rewrite data_loop_eq in Hd by done.
    apply Ok_inj in Hd. rewrite length_map in Hp.
    assert (Hm : (length vs mod 4 <> 1)%nat) by (intros Hm; rewrite Hm in Hp; by destruct (pad_count n) as [|[|[|]]]).
    pose proof (sextets_unsext vs out Hf Hd Hm) as Hs. rewrite encode_eq, Hs.
    rewrite (pad_count_split n), Hvs at 1. f_equal. f_equal.
    apply (padding_valid_pads _ _ (length vs mod 4)); [exact Hp|]. rewrite <- Hs. apply pads_valid.
  - intros ->. rewrite encode_eq. rewrite pad_count_written by apply sextets_sextet.
    rewrite length_app, length_replicate, length_map, sextets_length. cbn [Nat.eqb negb].
    assert (Htake : take (length (sextets b) + pads b - pads b) (map alphabet (sextets b) ++ replicate (pads b) "="%byte)
                    = map alphabet (sextets b)).
    { replace (_ + pads b - pads b)%nat with (length (map alphabet (sextets b))) by (rewrite length_map; lia).
      apply take_app_length. }
    rewrite Htake, length_map, pads_valid, data_loop_eq, unsext_sextets by apply sextets_sextet.
    assert ((2 <? pads b)%nat = false) as ->; [|done]. unfold pads. by destruct (_ mod 3)%nat as [|[|]].
Qed.

Lemma decode_iff s b : decode s = Ok b <-> without_space s = encode b.
Proof.
  unfold decode, normalized. fold (without_space s). split.
  - destruct (forallb is_ascii s); [|done]. cbn [mbind result_bind]. destruct (without_space s) as [|c n] eqn:Hs.
    + by intros <-%Ok_inj.
    + cbn [is_empty]. intros Hd. by apply decode_normalized in Hd.
  - intros Hs. assert (forallb is_ascii s = true) as ->.
    { apply forallb_forall. intros c Hc. destruct (is_skipped c) eqn:Hk.
      - revert Hk. byte_solve c.
      - apply (encode_chars b). rewrite <- Hs. apply filter_In. by rewrite Hk. }
    cbn [mbind result_bind]. destruct (without_space s) as [|c n] eqn:Hn.
    + by destruct b as [|? [|? [|]]].
    + cbn [is_empty]. by apply decode_normalized.
Qed.

Lemma decode_encode s : decode (encode s) = Ok s.
Proof.
  apply decode_iff. unfold without_space. apply forallb_filter_id, forallb_forall. intros c Hc.
  by destruct (encode_chars s c Hc) as [_ ->].
Qed.

(** C37: [decode] gives [b] for exactly the strings that are [encode b] with
    spaces, tabs and line ends put in: what [encode] writes is read back, and
    there is no second spelling of the same bytes. *)
Theorem base64_decode_exact s b :
  decode s = Ok b <-> List.filter (fun c => negb (is_skipped c)) s = encode b.
Proof. apply decode_iff. Qed.
End Base64.
