(* ===== verification/Date.v ===== *)
(** * HTTP dates ([src/date.rs])

    The three formats of RFC 9110 Section 5.6.7, the two-digit years of the
    second one, and the preferred format as it is written. *)
From S2P Require Import Prelude RustStd Validate RustStr.

Module Date.

Inductive DateError : Type :=
  | Empty | InvalidFormat | InvalidDayName | InvalidDay | InvalidMonth | InvalidYear
  | Rfc850Date | InvalidHour | InvalidMinute | InvalidSecond | NotGmt.

Definition DateError_fmt (e : DateError) : str :=
  match e with
  | Empty => B "empty date"
  | InvalidFormat => B "invalid date format"
  | InvalidDayName => B "invalid day name"
  | InvalidDay => B "invalid day"
  | InvalidMonth => B "invalid month"
  | InvalidYear => B "invalid year"
  | Rfc850Date => B "rfc850-date format requires reference year"
  | InvalidHour => B "invalid hour"
  | InvalidMinute => B "invalid minute"
  | InvalidSecond => B "invalid second"
  | NotGmt => B "timezone is not GMT"
  end.

Inductive DayOfWeek : Type :=
  | Sunday | Monday | Tuesday | Wednesday | Thursday | Friday | Saturday.

Definition short_name (d : DayOfWeek) : str :=
  match d with
  | Sunday => B "Sun" | Monday => B "Mon" | Tuesday => B "Tue" | Wednesday => B "Wed"
  | Thursday => B "Thu" | Friday => B "Fri" | Saturday => B "Sat"
  end.

Definition from_name (s : str) : option DayOfWeek :=
  if (s =s B "Sun") || (s =s B "Sunday") then Some Sunday
  else if (s =s B "Mon") || (s =s B "Monday") then Some Monday
  else if (s =s B "Tue") || (s =s B "Tuesday") then Some Tuesday
  else if (s =s B "Wed") || (s =s B "Wednesday") then Some Wednesday
  else if (s =s B "Thu") || (s =s B "Thursday") then Some Thursday
  else if (s =s B "Fri") || (s =s B "Friday") then Some Friday
  else if (s =s B "Sat") || (s =s B "Saturday") then Some Saturday
  else None.

Record HttpDate : Type := mkHttpDate {
  day_of_week : DayOfWeek;
  day : N;     (* u8 *)
  month : N;   (* u8 *)
  year : N;    (* u16 *)
  hour : N;    (* u8 *)
  minute : N;  (* u8 *)
  second : N   (* u8 *)
}.

(** The tuples are compared from the left; the day of the week is left out. *)
Fixpoint lexicographic (a b : list N) : comparison :=
  match a, b with
  | x :: a', y :: b' => match x ?= y with Eq => lexicographic a' b' | c => c end
  | [], [] => Eq
  | [], _ :: _ => Lt
  | _ :: _, [] => Gt
  end.
Definition cmp_key (d : HttpDate) : list N :=
  [year d; month d; day d; hour d; minute d; second d].
Definition cmp (a b : HttpDate) : comparison := lexicographic (cmp_key a) (cmp_key b).
Definition partial_cmp (a b : HttpDate) : option comparison := Some (cmp a b).

Definition max_day_in_month (month year : N) : N :=
  match month with
  | 1 | 3 | 5 | 7 | 8 | 10 | 12 => 31
  | 4 | 6 | 9 | 11 => 30
  | 2 =>
      let leap := (year mod 4 =? 0) && (negb (year mod 100 =? 0) || (year mod 400 =? 0)) in
      if leap then 29 else 28
  | _ => 0
  end.

Definition new (day_of_week : DayOfWeek) (day month year hour minute second : N) : result DateError HttpDate :=
  if negb ((1 <=? month) && (month <=? 12)) then Err InvalidMonth
  else
    let max_day := max_day_in_month month year in
    if (day <? 1) || (max_day <? day) then Err InvalidDay
    else if year <? 1 then Err InvalidYear
    else if 23 <? hour then Err InvalidHour
    else if 59 <? minute then Err InvalidMinute
    else if 60 <? second then Err InvalidSecond
    else Ok (mkHttpDate day_of_week day month year hour minute second).

Definition month_names : list str :=
  [B "Jan"; B "Feb"; B "Mar"; B "Apr"; B "May"; B "Jun"; B "Jul"; B "Aug"; B "Sep"; B "Oct"; B "Nov"; B "Dec"].

Definition parse_month (s : str) : result DateError N :=
  match position (fun n => s =s n) month_names with
  | Some i => Ok (N.of_nat i + 1)
  | None => Err InvalidMonth
  end.

Definition month_name (month : N) : str :=
  if (1 <=? month) && (month <=? 12) then nth (N.to_nat (month - 1)) month_names (B "???") else B "???".

Definition fmt (d : HttpDate) : str :=
  short_name (day_of_week d) ++ B ", " ++ show_pad 2 (day d) ++ B " " ++ month_name (month d) ++ B " "
  ++ show_pad 4 (year d) ++ B " " ++ show_pad 2 (hour d) ++ B ":" ++ show_pad 2 (minute d) ++ B ":"
  ++ show_pad 2 (second d) ++ B " GMT".

Definition parse_time (s : str) : result DateError (N * N * N) :=
  match split ":" s with
  | [h; m; sec] =>
      hour ← ok_or InvalidHour (parse_u8 h);
      minute ← ok_or InvalidMinute (parse_u8 m);
      second ← ok_or InvalidSecond (parse_u8 sec);
      if 23 <? hour then Err InvalidHour
      else if 59 <? minute then Err InvalidMinute
      else if 60 <? second then Err InvalidSecond
      else Ok (hour, minute, second)
  | _ => Err InvalidFormat
  end.

Definition parse_imf_fixdate (day_name rest : str) : result DateError HttpDate :=
  day_of_week ← ok_or InvalidDayName (from_name day_name);
  match split_whitespace rest with
  | [p0; p1; p2; p3; p4] =>
      day ← ok_or InvalidDay (parse_u8 p0);
      month ← parse_month p1;
      year ← ok_or InvalidYear (parse_u16 p2);
      '(hour, minute, second) ← parse_time p3;
      if negb (p4 =s B "GMT") then Err NotGmt
      else new day_of_week day month year hour minute second
  | _ => Err InvalidFormat
  end.

(** The arithmetic is on [u16], which wraps around in a release build. *)
Definition u16_add (a b : N) : N := (a + b) mod 65536.
Definition u16_sub (a b : N) : N := (a + 65536 - b) mod 65536.

Definition interpret_two_digit_year (two_digit reference_year : N) : N :=
  let current_century := reference_year / 100 * 100 in
  let candidate := u16_add current_century two_digit in
  if u16_add reference_year 50 <? candidate then u16_sub candidate 100 else candidate.

Definition parse_rfc850_inner (day_name rest : str) (reference_year : N) : result DateError HttpDate :=
  day_of_week ← ok_or InvalidDayName (from_name day_name);
  match split_whitespace rest with
  | [p0; p1; p2] =>
      match split "-" p0 with
      | [d0; d1; raw_year_str] =>
          day ← ok_or InvalidDay (parse_u8 d0);
          month ← parse_month d1;
          raw_year ← ok_or InvalidYear (parse_u16 raw_year_str);
          let year := if blen raw_year_str =? 2 then interpret_two_digit_year raw_year reference_year
                      else raw_year in
          '(hour, minute, second) ← parse_time p1;
          if negb (p2 =s B "GMT") then Err NotGmt
          else new day_of_week day month year hour minute second
      | _ => Err InvalidFormat
      end
  | _ => Err InvalidFormat
  end.

Definition parse_asctime (input : str) : result DateError HttpDate :=
  match split_whitespace input with
  | [p0; p1; p2; p3; p4] =>
      day_of_week ← ok_or InvalidDayName (from_name p0);
      month ← parse_month p1;
      day ← ok_or InvalidDay (parse_u8 p2);
      '(hour, minute, second) ← parse_time p3;
      year ← ok_or InvalidYear (parse_u16 p4);
      new day_of_week day month year hour minute second
  | _ => Err InvalidFormat
  end.

Definition parse (input : str) : result DateError HttpDate :=
  let input := trim input in
  if is_empty input then Err Empty
  else
    match split_once "," input with
    | Some (day_name, rest) =>
        let rest := trim_start rest in
        if contains_byte "-" rest then Err Rfc850Date else parse_imf_fixdate day_name rest
    | None => parse_asctime input
    end.

Definition parse_rfc850 (input : str) (reference_year : N) : result DateError HttpDate :=
  let input := trim input in
  if is_empty input then Err Empty
  else
    '(day_name, rest) ← ok_or InvalidFormat (split_once "," input);
    let rest := trim_start rest in
    if negb (contains_byte "-" rest) then Err InvalidFormat
    else parse_rfc850_inner day_name rest reference_year.

Definition example_date : HttpDate := mkHttpDate Sunday 6 11 1994 8 49 37.
Example fmt_example : fmt example_date = B "Sun, 06 Nov 1994 08:49:37 GMT". Proof. reflexivity. Qed.
Example parse_fixdate : parse (B "Sun, 06 Nov 1994 08:49:37 GMT") = Ok example_date. Proof. vm_compute. reflexivity. Qed.
Example parse_asctime_ex : parse (B "Sun Nov  6 08:49:37 1994") = Ok example_date. Proof. vm_compute. reflexivity. Qed.
Example parse_850 : parse_rfc850 (B "Sunday, 06-Nov-94 08:49:37 GMT") 2024 = Ok example_date. Proof. vm_compute. reflexivity. Qed.
Example parse_850_direct : parse (B "Sunday, 06-Nov-94 08:49:37 GMT") = Err Rfc850Date. Proof. vm_compute. reflexivity. Qed.

(** ** Valid dates *)

(** What [new] checks, and that the fields fit their types. *)
Definition valid (d : HttpDate) : bool :=
  (1 <=? month d) && (month d <=? 12) && (1 <=? day d) && (day d <=? max_day_in_month (month d) (year d))
  && (1 <=? year d) && (year d <=? u16_MAX) && (hour d <=? 23) && (minute d <=? 59) && (second d <=? 60).

Lemma new_Ok w d mo y h mi s dt :
  y <= u16_MAX -> new w d mo y h mi s = Ok dt -> dt = mkHttpDate w d mo y h mi s /\ valid dt = true.
Proof.
  intros Hy. unfold new. cbv zeta. destruct (negb _) eqn:E1; [done|]. destruct (_ || _) eqn:E2; [done|].
  destruct (y <? 1) eqn:E3; [done|]. destruct (23 <? h) eqn:E4; [done|]. destruct (59 <? mi) eqn:E5; [done|].
  destruct (60 <? s) eqn:E6; [done|]. intros [= <-]. split; [done|]. unfold valid. cbn [month day year hour minute second].
  rewrite !andb_true_iff, !N.leb_le. lia.
Qed.

Lemma new_valid d :
  valid d = true -> new (day_of_week d) (day d) (month d) (year d) (hour d) (minute d) (second d) = Ok d.
Proof.
  unfold valid, new. rewrite !andb_true_iff, !N.leb_le. intros ((((((((? & ?) & ?) & ?) & ?) & ?) & ?) & ?) & ?). cbv zeta.
  destruct (negb _) eqn:E1; [lia|]. destruct (_ || _) eqn:E2; [lia|].
  destruct (year d <? 1) eqn:E3; [lia|]. destruct (23 <? _) eqn:E4; [lia|]. destruct (59 <? _) eqn:E5; [lia|].
  destruct (60 <? _) eqn:E6; [lia|]. by destruct d.
Qed.

Lemma max_day_bound m y : max_day_in_month m y <= 31.
Proof.
  assert (Hl : forall b : bool, (if b then 29 else 28) <= 31) by (intros [|]; lia).
  unfold max_day_in_month. cbv zeta. destruct m as [|p]; [lia|].
  repeat (destruct p as [p|p|]; try lia; try apply Hl).
Qed.

Lemma month_roundtrip m : 1 <= m <= 12 -> parse_month (month_name m) = Ok m /\ solid (month_name m) = true /\ contains_byte "-" (month_name m) = false.
Proof.
  intros Hm. assert (H : forallb (fun i => match parse_month (month_name (N.of_nat i)) with Ok j => j =? N.of_nat i | Err _ => false end && solid (month_name (N.of_nat i)) && negb (contains_byte "-" (month_name (N.of_nat i)))) (seq 1 12) = true)
    by (vm_compute; reflexivity).
  rewrite forallb_forall in H. specialize (H (N.to_nat m)). rewrite N2Nat.id in H.
  rewrite !andb_true_iff, negb_true_iff in H. destruct H as [[H ?] ?]; [apply in_seq; lia|].
  destruct (parse_month _); [|done]. by apply N.eqb_eq in H as ->.
Qed.

(** ** What is written is read back *)

Lemma from_name_short w : from_name (short_name w) = Some w.
Proof. by destruct w. Qed.

Lemma split_three c a b d :
  contains_byte c a = false -> contains_byte c b = false -> contains_byte c d = false ->
  split c (a ++ [c] ++ b ++ [c] ++ d) = [a; b; d].
Proof.
  intros Ha Hb Hd. cbn [app]. by rewrite (split_app c a _ Ha), (split_app c b _ Hb), (split_no_sep c d Hd).
Qed.

Lemma parse_time_shown h m s :
  h <= 23 -> m <= 59 -> s <= 60 ->
  parse_time (show_pad 2 h ++ B ":" ++ show_pad 2 m ++ B ":" ++ show_pad 2 s) = Ok (h, m, s).
Proof.
  intros Hh Hm Hs. unfold parse_time. rewrite (split_three ":") by (by apply show_pad_no).
  unfold parse_u8. rewrite !parse_show_pad by (unfold u8_MAX; lia). cbn [ok_or mbind result_bind].
  destruct (23 <? h) eqn:E1; [lia|]. destruct (59 <? m) eqn:E2; [lia|]. destruct (60 <? s) eqn:E3; [lia|]. done.
Qed.

Definition time_text (d : HttpDate) : str :=
  show_pad 2 (hour d) ++ B ":" ++ show_pad 2 (minute d) ++ B ":" ++ show_pad 2 (second d).

Lemma time_text_solid d : solid (time_text d) = true.
Proof. unfold time_text. do 4 (apply solid_app; [apply show_pad_solid || done|]). apply show_pad_solid. Qed.

Lemma show_pad_ascii w n : forallb is_ascii (show_pad w n) = true.
Proof. pose proof (show_pad_digits w n) as H. revert H. apply forallb_impl. intros b. byte_solve b. Qed.

Lemma month_ascii d : valid d = true -> forallb is_ascii (month_name (month d)) = true.
Proof.
  intros Hv. unfold valid in Hv. rewrite !andb_true_iff, !N.leb_le in Hv.
  destruct (month_roundtrip (month d)) as (_ & Hm & _); [lia|]. by apply solid_ascii in Hm as (_ & Hm & _).
Qed.

Lemma fmt_ascii d : valid d = true -> forallb is_ascii (fmt d) = true.
Proof.
  intros Hv. unfold fmt. rewrite !forallb_app, !show_pad_ascii, month_ascii by done. by destruct (day_of_week d).
Qed.

Lemma last_app_cons {A} (l : list A) x k y : List.last (l ++ x :: k) y = List.last (x :: k) y.
Proof. induction l as [|z l IH]; [done|]. cbn [app]. rewrite <- IH. by destruct l. Qed.

(** The text after the comma. *)
Definition fixdate (d : HttpDate) : str :=
  show_pad 2 (day d) ++ B " " ++ month_name (month d) ++ B " " ++ show_pad 4 (year d) ++ B " " ++ time_text d ++ B " GMT".

Lemma fmt_eq d : fmt d = short_name (day_of_week d) ++ B ", " ++ fixdate d.
Proof. unfold fmt, fixdate, time_text. by rewrite <- !app_assoc. Qed.

Lemma fmt_solid_ends d : solid_ends (fmt d) = true.
Proof.
  assert (He : forall y, List.last (fmt d) y = "T"%byte).
  { intros y. rewrite fmt_eq. unfold fixdate. rewrite !app_assoc. apply last_app_cons. }
  unfold solid_ends. destruct (fmt d) as [|b s] eqn:E; [done|]. cbv zeta. rewrite He.
  assert (Hb : is_ascii b && negb (byte_white b) = true); [|by rewrite Hb].
  rewrite fmt_eq in E. by destruct (day_of_week d); injection E as <- _.
Qed.

Lemma fixdate_words d : valid d = true ->
  split_whitespace (fixdate d) = [show_pad 2 (day d); month_name (month d); show_pad 4 (year d); time_text d; B "GMT"].
Proof.
  intros Hv. unfold valid in Hv. rewrite !andb_true_iff, !N.leb_le in Hv. unfold fixdate.
  destruct (month_roundtrip (month d)) as (_ & Hm & _); [lia|].
  change (B " GMT") with (B " " ++ B "GMT").
  rewrite split_whitespace_cons by apply show_pad_solid. rewrite split_whitespace_cons by done.
  rewrite split_whitespace_cons by apply show_pad_solid. rewrite split_whitespace_cons by apply time_text_solid.
  by rewrite split_whitespace_one.
Qed.

Lemma fixdate_no_hyphen d : valid d = true -> contains_byte "-" (fixdate d) = false.
Proof.
  intros Hv. unfold valid in Hv. rewrite !andb_true_iff, !N.leb_le in Hv. unfold fixdate, time_text.
  destruct (month_roundtrip (month d)) as (_ & _ & Hm); [lia|].
  rewrite !contains_byte_app, Hm, !(show_pad_no "-") by done. done.
Qed.

Lemma trim_start_digits n t : trim_start (B " " ++ show_pad 2 n ++ t) = show_pad 2 n ++ t.
Proof.
  unfold trim_start. rewrite char_list_ascii_app by done. cbn [map app skip_while].
  change (white [" "%byte]) with true.
  destruct (show_pad 2 n) as [|b p] eqn:E; [by apply show_pad_not_nil in E|].
  pose proof (show_pad_digits 2 n) as Hd. rewrite E in Hd. cbn [forallb] in Hd. apply andb_true_iff in Hd as [Hd _].
  cbn [app]. cbn iota. change (concat (skip_while white (char_list (b :: ?s)))) with (trim_start (b :: s)).
  apply trim_start_id; revert Hd; clear; byte_solve b.
Qed.

Lemma parse_fmt_date d : valid d = true -> parse (fmt d) = Ok d.
Proof.
  intros Hv. unfold parse. rewrite trim_id by apply fmt_solid_ends.
  cbv zeta. assert (is_empty (fmt d) = false) as -> by (rewrite fmt_eq; by destruct (day_of_week d)).
  rewrite fmt_eq. change (B ", ") with ([","%byte] ++ B " "). rewrite <- app_assoc.
  assert (Hc : contains_byte "," (short_name (day_of_week d)) = false) by (by destruct (day_of_week d)).
  cbn [app]. rewrite (split_once_app "," _ (B " " ++ fixdate d) Hc).
  unfold fixdate at 1 2. rewrite trim_start_digits. fold (fixdate d). rewrite (fixdate_no_hyphen d Hv). unfold parse_imf_fixdate.
  rewrite from_name_short, (fixdate_words d Hv). cbn [ok_or mbind result_bind].
  pose proof Hv as Hb. unfold valid in Hb. rewrite !andb_true_iff, !N.leb_le in Hb.
  pose proof (max_day_bound (month d) (year d)). destruct (month_roundtrip (month d)) as (Hm & _); [lia|].
  unfold parse_u8, parse_u16. rewrite !parse_show_pad by (unfold u8_MAX; lia). rewrite Hm.
  cbn [ok_or mbind result_bind]. unfold time_text. rewrite parse_time_shown by lia. cbn. by apply new_valid.
Qed.
(** ** What is accepted *)

Ltac date_step H :=
  match type of H with
  | mbind _ (ok_or _ ?o) = Ok _ => let E := fresh "E" in destruct o eqn:E; cbn [ok_or mbind result_bind] in H; [|done]
  | mbind _ ?r = Ok _ => let E := fresh "E" in destruct r eqn:E; cbn [mbind result_bind] in H; [|done]
  | (if ?b then _ else _) = Ok _ => destruct b eqn:?; [done|]
  end.

Lemma parse_u16_bound s n : parse_u16 s = Some n -> n <= u16_MAX.
Proof. apply from_str_radix_bound. Qed.

Lemma interpret_bound yy r : interpret_two_digit_year yy r <= u16_MAX.
Proof.
  unfold interpret_two_digit_year, u16_add, u16_sub, u16_MAX. cbv zeta. destruct (_ <? _);
    match goal with |- ?a mod 65536 <= _ => pose proof (N.mod_lt a 65536); lia end.
Qed.

Lemma parse_valid s d : parse s = Ok d -> valid d = true.
Proof.
  unfold parse. cbv zeta. destruct (is_empty _); [done|]. destruct (split_once _ _) as [[n rest]|].
  - destruct (contains_byte _ _); [done|]. unfold parse_imf_fixdate. intros H. date_step H.
    destruct (split_whitespace _) as [|p0 [|p1 [|p2 [|p3 [|p4 [|]]]]]]; try done. do 4 date_step H.
    match goal with p : (N * N * N)%type |- _ => destruct p as [[h m] sec] end. date_step H. eapply new_Ok; [|exact H]. by eapply parse_u16_bound.
  - unfold parse_asctime. intros H. destruct (split_whitespace _) as [|p0 [|p1 [|p2 [|p3 [|p4 [|]]]]]]; try done.
    do 4 date_step H. match goal with p : (N * N * N)%type |- _ => destruct p as [[h m] sec] end. date_step H. eapply new_Ok; [|exact H]. by eapply parse_u16_bound.
Qed.

Lemma parse_rfc850_valid s r d : parse_rfc850 s r = Ok d -> valid d = true.
Proof.
  unfold parse_rfc850. cbv zeta. destruct (is_empty _); [done|]. destruct (split_once _ _) as [[n rest]|]; [|done].
  cbn [ok_or mbind result_bind]. destruct (negb _); [done|]. unfold parse_rfc850_inner. intros H. date_step H.
  destruct (split_whitespace _) as [|p0 [|p1 [|p2 [|]]]]; try done.
  destruct (split _ p0) as [|q0 [|q1 [|ry [|]]]]; try done. do 3 date_step H. cbv zeta in H. date_step H.
  match goal with p : (N * N * N)%type |- _ => destruct p as [[h m] sec] end. date_step H. eapply new_Ok; [|exact H].
  destruct (blen ry =? 2); [apply interpret_bound | by eapply parse_u16_bound].
Qed.

#[local] Ltac Zify.zify_post_hook ::= Z.to_euclidean_division_equations.

(** The years that two digits can stand for, read in the year [r]: those of its
    century that are not more than fifty years ahead, and those of the century
    before that would be so a hundred years later. *)
Definition in_window (r y : N) : bool :=
  if y / 100 =? r / 100 then y <=? r + 50 else (y / 100 + 1 =? r / 100) && (r + 50 <? y + 100).

(** The rule of RFC 9110 Section 5.6.7 for two digits: the year found is the
    one year of the window that ends in them. *)
Lemma two_digit_year yy r y :
  yy < 100 -> 100 <= r <= 65485 ->
  interpret_two_digit_year yy r = y <-> y mod 100 = yy /\ in_window r y = true.
Proof.
  intros Hy Hr. unfold interpret_two_digit_year, in_window, u16_add, u16_sub. cbv zeta.
  rewrite !(N.mod_small _ 65536) by lia. destruct (r + 50 <? r / 100 * 100 + yy) eqn:E.
  - replace (r / 100 * 100 + yy + 65536 - 100) with (r / 100 * 100 + yy - 100 + 1 * 65536) by lia.
    rewrite N.Div0.mod_add, N.mod_small by lia. destruct (y / 100 =? r / 100) eqn:E2; lia.
  - destruct (y / 100 =? r / 100) eqn:E2; lia.
Qed.

(** The two obsolete formats, as RFC 9110 writes them. *)
Definition long_name (w : DayOfWeek) : str :=
  match w with
  | Sunday => B "Sunday" | Monday => B "Monday" | Tuesday => B "Tuesday" | Wednesday => B "Wednesday"
  | Thursday => B "Thursday" | Friday => B "Friday" | Saturday => B "Saturday"
  end.
Definition rfc850_day (d : HttpDate) : str :=
  show_pad 2 (day d) ++ B "-" ++ month_name (month d) ++ B "-" ++ show_pad 2 (year d mod 100).
Definition rfc850_text (d : HttpDate) : str :=
  long_name (day_of_week d) ++ B ", " ++ rfc850_day d ++ B " " ++ time_text d ++ B " GMT".
Definition asctime_text (d : HttpDate) : str :=
  short_name (day_of_week d) ++ B " " ++ month_name (month d) ++ B " "
  ++ (if day d <? 10 then B " " else []) ++ show_dec (day d) ++ B " " ++ time_text d ++ B " " ++ show_pad 4 (year d).

Example asctime_text_ex : asctime_text example_date = B "Sun Nov  6 08:49:37 1994". Proof. reflexivity. Qed.
Example rfc850_text_ex : rfc850_text example_date = B "Sunday, 06-Nov-94 08:49:37 GMT". Proof. reflexivity. Qed.

Lemma valid_bounds d : valid d = true ->
  1 <= month d <= 12 /\ 1 <= day d <= 31 /\ year d <= u16_MAX /\ hour d <= 23 /\ minute d <= 59 /\ second d <= 60.
Proof.
  unfold valid. rewrite !andb_true_iff, !N.leb_le. pose proof (max_day_bound (month d) (year d)). lia.
Qed.

Lemma parse_time_text d : valid d = true -> parse_time (time_text d) = Ok (hour d, minute d, second d).
Proof. intros Hv%valid_bounds. apply parse_time_shown; lia. Qed.

Lemma time_text_ascii d : forallb is_ascii (time_text d) = true.
Proof. unfold time_text. by rewrite !forallb_app, !show_pad_ascii. Qed.

(** *** rfc850-date *)

Lemma show_pad_two n : n < 100 -> blen (show_pad 2 n) = 2.
Proof.
  intros Hn. assert (H : forallb (fun i => blen (show_pad 2 (N.of_nat i)) =? 2) (seq 0 100) = true)
    by (vm_compute; reflexivity).
  rewrite forallb_forall in H. specialize (H (N.to_nat n)). rewrite N2Nat.id in H. apply N.eqb_eq, H, in_seq. lia.
Qed.

Lemma rfc850_ends d : valid d = true -> solid_ends (rfc850_text d) = true /\ forallb is_ascii (rfc850_text d) = true.
Proof.
  intros Hv. assert (Ha : forallb is_ascii (rfc850_text d) = true).
  { unfold rfc850_text, rfc850_day. rewrite !forallb_app, !show_pad_ascii, month_ascii, time_text_ascii by done.
    by destruct (day_of_week d). }
  split; [|done]. assert (He : forall y, List.last (rfc850_text d) y = "T"%byte).
  { intros y. unfold rfc850_text. rewrite !app_assoc. apply last_app_cons. }
  unfold solid_ends. destruct (rfc850_text d) as [|b s] eqn:E; [done|]. cbv zeta. rewrite He.
  assert (Hb : is_ascii b && negb (byte_white b) = true); [|by rewrite Hb].
  unfold rfc850_text in E. by destruct (day_of_week d); injection E as <- _.
Qed.

Lemma rfc850_split d :
  split_once "," (rfc850_text d) = Some (long_name (day_of_week d), B " " ++ rfc850_day d ++ B " " ++ time_text d ++ B " GMT").
Proof.
  unfold rfc850_text. change (B ", ") with ([","%byte] ++ B " "). rewrite <- app_assoc.
  apply split_once_app. by destruct (day_of_week d).
Qed.

Lemma rfc850_day_solid d : valid d = true -> solid (rfc850_day d) = true.
Proof.
  intros Hv%valid_bounds. destruct (month_roundtrip (month d)) as (_ & Hm & _); [lia|]. unfold rfc850_day.
  do 4 (apply solid_app; [apply show_pad_solid || done|]). apply show_pad_solid.
Qed.

Lemma parse_rfc850_text d r :
  valid d = true -> 100 <= r <= 65485 -> in_window r (year d) = true -> parse_rfc850 (rfc850_text d) r = Ok d.
Proof.
  intros Hv Hr Hw. unfold parse_rfc850. cbv zeta. destruct (rfc850_ends d Hv) as [He Ha].
  rewrite (trim_id _ He).
  assert (is_empty (rfc850_text d) = false) as -> by (unfold rfc850_text; by destruct (day_of_week d)).
  rewrite rfc850_split. cbn [ok_or mbind result_bind]. set (u := time_text d ++ B " GMT").
  unfold rfc850_day. rewrite <- app_assoc, trim_start_digits.
  assert (contains_byte "-" (show_pad 2 (day d) ++ (B "-" ++ month_name (month d) ++ B "-" ++ show_pad 2 (year d mod 100)) ++ B " " ++ u) = true) as ->
    by (rewrite contains_byte_app; apply orb_true_r).
  rewrite app_assoc. fold (rfc850_day d). unfold parse_rfc850_inner.
  assert (from_name (long_name (day_of_week d)) = Some (day_of_week d)) as -> by (by destruct (day_of_week d)).
  cbn [negb ok_or mbind result_bind]. unfold u. rewrite split_whitespace_cons by (by apply rfc850_day_solid).
  change (B " GMT") with (B " " ++ B "GMT"). rewrite split_whitespace_cons by apply time_text_solid.
  rewrite split_whitespace_one by done. pose proof (valid_bounds d Hv).
  destruct (month_roundtrip (month d)) as (Hm & _ & Hn); [lia|].
  unfold rfc850_day. rewrite (split_three "-") by (done || by apply show_pad_no).
  assert (year d mod 100 < 100) by (apply N.mod_lt; lia).
  unfold parse_u8, parse_u16. rewrite !parse_show_pad by (unfold u8_MAX, u16_MAX; lia).
  cbn [ok_or mbind result_bind]. rewrite Hm, show_pad_two by done. cbn [mbind result_bind].
  change (2 =? 2) with true. cbv iota zeta. rewrite parse_time_text by done. cbn [mbind result_bind].
  rewrite (proj2 (two_digit_year (year d mod 100) r (year d) ltac:(done) Hr)) by done. by apply new_valid.
Qed.

Lemma parse_rfc850_direct d : valid d = true -> parse (rfc850_text d) = Err Rfc850Date.
Proof.
  intros Hv. unfold parse. cbv zeta. destruct (rfc850_ends d Hv) as [He Ha].
  rewrite (trim_id _ He).
  assert (is_empty (rfc850_text d) = false) as -> by (unfold rfc850_text; by destruct (day_of_week d)).
  rewrite rfc850_split. unfold rfc850_day. rewrite <- app_assoc, trim_start_digits, contains_byte_app.
  by rewrite orb_true_r.
Qed.

(** *** asctime-date *)

Lemma split_whitespace_space s : split_whitespace (B " " ++ s) = split_whitespace s.
Proof. unfold split_whitespace. by rewrite char_list_ascii_app. Qed.

Lemma show_pad_1 n : show_dec n = show_pad 0 n.
Proof. done. Qed.

Lemma last_digit w n y : is_ascii_digit (List.last (show_pad w n) y) = true.
Proof.
  pose proof (show_pad_not_nil w n) as Hn. pose proof (show_pad_digits w n) as Hd.
  destruct (@exists_last _ _ Hn) as (l & e & He). rewrite He in *. rewrite last_last.
  rewrite forallb_app in Hd. cbn in Hd. by rewrite !andb_true_r in Hd; apply andb_true_iff in Hd as [_ ?].
Qed.

Lemma last_app_digits l w n y : is_ascii_digit (List.last (l ++ show_pad w n) y) = true.
Proof.
  pose proof (show_pad_not_nil w n) as Hn. destruct (show_pad w n) as [|c k] eqn:E; [done|].
  rewrite last_app_cons, <- E. apply last_digit.
Qed.

Lemma asctime_ends d : valid d = true ->
  solid_ends (asctime_text d) = true /\ forallb is_ascii (asctime_text d) = true /\ contains_byte "," (asctime_text d) = false.
Proof.
  intros Hv. assert (Hp : forall b : bool, forallb is_ascii (if b then B " " else []) = true /\
    contains_byte "," (if b then B " " else []) = false) by (by intros [|]).
  split_and!.
  - assert (He : forall y, is_ascii_digit (List.last (asctime_text d) y) = true).
    { intros y. unfold asctime_text. rewrite !app_assoc. apply last_app_digits. }
    unfold solid_ends. destruct (asctime_text d) as [|b s] eqn:E; [done|]. cbv zeta. specialize (He b).
    assert (Hb : is_ascii b && negb (byte_white b) = true).
    { unfold asctime_text in E. by destruct (day_of_week d); injection E as <- _. }
    rewrite Hb. revert He. generalize (List.last (b :: s) b). clear. intros c. byte_solve c.
  - unfold asctime_text. rewrite !forallb_app, (proj1 (Hp _)), show_pad_1, !show_pad_ascii, month_ascii, time_text_ascii by done.
    by destruct (day_of_week d).
  - pose proof (valid_bounds d Hv). assert (Hm : contains_byte "," (month_name (month d)) = false).
    { destruct (month_roundtrip (month d)) as (_ & Hs & _); [lia|]. clear -H.
      assert (Ht : forallb (fun i => negb (contains_byte "," (month_name (N.of_nat i)))) (seq 1 12) = true) by (vm_compute; reflexivity).
      rewrite forallb_forall in Ht. specialize (Ht (N.to_nat (month d))). rewrite N2Nat.id in Ht.
      apply negb_true_iff, Ht, in_seq. lia. }
    unfold asctime_text, time_text. rewrite !contains_byte_app, (proj2 (Hp _)), show_pad_1, Hm, !(show_pad_no ",") by done.
    by destruct (day_of_week d).
Qed.

Lemma parse_asctime_text d : valid d = true -> parse (asctime_text d) = Ok d.
Proof.
  intros Hv. unfold parse. destruct (asctime_ends d Hv) as (He & Ha & Hc). cbv zeta. rewrite (trim_id _ He).
  assert (is_empty (asctime_text d) = false) as -> by (unfold asctime_text; by destruct (day_of_week d)).
  rewrite (proj2 (split_once_None _ _) Hc). unfold parse_asctime, asctime_text. pose proof (valid_bounds d Hv).
  destruct (month_roundtrip (month d)) as (Hm & Hs & _); [lia|].
  rewrite split_whitespace_cons by (by destruct (day_of_week d)). rewrite split_whitespace_cons by done.
  assert (Hsp : forall (b : bool) s, split_whitespace ((if b then B " " else []) ++ s) = split_whitespace s).
  { intros [|] s; [apply split_whitespace_space | done]. }
  rewrite Hsp, show_pad_1. rewrite split_whitespace_cons by apply show_pad_solid. rewrite split_whitespace_cons by apply time_text_solid.
  rewrite split_whitespace_one by apply show_pad_solid. rewrite from_name_short, Hm.
  unfold parse_u8, parse_u16. rewrite !parse_show_pad by (unfold u8_MAX; lia). cbn [ok_or mbind result_bind].
  rewrite parse_time_text by done. cbn [mbind result_bind]. by apply new_valid.
Qed.

(** A date is read back from each of the three formats.  For every date the
    constructor admits (years of five digits and leap seconds included): from
    what the crate itself writes, from the format of asctime, and from the
    format with two digits for the year, which [parse] hands to [parse_rfc850],
    if the year is one of those the two digits can stand for in the year [r]. *)
Lemma date_formats_roundtrip w dd mo y h mi s d :
  y <= u16_MAX -> new w dd mo y h mi s = Ok d ->
  parse (fmt d) = Ok d /\ parse (asctime_text d) = Ok d /\
  (forall r, 100 <= r <= 65485 -> in_window r y = true ->
    parse (rfc850_text d) = Err Rfc850Date /\ parse_rfc850 (rfc850_text d) r = Ok d).
Proof.
  intros Hy H. destruct (new_Ok _ _ _ _ _ _ _ _ Hy H) as [-> Hv].
  split_and!; [by apply parse_fmt_date | by apply parse_asctime_text | intros r Hr Hw; split; [by apply parse_rfc850_direct | by apply parse_rfc850_text]].
Qed.

Example date_formats_roundtrip_at :
  let d := mkHttpDate Sunday 29 2 2076 23 59 60 in
  parse (fmt d) = Ok d /\ parse (asctime_text d) = Ok d /\ parse_rfc850 (rfc850_text d) 2026 = Ok d.
Proof.
  destruct (date_formats_roundtrip Sunday 29 2 2076 23 59 60 (mkHttpDate Sunday 29 2 2076 23 59 60)) as (H1 & H2 & H3);
    [by apply N.leb_le | reflexivity|].
  cbv zeta. split_and!; [exact H1 | exact H2 |]. apply H3; [lia | reflexivity].
Defined.

(** Every date that is read, in any of the three formats and with any
    reference year, names a day that exists in its month and year and a time of
    day. *)
Lemma dates_accepted_valid s r d : parse s = Ok d \/ parse_rfc850 s r = Ok d -> valid d = true.
Proof. intros [H|H]; [by eapply parse_valid | by eapply parse_rfc850_valid]. Qed.

Example dates_accepted_valid_at :
  let s := B "Sunday, 06-Nov-94 08:49:37 GMT" in
  parse_rfc850 s 2024 = Ok example_date /\ valid example_date = true.
Proof.
  split; [vm_compute; reflexivity|].
  apply (dates_accepted_valid (B "Sunday, 06-Nov-94 08:49:37 GMT") 2024). right. vm_compute. reflexivity.
Defined.

(** C36: Dates are read back and are dates. For every date the constructor admits
    (years of five digits and leap seconds included), what the crate writes, the
    format of asctime and, through [parse_rfc850], the format with two digits for
    the year give that date again, if the year is one the two digits can stand for in
    the reference year [r] and [r] is from 100 to 65485 (beyond, its sums leave 16
    bits); and whatever is read, in any format and with any reference year,
    names a day that exists in its month and year and a time of day. *)
Theorem dates_exact :
  (forall w dd mo y h mi s d, y <= u16_MAX -> new w dd mo y h mi s = Ok d ->
    parse (fmt d) = Ok d /\ parse (asctime_text d) = Ok d /\
    (forall r, 100 <= r <= 65485 -> in_window r y = true ->
      parse (rfc850_text d) = Err Rfc850Date /\ parse_rfc850 (rfc850_text d) r = Ok d)) /\
  (forall s r d, parse s = Ok d \/ parse_rfc850 s r = Ok d -> valid d = true).
Proof. split; [apply date_formats_roundtrip | apply dates_accepted_valid]. Qed.

Lemma dates_exact_witness :
  let d := mkHttpDate Sunday 29 2 2076 23 59 60 in
  parse (fmt d) = Ok d /\ parse (asctime_text d) = Ok d /\ parse_rfc850 (rfc850_text d) 2026 = Ok d /\ valid example_date = true.
Proof.
  destruct dates_exact as [H Hv].
  destruct (H Sunday 29 2 2076 23 59 60 (mkHttpDate Sunday 29 2 2076 23 59 60)) as (H1 & H2 & H3);
    [by apply N.leb_le | reflexivity|].
  cbv zeta. split_and!; [exact H1 | exact H2 | apply H3; [lia | reflexivity]|].
  apply (Hv (B "Sunday, 06-Nov-94 08:49:37 GMT") 2024). right. vm_compute. reflexivity.
Defined.
End Date.
