(* ===== verification/Uri.v ===== *)
(** * URIs ([src/uri.rs])

    Percent-encoding, the parser of RFC 3986 with the positions it keeps into
    the source, reference resolution and normalization.  [path[i..]] of a loop
    is the list that is left; a position is a [nat]. *)
From S2P Require Import Prelude RustStd Validate Host RustStr.

Module Uri.

(** A [char] is its code point. *)
Inductive UriError : Type :=
  | Empty | InvalidPercentEncoding | InvalidPort | InvalidCharacter (c : N) | InvalidScheme | InvalidHost
  | InvalidUtf8 | InvalidPathCharacter (b : byte) | InvalidQueryCharacter (b : byte)
  | InvalidFragmentCharacter (b : byte) | InvalidUserinfo.

(** ** Characters *)

Definition is_unreserved (c : byte) : bool :=
  is_ascii_alphanumeric c || (c =b "-") || (c =b ".") || (c =b "_") || (c =b "~").
Definition is_sub_delim (b : byte) : bool :=
  (b =b "!") || (b =b "$") || (b =b "&") || (b =b "'") || (b =b "(") || (b =b ")") || (b =b "*") || (b =b "+")
  || (b =b ",") || (b =b ";") || (b =b "=").
Definition is_pchar (b : byte) : bool := is_unreserved b || is_sub_delim b || (b =b ":") || (b =b "@").
Definition is_query_or_fragment_char (b : byte) : bool := is_pchar b || (b =b "/") || (b =b "?").

Fixpoint validate_percent_encoding (s : str) : result UriError unit :=
  match s with
  | [] => Ok tt
  | b :: s' =>
      if b =b "%" then
        match s' with
        | h :: l :: s'' =>
            if negb (is_ascii_hexdigit h) || negb (is_ascii_hexdigit l) then Err InvalidPercentEncoding
            else validate_percent_encoding s''
        | _ => Err InvalidPercentEncoding
        end
      else validate_percent_encoding s'
  end.

(** The loop of [validate_path], [validate_query] and [validate_fragment],
    which steps over the encoded bytes. *)
Fixpoint scan_component (allowed : byte -> bool) (error : byte -> UriError) (s : str) : result UriError unit :=
  match s with
  | [] => Ok tt
  | b :: s' =>
      if b =b "%" then
        match s' with _ :: _ :: s'' => scan_component allowed error s'' | _ => Ok tt end
      else if allowed b then scan_component allowed error s'
      else Err (error b)
  end.

Definition validate_path (path : str) : result UriError unit :=
  validate_percent_encoding path;;
  scan_component (fun b => is_pchar b || (b =b "/")) InvalidPathCharacter path.
Definition validate_query (query : str) : result UriError unit :=
  validate_percent_encoding query;; scan_component is_query_or_fragment_char InvalidQueryCharacter query.
Definition validate_fragment (fragment : str) : result UriError unit :=
  validate_percent_encoding fragment;; scan_component is_query_or_fragment_char InvalidFragmentCharacter fragment.

(** ** Percent-encoding *)

Definition to_hex_char (nibble : N) : byte := if nibble <=? 9 then n2b (48 + nibble) else n2b (65 + nibble - 10).

Definition encode_byte (b : byte) : str :=
  ["%"%byte; to_hex_char (N.shiftr (b2n b) 4); to_hex_char (N.land (b2n b) 15)].

(** The loop of the three encoders, which differ in what they keep. *)
Definition percent_encode_with (keep : byte -> bool) (input : str) : str :=
  concat (map (fun byte => if keep byte then [byte] else encode_byte byte) input).
Definition percent_encode : str -> str := percent_encode_with is_unreserved.
Definition percent_encode_path : str -> str := percent_encode_with (fun b => is_unreserved b || (b =b "/")).
Definition percent_encode_query : str -> str :=
  percent_encode_with (fun b => is_unreserved b || (b =b "=") || (b =b "&")).

Definition from_hex_char (c : byte) : option N :=
  if is_ascii_digit c then Some (b2n c - 48)
  else if within 65 70 c then Some (b2n c - 65 + 10)
  else if within 97 102 c then Some (b2n c - 97 + 10)
  else None.

(** [(high << 4) | low] of two hexadecimal digits. *)
Definition decode_pair (high low : byte) : result UriError byte :=
  high ← ok_or InvalidPercentEncoding (from_hex_char high);
  low ← ok_or InvalidPercentEncoding (from_hex_char low);
  Ok (n2b (N.lor (N.shiftl high 4) low)).

Fixpoint percent_decode_bytes (input : str) : result UriError bytes :=
  match input with
  | [] => Ok []
  | byte :: rest =>
      if byte =b "%" then
        match rest with
        | high :: low :: rest' =>
            b ← decode_pair high low;
            result ← percent_decode_bytes rest';
            Ok (b :: result)
        | _ => Err InvalidPercentEncoding
        end
      else result ← percent_decode_bytes rest; Ok (byte :: result)
  end.

Definition percent_decode (input : str) : result UriError str :=
  bytes ← percent_decode_bytes input;
  map_err (fun _ => InvalidUtf8) (from_utf8 bytes).

(** ** Hosts *)

Fixpoint scan_encoded (allowed : byte -> bool) (error : UriError) (s : str) : result UriError unit :=
  match s with
  | [] => Ok tt
  | b :: s' =>
      if allowed b then scan_encoded allowed error s'
      else if b =b "%" then
        match s' with
        | h :: l :: s'' =>
            if negb (is_ascii_hexdigit h) || negb (is_ascii_hexdigit l) then Err error
            else scan_encoded allowed error s''
        | _ => Err error
        end
      else Err error
  end.

Definition validate_reg_name (name : str) : result UriError unit :=
  scan_encoded (fun b => is_unreserved b || is_sub_delim b) InvalidHost name.
Definition validate_userinfo (userinfo : str) : result UriError unit :=
  scan_encoded (fun b => is_unreserved b || is_sub_delim b || (b =b ":")) InvalidUserinfo userinfo.

(** [&s[a..b]]. *)
Definition slice (a b : nat) (s : str) : str := take (b - a) (drop a s).

Definition validate_ipv_future (literal : str) : result UriError unit :=
  dot_pos ← ok_or InvalidHost (find_byte "." literal);
  if (dot_pos <=? 1)%nat then Err InvalidHost
  else if negb (forallb is_ascii_hexdigit (slice 1 dot_pos literal)) then Err InvalidHost
  else
    let after_dot := drop (dot_pos + 1) literal in
    if is_empty after_dot then Err InvalidHost
    else if negb (forallb (fun b => is_unreserved b || is_sub_delim b || (b =b ":")) after_dot) then Err InvalidHost
    else Ok tt.

Definition validate_ip_literal (literal : str) : result UriError unit :=
  match literal with
  | [] => Err InvalidHost
  | b :: _ =>
      if (b =b "v") || (b =b "V") then validate_ipv_future literal
      else match Net.parse_ipv6 literal with Some _ => Ok tt | None => Err InvalidHost end
  end.

Definition validate_host (host : str) : result UriError unit :=
  if is_empty host then Ok tt
  else if starts_with (B "[") host then
    bracket_end ← ok_or InvalidHost (find_byte "]" host);
    if negb (bracket_end =? length host - 1)%nat then Err InvalidHost
    else validate_ip_literal (slice 1 bracket_end host)
  else match Net.parse_ipv4 host with Some _ => Ok tt | None => validate_reg_name host end.

(** ** The parser *)

Definition port_of (port_str : str) : result UriError N := ok_or InvalidPort (parse_u16 port_str).

(** The end of the host in [authority], and the port. *)
Definition parse_authority (authority : str) : result UriError (nat * option N) :=
  if is_empty authority then Ok (O, None)
  else
    host_part ←
      match rfind_byte "@" authority with
      | Some at_pos => validate_userinfo (take at_pos authority);; Ok (drop (at_pos + 1) authority)
      | None => Ok authority
      end;
    if starts_with (B "[") host_part then
      match find_byte "]" host_part with
      | Some bracket_end =>
          validate_ip_literal (slice 1 bracket_end host_part);;
          let after_bracket := drop (bracket_end + 1) host_part in
          if is_empty after_bracket then Ok (length authority, None)
          else match strip_prefix (B ":") after_bracket with
               | Some port_str =>
                   port ← port_of port_str;
                   Ok ((length authority - length after_bracket)%nat, Some port)
               | None => Err InvalidHost
               end
      | None => Err InvalidHost
      end
    else
      match rfind_byte ":" host_part with
      | Some colon_pos =>
          let host_str := take colon_pos host_part in
          let port_str := drop (colon_pos + 1) host_part in
          validate_host host_str;;
          if negb (is_empty port_str) then
            port ← port_of port_str;
            let host_end := match rfind_byte "@" authority with
                            | Some at_pos => (at_pos + 1 + colon_pos)%nat
                            | None => colon_pos
                            end in
            Ok (host_end, Some port)
          else Ok (length authority, None)
      | None => validate_host host_part;; Ok (length authority, None)
      end.

Definition is_scheme_byte (b : byte) : bool :=
  is_ascii_alphanumeric b || (b =b "+") || (b =b "-") || (b =b ".").

(** The loop of [find_scheme_end], [i] bytes in. *)
Fixpoint scheme_end_from (i : nat) (bytes : bytes) : option nat :=
  match bytes with
  | [] => None
  | b :: bytes' =>
      if b =b ":" then (if (0 <? i)%nat then Some i else None)
      else if negb (is_scheme_byte b) then None
      else scheme_end_from (S i) bytes'
  end.
Definition find_scheme_end (bytes : bytes) : option nat := scheme_end_from O bytes.

Record t : Type := mkUri {
  source : str;
  scheme_end : option nat;
  authority_start : option nat;
  authority_end : option nat;
  host_end : option nat;
  port : option N;            (* u16 *)
  path_start : nat;
  path_end : nat;
  query_start : option nat;
  query_end : option nat;
  fragment_start : option nat
}.

(** [bytes[pos..].iter().position(p).map(|i| pos + i).unwrap_or(len)]. *)
Definition find_from (p : byte -> bool) (pos : nat) (bytes : bytes) : nat :=
  match position p (drop pos bytes) with Some i => (pos + i)%nat | None => length bytes end.

(** [pos < len && bytes[pos] == b]. *)
Definition byte_at (pos : nat) (b : byte) (bytes : bytes) : bool :=
  match bytes !! pos with Some c => c =b b | None => false end.

(** The scheme, and the position behind it. *)
Definition parse_scheme (bytes : bytes) : result UriError (option nat * nat) :=
  match find_scheme_end bytes with
  | Some colon_pos =>
      if negb (match bytes with b :: _ => is_ascii_alphabetic b | [] => false end) then Err InvalidScheme
      else if negb (forallb is_scheme_byte (slice 1 colon_pos bytes)) then Err InvalidScheme
      else Ok (Some colon_pos, S colon_pos)
  | None => Ok (None, O)
  end.

Definition is_authority_end (b : byte) : bool := (b =b "/") || (b =b "?") || (b =b "#").
Definition is_path_end (b : byte) : bool := (b =b "?") || (b =b "#").
Definition is_query_end (b : byte) : bool := b =b "#".

(** The authority, if one follows: where it starts and ends, where its host
    ends, its port, and the position behind it. *)
Definition parse_authority_at (pos : nat) (input : str)
    : result UriError (option nat * option nat * option nat * option N * nat) :=
  if byte_at pos "/" input && byte_at (pos + 1) "/" input then
    let pos := (pos + 2)%nat in
    let auth_start := pos in
    let auth_end := find_from is_authority_end pos input in
    let authority := slice auth_start auth_end input in
    '(h_end, p) ← parse_authority authority;
    Ok (Some auth_start, Some auth_end, Some (auth_start + h_end)%nat, p, auth_end)
  else Ok (None, None, None, None, pos).

(** The path from [pos], the query and the fragment, and their validation. *)
Definition parse_path_at (scheme_end authority_start authority_end host_end : option nat) (port : option N)
    (pos : nat) (input : str) : result UriError t :=
  let path_start := pos in
  let path_end := find_from is_path_end pos input in
  let pos := path_end in
  let '(query_start, query_end, pos) :=
    (if byte_at pos "?" input then
       let pos := (pos + 1)%nat in
       let start := pos in
       let end_ := find_from is_query_end pos input in
       (Some start, Some end_, end_)
     else (None, None, pos)) in
  let fragment_start := if byte_at pos "#" input then Some (pos + 1)%nat else None in
  validate_path (slice path_start path_end input);;
  match query_start, query_end with
  | Some start, Some end_ => validate_query (slice start end_ input)
  | _, _ => Ok tt
  end;;
  match fragment_start with Some start => validate_fragment (drop start input) | None => Ok tt end;;
  Ok (mkUri input scheme_end authority_start authority_end host_end port path_start path_end
        query_start query_end fragment_start).

Definition parse (input : str) : result UriError t :=
  if is_empty input then Err Empty
  else
    '(scheme_end, pos) ← parse_scheme input;
    '(authority_start, authority_end, host_end, port, pos) ← parse_authority_at pos input;
    parse_path_at scheme_end authority_start authority_end host_end port pos input.

Definition scheme (u : t) : option str := e ← scheme_end u; Some (take e (source u)).
Definition authority (u : t) : option str :=
  s ← authority_start u; e ← authority_end u; Some (slice s e (source u)).
Definition host (u : t) : option str :=
  s ← authority_start u; e ← host_end u;
  let auth := slice s e (source u) in
  match rfind_byte "@" auth with
  | Some at_pos => Some (drop (at_pos + 1) auth)
  | None => Some auth
  end.
Definition path (u : t) : str := slice (path_start u) (path_end u) (source u).
Definition query (u : t) : option str :=
  s ← query_start u; e ← query_end u; Some (slice s e (source u)).
Definition fragment (u : t) : option str := s ← fragment_start u; Some (drop s (source u)).
Definition as_str (u : t) : str := source u.
Definition fmt (u : t) : str := source u.

Definition origin_form (u : t) : str :=
  let path := if is_empty (path u) then B "/" else path u in
  match query u with Some query => path ++ B "?" ++ query | None => path end.

Definition is_absolute (u : t) : bool := match scheme_end u with Some _ => true | None => false end.
Definition is_relative (u : t) : bool := match scheme_end u with Some _ => false | None => true end.

(** ** Reference resolution *)

(** The loop of [remove_dot_segments]: what is left of the path, and the
    segments in [output]. *)
Fixpoint dot_segments_loop (fuel : nat) (path : str) (output : list str) : list str :=
  match fuel with
  | O => output
  | S fuel =>
      if is_empty path then output
      else if starts_with (B "../") path then dot_segments_loop fuel (drop 3 path) output
      else if starts_with (B "./") path then dot_segments_loop fuel (drop 2 path) output
      else if starts_with (B "/./") path then dot_segments_loop fuel (drop 2 path) output
      else if path =s B "/." then output ++ [B "/"]
      else if starts_with (B "/../") path then dot_segments_loop fuel (drop 3 path) (removelast output)
      else if path =s B "/.." then removelast output ++ [B "/"]
      else if (path =s B ".") || (path =s B "..") then output
      else
        let first := if starts_with (B "/") path then 1%nat else 0%nat in
        let i := (first + length (take_while (fun b => b <>b "/") (drop first path)))%nat in
        dot_segments_loop fuel (drop i path) (output ++ [take i path])
  end.

(** Each round takes at least one byte off the path. *)
Definition remove_dot_segments (path : str) : str :=
  concat (dot_segments_loop (S (length path)) path []).

Definition first_segment_contains_colon (path : str) : bool :=
  match split "/" path with first :: _ => contains_byte ":" first | [] => false end.

Definition build_uri (scheme authority : option str) (path : str) (query fragment : option str) : str :=
  match scheme with Some s => s ++ B ":" | None => [] end
  ++ match authority with
     | Some a => B "//" ++ a
     | None =>
         if starts_with (B "//") path then B "/."
         else if negb (match scheme with Some _ => true | None => false end) && first_segment_contains_colon path
         then B "./" else []
     end
  ++ path
  ++ match query with Some q => B "?" ++ q | None => [] end
  ++ match fragment with Some f => B "#" ++ f | None => [] end.

Definition merge_paths (base : t) (reference_path : str) : str :=
  if match authority base with Some _ => true | None => false end && is_empty (path base) then
    B "/" ++ reference_path
  else
    match rfind_byte "/" (path base) with
    | Some last_slash => take (S last_slash) (path base) ++ reference_path
    | None => reference_path
    end.

Definition resolve (base reference : t) : result UriError t :=
  if is_absolute reference then
    parse (build_uri (scheme reference) (authority reference) (remove_dot_segments (path reference))
             (query reference) (fragment reference))
  else match authority reference with
  | Some _ =>
      parse (build_uri (scheme base) (authority reference) (remove_dot_segments (path reference))
               (query reference) (fragment reference))
  | None =>
      if is_empty (path reference) then
        let query := match query reference with Some q => Some q | None => query base end in
        parse (build_uri (scheme base) (authority base) (path base) query (fragment reference))
      else
        let path :=
          if starts_with (B "/") (path reference) then remove_dot_segments (path reference)
          else remove_dot_segments (merge_paths base (path reference)) in
        parse (build_uri (scheme base) (authority base) path (query reference) (fragment reference))
  end.

(** ** Normalization *)

(** [result.push(byte as char)]: the UTF-8 encoding of U+0000 to U+00FF. *)
Definition byte_as_char (b : byte) : str :=
  if is_ascii b then [b] else [n2b (192 + b2n b / 64); n2b (128 + b2n b mod 64)].

Fixpoint normalize_percent_encoding (input : str) : result UriError str :=
  match input with
  | [] => Ok []
  | byte :: rest =>
      if byte =b "%" then
        match rest with
        | high :: low :: rest' =>
            decoded ← decode_pair high low;
            result ← normalize_percent_encoding rest';
            Ok ((if is_unreserved decoded then [decoded] else encode_byte decoded) ++ result)
        | _ => Err InvalidPercentEncoding
        end
      else result ← normalize_percent_encoding rest; Ok (byte_as_char byte ++ result)
  end.

Definition normalize_host_port (host_port : str) : str :=
  match (s ← strip_prefix (B "[") host_port; find_byte "]" s) with
  | Some bracket_end =>
      to_ascii_lowercase (take (S (bracket_end + 1)) host_port) ++ drop (bracket_end + 2) host_port
  | None =>
      match rfind_byte ":" host_port with
      | Some colon_pos => to_ascii_lowercase (take colon_pos host_port) ++ drop colon_pos host_port
      | None => to_ascii_lowercase host_port
      end
  end.

Definition normalize_authority (authority : str) : str :=
  match rfind_byte "@" authority with
  | Some at_pos =>
      take at_pos authority ++ B "@" ++ normalize_host_port (drop (at_pos + 1) authority)
  | None => normalize_host_port authority
  end.

(** [o.map(f).transpose()?]. *)
Definition transpose (f : str -> result UriError str) (o : option str) : result UriError (option str) :=
  match o with Some s => r ← f s; Ok (Some r) | None => Ok None end.

Definition normalize (uri : t) : result UriError t :=
  let scheme := to_ascii_lowercase <$> scheme uri in
  let authority := normalize_authority <$> authority uri in
  path ← normalize_percent_encoding (path uri);
  let path := remove_dot_segments path in
  query ← transpose normalize_percent_encoding (query uri);
  fragment ← transpose normalize_percent_encoding (fragment uri);
  parse (build_uri scheme authority path query fragment).

Definition resolved (base reference : str) : result UriError str :=
  base ← parse base; reference ← parse reference; u ← resolve base reference; Ok (as_str u).

(** The examples of RFC 3986 Section 5.4. *)
Definition rfc_base : str := B "http://a/b/c/d;p?q".
Definition rfc_examples : list (string * string) :=
  [("g:h", "g:h"); ("g", "http://a/b/c/g"); ("./g", "http://a/b/c/g"); ("g/", "http://a/b/c/g/");
   ("/g", "http://a/g"); ("//g", "http://g"); ("?y", "http://a/b/c/d;p?y"); ("g?y", "http://a/b/c/g?y");
   ("#s", "http://a/b/c/d;p?q#s"); ("g#s", "http://a/b/c/g#s"); ("g?y#s", "http://a/b/c/g?y#s");
   (";x", "http://a/b/c/;x"); ("g;x", "http://a/b/c/g;x"); ("g;x?y#s", "http://a/b/c/g;x?y#s");
   (".", "http://a/b/c/"); ("./", "http://a/b/c/"); ("..", "http://a/b/"); ("../", "http://a/b/");
   ("../g", "http://a/b/g"); ("../..", "http://a/"); ("../../", "http://a/"); ("../../g", "http://a/g");
   ("../../../g", "http://a/g"); ("../../../../g", "http://a/g"); ("/./g", "http://a/g"); ("/../g", "http://a/g");
   ("g.", "http://a/b/c/g."); (".g", "http://a/b/c/.g"); ("g..", "http://a/b/c/g.."); ("..g", "http://a/b/c/..g");
   ("./../g", "http://a/b/g"); ("./g/.", "http://a/b/c/g/"); ("g/./h", "http://a/b/c/g/h");
   ("g/../h", "http://a/b/c/h"); ("g;x=1/./y", "http://a/b/c/g;x=1/y"); ("g;x=1/../y", "http://a/b/c/y")]%string.

Example resolve_rfc_examples :
  forallb (fun '(r, e) => match resolved rfc_base (B r) with Ok s => s =s B e | Err _ => false end) rfc_examples = true.
Proof. vm_compute. reflexivity. Qed.

Example remove_dots_1 : remove_dot_segments (B "/a/b/c/./../../g") = B "/a/g". Proof. vm_compute. reflexivity. Qed.
Example host_empty_port : (u ← parse (B "http://host:/"); Ok (host u)) = Ok (Some (B "host:")).
Proof. vm_compute. reflexivity. Qed.
Example normalize_dot : (u ← parse (B "."); normalize u) = Err Empty. Proof. vm_compute. reflexivity. Qed.
End Uri.
