(* ===== verification/UriFacts.v ===== *)
(** * What URIs are split into ([src/uri.rs])

    Lemmas on the percent codec, on paths and their dot segments, and on the
    parser as the inverse of the recomposition of RFC 3986 Section 5.3. *)
From S2P Require Import Prelude RustStd Validate Host RustStr Uri.
Import Uri.

(** ** Percent-encoding *)

Lemma encode_byte_pair b : decode_pair (to_hex_char (N.shiftr (b2n b) 4)) (to_hex_char (N.land (b2n b) 15)) = Ok b.
Proof.
  assert (H : forall b, (fun b => match decode_pair (to_hex_char (N.shiftr (b2n b) 4)) (to_hex_char (N.land (b2n b) 15)) with
    | Ok c => c =b b | Err _ => false end) b = true) by (apply byte_forall; vm_compute; reflexivity).
  specialize (H b). cbn beta in H. destruct (decode_pair _ _) as [c|]; [|done]. by apply byte_eqb_eq in H as ->.
Qed.

Lemma percent_decode_encode keep s :
  keep "%"%byte = false -> percent_decode_bytes (percent_encode_with keep s) = Ok s.
Proof.
  intros Hk. unfold percent_encode_with. induction s as [|b s IH]; [done|]. cbn [map concat].
  destruct (keep b) eqn:E; cbn [app percent_decode_bytes encode_byte].
  - destruct (b =b "%") eqn:E2; [apply byte_eqb_eq in E2; congruence|]. by rewrite IH.
  - rewrite byte_eqb_refl, encode_byte_pair, IH. done.
Qed.

(** A text of these characters and of encodings with these two digits. *)
Fixpoint encoded_with (pair : byte -> byte -> bool) (allowed : byte -> bool) (s : str) : bool :=
  match s with
  | [] => true
  | b :: s' =>
      if b =b "%" then
        match s' with h :: l :: s'' => pair h l && encoded_with pair allowed s'' | _ => false end
      else allowed b && encoded_with pair allowed s'
  end.

Definition hex_pair (h l : byte) : bool := is_ascii_hexdigit h && is_ascii_hexdigit l.
Definition encoded : (byte -> bool) -> str -> bool := encoded_with hex_pair.

(** Induction that steps over the encodings. *)
Lemma encoded_ind (P : str -> Prop) :
  P [] -> P ["%"%byte] -> (forall h, P ["%"%byte; h]) -> (forall h l s, P s -> P ("%"%byte :: h :: l :: s)) ->
  (forall b s, (b =b "%") = false -> P s -> P (b :: s)) -> forall s, P s.
Proof.
  intros H0 H1 H2 H3 H4. fix IH 1. intros [|b s]; [done|]. destruct (b =b "%") eqn:E; [|by apply H4].
  apply byte_eqb_eq in E as ->. destruct s as [|h [|l s]]; [apply H1 | apply H2 | apply H3, IH].
Qed.

Lemma validate_encoded allowed error s :
  (validate_percent_encoding s;; scan_component allowed error s) = Ok tt <-> encoded allowed s = true.
Proof.
  unfold encoded. induction s as [| |h|h l s IH|b s E IH] using encoded_ind; try done.
  - cbn [validate_percent_encoding scan_component encoded_with]. rewrite byte_eqb_refl. unfold hex_pair.
    destruct (is_ascii_hexdigit h); [|done]. destruct (is_ascii_hexdigit l); [|done]. exact IH.
  - cbn [validate_percent_encoding scan_component encoded_with]. rewrite E.
    destruct (allowed b); [exact IH|]. cbn [andb]. split; [|done]. by destruct (validate_percent_encoding s).
Qed.

Definition path_byte (b : byte) : bool := is_pchar b || (b =b "/").

Lemma validate_path_iff s : validate_path s = Ok tt <-> encoded path_byte s = true.
Proof. apply (validate_encoded path_byte). Qed.

Lemma validate_query_iff s : validate_query s = Ok tt <-> encoded is_query_or_fragment_char s = true.
Proof. apply (validate_encoded is_query_or_fragment_char). Qed.

Lemma validate_fragment_iff s : validate_fragment s = Ok tt <-> encoded is_query_or_fragment_char s = true.
Proof. apply (validate_encoded is_query_or_fragment_char). Qed.

Section Encoded.
Variables (pair : byte -> byte -> bool) (allowed : byte -> bool).
Hypothesis pair_hex : forall h l, pair h l = true -> hex_pair h l = true.

Lemma encoded_app a s : encoded_with pair allowed a = true -> encoded_with pair allowed (a ++ s) = encoded_with pair allowed s.
Proof using Type.
  induction a as [| |h|h l a IH|b a E IH] using encoded_ind; try done; cbn [encoded_with app].
  - rewrite byte_eqb_refl. destruct (pair h l); [exact IH | done].
  - rewrite E. destruct (allowed b); [exact IH | done].
Qed.

Lemma encoded_concat xs : Forall (fun x => encoded_with pair allowed x = true) xs -> encoded_with pair allowed (concat xs) = true.
Proof using Type. induction 1 as [|x xs Hx _ IH]; [done|]. cbn [concat]. by rewrite encoded_app. Qed.

(** No encoding contains a byte that is not a hexadecimal digit, so such a byte
    separates what is before it from what is behind. *)
Lemma encoded_sep a c s :
  (c =b "%") = false -> is_ascii_hexdigit c = false ->
  encoded_with pair allowed (a ++ c :: s) = true -> encoded_with pair allowed a = true /\ encoded_with pair allowed s = true.
Proof using pair_hex.
  intros Hc Hx. assert (Hn : forall x y, hex_pair x y = false -> pair x y = false).
  { intros x y E. destruct (pair x y) eqn:E2; [|done]. apply pair_hex in E2. congruence. }
  induction a as [| |h|h l a IH|b a E IH] using encoded_ind; cbn [encoded_with app].
  - rewrite Hc, andb_true_iff. tauto.
  - rewrite byte_eqb_refl. destruct s as [|d s]; [done|]. rewrite Hn; [done|]. unfold hex_pair. by rewrite Hx.
  - rewrite byte_eqb_refl. rewrite Hn; [done|]. unfold hex_pair. by rewrite Hx, andb_false_r.
  - rewrite byte_eqb_refl, !andb_true_iff. tauto.
  - rewrite E, !andb_true_iff. tauto.
Qed.

Lemma encoded_bytes s : encoded_with pair allowed s = true ->
  forallb (fun b => allowed b || is_ascii_hexdigit b || (b =b "%")) s = true.
Proof using pair_hex.
  induction s as [| |h|h l s IH|b s E IH] using encoded_ind; try done; cbn [encoded_with forallb].
  - rewrite byte_eqb_refl, !andb_true_iff. intros [Hp Hs]. apply pair_hex in Hp. unfold hex_pair in Hp.
    apply andb_true_iff in Hp as [-> ->]. rewrite !orb_true_r. by rewrite IH.
  - rewrite E, !andb_true_iff. intros [-> Hs]. by rewrite IH.
Qed.

Lemma encoded_forallb s : forallb (fun b => allowed b && (b <>b "%")) s = true -> encoded_with pair allowed s = true.
Proof using Type.
  induction s as [|b s IH]; [done|]. cbn [forallb encoded_with]. rewrite !andb_true_iff, negb_true_iff. intros [[Hb E] Hs].
  rewrite E, Hb. by apply IH.
Qed.
End Encoded.

Lemma encoded_impl pair pair' p q s :
  (forall h l, pair h l = true -> pair' h l = true) -> (forall b, p b = true -> q b = true) ->
  encoded_with pair p s = true -> encoded_with pair' q s = true.
Proof.
  intros Hh Hi. induction s as [| |h|h l s IH|b s E IH] using encoded_ind; try done; cbn [encoded_with].
  - rewrite byte_eqb_refl, !andb_true_iff. intros [? ?]. auto.
  - rewrite E, !andb_true_iff. intros [Hb Hs]. auto.
Qed.

Lemma to_hex_digit b : is_ascii_hexdigit (to_hex_char (N.shiftr (b2n b) 4)) && is_ascii_hexdigit (to_hex_char (N.land (b2n b) 15)) = true.
Proof. by destruct b; vm_compute. Qed.

(** What the encoders write may stand in a component of a URI. *)
Lemma encode_encoded keep allowed s :
  (forall b, keep b = true -> allowed b = true /\ (b =b "%") = false) -> encoded allowed (percent_encode_with keep s) = true.
Proof.
  intros Hk. unfold percent_encode_with. induction s as [|b s IH]; [done|]. cbn [map concat].
  destruct (keep b) eqn:E.
  - destruct (Hk b E) as [Ha Hp]. unfold encoded in *. cbn [app encoded_with]. by rewrite Hp, Ha.
  - unfold encoded. rewrite encoded_app; [done|]. cbn [encoded_with encode_byte]. rewrite byte_eqb_refl. unfold hex_pair.
    by rewrite (to_hex_digit b).
Qed.

(** ** Dot segments *)

Definition not_slash (b : byte) : bool := b <>b "/".
Definition is_dots (seg : str) : bool := (seg =s B ".") || (seg =s B "..").

Lemma split_segment seg rest :
  forallb not_slash seg = true ->
  split "/" (seg ++ rest) = match rest with
    | [] => [seg]
    | c :: rest' => if c =b "/" then seg :: split "/" rest' else split "/" (seg ++ rest)
    end.
Proof.
  intros Hs. assert (Hc : contains_byte "/" seg = false).
  { unfold contains_byte. rewrite existsb_negb_forallb, negb_false_iff. exact Hs. }
  destruct rest as [|c rest]; [rewrite app_nil_r; by apply split_no_sep|].
  destruct (c =b "/") eqn:E; [|done]. apply byte_eqb_eq in E as ->. by apply split_app.
Qed.

(** A path up to its first slash. *)
Lemma segment_view s : exists seg rest,
  s = seg ++ rest /\ forallb not_slash seg = true /\ (rest = [] \/ exists s', rest = "/"%byte :: s') /\
  take_while (fun b => b <>b "/") s = seg.
Proof.
  exists (take_while not_slash s), (skip_while not_slash s). split_and!.
  - by rewrite take_skip_while.
  - apply take_while_forallb.
  - destruct (skip_while not_slash s) as [|c k] eqn:E; [by left|]. right. apply skip_while_head in E.
    unfold not_slash in E. apply negb_false_iff, byte_eqb_eq in E as ->. by exists k.
  - done.
Qed.

Lemma starts_with_segment w seg rest :
  forallb not_slash w = true -> forallb not_slash seg = true -> (rest = [] \/ exists s', rest = "/"%byte :: s') ->
  starts_with (w ++ B "/") (seg ++ rest) = (seg =s w) && negb (is_empty rest).
Proof.
  intros Hw Hs Hr. revert seg Hs. induction w as [|a w IH]; intros seg Hs.
  - destruct seg as [|c seg].
    + destruct Hr as [->|[s' ->]]; done.
    + cbn [forallb app] in *. apply andb_true_iff in Hs as [Hc _]. unfold starts_with. change (B "/") with ["/"%byte].
      cbn [strip_prefix]. unfold not_slash in Hc. rewrite negb_true_iff in Hc.
      destruct ("/"%byte =b c) eqn:E; [apply byte_eqb_eq in E as <-; done|]. done.
  - cbn [forallb] in Hw. apply andb_true_iff in Hw as [Ha Hw]. destruct seg as [|c seg].
    + destruct Hr as [->|[s' ->]]; [done|]. unfold starts_with. cbn [app strip_prefix].
      unfold not_slash in Ha. rewrite negb_true_iff in Ha. rewrite Ha. done.
    + cbn [forallb] in Hs. apply andb_true_iff in Hs as [Hc Hs]. specialize (IH Hw seg Hs).
      unfold starts_with in *. cbn [app strip_prefix]. destruct (a =b c) eqn:E.
      * apply byte_eqb_eq in E as ->. rewrite IH. f_equal. unfold beqs. apply bool_decide_ext. split; congruence.
      * apply byte_eqb_neq in E. symmetry. apply andb_false_iff. left. apply beqs_neq. congruence.
Qed.

Lemma eqs_segment w seg rest :
  forallb not_slash w = true -> (rest = [] \/ exists s', rest = "/"%byte :: s') ->
  (seg ++ rest =s w) = (seg =s w) && is_empty rest.
Proof.
  intros Hw [->|[s' ->]]; [by rewrite app_nil_r, andb_true_r|]. rewrite andb_false_r. apply beqs_neq. intros <-.
  rewrite forallb_app in Hw. cbn in Hw. by rewrite andb_false_r in Hw.
Qed.

(** What the segments behind a slash leave in [output]. *)
Fixpoint walk (output segs : list str) : list str :=
  match segs with
  | [] => output
  | seg :: segs' =>
      let last := match segs' with [] => true | _ => false end in
      if seg =s B "." then (if last then output ++ [B "/"] else walk output segs')
      else if seg =s B ".." then
        (if last then removelast output ++ [B "/"] else walk (removelast output) segs')
      else walk (output ++ [B "/" ++ seg]) segs'
  end.

Lemma slash_prefix p s : starts_with ("/"%byte :: p) ("/"%byte :: s) = starts_with p s.
Proof. done. Qed.

Lemma slash_eqs p s : ("/"%byte :: s =s "/"%byte :: p) = (s =s p).
Proof. unfold beqs. apply bool_decide_ext. split; congruence. Qed.

(** One round on a path that begins with a slash. *)
Lemma dot_round_slash fuel seg rest output :
  forallb not_slash seg = true -> (rest = [] \/ exists s', rest = "/"%byte :: s') ->
  dot_segments_loop (S fuel) ("/"%byte :: seg ++ rest) output =
    if seg =s B "." then (if is_empty rest then output ++ [B "/"] else dot_segments_loop fuel rest output)
    else if seg =s B ".." then
      (if is_empty rest then removelast output ++ [B "/"] else dot_segments_loop fuel rest (removelast output))
    else dot_segments_loop fuel rest (output ++ [B "/" ++ seg]).
Proof.
  intros Hs Hr. cbn [dot_segments_loop is_empty].
  change (starts_with (B "../") ("/"%byte :: seg ++ rest)) with false.
  change (starts_with (B "./") ("/"%byte :: seg ++ rest)) with false. cbv iota.
  change (B "/./") with ("/"%byte :: B "." ++ B "/"). change (B "/.") with ("/"%byte :: B ".").
  change (B "/../") with ("/"%byte :: B ".." ++ B "/"). change (B "/..") with ("/"%byte :: B "..").
  rewrite !slash_prefix, !slash_eqs, !starts_with_segment, !eqs_segment by done.
  destruct (seg =s B ".") eqn:E1.
  { apply beqs_eq in E1 as ->. destruct Hr as [->|[s' ->]]; done. }
  destruct (seg =s B "..") eqn:E2.
  { apply beqs_eq in E2 as ->. destruct Hr as [->|[s' ->]]; done. }
  cbn [andb]. assert (("/"%byte :: seg ++ rest =s B ".") = false) as -> by (by apply beqs_neq).
  assert (("/"%byte :: seg ++ rest =s B "..") = false) as -> by (by apply beqs_neq). cbn [orb].
  change (starts_with (B "/") ("/"%byte :: seg ++ rest)) with true. cbv iota zeta. change (drop 1 ("/"%byte :: seg ++ rest)) with (seg ++ rest).
  assert (take_while (fun b => b <>b "/") (seg ++ rest) = seg) as ->.
  { destruct Hr as [->|[s' ->]]; [rewrite app_nil_r|by apply take_while_app].
    clear -Hs. induction seg as [|c seg IH]; [done|]. cbn [forallb take_while] in *. apply andb_true_iff in Hs as [Hc Hs].
    unfold not_slash in Hc. rewrite Hc. by rewrite IH. }
  cbn [plus drop take]. by rewrite drop_app_length, take_app_length.
Qed.

Lemma slash_loop fuel s output :
  (length s < fuel)%nat -> dot_segments_loop fuel ("/"%byte :: s) output = walk output (split "/" s).
Proof.
  revert s output. induction fuel as [|fuel IH]; intros s output Hf; [lia|].
  destruct (segment_view s) as (seg & rest & -> & Hs & Hr & _). rewrite dot_round_slash by done.
  rewrite split_segment by done. destruct Hr as [->|[s' ->]].
  - cbn [walk is_empty]. destruct (seg =s B "."); [done|]. destruct (seg =s B ".."); [done|]. by destruct fuel.
  - rewrite byte_eqb_refl. cbn [walk is_empty]. pose proof (split_not_nil "/" s') as Hn.
    rewrite length_app in Hf. cbn [length] in Hf.
    destruct (split "/" s') as [|x xs] eqn:E; [done|]. rewrite <- E.
    destruct (seg =s B "."); [apply IH; lia|]. destruct (seg =s B ".."); apply IH; lia.
Qed.

(** The whole of [remove_dot_segments]: [./] and [../] in front are left out,
    then the segments are walked over. *)
Fixpoint relative_walk (segs : list str) : list str :=
  match segs with
  | [] => []
  | seg :: segs' =>
      if is_empty seg then walk [] segs'
      else if is_dots seg then relative_walk segs'
      else walk [seg] segs'
  end.

(** [split] of the empty path is one empty segment, and nothing is behind it. *)
Lemma relative_loop fuel p :
  (length p < fuel)%nat -> dot_segments_loop fuel p [] = relative_walk (split "/" p).
Proof.
  revert p. induction fuel as [|fuel IH]; intros p Hf; [lia|].
  destruct (segment_view p) as (seg & rest & -> & Hs & Hr & Ht). rewrite split_segment by done.
  destruct seg as [|c seg].
  { destruct Hr as [->|[s' ->]]; [done|]. cbn [app]. rewrite byte_eqb_refl. cbn [relative_walk is_empty].
    apply (slash_loop (S fuel)). cbn in Hf. lia. }
  cbn [dot_segments_loop app is_empty]. change (c :: seg ++ rest) with ((c :: seg) ++ rest).
  change (B "../") with (B ".." ++ B "/"). change (B "./") with (B "." ++ B "/").
  rewrite (starts_with_segment (B "..") (c :: seg)), (starts_with_segment (B ".") (c :: seg)) by done.
  rewrite (eqs_segment (B "..") (c :: seg)), (eqs_segment (B ".") (c :: seg)) by done.
  assert (Hc : (c =b "/") = false) by (cbn [forallb] in Hs; apply andb_true_iff in Hs as [Hs _]; by apply negb_true_iff in Hs).
  assert (Hno : forall w, starts_with ("/"%byte :: w) ((c :: seg) ++ rest) = false /\ ((c :: seg) ++ rest =s "/"%byte :: w) = false).
  { intros w. unfold starts_with. cbn [app strip_prefix]. apply byte_eqb_neq in Hc. split.
    - destruct ("/"%byte =b c) eqn:E; [apply byte_eqb_eq in E; congruence | done].
    - apply beqs_neq. congruence. }
  change (B "/./") with ("/"%byte :: B "./"). change (B "/.") with ("/"%byte :: B ".").
  change (B "/../") with ("/"%byte :: B "../"). change (B "/..") with ("/"%byte :: B "..").
  change (B "/") with ("/"%byte :: []).
  rewrite (proj1 (Hno (B "./"))), (proj1 (Hno (B "../"))), (proj2 (Hno (B "."))), (proj2 (Hno (B ".."))), (proj1 (Hno [])).
  rewrite length_app in Hf. cbn [length] in Hf. change (drop 0 ?l) with l.
  destruct Hr as [->|[s' ->]]; cbn [is_empty negb]; rewrite ?andb_false_r, ?andb_true_r; cbv iota zeta.
  - cbn [relative_walk is_empty]. unfold is_dots. destruct ((c :: seg) =s B ".") eqn:E1, ((c :: seg) =s B "..") eqn:E2; try done.
    cbn [orb]. rewrite Ht, app_nil_r. cbn [plus]. rewrite drop_all, take_ge by lia. by destruct fuel.
  - rewrite byte_eqb_refl. cbn [relative_walk is_empty]. unfold is_dots.
    destruct ((c :: seg) =s B "..") eqn:E2.
    { apply beqs_eq in E2. rewrite E2. cbn [orb app drop B String.list_byte_of_string]. apply IH. cbn in Hf. lia. }
    destruct ((c :: seg) =s B ".") eqn:E1.
    { apply beqs_eq in E1. rewrite E1. cbn [orb app drop B String.list_byte_of_string]. apply IH. cbn in Hf. lia. }
    cbn [orb]. rewrite Ht. cbn [plus]. rewrite drop_app_length, take_app_length. apply slash_loop. cbn in Hf. lia.
Qed.

Lemma remove_dot_segments_eq p : remove_dot_segments p = concat (relative_walk (split "/" p)).
Proof. unfold remove_dot_segments. by rewrite relative_loop by lia. Qed.

(** *** What is left in the output *)

Definition plain (seg : str) : Prop := forallb not_slash seg = true /\ is_dots seg = false.
Definition slash_piece (x : str) : Prop := exists seg, x = B "/" ++ seg /\ plain seg.
Definition bare_piece (x : str) : Prop := x <> [] /\ plain x.
Definition good (output : list str) : Prop :=
  match output with [] => True | x :: xs => (slash_piece x \/ bare_piece x) /\ Forall slash_piece xs end.

Lemma good_push output x : good output -> slash_piece x -> good (output ++ [x]).
Proof.
  intros Ho Hx. destruct output as [|y ys]; [by split; [left|]|]. destruct Ho as [Hy Hys]. split; [done|].
  apply Forall_app. by split; [|constructor].
Qed.

Lemma good_pop output : good output -> good (removelast output).
Proof.
  destruct output as [|y ys]; [done|]. intros [Hy Hys]. destruct ys as [|z zs]; [done|].
  change (removelast (y :: z :: zs)) with (y :: removelast (z :: zs)). split; [done|].
  rewrite (app_removelast_last []) in Hys by done. by apply Forall_app in Hys as [? _].
Qed.

Lemma slash_piece_slash : slash_piece (B "/").
Proof. by exists []. Qed.

Lemma walk_good output segs :
  good output -> Forall (fun s => forallb not_slash s = true) segs -> good (walk output segs).
Proof.
  revert output. induction segs as [|seg segs IH]; intros output Ho Hf; [done|]. apply Forall_cons_iff in Hf as [Hs Hf].
  assert (Hp : good (output ++ [B "/"])) by (apply good_push; [done | apply slash_piece_slash]).
  assert (Hp2 : good (removelast output ++ [B "/"])) by (apply good_push; [by apply good_pop | apply slash_piece_slash]).
  cbn [walk]. destruct (seg =s B ".") eqn:E1; [destruct segs; [done | by apply IH]|].
  destruct (seg =s B "..") eqn:E2; [destruct segs; [done | apply IH; [by apply good_pop | done]]|].
  apply IH; [|done]. apply good_push; [done|]. exists seg. split; [done|]. split; [done|]. unfold is_dots. by rewrite E1, E2.
Qed.

Lemma split_not_slash s : Forall (fun s => forallb not_slash s = true) (split "/" s).
Proof.
  eapply List.Forall_impl; [|apply split_pieces]. intros x Hx. cbn beta in *. unfold contains_byte in Hx.
  by rewrite existsb_negb_forallb, negb_false_iff in Hx.
Qed.

Lemma relative_walk_good segs : Forall (fun s => forallb not_slash s = true) segs -> good (relative_walk segs).
Proof.
  induction segs as [|seg segs IH]; intros Hf; [done|]. apply Forall_cons_iff in Hf as [Hs Hf]. cbn [relative_walk].
  destruct (is_empty seg) eqn:E; [by apply walk_good|]. destruct (is_dots seg) eqn:E2; [by apply IH|].
  apply walk_good; [|done]. split; [right|done]. split; [by destruct seg | done].
Qed.

Lemma slash_pieces xs : Forall slash_piece xs -> exists segs, xs = map (app (B "/")) segs /\ Forall plain segs.
Proof.
  induction 1 as [|x xs (seg & -> & Hseg) _ (segs & -> & Hsegs)]; [by exists []|]. exists (seg :: segs). by split; [|constructor].
Qed.

Lemma split_slash seg r : forallb not_slash seg = true -> split "/" (seg ++ B "/" ++ r) = seg :: split "/" r.
Proof. intros Hs. exact (split_segment seg ("/"%byte :: r) Hs). Qed.

Lemma split_slashes seg segs :
  forallb not_slash seg = true -> Forall plain segs -> split "/" (seg ++ concat (map (app (B "/")) segs)) = seg :: segs.
Proof.
  intros Hs Hf. revert seg Hs. induction Hf as [|x xs [Hx _] _ IH]; intros seg Hs; cbn [map concat].
  - rewrite app_nil_r. apply (split_no_sep "/"). unfold contains_byte. by rewrite existsb_negb_forallb, negb_false_iff.
  - rewrite <- app_assoc, split_slash by done. by rewrite (IH x Hx).
Qed.

Lemma walk_plain output segs : Forall plain segs -> walk output segs = output ++ map (app (B "/")) segs.
Proof.
  intros Hf. revert output. induction Hf as [|x xs [_ Hx] _ IH]; intros output; [by rewrite app_nil_r|].
  unfold is_dots in Hx. apply orb_false_iff in Hx as [E1 E2]. cbn [walk]. rewrite E1, E2, IH, <- app_assoc. done.
Qed.

Lemma good_fixed output :
  good output -> relative_walk (split "/" (concat output)) = output /\
  Forall (fun s => is_dots s = false) (split "/" (concat output)).
Proof.
  destruct output as [|x xs]; [intros _; split; [done | by repeat constructor]|]. intros [Hx Hxs].
  apply slash_pieces in Hxs as (segs & -> & Hf). cbn [concat].
  assert (Hd : Forall (fun s => is_dots s = false) segs) by (eapply List.Forall_impl; [|exact Hf]; by intros ? [_ ?]).
  destruct Hx as [(seg & -> & Hseg)|[Hne Hp]].
  - rewrite <- app_assoc. change (split "/" (B "/" ++ ?r)) with ([] :: split "/" r).
    rewrite split_slashes by (done || apply Hseg). cbn [relative_walk is_empty]. split.
    + by rewrite walk_plain by (by constructor).
    + by repeat (constructor; [done || apply Hseg|]).
  - rewrite split_slashes by (done || apply Hp). cbn [relative_walk].
    assert (is_empty x = false) as -> by (by destruct x). rewrite (proj2 Hp). split; [by rewrite walk_plain | by constructor; [apply Hp|]].
Qed.

Lemma remove_dots_fixed p :
  Forall (fun s => is_dots s = false) (split "/" p) -> remove_dot_segments p = p.
Proof.
  intros Hd. rewrite remove_dot_segments_eq. rewrite <- (join_split "/" p) at 2. pose proof (split_not_slash p) as Hn.
  assert (Hf : Forall plain (split "/" p)) by exact (List.Forall_and Hn Hd). clear Hd Hn.
  pose proof (split_not_nil "/" p) as Hne. destruct (split "/" p) as [|x xs]; [done|]. clear Hne.
  apply Forall_cons_iff in Hf as [Hx Hf]. assert (Hj : join ["/"%byte] (x :: xs) = x ++ concat (map (app (B "/")) xs)).
  { clear -xs. revert x. induction xs as [|y ys IH]; intros x; [by rewrite app_nil_r|]. rewrite join_cons by done. rewrite IH.
    cbn [map concat]. by rewrite <- app_assoc. }
  rewrite Hj. cbn [relative_walk]. destruct (is_empty x) eqn:E.
  - destruct x; [|done]. by rewrite walk_plain.
  - rewrite (proj2 Hx), walk_plain by done. done.
Qed.

Lemma remove_dots_clean p : Forall (fun s => is_dots s = false) (split "/" (remove_dot_segments p)).
Proof. rewrite remove_dot_segments_eq. apply good_fixed, relative_walk_good, split_not_slash. Qed.

Lemma remove_dots_idempotent p : remove_dot_segments (remove_dot_segments p) = remove_dot_segments p.
Proof. apply remove_dots_fixed, remove_dots_clean. Qed.

(** ** The parser *)

(** The five components of RFC 3986 Section 3, and their recomposition
    (Section 5.3). *)
Record components : Type := Components {
  c_scheme : option str; c_authority : option str; c_path : str; c_query : option str; c_fragment : option str
}.

Definition components_of (u : t) : components := Components (scheme u) (authority u) (path u) (query u) (fragment u).

Definition opt_pre (p : bytes) (o : option str) : str := match o with Some s => p ++ s | None => [] end.
Definition scheme_part (o : option str) : str := match o with Some s => s ++ B ":" | None => [] end.

Definition recompose (c : components) : str :=
  scheme_part (c_scheme c) ++ opt_pre (B "//") (c_authority c) ++ c_path c
  ++ opt_pre (B "?") (c_query c) ++ opt_pre (B "#") (c_fragment c).

(** Where the parts end: an authority at a slash, a question mark or a hash
    sign, a path at the last two, a query at the last. *)
Definition no_delims (delim : byte -> bool) (s : str) : bool := forallb (fun b => negb (delim b)) s.

Definition good_scheme (s : str) : bool :=
  match s with b :: _ => is_ascii_alphabetic b && forallb is_scheme_byte s | [] => false end.

(** A decomposition that is the only one of its recomposition. *)
Definition structured (c : components) : Prop :=
  recompose c <> [] /\
  match c_scheme c with Some s => good_scheme s = true | None => find_scheme_end (recompose c) = None end /\
  match c_authority c with
  | Some a => no_delims is_authority_end a = true /\ (c_path c = [] \/ starts_with (B "/") (c_path c) = true)
  | None => starts_with (B "//") (c_path c) = false
  end /\
  no_delims is_path_end (c_path c) = true /\
  match c_query c with Some q => no_delims is_query_end q = true | None => True end.

(** The components are read. *)
Definition parsed_components (c : components) : Prop :=
  match c_authority c with Some a => is_ok (parse_authority a) = true | None => True end /\
  encoded path_byte (c_path c) = true /\
  match c_query c with Some q => encoded is_query_or_fragment_char q = true | None => True end /\
  match c_fragment c with Some f => encoded is_query_or_fragment_char f = true | None => True end.

(** *** Searching from a position *)

Lemma find_from_app p a c r pre :
  forallb (fun b => negb (p b)) a = true -> p c = true -> find_from p (length pre) (pre ++ a ++ c :: r) = length (pre ++ a).
Proof.
  intros Ha Hc. unfold find_from. rewrite drop_app_length, position_app, (proj2 (position_None p a)) by done.
  cbn [position]. rewrite Hc. cbn. rewrite length_app. lia.
Qed.

Lemma find_from_end p a pre :
  forallb (fun b => negb (p b)) a = true -> find_from p (length pre) (pre ++ a) = length (pre ++ a).
Proof. intros Ha. unfold find_from. by rewrite drop_app_length, (proj2 (position_None p a)). Qed.

(** What is behind begins with a delimiter, if there is anything. *)
Definition delimited (p : byte -> bool) (r : str) : Prop := match r with c :: _ => p c = true | [] => True end.

Lemma find_from_delimited p a r pre :
  forallb (fun b => negb (p b)) a = true -> delimited p r -> find_from p (length pre) (pre ++ a ++ r) = length (pre ++ a).
Proof.
  intros Ha Hr. destruct r as [|c r]; [rewrite app_nil_r; by apply find_from_end | by apply find_from_app].
Qed.

Lemma byte_at_app pre b r : byte_at (length pre) b (pre ++ r) = match r with c :: _ => c =b b | [] => false end.
Proof. unfold byte_at. rewrite lookup_app_r by lia. rewrite Nat.sub_diag. by destruct r. Qed.

Lemma slice_app pre a r : slice (length pre) (length (pre ++ a)) (pre ++ a ++ r) = a.
Proof.
  unfold slice. rewrite drop_app_length, length_app. replace (length pre + length a - length pre)%nat with (length a) by lia.
  apply take_app_length.
Qed.

Lemma scheme_end_app i a r :
  forallb is_scheme_byte a = true ->
  scheme_end_from i (a ++ ":"%byte :: r) = if (0 <? i + length a)%nat then Some (i + length a)%nat else None.
Proof.
  revert i. induction a as [|b a IH]; intros i; cbn [app scheme_end_from forallb length].
  - intros _. rewrite byte_eqb_refl. by rewrite Nat.add_0_r.
  - intros [Hb Ha]%andb_true_iff. rewrite Hb. cbn [negb]. assert ((b =b ":") = false) as ->.
    { revert Hb. byte_solve b. }
    rewrite IH by done. by replace (S i + length a)%nat with (i + S (length a))%nat by lia.
Qed.

Lemma scheme_end_Some i s n :
  scheme_end_from i s = Some n -> exists a r, s = a ++ ":"%byte :: r /\ forallb is_scheme_byte a = true /\ n = (i + length a)%nat /\ (0 < n)%nat.
Proof.
  revert i. induction s as [|b s IH]; intros i; [done|]. cbn [scheme_end_from].
  destruct (b =b ":") eqn:E.
  - apply byte_eqb_eq in E as ->. destruct (0 <? i)%nat eqn:Hi; [|done]. intros [= <-]. exists [], s. split_and!; [done | done | cbn; lia | lia].
  - destruct (is_scheme_byte b) eqn:Hb; [|done]. cbn [negb]. intros (a & r & -> & Ha & -> & Hn)%IH.
    exists (b :: a), r. cbn [forallb length app]. rewrite Hb, Ha. split_and!; [done | done | lia | lia].
Qed.

(** *** The stages of the parser *)

Lemma parse_scheme_part sch r :
  match sch with Some s => good_scheme s = true | None => find_scheme_end r = None end ->
  parse_scheme (scheme_part sch ++ r) = Ok (length <$> sch, length (scheme_part sch)).
Proof.
  intros Hs. unfold parse_scheme, find_scheme_end in *. destruct sch as [s|]; [|cbn [scheme_part app]; by rewrite Hs].
  destruct s as [|b s]; [done|]. unfold good_scheme in Hs. apply andb_true_iff in Hs as [Hb Hs].
  cbn [scheme_part]. rewrite <- app_assoc. cbn [app]. change (b :: s ++ B ":" ++ r) with ((b :: s) ++ ":"%byte :: r).
  rewrite scheme_end_app by done. cbn [plus length Nat.ltb Nat.leb]. cbn [app]. rewrite Hb. cbn [negb].
  change (b :: s ++ ":"%byte :: r) with ([b] ++ s ++ ":"%byte :: r).
  change (S (length s)) with (length ([b] ++ s)) at 1. change 1%nat with (length [b]) at 1. rewrite slice_app.
  cbn [forallb] in Hs. apply andb_true_iff in Hs as [_ Hs]. rewrite Hs. cbn. rewrite length_app. cbn. by rewrite Nat.add_1_r.
Qed.

(** The record that [parse] makes of these components. *)
Definition uri_of (c : components) (ap : nat * option N) : t :=
  let p0 := length (scheme_part (c_scheme c)) in
  let has_auth := match c_authority c with Some _ => true | None => false end in
  let p1 := (p0 + length (opt_pre (B "//") (c_authority c)))%nat in
  let p2 := (p1 + length (c_path c))%nat in
  let p3 := (p2 + length (opt_pre (B "?") (c_query c)))%nat in
  mkUri (recompose c) (length <$> c_scheme c)
    (if has_auth then Some (p0 + 2)%nat else None) (if has_auth then Some p1 else None)
    (if has_auth then Some (p0 + 2 + fst ap)%nat else None) (if has_auth then snd ap else None)
    p1 p2 (match c_query c with Some _ => Some (p2 + 1)%nat | None => None end)
    (match c_query c with Some _ => Some p3 | None => None end)
    (match c_fragment c with Some _ => Some (p3 + 1)%nat | None => None end).

(** *** [parse] with the positions worked out *)

Section ParseTail.
Variables (src pre p : str) (q f : option str).
Hypothesis Hsrc : src = pre ++ p ++ opt_pre (B "?") q ++ opt_pre (B "#") f.
Hypothesis Hp : no_delims is_path_end p = true.
Hypothesis Hq : match q with Some q => no_delims is_query_end q = true | None => True end.

Lemma tail_path : find_from is_path_end (length pre) src = length (pre ++ p) /\ slice (length pre) (length (pre ++ p)) src = p.
Proof. rewrite Hsrc. rewrite find_from_delimited, slice_app; [done | done|]. by destruct q, f. Qed.

Lemma tail_question : byte_at (length (pre ++ p)) "?" src = match q with Some _ => true | None => false end.
Proof. rewrite Hsrc, app_assoc, byte_at_app. by destruct q, f. Qed.

Let p2 : str := pre ++ p.
Let p3 : str := p2 ++ opt_pre (B "?") q.

Lemma tail_query q' : q = Some q' ->
  find_from is_query_end (length p2 + 1) src = length p3 /\ slice (length p2 + 1) (length p3) src = q'.
Proof.
  intros ->. assert (Hs : src = (p2 ++ B "?") ++ q' ++ opt_pre (B "#") f).
  { rewrite Hsrc. unfold p2. cbn [opt_pre]. by rewrite <- !app_assoc. }
  replace (length p2 + 1)%nat with (length (p2 ++ B "?")) by (rewrite length_app; done).
  assert (p3 = (p2 ++ B "?") ++ q') as -> by (unfold p3; cbn [opt_pre]; by rewrite <- app_assoc).
  rewrite Hs, find_from_delimited, slice_app; [done | done|]. by destruct f.
Qed.

Lemma tail_hash : byte_at (length p3) "#" src = match f with Some _ => true | None => false end.
Proof.
  assert (Hs : src = p3 ++ opt_pre (B "#") f) by (rewrite Hsrc; unfold p3, p2; by rewrite <- !app_assoc).
  rewrite Hs, byte_at_app. by destruct f.
Qed.

Lemma tail_fragment f' : f = Some f' -> drop (length p3 + 1) src = f'.
Proof.
  intros ->. assert (Hs : src = (p3 ++ B "#") ++ f').
  { rewrite Hsrc. unfold p3, p2. cbn [opt_pre]. by rewrite <- !app_assoc. }
  replace (length p3 + 1)%nat with (length (p3 ++ B "#")) by (rewrite length_app; done).
  rewrite Hs. apply drop_app_length.
Qed.
End ParseTail.

Lemma parse_path_at_eq pre p q f se as_ ae he po :
  no_delims is_path_end p = true -> match q with Some q => no_delims is_query_end q = true | None => True end ->
  let src := pre ++ p ++ opt_pre (B "?") q ++ opt_pre (B "#") f in
  let p2 := pre ++ p in
  let p3 := p2 ++ opt_pre (B "?") q in
  parse_path_at se as_ ae he po (length pre) src =
    (validate_path p;;
     match q with Some q => validate_query q | None => Ok tt end;;
     match f with Some f => validate_fragment f | None => Ok tt end;;
     Ok (mkUri src se as_ ae he po (length pre) (length p2)
           (match q with Some _ => Some (length p2 + 1)%nat | None => None end)
           (match q with Some _ => Some (length p3) | None => None end)
           (match f with Some _ => Some (length p3 + 1)%nat | None => None end))).
Proof.
  intros Hp Hq src p2 p3. unfold parse_path_at. cbv zeta.
  destruct (tail_path src pre p q f eq_refl Hp Hq) as [H1 H2]. 
  pose proof (tail_question src pre p q f eq_refl Hq) as H0. pose proof (tail_hash src pre p q f eq_refl) as H3. pose proof (tail_query src pre p q f eq_refl Hq) as H4.
  pose proof (tail_fragment src pre p q f eq_refl) as H5. fold p2 in H0, H1, H2, H3, H4, H5 |- *. fold p3 in H3, H4, H5.
  clearbody src. rewrite H1, H0. destruct q as [q'|].
  - destruct (H4 q' eq_refl) as [-> H7]. rewrite H2, H3, H7. destruct f as [f'|]; [|done]. by rewrite (H5 f' eq_refl).
  - assert (p3 = p2) as E by apply app_nil_r. clearbody p3. subst p3. rewrite H2, H3. destruct f as [f'|]; [|done]. by rewrite (H5 f' eq_refl).
Qed.

Lemma parse_authority_at_eq pre auth r :
  match auth with Some a => no_delims is_authority_end a = true /\ delimited is_authority_end r
  | None => starts_with (B "//") r = false end ->
  parse_authority_at (length pre) (pre ++ opt_pre (B "//") auth ++ r) =
    match auth with
    | Some a =>
        '(h, p) ← parse_authority a;
        Ok (Some (length pre + 2)%nat, Some (length (pre ++ B "//" ++ a)), Some (length pre + 2 + h)%nat, p,
            length (pre ++ B "//" ++ a))
    | None => Ok (None, None, None, None, length pre)
    end.
Proof.
  intros Ha. unfold parse_authority_at. destruct auth as [a|]; cbn [opt_pre].
  - destruct Ha as [Ha Hr]. rewrite byte_at_app. cbn [app]. change (B "//" ++ a) with ("/"%byte :: "/"%byte :: a). cbn [app].
    change (pre ++ "/"%byte :: "/"%byte :: a ++ r) with (pre ++ B "/" ++ "/"%byte :: a ++ r).
    replace (length pre + 1)%nat with (length (pre ++ B "/")) by (rewrite length_app; done).
    rewrite app_assoc, byte_at_app, byte_eqb_refl. cbn [andb]. cbv zeta.
    replace (length pre + 2)%nat with (length (pre ++ B "//")) by (rewrite length_app; done).
    replace ((pre ++ B "/") ++ "/"%byte :: a ++ r) with ((pre ++ B "//") ++ a ++ r) by (by rewrite <- !app_assoc).
    rewrite find_from_delimited, slice_app by done. by rewrite <- app_assoc.
  - cbn [app]. replace (byte_at (length pre) "/" (pre ++ r) && byte_at (length pre + 1) "/" (pre ++ r)) with false; [done|].
    symmetry. rewrite byte_at_app. destruct r as [|c r]; [done|]. destruct (c =b "/") eqn:E; [|done]. apply byte_eqb_eq in E as ->.
    cbn [andb]. change (pre ++ "/"%byte :: r) with (pre ++ ["/"%byte] ++ r). rewrite app_assoc.
    replace (length pre + 1)%nat with (length (pre ++ ["/"%byte])) by (rewrite length_app; done). rewrite byte_at_app.
    destruct r as [|d r]; [done|]. destruct (d =b "/") eqn:E; [|done]. apply byte_eqb_eq in E as ->. done.
Qed.

Lemma starts_slash c p : starts_with (B "/") (c :: p) = (c =b "/").
Proof. by destruct c. Qed.

Lemma starts_slashes c d p : starts_with (B "//") (c :: d :: p) = (c =b "/") && (d =b "/").
Proof. destruct (c =b "/") eqn:E; [apply byte_eqb_eq in E as ->; apply (starts_slash d p) | by destruct c]. Qed.

Lemma parse_recompose c :
  structured c ->
  parse (recompose c) =
    ap ← match c_authority c with Some a => parse_authority a | None => Ok (O, None) end;
    validate_path (c_path c);;
    match c_query c with Some q => validate_query q | None => Ok tt end;;
    match c_fragment c with Some f => validate_fragment f | None => Ok tt end;;
    Ok (uri_of c ap).
Proof.
  intros (Hne & Hs & Ha & Hp & Hq). unfold parse.
  assert (is_empty (recompose c) = false) as -> by (by destruct (recompose c)).
  assert (parse_scheme (recompose c) = Ok (length <$> c_scheme c, length (scheme_part (c_scheme c)))) as ->.
  { unfold recompose in *. apply parse_scheme_part. by destruct (c_scheme c). }
  destruct c as [sch auth p q f]. unfold uri_of, recompose. cbn [c_scheme c_authority c_path c_query c_fragment] in *.
  cbn [mbind result_bind]. set (tail := opt_pre (B "?") q ++ opt_pre (B "#") f).
  rewrite parse_authority_at_eq.
  2:{ destruct auth as [a|].
      - destruct Ha as [Ha Hs']. split; [done|]. destruct Hs' as [->|Hs']; [by destruct q, f|].
        destruct p as [|c p]; [done|]. rewrite starts_slash in Hs'. cbn. unfold is_authority_end. by rewrite Hs'.
      - destruct p as [|c1 [|c2 p]]; [by destruct q, f| |cbn [app]; by rewrite starts_slashes in Ha |- *].
        destruct q as [q|], f as [f|]; cbn [opt_pre app tail]; try (by destruct c1);
          cbn [app B String.list_byte_of_string]; rewrite starts_slashes; apply andb_false_r. }
  assert (Hset : forall pre, pre ++ p ++ tail = pre ++ p ++ opt_pre (B "?") q ++ opt_pre (B "#") f) by done.
  destruct auth as [a|]; cbn [opt_pre].
  - destruct (parse_authority a) as [[h po]|e]; [|done]. cbn [mbind result_bind fst snd].
    assert (He : scheme_part sch ++ (B "//" ++ a) ++ p ++ tail = (scheme_part sch ++ B "//" ++ a) ++ p ++ tail) by (by rewrite !app_assoc).
    rewrite He. unfold tail. rewrite parse_path_at_eq by done. rewrite !length_app, !Nat.add_assoc. done.
  - cbn [mbind result_bind app]. unfold tail. rewrite parse_path_at_eq by done. rewrite !length_app, !Nat.add_0_r. done.
Qed.

Lemma uri_of_components c ap : structured c -> components_of (uri_of c ap) = c.
Proof.
  intros (_ & Hs & _). destruct c as [sch auth p q f]. unfold components_of, uri_of, scheme, authority, path, query, fragment, recompose.
  cbn [c_scheme c_authority c_path c_query c_fragment source scheme_end authority_start authority_end path_start path_end query_start query_end fragment_start] in *.
  set (pre := scheme_part sch). set (o := opt_pre (B "//") auth). set (x := opt_pre (B "?") q). set (y := opt_pre (B "#") f).
  f_equal.
  - destruct sch as [s|]; [|done]. cbn. f_equal. unfold pre. cbn [scheme_part]. rewrite <- app_assoc. apply take_app_length.
  - unfold o. destruct auth as [a|]; [|done]. cbn [mbind option_bind opt_pre]. f_equal.
    replace (length pre + 2)%nat with (length (pre ++ B "//")) by (rewrite length_app; done).
    replace (length pre + length (B "//" ++ a))%nat with (length ((pre ++ B "//") ++ a)) by (rewrite !length_app; lia).
    replace (pre ++ (B "//" ++ a) ++ p ++ x ++ y) with ((pre ++ B "//") ++ a ++ p ++ x ++ y) by (by rewrite <- !app_assoc).
    apply slice_app.
  - rewrite <- length_app. rewrite <- (length_app (pre ++ o) p). rewrite app_assoc. apply slice_app.
  - unfold x. destruct q as [q'|]; [|done]. cbn [mbind option_bind opt_pre]. f_equal.
    replace (length pre + length o + length p + 1)%nat with (length (pre ++ o ++ p ++ B "?")) by (rewrite !length_app; cbn; lia).
    replace (length pre + length o + length p + length (B "?" ++ q'))%nat with (length ((pre ++ o ++ p ++ B "?") ++ q')) by (rewrite !length_app; lia).
    replace (pre ++ o ++ p ++ (B "?" ++ q') ++ y) with ((pre ++ o ++ p ++ B "?") ++ q' ++ y) by (by rewrite <- !app_assoc).
    apply slice_app.
  - unfold y. destruct f as [f'|]; [|done]. cbn [mbind option_bind opt_pre]. f_equal.
    replace (length pre + length o + length p + length x + 1)%nat with (length (pre ++ o ++ p ++ x ++ B "#")) by (rewrite !length_app; cbn; lia).
    replace (pre ++ o ++ p ++ x ++ B "#" ++ f') with ((pre ++ o ++ p ++ x ++ B "#") ++ f') by (by rewrite <- !app_assoc).
    apply drop_app_length.
Qed.

(** *** Every text has a decomposition *)

Lemma skip_delimited (p : byte -> bool) s : delimited p (skip_while (fun b => negb (p b)) s).
Proof.
  destruct (skip_while _ s) as [|c k] eqn:E; [done|]. apply skip_while_head in E. by apply negb_false_iff in E.
Qed.

Definition until (p : byte -> bool) (s : str) : str := take_while (fun b => negb (p b)) s.
Definition from (p : byte -> bool) (s : str) : str := skip_while (fun b => negb (p b)) s.

Lemma until_from p s : s = until p s ++ from p s.
Proof. symmetry. apply take_skip_while. Qed.

(** A part behind its mark, and what is left. *)
Lemma cut_mark (m : byte) (s : str) : delimited (fun b => b =b m) s -> exists o, s = opt_pre [m] o.
Proof. destruct s as [|c s]; [by exists None|]. intros E%byte_eqb_eq. subst c. by exists (Some s). Qed.

Lemma split_tail s : exists p q f,
  s = p ++ opt_pre (B "?") q ++ opt_pre (B "#") f /\ no_delims is_path_end p = true /\
  match q with Some q => no_delims is_query_end q = true | None => True end.
Proof.
  rewrite (until_from is_path_end s). pose proof (skip_delimited is_path_end s) as Hd. fold (from is_path_end s) in Hd.
  assert (Hp : no_delims is_path_end (until is_path_end s) = true) by apply take_while_forallb.
  destruct (from is_path_end s) as [|c r]; [by exists (until is_path_end s), None, None; rewrite !app_nil_r|].
  cbn in Hd. unfold is_path_end in Hd. destruct (c =b "?") eqn:E.
  - apply byte_eqb_eq in E as ->. rewrite (until_from is_query_end r).
    destruct (cut_mark "#" (from is_query_end r)) as [f ->]; [apply (skip_delimited is_query_end)|].
    exists (until is_path_end s), (Some (until is_query_end r)), f. split_and!; [done | done | apply take_while_forallb].
  - apply byte_eqb_eq in Hd as ->. by exists (until is_path_end s), None, (Some r).
Qed.

Lemma starts_slashes_inv s : starts_with (B "//") s = true -> exists r, s = B "//" ++ r.
Proof.
  unfold starts_with. destruct (strip_prefix _ _) as [r|] eqn:E; [|done]. apply strip_prefix_Some in E. by exists r.
Qed.

Lemma split_authority s : exists o r, s = opt_pre (B "//") o ++ r /\
  match o with Some a => no_delims is_authority_end a = true /\ delimited is_authority_end r | None => starts_with (B "//") r = false end.
Proof.
  destruct (starts_with (B "//") s) eqn:E; [|by exists None, s].
  apply starts_slashes_inv in E as [r ->]. exists (Some (until is_authority_end r)), (from is_authority_end r). cbn [opt_pre].
  rewrite <- app_assoc, <- until_from. split_and!; [done | apply take_while_forallb | apply skip_delimited].
Qed.

Lemma no_slashes_path p q f :
  starts_with (B "//") (p ++ opt_pre (B "?") q ++ opt_pre (B "#") f) = false -> starts_with (B "//") p = false.
Proof. destruct p as [|c [|d p]]; [done | by destruct c|]. cbn [app]. by rewrite !starts_slashes. Qed.

Lemma parse_decomposes s u : parse s = Ok u -> exists c, structured c /\ recompose c = s.
Proof.
  intros H. assert (Hne : s <> []) by (by intros ->).
  assert (Hs : exists sch r, s = scheme_part sch ++ r /\
    match sch with Some sc => good_scheme sc = true | None => find_scheme_end s = None end).
  { unfold parse, parse_scheme in H. destruct (is_empty s); [done|]. destruct (find_scheme_end s) as [n|] eqn:E.
    - apply scheme_end_Some in E as (a & r & -> & Ha & -> & Hn). destruct a as [|b a]; [cbn in Hn; lia|].
      exists (Some (b :: a)), r. split; [by cbn [scheme_part]; rewrite <- app_assoc|]. cbn [app] in H. unfold good_scheme.
      rewrite Ha. by destruct (is_ascii_alphabetic b).
    - by exists None, s. }
  destruct Hs as (sch & r & Hs & Hsch). destruct (split_authority r) as (auth & r2 & -> & Hauth).
  destruct (split_tail r2) as (p & q & f & -> & Hp & Hq). exists (Components sch auth p q f).
  assert (Hr : recompose (Components sch auth p q f) = s) by (by rewrite Hs). split; [|done].
  unfold structured. rewrite Hr. cbn [c_scheme c_authority c_path c_query c_fragment]. split_and!; try done.
  destruct auth as [a|]; [|by eapply no_slashes_path]. destruct Hauth as [Ha Hd]. split; [done|].
  destruct p as [|c p]; [by left|right]. rewrite starts_slash. cbn in Hd.
  unfold no_delims in Hp. cbn [forallb] in Hp. unfold is_authority_end in Hd. unfold is_path_end in Hp.
  destruct (c =b "/"); [done|]. cbn [orb] in Hd. by rewrite Hd in Hp.
Qed.

(** What [parse] returns for the recomposition of components that it can be
    the recomposition of. *)
Lemma parse_components c u :
  structured c -> parse (recompose c) = Ok u -> components_of u = c /\ parsed_components c /\
  match c_authority c with Some a => exists h, parse_authority a = Ok (h, port u) | None => port u = None end.
Proof.
  intros Hc. rewrite parse_recompose by done. pose proof (uri_of_components c) as Hu. unfold parsed_components.
  destruct c as [sch auth p q f]. cbn [c_scheme c_authority c_path c_query c_fragment] in *.
  destruct (match auth with Some a => parse_authority a | None => Ok (O, None) end) as [ap|] eqn:Ea; [|done].
  destruct (validate_path p) as [[]|] eqn:Ep; [|done]. cbn [mbind result_bind].
  destruct (match q with Some q => validate_query q | None => Ok tt end) as [[]|] eqn:Eq; [|done].
  destruct (match f with Some f => validate_fragment f | None => Ok tt end) as [[]|] eqn:Ef; [|done].
  cbn [mbind result_bind]. intros [= <-]. split; [by apply Hu|]. split.
  - split_and!; [by destruct auth; [rewrite Ea|] | by apply validate_path_iff | |].
    + destruct q; [by apply validate_query_iff | done].
    + destruct f; [by apply validate_fragment_iff | done].
  - destruct auth as [a|]; [|done]. cbn. destruct ap as [h po]. by exists h.
Qed.

Lemma parse_read_components c : structured c -> parsed_components c -> exists u, parse (recompose c) = Ok u.
Proof.
  intros Hc (Ha & Hp & Hq & Hf). rewrite parse_recompose by done.
  destruct c as [sch auth p q f]. cbn [c_scheme c_authority c_path c_query c_fragment] in *.
  apply validate_path_iff in Hp. rewrite Hp. destruct auth as [a|].
  - destruct (parse_authority a) as [ap|]; [|done]. cbn [mbind result_bind].
    destruct q as [q|]; [apply validate_query_iff in Hq; rewrite Hq|]; (destruct f as [f|]; [apply validate_fragment_iff in Hf; rewrite Hf|]); by eexists.
  - cbn [mbind result_bind].
    destruct q as [q|]; [apply validate_query_iff in Hq; rewrite Hq|]; (destruct f as [f|]; [apply validate_fragment_iff in Hf; rewrite Hf|]); by eexists.
Qed.

Lemma parse_inv s u : parse s = Ok u ->
  structured (components_of u) /\ parsed_components (components_of u) /\ recompose (components_of u) = s.
Proof.
  intros H. destruct (parse_decomposes s u H) as (c & Hc & <-). by destruct (parse_components c u Hc H) as (-> & Hv & _).
Qed.

(** ** Rebuilding a URI *)

(** The path that [build_uri] writes. *)
Definition rebuilt_path (sch auth : option str) (p : str) : str :=
  match auth with
  | Some _ => p
  | None =>
      if starts_with (B "//") p then B "/." ++ p
      else match sch with
           | None => if first_segment_contains_colon p then B "./" ++ p else p
           | Some _ => p
           end
  end.

Definition rebuilt (c : components) : components :=
  Components (c_scheme c) (c_authority c) (rebuilt_path (c_scheme c) (c_authority c) (c_path c)) (c_query c) (c_fragment c).

Lemma build_uri_eq c :
  build_uri (c_scheme c) (c_authority c) (c_path c) (c_query c) (c_fragment c) = recompose (rebuilt c).
Proof.
  destruct c as [sch auth p q f]. unfold build_uri, recompose, rebuilt, rebuilt_path.
  cbn [c_scheme c_authority c_path c_query c_fragment]. unfold scheme_part, opt_pre. f_equal.
  destruct auth as [a|]; [by rewrite <- ?app_assoc|]. destruct (starts_with (B "//") p); [by rewrite <- app_assoc|].
  destruct sch; [done|]. cbn [negb andb]. destruct (first_segment_contains_colon p); by rewrite <- ?app_assoc.
Qed.

Lemma colon_free_scheme p r : contains_byte ":" (hd [] (split "/" p)) = false -> delimited is_path_end r -> find_scheme_end (p ++ r) = None.
Proof.
  intros Hp Hr. unfold find_scheme_end. generalize O. revert Hp. induction p as [|b p IH]; intros Hp i.
  - destruct r as [|c r]; [done|]. cbn in Hr. cbn [app scheme_end_from].
    assert ((c =b ":") = false) as -> by (revert Hr; clear; byte_solve c).
    assert (is_scheme_byte c = false) as -> by (revert Hr; clear; byte_solve c). done.
  - cbn [app scheme_end_from]. cbn [split] in Hp. destruct (b =b "/") eqn:E; [by apply byte_eqb_eq in E as ->|].
    pose proof (split_not_nil "/" p) as Hn. destruct (split "/" p) as [|x xs]; [done|]. cbn in Hp. destruct (b =b ":"); [done|].
    destruct (is_scheme_byte b); [|done]. cbn [negb]. by apply IH.
Qed.

Definition well_made (c : components) : Prop :=
  match c_scheme c with Some s => good_scheme s = true | None => True end /\
  match c_authority c with
  | Some a => no_delims is_authority_end a = true /\ (c_path c = [] \/ starts_with (B "/") (c_path c) = true)
  | None => True
  end /\
  encoded path_byte (c_path c) = true /\
  match c_query c with Some q => encoded is_query_or_fragment_char q = true | None => True end /\
  match c_fragment c with Some f => encoded is_query_or_fragment_char f = true | None => True end.

Lemma path_no_delims p : encoded path_byte p = true -> no_delims is_path_end p = true.
Proof.
  intros H%encoded_bytes; [|done]. revert H. apply forallb_impl. intros b. byte_solve b.
Qed.

Lemma query_no_delims q : encoded is_query_or_fragment_char q = true -> no_delims is_query_end q = true.
Proof.
  intros H%encoded_bytes; [|done]. revert H. apply forallb_impl. intros b. byte_solve b.
Qed.

Lemma rebuilt_encoded c : well_made c -> encoded path_byte (c_path (rebuilt c)) = true.
Proof.
  intros (_ & _ & Hp & _). unfold rebuilt, rebuilt_path. cbn [c_path]. destruct (c_authority c); [done|].
  destruct (starts_with _ _); [exact Hp|]. destruct (c_scheme c); [done|]. by destruct (first_segment_contains_colon _).
Qed.

(** What is rebuilt from well-made components can only be taken apart again in
    one way. *)
Lemma rebuilt_structured c : well_made c -> recompose (rebuilt c) <> [] -> structured (rebuilt c).
Proof.
  intros Hw Hne. pose proof (rebuilt_encoded c Hw) as He. destruct Hw as (Hs & Ha & Hp & Hq & Hf).
  split_and!; [done| | |by apply path_no_delims|].
  - destruct c as [sch auth p q f]. cbn [rebuilt c_scheme c_authority c_path c_query c_fragment] in *.
    destruct sch as [s|]; [done|]. unfold recompose. cbn [rebuilt c_scheme c_authority c_path c_query c_fragment scheme_part].
    destruct auth as [a|]; [done|]. cbn [app opt_pre rebuilt_path].
    destruct (starts_with (B "//") p); [done|]. destruct (first_segment_contains_colon p) eqn:E; [done|].
    apply colon_free_scheme; [|by destruct q, f]. unfold first_segment_contains_colon in E. by destruct (split "/" p).
  - destruct c as [sch auth p q f]. cbn [rebuilt c_scheme c_authority c_path c_query c_fragment] in *.
    destruct auth as [a|]; [done|]. unfold rebuilt_path. destruct (starts_with (B "//") p) eqn:E; [done|].
    destruct sch; [done|]. by destruct (first_segment_contains_colon p).
  - cbn [rebuilt c_query]. destruct (c_query c); [by apply query_no_delims | done].
Qed.

(** ** Removing dot segments keeps a path well formed *)

Section RemoveDots.
Variables (pair : byte -> byte -> bool).
Hypothesis pair_hex : forall h l, pair h l = true -> hex_pair h l = true.

Lemma split_encoded s :
  encoded_with pair path_byte s = true -> Forall (fun x => encoded_with pair path_byte x = true) (split "/" s).
Proof.
  induction s as [s IH] using (induction_ltof1 _ (@length byte)); unfold ltof in IH. intros He.
  destruct (segment_view s) as (seg & rest & -> & Hs & Hr & _). rewrite split_segment by done.
  destruct Hr as [->|[s' ->]]; [rewrite app_nil_r in He; by constructor|]. rewrite byte_eqb_refl.
  apply encoded_sep in He as [H1 H2]; [|done|done|done]. constructor; [done|]. apply IH; [|done]. rewrite length_app. cbn. lia.
Qed.

Lemma removelast_Forall {A} (P : A -> Prop) l : Forall P l -> Forall P (removelast l).
Proof.
  intros Hl. destruct l as [|x l]; [done|]. rewrite (app_removelast_last x) in Hl by done. by apply Forall_app in Hl as [? _].
Qed.

Lemma walk_encoded output segs :
  Forall (fun x => encoded_with pair path_byte x = true) output ->
  Forall (fun x => encoded_with pair path_byte x = true) segs ->
  Forall (fun x => encoded_with pair path_byte x = true) (walk output segs).
Proof.
  revert output. induction segs as [|seg segs IH]; intros output Ho Hf; [done|]. apply Forall_cons_iff in Hf as [Hs Hf].
  pose proof (removelast_Forall _ _ Ho). assert (forall o, Forall (fun x => encoded_with pair path_byte x = true) o ->
    Forall (fun x => encoded_with pair path_byte x = true) (o ++ [B "/"])) by (intros o ?; apply Forall_app; by repeat constructor).
  cbn [walk]. destruct (seg =s B "."); [destruct segs; auto|]. destruct (seg =s B ".."); [destruct segs; auto|].
  apply IH; [|done]. apply Forall_app. split; [done|]. by repeat constructor.
Qed.

Lemma remove_dots_encoded p : encoded_with pair path_byte p = true -> encoded_with pair path_byte (remove_dot_segments p) = true.
Proof.
  intros Hp%split_encoded. rewrite remove_dot_segments_eq. apply encoded_concat. revert Hp.
  induction (split "/" p) as [|seg segs IH]; [done|]. intros [Hs Hf]%Forall_cons_iff. cbn [relative_walk].
  destruct (is_empty seg); [by apply walk_encoded|]. destruct (is_dots seg); [by apply IH|]. apply walk_encoded; [by constructor | done].
Qed.
End RemoveDots.

Lemma walk_not_nil output segs : segs <> [] -> walk output segs <> [].
Proof.
  revert output. induction segs as [|seg segs IH]; intros output Hne; [done|]. cbn [walk].
  assert (Hn : forall o, o ++ [B "/"] <> []) by (by intros [|]).
  destruct (seg =s B "."); [destruct segs; [apply Hn | by apply IH]|].
  destruct (seg =s B ".."); [destruct segs; [apply Hn | by apply IH]|].
  destruct segs as [|y ys]; [cbn; by destruct output | by apply IH].
Qed.

Lemma walk_slash output segs :
  Forall slash_piece output -> Forall (fun s => forallb not_slash s = true) segs -> Forall slash_piece (walk output segs).
Proof.
  revert output. induction segs as [|seg segs IH]; intros output Ho Hf; [done|]. apply Forall_cons_iff in Hf as [Hs Hf].
  pose proof (removelast_Forall _ _ Ho).
  assert (Hp : forall o x, Forall slash_piece o -> slash_piece x -> Forall slash_piece (o ++ [x])) by (intros o x ? ?; apply Forall_app; by repeat constructor).
  pose proof slash_piece_slash.
  cbn [walk]. destruct (seg =s B ".") eqn:E1; [destruct segs; auto|]. destruct (seg =s B "..") eqn:E2; [destruct segs; auto|].
  apply IH; [|done]. apply Hp; [done|]. exists seg. split; [done|]. split; [done|]. unfold is_dots. by rewrite E1, E2.
Qed.

Lemma starts_slash_inv p : starts_with (B "/") p = true -> exists s, p = "/"%byte :: s.
Proof. destruct p as [|c p]; [done|]. rewrite starts_slash. intros E%byte_eqb_eq. subst c. by exists p. Qed.

Lemma remove_dots_slash p : starts_with (B "/") p = true -> starts_with (B "/") (remove_dot_segments p) = true.
Proof.
  intros (s & ->)%starts_slash_inv. rewrite remove_dot_segments_eq. cbn [split]. rewrite byte_eqb_refl. cbn [relative_walk is_empty].
  pose proof (walk_slash [] (split "/" s) ltac:(constructor) (split_not_slash s)) as Hf.
  pose proof (walk_not_nil [] (split "/" s) (split_not_nil "/" s)) as Hne. destruct (walk [] (split "/" s)) as [|x xs]; [done|].
  apply Forall_cons_iff in Hf as [(seg & -> & _) _]. apply starts_slash.
Qed.

Lemma remove_dots_rooted p :
  p = [] \/ starts_with (B "/") p = true -> remove_dot_segments p = [] \/ starts_with (B "/") (remove_dot_segments p) = true.
Proof. intros [->|H]; [by left | right; by apply remove_dots_slash]. Qed.

(** ** Reference resolution

    The transformation of RFC 3986 Section 5.2.2, on components. *)

Definition merge (base : components) (p : str) : str :=
  match c_authority base, c_path base with
  | Some _, [] => B "/" ++ p
  | _, bp => match rfind_byte "/" bp with Some i => take (S i) bp ++ p | None => p end
  end.

Definition transform (base r : components) : components :=
  match c_scheme r, c_authority r, c_path r with
  | Some s, _, _ => Components (Some s) (c_authority r) (remove_dot_segments (c_path r)) (c_query r) (c_fragment r)
  | None, Some a, _ => Components (c_scheme base) (Some a) (remove_dot_segments (c_path r)) (c_query r) (c_fragment r)
  | None, None, [] =>
      Components (c_scheme base) (c_authority base) (c_path base)
        (match c_query r with Some q => Some q | None => c_query base end) (c_fragment r)
  | None, None, p =>
      Components (c_scheme base) (c_authority base)
        (remove_dot_segments (if starts_with (B "/") p then p else merge base p)) (c_query r) (c_fragment r)
  end.

Lemma is_absolute_scheme u : is_absolute u = match scheme u with Some _ => true | None => false end.
Proof. unfold is_absolute, scheme. by destruct (scheme_end u). Qed.

Lemma resolve_eq base r : resolve base r = parse (recompose (rebuilt (transform (components_of base) (components_of r)))).
Proof.
  unfold resolve. rewrite is_absolute_scheme. rewrite <- build_uri_eq. unfold transform, components_of, merge_paths, merge.
  cbn [c_scheme c_authority c_path c_query c_fragment].
  destruct (scheme r) as [s|]; [done|]. destruct (authority r) as [a|]; [done|].
  destruct (path r) as [|c p]; [done|]. cbn [is_empty]. destruct (starts_with (B "/") (c :: p)); [done|].
  destruct (authority base) as [a|]; destruct (path base); done.
Qed.

Lemma well_made_of u s : parse s = Ok u -> well_made (components_of u).
Proof.
  intros H. destruct (parse_inv s u H) as ((_ & Hs & Ha & _) & (_ & Hv) & _). unfold well_made.
  split; [by destruct (c_scheme _)|]. split; [by destruct (c_authority _) | done].
Qed.

Lemma encoded_take_slash p i : encoded path_byte p = true -> rfind_byte "/" p = Some i -> encoded path_byte (take (S i) p) = true.
Proof.
  intros Hp Hi. assert (Hx : exists a b, p = a ++ "/"%byte :: b /\ i = length a).
  { unfold rfind_byte in Hi. clear Hp. revert i Hi. induction p as [|c p IH]; intros i; [done|]. cbn [rposition].
    destruct (rposition _ p) as [j|].
    - intros [= <-]. destruct (IH j eq_refl) as (a & b & -> & ->). by exists (c :: a), b.
    - destruct (c =b "/") eqn:E; [|done]. apply byte_eqb_eq in E as ->. intros [= <-]. by exists [], p. }
  destruct Hx as (a & b & -> & ->). change (a ++ "/"%byte :: b) with (a ++ ["/"%byte] ++ b). rewrite app_assoc.
  replace (S (length a)) with (length (a ++ ["/"%byte])) by (rewrite length_app; cbn; lia). rewrite take_app_length.
  apply encoded_sep in Hp as [Ha _]; [|done|done|done]. unfold encoded. by rewrite encoded_app.
Qed.

Lemma merge_encoded b p : encoded path_byte (c_path b) = true -> encoded path_byte p = true -> encoded path_byte (merge b p) = true.
Proof.
  intros Hb Hp. assert (Hm : forall q, encoded path_byte q = true -> encoded path_byte
    match rfind_byte "/" q with Some i => take (S i) q ++ p | None => p end = true).
  { intros q Hq. destruct (rfind_byte "/" q) as [i|] eqn:E; [|done]. unfold encoded.
    rewrite encoded_app by (by apply encoded_take_slash). done. }
  unfold merge. destruct (c_authority b); [|by apply Hm]. destruct (c_path b); [exact Hp | by apply Hm].
Qed.

Lemma merge_rooted b p a :
  c_authority b = Some a -> c_path b = [] \/ starts_with (B "/") (c_path b) = true -> starts_with (B "/") (merge b p) = true.
Proof.
  intros Ha Hb. unfold merge. rewrite Ha. destruct Hb as [->|(s & ->)%starts_slash_inv]; [done|].
  unfold rfind_byte. cbn [rposition]. destruct (rposition _ s); by rewrite ?byte_eqb_refl.
Qed.

Lemma transform_well_made b r : well_made b -> well_made r -> well_made (transform b r).
Proof.
  intros (Bs & Ba & Bp & Bq & Bf) (Rs & Ra & Rp & Rq & Rf). unfold transform.
  pose proof (remove_dots_encoded hex_pair ltac:(done)) as Hrd.
  destruct (c_scheme r) as [s|].
  { unfold well_made. cbn [c_scheme c_authority c_path c_query c_fragment]. split_and!; try done; [|by apply Hrd].
    destruct (c_authority r); [|done]. destruct Ra. split; [done | by apply remove_dots_rooted]. }
  destruct (c_authority r) as [a|].
  { unfold well_made. cbn [c_scheme c_authority c_path c_query c_fragment]. destruct Ra.
    split_and!; try done; [by apply remove_dots_rooted | by apply Hrd]. }
  destruct (c_path r) as [|c p] eqn:E.
  { unfold well_made. cbn [c_scheme c_authority c_path c_query c_fragment]. split_and!; try done. by destruct (c_query r). }
  unfold well_made. cbn [c_scheme c_authority c_path c_query c_fragment]. split_and!; try done.
  - destruct (c_authority b) as [a|] eqn:Eb; [|done]. destruct Ba as [? Hb]. split; [done|]. apply remove_dots_rooted. right.
    destruct (starts_with (B "/") (c :: p)) eqn:E2; [done|]. by apply (merge_rooted _ _ a).
  - apply Hrd. destruct (starts_with (B "/") (c :: p)); [done | by apply merge_encoded].
Qed.

Lemma recompose_scheme c s : c_scheme c = Some s -> recompose c <> [].
Proof. intros Hs. unfold recompose. rewrite Hs. cbn [scheme_part]. by destruct s. Qed.

(** Resolving against an absolute base always succeeds, and gives the
    components of the RFC, put together so that they stay apart. *)
Lemma resolve_components base bs r rs :
  parse bs = Ok base -> parse rs = Ok r -> is_absolute base = true ->
  exists v, resolve base r = Ok v /\ components_of v = rebuilt (transform (components_of base) (components_of r)).
Proof.
  intros Hb Hr Habs. rewrite resolve_eq. set (c := transform _ _).
  assert (Hw : well_made c) by (apply transform_well_made; by eapply well_made_of).
  rewrite is_absolute_scheme in Habs. assert (Hsch : exists s, c_scheme c = Some s).
  { unfold c, transform. cbn [components_of c_scheme c_authority c_path]. destruct (scheme r); [by eexists|].
    destruct (scheme base); [|done]. destruct (authority r); [by eexists|]. destruct (path r); by eexists. }
  destruct Hsch as [s Hsch].
  assert (Hst : structured (rebuilt c)) by (by apply rebuilt_structured; [|by apply (recompose_scheme _ s)]).
  assert (Hva : parsed_components (rebuilt c)).
  { pose proof (rebuilt_encoded c Hw). destruct Hw as (_ & _ & _ & Hq & Hf). split_and!; try done.
    destruct (parse_inv _ _ Hb) as (_ & (Hba & _) & _). destruct (parse_inv _ _ Hr) as (_ & (Hra & _) & _).
    unfold c, transform. cbn [components_of c_scheme c_authority c_path] in *. destruct (scheme r), (authority r), (path r); done. }
  destruct (parse_read_components _ Hst Hva) as [v Hv]. exists v. split; [done|]. by apply parse_components.
Qed.
