(* ===== verification/UriTheorems.v ===== *)
(** * URIs: normalization, the authority and the main theorems ([src/uri.rs]) *)
From S2P Require Import Prelude RustStd Validate Host RustStr Uri UriFacts.
Import Uri.

(** ** Percent-encoding in its normal form *)

(** An encoding in capital letters of a byte that needs it. *)
Definition canon_pair (h l : byte) : bool :=
  match decode_pair h l with
  | Ok b => negb (is_unreserved b) && (encode_byte b =s ["%"%byte; h; l])
  | Err _ => false
  end.

Lemma decode_pair_hex h l b : decode_pair h l = Ok b -> hex_pair h l = true.
Proof.
  assert (H : forall c, (fun c => match from_hex_char c with Some _ => is_ascii_hexdigit c | None => true end) c = true)
    by (apply byte_forall; vm_compute; reflexivity).
  unfold decode_pair, hex_pair. pose proof (H h) as Hh. pose proof (H l) as Hl. cbn beta in *.
  destruct (from_hex_char h); [|done]. cbn [ok_or mbind result_bind]. destruct (from_hex_char l); [|done].
  intros _. by rewrite Hh, Hl.
Qed.

Lemma canon_pair_hex h l : canon_pair h l = true -> hex_pair h l = true.
Proof. unfold canon_pair. destruct (decode_pair h l) eqn:E; [|done]. intros _. by eapply decode_pair_hex. Qed.

Lemma encode_byte_canon b : is_unreserved b = false ->
  canon_pair (to_hex_char (N.shiftr (b2n b) 4)) (to_hex_char (N.land (b2n b) 15)) = true.
Proof. intros Hb. unfold canon_pair. by rewrite encode_byte_pair, Hb, beqs_refl. Qed.

Section Normal.
Variable allowed : byte -> bool.
Hypothesis allowed_ascii : forall b, allowed b = true -> is_ascii b = true.
Hypothesis allowed_unreserved : forall b, is_unreserved b = true -> allowed b = true.

Lemma normalize_percent_canon s n :
  encoded allowed s = true -> normalize_percent_encoding s = Ok n -> encoded_with canon_pair allowed n = true.
Proof.
  unfold encoded. revert n. induction s as [| |h|h l s IH|b s E IH] using encoded_ind; intros n; try done.
  - by intros _ [= <-].
  - cbn [encoded_with normalize_percent_encoding]. rewrite byte_eqb_refl. intros [_ Hs]%andb_true_iff.
    destruct (decode_pair h l) as [b|]; [|done]. cbn [mbind result_bind].
    destruct (normalize_percent_encoding s) as [m|]; [|done]. cbn [mbind result_bind]. intros [= <-].
    specialize (IH m Hs eq_refl). destruct (is_unreserved b) eqn:Eu.
    + cbn [app encoded_with]. assert ((b =b "%") = false) as -> by (revert Eu; clear; byte_solve b).
      by rewrite (allowed_unreserved b Eu), IH.
    + rewrite encoded_app; [done|]. cbn [encoded_with encode_byte]. rewrite byte_eqb_refl. by rewrite encode_byte_canon.
  - cbn [encoded_with normalize_percent_encoding]. rewrite E. intros [Hb Hs]%andb_true_iff.
    destruct (normalize_percent_encoding s) as [m|]; [|done]. cbn [mbind result_bind]. intros [= <-].
    unfold byte_as_char. rewrite (allowed_ascii b Hb). cbn [app encoded_with]. rewrite E, Hb. by apply IH.
Qed.

Lemma canon_normal s : encoded_with canon_pair allowed s = true -> normalize_percent_encoding s = Ok s.
Proof.
  induction s as [| |h|h l s IH|b s E IH] using encoded_ind; try done; cbn [encoded_with normalize_percent_encoding].
  - rewrite byte_eqb_refl. intros [Hp Hs]%andb_true_iff. unfold canon_pair in Hp.
    destruct (decode_pair h l) as [b|]; [|done]. apply andb_true_iff in Hp as [Hu He]. apply negb_true_iff in Hu.
    apply beqs_eq in He. cbn [mbind result_bind]. rewrite (IH Hs), Hu, He. done.
  - rewrite E. intros [Hb Hs]%andb_true_iff. rewrite (IH Hs). cbn [mbind result_bind].
    unfold byte_as_char. by rewrite (allowed_ascii b Hb).
Qed.

(** A well-formed text has a normal form. *)
Lemma normalize_percent_total s : encoded allowed s = true -> exists n, normalize_percent_encoding s = Ok n.
Proof.
  unfold encoded. induction s as [| |h|h l s IH|b s E IH] using encoded_ind; try done; cbn [encoded_with normalize_percent_encoding].
  - by exists [].
  - rewrite byte_eqb_refl. intros [Hp Hs]%andb_true_iff. destruct (IH Hs) as [n ->].
    assert (Hd : forall c, (fun c => implb (is_ascii_hexdigit c) (match from_hex_char c with Some _ => true | None => false end)) c = true)
      by (apply byte_forall; vm_compute; reflexivity).
    unfold hex_pair in Hp. apply andb_true_iff in Hp as [Hh Hl]. pose proof (Hd h) as Dh. pose proof (Hd l) as Dl. cbn beta in *.
    rewrite Hh in Dh. rewrite Hl in Dl. unfold decode_pair. destruct (from_hex_char h); [|done]. destruct (from_hex_char l); [|done].
    cbn [ok_or mbind result_bind]. by eexists.
  - rewrite E. intros [Hb Hs]%andb_true_iff. destruct (IH Hs) as [n ->]. by eexists.
Qed.
End Normal.

Lemma query_ascii b : is_query_or_fragment_char b = true -> is_ascii b = true.
Proof. byte_solve b. Qed.
Lemma path_ascii b : path_byte b = true -> is_ascii b = true.
Proof. byte_solve b. Qed.
Lemma unreserved_query b : is_unreserved b = true -> is_query_or_fragment_char b = true.
Proof. byte_solve b. Qed.
Lemma unreserved_path b : is_unreserved b = true -> path_byte b = true.
Proof. byte_solve b. Qed.

Lemma canon_encoded allowed s : encoded_with canon_pair allowed s = true -> encoded allowed s = true.
Proof. apply encoded_impl; [exact canon_pair_hex | done]. Qed.

Lemma normalize_percent_slash s n : normalize_percent_encoding ("/"%byte :: s) = Ok n -> starts_with (B "/") n = true.
Proof.
  cbn [normalize_percent_encoding]. change ("/"%byte =b "%") with false. cbv iota.
  destruct (normalize_percent_encoding s); [|done]. cbn [mbind result_bind]. by intros [= <-].
Qed.

(** ** The authority in its normal form *)

Definition lower_first (k : nat) (s : str) : str := to_ascii_lowercase (take k s) ++ drop k s.

Lemma lower_first_idem k s : lower_first k (lower_first k s) = lower_first k s.
Proof.
  unfold lower_first. assert (Hl : length (to_ascii_lowercase (take k s)) = Nat.min k (length s)).
  { unfold to_ascii_lowercase. by rewrite length_map, length_take. }
  destruct (Nat.le_gt_cases k (length s)) as [Hk|Hk].
  - rewrite take_app_le, drop_app_le by lia. rewrite (take_ge (to_ascii_lowercase _)), (drop_ge (to_ascii_lowercase _)) by lia.
    by rewrite lower_idem.
  - rewrite (drop_ge s) by lia. rewrite app_nil_r. rewrite (take_ge (to_ascii_lowercase _)), (drop_ge (to_ascii_lowercase _)) by lia.
    by rewrite lower_idem, app_nil_r.
Qed.

(** Bytes that are not letters stay where they are. *)
Definition not_letter (c : byte) : bool := negb (is_ascii_alphabetic c).

Lemma lower_byte_eqb b c : not_letter c = true -> (to_ascii_lowercase_byte b =b c) = (b =b c).
Proof.
  intros Hc. destruct (b =b c) eqn:E.
  - apply byte_eqb_eq in E as ->. apply byte_eqb_eq. revert Hc. byte_solve c.
  - apply byte_eqb_neq. intros <-. apply byte_eqb_neq in E. apply E. revert Hc. byte_solve b.
Qed.

Lemma lower_first_eqb c k s : not_letter c = true -> map (fun b => b =b c) (lower_first k s) = map (fun b => b =b c) s.
Proof.
  intros Hc. unfold lower_first, to_ascii_lowercase. rewrite map_app, map_map.
  rewrite (map_ext _ (fun b => b =b c)) by (intros b; by apply lower_byte_eqb). by rewrite <- map_app, take_drop.
Qed.

Lemma position_map (p : byte -> bool) s : position p s = position id (map p s).
Proof. induction s as [|b s IH]; [done|]. cbn. by rewrite IH. Qed.
Lemma rposition_map (p : byte -> bool) s : rposition p s = rposition id (map p s).
Proof. induction s as [|b s IH]; [done|]. cbn. by rewrite IH. Qed.

Lemma lower_first_find c k s : not_letter c = true -> find_byte c (lower_first k s) = find_byte c s.
Proof. intros Hc. unfold find_byte. by rewrite position_map, lower_first_eqb, <- position_map. Qed.
Lemma lower_first_rfind c k s : not_letter c = true -> rfind_byte c (lower_first k s) = rfind_byte c s.
Proof. intros Hc. unfold rfind_byte. by rewrite rposition_map, lower_first_eqb, <- rposition_map. Qed.

(** How much of [host:port] is the host. *)
Definition host_len (hp : str) : nat :=
  match (s ← strip_prefix (B "[") hp; find_byte "]" s) with
  | Some e => e + 2
  | None => match rfind_byte ":" hp with Some i => i | None => length hp end
  end.

Lemma normalize_host_port_eq hp : normalize_host_port hp = lower_first (host_len hp) hp.
Proof.
  unfold normalize_host_port, host_len, lower_first. destruct (mbind _ _) as [e|].
  - by replace (S (e + 1)) with (e + 2)%nat by lia.
  - destruct (rfind_byte ":" hp); [done|]. by rewrite take_ge, drop_ge, app_nil_r by lia.
Qed.

Lemma strip_bracket s : (r ← strip_prefix (B "[") s; find_byte "]" r) =
  match s with c :: r => if c =b "[" then find_byte "]" r else None | [] => None end.
Proof. destruct s as [|c r]; [done|]. by destruct c. Qed.

Lemma lower_first_length k s : length (lower_first k s) = length s.
Proof. unfold lower_first, to_ascii_lowercase. rewrite length_app, length_map, <- length_app. by rewrite take_drop. Qed.

Lemma host_len_lower k hp : host_len (lower_first k hp) = host_len hp.
Proof.
  unfold host_len. rewrite lower_first_rfind, lower_first_length by done. rewrite !strip_bracket.
  destruct hp as [|c hp]; [by destruct k|]. destruct k as [|k]; [done|].
  change (lower_first (S k) (c :: hp)) with (to_ascii_lowercase_byte c :: lower_first k hp).
  cbv beta iota. by rewrite lower_byte_eqb, lower_first_find.
Qed.

Lemma normalize_host_port_idem hp : normalize_host_port (normalize_host_port hp) = normalize_host_port hp.
Proof. rewrite !(normalize_host_port_eq hp), normalize_host_port_eq, host_len_lower. apply lower_first_idem. Qed.

(** The part behind the last [c]. *)
Lemma rfind_split c s i : rfind_byte c s = Some i ->
  exists a r, s = a ++ c :: r /\ i = length a /\ rfind_byte c r = None.
Proof.
  unfold rfind_byte. revert i. induction s as [|b s IH]; intros i; [done|]. cbn [rposition].
  destruct (rposition _ s) as [j|] eqn:E.
  - intros [= <-]. destruct (IH j eq_refl) as (a & r & -> & -> & Hr). by exists (b :: a), r.
  - destruct (b =b c) eqn:Eb; [|done]. apply byte_eqb_eq in Eb as ->. intros [= <-]. by exists [], s.
Qed.

Lemma rfind_join c a r : rfind_byte c r = None -> rfind_byte c (a ++ [c] ++ r) = Some (length a).
Proof.
  unfold rfind_byte. intros Hr. rewrite rposition_app. cbn [app rposition]. rewrite Hr, byte_eqb_refl. by rewrite Nat.add_0_r.
Qed.

Lemma normalize_authority_idem a : normalize_authority (normalize_authority a) = normalize_authority a.
Proof.
  unfold normalize_authority. destruct (rfind_byte "@" a) as [i|] eqn:E.
  - apply rfind_split in E as (u & h & -> & -> & Hh). rewrite Nat.add_1_r, drop_past, take_app_length.
    change (B "@") with ["@"%byte]. rewrite rfind_join by (rewrite normalize_host_port_eq; by rewrite lower_first_rfind).
    cbn [app]. by rewrite Nat.add_1_r, drop_past, take_app_length, normalize_host_port_idem.
  - rewrite normalize_host_port_eq, lower_first_rfind, E by done. rewrite <- normalize_host_port_eq. apply normalize_host_port_idem.
Qed.

Lemma lower_delims s : no_delims is_authority_end (to_ascii_lowercase s) = no_delims is_authority_end s.
Proof.
  unfold no_delims, to_ascii_lowercase. induction s as [|b s IH]; [done|]. cbn [map forallb]. rewrite IH. f_equal. byte_solve b.
Qed.

Lemma no_delims_app d a b : no_delims d (a ++ b) = no_delims d a && no_delims d b.
Proof. apply forallb_app. Qed.

Lemma normalize_host_port_delims hp : no_delims is_authority_end (normalize_host_port hp) = no_delims is_authority_end hp.
Proof.
  rewrite normalize_host_port_eq. unfold lower_first. rewrite no_delims_app, lower_delims, <- no_delims_app. by rewrite take_drop.
Qed.

Lemma normalize_authority_delims a : no_delims is_authority_end (normalize_authority a) = no_delims is_authority_end a.
Proof.
  unfold normalize_authority. destruct (rfind_byte "@" a) as [i|] eqn:E; [|apply normalize_host_port_delims].
  apply rfind_split in E as (u & h & -> & -> & Hh). rewrite Nat.add_1_r, drop_past, take_app_length.
  change (u ++ "@"%byte :: h) with (u ++ B "@" ++ h). by rewrite !no_delims_app, normalize_host_port_delims.
Qed.

Lemma good_scheme_lower s : good_scheme s = true -> good_scheme (to_ascii_lowercase s) = true.
Proof.
  unfold good_scheme. destruct s as [|b s]; [done|]. unfold to_ascii_lowercase. cbn [map]. rewrite !andb_true_iff. intros [Hb Hs].
  split; [revert Hb; clear; byte_solve b|]. change (forallb is_scheme_byte (map to_ascii_lowercase_byte (b :: s)) = true).
  clear Hb. revert Hs. generalize (b :: s). clear. intros s. induction s as [|c s IH]; [done|]. cbn [map forallb].
  rewrite !andb_true_iff. intros [Hc Hs]. split; [revert Hc; clear; byte_solve c | by apply IH].
Qed.

(** ** Normalization *)

(** The components that [normalize] puts together. *)
Definition normal_components (c : components) (p : str) (q f : option str) : components :=
  Components (to_ascii_lowercase <$> c_scheme c) (normalize_authority <$> c_authority c) (remove_dot_segments p) q f.

Lemma normalize_inv u v :
  normalize u = Ok v -> exists p q f,
    normalize_percent_encoding (path u) = Ok p /\ transpose normalize_percent_encoding (query u) = Ok q /\
    transpose normalize_percent_encoding (fragment u) = Ok f /\
    parse (recompose (rebuilt (normal_components (components_of u) p q f))) = Ok v.
Proof.
  unfold normalize. cbv zeta. destruct (normalize_percent_encoding (path u)) as [p|] eqn:Ep; [|done]. cbn [mbind result_bind].
  destruct (transpose _ (query u)) as [q|] eqn:Eq; [|done]. cbn [mbind result_bind].
  destruct (transpose _ (fragment u)) as [f|] eqn:Ef; [|done]. cbn [mbind result_bind]. intros H. exists p, q, f.
  split_and!; [done | done | done|]. by rewrite <- build_uri_eq.
Qed.

Definition opt_all (P : str -> Prop) (o : option str) : Prop := match o with Some s => P s | None => True end.

Lemma transpose_canon o n :
  opt_all (fun q => encoded is_query_or_fragment_char q = true) o ->
  transpose normalize_percent_encoding o = Ok n ->
  opt_all (fun q => encoded_with canon_pair is_query_or_fragment_char q = true) n.
Proof.
  destruct o as [q|]; cbn [transpose]; [|by intros _ [= <-]]. intros Hq. destruct (normalize_percent_encoding q) as [m|] eqn:E; [|done].
  cbn [mbind result_bind]. intros [= <-]. eapply normalize_percent_canon; [exact query_ascii | exact unreserved_query | exact Hq | exact E].
Qed.

Lemma transpose_fixed o :
  opt_all (fun q => encoded_with canon_pair is_query_or_fragment_char q = true) o -> transpose normalize_percent_encoding o = Ok o.
Proof.
  destruct o as [q|]; [|done]. cbn [opt_all transpose]. intros Hq. by rewrite (canon_normal _ query_ascii q Hq).
Qed.

(** The components of a normalized URI, and what they are like. *)
Lemma normal_shape u s v :
  parse s = Ok u -> normalize u = Ok v -> exists c,
    components_of v = rebuilt c /\ parse (recompose (rebuilt c)) = Ok v /\
    to_ascii_lowercase <$> c_scheme c = c_scheme c /\ normalize_authority <$> c_authority c = c_authority c /\
    encoded_with canon_pair path_byte (c_path c) = true /\ remove_dot_segments (c_path c) = c_path c /\
    opt_all (fun q => encoded_with canon_pair is_query_or_fragment_char q = true) (c_query c) /\
    opt_all (fun q => encoded_with canon_pair is_query_or_fragment_char q = true) (c_fragment c).
Proof.
  intros Hu Hn. apply normalize_inv in Hn as (p & q & f & Hp & Hq & Hf & Hv).
  set (c := normal_components (components_of u) p q f) in *. exists c.
  destruct (well_made_of u s Hu) as (Ws & Wa & Wp & Wq & Wf). cbn [components_of c_path c_query c_fragment] in Wp, Wq, Wf.
  assert (Cp : encoded_with canon_pair path_byte p = true)
    by (eapply normalize_percent_canon; [exact path_ascii | exact unreserved_path | exact Wp | exact Hp]).
  assert (Cq := transpose_canon _ _ Wq Hq). assert (Cf := transpose_canon _ _ Wf Hf).
  pose proof (remove_dots_encoded canon_pair canon_pair_hex p Cp) as Cr.
  assert (Hw : well_made c).
  { unfold c, well_made, normal_components. cbn [components_of c_scheme c_authority c_path c_query c_fragment] in *. split_and!.
    - destruct (scheme u); [by apply good_scheme_lower | done].
    - destruct (authority u) as [a|]; [|done]. cbn [fmap option_fmap option_map] in *. destruct Wa as [Wa Wr].
      split; [by rewrite normalize_authority_delims|]. apply remove_dots_rooted.
      destruct Wr as [Wr|Wr]; [rewrite Wr in Hp; left; by injection Hp as <-|].
      right. apply starts_slash_inv in Wr as (r & Wr). rewrite Wr in Hp. by eapply normalize_percent_slash.
    - by apply canon_encoded.
    - destruct q as [q|]; [by apply canon_encoded | done].
    - destruct f as [f|]; [by apply canon_encoded | done]. }
  assert (Hst : structured (rebuilt c)).
  { apply rebuilt_structured; [done|]. intros He. by rewrite He in Hv. }
  destruct (parse_components _ _ Hst Hv) as (Hc & _). split_and!; [done | done | | |done | | done | done].
  - unfold c. cbn. destruct (scheme u); [|done]. cbn. by rewrite lower_idem.
  - unfold c. cbn. destruct (authority u); [|done]. cbn. by rewrite normalize_authority_idem.
  - unfold c. cbn [normal_components c_path]. apply remove_dots_idempotent.
Qed.

Lemma rebuilt_path_dots sch auth p : remove_dot_segments p = p -> remove_dot_segments (rebuilt_path sch auth p) = p.
Proof.
  intros Hp. unfold rebuilt_path. destruct auth; [done|]. destruct (starts_with (B "//") p) eqn:E.
  - apply starts_slashes_inv in E as (r & ->). rewrite <- Hp at 2. rewrite !remove_dot_segments_eq. done.
  - destruct sch; [done|]. destruct (first_segment_contains_colon p); [|done].
    rewrite <- Hp at 2. rewrite !remove_dot_segments_eq. done.
Qed.

Lemma rebuilt_path_canon sch auth p :
  encoded_with canon_pair path_byte p = true -> encoded_with canon_pair path_byte (rebuilt_path sch auth p) = true.
Proof.
  intros Hp. unfold rebuilt_path. destruct auth; [done|]. destruct (starts_with _ _); [exact Hp|].
  destruct sch; [done|]. by destruct (first_segment_contains_colon _).
Qed.

Lemma normalize_idem u s v : parse s = Ok u -> normalize u = Ok v -> normalize v = Ok v.
Proof.
  intros Hu Hn. destruct (normal_shape u s v Hu Hn) as (c & Hc & Hv & Hs & Ha & Hp & Hr & Hq & Hf).
  pose proof Hc as Hc'. unfold components_of, rebuilt in Hc'. injection Hc' as Es Ea Ep Eq Ef.
  unfold normalize. cbv zeta. rewrite Es, Ea, Ep, Eq, Ef, Hs, Ha.
  rewrite (canon_normal _ path_ascii) by (by apply rebuilt_path_canon). cbn [mbind result_bind].
  rewrite rebuilt_path_dots by done. rewrite !transpose_fixed by done. cbn [mbind result_bind]. by rewrite build_uri_eq.
Qed.

(** ** The authority

    What may stand in an authority, said without the parser: RFC 3986 Section
    3.2, but that a port is a number of 16 bits that may have a plus sign, and
    that nothing may be left empty behind the colon after an IP literal. *)

Definition userinfo_byte (b : byte) : bool := is_unreserved b || is_sub_delim b || (b =b ":").
Definition reg_name_byte (b : byte) : bool := is_unreserved b || is_sub_delim b.

(** [v], a version in hexadecimal, a dot and an address; or an IPv6 address, as
    the standard library reads it. *)
Inductive ip_literal : str -> Prop :=
  | literal_future v version address :
      v = "v"%byte \/ v = "V"%byte -> version <> [] -> forallb is_ascii_hexdigit version = true ->
      address <> [] -> forallb userinfo_byte address = true -> ip_literal (v :: version ++ B "." ++ address)
  | literal_v6 s groups : Net.parse_ipv6 s = Some groups -> ip_literal s.

(** A name, an IPv4 address among them, or a literal in brackets. *)
Inductive good_host : bool -> str -> Prop :=
  | host_name h : encoded reg_name_byte h = true -> good_host false h
  | host_literal l : ip_literal l -> good_host true (B "[" ++ l ++ B "]").

(** The text behind the colon, and the port it names. *)
Inductive good_port (literal : bool) : option str -> option N -> Prop :=
  | port_none : good_port literal None None
  | port_empty : literal = false -> good_port literal (Some []) None
  | port_number ds s : s = ds \/ s = B "+" ++ ds -> ds <> [] -> forallb is_ascii_digit ds = true -> decimal ds <= u16_MAX ->
      good_port literal (Some s) (Some (decimal ds)).

Definition good_authority (a : str) (port : option N) : Prop :=
  exists userinfo literal host port_text,
    a = match userinfo with Some u => u ++ B "@" | None => [] end ++ host ++ opt_pre (B ":") port_text /\
    match userinfo with Some u => encoded userinfo_byte u = true | None => True end /\
    good_host literal host /\ good_port literal port_text port.

(** *** What is read of an address *)

Section Addresses.
Import Net.

Definition address_byte (b : byte) : bool := is_ascii_hexdigit b || (b =b ":") || (b =b ".").

(** The bytes of [s] up to [rest] satisfy [p]. *)
Definition reads_over (p : byte -> bool) (s rest : bytes) : Prop := exists pre, s = pre ++ rest /\ forallb p pre = true.

Lemma over_nil p s : reads_over p s s.
Proof. by exists []. Qed.

Lemma over_trans p s1 s2 s3 : reads_over p s1 s2 -> reads_over p s2 s3 -> reads_over p s1 s3.
Proof. intros (a & -> & Ha) (b & -> & Hb). exists (a ++ b). by rewrite <- app_assoc, forallb_app, Ha, Hb. Qed.

Lemma over_cons (p : byte -> bool) b s rest : p b = true -> reads_over p s rest -> reads_over p (b :: s) rest.
Proof. intros Hb (a & -> & Ha). exists (b :: a). cbn. by rewrite Hb, Ha. Qed.

Lemma over_impl (p q : byte -> bool) s rest : (forall b, p b = true -> q b = true) -> reads_over p s rest -> reads_over q s rest.
Proof. intros Hpq (a & -> & Ha). exists a. split; [done|]. revert Ha. by apply forallb_impl. Qed.

Lemma number_loop_over radix k count acc s v n rest (p : byte -> bool) :
  (forall b d, digit_value radix b = Some d -> p b = true) ->
  number_loop radix k count acc s = Some (v, n, rest) -> reads_over p s rest.
Proof.
  intros Hp. revert count acc. induction s as [|b s IH]; intros count acc; cbn [number_loop]; [intros [= _ _ <-]; apply over_nil|].
  destruct (digit_value radix b) as [d|] eqn:Hd; [|intros [= _ _ <-]; apply over_nil].
  destruct (_ <? _)%nat; [done|]. intros H. apply over_cons; [by eapply Hp | by eapply IH].
Qed.

Lemma read_number_over radix k z max s v rest (p : byte -> bool) :
  (forall b d, digit_value radix b = Some d -> p b = true) ->
  read_number radix k z max s = Some (v, rest) -> reads_over p s rest.
Proof.
  intros Hp. unfold read_number. destruct (number_loop radix k 0 0 s) as [[[v' n] rest']|] eqn:E; [|done].
  cbn [mbind option_bind]. repeat case_match; try done.
  all: intros [= _ <-]; by eapply number_loop_over.
Qed.

Lemma read_separator_over {A} sep i (inner : bytes -> option (A * bytes)) s v rest (p : byte -> bool) :
  p sep = true -> (forall s v rest, inner s = Some (v, rest) -> reads_over p s rest) ->
  read_separator sep i inner s = Some (v, rest) -> reads_over p s rest.
Proof.
  intros Hsep Hin. destruct i as [|i]; cbn [read_separator]; [apply Hin|]. unfold read_given_char.
  destruct s as [|b s]; [done|]. destruct (b =b sep) eqn:E; [|done]. apply byte_eqb_eq in E as ->. cbn [mbind option_bind].
  intros H. apply over_cons; [done | by eapply Hin].
Qed.

Definition v4_byte (b : byte) : bool := is_ascii_digit b || (b =b ".").

Lemma decimal_byte b d : digit_value 10 b = Some d -> v4_byte b = true.
Proof. intros [Hb _]%digit_value_iff. unfold v4_byte. by rewrite Hb. Qed.

Lemma hex_byte b d : digit_value 16 b = Some d -> address_byte b = true.
Proof. unfold digit_value, address_byte. byte_solve b. Qed.

Lemma read_octets_over n i s vs rest : read_octets n i s = Some (vs, rest) -> reads_over v4_byte s rest.
Proof.
  revert i s vs. induction n as [|n IH]; intros i s vs; cbn [read_octets]; [intros [= _ <-]; apply over_nil|].
  destruct (read_separator _ _ _ s) as [[v s1]|] eqn:E; [|done]. cbn [mbind option_bind].
  destruct (read_octets n (S i) s1) as [[vs1 s2]|] eqn:E2; [|done]. cbn [mbind option_bind]. intros [= _ <-].
  eapply over_trans; [|by eapply IH]. eapply read_separator_over; [|  |exact E]; [done|].
  intros s' v' r'. apply read_number_over, decimal_byte.
Qed.

Lemma v4_address b : v4_byte b = true -> address_byte b = true.
Proof. unfold v4_byte, address_byte. byte_solve b. Qed.

Lemma read_groups_over left i s : reads_over address_byte s (snd (read_groups left i s)).
Proof.
  revert i s. induction left as [|left IH]; intros i s; cbn [read_groups]; [apply over_nil|].
  destruct (if (1 <? S left)%nat then _ else None) as [[octets r]|] eqn:E.
  - destruct (1 <? S left)%nat; [|done]. cbn [snd]. eapply read_separator_over; [| |exact E]; [done|].
    intros s' v' r' H. eapply over_impl; [exact v4_address | by eapply read_octets_over].
  - destruct (read_separator ":" i (read_number 16 4 true 65535) s) as [[g r]|] eqn:E2; [|apply over_nil].
    specialize (IH (S i) r). destruct (read_groups left (S i) r) as [[gs v4] r']. cbn [snd] in *.
    eapply over_trans; [|exact IH]. eapply read_separator_over; [| |exact E2]; [done|].
    intros s' v' r'' H. eapply read_number_over; [exact hex_byte | exact H].
Qed.

Lemma parse_all_over {A} p (r : option (A * bytes)) s a :
  (forall a rest, r = Some (a, rest) -> reads_over p s rest) -> parse_all r = Some a -> forallb p s = true.
Proof.
  intros Hr. destruct r as [[a' [|b rest]]|]; [|done..]. intros _. destruct (Hr a' [] eq_refl) as (pre & -> & Hp). by rewrite app_nil_r.
Qed.

Lemma ipv4_bytes s v : parse_ipv4 s = Some v -> forallb v4_byte s = true.
Proof.
  unfold parse_ipv4. destruct (_ <? _); [done|]. apply parse_all_over. intros a rest. apply read_octets_over.
Qed.

Lemma given_over c s s' : address_byte c = true -> read_given_char c s = Some s' -> reads_over address_byte s s'.
Proof.
  intros Hc. destruct s as [|b s]; [done|]. cbn. destruct (b =b c) eqn:E; [|done]. apply byte_eqb_eq in E as ->.
  intros [= <-]. apply over_cons; [done | apply over_nil].
Qed.

Lemma ipv6_bytes s v : parse_ipv6 s = Some v -> forallb address_byte s = true.
Proof.
  unfold parse_ipv6. apply parse_all_over. intros a rest. unfold read_ipv6_addr.
  pose proof (read_groups_over 8 0 s) as H1. destruct (read_groups 8 0 s) as [[head v4] s1]. cbn [snd] in H1.
  destruct (_ =? _)%nat; [intros [= _ <-]; exact H1|]. destruct v4; [done|].
  destruct (read_given_char ":" s1) as [s2|] eqn:E1; [|done]. cbn [mbind option_bind].
  destruct (read_given_char ":" s2) as [s3|] eqn:E2; [|done]. cbn [mbind option_bind]. cbv zeta.
  pose proof (read_groups_over (8 - (length head + 1)) 0 s3) as H2. destruct (read_groups _ 0 s3) as [[tl v4] s4]. cbn [snd] in H2.
  intros [= _ <-]. eapply over_trans; [exact H1|]. eapply over_trans; [exact (given_over ":" _ _ eq_refl E1)|].
  eapply over_trans; [exact (given_over ":" _ _ eq_refl E2)|]. exact H2.
Qed.
End Addresses.

(** *** Hosts *)

Lemma scan_encoded_iff allowed e s :
  allowed "%"%byte = false -> scan_encoded allowed e s = Ok tt <-> encoded allowed s = true.
Proof.
  intros Hp. unfold encoded. induction s as [| |h|h l s IH|b s E IH] using encoded_ind; cbn [scan_encoded encoded_with]; rewrite ?Hp; try done.
  - rewrite byte_eqb_refl. unfold hex_pair. destruct (is_ascii_hexdigit h), (is_ascii_hexdigit l); cbn; [exact IH|done..].
  - rewrite E. destruct (allowed b); [exact IH | done].
Qed.

Lemma userinfo_iff s : validate_userinfo s = Ok tt <-> encoded userinfo_byte s = true.
Proof. by apply scan_encoded_iff. Qed.

Lemma reg_name_iff s : validate_reg_name s = Ok tt <-> encoded reg_name_byte s = true.
Proof. by apply scan_encoded_iff. Qed.

(** A byte that no encoding and no character of the component is. *)
Lemma encoded_no c allowed s : is_ascii_hexdigit c = false -> (c =b "%") = false -> allowed c = false ->
  encoded allowed s = true -> contains_byte c s = false.
Proof.
  intros Hh Hc Ha. unfold encoded. induction s as [| |h|h l s IH|b s E IH] using encoded_ind; try done; cbn [encoded_with].
  - rewrite byte_eqb_refl. unfold hex_pair. intros [[Hh1 Hl1]%andb_true_iff Hs]%andb_true_iff. unfold contains_byte. cbn [existsb].
    fold (contains_byte c s). rewrite (IH Hs), orb_false_r.
    assert (Hx : forall x, is_ascii_hexdigit x = true -> (x =b c) = false) by (intros x Hx; apply byte_eqb_neq; intros ->; congruence).
    rewrite (Hx h), (Hx l) by done. rewrite !orb_false_r. apply byte_eqb_neq. intros <-. done.
  - rewrite E. intros [Hb Hs]%andb_true_iff. unfold contains_byte. cbn [existsb]. fold (contains_byte c s). rewrite (IH Hs), orb_false_r.
    apply byte_eqb_neq. intros ->. congruence.
Qed.

Lemma slice_cons b s n : slice 1 (S n) (b :: s) = take n s.
Proof. unfold slice. cbn [drop]. by rewrite Nat.sub_succ, Nat.sub_0_r. Qed.

Lemma ipv_future_iff v s : v = "v"%byte \/ v = "V"%byte ->
  validate_ipv_future (v :: s) = Ok tt <-> ip_literal (v :: s).
Proof.
  intros Hv. assert (Hvd : (v =b ".") = false) by (by destruct Hv as [-> | ->]). split.
  - unfold validate_ipv_future. destruct (find_byte "." (v :: s)) as [i|] eqn:Ei; [|done]. cbn [ok_or mbind result_bind].
    apply position_Some in Ei as (x & Hx & Hxd & _). apply byte_eqb_eq in Hxd as ->.
    destruct (i <=? 1)%nat eqn:E1; [done|]. apply Nat.leb_gt in E1. destruct i as [|i]; [lia|]. cbn in Hx.
    rewrite slice_cons. destruct (forallb is_ascii_hexdigit (take i s)) eqn:Eh; [|done]. cbn [negb].
    replace (S i + 1)%nat with (S (S i)) by lia. cbn [drop]. destruct (is_empty (drop (S i) s)) eqn:Ea; [done|].
    destruct (forallb _ (drop (S i) s)) eqn:Ef; [|done]. intros _.
    rewrite <- (take_drop_middle s i "."%byte Hx). change (take i s ++ "."%byte :: drop (S i) s) with (take i s ++ B "." ++ drop (S i) s).
    apply literal_future; try done; [|by intros E; rewrite E in Ea].
    intros E. apply (f_equal length) in E. rewrite length_take in E. apply lookup_lt_Some in Hx. cbn in E. lia.
  - intros Hl. inversion Hl as [v' ver addr _ Hne Hver Hna Hadd Heq | s' g Hg]; subst.
    + unfold validate_ipv_future.
      assert (Hno : contains_byte "." (v :: ver) = false).
      { unfold contains_byte. cbn [existsb]. rewrite Hvd. cbn [orb]. apply (contains_byte_forallb "." _ is_ascii_hexdigit); done. }
      rewrite (find_byte_app "." (v :: ver) addr Hno : find_byte "." (v :: ver ++ "."%byte :: addr) = Some (S (length ver))).
      cbn [ok_or mbind result_bind].
      assert ((S (length ver) <=? 1)%nat = false) as -> by (by destruct ver).
      rewrite slice_cons, take_app_length, Hver. cbn [negb]. rewrite Nat.add_1_r.
      cbv zeta. change (drop (S (S (length ver))) (v :: ver ++ "."%byte :: addr)) with (drop (S (length ver)) (ver ++ "."%byte :: addr)). rewrite drop_past.
      unfold userinfo_byte in Hadd. rewrite Hadd. by destruct addr.
    + exfalso. apply ipv6_bytes in Hg. cbn [forallb] in Hg. by destruct Hv as [-> | ->].
Qed.

Lemma literal_iff l : validate_ip_literal l = Ok tt <-> ip_literal l.
Proof.
  destruct l as [|b l].
  { split; [done|]. intros Hl. inversion Hl as [| s g Hg]; subst. vm_compute in Hg. done. }
  unfold validate_ip_literal. destruct ((b =b "v") || (b =b "V")) eqn:Eb.
  { apply ipv_future_iff. by apply orb_true_iff in Eb as [->%byte_eqb_eq | ->%byte_eqb_eq]; [left|right]. }
  split.
  - destruct (Net.parse_ipv6 (b :: l)) as [g|] eqn:E; [|done]. intros _. by eapply literal_v6.
  - intros Hl. inversion Hl as [v ver addr Hv | s g Hg]; subst; [by destruct Hv as [-> | ->] | by rewrite Hg].
Qed.

(** A text that starts with a bracket is no name. *)
Lemma name_no c h : is_ascii_hexdigit c = false -> (c =b "%") = false -> reg_name_byte c = false ->
  encoded reg_name_byte h = true -> contains_byte c h = false.
Proof. apply encoded_no. Qed.

Lemma no_bracket h r : contains_byte "[" h = false -> starts_with (B "[") r = false -> starts_with (B "[") (h ++ r) = false.
Proof.
  destruct h as [|b h]; [done|]. unfold contains_byte. cbn [existsb]. intros [Hb _]%orb_false_iff _. revert Hb. clear. by destruct b.
Qed.

Lemma validate_name h : starts_with (B "[") h = false -> validate_host h = Ok tt <-> encoded reg_name_byte h = true.
Proof.
  intros Hb. unfold validate_host. destruct (is_empty h) eqn:He; [by destruct h|]. rewrite Hb.
  destruct (Net.parse_ipv4 h) as [v|] eqn:E; [|apply reg_name_iff]. split; [intros _|done].
  apply ipv4_bytes in E. clear Hb He. unfold encoded. induction h as [|b h IH]; [done|]. cbn [forallb encoded_with] in *.
  apply andb_true_iff in E as [Hb Hh]. rewrite (IH Hh), andb_true_r.
  assert ((b =b "%") = false) as -> by (revert Hb; clear; unfold v4_byte; byte_solve b).
  revert Hb. clear. unfold v4_byte, reg_name_byte. byte_solve b.
Qed.

Lemma literal_no c l : ip_literal l -> address_byte c = false -> userinfo_byte c = false -> contains_byte c l = false.
Proof.
  intros Hl Hc Hu. assert (Hx : is_ascii_hexdigit c = false) by (revert Hc; clear; unfold address_byte; byte_solve c).
  destruct Hl as [v ver addr Hv _ Hver _ Hadd | s g Hg]; [|by eapply contains_byte_forallb; [eapply ipv6_bytes|]].
  apply (contains_byte_forallb c _ (fun b => address_byte b || userinfo_byte b)); [|by rewrite Hc, Hu].
  cbn [forallb]. rewrite !forallb_app. assert (address_byte v || userinfo_byte v = true) as -> by (by destruct Hv as [-> | ->]).
  cbn [andb]. rewrite (forallb_impl is_ascii_hexdigit _ ver); [|intros b; unfold address_byte; byte_solve b|done].
  rewrite (forallb_impl userinfo_byte _ addr); [done| |done]. intros b ->. apply orb_true_r.
Qed.

(** *** Ports *)

Lemma port_of_iff lit s v : s <> [] -> port_of s = Ok v <-> good_port lit (Some s) (Some v).
Proof.
  intros Hne. unfold port_of, parse_u16. split.
  - destruct (from_str_radix 10 u16_MAX s) as [n|] eqn:E; [|done]. intros [= <-].
    apply number_read in E as (ds & Hs & Hd & Hf & -> & Hm). by econstructor.
  - inversion 1 as [| | ds s' Hs Hd Hf Hm]; subst. assert (from_str_radix 10 u16_MAX s = Some (decimal ds)) as ->; [|done].
    apply number_read. by exists ds.
Qed.

Lemma port_no c lit s n : is_ascii_digit c = false -> (c =b "+") = false -> good_port lit (Some s) n -> contains_byte c s = false.
Proof.
  intros Hc Hp. inversion 1 as [| | ds s' Hs Hd Hf Hm]; subst; [done|].
  assert (Hds : contains_byte c ds = false) by (by apply (contains_byte_forallb c _ is_ascii_digit)).
  destruct Hs as [-> | ->]; [done|]. change (("+"%byte =b c) || contains_byte c ds = false). rewrite Hds, orb_false_r.
  apply byte_eqb_neq. intros <-. done.
Qed.

(** *** What is behind the user information *)

Definition read_host_port (hp : str) : result UriError (option N) :=
  if starts_with (B "[") hp then
    match find_byte "]" hp with
    | Some e =>
        validate_ip_literal (slice 1 e hp);;
        let after := drop (e + 1) hp in
        if is_empty after then Ok None
        else match strip_prefix (B ":") after with
             | Some s => port ← port_of s; Ok (Some port)
             | None => Err InvalidHost
             end
    | None => Err InvalidHost
    end
  else
    match rfind_byte ":" hp with
    | Some c =>
        validate_host (take c hp);;
        if is_empty (drop (c + 1) hp) then Ok None else port ← port_of (drop (c + 1) hp); Ok (Some port)
    | None => validate_host hp;; Ok None
    end.

Lemma parse_authority_read a n :
  (exists e, parse_authority a = Ok (e, n)) <->
  match rfind_byte "@" a with
  | Some i => validate_userinfo (take i a) = Ok tt /\ read_host_port (drop (i + 1) a) = Ok n
  | None => read_host_port a = Ok n
  end.
Proof.
  unfold parse_authority. destruct (is_empty a) eqn:Ha.
  { destruct a; [|done]. cbn. split; [intros [e [= _ <-]]; done | intros [= <-]; by eexists]. }
  assert (Hrest : forall hp e1 e2 e3 e4 e5, (exists e,
    (if starts_with (B "[") hp then
      match find_byte "]" hp with
      | Some bracket_end =>
          validate_ip_literal (slice 1 bracket_end hp);;
          let after := drop (bracket_end + 1) hp in
          if is_empty after then Ok (e1, None)
          else match strip_prefix (B ":") after with
               | Some s => port ← port_of s; Ok (e2 after, Some port)
               | None => Err InvalidHost
               end
      | None => Err InvalidHost
      end
    else
      match rfind_byte ":" hp with
      | Some c =>
          validate_host (take c hp);;
          if negb (is_empty (drop (c + 1) hp)) then port ← port_of (drop (c + 1) hp); Ok (e3 c, Some port)
          else Ok (e4, None)
      | None => validate_host hp;; Ok (e5, None)
      end) = Ok (e : nat, n)) <-> read_host_port hp = Ok n).
  { intros hp e1 e2 e3 e4 e5. unfold read_host_port, mbind, result_bind, ok_or.
    repeat case_match; simplify_eq; try naive_solver. }
  destruct (rfind_byte "@" a) as [i|].
  - destruct (validate_userinfo (take i a)) as [[]|] eqn:Eu; cbn [mbind result_bind]; [|split; [by intros [] | by intros []]].
    rewrite <- (Hrest (drop (i + 1) a) (length a) (fun after => length a - length after)%nat (fun c => i + 1 + c)%nat (length a) (length a)).
    naive_solver.
  - cbn [mbind result_bind]. apply (Hrest a (length a) (fun after => length a - length after)%nat (fun c => c) (length a) (length a)).
Qed.

Lemma rfind_none c s : contains_byte c s = false <-> rfind_byte c s = None.
Proof. unfold contains_byte, rfind_byte. by rewrite rposition_None, existsb_negb_forallb, negb_false_iff. Qed.

Lemma port_read lit s n : s <> [] -> (port ← port_of s; Ok (Some port)) = Ok n <-> good_port lit (Some s) n.
Proof.
  intros Hne. destruct (port_of s) as [v|e] eqn:E; cbn [mbind result_bind].
  - pose proof (proj1 (port_of_iff lit s v Hne) E) as Hv. split; [by intros [= <-]|]. intros Hn. destruct n as [n|].
    + apply port_of_iff in Hn; [|done]. congruence.
    + inversion Hn; subst; done.
  - split; [done|]. destruct n as [n|]; intros Hn; [|by inversion Hn; subst]. apply port_of_iff in Hn; [congruence | done].
Qed.

Lemma port_blank lit n : good_port lit (Some []) n -> lit = false /\ n = None.
Proof. inversion 1 as [|Hf| ds s' Hs Hd]; subst; [done|]. by destruct Hs as [<- | Hs]. Qed.

Lemma read_host_port_parts hp n :
  read_host_port hp = Ok n ->
  exists lit host pt, hp = host ++ opt_pre (B ":") pt /\ good_host lit host /\ good_port lit pt n.
Proof.
  unfold read_host_port. destruct (starts_with (B "[") hp) eqn:Eb.
  - destruct hp as [|b r]; [done|]. assert (b = "["%byte) as -> by (by destruct b).
    destruct (find_byte "]" ("["%byte :: r)) as [e|] eqn:Ee; [|done]. apply position_Some in Ee as (x & Hx & Hxe & _).
    apply byte_eqb_eq in Hxe as ->. destruct e as [|e]; [done|]. cbn in Hx. rewrite slice_cons, Nat.add_1_r. cbn [drop].
    destruct (validate_ip_literal (take e r)) as [[]|] eqn:El; [|done]. cbn [mbind result_bind]. cbv zeta. apply literal_iff in El.
    assert (Hr : forall t, r = take e r ++ "]"%byte :: t -> "["%byte :: r = (B "[" ++ take e r ++ B "]") ++ t)
      by (intros t Ht; rewrite Ht at 1; by rewrite <- !app_assoc).
    pose proof (take_drop_middle r e "]"%byte Hx) as Hd. symmetry in Hd. apply Hr in Hd. clear Hr.
    destruct (drop (S e) r) as [|c after]; cbn [is_empty].
    + intros [= <-]. exists true, (B "[" ++ take e r ++ B "]"), None. by split_and!; [|apply host_literal|apply port_none].
    + destruct (c =b ":") eqn:Ec; [apply byte_eqb_eq in Ec as -> | by destruct c].
      cbn [strip_prefix B]. change (strip_prefix (B ":") (":"%byte :: after)) with (Some after). cbv beta iota.
      intros Hp. exists true, (B "[" ++ take e r ++ B "]"), (Some after). split_and!; [done|by apply host_literal|].
      apply port_read; [by intros -> | done].
  - destruct (rfind_byte ":" hp) as [c|] eqn:Ec.
    + apply rfind_split in Ec as (h & s & -> & -> & Hs). rewrite take_app_length, Nat.add_1_r, drop_past.
      assert (Hh : starts_with (B "[") h = false) by (destruct h as [|b h]; [done|]; revert Eb; by destruct b).
      destruct (validate_host h) as [[]|] eqn:Ev; [|done]. cbn [mbind result_bind]. apply (validate_name h Hh) in Ev.
      intros Hp. exists false, h, (Some s). split_and!; [done|by apply host_name|].
      destruct s as [|b s]; [injection Hp as <-; by apply port_empty | by apply port_read].
    + destruct (validate_host hp) as [[]|] eqn:Ev; [|done]. cbn [mbind result_bind]. apply (validate_name hp Eb) in Ev. intros [= <-].
      exists false, hp, None. split_and!; [by rewrite app_nil_r | by apply host_name | apply port_none].
Qed.

Lemma read_host_port_of lit host pt n :
  good_host lit host -> good_port lit pt n -> read_host_port (host ++ opt_pre (B ":") pt) = Ok n.
Proof.
  intros [h Hh | l Hl] Hp; unfold read_host_port.
  - assert (Hb : starts_with (B "[") (h ++ opt_pre (B ":") pt) = false).
    { apply no_bracket; [by apply (encoded_no "[" reg_name_byte)|by destruct pt]. }
    rewrite Hb. assert (Hs : starts_with (B "[") h = false) by (destruct h as [|b h]; [done|]; revert Hb; by destruct b).
    apply (validate_name h Hs) in Hh as Hv. destruct pt as [s|]; cbn [opt_pre].
    + rewrite rfind_join by (apply rfind_none; by eapply port_no). rewrite take_app_length, Hv. cbn [mbind result_bind].
      rewrite Nat.add_1_r. change (h ++ B ":" ++ s) with (h ++ ":"%byte :: s). rewrite drop_past.
      destruct s as [|b s]; [by apply port_blank in Hp as [_ ->] | by apply (port_read false)].
    + rewrite app_nil_r. rewrite (proj1 (rfind_none ":" h)) by (by apply (encoded_no ":" reg_name_byte)). rewrite Hv. by inversion Hp; subst.
  - change ((B "[" ++ l ++ B "]") ++ opt_pre (B ":") pt) with (("["%byte :: l ++ B "]") ++ opt_pre (B ":") pt).
    assert (Hshape : ("["%byte :: l ++ B "]") ++ opt_pre (B ":") pt = ("["%byte :: l) ++ "]"%byte :: opt_pre (B ":") pt)
      by (cbn; f_equal; by rewrite <- app_assoc).
    rewrite Hshape. cbn [app starts_with strip_prefix]. change (starts_with (B "[") _) with true. cbv iota.
    assert (Hno : contains_byte "]" ("["%byte :: l) = false) by (change (contains_byte "]" l = false); by apply literal_no).
    rewrite (find_byte_app "]" ("["%byte :: l) (opt_pre (B ":") pt) Hno : find_byte "]" ("["%byte :: l ++ "]"%byte :: opt_pre (B ":") pt) = Some (S (length l))).
    rewrite slice_cons, take_app_length. apply literal_iff in Hl as Hv. rewrite Hv. cbn [mbind result_bind]. rewrite Nat.add_1_r. cbn [drop].
    change (length ("["%byte :: l)) with (S (length l)). rewrite drop_past.
    destruct pt as [s|]; cbn [opt_pre]; [|by inversion Hp; subst].
    change (strip_prefix (B ":") (B ":" ++ s)) with (Some s). cbn [is_empty app B].
    apply (port_read true); [|done]. intros ->. by apply port_blank in Hp as [? _].
Qed.

(** The parser takes exactly these authorities. *)
Lemma parse_authority_iff a n : (exists e, parse_authority a = Ok (e, n)) <-> good_authority a n.
Proof.
  rewrite parse_authority_read. unfold good_authority. split.
  - destruct (rfind_byte "@" a) as [i|] eqn:E.
    + apply rfind_split in E as (u & hp & -> & -> & Hn). rewrite take_app_length, Nat.add_1_r, drop_past.
      intros [Hu (lit & h & pt & -> & Hh & Hp)%read_host_port_parts]. apply userinfo_iff in Hu.
      exists (Some u), lit, h, pt. split_and!; try done. by rewrite <- app_assoc.
    + intros (lit & h & pt & -> & Hh & Hp)%read_host_port_parts. by exists None, lit, h, pt.
  - intros (ui & lit & h & pt & -> & Hu & Hh & Hp).
    assert (Hno : rfind_byte "@" (h ++ opt_pre (B ":") pt) = None).
    { apply rfind_none. unfold contains_byte. rewrite existsb_app. fold (contains_byte "@" h).
      assert (contains_byte "@" h = false) as ->.
      { destruct Hh as [h Hh | l Hl]; [by apply (encoded_no "@" reg_name_byte)|].
        unfold contains_byte. rewrite !existsb_app. fold (contains_byte "@" l). by rewrite (literal_no "@" l). }
      destruct pt as [s|]; [|done]. cbn [opt_pre orb]. rewrite existsb_app. fold (contains_byte "@" s). by rewrite (port_no "@" lit s n). }
    destruct ui as [u|].
    + rewrite <- app_assoc, rfind_join by done. rewrite take_app_length, Nat.add_1_r. change (u ++ B "@" ++ ?r) with (u ++ "@"%byte :: r).
      rewrite drop_past. split; [by apply userinfo_iff | by apply (read_host_port_of lit)].
    + cbn [app]. rewrite Hno. by apply (read_host_port_of lit).
Qed.

(** The components are well formed, and name this port. *)
Definition valid_components (c : components) (port : option N) : Prop :=
  match c_authority c with Some a => good_authority a port | None => port = None end /\
  encoded path_byte (c_path c) = true /\
  match c_query c with Some q => encoded is_query_or_fragment_char q = true | None => True end /\
  match c_fragment c with Some f => encoded is_query_or_fragment_char f = true | None => True end.

Lemma valid_components_parsed c n : valid_components c n -> parsed_components c.
Proof.
  intros [Ha Hrest]. split; [|exact Hrest]. destruct (c_authority c) as [a|]; [|done].
  apply parse_authority_iff in Ha as [e Ha]. by rewrite Ha.
Qed.

(** ** The main theorems *)

(** What the three percent-encoders write is decoded to the text it was
    made from, and may stand in the component it is meant for. *)
Lemma percent_codec_roundtrip s :
  utf8_valid s = true ->
  percent_decode (percent_encode s) = Ok s /\ percent_decode (percent_encode_path s) = Ok s /\
  percent_decode (percent_encode_query s) = Ok s /\
  validate_path (percent_encode_path s) = Ok tt /\ validate_query (percent_encode_query s) = Ok tt /\
  validate_fragment (percent_encode s) = Ok tt.
Proof.
  intros Hs. unfold percent_decode, percent_encode, percent_encode_path, percent_encode_query.
  rewrite !percent_decode_encode by done. cbn [mbind result_bind]. rewrite !from_utf8_valid by done.
  rewrite validate_path_iff, validate_query_iff, validate_fragment_iff.
  split_and!; try done; apply encode_encoded; intros b; byte_solve b.
Qed.

Example percent_codec_roundtrip_at : percent_decode (percent_encode (B "a b/%?")) = Ok (B "a b/%?").
Proof. apply (percent_codec_roundtrip (B "a b/%?")). vm_compute. reflexivity. Defined.

(** C30: the parser of URIs is the inverse of putting components together: a
    text is parsed, with the components [c] and the port [n], exactly if it is the
    recomposition of [c] (RFC 3986 Section 5.3), [c] is the only way to take it
    apart, and each component is well formed: path, query and fragment of their
    characters and of percent-encodings, the authority of user information, a
    host (a name or an IPv4 address, an IPv6 address or a future one in
    brackets) and a port - where the code takes a plus sign before the digits of
    a port and an empty port behind a name, but none behind the brackets. *)
Theorem uri_parse_exact s c n :
  (exists u, parse s = Ok u /\ components_of u = c /\ port u = n) <-> s = recompose c /\ structured c /\ valid_components c n.
Proof.
  split.
  - intros (u & Hu & Hc & Hn). destruct (parse_decomposes s u Hu) as (c' & Hst & Hr). rewrite <- Hr in Hu.
    destruct (parse_components c' u Hst Hu) as (Hc' & [_ Hv] & Hp). assert (c' = c) as -> by congruence. split_and!; [done..|].
    split; [|exact Hv]. destruct (c_authority c) as [a|]; [|congruence]. apply parse_authority_iff. by rewrite <- Hn.
  - intros (-> & Hst & Hv). pose proof (valid_components_parsed c n Hv) as Hp. destruct (parse_read_components c Hst Hp) as [u Hu].
    destruct (parse_components c u Hst Hu) as (Hc & _ & Hport). exists u. split_and!; [done..|]. destruct Hv as [Ha _].
    destruct (c_authority c) as [a|]; [|congruence]. destruct Hport as [h Hh]. apply parse_authority_iff in Ha as [e He]. congruence.
Qed.

(** A plus sign before the port, an empty port, and none behind the brackets. *)
Example authority_ports :
  is_ok (parse (B "http://h:+80/")) = true /\ is_ok (parse (B "http://h:/")) = true /\
  parse (B "http://[::1]:/") = Err InvalidPort /\ is_ok (parse (B "http://[::1]:80/")) = true /\
  parse (B "http://u ser@h/") = Err InvalidUserinfo.
Proof. vm_compute. done. Qed.

(** C31: Resolving a reference against an absolute URI never fails, and gives the
    components that the transformation of RFC 3986 Section 5.2.2 gives, with a
    dot segment put before a path that would otherwise be read as an authority
    or as a scheme.  [remove_dot_segments], which it applies to a path that
    begins with a slash, walks over the segments with a stack, as a reference
    that knows no positions does; on any path it leaves no dot segment, and
    nothing to do for a second call. *)
Theorem resolve_refines_rfc3986 :
  (forall base bs r rs, parse bs = Ok base -> parse rs = Ok r -> is_absolute base = true ->
   exists v, resolve base r = Ok v /\ components_of v = rebuilt (transform (components_of base) (components_of r))) /\
  forall s p, remove_dot_segments ("/"%byte :: s) = concat (walk [] (split "/" s)) /\
    Forall (fun seg => is_dots seg = false) (split "/" (remove_dot_segments p)) /\
    remove_dot_segments (remove_dot_segments p) = remove_dot_segments p.
Proof.
  split; [intros base bs r rs; apply resolve_components|]. intros s p.
  split_and!; [by rewrite remove_dot_segments_eq | apply remove_dots_clean | apply remove_dots_idempotent].
Qed.

Lemma resolve_refines_rfc3986_witness :
  match parse (B "http://a/b/c/d;p?q"), parse (B "../../g#s") with
  | Ok base, Ok r => exists v, resolve base r = Ok v /\ components_of v = rebuilt (transform (components_of base) (components_of r))
  | _, _ => False
  end.
Proof.
  destruct (parse (B "http://a/b/c/d;p?q")) as [base|] eqn:Eb; [|by vm_compute in Eb].
  destruct (parse (B "../../g#s")) as [r|] eqn:Er; [|by vm_compute in Er].
  apply (proj1 resolve_refines_rfc3986 base _ r _ Eb Er). vm_compute in Eb. by injection Eb as <-.
Defined.

(** C32: normalization is idempotent: a normalized URI is its own normal form,
    the same text with the same positions. *)
Theorem normalize_idempotent u s v : parse s = Ok u -> normalize u = Ok v -> normalize v = Ok v.
Proof. apply normalize_idem. Qed.

Definition normalize_example : str := B "HTTP://User@EXAMPLE.com:80/%7ea/./b/%2e%2E/%c3/../?%61".
Lemma normalize_idempotent_witness :
  match parse normalize_example with
  | Ok u => match normalize u with Ok v => normalize v = Ok v | Err _ => False end
  | Err _ => False
  end.
Proof.
  destruct (parse normalize_example) as [u|] eqn:Eu; [|by vm_compute in Eu].
  destruct (normalize u) as [v|] eqn:Ev.
  - exact (normalize_idempotent u normalize_example v Eu Ev).
  - vm_compute in Eu. injection Eu as <-. by vm_compute in Ev.
Defined.
