(* ===== verification/Auth.v ===== *)
(** * HTTP authentication ([src/auth.rs])

    Basic, Digest and Bearer credentials and challenges.  A list of parameters
    is parsed from what is left of the input after position [i]. *)
From S2P Require Import Prelude RustStd Validate RustStr Base64.

Module Auth.

Inductive AuthError : Type :=
  | Empty | InvalidFormat | NotBasicScheme | NotDigestScheme | NotBearerScheme | Base64DecodeError | Utf8Error
  | MissingColon | InvalidParameter | MissingParameter | InvalidToken | DuplicateParameter | ColonInUserId
  | ControlCharacter | InvalidCharset | ConflictingUsernameField | InvalidUsernameExtValue | TooManyParameters.

Definition AuthError_fmt (e : AuthError) : str :=
  match e with
  | Empty => B "empty authorization header"
  | InvalidFormat => B "invalid authorization format"
  | NotBasicScheme => B "not basic authentication scheme"
  | NotDigestScheme => B "not digest authentication scheme"
  | NotBearerScheme => B "not bearer authentication scheme"
  | Base64DecodeError => B "base64 decode error"
  | Utf8Error => B "utf-8 decode error"
  | MissingColon => B "missing colon in credentials"
  | InvalidParameter => B "invalid auth parameter"
  | MissingParameter => B "missing required auth parameter"
  | InvalidToken => B "invalid auth token"
  | DuplicateParameter => B "duplicate auth parameter"
  | ColonInUserId => B "colon in user-id"
  | ControlCharacter => B "control character in credentials"
  | InvalidCharset => B "charset must be UTF-8"
  | ConflictingUsernameField => B "both username and username* present (RFC 7616 Section 3.4)"
  | InvalidUsernameExtValue => B "invalid username* ext-value"
  | TooManyParameters => B "too many auth parameters"
  end.

Definition MAX_AUTH_PARAMS : nat := 32.

(** ** Helpers *)

Definition is_ows (b : byte) : bool := (b =b " ") || (b =b "009").

Definition has_control_chars (s : str) : bool := existsb (fun b => (b2n b <=? 31) || (b2n b =? 127)) s.

Definition is_token68_char (b : byte) : bool :=
  within 65 90 b || within 97 122 b || within 48 57 b || (b =b "-") || (b =b ".") || (b =b "_") || (b =b "~")
  || (b =b "+") || (b =b "/").

(** [value.trim_end_matches('=')]. *)
Definition trim_end_matches (c : byte) (s : str) : str := rev (skip_while (fun b => b =b c) (rev s)).

Definition is_token68 (value : str) : bool :=
  if is_empty value then false
  else
    let trimmed := trim_end_matches "=" value in
    negb (is_empty trimmed) && forallb is_token68_char trimmed.

Definition is_attr_char (b : byte) : bool :=
  within 65 90 b || within 97 122 b || within 48 57 b || (b =b "!") || (b =b "#") || (b =b "$") || (b =b "&")
  || (b =b "+") || (b =b "-") || (b =b ".") || (b =b "^") || (b =b "_") || (b =b "`") || (b =b "|") || (b =b "~").

(** The loop over the value characters of an ext-value. *)
Fixpoint decode_value_chars (s : str) : result AuthError bytes :=
  match s with
  | [] => Ok []
  | b :: s' =>
      if b =b "%" then
        match s' with
        | h :: l :: s'' =>
            hi ← ok_or InvalidUsernameExtValue (digit_value 16 h);
            lo ← ok_or InvalidUsernameExtValue (digit_value 16 l);
            result ← decode_value_chars s'';
            Ok (n2b (N.lor (N.shiftl hi 4) lo) :: result)
        | _ => Err InvalidUsernameExtValue
        end
      else if is_attr_char b then result ← decode_value_chars s'; Ok (b :: result)
      else Err InvalidUsernameExtValue
  end.

Definition decode_username_ext_value (input : str) : result AuthError str :=
  '(charset, rest) ← ok_or InvalidUsernameExtValue (split_once "'" input);
  if negb (eq_ignore_ascii_case charset (B "UTF-8")) then Err InvalidUsernameExtValue
  else
    '(_, value_chars) ← ok_or InvalidUsernameExtValue (split_once "'" rest);
    result ← decode_value_chars value_chars;
    map_err (fun _ => InvalidUsernameExtValue) (from_utf8 result).

Definition strip_scheme (input scheme : str) : option str :=
  let input := trim_start input in
  if (length input <=? length scheme)%nat then None
  else if negb (eq_ignore_ascii_case (take (length scheme) input) scheme) then None
  else
    let rest := drop (length scheme) input in
    if is_empty rest then None
    else if negb (starts_with (B " ") rest) && negb (starts_with ["009"%byte] rest) then None
    else Some (trim_start rest).

(** ** Parameters *)

Abbreviation param := (str * str)%type.

(** The loop over a quoted value, after its opening quote: the value, and what
    is behind the closing quote. *)
Fixpoint quoted_value (inner value : str) : result AuthError (str * str) :=
  match inner with
  | [] => Err InvalidParameter
  | c :: iter =>
      if c =b DQUOTE then Ok (value, iter)
      else if c =b BACKSLASH then
        match iter with
        | [] => Err InvalidParameter
        | next_c :: iter' =>
            if negb (is_quoted_pair_char next_c) then Err InvalidParameter
            else quoted_value iter' (value ++ [next_c])
        end
      else if negb (is_qdtext_char c) then Err InvalidParameter
      else quoted_value iter (value ++ [c])
  end.

(** The value that starts the input. *)
Definition auth_value (input : str) : result AuthError (str * str) :=
  match input with
  | [] => Err InvalidParameter
  | c :: inner =>
      if c =b DQUOTE then quoted_value inner []
      else
        let in_value b := negb (is_ows b) && (b <>b ",") in
        let token := take_while in_value input in
        if is_empty token || negb (is_valid_token token) then Err InvalidParameter
        else Ok (token, skip_while in_value input)
  end.

(** One parameter at the start of the input, which is not empty. *)
Definition auth_param (input : str) : result AuthError (param * str) :=
  let name := take_while is_token_char input in
  if is_empty name then Err InvalidParameter
  else
    match skip_while is_ows (skip_while is_token_char input) with
    | c :: input =>
        if c <>b "=" then Err InvalidParameter
        else
          '(value, input) ← auth_value (skip_while is_ows input);
          Ok (to_ascii_lowercase name, value, input)
    | [] => Err InvalidParameter
    end.

(** The outer loop of [parse_auth_params]: each round takes at least a byte. *)
Fixpoint auth_params_loop (fuel : nat) (input : str) (params : list param) : result AuthError (list param) :=
  match fuel with
  | O => Ok params
  | S fuel =>
      if is_empty input then Ok params
      else
        let input := skip_while is_ows input in
        match input with
        | [] => Ok params
        | c :: rest =>
            if c =b "," then auth_params_loop fuel rest params
            else
              '(key, value, input) ← auth_param input;
              if existsb (fun '(n, _) => n =s key) params then Err DuplicateParameter
              else if (MAX_AUTH_PARAMS <=? length params)%nat then Err TooManyParameters
              else
                let params := params ++ [(key, value)] in
                match skip_while is_ows input with
                | [] => auth_params_loop fuel [] params
                | c :: input => if c =b "," then auth_params_loop fuel input params else Err InvalidParameter
                end
        end
  end.

Definition parse_auth_params (input : str) : result AuthError (list param) :=
  params ← auth_params_loop (S (length input)) input [];
  if is_empty params then Err InvalidFormat else Ok params.

Definition has_required_params (params : list param) (required : list str) : bool :=
  forallb (fun name => existsb (fun '(n, _) => n =s to_ascii_lowercase name) params) required.

Definition needs_quoting (value : str) : bool := is_empty value || existsb (fun b => negb (is_token_char b)) value.

Definition format_auth_param (p : param) : str :=
  let '(name, value) := p in
  if needs_quoting value then name ++ B "=" ++ [DQUOTE] ++ escape_quotes value ++ [DQUOTE]
  else name ++ B "=" ++ value.

Definition format_auth_params (params : list param) : str := join (B ", ") (map format_auth_param params).

(** [self.params.iter().find(|(n, _)| n == name).map(|(_, v)| v)]. *)
Definition find_param (params : list param) (name : str) : option str :=
  snd <$> List.find (fun '(n, _) => n =s name) params.

(** ** Basic *)

Record BasicAuth : Type := { username : str; password : str }.

Definition BasicAuth_new (username password : str) : result AuthError BasicAuth :=
  if contains_byte ":" username then Err ColonInUserId
  else if has_control_chars username || has_control_chars password then Err ControlCharacter
  else Ok {| username := username; password := password |}.

Definition BasicAuth_parse (input : str) : result AuthError BasicAuth :=
  let input := trim input in
  if is_empty input then Err Empty
  else
    credentials ← ok_or NotBasicScheme (strip_scheme input (B "Basic"));
    if is_empty credentials then Err InvalidFormat
    else if negb (is_token68 credentials) then Err InvalidToken
    else
      decoded ← map_err (fun _ => Base64DecodeError) (Base64.decode credentials);
      decoded_str ← map_err (fun _ => Utf8Error) (from_utf8 decoded);
      '(username, password) ← ok_or MissingColon (split_once ":" decoded_str);
      if has_control_chars username || has_control_chars password then Err ControlCharacter
      else Ok {| username := username; password := password |}.

Definition BasicAuth_to_header_value (a : BasicAuth) : str :=
  let credentials := username a ++ B ":" ++ password a in
  B "Basic " ++ Base64.encode credentials.

Record WwwAuthenticate : Type := { www_realm : str; charset : option str }.

Definition basic (realm : str) : WwwAuthenticate := {| www_realm := realm; charset := None |}.
Definition with_charset_utf8 (a : WwwAuthenticate) : WwwAuthenticate :=
  {| www_realm := www_realm a; charset := Some (B "UTF-8") |}.

(** The loop over the parameters of a challenge. *)
Fixpoint www_params (params : list param) (realm charset : option str) : result AuthError (option str * option str) :=
  match params with
  | [] => Ok (realm, charset)
  | (key, value) :: params' =>
      if key =s B "realm" then www_params params' (Some value) charset
      else if key =s B "charset" then
        if negb (eq_ignore_ascii_case value (B "UTF-8")) then Err InvalidCharset
        else www_params params' realm (Some value)
      else www_params params' realm charset
  end.

Definition WwwAuthenticate_parse (input : str) : result AuthError WwwAuthenticate :=
  let input := trim input in
  if is_empty input then Err Empty
  else
    params ← ok_or NotBasicScheme (strip_scheme input (B "Basic"));
    if is_empty params then Err InvalidFormat
    else
      parsed_params ← parse_auth_params params;
      '(realm, charset) ← www_params parsed_params None None;
      realm ← ok_or InvalidFormat realm;
      Ok {| www_realm := realm; charset := charset |}.

Definition WwwAuthenticate_fmt (a : WwwAuthenticate) : str :=
  B "Basic realm=" ++ [DQUOTE] ++ escape_quotes (www_realm a) ++ [DQUOTE]
  ++ match charset a with
     | Some charset => B ", charset=" ++ [DQUOTE] ++ escape_quotes charset ++ [DQUOTE]
     | None => []
     end.

(** ** Digest and Bearer: a list of parameters *)

Definition DigestAuth : Type := list param.
Definition DigestChallenge : Type := list param.
Definition BearerChallenge : Type := list param.

(** What the parsers of the parameter lists share. *)
Definition parse_scheme_params (scheme : str) (other : AuthError) (input : str) : result AuthError (list param) :=
  let input := trim input in
  if is_empty input then Err Empty
  else
    params ← ok_or other (strip_scheme input scheme);
    if is_empty params then Err InvalidFormat else parse_auth_params params.

Definition DigestAuth_parse (input : str) : result AuthError DigestAuth :=
  params ← parse_scheme_params (B "Digest") NotDigestScheme input;
  let has name := existsb (fun '(n, _) => n =s name) params in
  let has_username := has (B "username") in
  let has_username_ext := has (B "username*") in
  if has_username && has_username_ext then Err ConflictingUsernameField
  else if negb has_username && negb has_username_ext then Err MissingParameter
  else
    (if has_username_ext then decode_username_ext_value (default [] (find_param params (B "username*"))) else Ok []);;
    if negb (has_required_params params [B "realm"; B "nonce"; B "uri"; B "response"]) then Err MissingParameter
    else Ok params.

Definition DigestChallenge_parse (input : str) : result AuthError DigestChallenge :=
  params ← parse_scheme_params (B "Digest") NotDigestScheme input;
  if negb (has_required_params params [B "realm"; B "nonce"]) then Err MissingParameter else Ok params.

Definition BearerChallenge_parse (input : str) : result AuthError BearerChallenge :=
  parse_scheme_params (B "Bearer") NotBearerScheme input.

(** The accessors [param], [username], [realm], [nonce], [uri] and [response]. *)
Definition get_param (params : list param) (name : str) : option str := find_param params (to_ascii_lowercase name).
Definition digest_username (params : DigestAuth) : option str := get_param params (B "username").
Definition realm (params : list param) : option str := get_param params (B "realm").
Definition nonce (params : list param) : option str := get_param params (B "nonce").
Definition uri (params : DigestAuth) : option str := get_param params (B "uri").
Definition response (params : DigestAuth) : option str := get_param params (B "response").

Definition username_decoded (params : DigestAuth) : option str :=
  match get_param params (B "username") with
  | Some v => Some v
  | None =>
      raw ← get_param params (B "username*");
      match decode_username_ext_value raw with Ok s => Some s | Err _ => None end
  end.

Definition Digest_to_header_value (params : list param) : str := B "Digest " ++ format_auth_params params.
Definition BearerChallenge_to_header_value (params : BearerChallenge) : str := B "Bearer " ++ format_auth_params params.

Record BearerToken : Type := { token : str }.

Definition BearerToken_parse (input : str) : result AuthError BearerToken :=
  let input := trim input in
  if is_empty input then Err Empty
  else
    let is_bearer_scheme :=
      (6 <=? length input)%nat && eq_ignore_ascii_case (take 6 input) (B "Bearer") in
    if negb is_bearer_scheme then Err NotBearerScheme
    else
      let token := default [] (strip_scheme input (B "Bearer")) in
      if is_empty token then Err InvalidFormat
      else if negb (is_token68 token) then Err InvalidToken
      else Ok {| token := token |}.

Definition BearerToken_to_header_value (t : BearerToken) : str := B "Bearer " ++ token t.

(** ** The header fields *)

Inductive Authorization : Type :=
  | Basic (a : BasicAuth) | Digest (a : DigestAuth) | Bearer (a : BearerToken).


Definition Authorization_parse (input : str) : result AuthError Authorization :=
  let input := trim input in
  if is_empty input then Err Empty
  else if is_some (strip_scheme input (B "Basic")) then a ← BasicAuth_parse input; Ok (Basic a)
  else if is_some (strip_scheme input (B "Digest")) then a ← DigestAuth_parse input; Ok (Digest a)
  else if is_some (strip_scheme input (B "Bearer")) then a ← BearerToken_parse input; Ok (Bearer a)
  else Err InvalidFormat.

Definition Authorization_to_header_value (a : Authorization) : str :=
  match a with
  | Basic a => BasicAuth_to_header_value a
  | Digest a => Digest_to_header_value a
  | Bearer a => BearerToken_to_header_value a
  end.

Inductive AuthChallenge : Type :=
  | BasicC (a : WwwAuthenticate) | DigestC (a : DigestChallenge) | BearerC (a : BearerChallenge).

Definition AuthChallenge_parse (input : str) : result AuthError AuthChallenge :=
  let input := trim input in
  if is_empty input then Err Empty
  else if is_some (strip_scheme input (B "Basic")) then a ← WwwAuthenticate_parse input; Ok (BasicC a)
  else if is_some (strip_scheme input (B "Digest")) then a ← DigestChallenge_parse input; Ok (DigestC a)
  else if is_some (strip_scheme input (B "Bearer")) then a ← BearerChallenge_parse input; Ok (BearerC a)
  else Err InvalidFormat.

Definition AuthChallenge_to_header_value (a : AuthChallenge) : str :=
  match a with
  | BasicC a => WwwAuthenticate_fmt a
  | DigestC a => Digest_to_header_value a
  | BearerC a => BearerChallenge_to_header_value a
  end.

(** The two proxy fields wrap the others. *)
Inductive ProxyAuthorization : Type := ProxyAuthorization_of (a : Authorization).
Inductive ProxyAuthenticate : Type := ProxyAuthenticate_of (a : AuthChallenge).

Definition ProxyAuthorization_parse (input : str) : result AuthError ProxyAuthorization :=
  a ← Authorization_parse input; Ok (ProxyAuthorization_of a).
Definition ProxyAuthorization_to_header_value (a : ProxyAuthorization) : str :=
  let '(ProxyAuthorization_of a) := a in Authorization_to_header_value a.
Definition ProxyAuthenticate_parse (input : str) : result AuthError ProxyAuthenticate :=
  a ← AuthChallenge_parse input; Ok (ProxyAuthenticate_of a).
Definition ProxyAuthenticate_to_header_value (a : ProxyAuthenticate) : str :=
  let '(ProxyAuthenticate_of a) := a in AuthChallenge_to_header_value a.

Example parse_basic : BasicAuth_parse (B "Basic dXNlcjpwYXNzd29yZA==") = Ok {| username := B "user"; password := B "password" |}.
Proof. vm_compute. reflexivity. Qed.
Example parse_params_ex : parse_auth_params (B "a=1 , B = 2,,c=") = Err InvalidParameter. Proof. vm_compute. reflexivity. Qed.
Example parse_params_ex2 : parse_auth_params (B "a=1 , B = 2,,") = Ok [(B "a", B "1"); (B "b", B "2")]. Proof. vm_compute. reflexivity. Qed.
End Auth.
