(* ===== verification/AuthTheorems.v ===== *)
(** * HTTP authentication: the fields are read back as they are written
    ([src/auth.rs]) *)
From S2P Require Import Prelude RustStd Validate RustStr Base64 Auth.
Import Auth.

(** ** Parameters *)

Definition param_ok (p : param) : bool :=
  is_valid_token (fst p) && (to_ascii_lowercase (fst p) =s fst p) && forallb is_quoted_pair_char (snd p).

Definition params_ok (ps : list param) : Prop :=
  Forall (fun p => param_ok p = true) ps /\ List.NoDup (map fst ps) /\ (length ps <= MAX_AUTH_PARAMS)%nat.

Lemma quoted_value_escape v rest acc :
  forallb is_quoted_pair_char v = true ->
  quoted_value (escape_quotes v ++ DQUOTE :: rest) acc = Ok (acc ++ v, rest).
Proof.
  revert acc. induction v as [|c v IH]; intros acc; [intros _; cbn; by rewrite app_nil_r|].
  cbn [forallb]. intros [Hc Hv]%andb_true_iff. unfold escape_quotes. cbn [flat_map]. fold (escape_quotes v).
  unfold escape_char. rewrite Hc. cbn [negb]. rewrite <- app_assoc.
  destruct ((c =b DQUOTE) || (c =b BACKSLASH)) eqn:E; cbn [app quoted_value].
  - change (BACKSLASH =b DQUOTE) with false. rewrite byte_eqb_refl, Hc. cbn [negb]. rewrite IH by done. by rewrite <- app_assoc.
  - apply orb_false_iff in E as [E1 E2]. rewrite E1, E2. assert (is_qdtext_char c = true) as -> by (revert Hc E1 E2; clear; byte_solve c).
    cbn [negb]. rewrite IH by done. by rewrite <- app_assoc.
Qed.

(** What a quoted value holds, and that something is taken. *)
Lemma quoted_value_ok inner acc v rest :
  quoted_value inner acc = Ok (v, rest) -> forallb is_quoted_pair_char acc = true ->
  forallb is_quoted_pair_char v = true /\ (length rest < length inner)%nat.
Proof.
  revert acc. induction inner as [inner IH] using (induction_ltof1 _ (@length byte)); unfold ltof in IH. intros acc.
  destruct inner as [|c inner]; [done|]. cbn [quoted_value length].
  assert (Hsnoc : forall l x, forallb is_quoted_pair_char l = true -> is_quoted_pair_char x = true -> forallb is_quoted_pair_char (l ++ [x]) = true).
  { intros l x Hl Hx. rewrite forallb_app, Hl. cbn. by rewrite Hx. }
  destruct (c =b DQUOTE) eqn:E1; [intros [= <- <-] Ha; split; [done | lia]|]. destruct (c =b BACKSLASH) eqn:E2.
  - destruct inner as [|n inner]; [done|]. destruct (is_quoted_pair_char n) eqn:En; [|done]. cbn [negb length].
    intros H Ha. apply IH in H; [|cbn; lia|by apply Hsnoc]. destruct H. split; [done | lia].
  - destruct (is_qdtext_char c) eqn:Eq; [|done]. cbn [negb]. intros H Ha. apply IH in H; [|cbn; lia|].
    + destruct H. split; [done | lia].
    + apply Hsnoc; [done|]. revert Eq. clear. byte_solve c.
Qed.

Lemma take_while_whole {A} (p : A -> bool) l : forallb p l = true -> take_while p l = l.
Proof. induction l as [|x l IH]; [done|]. cbn. destruct (p x); [intros ?; by rewrite IH | done]. Qed.
Lemma skip_while_all {A} (p : A -> bool) l : forallb p l = true -> skip_while p l = [].
Proof. induction l as [|x l IH]; [done|]. cbn. destruct (p x); [done|done]. Qed.

Lemma auth_value_quoted v rest :
  forallb is_quoted_pair_char v = true -> auth_value (DQUOTE :: escape_quotes v ++ DQUOTE :: rest) = Ok (v, rest).
Proof. intros Hv. cbn [auth_value]. rewrite byte_eqb_refl. by rewrite quoted_value_escape. Qed.

Definition comma_next (rest : str) : Prop := rest = [] \/ exists r, rest = ","%byte :: r.

Lemma auth_value_token v rest :
  is_valid_token v = true -> comma_next rest -> auth_value (v ++ rest) = Ok (v, rest).
Proof.
  intros Hv Hr. pose proof Hv as (Hne & Hf)%is_valid_token_iff. unfold auth_value.
  set (inv := fun b => negb (is_ows b) && (b <>b ",")).
  assert (Hin : forallb inv v = true) by (revert Hf; apply forallb_impl; intros b; unfold inv; byte_solve b).
  assert (take_while inv (v ++ rest) = v /\ skip_while inv (v ++ rest) = rest) as [-> ->].
  { destruct Hr as [->|[r ->]]; [rewrite app_nil_r; by rewrite take_while_whole, skip_while_all|].
    by rewrite take_while_app, skip_while_app. }
  rewrite Hv. destruct v as [|c v]; [done|]. cbn [app is_empty orb negb].
  apply andb_true_iff in Hf as [Hc _]. assert ((c =b DQUOTE) = false) as -> by (revert Hc; clear; byte_solve c). done.
Qed.

Lemma auth_param_eq name value rest rest' :
  is_valid_token name = true -> to_ascii_lowercase name = name -> visible_start value ->
  auth_value value = Ok (rest, rest') -> auth_param (name ++ B "=" ++ value) = Ok (name, rest, rest').
Proof.
  intros Hn Hl (b & m & -> & Hb) Hv. apply is_valid_token_iff in Hn as [Hne Hf]. unfold auth_param.
  change (B "=" ++ b :: m) with ("="%byte :: b :: m).
  rewrite take_while_app, skip_while_app by done. assert (is_empty name = false) as -> by (by destruct name).
  change (skip_while is_ows ("="%byte :: b :: m)) with ("="%byte :: b :: m). cbv iota. change ("="%byte <>b "=") with false. cbv iota.
  cbn [skip_while]. assert (is_ows b = false) as -> by (revert Hb; clear; byte_solve b). rewrite Hv. cbn [mbind result_bind]. by rewrite Hl.
Qed.

Lemma auth_param_quoted name v rest :
  is_valid_token name = true -> to_ascii_lowercase name = name -> forallb is_quoted_pair_char v = true ->
  auth_param (name ++ B "=" ++ [DQUOTE] ++ escape_quotes v ++ [DQUOTE] ++ rest) = Ok (name, v, rest).
Proof.
  intros Hn Hl Hv. apply auth_param_eq; [done | done | by exists DQUOTE, (escape_quotes v ++ [DQUOTE] ++ rest)|]. by apply auth_value_quoted.
Qed.

Lemma param_ok_parts n v : param_ok (n, v) = true ->
  is_valid_token n = true /\ to_ascii_lowercase n = n /\ forallb is_quoted_pair_char v = true.
Proof. unfold param_ok. cbn [fst snd]. rewrite !andb_true_iff, beqs_eq. tauto. Qed.

Lemma auth_param_format p rest :
  param_ok p = true -> comma_next rest -> auth_param (format_auth_param p ++ rest) = Ok (p, rest).
Proof.
  destruct p as [n v]. intros (Hn & Hl & Hv)%param_ok_parts Hr. unfold format_auth_param.
  destruct (needs_quoting v) eqn:E.
  - rewrite <- !app_assoc. by apply auth_param_quoted.
  - rewrite <- !app_assoc. unfold needs_quoting in E. apply orb_false_iff in E as [Ee Et].
    assert (Ht : is_valid_token v = true).
    { apply is_valid_token_iff. split; [by destruct v|]. rewrite existsb_negb_forallb, negb_false_iff in Et.
      revert Et. apply forallb_impl. intros x. by rewrite negb_involutive. }
    apply auth_param_eq; [done | done | | by apply auth_value_token].
    apply visible_start_app. destruct v as [|b v]; [done|]. apply is_valid_token_iff in Ht as [_ Hf].
    apply andb_true_iff in Hf as [Hb _]. exists b, v. split; [done|]. revert Hb. clear. byte_solve b.
Qed.

Lemma format_start p : param_ok p = true -> exists c m, format_auth_param p = c :: m /\ is_token_char c = true.
Proof.
  destruct p as [n v]. intros (Hn & _)%param_ok_parts. apply is_valid_token_iff in Hn as [Hne Hf]. destruct n as [|c n]; [done|].
  apply andb_true_iff in Hf as [Hc _]. unfold format_auth_param. destruct (needs_quoting v); by eexists c, _.
Qed.

Definition text_of (ps : list param) : str := format_auth_params ps.

Lemma text_cons p ps : ps <> [] -> text_of (p :: ps) = format_auth_param p ++ B ", " ++ text_of ps.
Proof. intros Hne. unfold text_of, format_auth_params. cbn [map]. apply join_cons. by destruct ps. Qed.

(** One round on a parameter that is not there yet, however it is written. *)
Lemma loop_param_text fuel t p rest acc :
  (exists c m, t = c :: m /\ is_token_char c = true) -> auth_param (t ++ rest) = Ok (p, rest) ->
  comma_next rest -> ~ In (fst p) (map fst acc) -> (length acc < MAX_AUTH_PARAMS)%nat ->
  auth_params_loop (S fuel) (t ++ rest) acc = auth_params_loop fuel (drop 1 rest) (acc ++ [p]).
Proof.
  intros (c & m & Hc & Ht) Hp Hr Hin Hlen.
  assert (Hsk : skip_while is_ows (t ++ rest) = t ++ rest).
  { rewrite Hc. cbn [app skip_while]. by assert (is_ows c = false) as -> by (revert Ht; clear; byte_solve c). }
  cbn [auth_params_loop]. rewrite Hsk. cbv zeta.
  assert (Hcons : t ++ rest = c :: (m ++ rest)) by (by rewrite Hc). rewrite Hcons. cbn [is_empty].
  assert ((c =b ",") = false) as -> by (revert Ht; clear; byte_solve c). rewrite <- Hcons, Hp. destruct p as [n v]. cbn [mbind result_bind].
  assert (existsb (fun '(n0, _) => n0 =s n) acc = false) as ->.
  { clear -Hin. induction acc as [|[x y] acc IH]; [done|]. cbn [existsb map fst] in *. rewrite IH by (intros ?; apply Hin; by right).
    rewrite orb_false_r. apply beqs_neq. intros ->. apply Hin. by left. }
  destruct (MAX_AUTH_PARAMS <=? _)%nat eqn:E; [apply Nat.leb_le in E; by apply Nat.lt_nge in Hlen|]. cbv zeta.
  destruct Hr as [->|[r ->]]; done.
Qed.

Lemma loop_param fuel p rest acc :
  param_ok p = true -> comma_next rest -> ~ In (fst p) (map fst acc) -> (length acc < MAX_AUTH_PARAMS)%nat ->
  auth_params_loop (S fuel) (format_auth_param p ++ rest) acc = auth_params_loop fuel (drop 1 rest) (acc ++ [p]).
Proof. intros Hp Hr Hin Hlen. apply loop_param_text; [by apply format_start | by apply auth_param_format | done..]. Qed.

Lemma loop_format ps : forall acc fuel,
  ps <> [] -> Forall (fun p => param_ok p = true) ps -> List.NoDup (map fst (acc ++ ps)) -> (length (acc ++ ps) <= MAX_AUTH_PARAMS)%nat ->
  (2 * length ps <= fuel)%nat -> auth_params_loop fuel (text_of ps) acc = Ok (acc ++ ps).
Proof.
  induction ps as [|p ps IH]; intros acc fuel Hne Hf Hnd Hlen Hfuel; [done|]. apply Forall_cons_iff in Hf as [Hp Hf].
  assert (Hin : ~ In (fst p) (map fst acc)).
  { rewrite map_app in Hnd. cbn [map] in Hnd. apply NoDup_remove_2 in Hnd. intros Hi. apply Hnd, in_or_app. by left. }
  rewrite length_app in Hlen. cbn [length] in Hlen, Hfuel. destruct fuel as [|fuel]; [lia|]. destruct ps as [|q ps].
  - unfold text_of, format_auth_params. cbn [map join]. rewrite <- (app_nil_r (format_auth_param p)).
    rewrite loop_param; [|done|by left|done|lia]. by destruct fuel.
  - rewrite text_cons by done. rewrite loop_param; [|done|by right; eexists|done|lia].
    change (drop 1 (B ", " ++ text_of (q :: ps))) with (" "%byte :: text_of (q :: ps)).
    assert (Hsk : auth_params_loop fuel (" "%byte :: text_of (q :: ps)) (acc ++ [p]) = auth_params_loop fuel (text_of (q :: ps)) (acc ++ [p])).
    { destruct fuel as [|fuel]; [done|]. cbn [auth_params_loop]. change (is_empty (" "%byte :: text_of (q :: ps))) with false.
      change (skip_while is_ows (" "%byte :: ?x)) with (skip_while is_ows x). cbv iota.
      destruct (is_empty (text_of (q :: ps))) eqn:E; [|done]. exfalso. apply Forall_cons_iff in Hf as [Hq _].
      destruct (format_start q Hq) as (c & m & Hc & _). destruct ps as [|q2 ps].
      - unfold text_of, format_auth_params in E. cbn [map join] in E. by rewrite Hc in E.
      - rewrite text_cons in E by done. by rewrite Hc in E. }
    rewrite Hsk, IH; [by rewrite <- app_assoc | done | done | by rewrite <- app_assoc | rewrite <- app_assoc, length_app; cbn [length app] in *; lia | cbn [length] in *; lia].
Qed.

Lemma text_length ps : Forall (fun p => param_ok p = true) ps -> (2 * length ps <= S (length (text_of ps)))%nat.
Proof.
  induction 1 as [|p ps Hp Hf IH]; [cbn; lia|]. destruct (format_start p Hp) as (c & m & Hc & _). destruct ps as [|q ps].
  - unfold text_of, format_auth_params. cbn [map join]. rewrite Hc. cbn. lia.
  - rewrite text_cons by done. rewrite Hc, !length_app. cbn [length] in *. change (length (B ", ")) with 2%nat. lia.
Qed.

Lemma parse_format ps : ps <> [] -> params_ok ps -> parse_auth_params (format_auth_params ps) = Ok ps.
Proof.
  intros Hne (Hf & Hnd & Hlen). unfold parse_auth_params. pose proof (text_length ps Hf) as Hl. fold (text_of ps).
  rewrite loop_format; [|done|done|done|done|lia]. by destruct ps.
Qed.

(** ** What is parsed can be written *)

Lemma auth_value_ok input v rest : auth_value input = Ok (v, rest) -> forallb is_quoted_pair_char v = true.
Proof.
  unfold auth_value. destruct input as [|c inner]; [done|]. destruct (c =b DQUOTE).
  - intros H. by apply (quoted_value_ok inner [] v rest).
  - cbv zeta. destruct (is_empty _ || _) eqn:E; [done|]. intros [= <- _]. apply orb_false_iff in E as [_ E].
    apply negb_false_iff, is_valid_token_iff in E as [_ E]. revert E. apply forallb_impl. intros b. byte_solve b.
Qed.

Lemma lower_token s : forallb is_token_char s = true -> forallb is_token_char (to_ascii_lowercase s) = true.
Proof.
  unfold to_ascii_lowercase. induction s as [|b s IH]; [done|]. cbn [map forallb]. rewrite !andb_true_iff. intros [Hb Hs].
  split; [revert Hb; clear; byte_solve b | by apply IH].
Qed.

Lemma auth_param_ok input p rest : auth_param input = Ok (p, rest) -> param_ok p = true.
Proof.
  unfold auth_param. cbv zeta. pose proof (take_while_forallb is_token_char input) as Ht.
  set (name := take_while is_token_char input) in *. destruct (is_empty name) eqn:En; [done|].
  destruct (skip_while is_ows _) as [|c r]; [done|]. destruct (negb _); [done|].
  destruct (auth_value _) as [[v r2]|] eqn:Ev; [|done]. cbn [mbind result_bind]. intros [= <- _].
  unfold param_ok. cbn [fst snd]. rewrite !andb_true_iff, beqs_eq. split_and!.
  - apply is_valid_token_iff. split; [by destruct name | by apply lower_token].
  - apply lower_idem.
  - by eapply auth_value_ok.
Qed.

Lemma not_existsb_key key (ps : list param) : existsb (fun '(n, _) => n =s key) ps = false -> ~ In key (map fst ps).
Proof.
  induction ps as [|[n v] ps IH]; [by intros _ []|]. cbn [existsb map fst]. intros [H1 H2]%orb_false_iff.
  intros [->|Hin]; [by rewrite beqs_refl in H1 | by apply IH].
Qed.

Lemma NoDup_snoc {A} (l : list A) x : List.NoDup l -> ~ In x l -> List.NoDup (l ++ [x]).
Proof.
  intros Hl Hx. apply (NoDup_Add (a := x) (l := l)); [|done]. rewrite <- (app_nil_r l) at 1. apply Add_app.
Qed.

Lemma loop_ok fuel input acc ps : params_ok acc -> auth_params_loop fuel input acc = Ok ps -> params_ok ps.
Proof.
  revert input acc. induction fuel as [|fuel IH]; intros input acc Hacc; cbn [auth_params_loop]; [by intros [= <-]|].
  destruct (is_empty input); [by intros [= <-]|]. cbv zeta. destruct (skip_while is_ows input) as [|c rest]; [by intros [= <-]|].
  destruct (c =b ","); [by apply IH|]. destruct (auth_param (c :: rest)) as [[[key value] r]|] eqn:Ep; [|done].
  cbn [mbind result_bind]. apply auth_param_ok in Ep. destruct (existsb _ acc) eqn:Ex; [done|].
  destruct (MAX_AUTH_PARAMS <=? length acc)%nat eqn:El; [done|]. cbv zeta.
  assert (Hnew : params_ok (acc ++ [(key, value)])).
  { destruct Hacc as (Hf & Hnd & Hlen). apply Nat.leb_gt in El. split_and!.
    - apply Forall_app. by repeat constructor.
    - rewrite map_app. apply NoDup_snoc; [done|]. by apply not_existsb_key.
    - rewrite length_app. cbn [length]. lia. }
  destruct (skip_while is_ows r) as [|d r2]; [by apply IH|]. destruct (d =b ","); [by apply IH | done].
Qed.

Lemma parse_params_ok s ps : parse_auth_params s = Ok ps -> ps <> [] /\ params_ok ps.
Proof.
  unfold parse_auth_params. destruct (auth_params_loop _ _ _) as [l|] eqn:E; [|done]. cbn [mbind result_bind].
  destruct (is_empty l) eqn:En; [done|]. intros [= <-]. split; [by destruct l|]. eapply loop_ok; [|exact E].
  split_and!; [constructor | constructor | cbn; unfold MAX_AUTH_PARAMS; lia].
Qed.

(** ** Schemes *)

Lemma strip_scheme_app scheme rest :
  visible_start scheme -> visible_start rest -> strip_scheme (scheme ++ B " " ++ rest) scheme = Some rest.
Proof.
  intros Hs Hr. unfold strip_scheme. rewrite trim_start_visible by (by apply visible_start_app).
  assert ((length (scheme ++ B " " ++ rest) <=? length scheme)%nat = false) as ->.
  { apply Nat.leb_gt. rewrite !length_app. cbn. lia. }
  rewrite take_app_length, drop_app_length. unfold eq_ignore_ascii_case. rewrite beqs_refl. cbn [negb].
  change (B " " ++ rest) with (" "%byte :: rest). cbn [is_empty]. cbv zeta.
  change (starts_with (B " ") (" "%byte :: rest)) with true. cbn [negb andb].
  by rewrite trim_start_space, trim_start_visible.
Qed.

Lemma text_ends ps : ps <> [] -> Forall (fun p => param_ok p = true) ps -> visible_start (text_of ps) /\ visible_end (text_of ps).
Proof.
  intros Hne Hf. split.
  - destruct ps as [|p ps]; [done|]. apply Forall_cons_iff in Hf as [Hp _]. destruct (format_start p Hp) as (c & m & Hc & Ht).
    assert (Hv : visible c = true) by (revert Ht; clear; byte_solve c).
    destruct ps as [|q ps]; [|rewrite text_cons by done; apply visible_start_app; by exists c, m].
    unfold text_of, format_auth_params. cbn [map join]. by exists c, m.
  - induction Hf as [|p ps Hp Hf IH]; [done|]. destruct ps as [|q ps].
    + unfold text_of, format_auth_params. cbn [map join]. destruct p as [n v]. apply param_ok_parts in Hp as (Hn & _ & Hv).
      unfold format_auth_param. destruct (needs_quoting v) eqn:E.
      * rewrite !app_assoc. apply visible_end_app. by exists [], DQUOTE.
      * unfold needs_quoting in E. apply orb_false_iff in E as [Ee Et]. rewrite existsb_negb_forallb, negb_false_iff in Et.
        do 2 apply visible_end_app. apply visible_all; [by destruct v|]. revert Et. apply forallb_impl. intros b. byte_solve b.
    + rewrite text_cons by done. do 2 apply visible_end_app. by apply IH.
Qed.

(** A list of parameters behind a scheme. *)
Lemma scheme_params_format scheme other ps :
  visible_start scheme -> ps <> [] -> params_ok ps ->
  parse_scheme_params scheme other (scheme ++ B " " ++ text_of ps) = Ok ps /\
  trim (scheme ++ B " " ++ text_of ps) = scheme ++ B " " ++ text_of ps.
Proof.
  intros Hs Hne Hps. destruct (text_ends ps Hne (proj1 Hps)) as [Hb He].
  assert (Ht : trim (scheme ++ B " " ++ text_of ps) = scheme ++ B " " ++ text_of ps).
  { apply trim_visible; [by apply visible_start_app | by do 2 apply visible_end_app]. }
  split; [|done]. unfold parse_scheme_params. rewrite Ht. cbv zeta.
  assert (is_empty (scheme ++ B " " ++ text_of ps) = false) as -> by (by destruct Hs as (? & ? & -> & _)).
  rewrite strip_scheme_app by done. cbn [ok_or mbind result_bind].
  assert (is_empty (text_of ps) = false) as -> by (by destruct Hb as (? & ? & -> & _)).
  by apply parse_format.
Qed.

Lemma scheme_params_ok scheme other s ps : parse_scheme_params scheme other s = Ok ps -> ps <> [] /\ params_ok ps.
Proof.
  unfold parse_scheme_params. cbv zeta. destruct (is_empty _); [done|]. destruct (strip_scheme _ _) as [r|]; [|done].
  cbn [ok_or mbind result_bind]. destruct (is_empty r); [done|]. apply parse_params_ok.
Qed.

Lemma start_of c m : visible c = true -> visible_start (c :: m).
Proof. intros Hc. by exists c, m. Qed.

Lemma strip_scheme_other s scheme :
  visible_start s -> eq_ignore_ascii_case (take (length scheme) s) scheme = false -> strip_scheme s scheme = None.
Proof. intros Hs He. unfold strip_scheme. rewrite trim_start_visible, He by done. by destruct (_ <=? _)%nat. Qed.

Lemma digest_roundtrip s a : DigestAuth_parse s = Ok a ->
  DigestAuth_parse (Digest_to_header_value a) = Ok a /\ trim (Digest_to_header_value a) = Digest_to_header_value a.
Proof.
  unfold DigestAuth_parse. destruct (parse_scheme_params _ _ s) as [ps|] eqn:E; [|done]. cbn [mbind result_bind]. intros H.
  assert (a = ps) as ->.
  { cbv zeta in H. destruct (_ && _); [done|]. destruct (_ && _); [done|].
    match type of H with mbind _ ?r = _ => destruct r; [|done] end. cbn [mbind result_bind] in H. destruct (negb _); [done|]. by injection H. }
  apply scheme_params_ok in E as [Hne Hps].
  destruct (scheme_params_format (B "Digest") NotDigestScheme ps ltac:(by apply start_of) Hne Hps) as [Hp Ht].
  split; [|exact Ht]. change (Digest_to_header_value ps) with (B "Digest" ++ B " " ++ text_of ps). rewrite Hp. exact H.
Qed.

Lemma digest_challenge_roundtrip s a : DigestChallenge_parse s = Ok a ->
  DigestChallenge_parse (Digest_to_header_value a) = Ok a /\ trim (Digest_to_header_value a) = Digest_to_header_value a.
Proof.
  unfold DigestChallenge_parse. destruct (parse_scheme_params _ _ s) as [ps|] eqn:E; [|done]. cbn [mbind result_bind]. intros H.
  assert (a = ps) as -> by (destruct (negb _); [done | by injection H]).
  apply scheme_params_ok in E as [Hne Hps].
  destruct (scheme_params_format (B "Digest") NotDigestScheme ps ltac:(by apply start_of) Hne Hps) as [Hp Ht].
  split; [|exact Ht]. change (Digest_to_header_value ps) with (B "Digest" ++ B " " ++ text_of ps). rewrite Hp. exact H.
Qed.

Lemma bearer_challenge_roundtrip s a : BearerChallenge_parse s = Ok a ->
  BearerChallenge_parse (BearerChallenge_to_header_value a) = Ok a /\
  trim (BearerChallenge_to_header_value a) = BearerChallenge_to_header_value a.
Proof.
  intros (Hne & Hps)%scheme_params_ok.
  destruct (scheme_params_format (B "Bearer") NotBearerScheme a ltac:(by apply start_of) Hne Hps) as [Hp Ht]. by split.
Qed.

(** *** Bearer tokens *)

Lemma token68_visible t : is_token68 t = true -> t <> [] /\ forallb visible t = true.
Proof.
  unfold is_token68, trim_end_matches. destruct (is_empty t) eqn:E; [done|]. cbv zeta. rewrite andb_true_iff. intros [_ Ht].
  split; [by destruct t|]. rewrite <- (rev_involutive t), forallb_rev.
  rewrite <- (take_skip_while (fun b => b =b "=") (rev t)), forallb_app, andb_true_iff. split.
  - pose proof (take_while_forallb (fun b => b =b "=") (rev t)) as Hp. revert Hp. apply forallb_impl. intros b. byte_solve b.
  - rewrite forallb_rev in Ht. revert Ht. apply forallb_impl. intros b. byte_solve b.
Qed.

Lemma bearer_roundtrip s a : BearerToken_parse s = Ok a ->
  BearerToken_parse (BearerToken_to_header_value a) = Ok a /\
  trim (BearerToken_to_header_value a) = BearerToken_to_header_value a.
Proof.
  intros H. assert (Ht : is_token68 (token a) = true).
  { unfold BearerToken_parse in H. cbv zeta in H. destruct (is_empty _); [done|]. destruct (negb _); [done|].
    destruct (is_empty _); [done|]. destruct (is_token68 _) eqn:E; [|done]. by injection H as <-. }
  destruct a as [t]. cbn [token] in Ht. destruct (token68_visible t Ht) as [Hne Hv]. destruct (visible_all t Hne Hv) as [Hb He].
  unfold BearerToken_to_header_value. cbn [token]. change (B "Bearer " ++ t) with (B "Bearer" ++ B " " ++ t).
  assert (Htr : trim (B "Bearer" ++ B " " ++ t) = B "Bearer" ++ B " " ++ t).
  { apply trim_visible; [by apply start_of | by do 2 apply visible_end_app]. }
  split; [|done]. unfold BearerToken_parse. rewrite Htr. cbv zeta.
  change (is_empty (B "Bearer" ++ B " " ++ t)) with false. change (6 <=? length (B "Bearer" ++ B " " ++ t))%nat with true.
  change (take 6 (B "Bearer" ++ B " " ++ t)) with (B "Bearer").
  change (true && eq_ignore_ascii_case (B "Bearer") (B "Bearer")) with true. cbn [negb].
  rewrite strip_scheme_app by (done || by apply start_of). cbn [default from_option id].
  rewrite Ht. by destruct t.
Qed.

(** *** Basic credentials *)

Lemma encode_token68 s : s <> [] -> is_token68 (Base64.encode s) = true.
Proof.
  intros Hs. rewrite Base64.encode_eq. pose proof (Base64.sextets_sextet s) as Hf.
  assert (Hne : Base64.sextets s <> []) by (by destruct s as [|? [|? [|? ?]]]). set (vs := Base64.sextets s) in *. clearbody vs.
  assert (Hc : forall v, Base64.sextet v -> is_token68_char (Base64.alphabet v) && negb (Base64.alphabet v =b "=") = true).
  { intros v Hv. assert (H : forallb (fun i => is_token68_char (Base64.alphabet (N.of_nat i)) && negb (Base64.alphabet (N.of_nat i) =b "=")) (seq 0 64) = true)
      by (vm_compute; reflexivity).
    rewrite forallb_forall in H. specialize (H (N.to_nat v)). rewrite N2Nat.id in H. apply H, in_seq. unfold Base64.sextet in Hv. lia. }
  assert (Htr : trim_end_matches "=" (map Base64.alphabet vs ++ replicate (Base64.pads s) "="%byte) = map Base64.alphabet vs).
  { unfold trim_end_matches. rewrite rev_app_distr, Base64.rev_replicate.
    assert (Hr : forall k l, skip_while (fun b => b =b "=") (replicate k "="%byte ++ l) = skip_while (fun b => b =b "=") l).
    { induction k as [|k IH]; [done|]. intros l. cbn [replicate app skip_while]. rewrite byte_eqb_refl. apply IH. }
    rewrite Hr. rewrite <- map_rev. assert (Hrev : Forall Base64.sextet (rev vs)) by (by apply Forall_rev).
    rewrite <- (rev_involutive vs) at 2. rewrite (map_rev _ (rev vs)). f_equal. destruct (rev vs) as [|v l]; [done|]. cbn [map skip_while].
    apply Forall_cons_iff in Hrev as [Hv _]. specialize (Hc v Hv). apply andb_true_iff in Hc as [_ Hc]. apply negb_true_iff in Hc. by rewrite Hc. }
  unfold is_token68. rewrite Htr. destruct vs as [|v vs]; [done|]. cbn [map app is_empty negb andb]. cbv zeta.
  change (forallb is_token68_char (map Base64.alphabet (v :: vs)) = true). apply forallb_forall. intros x (w & <- & Hw)%in_map_iff.
  rewrite Forall_forall in Hf. specialize (Hc w (Hf w Hw)). by apply andb_true_iff in Hc as [? _].
Qed.

(** Credentials that can be told apart again, as [new] and [parse] make them. *)
Definition basic_ok (a : BasicAuth) : Prop :=
  contains_byte ":" (username a) = false /\ has_control_chars (username a) = false /\ has_control_chars (password a) = false /\
  utf8_valid (username a ++ B ":" ++ password a) = true.

Lemma basic_format a : basic_ok a ->
  BasicAuth_parse (BasicAuth_to_header_value a) = Ok a /\ trim (BasicAuth_to_header_value a) = BasicAuth_to_header_value a.
Proof.
  intros (Hc & Hu & Hp & Hv). unfold BasicAuth_to_header_value. cbv zeta. set (cred := username a ++ B ":" ++ password a) in *.
  assert (Hne : cred <> []) by (unfold cred; by destruct (username a)). pose proof (encode_token68 cred Hne) as Ht.
  destruct (token68_visible _ Ht) as [Hn Hvis]. destruct (visible_all _ Hn Hvis) as [Hb He].
  change (B "Basic " ++ Base64.encode cred) with (B "Basic" ++ B " " ++ Base64.encode cred).
  assert (Htr : trim (B "Basic" ++ B " " ++ Base64.encode cred) = B "Basic" ++ B " " ++ Base64.encode cred).
  { apply trim_visible; [by apply start_of | by do 2 apply visible_end_app]. }
  split; [|done]. unfold BasicAuth_parse. rewrite Htr. cbv zeta.
  change (is_empty (B "Basic" ++ B " " ++ Base64.encode cred)) with false. cbv iota.
  rewrite strip_scheme_app by (done || by apply start_of). cbn [ok_or mbind result_bind].
  assert (is_empty (Base64.encode cred) = false) as -> by (by destruct (Base64.encode cred)). rewrite Ht, Base64.decode_encode. cbn [negb map_err mbind result_bind].
  rewrite from_utf8_valid by done. cbn [map_err mbind result_bind]. unfold cred. change (B ":") with [":"%byte].
  change (username a ++ [":"%byte] ++ password a) with (username a ++ ":"%byte :: password a). rewrite split_once_app by done.
  cbn [ok_or mbind result_bind]. rewrite Hu, Hp. by destruct a.
Qed.

Lemma basic_parse_ok s a : BasicAuth_parse s = Ok a -> basic_ok a.
Proof.
  unfold BasicAuth_parse. cbv zeta. destruct (is_empty _); [done|]. destruct (strip_scheme _ _) as [cr|]; [|done]. cbn [ok_or mbind result_bind].
  destruct (is_empty cr); [done|]. destruct (negb _); [done|]. destruct (Base64.decode cr) as [d|]; [|done]. cbn [map_err mbind result_bind].
  destruct (from_utf8 d) as [t|] eqn:Eu; [|done]. apply from_utf8_Ok in Eu as [-> Hv]. cbn [map_err mbind result_bind].
  destruct (split_once ":" d) as [[u p]|] eqn:Es; [|done]. apply split_once_Some in Es as [-> Hc]. cbn [ok_or mbind result_bind].
  destruct (_ || _) eqn:Ec; [done|]. apply orb_false_iff in Ec as [Hu Hp]. intros [= <-]. by split_and!.
Qed.

Lemma basic_new_ok u p a : utf8_valid u = true -> utf8_valid p = true -> BasicAuth_new u p = Ok a -> basic_ok a.
Proof.
  intros Hu Hp. unfold BasicAuth_new. destruct (contains_byte ":" u) eqn:E; [done|]. destruct (_ || _) eqn:Ec; [done|].
  apply orb_false_iff in Ec as [H1 H2]. intros [= <-]. split_and!; try done. cbn [username password]. by repeat apply utf8_app.
Qed.

(** *** The Basic challenge *)

Definition quoted_param (name v : str) : str := name ++ B "=" ++ [DQUOTE] ++ escape_quotes v ++ [DQUOTE].

Lemma quoted_param_loop fuel name v rest acc :
  is_valid_token name = true -> to_ascii_lowercase name = name -> forallb is_quoted_pair_char v = true ->
  comma_next rest -> ~ In name (map fst acc) -> (length acc < MAX_AUTH_PARAMS)%nat ->
  auth_params_loop (S fuel) (quoted_param name v ++ rest) acc = auth_params_loop fuel (drop 1 rest) (acc ++ [(name, v)]).
Proof.
  intros Hn Hl Hv Hr Hin Hlen. apply loop_param_text; try done.
  - apply is_valid_token_iff in Hn as [Hne Hf]. destruct name as [|c n]; [done|]. apply andb_true_iff in Hf as [Hc _].
    unfold quoted_param. by eexists c, _.
  - unfold quoted_param. rewrite <- !app_assoc. by apply auth_param_quoted.
Qed.

Lemma www_params_ok ps realm charset r c :
  www_params ps realm charset = Ok (r, c) ->
  Forall (fun p => param_ok p = true) ps ->
  (forall x, realm = Some x -> forallb is_quoted_pair_char x = true) ->
  (forall x, charset = Some x -> forallb is_quoted_pair_char x = true /\ eq_ignore_ascii_case x (B "UTF-8") = true) ->
  (forall x, r = Some x -> forallb is_quoted_pair_char x = true) /\
  (forall x, c = Some x -> forallb is_quoted_pair_char x = true /\ eq_ignore_ascii_case x (B "UTF-8") = true).
Proof.
  revert realm charset. induction ps as [|[k v] ps IH]; intros realm charset; cbn [www_params]; [by intros [= <- <-]|].
  intros H Hf Hr Hc. apply Forall_cons_iff in Hf as [(_ & _ & Hv)%param_ok_parts Hf].
  destruct (k =s B "realm"); [eapply IH; [exact H | done | by intros x [= <-] | done]|].
  destruct (k =s B "charset"); [|by eapply IH; [exact H|..]].
  destruct (eq_ignore_ascii_case v (B "UTF-8")) eqn:E; [|done]. eapply IH; [exact H | done | done | by intros x [= <-]].
Qed.

Lemma www_roundtrip s a : WwwAuthenticate_parse s = Ok a ->
  WwwAuthenticate_parse (WwwAuthenticate_fmt a) = Ok a /\ trim (WwwAuthenticate_fmt a) = WwwAuthenticate_fmt a.
Proof.
  intros H. assert (Hok : forallb is_quoted_pair_char (www_realm a) = true /\
    (forall x, charset a = Some x -> forallb is_quoted_pair_char x = true /\ eq_ignore_ascii_case x (B "UTF-8") = true)).
  { unfold WwwAuthenticate_parse in H. cbv zeta in H. destruct (is_empty _); [done|]. destruct (strip_scheme _ _) as [ps|]; [|done].
    cbn [ok_or mbind result_bind] in H. destruct (is_empty ps); [done|]. destruct (parse_auth_params ps) as [l|] eqn:E; [|done].
    apply parse_params_ok in E as (_ & Hf & _). cbn [mbind result_bind] in H. destruct (www_params l None None) as [[r c]|] eqn:Ew; [|done].
    cbn [mbind result_bind] in H. destruct r as [r|]; [|done]. injection H as <-. cbn [www_realm charset].
    destruct (www_params_ok _ _ _ _ _ Ew Hf ltac:(done) ltac:(done)) as [H1 H2]. split; [by apply H1 | exact H2]. }
  destruct a as [r c]. cbn [www_realm charset] in Hok. destruct Hok as [Hr Hc]. clear H.
  set (body := quoted_param (B "realm") r ++ match c with Some c => B ", " ++ quoted_param (B "charset") c | None => [] end).
  assert (Hf : WwwAuthenticate_fmt {| www_realm := r; charset := c |} = B "Basic" ++ B " " ++ body).
  { unfold WwwAuthenticate_fmt, body, quoted_param. cbn [www_realm charset]. destruct c; rewrite <- ?app_assoc; done. }
  assert (Hbe : visible_end body).
  { unfold body, quoted_param. destruct c; rewrite !app_assoc; [|rewrite app_nil_r]; apply visible_end_app; by exists [], DQUOTE. }
  assert (Htr : trim (B "Basic" ++ B " " ++ body) = B "Basic" ++ B " " ++ body).
  { apply trim_visible; [by apply start_of | by do 2 apply visible_end_app]. }
  rewrite Hf. split; [|done]. unfold WwwAuthenticate_parse. rewrite Htr. cbv zeta.
  change (is_empty (B "Basic" ++ B " " ++ body)) with false. cbv iota.
  rewrite strip_scheme_app by (by apply start_of). cbn [ok_or mbind result_bind]. change (is_empty body) with false. cbv iota.
  assert (Hp : parse_auth_params body = Ok ((B "realm", r) :: match c with Some c => [(B "charset", c)] | None => [] end)).
  { unfold parse_auth_params, body.
    assert (Hfuel : exists n, S (length body) = S (S (S n))) by (by eexists).
    destruct Hfuel as [n Hn]. unfold body in Hn. rewrite Hn. destruct c as [c|].
    - rewrite quoted_param_loop; [|done|done|done|by right; eexists|by intros []|cbn; unfold MAX_AUTH_PARAMS; lia].
      change (drop 1 (B ", " ++ quoted_param (B "charset") c)) with (" "%byte :: quoted_param (B "charset") c).
      destruct (Hc c eq_refl) as [Hq _].
      assert (Hl : auth_params_loop (S (S n)) (" "%byte :: quoted_param (B "charset") c) ([] ++ [(B "realm", r)])
        = auth_params_loop (S (S n)) (quoted_param (B "charset") c) ([] ++ [(B "realm", r)])) by done.
      rewrite Hl. rewrite <- (app_nil_r (quoted_param (B "charset") c)).
      rewrite quoted_param_loop; [done|done|done|done|by left| |cbn; unfold MAX_AUTH_PARAMS; lia].
      cbn. intros [Hx|[]]. by vm_compute in Hx.
    - rewrite quoted_param_loop; [done|done|done|done|by left|by intros []|cbn; unfold MAX_AUTH_PARAMS; lia]. }
  rewrite Hp. cbn [mbind result_bind]. destruct c as [c|]; [|done]. destruct (Hc c eq_refl) as [_ He].
  change (www_params ((B "realm", r) :: [(B "charset", c)]) None None) with
    (if negb (eq_ignore_ascii_case c (B "UTF-8")) then Err InvalidCharset else Ok (Some r, Some c)). by rewrite He.
Qed.

(** ** The fields *)

(** Each scheme is told by its name. *)
Lemma scheme_told scheme rest :
  visible_start scheme -> visible_start rest -> is_some (strip_scheme (scheme ++ B " " ++ rest) scheme) = true.
Proof. intros H1 H2. by rewrite strip_scheme_app. Qed.

Lemma scheme_other scheme rest other :
  visible_start scheme -> eq_ignore_ascii_case (take (length other) (scheme ++ B " " ++ rest)) other = false ->
  is_some (strip_scheme (scheme ++ B " " ++ rest) other) = false.
Proof. intros Hs He. rewrite strip_scheme_other; [done | by apply visible_start_app | done]. Qed.

Lemma authorization_roundtrip s a : Authorization_parse s = Ok a -> Authorization_parse (Authorization_to_header_value a) = Ok a.
Proof.
  unfold Authorization_parse at 1. cbv zeta. set (t := trim s). destruct (is_empty t); [done|].
  destruct (is_some (strip_scheme t (B "Basic"))).
  { destruct (BasicAuth_parse t) as [x|] eqn:E; [|done]. cbn [mbind result_bind]. intros [= <-].
    destruct (basic_format x (basic_parse_ok _ _ E)) as [Hp Ht]. unfold Authorization_parse. cbn [Authorization_to_header_value].
    rewrite Ht, Hp. cbv zeta. unfold BasicAuth_to_header_value. cbv zeta. set (cred := username x ++ B ":" ++ password x).
    change (B "Basic " ++ Base64.encode cred) with (B "Basic" ++ B " " ++ Base64.encode cred).
    rewrite scheme_told; [done | by apply start_of|]. assert (Hne : cred <> []) by (unfold cred; by destruct (username x)).
    destruct (token68_visible _ (encode_token68 cred Hne)) as [Hn Hv]. by apply visible_all. }
  destruct (is_some (strip_scheme t (B "Digest"))).
  { destruct (DigestAuth_parse t) as [x|] eqn:E; [|done]. cbn [mbind result_bind]. intros [= <-].
    destruct (digest_roundtrip t x E) as [Hp Ht]. unfold Authorization_parse. cbn [Authorization_to_header_value].
    rewrite Ht, Hp. cbv zeta. change (Digest_to_header_value x) with (B "Digest" ++ B " " ++ text_of x).
    rewrite scheme_other; [|by apply start_of|done]. rewrite scheme_told; [done | by apply start_of|].
    unfold DigestAuth_parse in E. destruct (parse_scheme_params _ _ t) as [ps|] eqn:Eps; [|done].
    apply scheme_params_ok in Eps as [Hne (Hf & _)]. destruct (text_ends ps Hne Hf) as [Hb _].
    cbn [mbind result_bind] in E. cbv zeta in E. destruct (_ && _); [done|]. destruct (_ && _); [done|].
    match type of E with mbind _ ?r = _ => destruct r; [|done] end. cbn [mbind result_bind] in E. destruct (negb _); [done|].
    by injection E as <-. }
  destruct (is_some (strip_scheme t (B "Bearer"))); [|done].
  destruct (BearerToken_parse t) as [x|] eqn:E; [|done]. cbn [mbind result_bind]. intros [= <-].
  destruct (bearer_roundtrip t x E) as [Hp Ht]. unfold Authorization_parse. cbn [Authorization_to_header_value].
  rewrite Ht, Hp. cbv zeta. change (BearerToken_to_header_value x) with (B "Bearer" ++ B " " ++ token x).
  do 2 (rewrite scheme_other; [|by apply start_of|done]).
  assert (Hb : visible_start (token x)).
  { unfold BearerToken_parse in E. cbv zeta in E. destruct (is_empty _); [done|]. destruct (negb _); [done|].
    destruct (is_empty _); [done|]. destruct (is_token68 _) eqn:E6; [|done]. injection E as <-. cbn [token].
    apply token68_visible in E6 as [Hn Hv]. by apply visible_all. }
  by rewrite scheme_told by (done || by apply start_of).
Qed.

Lemma challenge_roundtrip s a : AuthChallenge_parse s = Ok a -> AuthChallenge_parse (AuthChallenge_to_header_value a) = Ok a.
Proof.
  unfold AuthChallenge_parse at 1. cbv zeta. set (t := trim s). destruct (is_empty t); [done|].
  assert (Htext : forall ps, ps <> [] -> params_ok ps -> visible_start (text_of ps)) by (intros ps Hne [Hf _]; by apply text_ends).
  destruct (is_some (strip_scheme t (B "Basic"))).
  { destruct (WwwAuthenticate_parse t) as [x|] eqn:E; [|done]. cbn [mbind result_bind]. intros [= <-].
    destruct (www_roundtrip t x E) as [Hp Ht]. unfold AuthChallenge_parse. cbn [AuthChallenge_to_header_value].
    rewrite Ht, Hp. cbv zeta. unfold WwwAuthenticate_fmt. change (B "Basic realm=" ++ ?r) with (B "Basic" ++ B " " ++ B "realm=" ++ r).
    by rewrite scheme_told by (by apply start_of). }
  destruct (is_some (strip_scheme t (B "Digest"))).
  { destruct (DigestChallenge_parse t) as [x|] eqn:E; [|done]. cbn [mbind result_bind]. intros [= <-].
    destruct (digest_challenge_roundtrip t x E) as [Hp Ht]. unfold AuthChallenge_parse. cbn [AuthChallenge_to_header_value].
    rewrite Ht, Hp. cbv zeta. change (Digest_to_header_value x) with (B "Digest" ++ B " " ++ text_of x).
    rewrite scheme_other; [|by apply start_of|done]. rewrite scheme_told; [done | by apply start_of|].
    unfold DigestChallenge_parse in E. destruct (parse_scheme_params _ _ t) as [ps|] eqn:Eps; [|done].
    apply scheme_params_ok in Eps as [Hne Hok]. cbn [mbind result_bind] in E. destruct (negb _); [done|].
    injection E as <-. by apply Htext. }
  destruct (is_some (strip_scheme t (B "Bearer"))); [|done].
  destruct (BearerChallenge_parse t) as [x|] eqn:E; [|done]. cbn [mbind result_bind]. intros [= <-].
  destruct (bearer_challenge_roundtrip t x E) as [Hp Ht]. unfold AuthChallenge_parse. cbn [AuthChallenge_to_header_value].
  rewrite Ht, Hp. cbv zeta. change (BearerChallenge_to_header_value x) with (B "Bearer" ++ B " " ++ text_of x).
  do 2 (rewrite scheme_other; [|by apply start_of|done]). apply scheme_params_ok in E as [Hne Hok].
  by rewrite scheme_told by (by apply start_of || by apply Htext).
Qed.

(** ** The fuel of the parameter loop is enough *)

Lemma auth_param_shorter input p rest : auth_param input = Ok (p, rest) -> (length rest < length input)%nat.
Proof.
  unfold auth_param. cbv zeta. destruct (is_empty _) eqn:En; [done|].
  pose proof (skip_while_length is_token_char input) as H1. pose proof (skip_while_length is_ows (skip_while is_token_char input)) as H2.
  destruct (skip_while is_ows (skip_while is_token_char input)) as [|c r]; [done|]. destruct (negb _); [done|]. cbn [length] in H2.
  pose proof (skip_while_length is_ows r) as H3. set (v := skip_while is_ows r) in *.
  destruct (auth_value v) as [[x r2]|] eqn:Ev; [|done]. cbn [mbind result_bind]. intros [= _ <-].
  assert (length r2 <= length v)%nat; [|lia]. unfold auth_value in Ev. destruct v as [|d inner]; [done|]. destruct (d =b DQUOTE).
  - apply quoted_value_ok in Ev as [_ Hlt]; [|done]. cbn [length]. lia.
  - cbv zeta in Ev. destruct (_ || _); [done|]. injection Ev as _ <-. exact (skip_while_length _ (d :: inner)).
Qed.

Lemma auth_params_fuel f f' input acc :
  (length input < f)%nat -> (length input < f')%nat -> auth_params_loop f input acc = auth_params_loop f' input acc.
Proof.
  revert f' input acc. induction f as [|f IH]; intros f' input acc Hf Hf'; [lia|]. destruct f' as [|f']; [lia|].
  cbn [auth_params_loop]. destruct (is_empty input); [done|]. cbv zeta.
  pose proof (skip_while_length is_ows input) as H1. destruct (skip_while is_ows input) as [|c r]; [done|]. cbn [length] in H1.
  destruct (c =b ","); [apply IH; lia|]. destruct (auth_param (c :: r)) as [[[k v] r2]|] eqn:E; [|done]. cbn [mbind result_bind].
  apply auth_param_shorter in E. cbn [length] in E. destruct (existsb _ acc); [done|]. destruct (_ <=? _)%nat; [done|].
  pose proof (skip_while_length is_ows r2) as H2. destruct (skip_while is_ows r2) as [|d r3]; [apply IH; cbn; lia|].
  cbn [length] in H2. destruct (d =b ","); [apply IH; lia | done].
Qed.

(** ** The theorems *)

(** The credentials a client makes of a user name and a password are the
    ones a server reads, for every pair the constructor admits; nobody's
    password reaches into the user name. *)
Lemma basic_auth_roundtrip u p a :
  utf8_valid u = true -> utf8_valid p = true -> BasicAuth_new u p = Ok a ->
  Authorization_parse (BasicAuth_to_header_value a) = Ok (Basic {| username := u; password := p |}).
Proof.
  intros Hu Hp Hn. pose proof (basic_new_ok u p a Hu Hp Hn) as Hok. destruct (basic_format a Hok) as [Ha _].
  assert (a = {| username := u; password := p |}) as ->.
  { unfold BasicAuth_new in Hn. destruct (contains_byte ":" u); [done|]. destruct (_ || _); [done|]. by injection Hn. }
  unfold Authorization_parse. destruct (basic_format _ Hok) as [Hp1 Ht]. rewrite Ht. cbv zeta. rewrite Hp1.
  unfold BasicAuth_to_header_value. cbn [username password]. set (cred := u ++ B ":" ++ p).
  change (B "Basic " ++ Base64.encode cred) with (B "Basic" ++ B " " ++ Base64.encode cred).
  rewrite scheme_told; [done | by apply start_of|]. assert (Hne : cred <> []) by (unfold cred; by destruct u).
  destruct (token68_visible _ (encode_token68 cred Hne)) as [Hx Hv]. by apply visible_all.
Qed.

(** C35: The credentials and challenges of the three schemes keep their meaning. A
    field value that was parsed is written in a form that is parsed to the same
    value: the parameters in order, with quotes, escapes and the case of the
    names resolved. The credentials a client makes of a user name and a password
    are the ones a server reads, for every pair the constructor admits; nobody's
    password reaches into the user name. *)
Theorem auth_roundtrip :
  (forall s a, Authorization_parse s = Ok a -> Authorization_parse (Authorization_to_header_value a) = Ok a) /\
  (forall s c, AuthChallenge_parse s = Ok c -> AuthChallenge_parse (AuthChallenge_to_header_value c) = Ok c) /\
  (forall u p a, utf8_valid u = true -> utf8_valid p = true -> BasicAuth_new u p = Ok a ->
    Authorization_parse (BasicAuth_to_header_value a) = Ok (Basic {| username := u; password := p |})).
Proof. split_and!; [apply authorization_roundtrip | apply challenge_roundtrip | apply basic_auth_roundtrip]. Qed.

Lemma auth_roundtrip_witness :
  match Authorization_parse (B "digest Realm=x,nonce = n, uri=u, response=1, username=u") with
  | Ok a => Authorization_parse (Authorization_to_header_value a) = Ok a
  | Err _ => False
  end /\
  Authorization_parse (BasicAuth_to_header_value {| username := B "user"; password := B "pass:word" |})
  = Ok (Basic {| username := B "user"; password := B "pass:word" |}).
Proof.
  destruct auth_roundtrip as (H1 & _ & H3). split; [|apply (H3 (B "user") (B "pass:word")); vm_compute; reflexivity].
  destruct (Authorization_parse (B "digest Realm=x,nonce = n, uri=u, response=1, username=u")) as [a|] eqn:E; [|by vm_compute in E].
  exact (H1 _ a E).
Defined.
