(* ===== verification/Range.v ===== *)
(** * Range requests ([src/range.rs])

    Range, Content-Range and Accept-Ranges. *)
From S2P Require Import Prelude RustStd Validate RustStr FieldList.

Module Range.

Inductive RangeError : Type := Empty | InvalidFormat | InvalidUnit | InvalidRange | InvalidBounds.

Definition RangeError_fmt (e : RangeError) : str :=
  match e with
  | Empty => B "empty range header"
  | InvalidFormat => B "invalid range header format"
  | InvalidUnit => B "invalid range unit"
  | InvalidRange => B "invalid range specification"
  | InvalidBounds => B "invalid range bounds"
  end.

(** The numbers are [u64]. *)
Inductive RangeSpec : Type :=
  | Range_ (start end_ : N)
  | FromStart (start : N)
  | Suffix (length : N).

Definition to_bounds (spec : RangeSpec) (total_length : N) : option (N * N) :=
  if total_length =? 0 then None
  else
    match spec with
    | Range_ start end_ =>
        if (end_ <? start) || (total_length <=? start) then None
        else Some (start, N.min end_ (total_length - 1))
    | FromStart start => if total_length <=? start then None else Some (start, total_length - 1)
    | Suffix length => if length =? 0 then None else Some (saturating_sub total_length length, total_length - 1)
    end.

Definition RangeSpec_fmt (spec : RangeSpec) : str :=
  match spec with
  | Range_ start end_ => show_dec start ++ B "-" ++ show_dec end_
  | FromStart start => show_dec start ++ B "-"
  | Suffix length => B "-" ++ show_dec length
  end.

Definition parse_range_spec (s : str) : result RangeError RangeSpec :=
  '(start_str, end_str) ← ok_or InvalidRange (split_once "-" s);
  let start_str := trim start_str in
  let end_str := trim end_str in
  if is_empty start_str && is_empty end_str then Err InvalidRange
  else if is_empty start_str then
    length ← ok_or InvalidRange (parse_u64 end_str); Ok (Suffix length)
  else
    start ← ok_or InvalidRange (parse_u64 start_str);
    if is_empty end_str then Ok (FromStart start)
    else
      end_ ← ok_or InvalidRange (parse_u64 end_str);
      if end_ <? start then Err InvalidBounds else Ok (Range_ start end_).

(** The loop over the parts of a list, empty ones left out. *)
Fixpoint parse_parts (parts : list str) : result RangeError (list RangeSpec) :=
  match parts with
  | [] => Ok []
  | part :: parts' =>
      let part := trim part in
      if is_empty part then parse_parts parts'
      else
        spec ← parse_range_spec part;
        ranges ← parse_parts parts';
        Ok (spec :: ranges)
  end.

Record t : Type := mkRange { unit_ : str; ranges : list RangeSpec }.

Definition parse (input : str) : result RangeError t :=
  let input := trim input in
  if is_empty input then Err Empty
  else
    '(unit_, ranges_str) ← ok_or InvalidFormat (split_once "=" input);
    let unit_ := trim unit_ in
    let ranges_str := trim ranges_str in
    if negb (is_valid_token unit_) then Err InvalidUnit
    else
      ranges ← parse_parts (split "," ranges_str);
      if is_empty ranges then Err Empty else Ok (mkRange unit_ ranges).

Definition is_bytes (r : t) : bool := eq_ignore_ascii_case (unit_ r) (B "bytes").
Definition first (r : t) : option RangeSpec := head (ranges r).
Definition fmt (r : t) : str := unit_ r ++ B "=" ++ join (B ", ") (map RangeSpec_fmt (ranges r)).

(** ** Content-Range *)

Definition validate_content_range_parts (start end_ : N) (complete_length : option N) : result RangeError unit :=
  if end_ <? start then Err InvalidBounds
  else match complete_length with
       | Some len => if len <=? end_ then Err InvalidBounds else Ok tt
       | None => Ok tt
       end.

Record ContentRange : Type := mkContentRange {
  cr_unit : str; cr_start : option N; cr_end : option N; complete_length : option N
}.

Definition ContentRange_parse (input : str) : result RangeError ContentRange :=
  let input := trim input in
  if is_empty input then Err Empty
  else
    '(unit_, rest) ← ok_or InvalidFormat (split_once " " input);
    let unit_ := trim unit_ in
    let rest := trim rest in
    if negb (is_valid_token unit_) then Err InvalidUnit
    else
      '(range_str, length_str) ← ok_or InvalidFormat (split_once "/" rest);
      let range_str := trim range_str in
      let length_str := trim length_str in
      complete_length ←
        (if length_str =s B "*" then Ok None
         else len ← ok_or InvalidFormat (parse_u64 length_str); Ok (Some len));
      if range_str =s B "*" then
        match complete_length with
        | None => Err InvalidFormat
        | Some _ => Ok (mkContentRange unit_ None None complete_length)
        end
      else
        '(start_str, end_str) ← ok_or InvalidFormat (split_once "-" range_str);
        start ← ok_or InvalidFormat (parse_u64 start_str);
        end_ ← ok_or InvalidFormat (parse_u64 end_str);
        validate_content_range_parts start end_ complete_length;;
        Ok (mkContentRange unit_ (Some start) (Some end_) complete_length).

(** The [assert!]s stop the program ([None]). *)
Definition new_bytes (start end_ : N) (complete_length : option N) : option ContentRange :=
  if negb (start <=? end_) then None
  else if match complete_length with Some len => negb (end_ <? len) | None => false end then None
  else Some (mkContentRange (B "bytes") (Some start) (Some end_) complete_length).

Definition unsatisfied (unit_ : str) (complete_length : N) : ContentRange :=
  mkContentRange unit_ None None (Some complete_length).

(** [e.checked_sub(s).and_then(|d| d.checked_add(1))]. *)
Definition length_of (r : ContentRange) : option N :=
  match cr_start r, cr_end r with
  | Some s, Some e => d ← (if s <=? e then Some (e - s) else None); checked_add d 1
  | _, _ => None
  end.

Definition is_unsatisfied (r : ContentRange) : bool :=
  match cr_start r, cr_end r with None, None => true | _, _ => false end.

Definition ContentRange_fmt (r : ContentRange) : str :=
  match cr_start r, cr_end r with
  | Some s, Some e => cr_unit r ++ B " " ++ show_dec s ++ B "-" ++ show_dec e ++ B "/"
  | _, _ => cr_unit r ++ B " */"
  end
  ++ match complete_length r with Some len => show_dec len | None => B "*" end.

(** ** Accept-Ranges *)

Definition AcceptRanges : Type := list str.

Definition AcceptRanges_parse (input : str) : result RangeError AcceptRanges :=
  let input := trim input in
  if is_empty input then Err Empty
  else
    let units := List.filter (fun s => negb (is_empty s)) (map trim (split "," input)) in
    if is_empty units then Err Empty
    else if negb (forallb is_valid_token units) then Err InvalidUnit
    else if (1 <? length units)%nat && existsb (fun u => eq_ignore_ascii_case u (B "none")) units then Err InvalidUnit
    else Ok units.

Definition AcceptRanges_bytes : AcceptRanges := [B "bytes"].
Definition AcceptRanges_none : AcceptRanges := [B "none"].
Definition accepts_bytes (units : AcceptRanges) : bool := existsb (fun u => eq_ignore_ascii_case u (B "bytes")) units.
Definition is_none (units : AcceptRanges) : bool :=
  match units with [u] => eq_ignore_ascii_case u (B "none") | _ => false end.
Definition AcceptRanges_fmt (units : AcceptRanges) : str := join (B ", ") units.

Example parse_ex : parse (B "bytes=0-499, -5 ,7-") = Ok (mkRange (B "bytes") [Range_ 0 499; Suffix 5; FromStart 7]).
Proof. vm_compute. reflexivity. Qed.
Example content_range_ex : ContentRange_parse (B "bytes 0-4/*") = Ok (mkContentRange (B "bytes") (Some 0) (Some 4) None).
Proof. vm_compute. reflexivity. Qed.

(** ** The offsets a range selects *)

(** RFC 9110 Section 14.1.2: the bytes of a representation of [total] bytes
    that a range names. *)
Definition selects (spec : RangeSpec) (total i : N) : Prop :=
  i < total /\
  match spec with
  | Range_ s e => s <= i <= e
  | FromStart s => s <= i
  | Suffix n => total - n <= i /\ 0 < n
  end.

Lemma to_bounds_exact spec total :
  match to_bounds spec total with
  | Some (a, b) => a <= b /\ b < total /\ forall i, selects spec total i <-> a <= i <= b
  | None => forall i, ~ selects spec total i
  end.
Proof.
  unfold to_bounds, selects, saturating_sub. destruct (total =? 0) eqn:E0; [intros i; lia|].
  destruct spec as [s e|s|n].
  - destruct (_ || _) eqn:E; [intros i; lia|]. split_and!; [lia | lia | intros i; lia].
  - destruct (_ <=? _) eqn:E; [intros i; lia|]. split_and!; [lia | lia | intros i; lia].
  - destruct (n =? 0) eqn:E; [intros i; lia|]. split_and!; [lia | lia | intros i; lia].
Qed.
(** ** What is written is read back *)

Definition spec_ok (s : RangeSpec) : bool :=
  match s with
  | Range_ a b => (a <=? b) && (b <=? u64_MAX)
  | FromStart a => a <=? u64_MAX
  | Suffix n => n <=? u64_MAX
  end.

Lemma show_dec_ends n : visible_start (show_dec n) /\ visible_end (show_dec n).
Proof.
  apply visible_all; [apply show_dec_not_nil|]. pose proof (show_dec_digits n) as H. revert H. apply forallb_impl. intros b. byte_solve b.
Qed.

Lemma trim_show_dec n : trim (show_dec n) = show_dec n.
Proof. destruct (show_dec_ends n). by apply trim_visible. Qed.

Lemma show_dec_no c n : is_ascii_digit c = false -> contains_byte c (show_dec n) = false.
Proof. apply (show_pad_no c 0 n). Qed.

Lemma show_dec_empty n : is_empty (show_dec n) = false.
Proof. pose proof (show_dec_not_nil n). by destruct (show_dec n). Qed.

Lemma spec_text s : visible_start (RangeSpec_fmt s) /\ visible_end (RangeSpec_fmt s) /\ contains_byte "," (RangeSpec_fmt s) = false.
Proof.
  destruct s as [a b|a|n]; unfold RangeSpec_fmt; rewrite !contains_byte_app, !(show_dec_no ",") by done; split_and!; try done.
  - apply visible_start_app, show_dec_ends.
  - do 2 apply visible_end_app. apply show_dec_ends.
  - apply visible_start_app, show_dec_ends.
  - apply visible_end_app. by exists [], "-"%byte.
  - by exists "-"%byte, (show_dec n).
  - apply visible_end_app, show_dec_ends.
Qed.

Lemma parse_spec_fmt s : spec_ok s = true -> parse_range_spec (RangeSpec_fmt s) = Ok s.
Proof.
  intros Hs. unfold parse_range_spec. destruct s as [a b|a|n]; cbn [spec_ok RangeSpec_fmt] in *.
  - change (show_dec a ++ B "-" ++ show_dec b) with (show_dec a ++ "-"%byte :: show_dec b). rewrite split_once_app by (by apply show_dec_no).
    cbn [ok_or mbind result_bind]. cbv zeta. rewrite !trim_show_dec, !show_dec_empty. cbn [andb]. rewrite !parse_u64_show by lia.
    cbn [ok_or mbind result_bind]. destruct (b <? a) eqn:E; [lia | done].
  - change (show_dec a ++ B "-") with (show_dec a ++ "-"%byte :: []). rewrite split_once_app by (by apply show_dec_no).
    cbn [ok_or mbind result_bind]. cbv zeta. change (trim []) with (@nil byte). rewrite trim_show_dec, show_dec_empty. cbn [andb].
    by rewrite parse_u64_show by lia.
  - change (B "-" ++ show_dec n) with ([] ++ "-"%byte :: show_dec n). rewrite split_once_app by done.
    cbn [ok_or mbind result_bind]. cbv zeta. change (trim []) with (@nil byte). rewrite trim_show_dec, show_dec_empty. cbn [andb is_empty].
    by rewrite parse_u64_show by lia.
Qed.

Lemma parse_u64_le s n : parse_u64 s = Some n -> n <= u64_MAX.
Proof. apply from_str_radix_bound. Qed.

Lemma parse_spec_ok s r : parse_range_spec s = Ok r -> spec_ok r = true.
Proof.
  unfold parse_range_spec. destruct (split_once "-" s) as [[a b]|]; [|done]. cbn [ok_or mbind result_bind]. cbv zeta.
  destruct (_ && _); [done|]. destruct (is_empty (trim a)).
  - destruct (parse_u64 (trim b)) eqn:E; [|done]. cbn. intros [= <-]. apply parse_u64_le in E. cbn. lia.
  - destruct (parse_u64 (trim a)) eqn:E; [|done]. apply parse_u64_le in E. cbn [ok_or mbind result_bind].
    destruct (is_empty (trim b)); [intros [= <-]; cbn; lia|]. destruct (parse_u64 (trim b)) eqn:E2; [|done].
    apply parse_u64_le in E2. cbn [ok_or mbind result_bind]. destruct (_ <? _) eqn:El; [done|]. intros [= <-]. cbn. lia.
Qed.

Lemma parse_parts_fmt specs :
  Forall (fun s => spec_ok s = true) specs -> forall pre, pre = [] \/ pre = [" "%byte] ->
  parse_parts (map (fun s => pre ++ RangeSpec_fmt s) specs) = Ok specs.
Proof.
  intros Hf pre Hpre. induction Hf as [|s specs Hs Hf IH]; [done|]. destruct (spec_text s) as (Hb & He & _).
  assert (Ht : trim (pre ++ RangeSpec_fmt s) = RangeSpec_fmt s)
    by (destruct Hpre as [->| ->]; [by apply trim_visible | by apply trim_space_visible]).
  cbn [map parse_parts]. cbv zeta. rewrite Ht. assert (is_empty (RangeSpec_fmt s) = false) as -> by (by destruct Hb as (? & ? & -> & _)).
  by rewrite parse_spec_fmt, IH.
Qed.

Lemma parts_ok parts specs : parse_parts parts = Ok specs -> Forall (fun s => spec_ok s = true) specs.
Proof.
  revert specs. induction parts as [|p parts IH]; intros specs; cbn [parse_parts]; [by intros [= <-]|]. cbv zeta.
  destruct (is_empty _); [apply IH|]. destruct (parse_range_spec _) as [s|] eqn:E; [|done]. cbn [mbind result_bind].
  destruct (parse_parts parts) as [ss|]; [|done]. cbn [mbind result_bind]. intros [= <-]. constructor; [by eapply parse_spec_ok | by apply IH].
Qed.

Lemma range_roundtrip s r : parse s = Ok r -> parse (fmt r) = Ok r.
Proof.
  intros H. assert (Hok : is_valid_token (unit_ r) = true /\ ranges r <> [] /\ Forall (fun s => spec_ok s = true) (ranges r)).
  { unfold parse in H. cbv zeta in H. destruct (is_empty _); [done|]. destruct (split_once _ _) as [[u rs]|]; [|done].
    cbn [ok_or mbind result_bind] in H. destruct (is_valid_token (trim u)) eqn:Eu; [|done]. cbn [negb] in H.
    destruct (parse_parts _) as [specs|] eqn:E; [|done]. cbn [mbind result_bind] in H. destruct (is_empty specs) eqn:En; [done|].
    injection H as <-. cbn [unit_ ranges]. split_and!; [done | by destruct specs | by eapply parts_ok]. }
  destruct r as [u specs]. cbn [unit_ ranges] in Hok. destruct Hok as (Hu & Hne & Hf). clear H. unfold fmt. cbn [unit_ ranges].
  set (text := join (B ", ") (map RangeSpec_fmt specs)).
  assert (Htext : visible_start text /\ visible_end text) by (apply join_ends; [done|]; intros x _; split; apply spec_text).
  destruct (token_ends u Hu) as [Hus Hue]. destruct Htext as [Hts Hte]. unfold parse.
  rewrite trim_visible; [|by apply visible_start_app | by do 2 apply visible_end_app]. cbv zeta.
  assert (is_empty (u ++ B "=" ++ text) = false) as -> by (by destruct Hus as (? & ? & -> & _)).
  change (u ++ B "=" ++ text) with (u ++ "="%byte :: text). rewrite split_once_app by (by apply token_no).
  cbn [ok_or mbind result_bind]. rewrite trim_token, Hu, trim_visible by done. cbn [negb]. unfold text.
  rewrite split_join.
  2:{ apply Forall_forall. intros x (y & <- & _)%in_map_iff. apply spec_text. }
  destruct specs as [|sp specs]; [done|]. cbn [map spaced]. apply Forall_cons_iff in Hf as [Hs Hf].
  pose proof (parse_parts_fmt [sp] ltac:(by constructor) [] ltac:(by left)) as H1. cbn [map app] in H1.
  pose proof (parse_parts_fmt specs Hf [" "%byte] ltac:(by right)) as H2. rewrite map_map. cbn [app] in H2.
  cbn [parse_parts] in *. cbv zeta in *. destruct (is_empty _); [done|]. destruct (parse_range_spec _) as [x|]; [|done].
  cbn [mbind result_bind] in *. injection H1 as ->. by rewrite H2.
Qed.
(** *** Content-Range *)

Definition content_range_ok (r : ContentRange) : bool :=
  is_valid_token (cr_unit r) &&
  match cr_start r, cr_end r with
  | Some s, Some e =>
      (s <=? e) && (e <=? u64_MAX) &&
      match complete_length r with Some n => (e <? n) && (n <=? u64_MAX) | None => true end
  | None, None => match complete_length r with Some n => n <=? u64_MAX | None => false end
  | _, _ => false
  end.

Definition length_text (o : option N) : str := match o with Some n => show_dec n | None => B "*" end.

Lemma length_text_ok o :
  visible_start (length_text o) /\ visible_end (length_text o) /\
  match o with Some n => n <= u64_MAX | None => True end ->
  (if length_text o =s B "*" then Ok None else n ← ok_or InvalidFormat (parse_u64 (length_text o)); Ok (Some n)) = Ok o.
Proof.
  intros (_ & _ & Ho). destruct o as [n|]; [|done]. cbn [length_text].
  assert ((show_dec n =s B "*") = false) as ->.
  { apply beqs_neq. intros E. pose proof (show_dec_digits n) as Hd. rewrite E in Hd. by vm_compute in Hd. }
  by rewrite parse_u64_show.
Qed.

Lemma length_text_ends o : visible_start (length_text o) /\ visible_end (length_text o).
Proof. destruct o as [n|]; [apply show_dec_ends | split; [by exists "*"%byte, [] | by exists [], "*"%byte]]. Qed.

Lemma content_range_fmt_eq r :
  ContentRange_fmt r = cr_unit r ++ B " " ++
    match cr_start r, cr_end r with Some s, Some e => show_dec s ++ B "-" ++ show_dec e | _, _ => B "*" end
    ++ B "/" ++ length_text (complete_length r).
Proof. unfold ContentRange_fmt. destruct (cr_start r), (cr_end r); by rewrite <- ?app_assoc. Qed.

Lemma content_range_parse_fmt r : content_range_ok r = true -> ContentRange_parse (ContentRange_fmt r) = Ok r.
Proof.
  unfold content_range_ok. rewrite andb_true_iff. intros [Hu Hr]. rewrite content_range_fmt_eq. destruct r as [u so eo len].
  cbn [cr_unit cr_start cr_end complete_length] in *. destruct (token_ends u Hu) as [Hus Hue]. destruct (length_text_ends len) as [Hls Hle].
  set (rg := match so with Some s => match eo with Some e => _ | None => _ end | None => _ end).
  assert (Hrg : visible_start rg /\ visible_end rg /\ contains_byte "/" rg = false).
  { unfold rg. destruct so as [a|], eo as [b|]; try done; [|split_and!; [by exists "*"%byte, [] | by exists [], "*"%byte | done]].
    rewrite !contains_byte_app, !(show_dec_no "/") by done. split_and!; [|do 2 apply visible_end_app; apply show_dec_ends | done].
    apply visible_start_app, show_dec_ends. }
  destruct Hrg as (Hgs & Hge & Hg). unfold ContentRange_parse.
  rewrite trim_visible; [|by apply visible_start_app | by do 4 apply visible_end_app]. cbv zeta.
  assert (is_empty (u ++ B " " ++ rg ++ B "/" ++ length_text len) = false) as -> by (by destruct Hus as (? & ? & -> & _)).
  change (u ++ B " " ++ ?r) with (u ++ " "%byte :: r). rewrite split_once_app by (by apply token_no).
  cbn [ok_or mbind result_bind]. rewrite trim_token, Hu by done. cbn [negb].
  rewrite trim_visible; [|by apply visible_start_app | by do 2 apply visible_end_app].
  change (rg ++ B "/" ++ ?r) with (rg ++ "/"%byte :: r). rewrite split_once_app by done. cbn [ok_or mbind result_bind].
  rewrite !trim_visible by done. rewrite length_text_ok.
  2:{ split_and!; [done | done|]. destruct so, eo, len; try done; lia. }
  cbn [mbind result_bind]. unfold rg. destruct so as [a|], eo as [b|]; try done.
  - assert ((show_dec a ++ B "-" ++ show_dec b =s B "*") = false) as ->.
    { apply beqs_neq. intros E. pose proof (show_dec_digits a) as Hd. pose proof (show_dec_not_nil a) as Hn.
      destruct (show_dec a) as [|c k]; [done|]. injection E as -> _. by vm_compute in Hd. }
    change (show_dec a ++ B "-" ++ show_dec b) with (show_dec a ++ "-"%byte :: show_dec b). rewrite split_once_app by (by apply show_dec_no).
    cbn [ok_or mbind result_bind]. rewrite !parse_u64_show by lia. cbn [ok_or mbind result_bind]. unfold validate_content_range_parts.
    destruct (b <? a) eqn:E1; [lia|]. destruct len as [n|]; [|done]. destruct (n <=? b) eqn:E2; [lia | done].
  - destruct len; done.
Qed.

Lemma content_range_parse_ok s r : ContentRange_parse s = Ok r -> content_range_ok r = true.
Proof.
  unfold ContentRange_parse. cbv zeta. destruct (is_empty _); [done|]. destruct (split_once _ _) as [[u rest]|]; [|done].
  cbn [ok_or mbind result_bind]. destruct (is_valid_token (trim u)) eqn:Eu; [|done]. cbn [negb].
  destruct (split_once _ _) as [[rs ls]|]; [|done]. cbn [ok_or mbind result_bind].
  assert (Hl : exists len, (if trim ls =s B "*" then Ok None else n ← ok_or InvalidFormat (parse_u64 (trim ls)); Ok (Some n)) = Ok len /\
    (forall n, len = Some n -> n <= u64_MAX) \/
    (if trim ls =s B "*" then Ok None else n ← ok_or InvalidFormat (parse_u64 (trim ls)); Ok (Some n)) = Err InvalidFormat).
  { destruct (trim ls =s B "*"); [exists None; by left|]. destruct (parse_u64 (trim ls)) as [n|] eqn:E; [|exists None; by right].
    exists (Some n). left. split; [done|]. intros ? [= <-]. by eapply parse_u64_le. }
  destruct Hl as (len & [[-> Hn]| ->]); [|done]. cbn [mbind result_bind]. unfold content_range_ok.
  destruct (trim rs =s B "*").
  - destruct len as [n|]; [|done]. intros [= <-]. cbn. rewrite Eu. specialize (Hn n eq_refl). cbn. lia.
  - destruct (split_once _ _) as [[a b]|]; [|done]. cbn [ok_or mbind result_bind].
    destruct (parse_u64 a) as [x|] eqn:Ea; [|done]. cbn [ok_or mbind result_bind]. destruct (parse_u64 b) as [y|] eqn:Eb; [|done].
    cbn [ok_or mbind result_bind]. apply parse_u64_le in Ea, Eb. unfold validate_content_range_parts. destruct (y <? x) eqn:E1; [done|].
    destruct len as [n|]; [destruct (n <=? y) eqn:E2; [done|]; specialize (Hn n eq_refl)|]; intros [= <-]; cbn; rewrite Eu; cbn; lia.
Qed.

(** *** Accept-Ranges *)

Lemma accept_ranges_roundtrip s u : AcceptRanges_parse s = Ok u -> AcceptRanges_parse (AcceptRanges_fmt u) = Ok u.
Proof.
  unfold AcceptRanges_parse at 1. cbv zeta. destruct (is_empty (trim s)); [done|]. set (us := List.filter _ _).
  destruct (is_empty us) eqn:En; [done|]. destruct (forallb is_valid_token us) eqn:Et; [|done]. cbn [negb].
  destruct (_ && _) eqn:Eb; [done|]. intros [= <-]. clearbody us. unfold AcceptRanges_parse, AcceptRanges_fmt.
  assert (Hne : us <> []) by (by destruct us). rewrite forallb_forall in Et.
  assert (Hends : visible_start (join (B ", ") us) /\ visible_end (join (B ", ") us)).
  { rewrite <- (map_id us). apply (join_ends (fun x => x)); [done|]. intros x Hx. by apply token_ends, Et. }
  destruct Hends as [Hs He]. rewrite trim_visible by done. cbv zeta.
  assert (is_empty (join (B ", ") us) = false) as -> by (by destruct Hs as (? & ? & -> & _)).
  rewrite split_join.
  2:{ apply Forall_forall. intros x Hx. apply token_no; [by apply Et | done]. }
  assert (Hf : forall pre l, pre = [] \/ pre = [" "%byte] -> (forall x, In x l -> is_valid_token x = true) ->
    List.filter (fun s => negb (is_empty s)) (map trim (map (fun x => pre ++ x) l)) = l).
  { intros pre l Hpre. induction l as [|x l IH]; [done|]. intros Hl. cbn [map List.filter].
    assert (trim (pre ++ x) = x) as ->.
    { destruct (token_ends x (Hl x ltac:(by left))). destruct Hpre as [->| ->]; [by apply trim_visible | by apply trim_space_visible]. }
    assert (is_empty x = false) as -> by (specialize (Hl x ltac:(by left)); apply is_valid_token_iff in Hl as [? _]; by destruct x).
    cbn [negb]. rewrite IH; [done|]. intros y Hy. apply Hl. by right. }
  assert (Hall : List.filter (fun s => negb (is_empty s)) (map trim (spaced us)) = us).
  { destruct us as [|x ys]; [done|]. pose proof (Hf [] [x] ltac:(by left)) as H1. pose proof (Hf [" "%byte] ys ltac:(by right)) as H2.
    cbn [map List.filter app spaced] in *. rewrite H2 by (intros z Hz; apply Et; by right).
    assert (Hx : is_valid_token x = true) by (apply Et; by left). rewrite trim_token by done.
    apply is_valid_token_iff in Hx as [Hx _]. by destruct x. }
  rewrite Hall, En, Eb. by rewrite (proj2 (forallb_forall _ _) Et).
Qed.

(** ** The theorems *)

(** C34: the bounds a range is turned into are inside the representation and are
    those of exactly the bytes that RFC 9110 Section 14.1.2 lets the range
    select; no bounds are given exactly if it selects none. *)
Theorem range_to_bounds_exact spec total :
  match to_bounds spec total with
  | Some (a, b) => a <= b /\ b < total /\ forall i, selects spec total i <-> a <= i <= b
  | None => forall i, ~ selects spec total i
  end.
Proof. apply to_bounds_exact. Qed.

(** A value of Range, Content-Range or Accept-Ranges that was parsed is
    written in a form that is parsed to the same value. *)
Lemma range_fields_roundtrip s :
  (forall r, parse s = Ok r -> parse (fmt r) = Ok r) /\
  (forall r, ContentRange_parse s = Ok r -> ContentRange_parse (ContentRange_fmt r) = Ok r) /\
  (forall u, AcceptRanges_parse s = Ok u -> AcceptRanges_parse (AcceptRanges_fmt u) = Ok u).
Proof.
  split_and!; [apply range_roundtrip | intros r Hr; by eapply content_range_parse_fmt, content_range_parse_ok | apply accept_ranges_roundtrip].
Qed.

Example range_fields_roundtrip_at :
  parse (fmt (mkRange (B "bytes") [Range_ 0 499; Suffix 5])) = Ok (mkRange (B "bytes") [Range_ 0 499; Suffix 5]).
Proof. apply (proj1 (range_fields_roundtrip (B "bytes=0 - 499,,-5"))). vm_compute. reflexivity. Defined.
End Range.
