(* ===== verification/ETag.v ===== *)
(** * Entity tags ([src/etag.rs]) and conditional requests
    ([src/conditional.rs]) *)
From S2P Require Import Prelude RustStd Validate RustStr Date.

Module ETag.

Inductive ETagError : Type := Empty | InvalidFormat | MissingQuote | InvalidCharacter.

Definition ETagError_fmt (e : ETagError) : str :=
  match e with
  | Empty => B "empty etag"
  | InvalidFormat => B "invalid etag format"
  | MissingQuote => B "missing quote in etag"
  | InvalidCharacter => B "invalid character in etag"
  end.

Definition is_etagc (b : byte) : bool := (b2n b =? 33) || within 35 126 b || (128 <=? b2n b).

Record EntityTag : Type := mkEntityTag { weak_ : bool; tag : str }.

Definition parse (input : str) : result ETagError EntityTag :=
  let input := trim input in
  if is_empty input then Err Empty
  else
    let '(weak_, rest) :=
      match strip_prefix (B "W/") input with Some rest => (true, rest) | None => (false, input) end in
    if negb (starts_with [DQUOTE] rest) then Err MissingQuote
    else
      '(tag, after_quote) ← ok_or MissingQuote (split_once DQUOTE (drop 1 rest));
      if negb (forallb is_etagc tag) then Err InvalidCharacter
      else if negb (is_empty after_quote) then Err InvalidFormat
      else Ok (mkEntityTag weak_ tag).

Definition strong (tag : str) : result ETagError EntityTag :=
  if negb (forallb is_etagc tag) then Err InvalidCharacter else Ok (mkEntityTag false tag).
Definition weak (tag : str) : result ETagError EntityTag :=
  if negb (forallb is_etagc tag) then Err InvalidCharacter else Ok (mkEntityTag true tag).

Definition is_weak (e : EntityTag) : bool := weak_ e.
Definition is_strong (e : EntityTag) : bool := negb (weak_ e).
Definition strong_compare (a b : EntityTag) : bool := negb (weak_ a) && negb (weak_ b) && (tag a =s tag b).
Definition weak_compare (a b : EntityTag) : bool := tag a =s tag b.

Definition fmt (e : EntityTag) : str :=
  if weak_ e then B "W/" ++ [DQUOTE] ++ tag e ++ [DQUOTE] else [DQUOTE] ++ tag e ++ [DQUOTE].

(** The loop of [split_etag_list_raw]: [part] is [input[start..i]]. *)
Fixpoint split_loop (input part : str) (in_quotes : bool) : list str :=
  match input with
  | [] => [part]
  | b :: rest =>
      if b =b DQUOTE then split_loop rest (part ++ [b]) (negb in_quotes)
      else if (b =b ",") && negb in_quotes then part :: split_loop rest [] in_quotes
      else split_loop rest (part ++ [b]) in_quotes
  end.
Definition split_etag_list_raw (input : str) : list str := split_loop input [] false.

Inductive ETagList : Type := Any | Tags (tags : list EntityTag).

Fixpoint parse_parts (parts : list str) : result ETagError (list EntityTag) :=
  match parts with
  | [] => Ok []
  | part :: parts' =>
      let part := trim part in
      if negb (is_empty part) then
        etag ← parse part;
        etags ← parse_parts parts';
        Ok (etag :: etags)
      else parse_parts parts'
  end.

Definition parse_etag_list (input : str) : result ETagError ETagList :=
  let input := trim input in
  if is_empty input then Err Empty
  else if input =s B "*" then Ok Any
  else
    etags ← parse_parts (split_etag_list_raw input);
    if is_empty etags then Err Empty else Ok (Tags etags).

Definition is_any (l : ETagList) : bool := match l with Any => true | Tags _ => false end.
Definition contains_weak (l : ETagList) (etag : EntityTag) : bool :=
  match l with Any => true | Tags tags => existsb (fun t => weak_compare t etag) tags end.
Definition contains_strong (l : ETagList) (etag : EntityTag) : bool :=
  match l with Any => true | Tags tags => existsb (fun t => strong_compare t etag) tags end.
Definition list_fmt (l : ETagList) : str :=
  match l with Any => B "*" | Tags tags => join (B ", ") (map fmt tags) end.

Example list_ex : parse_etag_list ([DQUOTE] ++ B "a,b" ++ [DQUOTE] ++ B ", W/" ++ [DQUOTE; DQUOTE])
  = Ok (Tags [mkEntityTag false (B "a,b"); mkEntityTag true []]).
Proof. vm_compute. reflexivity. Qed.

(** ** What is written is read back *)

Lemma etagc_no_quote s : forallb is_etagc s = true -> contains_byte DQUOTE s = false.
Proof. intros Hs. by apply (contains_byte_forallb DQUOTE s is_etagc). Qed.

Lemma fmt_ends e : visible_start (fmt e) /\ visible_end (fmt e).
Proof.
  unfold fmt. split.
  - destruct (weak_ e); by eexists _, _.
  - destruct (weak_ e); rewrite ?app_assoc; apply visible_end_app; by exists [], DQUOTE.
Qed.

Lemma parse_fmt_etag e : forallb is_etagc (tag e) = true -> parse (fmt e) = Ok e.
Proof.
  intros Ht. destruct (fmt_ends e) as [Hs He]. unfold parse. rewrite (trim_visible _ Hs He). cbv zeta.
  destruct e as [w tg]. unfold fmt in *. cbn [weak_ tag] in *. pose proof (etagc_no_quote tg Ht) as Hq.
  assert (Hsplit : split_once DQUOTE (tg ++ [DQUOTE]) = Some (tg, [])) by exact (split_once_app DQUOTE tg [] Hq).
  destruct w.
  - change (strip_prefix (B "W/") (B "W/" ++ [DQUOTE] ++ tg ++ [DQUOTE])) with (Some ([DQUOTE] ++ tg ++ [DQUOTE])).
    change (is_empty (B "W/" ++ ?r)) with false. cbv iota. change (starts_with [DQUOTE] ([DQUOTE] ++ ?r)) with true.
    change (drop 1 ([DQUOTE] ++ ?r)) with r. rewrite Hsplit. cbn [negb ok_or mbind result_bind]. by rewrite Ht.
  - change (strip_prefix (B "W/") ([DQUOTE] ++ tg ++ [DQUOTE])) with (@None bytes).
    change (is_empty ([DQUOTE] ++ ?r)) with false. cbv iota. change (starts_with [DQUOTE] ([DQUOTE] ++ ?r)) with true.
    change (drop 1 ([DQUOTE] ++ ?r)) with r. rewrite Hsplit. cbn [negb ok_or mbind result_bind]. by rewrite Ht.
Qed.

Lemma parse_tag s e : parse s = Ok e -> forallb is_etagc (tag e) = true.
Proof.
  unfold parse. cbv zeta. destruct (is_empty _); [done|]. destruct (match strip_prefix _ _ with Some _ => _ | None => _ end) as [w r].
  destruct (negb _); [done|]. destruct (split_once _ _) as [[tg after]|]; [|done]. cbn [ok_or mbind result_bind].
  destruct (forallb is_etagc tg) eqn:E; [|done]. cbn [negb]. destruct (negb _); [done|]. by intros [= <-].
Qed.

(** A tag in a list: its quotes hide its commas. *)
Lemma split_loop_tag t rest part :
  forallb is_etagc t = true -> split_loop (t ++ rest) part true = split_loop rest (part ++ t) true.
Proof.
  intros Ht. revert part. induction t as [|b t IH]; intros part; [by rewrite app_nil_r|].
  apply andb_true_iff in Ht as [Hb Ht]. cbn [app split_loop].
  assert ((b =b DQUOTE) = false) as -> by (revert Hb; clear; byte_solve b). rewrite andb_false_r, IH by done. by rewrite <- app_assoc.
Qed.

Lemma split_loop_fmt e rest part :
  forallb is_etagc (tag e) = true -> split_loop (fmt e ++ rest) part false = split_loop rest (part ++ fmt e) false.
Proof.
  intros Ht. assert (Hq : forall part, split_loop ([DQUOTE] ++ tag e ++ [DQUOTE] ++ rest) part false = split_loop rest (part ++ [DQUOTE] ++ tag e ++ [DQUOTE]) false).
  { intros p. cbn [app split_loop]. rewrite byte_eqb_refl. cbn [negb]. rewrite (split_loop_tag _ _ _ Ht).
    cbn [app split_loop]. rewrite byte_eqb_refl. cbn [negb]. by rewrite <- !app_assoc. }
  unfold fmt. destruct (weak_ e).
  - rewrite <- !app_assoc. change (B "W/" ++ ?r) with ("W"%byte :: "/"%byte :: r) at 1. cbn [split_loop].
    change ("W"%byte =b DQUOTE) with false. change ("W"%byte =b ",") with false. change ("/"%byte =b DQUOTE) with false.
    change ("/"%byte =b ",") with false. cbn [andb]. rewrite Hq. f_equal. by rewrite <- !app_assoc.
  - rewrite <- !app_assoc. apply Hq.
Qed.

Lemma etag_parts_fmt tags part :
  Forall (fun e => forallb is_etagc (tag e) = true) tags -> part = [] \/ part = B " " -> tags <> [] ->
  parse_parts (split_loop (join (B ", ") (map fmt tags)) part false) = Ok tags.
Proof.
  intros Hf. revert part. induction Hf as [|e tags He Hf IH]; intros part Hpart Hne; [done|]. clear Hne.
  destruct (fmt_ends e) as [Hs Hend].
  assert (Htr : trim (part ++ fmt e) = fmt e) by (destruct Hpart as [->| ->]; [by apply trim_visible | by apply trim_space_visible]).
  assert (Hn : is_empty (fmt e) = false) by (by destruct Hs as (? & ? & -> & _)).
  destruct tags as [|e2 tags].
  - cbn [map join]. rewrite <- (app_nil_r (fmt e)), split_loop_fmt by done. cbn [split_loop parse_parts]. cbv zeta.
    by rewrite Htr, Hn, parse_fmt_etag.
  - cbn [map]. rewrite join_cons by done. rewrite split_loop_fmt by done. change (B ", " ++ ?r) with (","%byte :: " "%byte :: r).
    cbn [split_loop]. change (","%byte =b DQUOTE) with false. change (","%byte =b ",") with true. cbn [andb negb].
    change (" "%byte =b DQUOTE) with false. change (" "%byte =b ",") with false. cbn [andb app parse_parts]. cbv zeta.
    rewrite Htr, Hn, parse_fmt_etag by done. cbn [negb mbind result_bind].
    change [" "%byte] with (B " "). change (fmt e2 :: map fmt tags) with (map fmt (e2 :: tags)). by rewrite IH by (done || by right).
Qed.

Lemma list_parts_ok parts tags : parse_parts parts = Ok tags -> Forall (fun e => forallb is_etagc (tag e) = true) tags.
Proof.
  revert tags. induction parts as [|p parts IH]; intros tags; cbn [parse_parts]; [by intros [= <-]|]. cbv zeta.
  destruct (negb _); [|apply IH]. destruct (parse (trim p)) as [e|] eqn:E; [|done]. cbn [mbind result_bind].
  destruct (parse_parts parts) as [es|]; [|done]. cbn [mbind result_bind]. intros [= <-]. constructor; [by eapply parse_tag | by apply IH].
Qed.

Lemma parse_list_fmt tags :
  tags <> [] -> Forall (fun e => forallb is_etagc (tag e) = true) tags -> parse_etag_list (list_fmt (Tags tags)) = Ok (Tags tags).
Proof.
  intros Hne Hf. unfold parse_etag_list. cbn [list_fmt].
  destruct (join_ends fmt tags Hne ltac:(intros; apply fmt_ends)) as [Hs He]. rewrite (trim_visible _ Hs He). cbv zeta.
  set (text := join _ _) in *. assert (is_empty text = false) as -> by (by destruct Hs as (? & ? & -> & _)).
  assert ((text =s B "*") = false) as ->.
  { apply beqs_neq. unfold text. destruct tags as [|e tags]; [done|]. destruct tags as [|e2 tags].
    - cbn [map join]. unfold fmt. by destruct (weak_ e).
    - cbn [map]. rewrite join_cons by done. unfold fmt. by destruct (weak_ e). }
  unfold text, split_etag_list_raw. rewrite etag_parts_fmt; [|done|by left|done]. cbn [mbind result_bind]. by destruct tags.
Qed.

Lemma list_roundtrip s l : parse_etag_list s = Ok l -> parse_etag_list (list_fmt l) = Ok l.
Proof.
  unfold parse_etag_list at 1. cbv zeta. destruct (is_empty _); [done|]. destruct (_ =s _); [by intros [= <-]|].
  destruct (parse_parts _) as [tags|] eqn:E; [|done]. cbn [mbind result_bind]. destruct (is_empty tags) eqn:En; [done|].
  intros [= <-]. apply parse_list_fmt; [by destruct tags | by eapply list_parts_ok].
Qed.
End ETag.
