(* ===== verification/Conditional.v ===== *)
(** * Conditional requests ([src/conditional.rs])

    If-Match, If-None-Match, If-Modified-Since, If-Unmodified-Since and
    If-Range, on entity tags and dates. *)
From S2P Require Import Prelude RustStd Validate RustStr Date ETag.

Module Conditional.

Inductive ConditionalError : Type := Empty | InvalidFormat | ETagError | DateError.

Definition ConditionalError_fmt (e : ConditionalError) : str :=
  match e with
  | Empty => B "empty conditional header"
  | InvalidFormat => B "invalid conditional header format"
  | ETagError => B "invalid etag in conditional header"
  | DateError => B "invalid date in conditional header"
  end.

(** The two list conditions wrap an entity-tag list. *)
Inductive IfMatch : Type := IfMatch_of (l : ETag.ETagList).
Inductive IfNoneMatch : Type := IfNoneMatch_of (l : ETag.ETagList).

Definition IfMatch_parse (input : str) : result ConditionalError IfMatch :=
  map_err (fun _ => ETagError) (l ← ETag.parse_etag_list input; Ok (IfMatch_of l)).
Definition IfMatch_is_any (c : IfMatch) : bool := let '(IfMatch_of l) := c in ETag.is_any l.
Definition IfMatch_matches (c : IfMatch) (etag : ETag.EntityTag) : bool :=
  let '(IfMatch_of l) := c in ETag.contains_strong l etag.
Definition IfMatch_fmt (c : IfMatch) : str := let '(IfMatch_of l) := c in ETag.list_fmt l.

Definition IfNoneMatch_parse (input : str) : result ConditionalError IfNoneMatch :=
  map_err (fun _ => ETagError) (l ← ETag.parse_etag_list input; Ok (IfNoneMatch_of l)).
Definition IfNoneMatch_is_any (c : IfNoneMatch) : bool := let '(IfNoneMatch_of l) := c in ETag.is_any l.
Definition IfNoneMatch_matches (c : IfNoneMatch) (etag : ETag.EntityTag) : bool :=
  let '(IfNoneMatch_of l) := c in negb (ETag.contains_weak l etag).
Definition IfNoneMatch_fmt (c : IfNoneMatch) : str := let '(IfNoneMatch_of l) := c in ETag.list_fmt l.

(** [HttpDate::parse(input)], with the two-digit years left to [parse_rfc850]. *)
Definition parse_date (input : str) (reference_year : N) : result ConditionalError Date.HttpDate :=
  map_err (fun _ => DateError)
    match Date.parse input with
    | Err Date.Rfc850Date => Date.parse_rfc850 input reference_year
    | r => r
    end.

Inductive IfModifiedSince : Type := IfModifiedSince_of (d : Date.HttpDate).
Inductive IfUnmodifiedSince : Type := IfUnmodifiedSince_of (d : Date.HttpDate).

Definition IfModifiedSince_parse (input : str) (reference_year : N) : result ConditionalError IfModifiedSince :=
  d ← parse_date input reference_year; Ok (IfModifiedSince_of d).
Definition is_modified (c : IfModifiedSince) (last_modified : Date.HttpDate) : bool :=
  let '(IfModifiedSince_of d) := c in
  match Date.cmp last_modified d with Gt => true | _ => false end.
Definition IfModifiedSince_fmt (c : IfModifiedSince) : str := let '(IfModifiedSince_of d) := c in Date.fmt d.

Definition IfUnmodifiedSince_parse (input : str) (reference_year : N) : result ConditionalError IfUnmodifiedSince :=
  d ← parse_date input reference_year; Ok (IfUnmodifiedSince_of d).
Definition IfUnmodifiedSince_fmt (c : IfUnmodifiedSince) : str := let '(IfUnmodifiedSince_of d) := c in Date.fmt d.

Inductive IfRange : Type := IR_ETag (e : ETag.EntityTag) | IR_Date (d : Date.HttpDate).

Definition IfRange_parse (input : str) (reference_year : N) : result ConditionalError IfRange :=
  let input := trim input in
  if is_empty input then Err Empty
  else if starts_with [DQUOTE] input || starts_with (B "W/") input || starts_with (B "w/") input then
    map_err (fun _ => ETagError) (e ← ETag.parse input; Ok (IR_ETag e))
  else d ← parse_date input reference_year; Ok (IR_Date d).

Definition is_etag (c : IfRange) : bool := match c with IR_ETag _ => true | IR_Date _ => false end.
Definition is_date (c : IfRange) : bool := match c with IR_Date _ => true | IR_ETag _ => false end.
Definition etag (c : IfRange) : option ETag.EntityTag := match c with IR_ETag e => Some e | IR_Date _ => None end.
Definition date (c : IfRange) : option Date.HttpDate := match c with IR_Date d => Some d | IR_ETag _ => None end.
Definition IfRange_fmt (c : IfRange) : str := match c with IR_ETag e => ETag.fmt e | IR_Date d => Date.fmt d end.

(** ** Lemmas *)

Lemma parse_date_ok s y d : parse_date s y = Ok d -> parse_date (Date.fmt d) y = Ok d.
Proof.
  intros H. assert (Hv : Date.valid d = true).
  { unfold parse_date in H. destruct (Date.parse s) as [x|e] eqn:E.
    - injection H as ->. by eapply Date.parse_valid.
    - destruct e; try done. destruct (Date.parse_rfc850 s y) as [x|] eqn:E2; [|done]. injection H as ->.
      by eapply Date.parse_rfc850_valid. }
  unfold parse_date. by rewrite Date.parse_fmt_date.
Qed.

(** A date as a number: the comparison of dates is that of these numbers. *)
Definition moment (d : Date.HttpDate) : N :=
  ((((Date.year d * 13 + Date.month d) * 32 + Date.day d) * 24 + Date.hour d) * 60 + Date.minute d) * 61 + Date.second d.

Lemma lexicographic_number k x y a b :
  a < k -> b < k -> (x * k + a ?= y * k + b) = match x ?= y with Eq => a ?= b | c => c end.
Proof.
  intros Ha Hb. destruct (N.compare_spec x y) as [->|Hxy|Hxy].
  - destruct (N.compare_spec a b); [apply N.compare_eq_iff | apply N.compare_lt_iff | apply N.compare_gt_iff]; lia.
  - apply N.compare_lt_iff. nia.
  - apply N.compare_gt_iff. nia.
Qed.

Lemma cmp_moment a b : Date.valid a = true -> Date.valid b = true -> Date.cmp a b = (moment a ?= moment b).
Proof.
  intros Ha%Date.valid_bounds Hb%Date.valid_bounds. unfold moment. rewrite !lexicographic_number by lia.
  unfold Date.cmp, Date.cmp_key. cbn [Date.lexicographic].
  repeat match goal with |- context [match ?c with Eq => _ | Lt => _ | Gt => _ end] => destruct c; try done end.
Qed.

Lemma ifrange_roundtrip s y c : IfRange_parse s y = Ok c -> IfRange_parse (IfRange_fmt c) y = Ok c.
Proof.
  unfold IfRange_parse at 1. cbv zeta. destruct (is_empty (trim s)); [done|]. destruct (_ || _).
  - destruct (ETag.parse (trim s)) as [e|] eqn:E; [|done]. cbn [mbind result_bind map_err]. intros [= <-].
    apply ETag.parse_tag in E. destruct (ETag.fmt_ends e) as [Hs He]. unfold IfRange_parse. cbn [IfRange_fmt].
    rewrite trim_visible by done. cbv zeta. assert (is_empty (ETag.fmt e) = false) as -> by (by destruct Hs as (? & ? & -> & _)).
    assert (starts_with [DQUOTE] (ETag.fmt e) || starts_with (B "W/") (ETag.fmt e) || starts_with (B "w/") (ETag.fmt e) = true) as ->
      by (unfold ETag.fmt; by destruct (ETag.weak_ e)).
    by rewrite ETag.parse_fmt_etag.
  - destruct (parse_date (trim s) y) as [d|] eqn:E; [|done]. cbn [mbind result_bind]. intros [= <-].
    apply parse_date_ok in E. unfold IfRange_parse. cbn [IfRange_fmt]. rewrite (trim_id _ (Date.fmt_solid_ends d)). cbv zeta.
    assert (is_empty (Date.fmt d) = false) as -> by (rewrite Date.fmt_eq; by destruct (Date.day_of_week d)).
    assert (starts_with [DQUOTE] (Date.fmt d) || starts_with (B "W/") (Date.fmt d) || starts_with (B "w/") (Date.fmt d) = false) as ->
      by (rewrite Date.fmt_eq; by destruct (Date.day_of_week d)).
    by rewrite E.
Qed.

(** A conditional field that was parsed, with tags or with a date in any of
    the three formats, is written in a form that is parsed to the same value,
    whatever the reference year is. *)
Lemma conditional_fields_roundtrip s y :
  (forall c, IfMatch_parse s = Ok c -> IfMatch_parse (IfMatch_fmt c) = Ok c) /\
  (forall c, IfNoneMatch_parse s = Ok c -> IfNoneMatch_parse (IfNoneMatch_fmt c) = Ok c) /\
  (forall c, IfModifiedSince_parse s y = Ok c -> IfModifiedSince_parse (IfModifiedSince_fmt c) y = Ok c) /\
  (forall c, IfUnmodifiedSince_parse s y = Ok c -> IfUnmodifiedSince_parse (IfUnmodifiedSince_fmt c) y = Ok c) /\
  (forall c, IfRange_parse s y = Ok c -> IfRange_parse (IfRange_fmt c) y = Ok c).
Proof.
  unfold IfMatch_parse, IfNoneMatch_parse, IfModifiedSince_parse, IfUnmodifiedSince_parse. split_and!.
  - intros c. destruct (ETag.parse_etag_list s) as [l|] eqn:E; [|done]. cbn. intros [= <-]. cbn. by rewrite (ETag.list_roundtrip s l E).
  - intros c. destruct (ETag.parse_etag_list s) as [l|] eqn:E; [|done]. cbn. intros [= <-]. cbn. by rewrite (ETag.list_roundtrip s l E).
  - intros c. destruct (parse_date s y) as [d|] eqn:E; [|done]. cbn. intros [= <-]. cbn. by rewrite (parse_date_ok s y d E).
  - intros c. destruct (parse_date s y) as [d|] eqn:E; [|done]. cbn. intros [= <-]. cbn. by rewrite (parse_date_ok s y d E).
  - intros c. apply ifrange_roundtrip.
Qed.

(** C33: what the conditions decide.  If-Match holds for a representation exactly
    if the list is [*] or has a strong tag equal to its own strong tag; a
    representation that satisfies If-Match fails If-None-Match with the same
    list; and If-Modified-Since holds exactly for the later moments. *)
Theorem conditional_semantics l e d lm :
  (IfMatch_matches (IfMatch_of l) e = true <->
     l = ETag.Any \/ exists ts t, l = ETag.Tags ts /\ In t ts /\ ETag.weak_ t = false /\ ETag.weak_ e = false /\ ETag.tag t = ETag.tag e) /\
  (IfMatch_matches (IfMatch_of l) e = true -> IfNoneMatch_matches (IfNoneMatch_of l) e = false) /\
  (Date.valid d = true -> Date.valid lm = true -> is_modified (IfModifiedSince_of d) lm = (moment d <? moment lm)).
Proof.
  split_and!.
  - cbn [IfMatch_matches]. destruct l as [|ts]; cbn [ETag.contains_strong]; [split; [by left | done]|]. rewrite existsb_exists. split.
    + intros (t & Hin & Ht). unfold ETag.strong_compare in Ht. rewrite !andb_true_iff, !negb_true_iff, beqs_eq in Ht.
      right. exists ts, t. tauto.
    + intros [?|(ts' & t & [= <-] & Hin & Ht & He & Hq)]; [done|]. exists t. split; [done|]. unfold ETag.strong_compare.
      rewrite Ht, He, Hq. by rewrite beqs_refl.
  - cbn [IfMatch_matches IfNoneMatch_matches]. destruct l as [|ts]; [done|]. cbn [ETag.contains_strong ETag.contains_weak].
    rewrite negb_false_iff, !existsb_exists. intros (t & Hin & Ht). exists t. split; [done|].
    unfold ETag.strong_compare in Ht. rewrite !andb_true_iff in Ht. apply Ht.
  - intros Hd Hl. cbn [is_modified]. rewrite cmp_moment by done. unfold N.ltb. rewrite (N.compare_antisym (moment lm)).
    by destruct (moment lm ?= moment d).
Qed.
Example conditional_fields_roundtrip_at :
  let s := B "Sunday, 06-Nov-94 08:49:37 GMT" in
  let d := Date.example_date in
  IfRange_parse s 2024 = Ok (IR_Date d) /\ IfRange_parse (IfRange_fmt (IR_Date d)) 2024 = Ok (IR_Date d).
Proof.
  split; [vm_compute; reflexivity|].
  destruct (conditional_fields_roundtrip (B "Sunday, 06-Nov-94 08:49:37 GMT") 2024) as (_ & _ & _ & _ & H).
  apply H. vm_compute. reflexivity.
Defined.

Lemma conditional_semantics_witness :
  let e := ETag.mkEntityTag false (B "v1") in
  IfMatch_matches (IfMatch_of (ETag.Tags [e])) e = true /\ IfNoneMatch_matches (IfNoneMatch_of (ETag.Tags [e])) e = false.
Proof.
  split; [reflexivity|].
  destruct (conditional_semantics (ETag.Tags [ETag.mkEntityTag false (B "v1")]) (ETag.mkEntityTag false (B "v1"))
              Date.example_date Date.example_date) as (_ & H & _).
  apply H. reflexivity.
Defined.
End Conditional.
