(* ===== verification/ListFields.v ===== *)
(** * Fields that list tokens

    Vary ([src/vary.rs]), Upgrade ([src/upgrade.rs]), Content-Encoding
    ([src/content_encoding.rs]), Content-Language ([src/content_language.rs])
    and Expect ([src/expect.rs]): a module for each. *)
From S2P Require Import Prelude RustStd Validate RustStr FieldList.

(** ** Vary *)
Module Vary.

Inductive VaryError : Type := Empty | InvalidFormat | InvalidFieldName.

Definition VaryError_fmt (e : VaryError) : str :=
  match e with
  | Empty => B "empty Vary header"
  | InvalidFormat => B "invalid Vary header format"
  | InvalidFieldName => B "invalid Vary header field name"
  end.

Record t : Type := mkVary { any : bool; fields : list str }.

(** The loop of [parse] with its variables [any] and [fields]. *)
Fixpoint parse_loop (parts : list str) (any : bool) (fields : list str) : result VaryError (bool * list str) :=
  match parts with
  | [] => Ok (any, fields)
  | part :: parts' =>
      let name := trim_ows part in
      if is_empty name then parse_loop parts' any fields
      else if name =s B "*" then parse_loop parts' true fields
      else if negb (is_valid_token name) then Err InvalidFieldName
      else parse_loop parts' any (fields ++ [to_ascii_lowercase name])
  end.

Definition parse (input : str) : result VaryError t :=
  let input := trim_ows input in
  '(any, fields) ← parse_loop (split "," input) false [];
  let fields := if any : bool then [] else fields in
  Ok (mkVary any fields).

Definition is_any (v : t) : bool := any v.

Definition fmt (v : t) : str := if any v then B "*" else join (B ", ") (fields v).

(** The loop is [list_loop] with a wildcard read as [None]. *)
Definition entry (name : str) : result VaryError (option str) :=
  if name =s B "*" then Ok None
  else if negb (is_valid_token name) then Err InvalidFieldName
  else Ok (Some (to_ascii_lowercase name)).

Lemma parse_loop_entries parts a fs :
  parse_loop parts a fs =
  (xs ← list_loop trim_ows entry parts; Ok (a || existsb (fun x => negb (is_some x)) xs, fs ++ omap id xs)).
Proof.
  revert a fs. induction parts as [|p parts IH]; intros a fs; cbn [parse_loop list_loop]; [cbn; by rewrite app_nil_r, orb_false_r|].
  cbv zeta. destruct (is_empty _); [apply IH|]. assert (He := eq_refl (entry (trim_ows p))). unfold entry at 2 in He.
  destruct (_ =s _); [|destruct (is_valid_token _)]; cbn [negb] in *; rewrite He, ?IH; try done;
    (destruct (list_loop _ _ _); [|done]); cbn; by rewrite ?orb_true_r, <- ?app_assoc.
Qed.

Definition entry_text (x : option str) : str := default (B "*") x.

Definition entry_ok (x : option str) : Prop :=
  match x with None => True | Some f => is_valid_token f = true /\ to_ascii_lowercase f = f /\ f <> B "*" end.

Lemma entry_parsed t x : entry t = Ok x -> entry_ok x.
Proof.
  unfold entry. destruct (t =s B "*") eqn:E; [by intros [= <-]|]. destruct (is_valid_token t) eqn:Et; [|done].
  cbn [negb]. intros [= <-]. split_and!; [by apply lower_valid_token | apply lower_idem|].
  apply beqs_neq in E. intros Hs. apply E. clear -Hs. destruct t as [|b [|c s]]; [done| |done].
  injection Hs as Hb. f_equal. revert Hb. byte_solve b.
Qed.

Lemma entry_read_back x : entry_ok x -> item_text entry entry_text (without ",") x.
Proof.
  destruct x as [f|]; cbn [entry_ok]; [|intros _; split_and!; try done; split; [by exists "*"%byte, [] | by exists [], "*"%byte]].
  intros (Ht & Hl & Hs). split_and!; [by apply token_text_ends | by apply token_no|].
  unfold entry. cbn [entry_text from_option id]. apply beqs_neq in Hs. by rewrite Hs, Ht, Hl.
Qed.

Lemma vary_roundtrip s v : parse s = Ok v -> parse (fmt v) = Ok v.
Proof.
  unfold parse at 1. cbv zeta. rewrite parse_loop_entries. destruct (list_loop _ _ _) as [xs|] eqn:E; [|done].
  cbn [mbind result_bind app orb]. apply (list_loop_ok entry_parsed) in E.
  destruct (existsb _ xs) eqn:Ex; intros [= <-]; [reflexivity|]. unfold fmt, parse. cbn [any fields]. cbv zeta.
  assert (Hxs : map entry_text xs = omap id xs).
  { clear E. induction xs as [|[f|] xs IH]; cbn in *; [done| |done]. f_equal. by apply IH. }
  assert (Hf : Forall (item_text entry entry_text (without ",")) xs) by (eapply List.Forall_impl; [exact entry_read_back | exact E]).
  change (B ", ") with (sep ","). rewrite <- Hxs at 1. rewrite (trim_list_text trim_ows "," Hf).
  rewrite parse_loop_entries, (field_read_back trim_ows (split ",") "," Hf). cbn [mbind result_bind]. by rewrite Ex.
Qed.
End Vary.

(** ** Upgrade *)
Module Upgrade.

Inductive UpgradeError : Type := Empty | InvalidFormat | InvalidProtocol | InvalidVersion.

Definition UpgradeError_fmt (e : UpgradeError) : str :=
  match e with
  | Empty => B "empty Upgrade header"
  | InvalidFormat => B "invalid Upgrade header format"
  | InvalidProtocol => B "invalid Upgrade protocol"
  | InvalidVersion => B "invalid Upgrade protocol version"
  end.

Record Protocol : Type := mkProtocol { name : str; version : option str }.
Record t : Type := mkUpgrade { protocols : list Protocol }.

(** The body of the loop of [parse]. *)
Definition parse_protocol (part : str) : result UpgradeError Protocol :=
  match split_once "/" part with
  | Some (name, version) =>
      if contains_byte "/" version then Err InvalidFormat
      else
        let name := trim_ows name in
        let version := trim_ows version in
        if is_empty name then Err InvalidProtocol
        else if is_empty version then Err InvalidVersion
        else if negb (is_valid_token name) then Err InvalidProtocol
        else if negb (is_valid_token version) then Err InvalidVersion
        else Ok (mkProtocol (to_ascii_lowercase name) (Some (to_ascii_lowercase version)))
  | None =>
      if negb (is_valid_token part) then Err InvalidProtocol
      else Ok (mkProtocol (to_ascii_lowercase part) None)
  end.

Definition parse (input : str) : result UpgradeError t :=
  let input := trim_ows input in
  protocols ← list_loop trim_ows parse_protocol (split "," input);
  Ok (mkUpgrade protocols).

Definition has_protocol (u : t) (protocol : str) : bool :=
  existsb (fun p => eq_ignore_ascii_case (name p) protocol) (protocols u).

Definition Protocol_fmt (p : Protocol) : str :=
  match version p with Some v => name p ++ B "/" ++ v | None => name p end.
Definition fmt (u : t) : str := join (B ", ") (map Protocol_fmt (protocols u)).

Definition lower_token (s : str) : Prop := is_valid_token s = true /\ to_ascii_lowercase s = s.

Lemma lower_is_lower_token s : is_valid_token s = true -> lower_token (to_ascii_lowercase s).
Proof. intros H. split; [by apply lower_valid_token | apply lower_idem]. Qed.

Definition protocol_ok (p : Protocol) : Prop :=
  lower_token (name p) /\ match version p with Some v => lower_token v | None => True end.

Lemma protocol_parsed s p : parse_protocol s = Ok p -> protocol_ok p.
Proof.
  unfold parse_protocol, protocol_ok. destruct (split_once _ _) as [[n v]|].
  - destruct (contains_byte _ _); [done|]. cbv zeta. do 2 (destruct (is_empty _); [done|]).
    destruct (is_valid_token (trim_ows n)) eqn:En; [|done]. destruct (is_valid_token (trim_ows v)) eqn:Ev; [|done].
    intros [= <-]. split; by apply lower_is_lower_token.
  - destruct (is_valid_token s) eqn:E; [|done]. intros [= <-]. split; [by apply lower_is_lower_token | done].
Qed.


Lemma protocol_read_back p : protocol_ok p -> item_text parse_protocol Protocol_fmt (without ",") p.
Proof.
  destruct p as [n v]. intros [[Hn Hl] Hv]. cbn [name version] in *. unfold item_text, Protocol_fmt, parse_protocol.
  cbn [name version]. destruct v as [v|].
  - destruct Hv as [Hv Hlv]. split_and!.
    + by apply text_ends_mid; apply token_text_ends.
    + unfold without. rewrite !contains_byte_app, (token_no n), (token_no v) by done. done.
    + change (B "/" ++ v) with ("/"%byte :: v). rewrite split_once_app by (by apply token_no).
      rewrite (token_no v "/") by done. cbv zeta.
      rewrite !trim_text by (by apply token_text_ends). by rewrite !token_not_empty, Hn, Hv, Hl, Hlv.
  - split_and!; [by apply token_text_ends | by apply token_no|].
    rewrite (proj2 (split_once_None "/" n)) by (by apply token_no). by rewrite Hn, Hl.
Qed.

Lemma upgrade_roundtrip s u : parse s = Ok u -> parse (fmt u) = Ok u.
Proof.
  unfold parse. cbv zeta. destruct (list_loop _ _ _) as [ps|] eqn:E; [|done]. cbn [mbind result_bind]. intros [= <-].
  apply (list_loop_ok protocol_parsed), (List.Forall_impl _ protocol_read_back) in E. unfold fmt. cbn [protocols].
  change (B ", ") with (sep ","). by rewrite (trim_list_text trim_ows "," E), (field_read_back trim_ows (split ",") "," E).
Qed.
End Upgrade.

(** ** Content-Encoding *)
Module ContentEncoding.

Inductive ContentEncodingError : Type := Empty | InvalidFormat | InvalidEncoding.

Definition ContentEncodingError_fmt (e : ContentEncodingError) : str :=
  match e with
  | Empty => B "empty Content-Encoding"
  | InvalidFormat => B "invalid Content-Encoding format"
  | InvalidEncoding => B "invalid Content-Encoding token"
  end.

Inductive ContentCoding : Type := Gzip | Deflate | Compress | Identity | Other (value : str).

Definition as_str (c : ContentCoding) : str :=
  match c with
  | Gzip => B "gzip"
  | Deflate => B "deflate"
  | Compress => B "compress"
  | Identity => B "identity"
  | Other value => value
  end.

Record t : Type := mkContentEncoding { encodings : list ContentCoding }.

Definition parse_coding (token : str) : result ContentEncodingError ContentCoding :=
  if is_empty token then Err InvalidFormat
  else if negb (is_valid_token token) then Err InvalidEncoding
  else
    let normalized := to_ascii_lowercase token in
    Ok (if normalized =s B "gzip" then Gzip
        else if normalized =s B "deflate" then Deflate
        else if normalized =s B "compress" then Compress
        else if normalized =s B "identity" then Identity
        else Other normalized).

Definition parse (input : str) : result ContentEncodingError t :=
  let input := trim input in
  encodings ← (if negb (is_empty input) then list_loop trim parse_coding (split "," input) else Ok []);
  Ok (mkContentEncoding encodings).

Definition has_gzip (e : t) : bool := existsb (fun c => match c with Gzip => true | _ => false end) (encodings e).
Definition has_deflate (e : t) : bool := existsb (fun c => match c with Deflate => true | _ => false end) (encodings e).
Definition has_compress (e : t) : bool := existsb (fun c => match c with Compress => true | _ => false end) (encodings e).
Definition has_identity (e : t) : bool := existsb (fun c => match c with Identity => true | _ => false end) (encodings e).

Definition fmt (e : t) : str := join (B ", ") (map as_str (encodings e)).

Definition coding_ok (c : ContentCoding) : Prop := is_valid_token (as_str c) = true /\ parse_coding (as_str c) = Ok c.

Lemma coding_parsed s c : parse_coding s = Ok c -> coding_ok c.
Proof.
  unfold parse_coding at 1. destruct (is_empty s); [done|]. destruct (is_valid_token s) eqn:E; [|done]. cbv zeta. cbn [negb].
  intros [= Hc]. pose proof (lower_valid_token s E) as Ht. set (n := to_ascii_lowercase s) in *.
  assert (Hn : to_ascii_lowercase n = n) by apply lower_idem. clearbody n. clear E.
  destruct (n =s B "gzip") eqn:E1; [by subst c|]. destruct (n =s B "deflate") eqn:E2; [by subst c|].
  destruct (n =s B "compress") eqn:E3; [by subst c|]. destruct (n =s B "identity") eqn:E4; [by subst c|]. subst c.
  split; [done|]. cbn [as_str]. unfold parse_coding. rewrite token_not_empty, Ht by done. cbn [negb]. cbv zeta.
  by rewrite Hn, E1, E2, E3, E4.
Qed.

Lemma coding_read_back c : coding_ok c -> item_text parse_coding as_str (without ",") c.
Proof. intros [Ht Hp]. split_and!; [by apply token_text_ends | by apply token_no | done]. Qed.

Lemma coding_roundtrip s e : parse s = Ok e -> parse (fmt e) = Ok e.
Proof.
  unfold parse. cbv zeta. intros H.
  assert (Hf : Forall coding_ok (encodings e)).
  { destruct (negb (is_empty (trim s))); [|by injection H as <-].
    destruct (list_loop _ _ _) as [cs|] eqn:E; [|done]. injection H as <-. by apply (list_loop_ok coding_parsed) in E. }
  apply (List.Forall_impl _ coding_read_back) in Hf. unfold fmt. destruct e as [cs]. cbn [encodings] in *.
  clear H. change (B ", ") with (sep ","). rewrite (trim_list_text trim "," Hf). destruct cs as [|c cs]; [done|].
  rewrite (text_ends_not_empty _ (list_text_ends "," Hf ltac:(done))). cbn [negb].
  by rewrite (field_read_back trim (split ",") "," Hf).
Qed.
End ContentEncoding.

(** ** Content-Language *)
Module ContentLanguage.

Inductive ContentLanguageError : Type := Empty | InvalidFormat | InvalidLanguageTag.

Definition ContentLanguageError_fmt (e : ContentLanguageError) : str :=
  match e with
  | Empty => B "empty Content-Language"
  | InvalidFormat => B "invalid Content-Language format"
  | InvalidLanguageTag => B "invalid language tag"
  end.

Record t : Type := mkContentLanguage { tags : list str }.

(** The body of the loop of [parse]. *)
Definition parse_tag (tag : str) : result ContentLanguageError str :=
  if negb (is_valid_language_tag tag) then Err InvalidLanguageTag else Ok tag.

Definition parse (input : str) : result ContentLanguageError t :=
  let input := trim input in
  tags ← list_loop trim parse_tag (split "," input);
  Ok (mkContentLanguage tags).

Definition fmt (l : t) : str := join (B ", ") (tags l).

Lemma tag_parsed s x : parse_tag s = Ok x -> is_valid_language_tag x = true.
Proof. unfold parse_tag. destruct (is_valid_language_tag s) eqn:E; [|done]. by intros [= <-]. Qed.

Lemma tag_read_back x : is_valid_language_tag x = true -> item_text parse_tag id (without ",") x.
Proof.
  intros Hx. pose proof (language_tag_chars x Hx) as [Hne Hc]. split_and!.
  - apply visible_all; [done|]. revert Hc. apply forallb_impl. intros b. byte_solve b.
  - by apply (contains_byte_forallb "," x _ Hc).
  - unfold parse_tag. cbn [id]. by rewrite Hx.
Qed.

Lemma language_tags_roundtrip s l : parse s = Ok l -> parse (fmt l) = Ok l.
Proof.
  unfold parse. cbv zeta. destruct (list_loop _ _ _) as [ts|] eqn:E; [|done]. cbn [mbind result_bind]. intros [= <-].
  apply (list_loop_ok tag_parsed), (List.Forall_impl _ tag_read_back) in E. unfold fmt. cbn [tags].
  change (B ", ") with (sep ","). rewrite <- (map_id ts) at 1. change (fun x => x) with (@id str).
  by rewrite (trim_list_text trim "," E), (field_read_back trim (split ",") "," E).
Qed.
End ContentLanguage.

(** ** Expect *)
Module Expect.

Inductive ExpectError : Type := Empty | InvalidFormat | InvalidToken | InvalidValue | UnterminatedQuote.

Definition ExpectError_fmt (e : ExpectError) : str :=
  match e with
  | Empty => B "empty Expect header"
  | InvalidFormat => B "invalid Expect header format"
  | InvalidToken => B "invalid Expect token"
  | InvalidValue => B "invalid Expect value"
  | UnterminatedQuote => B "unterminated quoted-string"
  end.

Definition from_quoted (e : QuotedStringError) : ExpectError :=
  match e with
  | InvalidQdtext | InvalidQuotedPair => InvalidValue
  | Unterminated => UnterminatedQuote
  end.

Record Expectation : Type := mkExpectation { token : str; value : option str }.
Record t : Type := mkExpect { items : list Expectation }.

Definition needs_quoting (s : str) : bool := is_empty s || existsb (fun b => negb (is_token_char b)) s.

Definition parse_value (input : str) : result ExpectError str :=
  let input := trim input in
  if is_empty input then Err InvalidValue
  else
    match strip_prefix [DQUOTE] input with
    | Some rest =>
        '(value, remaining) ← map_err from_quoted (parse_quoted_string rest);
        if negb (is_empty (trim remaining)) then Err InvalidValue else Ok value
    | None => if negb (is_valid_token input) then Err InvalidValue else Ok input
    end.

(** The body of the loop of [parse]. *)
Definition parse_expectation (part : str) : result ExpectError Expectation :=
  '(token, value) ←
    match split_once "=" part with
    | Some (token, value) =>
        let token := trim token in
        if is_empty token then Err InvalidFormat
        else value ← parse_value value; Ok (token, Some value)
    | None => Ok (part, None)
    end;
  if negb (is_valid_token token) then Err InvalidToken
  else Ok (mkExpectation (to_ascii_lowercase token) value).

Definition parse (input : str) : result ExpectError t :=
  let input := trim input in
  items ← list_loop trim parse_expectation (split_with_quotes input ",");
  Ok (mkExpect items).

Definition is_100_continue (e : Expectation) : bool := eq_ignore_ascii_case (token e) (B "100-continue").
Definition has_100_continue (e : t) : bool :=
  existsb (fun item => eq_ignore_ascii_case (token item) (B "100-continue")) (items e).

Definition Expectation_fmt (e : Expectation) : str :=
  match value e with
  | Some v =>
      if needs_quoting v then token e ++ B "=" ++ [DQUOTE] ++ escape_quotes v ++ [DQUOTE]
      else token e ++ B "=" ++ v
  | None => token e
  end.
Definition fmt (e : t) : str := join (B ", ") (map Expectation_fmt (items e)).

Lemma fmt_value e : Expectation_fmt e = match value e with Some v => token e ++ B "=" ++ value_text v | None => token e end.
Proof. unfold Expectation_fmt, value_text, needs_quoting. destruct (value e) as [v|]; [|done]. by destruct (is_empty v || _). Qed.

Definition expectation_ok (e : Expectation) : Prop :=
  Upgrade.lower_token (token e) /\ match value e with Some v => forallb is_quoted_pair_char v = true | None => True end.

Lemma value_parsed s v : parse_value s = Ok v -> forallb is_quoted_pair_char v = true.
Proof.
  unfold parse_value. cbv zeta. destruct (is_empty _); [done|]. destruct (strip_prefix _ _) as [rest|].
  - destruct (parse_quoted_string rest) as [[w r]|] eqn:E; [|done]. cbn [map_err mbind result_bind]. destruct (negb _); [done|].
    intros [= <-]. by eapply parse_quoted_quotable.
  - destruct (is_valid_token _) eqn:E; [|done]. intros [= <-]. by apply token_quotable.
Qed.

Lemma expectation_parsed s e : parse_expectation s = Ok e -> expectation_ok e.
Proof.
  unfold parse_expectation. destruct (split_once _ _) as [[n v]|].
  - cbv zeta. destruct (is_empty _); [done|]. destruct (parse_value v) as [w|] eqn:Ev; [|done]. cbn [mbind result_bind].
    destruct (is_valid_token _) eqn:Et; [|done]. intros [= <-]. split; [by apply Upgrade.lower_is_lower_token | by eapply value_parsed].
  - cbn [mbind result_bind]. destruct (is_valid_token s) eqn:Et; [|done]. intros [= <-]. split; [by apply Upgrade.lower_is_lower_token | done].
Qed.

Lemma parse_value_text v : forallb is_quoted_pair_char v = true -> parse_value (value_text v) = Ok v.
Proof.
  intros Hv. unfold parse_value. rewrite trim_text by apply value_text_ends. cbv zeta.
  rewrite text_ends_not_empty by apply value_text_ends. destruct (value_text_cases v) as [[-> Ht]| ->].
  - rewrite Ht. destruct v as [|b v]; [done|]. cbn [strip_prefix]. apply is_valid_token_iff in Ht as [_ Ht].
    apply andb_true_iff in Ht as [Hb _]. assert ((DQUOTE =b b) = false) as ->; [|done]. revert Hb. clear. byte_solve b.
  - cbn [app strip_prefix]. rewrite byte_eqb_refl. change (escape_quotes v ++ [DQUOTE]) with (escape_quotes v ++ DQUOTE :: []).
    by rewrite parse_quoted_escape.
Qed.

Lemma expectation_read_back e : expectation_ok e -> item_text parse_expectation Expectation_fmt (closed ",") e.
Proof.
  destruct e as [n v]. intros [[Hn Hl] Hv]. cbn [token value] in *. unfold item_text. rewrite fmt_value.
  unfold parse_expectation. cbn [token value]. destruct v as [v|].
  - split_and!.
    + apply text_ends_mid; [by apply token_text_ends | apply value_text_ends].
    + apply closed_app; [by apply closed_token|]. apply closed_app; [by apply closed_plain | by apply value_text_closed].
    + change (B "=" ++ ?r) with ("="%byte :: r). rewrite split_once_app by (by apply token_no). cbv zeta.
      rewrite trim_text by (by apply token_text_ends). rewrite token_not_empty, parse_value_text by done.
      cbn [mbind result_bind]. by rewrite Hn, Hl.
  - split_and!; [by apply token_text_ends | by apply closed_token|].
    rewrite (proj2 (split_once_None "=" n)) by (by apply token_no). cbn [mbind result_bind]. by rewrite Hn, Hl.
Qed.

Lemma expect_roundtrip s e : parse s = Ok e -> parse (fmt e) = Ok e.
Proof.
  unfold parse. cbv zeta. destruct (list_loop _ _ _) as [es|] eqn:E; [|done]. cbn [mbind result_bind]. intros [= <-].
  apply (list_loop_ok expectation_parsed), (List.Forall_impl _ expectation_read_back) in E. unfold fmt. cbn [items].
  change (B ", ") with (sep ","). rewrite (trim_list_text trim "," E).
  by rewrite (field_read_back trim (fun s => split_with_quotes s ",") "," E).
Qed.
End Expect.
