(* ===== verification/ContentLocation.v ===== *)
(** * Content-Location ([src/content_location.rs]) *)
From S2P Require Import Prelude RustStd Validate RustStr Uri.

Module ContentLocation.

Inductive ContentLocationError : Type := Empty | InvalidUri | FragmentNotAllowed.

Definition ContentLocationError_fmt (e : ContentLocationError) : str :=
  match e with
  | Empty => B "empty Content-Location"
  | InvalidUri => B "invalid Content-Location URI"
  | FragmentNotAllowed => B "Content-Location must not contain a fragment"
  end.

Record t : Type := mkContentLocation { uri : Uri.t }.

(** The condition of the check on http and https: no host, or an empty one. *)
Definition http_without_host (uri : Uri.t) : bool :=
  match Uri.scheme uri with
  | Some scheme =>
      (eq_ignore_ascii_case scheme (B "http") || eq_ignore_ascii_case scheme (B "https"))
      && match Uri.host uri with None => true | Some h => is_empty h end
  | None => false
  end.

Definition parse (input : str) : result ContentLocationError t :=
  let input := trim input in
  if is_empty input then Err Empty
  else
    uri ← map_err (fun _ => InvalidUri) (Uri.parse input);
    if http_without_host uri then Err InvalidUri
    else if is_some (Uri.fragment uri) then Err FragmentNotAllowed
    else Ok (mkContentLocation uri).

Definition fmt (l : t) : str := Uri.fmt (uri l).

Example location_ex : map_err ContentLocationError_fmt (l ← parse (B " /a/b?c "); Ok (fmt l)) = Ok (B "/a/b?c").
Proof. vm_compute. reflexivity. Qed.
Example parse_host_ex : parse (B "http:///a") = Err InvalidUri.
Proof. vm_compute. reflexivity. Qed.
Example parse_fragment_ex : parse (B "/a#b") = Err FragmentNotAllowed.
Proof. vm_compute. reflexivity. Qed.

Lemma uri_source s u : Uri.parse s = Ok u -> Uri.source u = s.
Proof.
  unfold Uri.parse. destruct (is_empty s); [done|]. destruct (Uri.parse_scheme s) as [[se pos]|]; [|done]. cbn [mbind result_bind].
  destruct (Uri.parse_authority_at pos s) as [[[[[a e] h] p] pos2]|]; [|done]. cbn [mbind result_bind].
  unfold Uri.parse_path_at. cbv zeta. destruct (if Uri.byte_at _ _ _ then _ else _) as [[qs qe] pos3].
  destruct (Uri.validate_path _); [|done]. cbn [mbind result_bind].
  destruct (match qs with Some _ => _ | None => _ end); [|done]. cbn [mbind result_bind].
  destruct (match _ with Some _ => _ | None => _ end); [|done]. by intros [= <-].
Qed.

Lemma location_parsed_ok s l : parse s = Ok l ->
  fmt l = trim s /\ http_without_host (uri l) = false /\ Uri.fragment (uri l) = None.
Proof.
  unfold parse. cbv zeta. destruct (is_empty _); [done|]. destruct (Uri.parse _) as [u|] eqn:E; [|done]. cbn [map_err mbind result_bind].
  destruct (http_without_host u) eqn:Eh; [done|]. destruct (Uri.fragment u) eqn:Ef; [done|]. intros [= <-].
  split_and!; [by apply uri_source | done | done].
Qed.

Lemma location_roundtrip s l : utf8_valid s = true -> parse s = Ok l -> parse (fmt l) = Ok l.
Proof.
  intros Hs H. destruct (location_parsed_ok s l H) as (Hf & _ & _). unfold parse in *. rewrite Hf, trim_idem by done. exact H.
Qed.
End ContentLocation.
