(* ===== verification/ContentType.v ===== *)
(** * Content-Type ([src/content_type.rs]) *)
From S2P Require Import Prelude RustStd Validate RustStr FieldList.

Module ContentType.

Inductive ContentTypeError : Type := Empty | InvalidMediaType | InvalidParameter | UnterminatedQuote.

Definition ContentTypeError_fmt (e : ContentTypeError) : str :=
  match e with
  | Empty => B "empty Content-Type"
  | InvalidMediaType => B "invalid media type"
  | InvalidParameter => B "invalid parameter"
  | UnterminatedQuote => B "unterminated quote"
  end.

Definition from_quoted (e : QuotedStringError) : ContentTypeError :=
  match e with
  | InvalidQdtext | InvalidQuotedPair => InvalidParameter
  | Unterminated => UnterminatedQuote
  end.

Record t : Type := mkContentType {
  media_type : str;
  subtype : str;
  parameters : list (str * str);
}.

Definition split_at_semicolon (input : str) : str * str :=
  match find_byte ";" input with
  | Some pos => (trim (take pos input), trim (drop (S pos) input))
  | None => (trim input, [])
  end.

Definition parse_media_type (input : str) : result ContentTypeError (str * str) :=
  let input := trim input in
  if is_empty input then Err InvalidMediaType
  else
    slash_pos ← ok_or InvalidMediaType (find_byte "/" input);
    let media_type := trim (take slash_pos input) in
    let subtype := trim (drop (S slash_pos) input) in
    if is_empty media_type || is_empty subtype then Err InvalidMediaType
    else if negb (is_valid_token media_type) || negb (is_valid_token subtype) then Err InvalidMediaType
    else Ok (media_type, subtype).

(** The input up to the first semicolon or white space, and the rest: [find]
    with the closure of [parse_token_value], by characters. *)
Definition ends_value (c : bytes) : bool := (c =s B ";") || white c.

Definition parse_token_value (input : str) : result ContentTypeError (str * str) :=
  let token := concat (take_while (fun c => negb (ends_value c)) (char_list input)) in
  let rest := concat (skip_while (fun c => negb (ends_value c)) (char_list input)) in
  if negb (is_valid_token token) then Err InvalidParameter else Ok (token, rest).

Definition trim_start_semicolons (s : str) : str := skip_while (fun b => b =b ";") s.

(** One round of the loop of [parse_parameters] behind the skipped semicolons:
    the parameter and the rest. *)
Definition parse_parameter (rest : str) : result ContentTypeError ((str * str) * str) :=
  eq_pos ← ok_or InvalidParameter (find_byte "=" rest);
  let name := trim (take eq_pos rest) in
  if is_empty name || negb (is_valid_token name) then Err InvalidParameter
  else
    let rest := trim (drop (S eq_pos) rest) in
    '(value, remaining) ←
      match strip_prefix [DQUOTE] rest with
      | Some after_quote => map_err from_quoted (parse_quoted_string after_quote)
      | None => parse_token_value rest
      end;
    Ok ((to_ascii_lowercase name, value), trim (trim_start_semicolons remaining)).

(** The loop of [parse_parameters]; [None]: the fuel is used up, which
    [parameters_loop_total] excludes for the fuel that [parse_parameters] gives. *)
Fixpoint parameters_loop (fuel : nat) (rest : str) : option (result ContentTypeError (list (str * str))) :=
  match fuel with
  | O => None
  | S fuel' =>
      if is_empty rest then Some (Ok [])
      else
        let rest := trim (trim_start_semicolons rest) in
        if is_empty rest then Some (Ok [])
        else
          match parse_parameter rest with
          | Err e => Some (Err e)
          | Ok (p, rest') =>
              r ← parameters_loop fuel' rest';
              Some (ps ← r; Ok (p :: ps))
          end
  end.

Definition parse_parameters (input : str) : result ContentTypeError (list (str * str)) :=
  let rest := trim input in
  default (Err InvalidParameter) (parameters_loop (S (length rest)) rest).

Definition parse (input : str) : result ContentTypeError t :=
  let input := trim input in
  if is_empty input then Err Empty
  else
    let '(media_type_part, rest) := split_at_semicolon input in
    '(media_type, subtype) ← parse_media_type media_type_part;
    parameters ← parse_parameters rest;
    Ok (mkContentType (to_ascii_lowercase media_type) (to_ascii_lowercase subtype) parameters).

Definition new (media_type subtype : str) : t :=
  mkContentType (to_ascii_lowercase media_type) (to_ascii_lowercase subtype) [].
Definition with_parameter (c : t) (name value : str) : t :=
  mkContentType (media_type c) (subtype c) (parameters c ++ [(to_ascii_lowercase name, value)]).

Definition mime_type (c : t) : str := media_type c ++ B "/" ++ subtype c.
Definition parameter (c : t) (name : str) : option str :=
  let name_lower := to_ascii_lowercase name in
  snd <$> List.find (fun p => fst p =s name_lower) (parameters c).
Definition charset (c : t) : option str := parameter c (B "charset").
Definition boundary (c : t) : option str := parameter c (B "boundary").
Definition is_text (c : t) : bool := media_type c =s B "text".
Definition is_json (c : t) : bool := (media_type c =s B "application") && (subtype c =s B "json").
Definition is_multipart (c : t) : bool := media_type c =s B "multipart".
Definition is_form_data (c : t) : bool := (media_type c =s B "multipart") && (subtype c =s B "form-data").
Definition is_form_urlencoded (c : t) : bool :=
  (media_type c =s B "application") && (subtype c =s B "x-www-form-urlencoded").

Definition needs_quoting (s : str) : bool := is_empty s || existsb (fun b => negb (is_token_char b)) s.

Definition parameter_fmt (p : str * str) : str :=
  let '(name, value) := p in
  if needs_quoting value then B "; " ++ name ++ B "=" ++ [DQUOTE] ++ escape_quotes value ++ [DQUOTE]
  else B "; " ++ name ++ B "=" ++ value.
Definition fmt (c : t) : str := media_type c ++ B "/" ++ subtype c ++ flat_map parameter_fmt (parameters c).

Example type_ex :
  parse (B "  TEXT/html ;; Charset = utf-8; a=" ++ [DQUOTE] ++ B "x;y" ++ [DQUOTE] ++ B " ; ") =
  Ok (mkContentType (B "text") (B "html") [(B "charset", B "utf-8"); (B "a", B "x;y")]).
Proof. vm_compute. reflexivity. Qed.
Example parse_bad : parse (B "text/plain; charset=hello world") = Err InvalidParameter.
Proof. vm_compute. reflexivity. Qed.

(** ** The loop ends *)

Lemma parse_token_value_length s v r : parse_token_value s = Ok (v, r) -> (length r < length s)%nat.
Proof.
  unfold parse_token_value. cbv zeta. set (p := fun c => negb (ends_value c)).
  destruct (is_valid_token _) eqn:E; [|done]. cbn [negb]. intros [= _ <-]. apply token_not_empty in E.
  pose proof (f_equal (@length byte) (concat_char_list s)) as H. rewrite <- (take_skip_while p (char_list s)) in H at 1.
  rewrite concat_app, length_app in H. destruct (concat (take_while p (char_list s))); [done|]. cbn [length] in H. lia.
Qed.

Lemma parse_parameter_length s p r : parse_parameter s = Ok (p, r) -> (length r < length s)%nat.
Proof.
  unfold parse_parameter. destruct (find_byte "=" s) as [i|] eqn:Ei; [|done]. cbn [ok_or mbind result_bind]. cbv zeta.
  destruct (_ || _); [done|]. unfold find_byte in Ei. apply position_lt in Ei. set (rest := trim (drop (S i) s)).
  assert (Hr : (length rest < length s)%nat) by (pose proof (trim_length (drop (S i) s)) as H; rewrite length_drop in H; unfold rest; lia).
  assert (Hend : forall rem, (length rem <= length rest)%nat -> (length (trim (trim_start_semicolons rem)) < length s)%nat).
  { intros rem Hrem. pose proof (trim_length (trim_start_semicolons rem)). pose proof (skip_while_length (fun b => b =b ";") rem).
    unfold trim_start_semicolons in *. lia. }
  destruct (strip_prefix [DQUOTE] rest) as [q|] eqn:Eq.
  - apply strip_prefix_Some in Eq. destruct (parse_quoted_string q) as [[v rem]|] eqn:E; [|done]. cbn [map_err mbind result_bind].
    intros [= _ <-]. apply Hend. apply quoted_loop_suffix in E as (k & ->). rewrite Eq, !length_app. cbn. lia.
  - destruct (parse_token_value rest) as [[v rem]|] eqn:E; [|done]. cbn [mbind result_bind]. intros [= _ <-]. apply Hend.
    apply parse_token_value_length in E. lia.
Qed.

Lemma parameters_loop_total fuel s : (length s < fuel)%nat -> is_some (parameters_loop fuel s) = true.
Proof.
  revert s. induction fuel as [|fuel IH]; intros s Hs; [lia|]. cbn [parameters_loop]. destruct (is_empty s); [done|]. cbv zeta.
  set (s1 := trim (trim_start_semicolons s)).
  assert (H1 : (length s1 <= length s)%nat).
  { pose proof (trim_length (trim_start_semicolons s)). pose proof (skip_while_length (fun b => b =b ";") s).
    unfold s1, trim_start_semicolons in *. lia. }
  destruct (is_empty s1); [done|]. destruct (parse_parameter s1) as [[p r]|] eqn:E; [|done]. apply parse_parameter_length in E.
  specialize (IH r ltac:(lia)). by destruct (parameters_loop fuel r).
Qed.

(** ** What is written is read back *)

Definition lower_token (s : str) : Prop := is_valid_token s = true /\ to_ascii_lowercase s = s.
Definition parameter_ok (p : str * str) : Prop := lower_token (fst p) /\ forallb is_quoted_pair_char (snd p) = true.
Definition ok (c : t) : Prop := lower_token (media_type c) /\ lower_token (subtype c) /\ Forall parameter_ok (parameters c).

Definition parameter_text (p : str * str) : str := fst p ++ B "=" ++ value_text (snd p).

Lemma parameter_fmt_eq p : parameter_fmt p = B "; " ++ parameter_text p.
Proof. destruct p as [n v]. unfold parameter_fmt, parameter_text, value_text, needs_quoting. cbn [fst snd]. by destruct (is_empty v || _). Qed.

Lemma parameters_fmt_eq ps : ps <> [] -> flat_map parameter_fmt ps = B "; " ++ join (sep ";") (map parameter_text ps).
Proof.
  induction ps as [|p ps IH]; [done|]. intros _. cbn [flat_map]. rewrite parameter_fmt_eq. destruct ps as [|q ps]; [cbn; by rewrite app_nil_r|].
  rewrite IH by done. cbn [map]. rewrite (join_cons _ (parameter_text p)) by done. rewrite <- (app_assoc (B "; ")). reflexivity.
Qed.

Lemma parameter_text_ends p : parameter_ok p -> text_ends (parameter_text p).
Proof. intros [[Hn _] _]. apply text_ends_mid; [by apply token_text_ends | apply value_text_ends]. Qed.

Lemma parameters_text_ends ps : Forall parameter_ok ps -> ps <> [] -> text_ends (join (sep ";") (map parameter_text ps)).
Proof.
  induction ps as [|p ps IH]; [done|]. intros [Hp Hf]%Forall_cons_iff _. apply parameter_text_ends in Hp.
  destruct ps as [|q ps]; [done|]. cbn [map]. rewrite join_cons by done. apply text_ends_mid; [done | by apply IH].
Qed.

(** A value, and what follows it. *)
Definition value_next (tail : str) : Prop := tail = [] \/ exists r, tail = ";"%byte :: r.

Lemma parse_token_value_text v tail :
  is_valid_token v = true -> value_next tail -> parse_token_value (v ++ tail) = Ok (v, tail).
Proof.
  intros Hv Ht. pose proof Hv as [_ Hf]%is_valid_token_iff. unfold parse_token_value. set (p := fun c => negb (ends_value c)).
  assert (Ha : forallb is_ascii v = true) by (revert Hf; apply forallb_impl; intros b; byte_solve b).
  assert (Hp : forallb p (map (fun b => [b]) v) = true).
  { clear -Hf. induction v as [|b v IH]; [done|]. cbn [map forallb] in *. apply andb_true_iff in Hf as [Hb Hv].
    rewrite IH, andb_true_r by done. revert Hb. clear. byte_solve b. }
  assert (Hc : concat (map (fun b => [b]) v) = v) by (clear; induction v as [|b v IH]; [done|]; cbn; by rewrite IH).
  rewrite char_list_ascii_app by done.
  assert (take_while p (map (fun b => [b]) v ++ char_list tail) = map (fun b => [b]) v /\
          skip_while p (map (fun b => [b]) v ++ char_list tail) = char_list tail) as [-> ->].
  { destruct Ht as [->|[r ->]].
    - rewrite app_nil_r. clear -Hp. induction (map _ v) as [|c l IH]; [done|]. cbn in *. apply andb_true_iff in Hp as [Hc Hl].
      rewrite Hc. destruct (IH Hl) as [-> ->]. done.
    - change (char_list (";"%byte :: r)) with ([";"%byte] :: char_list r). rewrite take_while_app, skip_while_app by done. done. }
  rewrite Hc, concat_char_list, Hv. done.
Qed.

Lemma parse_value_tail v tail :
  forallb is_quoted_pair_char v = true -> value_next tail ->
  match strip_prefix [DQUOTE] (value_text v ++ tail) with
  | Some after_quote => map_err from_quoted (parse_quoted_string after_quote)
  | None => parse_token_value (value_text v ++ tail)
  end = Ok (v, tail).
Proof.
  intros Hv Ht. destruct (value_text_cases v) as [[-> Htok]| ->].
  - assert (strip_prefix [DQUOTE] (v ++ tail) = None) as ->; [|by apply parse_token_value_text].
    destruct v as [|b v]; [done|]. apply is_valid_token_iff in Htok as [_ Hf]. apply andb_true_iff in Hf as [Hb _].
    cbn [app strip_prefix]. assert ((DQUOTE =b b) = false) as -> by (revert Hb; clear; byte_solve b). done.
  - rewrite <- !app_assoc. cbn [app strip_prefix]. rewrite byte_eqb_refl. by rewrite parse_quoted_escape.
Qed.

Lemma parse_parameter_text p tail :
  parameter_ok p -> value_next tail -> text_ends (value_text (snd p) ++ tail) ->
  parse_parameter (parameter_text p ++ tail) = Ok (p, trim (trim_start_semicolons tail)).
Proof.
  destruct p as [n v]. intros [[Hn Hl] Hv] Ht He. cbn [fst snd] in *. unfold parameter_text, parse_parameter. cbn [fst snd].
  rewrite <- !app_assoc. change (n ++ B "=" ++ ?r) with (n ++ "="%byte :: r). rewrite find_byte_app by (by apply token_no).
  cbn [ok_or mbind result_bind]. cbv zeta. rewrite take_app_length, drop_past, trim_token, token_not_empty, Hn by done.
  cbn [negb orb]. rewrite (trim_text (tr := trim)) by done. rewrite parse_value_tail by done. cbn [mbind result_bind]. by rewrite Hl.
Qed.

Lemma token_head_semicolons s : text_ends s -> (forall b m, s = b :: m -> (b =b ";") = false) -> trim_start_semicolons s = s.
Proof. intros [(b & m & -> & _) _] H. unfold trim_start_semicolons. cbn [skip_while]. by rewrite (H b m eq_refl). Qed.

Lemma parameter_head p : parameter_ok p -> forall b m r, parameter_text p ++ r = b :: m -> (b =b ";") = false.
Proof.
  destruct p as [n v]. intros [[[Hne Hf]%is_valid_token_iff _] _] b m r. unfold parameter_text. cbn [fst snd] in *. destruct n as [|c n]; [done|].
  cbn [app]. intros [= <- _]. apply andb_true_iff in Hf as [Hc _]. revert Hc. clear. byte_solve c.
Qed.

Lemma parameters_loop_text ps : forall fuel, Forall parameter_ok ps -> ps <> [] -> (length ps < fuel)%nat ->
  parameters_loop fuel (join (sep ";") (map parameter_text ps)) = Some (Ok ps).
Proof.
  induction ps as [|p ps IH]; intros fuel Hf Hne Hfuel; [done|]. destruct fuel as [|fuel]; [lia|]. cbn [length] in Hfuel.
  pose proof (parameters_text_ends _ Hf ltac:(done)) as He. apply Forall_cons_iff in Hf as [Hp Hf].
  set (tail := match ps with [] => [] | _ => B "; " ++ join (sep ";") (map parameter_text ps) end).
  assert (Htext : join (sep ";") (map parameter_text (p :: ps)) = parameter_text p ++ tail).
  { unfold tail. destruct ps as [|q ps]; [cbn; by rewrite app_nil_r|]. cbn [map]. by rewrite join_cons by done. }
  rewrite Htext in *. cbn [parameters_loop]. rewrite text_ends_not_empty by done. cbv zeta.
  rewrite token_head_semicolons by (done || (intros b m; by apply parameter_head)).
  rewrite (trim_text (tr := trim)), text_ends_not_empty by done. rewrite parse_parameter_text; [|done| |].
  - destruct ps as [|q qs]; [by destruct fuel; [lia|]|]. unfold tail.
    change (trim_start_semicolons (B "; " ++ ?r)) with (" "%byte :: r).
    rewrite (trim_space_text (tr := trim)) by (by apply parameters_text_ends). by rewrite IH by (done || lia).
  - unfold tail. destruct ps; [by left | by right; eexists].
  - unfold tail. destruct ps as [|q qs]; [rewrite app_nil_r; apply value_text_ends|].
    apply text_ends_mid; [apply value_text_ends | by apply parameters_text_ends].
Qed.

Lemma parameters_length ps : Forall parameter_ok ps -> (length ps <= length (join (sep ";") (map parameter_text ps)))%nat.
Proof.
  induction 1 as [|q qs Hq Hf IH]; [done|]. apply parameter_text_ends, text_ends_not_empty in Hq. destruct qs as [|r qs].
  - cbn [map join]. destruct (parameter_text q); [done | cbn; lia].
  - cbn [map] in *. rewrite (join_cons _ (parameter_text q)) by done. rewrite !length_app. change (length (sep ";")) with 2%nat. cbn [length] in *. lia.
Qed.

Lemma parse_parameters_text ps : Forall parameter_ok ps -> parse_parameters (join (sep ";") (map parameter_text ps)) = Ok ps.
Proof.
  intros Hf. unfold parse_parameters. destruct ps as [|p ps]; [done|].
  pose proof (parameters_text_ends _ Hf ltac:(done)) as He. rewrite (trim_text (tr := trim)) by done.
  rewrite parameters_loop_text; [done | done | done|]. pose proof (parameters_length _ Hf) as H. apply le_n_S, H.
Qed.

Lemma mime_text_ends c : ok c -> text_ends (mime_type c).
Proof. intros ([H1 _] & [H2 _] & _). by apply text_ends_mid; apply token_text_ends. Qed.

Lemma parse_media_type_text c : ok c -> parse_media_type (mime_type c) = Ok (media_type c, subtype c).
Proof.
  intros Hok. pose proof (mime_text_ends c Hok) as He. destruct Hok as ([H1 _] & [H2 _] & _). unfold parse_media_type.
  rewrite (trim_text (tr := trim)), text_ends_not_empty by done. cbv zeta. unfold mime_type.
  change (media_type c ++ B "/" ++ subtype c) with (media_type c ++ "/"%byte :: subtype c).
  rewrite find_byte_app by (by apply token_no). cbn [ok_or mbind result_bind]. rewrite take_app_length, drop_past.
  by rewrite !trim_token, !token_not_empty, H1, H2 by done.
Qed.

Lemma parse_type_fmt c : ok c -> parse (fmt c) = Ok c.
Proof.
  intros Hok. pose proof (mime_text_ends c Hok) as He. pose proof (parse_media_type_text c Hok) as Hm.
  destruct Hok as ([H1 L1] & [H2 L2] & Hf). unfold parse, fmt, split_at_semicolon.
  replace (media_type c ++ B "/" ++ subtype c ++ flat_map parameter_fmt (parameters c))
    with (mime_type c ++ flat_map parameter_fmt (parameters c)) by (unfold mime_type; by rewrite <- !app_assoc).
  assert (Hno : contains_byte ";" (mime_type c) = false).
  { unfold mime_type. rewrite !contains_byte_app, (token_no (media_type c)), (token_no (subtype c)) by done. done. }
  destruct c as [mt st ps]. cbn [media_type subtype parameters] in *. destruct ps as [|p ps].
  - cbn [flat_map]. rewrite app_nil_r, (trim_text (tr := trim)), text_ends_not_empty by done. cbv zeta.
    assert (find_byte ";" (mime_type (mkContentType mt st [])) = None) as ->.
    { apply position_None. unfold contains_byte in Hno. by rewrite existsb_negb_forallb, negb_false_iff in Hno. }
    rewrite (trim_text (tr := trim)), Hm by done. cbn. by rewrite L1, L2.
  - pose proof (parameters_text_ends _ Hf ltac:(done)) as Hp. rewrite parameters_fmt_eq by done.
    rewrite (trim_text (tr := trim)) by (by apply text_ends_mid). cbv zeta.
    rewrite (text_ends_not_empty (_ ++ _)) by (by apply text_ends_mid). change (B "; " ++ ?r) with (";"%byte :: " "%byte :: r).
    rewrite find_byte_app by done. rewrite take_app_length, drop_past, (trim_text (tr := trim) (mime_type _)) by done.
    rewrite (trim_space_text (tr := trim)), Hm by done. cbn [mbind result_bind]. rewrite parse_parameters_text by done.
    cbn [mbind result_bind]. by rewrite L1, L2.
Qed.

(** ** What is parsed can be written *)

Lemma lower_is_lower s : is_valid_token s = true -> lower_token (to_ascii_lowercase s).
Proof. intros H. split; [by apply lower_valid_token | apply lower_idem]. Qed.

Lemma parse_token_value_ok s v r : parse_token_value s = Ok (v, r) -> is_valid_token v = true.
Proof. unfold parse_token_value. cbv zeta. destruct (is_valid_token _) eqn:E; [|done]. by intros [= <- _]. Qed.

Lemma parse_parameter_ok s p r : parse_parameter s = Ok (p, r) -> parameter_ok p.
Proof.
  unfold parse_parameter. destruct (find_byte "=" s) as [i|]; [|done]. cbn [ok_or mbind result_bind]. cbv zeta.
  destruct (is_empty _ || _) eqn:En; [done|]. apply orb_false_iff in En as [_ En]. apply negb_false_iff in En.
  destruct (match strip_prefix _ _ with Some _ => _ | None => _ end) as [[v rem]|] eqn:E; [|done]. cbn [mbind result_bind].
  intros [= <- _]. split; [by apply lower_is_lower|]. cbn [snd]. destruct (strip_prefix _ _) as [q|].
  - destruct (parse_quoted_string q) as [[v' r']|] eqn:Eq; [|done]. cbn in E. injection E as -> ->. by eapply parse_quoted_quotable.
  - by eapply token_quotable, parse_token_value_ok.
Qed.

Lemma parameters_loop_ok fuel s ps : parameters_loop fuel s = Some (Ok ps) -> Forall parameter_ok ps.
Proof.
  revert s ps. induction fuel as [|fuel IH]; intros s ps; cbn [parameters_loop]; [done|]. destruct (is_empty s); [by intros [= <-]|].
  cbv zeta. destruct (is_empty _); [by intros [= <-]|]. destruct (parse_parameter _) as [[p r]|] eqn:Ep; [|done].
  destruct (parameters_loop fuel r) as [[qs|]|] eqn:E; [|done|done]. cbn. intros [= <-].
  constructor; [by eapply parse_parameter_ok | by eapply IH].
Qed.

Lemma type_parsed_ok s c : parse s = Ok c -> ok c.
Proof.
  unfold parse. cbv zeta. destruct (is_empty _); [done|]. destruct (split_at_semicolon _) as [m rest].
  unfold parse_media_type. cbv zeta. destruct (is_empty (trim m)); [done|]. destruct (find_byte "/" _) as [i|]; [|done].
  cbn [ok_or mbind result_bind]. destruct (is_empty _ || _); [done|]. destruct (negb (is_valid_token _) || _) eqn:E; [done|].
  apply orb_false_iff in E as [E1 E2]. apply negb_false_iff in E1, E2. cbn [mbind result_bind]. unfold parse_parameters. cbv zeta.
  destruct (parameters_loop _ _) as [[ps|]|] eqn:El; [|done|done]. cbn. intros [= <-].
  split_and!; [by apply lower_is_lower | by apply lower_is_lower | by eapply parameters_loop_ok].
Qed.

Lemma type_roundtrip s c : parse s = Ok c -> parse (fmt c) = Ok c.
Proof. intros H%type_parsed_ok. by apply parse_type_fmt. Qed.
End ContentType.
