(* ===== verification/ContentDisposition.v ===== *)
(** * Content-Disposition ([src/content_disposition.rs]) *)
From S2P Require Import Prelude RustStd Validate RustStr FieldList.

Module ContentDisposition.

Inductive ContentDispositionError : Type :=
  | Empty
  | InvalidFormat
  | InvalidDispositionType
  | InvalidParameter
  | InvalidExtValue
  | DuplicateParameter (name : str)
  | TooManyParameters.

Definition ContentDispositionError_fmt (e : ContentDispositionError) : str :=
  match e with
  | Empty => B "empty content-disposition"
  | InvalidFormat => B "invalid content-disposition format"
  | InvalidDispositionType => B "invalid disposition-type"
  | InvalidParameter => B "invalid parameter"
  | InvalidExtValue => B "invalid ext-value encoding"
  | DuplicateParameter name => B "duplicate parameter: " ++ name
  | TooManyParameters => B "too many content-disposition parameters"
  end.

Definition MAX_PARAMS : nat := 32.

Inductive DispositionType : Type := Inline | Attachment | FormData | Unknown (s : str).

Definition from_str (s : str) : result ContentDispositionError DispositionType :=
  let lower := to_ascii_lowercase s in
  if lower =s B "inline" then Ok Inline
  else if lower =s B "attachment" then Ok Attachment
  else if lower =s B "form-data" then Ok FormData
  else if is_valid_token s then Ok (Unknown lower)
  else Err InvalidDispositionType.

Definition DispositionType_fmt (d : DispositionType) : str :=
  match d with
  | Inline => B "inline"
  | Attachment => B "attachment"
  | FormData => B "form-data"
  | Unknown s => s
  end.

Record t : Type := mkContentDisposition {
  disposition_type : DispositionType;
  filename_ : option str;
  filename_ext_ : option str;
  name_ : option str;
  parameters : list (str * str);
}.

(** The loop of [split_params] with its variables [current], [in_quotes] and
    [escape_next]; the pieces are given in order. *)
Fixpoint split_params_loop (input current : str) (in_quotes escape_next : bool) : list str :=
  match input with
  | [] => if negb (is_empty current) then [current] else []
  | c :: rest =>
      if escape_next then split_params_loop rest (current ++ [c]) in_quotes false
      else if (c =b BACKSLASH) && in_quotes then split_params_loop rest (current ++ [c]) in_quotes true
      else if c =b DQUOTE then split_params_loop rest (current ++ [c]) (negb in_quotes) false
      else if (c =b ";") && negb in_quotes then current :: split_params_loop rest [] in_quotes false
      else split_params_loop rest (current ++ [c]) in_quotes false
  end.
Definition split_params (input : str) : list str := split_params_loop input [] false false.

(** The loop of the module's own [cd_parse_quoted_string]; the quotes are off. *)
Fixpoint cd_parse_quoted_string (s : str) : result ContentDispositionError str :=
  match s with
  | [] => Ok []
  | c :: rest =>
      if c =b BACKSLASH then
        match rest with
        | [] => Err InvalidParameter
        | next :: rest' =>
            if negb (is_quoted_pair_char next) then Err InvalidParameter
            else result ← cd_parse_quoted_string rest'; Ok (next :: result)
        end
      else if negb (is_qdtext_char c) then Err InvalidParameter
      else result ← cd_parse_quoted_string rest; Ok (c :: result)
  end.

Definition parse_param_value (value : str) : result ContentDispositionError str :=
  let value := trim value in
  if starts_with [DQUOTE] value then
    if ends_with [DQUOTE] value && (2 <=? length value)%nat then
      cd_parse_quoted_string (take (length value - 2) (drop 1 value))
    else Err InvalidParameter
  else if negb (is_valid_token value) then Err InvalidParameter
  else Ok value.

Definition is_attr_char (b : byte) : bool :=
  within 65 90 b || within 97 122 b || within 48 57 b || (b =b "!") || (b =b "#") || (b =b "$") || (b =b "&")
  || (b =b "+") || (b =b "-") || (b =b ".") || (b =b "^") || (b =b "_") || (b =b "`") || (b =b "|") || (b =b "~").

(** The loop of [percent_decode], by characters: [hex] is the next two of them,
    and they are two bytes; [None] of [u8::from_str_radix] is its error. *)
Fixpoint percent_decode_loop (cs : list bytes) : result ContentDispositionError bytes :=
  match cs with
  | [] => Ok []
  | c :: rest =>
      if c =s B "%" then
        match rest with
        | h1 :: h2 :: rest' =>
            let hex := h1 ++ h2 in
            if negb (length hex =? 2)%nat then Err InvalidExtValue
            else
              byte ← ok_or InvalidExtValue (from_str_radix 16 u8_MAX hex);
              bytes ← percent_decode_loop rest';
              Ok (n2b byte :: bytes)
        | [h] =>
            if negb (length h =? 2)%nat then Err InvalidExtValue
            else
              byte ← ok_or InvalidExtValue (from_str_radix 16 u8_MAX h);
              Ok [n2b byte]
        | [] => Err InvalidExtValue
        end
      else
        match c with
        | [b] =>
            if negb (is_ascii b) || negb (is_attr_char b) then Err InvalidExtValue
            else bytes ← percent_decode_loop rest; Ok (b :: bytes)
        | _ => Err InvalidExtValue
        end
  end.

Definition percent_decode (s : str) : result ContentDispositionError str :=
  bytes ← percent_decode_loop (char_list s);
  map_err (fun _ => InvalidExtValue) (from_utf8 bytes).

Definition parse_ext_value (value : str) : result ContentDispositionError str :=
  let value := trim value in
  first_quote ← ok_or InvalidExtValue (find_byte "'" value);
  let charset := take first_quote value in
  let rest := drop (S first_quote) value in
  second_quote ← ok_or InvalidExtValue (find_byte "'" rest);
  let encoded_value := drop (S second_quote) rest in
  if negb (eq_ignore_ascii_case charset (B "UTF-8")) then Err InvalidExtValue
  else percent_decode encoded_value.

Definition encode_byte (b : byte) : str := if is_attr_char b then [b] else ["%"%byte] ++ show_02X b.
Definition encode_ext_value (s : str) : str := flat_map encode_byte s.

(** [match param_name.as_str() { .. }] on the value being built. *)
Definition set_param (cd : t) (param_name param_value : str) : result ContentDispositionError t :=
  let '(mkContentDisposition d f fe n ps) := cd in
  if param_name =s B "filename" then
    v ← parse_param_value param_value; Ok (mkContentDisposition d (Some v) fe n ps)
  else if param_name =s B "filename*" then
    v ← parse_ext_value param_value; Ok (mkContentDisposition d f (Some v) n ps)
  else if param_name =s B "name" then
    v ← parse_param_value param_value; Ok (mkContentDisposition d f fe (Some v) ps)
  else
    v ← parse_param_value param_value; Ok (mkContentDisposition d f fe n (ps ++ [(param_name, v)])).

Fixpoint params_loop (parts : list str) (cd : t) (seen_params : list str) : result ContentDispositionError t :=
  match parts with
  | [] => Ok cd
  | part :: parts' =>
      let part := trim part in
      if is_empty part then params_loop parts' cd seen_params
      else
        match find_byte "=" part with
        | Some eq_pos =>
            let param_name := to_ascii_lowercase (trim (take eq_pos part)) in
            let param_value := trim (drop (S eq_pos) part) in
            if existsb (fun n => n =s param_name) seen_params then Err (DuplicateParameter param_name)
            else if (MAX_PARAMS <=? length seen_params)%nat then Err TooManyParameters
            else
              cd ← set_param cd param_name param_value;
              params_loop parts' cd (seen_params ++ [param_name])
        | None => params_loop parts' cd seen_params
        end
  end.

Definition new (disposition_type : DispositionType) : t := mkContentDisposition disposition_type None None None [].

Definition parse (input : str) : result ContentDispositionError t :=
  let input := trim input in
  if is_empty input then Err Empty
  else
    let parts := split_params input in
    type_str ← ok_or InvalidFormat (hd_error parts);
    disposition_type ← from_str (trim type_str);
    params_loop (drop 1 parts) (new disposition_type) [].

Definition filename (cd : t) : option str :=
  match filename_ext_ cd with Some f => Some f | None => filename_ cd end.
Definition filename_ascii (cd : t) : option str := filename_ cd.
Definition filename_ext (cd : t) : option str := filename_ext_ cd.
Definition name (cd : t) : option str := name_ cd.
Definition parameter (cd : t) (name : str) : option str :=
  let name_lower := to_ascii_lowercase name in
  snd <$> List.find (fun p => fst p =s name_lower) (parameters cd).
Definition is_inline (cd : t) : bool := match disposition_type cd with Inline => true | _ => false end.
Definition is_attachment (cd : t) : bool := match disposition_type cd with Attachment => true | _ => false end.
Definition is_form_data (cd : t) : bool := match disposition_type cd with FormData => true | _ => false end.

Definition with_filename (cd : t) (filename : str) : t :=
  mkContentDisposition (disposition_type cd) (Some filename) (filename_ext_ cd) (name_ cd) (parameters cd).
Definition with_filename_ext (cd : t) (filename : str) : t :=
  mkContentDisposition (disposition_type cd) (filename_ cd) (Some filename) (name_ cd) (parameters cd).
Definition with_name (cd : t) (name : str) : t :=
  mkContentDisposition (disposition_type cd) (filename_ cd) (filename_ext_ cd) (Some name) (parameters cd).

Definition quoted_param (name value : str) : str :=
  B "; " ++ name ++ B "=" ++ [DQUOTE] ++ escape_quotes value ++ [DQUOTE].

Definition fmt (cd : t) : str :=
  DispositionType_fmt (disposition_type cd)
  ++ match name_ cd with Some name => quoted_param (B "name") name | None => [] end
  ++ match filename_ cd with Some filename => quoted_param (B "filename") filename | None => [] end
  ++ match filename_ext_ cd with Some f => B "; filename*=UTF-8''" ++ encode_ext_value f | None => [] end
  ++ flat_map (fun p => quoted_param (fst p) (snd p)) (parameters cd).

Example disposition_ex :
  map_err ContentDispositionError_fmt
    (cd ← parse (B "Form-Data; name=" ++ [DQUOTE] ++ B "a;b" ++ [DQUOTE] ++ B "; filename*=utf-8''%e2%82%ac; x = y");
     Ok (is_form_data cd, name cd, filename cd, parameter cd (B "X"), fmt cd)) =
  Ok (true, Some (B "a;b"), Some ["226"; "130"; "172"]%byte, Some (B "y"),
      B "form-data; name=" ++ [DQUOTE] ++ B "a;b" ++ [DQUOTE] ++ B "; filename*=UTF-8''%E2%82%AC; x="
      ++ [DQUOTE] ++ B "y" ++ [DQUOTE]).
Proof. vm_compute. reflexivity. Qed.
Example parse_dup : parse (B "inline; a=1; A=2") = Err (DuplicateParameter (B "a")).
Proof. vm_compute. reflexivity. Qed.
Example decode_sign : percent_decode (B "%+a") = Ok ["010"%byte].
Proof. vm_compute. reflexivity. Qed.

(** ** Values are read back *)

Lemma parse_quoted_escape_all v : forallb is_quoted_pair_char v = true -> cd_parse_quoted_string (escape_quotes v) = Ok v.
Proof.
  induction v as [|c v IH]; [done|]. cbn [forallb]. intros [Hc Hv]%andb_true_iff. unfold escape_quotes. cbn [flat_map].
  fold (escape_quotes v). unfold escape_char. rewrite Hc. cbn [negb]. destruct ((c =b DQUOTE) || (c =b BACKSLASH)) eqn:E.
  - cbn [app cd_parse_quoted_string]. by rewrite byte_eqb_refl, Hc, IH.
  - apply orb_false_iff in E as [E1 E2]. cbn [app cd_parse_quoted_string]. rewrite E2, IH by done.
    assert (is_qdtext_char c = true) as -> by (revert Hc E1 E2; clear; byte_solve c). done.
Qed.

Lemma parse_quoted_ok s v : cd_parse_quoted_string s = Ok v -> forallb is_quoted_pair_char v = true.
Proof.
  revert v. induction s as [s IH] using (induction_ltof1 _ (@length byte)); unfold ltof in IH. intros v.
  destruct s as [|c s]; [by intros [= <-]|]. cbn [cd_parse_quoted_string]. destruct (c =b BACKSLASH).
  - destruct s as [|n s]; [done|]. destruct (is_quoted_pair_char n) eqn:En; [|done]. cbn [negb].
    destruct (cd_parse_quoted_string s) as [w|] eqn:E; [|done]. intros [= <-]. cbn [forallb]. rewrite En. apply (IH s); [cbn; lia | done].
  - destruct (is_qdtext_char c) eqn:En; [|done]. cbn [negb]. destruct (cd_parse_quoted_string s) as [w|] eqn:E; [|done].
    intros [= <-]. cbn [forallb]. rewrite (IH s ltac:(cbn; lia) w E). rewrite andb_true_r. revert En. clear. byte_solve c.
Qed.

Definition quoted (v : str) : str := [DQUOTE] ++ escape_quotes v ++ [DQUOTE].

Lemma parse_param_value_quoted v : forallb is_quoted_pair_char v = true -> parse_param_value (quoted v) = Ok v.
Proof.
  intros Hv. unfold parse_param_value, quoted. rewrite (trim_text (tr := trim)) by apply quoted_text_ends. cbv zeta.
  change (starts_with [DQUOTE] ([DQUOTE] ++ ?r)) with true. cbv iota.
  assert (ends_with [DQUOTE] ([DQUOTE] ++ escape_quotes v ++ [DQUOTE]) = true) as ->.
  { unfold ends_with, strip_suffix. rewrite !rev_app_distr. cbn [rev app strip_prefix]. by rewrite byte_eqb_refl. }
  rewrite !length_app. cbn [length andb]. replace (2 <=? _)%nat with true by (symmetry; apply Nat.leb_le; lia).
  cbn [app drop]. replace (1 + _ - 2)%nat with (length (escape_quotes v)) by lia. rewrite drop_0, take_app_length.
  by apply parse_quoted_escape_all.
Qed.

Lemma parse_param_value_ok s v : parse_param_value s = Ok v -> forallb is_quoted_pair_char v = true.
Proof.
  unfold parse_param_value. cbv zeta. destruct (starts_with _ _).
  - destruct (_ && _); [|done]. apply parse_quoted_ok.
  - destruct (is_valid_token _) eqn:E; [|done]. intros [= <-]. by apply token_quotable.
Qed.

Lemma hex_pair b : from_str_radix 16 u8_MAX (show_02X b) = Some (b2n b).
Proof. byte_solve b. Qed.

Lemma encode_ascii v : forallb is_ascii (encode_ext_value v) = true.
Proof.
  induction v as [|b v IH]; [done|]. unfold encode_ext_value. cbn [flat_map]. rewrite forallb_app. fold (encode_ext_value v).
  rewrite IH, andb_true_r. byte_solve b.
Qed.

Lemma ext_decode_encode v : utf8_valid v = true -> percent_decode (encode_ext_value v) = Ok v.
Proof.
  intros Hv. unfold percent_decode. rewrite char_list_ascii by apply encode_ascii.
  assert (percent_decode_loop (map (fun b => [b]) (encode_ext_value v)) = Ok v) as ->.
  { clear Hv. induction v as [|b v IH]; [done|]. unfold encode_ext_value. cbn [flat_map]. fold (encode_ext_value v).
    unfold encode_byte. destruct (is_attr_char b) eqn:E.
    - cbn [app map percent_decode_loop]. assert (([b] =s B "%") = false) as ->.
      { apply beqs_neq. intros [= ->]. by vm_compute in E. }
      assert (is_ascii b = true) as -> by (revert E; clear; byte_solve b). by rewrite E, IH.
    - pose proof (hex_pair b) as Hh. unfold show_02X in *. cbn [app map percent_decode_loop]. rewrite beqs_refl.
      cbn [app]. cbv zeta. cbn [length Nat.eqb negb]. rewrite Hh. cbn [ok_or mbind result_bind]. by rewrite IH, n2b_b2n. }
  cbn [mbind result_bind]. by rewrite from_utf8_valid.
Qed.

Definition ext_text (v : str) : str := B "UTF-8''" ++ encode_ext_value v.

Lemma ext_text_ends v : text_ends (ext_text v).
Proof.
  split; [by eexists _, _|]. unfold ext_text. destruct v as [|b v] using rev_ind.
  - by exists (B "UTF-8'"), "'"%byte.
  - unfold encode_ext_value. rewrite flat_map_app. do 2 apply visible_end_app. cbn [flat_map]. rewrite app_nil_r.
    unfold encode_byte. destruct (is_attr_char b) eqn:E; [exists [], b; split; [done|]; revert E; clear; byte_solve b|].
    exists (["%"%byte; hex_upper (b2n b / 16)]), (hex_upper (b2n b mod 16)). split; [done|]. clear. byte_solve b.
Qed.

Lemma parse_ext_value_text v : utf8_valid v = true -> parse_ext_value (ext_text v) = Ok v.
Proof.
  intros Hv. unfold parse_ext_value. rewrite (trim_text (tr := trim)) by apply ext_text_ends. cbv zeta.
  change (find_byte "'" (ext_text v)) with (Some 5%nat). cbn [ok_or mbind result_bind].
  change (drop 6 (ext_text v)) with ("'"%byte :: encode_ext_value v).
  change (find_byte "'" ("'"%byte :: ?r)) with (Some 0%nat). cbn [ok_or mbind result_bind drop].
  change (take 5 (ext_text v)) with (B "UTF-8"). by apply ext_decode_encode.
Qed.

Lemma parse_ext_value_ok s v : parse_ext_value s = Ok v -> utf8_valid v = true.
Proof.
  unfold parse_ext_value. cbv zeta. destruct (find_byte _ _); [|done]. cbn [ok_or mbind result_bind].
  destruct (find_byte _ _); [|done]. cbn [ok_or mbind result_bind]. destruct (negb _); [done|].
  unfold percent_decode. destruct (percent_decode_loop _) as [bs|]; [|done]. cbn [mbind result_bind].
  destruct (from_utf8 bs) as [u|] eqn:E; [|done]. intros [= <-]. by apply from_utf8_Ok in E as [-> H].
Qed.

(** ** The pieces *)

Fixpoint drop_last_empty (ps : list str) : list str :=
  match ps with
  | [] => []
  | [p] => if is_empty p then [] else [p]
  | p :: ps' => p :: drop_last_empty ps'
  end.

Lemma split_params_eq s : split_params s = drop_last_empty (split_with_quotes s ";").
Proof.
  unfold split_params, split_with_quotes. generalize (@nil byte) at 1 2 as cur. generalize false at 1 3 as q. generalize false as e.
  induction s as [|c s IH]; intros e q cur; cbn [split_params_loop split_quotes_loop]; [by destruct cur|].
  destruct e; [apply IH|]. destruct (_ && q); [apply IH|]. destruct (c =b DQUOTE); [apply IH|].
  destruct (_ && negb q); [|apply IH]. rewrite IH. cbn [drop_last_empty].
  pose proof (split_quotes_not_nil s ";" [] q false). by destruct (split_quotes_loop s ";" [] q false).
Qed.

Lemma drop_last_spaced t ts : is_empty t = false -> drop_last_empty (spaced (t :: ts)) = spaced (t :: ts).
Proof.
  intros Ht. cbn [spaced]. destruct ts as [|u us]; [cbn; by rewrite Ht|]. cbn [map drop_last_empty]. f_equal.
  clear. revert u. induction us as [|v us IH]; intros u; [done|]. cbn [map drop_last_empty]. f_equal. apply IH.
Qed.

(** ** The parameters in the order they are written *)

Definition opt_field (n : str) (o : option str) : list (str * str) := match o with Some v => [(n, v)] | None => [] end.

Definition fields (cd : t) : list (str * str) :=
  opt_field (B "name") (name_ cd) ++ opt_field (B "filename") (filename_ cd) ++
  opt_field (B "filename*") (filename_ext_ cd) ++ parameters cd.

Definition field_text (p : str * str) : str :=
  fst p ++ B "=" ++ (if fst p =s B "filename*" then ext_text (snd p) else quoted (snd p)).

Definition special (n : str) : bool := (n =s B "filename") || (n =s B "filename*") || (n =s B "name").

Definition lower_token (s : str) : Prop := is_valid_token s = true /\ to_ascii_lowercase s = s.

Definition field_ok (p : str * str) : Prop :=
  lower_token (fst p) /\
  (if fst p =s B "filename*" then utf8_valid (snd p) = true else forallb is_quoted_pair_char (snd p) = true).

Definition ok (cd : t) : Prop :=
  from_str (DispositionType_fmt (disposition_type cd)) = Ok (disposition_type cd) /\
  is_valid_token (DispositionType_fmt (disposition_type cd)) = true /\
  Forall field_ok (fields cd) /\ Forall (fun p => special (fst p) = false) (parameters cd) /\
  List.NoDup (map fst (fields cd)) /\ (length (fields cd) <= MAX_PARAMS)%nat.

Lemma fmt_fields cd : Forall (fun p => special (fst p) = false) (parameters cd) ->
  fmt cd = join (sep ";") (DispositionType_fmt (disposition_type cd) :: map field_text (fields cd)).
Proof.
  intros Hs. rewrite join_concat. change (sep ";") with (B "; "). unfold fmt, fields. f_equal. rewrite !map_app, !concat_app.
  assert (Hps : flat_map (fun p => quoted_param (fst p) (snd p)) (parameters cd) =
    concat (map (fun t => B "; " ++ t) (map field_text (parameters cd)))).
  { induction Hs as [|[n v] ps Hn Hs IH]; [done|]. cbn [flat_map map concat fst snd] in *. rewrite IH. f_equal.
    unfold field_text, special in *. cbn [fst snd]. rewrite !orb_false_iff in Hn. destruct Hn as [[_ ->] _]. done. }
  rewrite Hps. set (pre := map (fun t : str => B "; " ++ t)). f_equal; [|f_equal; [|f_equal]]; unfold pre.
  - destruct (name_ cd); [|done]. cbn [opt_field map concat]. by rewrite app_nil_r.
  - destruct (filename_ cd); [|done]. cbn [opt_field map concat]. by rewrite app_nil_r.
  - destruct (filename_ext_ cd); [|done]. cbn [opt_field map concat]. by rewrite app_nil_r.
Qed.

Lemma value_part_ends p : text_ends (if fst p =s B "filename*" then ext_text (snd p) else quoted (snd p)).
Proof. destruct (_ =s _); [apply ext_text_ends | apply quoted_text_ends]. Qed.

Lemma field_text_ends p : field_ok p -> text_ends (field_text p).
Proof. intros [[Hn _] _]. apply text_ends_mid; [by apply token_text_ends | apply value_part_ends]. Qed.

Lemma ext_text_closed v : closed ";" (ext_text v).
Proof.
  apply closed_plain. unfold ext_text. rewrite forallb_app. apply andb_true_iff. split; [done|].
  induction v as [|b v IH]; [done|]. unfold encode_ext_value. cbn [flat_map]. rewrite forallb_app. fold (encode_ext_value v).
  rewrite IH, andb_true_r. clear. byte_solve b.
Qed.

Lemma field_text_closed p : field_ok p -> closed ";" (field_text p).
Proof.
  intros [[Hn _] _]. apply closed_app; [by apply closed_token|]. apply closed_app; [by apply closed_plain|].
  destruct (_ =s _); [apply ext_text_closed | by apply closed_quoted].
Qed.

(** ** The loop over the pieces *)

Definition put (cd : t) (p : str * str) : t :=
  let '(mkContentDisposition d f fe n ps) := cd in
  if fst p =s B "filename" then mkContentDisposition d (Some (snd p)) fe n ps
  else if fst p =s B "filename*" then mkContentDisposition d f (Some (snd p)) n ps
  else if fst p =s B "name" then mkContentDisposition d f fe (Some (snd p)) ps
  else mkContentDisposition d f fe n (ps ++ [p]).

Lemma set_param_text cd p : field_ok p ->
  set_param cd (fst p) (if fst p =s B "filename*" then ext_text (snd p) else quoted (snd p)) = Ok (put cd p).
Proof.
  destruct p as [n v], cd as [d f fe nm ps]. intros [_ Hv]. cbn [fst snd] in *. unfold set_param, put. cbn [fst snd].
  destruct (n =s B "filename*") eqn:E2.
  - apply beqs_eq in E2 as ->. change (B "filename*" =s B "filename") with false. cbv iota. by rewrite parse_ext_value_text.
  - rewrite parse_param_value_quoted by done. cbn [mbind result_bind]. by destruct (n =s B "filename"), (n =s B "name").
Qed.

Lemma params_loop_text fs : forall cd seen, Forall field_ok fs -> List.NoDup (seen ++ map fst fs) ->
  (length (seen ++ map fst fs) <= MAX_PARAMS)%nat ->
  params_loop (map (fun y => " "%byte :: y) (map field_text fs)) cd seen = Ok (fold_left put fs cd).
Proof.
  induction fs as [|p fs IH]; intros cd seen Hf Hnd Hlen; [done|]. apply Forall_cons_iff in Hf as [Hp Hf]. cbn [map params_loop fold_left].
  pose proof (field_text_ends p Hp) as He. cbv zeta. rewrite (trim_space_text (tr := trim)), text_ends_not_empty by done.
  pose proof Hp as [[Hn Hl] _]. change (field_text p) with
    (fst p ++ "="%byte :: (if fst p =s B "filename*" then ext_text (snd p) else quoted (snd p))).
  rewrite find_byte_app by (by apply token_no).
  rewrite take_app_length, drop_past, trim_token, Hl by done. rewrite (trim_text (tr := trim)) by apply value_part_ends.
  cbn [map] in Hnd. assert (existsb (fun n => n =s fst p) seen = false) as ->.
  { apply NoDup_remove_2 in Hnd. rewrite existsb_negb_forallb, negb_false_iff. apply forallb_forall. intros x Hx.
    apply negb_true_iff, beqs_neq. intros ->. apply Hnd, in_or_app. by left. }
  rewrite length_app in Hlen. cbn [map length] in Hlen. rewrite length_map in Hlen.
  destruct (MAX_PARAMS <=? length seen)%nat eqn:E; [apply Nat.leb_le in E; lia|].
  rewrite set_param_text by done. cbn [mbind result_bind]. apply IH; [done | by rewrite <- app_assoc|].
  rewrite !length_app, length_map. cbn [length]. lia.
Qed.

Lemma put_special cd n v : special n = false -> put cd (n, v) =
  mkContentDisposition (disposition_type cd) (filename_ cd) (filename_ext_ cd) (name_ cd) (parameters cd ++ [(n, v)]).
Proof.
  unfold special. rewrite !orb_false_iff. intros [[H1 H2] H3]. destruct cd. unfold put. cbn [fst snd]. by rewrite H1, H2, H3.
Qed.

Lemma put_fields cd : Forall (fun p => special (fst p) = false) (parameters cd) ->
  fold_left put (fields cd) (new (disposition_type cd)) = cd.
Proof.
  intros Hs. unfold fields. rewrite !fold_left_app.
  set (c0 := fold_left put (opt_field (B "filename*") (filename_ext_ cd)) _).
  assert (Hc0 : c0 = mkContentDisposition (disposition_type cd) (filename_ cd) (filename_ext_ cd) (name_ cd) []).
  { unfold c0. by destruct (name_ cd), (filename_ cd), (filename_ext_ cd). }
  rewrite Hc0. clear c0 Hc0. destruct cd as [d f fe n ps]. cbn [disposition_type filename_ filename_ext_ name_ parameters] in *.
  change ps with ([] ++ ps) at 2. generalize (@nil (str * str)) as acc. induction Hs as [|[m v] ps Hm Hs IH]; intros acc; cbn [fold_left].
  - by rewrite app_nil_r.
  - rewrite put_special by done. cbn [disposition_type filename_ filename_ext_ name_ parameters]. rewrite IH. by rewrite <- app_assoc.
Qed.

Lemma parse_disposition_fmt cd : ok cd -> parse (fmt cd) = Ok cd.
Proof.
  intros (Hd & Ht & Hf & Hs & Hnd & Hlen). rewrite fmt_fields by done. set (d := DispositionType_fmt _) in *.
  assert (Hc : Forall (closed ";") (d :: map field_text (fields cd))).
  { constructor; [by apply closed_token|]. apply Forall_map. revert Hf. apply List.Forall_impl. intros p. apply field_text_closed. }
  assert (He : text_ends (join (sep ";") (d :: map field_text (fields cd)))).
  { assert (H : forall ts t, text_ends t -> Forall text_ends ts -> text_ends (join (sep ";") (t :: ts))).
    { intros ts. induction ts as [|u us IH]; intros t Htt Hts; [done|]. apply Forall_cons_iff in Hts as [Hu Hus].
      rewrite join_cons by done. apply text_ends_mid; [done | by apply IH]. }
    apply H; [by apply token_text_ends|]. apply Forall_map. revert Hf. apply List.Forall_impl. intros p. apply field_text_ends. }
  unfold parse. rewrite (trim_text (tr := trim)), text_ends_not_empty by done. cbv zeta.
  rewrite split_params_eq, (split_texts (sp := fun s => split_with_quotes s ";") (d := ";") (piece := closed ";")) by done.
  rewrite drop_last_spaced by (by apply token_not_empty). cbn [spaced hd_error ok_or mbind result_bind drop].
  rewrite trim_token, Hd by done. cbn [mbind result_bind]. rewrite drop_0.
  rewrite params_loop_text; [by rewrite put_fields | done | done|]. by rewrite app_nil_l, length_map.
Qed.

(** ** What is parsed can be written *)

Definition value_ok (p : str * str) : Prop :=
  to_ascii_lowercase (fst p) = fst p /\
  (if fst p =s B "filename*" then utf8_valid (snd p) = true else forallb is_quoted_pair_char (snd p) = true).

(** Between the parts of the input: [seen] names what has been set. *)
Definition built (cd : t) (seen : list str) : Prop :=
  Permutation (map fst (fields cd)) seen /\ List.NoDup seen /\ (length seen <= MAX_PARAMS)%nat /\
  Forall (fun p => special (fst p) = false) (parameters cd) /\ Forall value_ok (fields cd).

Lemma set_param_put cd n v cd' : set_param cd n v = Ok cd' -> to_ascii_lowercase n = n ->
  exists w, cd' = put cd (n, w) /\ value_ok (n, w).
Proof.
  destruct cd as [d f fe nm ps]. unfold set_param, put, value_ok. cbn [fst snd]. intros H Hl.
  destruct (n =s B "filename") eqn:E1; [|destruct (n =s B "filename*") eqn:E2; [|destruct (n =s B "name") eqn:E3]].
  1,3,4: destruct (parse_param_value v) as [w|] eqn:Ev; [|done]; injection H as <-; exists w;
    apply parse_param_value_ok in Ev; by try (apply beqs_eq in E1 as ->).
  destruct (parse_ext_value v) as [w|] eqn:Ev; [|done]; injection H as <-. exists w. by apply parse_ext_value_ok in Ev.
Qed.

Lemma put_fields_perm cd p : ~ In (fst p) (map fst (fields cd)) -> Permutation (fields (put cd p)) (p :: fields cd).
Proof.
  destruct p as [n v], cd as [d f fe nm ps]. cbn [fst]. unfold put, fields. cbn [fst snd]. intros Hn.
  destruct (n =s B "filename") eqn:E1; [|destruct (n =s B "filename*") eqn:E2; [|destruct (n =s B "name") eqn:E3]];
    cbn [name_ filename_ filename_ext_ parameters] in *.
  - apply beqs_eq in E1 as ->. destruct f; [exfalso; apply Hn; rewrite !map_app, !in_app_iff; right; left; by left|].
    destruct nm; cbn; [apply perm_swap | done].
  - apply beqs_eq in E2 as ->. destruct fe; [exfalso; apply Hn; rewrite !map_app, !in_app_iff; right; right; left; by left|].
    cbn [opt_field app]. rewrite (app_assoc (opt_field _ nm)), (app_assoc (opt_field (B "name") nm)). symmetry. apply Permutation_middle.
  - apply beqs_eq in E3 as ->. destruct nm; [exfalso; apply Hn; rewrite !map_app, !in_app_iff; left; by left|]. done.
  - rewrite !app_assoc. symmetry. apply Permutation_cons_append.
Qed.

Lemma put_parameters cd p : Forall (fun p => special (fst p) = false) (parameters cd) ->
  Forall (fun p => special (fst p) = false) (parameters (put cd p)).
Proof.
  destruct p as [n v], cd as [d f fe nm ps]. unfold put, special. cbn [fst snd parameters]. intros Hs.
  destruct (n =s B "filename") eqn:E1; [done|]. destruct (n =s B "filename*") eqn:E2; [done|]. destruct (n =s B "name") eqn:E3; [done|].
  cbn [parameters]. apply Forall_app. split; [done|]. constructor; [|done]. cbn [fst]. by rewrite E1, E2, E3.
Qed.

Lemma params_loop_built parts : forall cd seen cd', params_loop parts cd seen = Ok cd' -> built cd seen ->
  disposition_type cd' = disposition_type cd /\ exists seen', built cd' seen'.
Proof.
  induction parts as [|part parts IH]; intros cd seen cd'; cbn [params_loop].
  { intros [= <-] Hb. split; [done | by exists seen]. }
  cbv zeta. destruct (is_empty _); [apply IH|]. destruct (find_byte "=" _) as [i|]; [|apply IH].
  set (n := to_ascii_lowercase _). destruct (existsb _ seen) eqn:Ex; [done|].
  destruct (MAX_PARAMS <=? length seen)%nat eqn:El; [done|]. destruct (set_param cd n _) as [cd1|] eqn:Es; [|done].
  cbn [mbind result_bind]. intros H Hb. apply set_param_put in Es as (w & -> & Hw); [|apply lower_idem].
  assert (Hn : ~ In n seen).
  { intros Hin. rewrite existsb_negb_forallb, negb_false_iff, forallb_forall in Ex. specialize (Ex n Hin). by rewrite beqs_refl in Ex. }
  destruct Hb as (Hperm & Hnd & Hlen & Hs & Hv).
  assert (Hp : Permutation (fields (put cd (n, w))) ((n, w) :: fields cd)).
  { apply put_fields_perm. intros Hin. apply Hn. by eapply Permutation_in. }
  destruct (IH _ _ _ H) as [Hd Hb'].
  - split_and!.
    + rewrite (Permutation_map fst Hp). cbn [map fst]. rewrite Hperm. apply Permutation_cons_append.
    + apply (Permutation_NoDup (l := n :: seen)); [apply Permutation_cons_append | by constructor].
    + rewrite length_app. apply Nat.leb_gt in El. cbn. lia.
    + by apply put_parameters.
    + apply List.Forall_forall. intros x Hx. apply (Permutation_in _ Hp) in Hx as [<-|Hx]; [done|].
      by apply (proj1 (List.Forall_forall _ _) Hv).
  - split; [|exact Hb']. rewrite Hd. destruct cd. unfold put. by repeat case_match.
Qed.

Lemma from_str_ok s d : from_str s = Ok d -> from_str (DispositionType_fmt d) = Ok d /\ is_valid_token (DispositionType_fmt d) = true.
Proof.
  unfold from_str at 1. cbv zeta. destruct (_ =s B "inline") eqn:E1; [by intros [= <-]|].
  destruct (_ =s B "attachment") eqn:E2; [by intros [= <-]|]. destruct (_ =s B "form-data") eqn:E3; [by intros [= <-]|].
  destruct (is_valid_token s) eqn:Et; [|done]. intros [= <-]. cbn [DispositionType_fmt]. unfold from_str. cbv zeta.
  rewrite lower_idem, E1, E2, E3, lower_valid_token by done. done.
Qed.

Lemma disposition_parsed_ok s cd : parse s = Ok cd -> Forall (fun p => is_valid_token (fst p) = true) (parameters cd) -> ok cd.
Proof.
  unfold parse. cbv zeta. destruct (is_empty _); [done|]. destruct (split_params _) as [|p ps]; [done|].
  cbn [hd_error ok_or mbind result_bind drop]. destruct (from_str _) as [d|] eqn:Ed; [|done]. cbn [mbind result_bind].
  intros H Ht. apply from_str_ok in Ed as [Ed1 Ed2].
  apply params_loop_built in H as [Hd (seen & Hp & Hnd & Hlen & Hs & Hv)].
  2:{ split_and!; [done | constructor | cbn; lia | constructor | constructor]. }
  unfold ok. rewrite Hd. cbn [new disposition_type]. split_and!; [done | done | | done | |].
  - apply List.Forall_forall. intros x Hx. pose proof (proj1 (List.Forall_forall _ _) Hv x Hx) as [Hl Hw]. split; [split; [|done] | done].
    unfold fields, opt_field in Hx. rewrite !in_app_iff in Hx. destruct Hx as [Hx|[Hx|[Hx|Hx]]].
    + destruct (name_ cd); [|done]. by destruct Hx as [<-|[]].
    + destruct (filename_ cd); [|done]. by destruct Hx as [<-|[]].
    + destruct (filename_ext_ cd); [|done]. by destruct Hx as [<-|[]].
    + by apply (proj1 (List.Forall_forall _ _) Ht).
  - eapply Permutation_NoDup; [symmetry; exact Hp | done].
  - apply Permutation_length in Hp. rewrite length_map in Hp. lia.
Qed.

Lemma disposition_roundtrip s cd : parse s = Ok cd -> Forall (fun p => is_valid_token (fst p) = true) (parameters cd) -> parse (fmt cd) = Ok cd.
Proof. intros H Ht. by eapply parse_disposition_fmt, disposition_parsed_ok. Qed.
End ContentDisposition.
