(* ===== verification/Cache.v ===== *)
(** * Caching fields ([src/cache.rs]): Cache-Control, Age and Expires *)
From S2P Require Import Prelude RustStd Validate RustStr FieldList Date.

Module Cache.

Inductive CacheError : Type := Empty | InvalidFormat | InvalidNumber | InvalidDate.

Definition CacheError_fmt (e : CacheError) : str :=
  match e with
  | Empty => B "empty cache header"
  | InvalidFormat => B "invalid cache header format"
  | InvalidNumber => B "invalid number in cache header"
  | InvalidDate => B "invalid date in cache header"
  end.

Record CacheControl : Type := mkCacheControl {
  max_age : option N;  (* u64 *)
  s_maxage : option N;  (* u64 *)
  max_stale : option N;  (* u64 *)
  min_fresh : option N;  (* u64 *)
  stale_while_revalidate : option N;  (* u64 *)
  stale_if_error : option N;  (* u64 *)
  no_cache : bool;
  no_store : bool;
  no_transform : bool;
  only_if_cached : bool;
  must_revalidate : bool;
  proxy_revalidate : bool;
  must_understand : bool;
  public : bool;
  private : bool;
  immutable : bool
}.

Definition new : CacheControl :=
  mkCacheControl None None None None None None false false false false false false false false false false.

(** Assignments to one field. *)
Definition set_max_age (v : option N) (c : CacheControl) : CacheControl :=
  let '(mkCacheControl _ y1 y2 y3 y4 y5 y6 y7 y8 y9 y10 y11 y12 y13 y14 y15) := c in mkCacheControl v y1 y2 y3 y4 y5 y6 y7 y8 y9 y10 y11 y12 y13 y14 y15.
Definition set_s_maxage (v : option N) (c : CacheControl) : CacheControl :=
  let '(mkCacheControl y0 _ y2 y3 y4 y5 y6 y7 y8 y9 y10 y11 y12 y13 y14 y15) := c in mkCacheControl y0 v y2 y3 y4 y5 y6 y7 y8 y9 y10 y11 y12 y13 y14 y15.
Definition set_max_stale (v : option N) (c : CacheControl) : CacheControl :=
  let '(mkCacheControl y0 y1 _ y3 y4 y5 y6 y7 y8 y9 y10 y11 y12 y13 y14 y15) := c in mkCacheControl y0 y1 v y3 y4 y5 y6 y7 y8 y9 y10 y11 y12 y13 y14 y15.
Definition set_min_fresh (v : option N) (c : CacheControl) : CacheControl :=
  let '(mkCacheControl y0 y1 y2 _ y4 y5 y6 y7 y8 y9 y10 y11 y12 y13 y14 y15) := c in mkCacheControl y0 y1 y2 v y4 y5 y6 y7 y8 y9 y10 y11 y12 y13 y14 y15.
Definition set_stale_while_revalidate (v : option N) (c : CacheControl) : CacheControl :=
  let '(mkCacheControl y0 y1 y2 y3 _ y5 y6 y7 y8 y9 y10 y11 y12 y13 y14 y15) := c in mkCacheControl y0 y1 y2 y3 v y5 y6 y7 y8 y9 y10 y11 y12 y13 y14 y15.
Definition set_stale_if_error (v : option N) (c : CacheControl) : CacheControl :=
  let '(mkCacheControl y0 y1 y2 y3 y4 _ y6 y7 y8 y9 y10 y11 y12 y13 y14 y15) := c in mkCacheControl y0 y1 y2 y3 y4 v y6 y7 y8 y9 y10 y11 y12 y13 y14 y15.
Definition set_no_cache (v : bool) (c : CacheControl) : CacheControl :=
  let '(mkCacheControl y0 y1 y2 y3 y4 y5 _ y7 y8 y9 y10 y11 y12 y13 y14 y15) := c in mkCacheControl y0 y1 y2 y3 y4 y5 v y7 y8 y9 y10 y11 y12 y13 y14 y15.
Definition set_no_store (v : bool) (c : CacheControl) : CacheControl :=
  let '(mkCacheControl y0 y1 y2 y3 y4 y5 y6 _ y8 y9 y10 y11 y12 y13 y14 y15) := c in mkCacheControl y0 y1 y2 y3 y4 y5 y6 v y8 y9 y10 y11 y12 y13 y14 y15.
Definition set_no_transform (v : bool) (c : CacheControl) : CacheControl :=
  let '(mkCacheControl y0 y1 y2 y3 y4 y5 y6 y7 _ y9 y10 y11 y12 y13 y14 y15) := c in mkCacheControl y0 y1 y2 y3 y4 y5 y6 y7 v y9 y10 y11 y12 y13 y14 y15.
Definition set_only_if_cached (v : bool) (c : CacheControl) : CacheControl :=
  let '(mkCacheControl y0 y1 y2 y3 y4 y5 y6 y7 y8 _ y10 y11 y12 y13 y14 y15) := c in mkCacheControl y0 y1 y2 y3 y4 y5 y6 y7 y8 v y10 y11 y12 y13 y14 y15.
Definition set_must_revalidate (v : bool) (c : CacheControl) : CacheControl :=
  let '(mkCacheControl y0 y1 y2 y3 y4 y5 y6 y7 y8 y9 _ y11 y12 y13 y14 y15) := c in mkCacheControl y0 y1 y2 y3 y4 y5 y6 y7 y8 y9 v y11 y12 y13 y14 y15.
Definition set_proxy_revalidate (v : bool) (c : CacheControl) : CacheControl :=
  let '(mkCacheControl y0 y1 y2 y3 y4 y5 y6 y7 y8 y9 y10 _ y12 y13 y14 y15) := c in mkCacheControl y0 y1 y2 y3 y4 y5 y6 y7 y8 y9 y10 v y12 y13 y14 y15.
Definition set_must_understand (v : bool) (c : CacheControl) : CacheControl :=
  let '(mkCacheControl y0 y1 y2 y3 y4 y5 y6 y7 y8 y9 y10 y11 _ y13 y14 y15) := c in mkCacheControl y0 y1 y2 y3 y4 y5 y6 y7 y8 y9 y10 y11 v y13 y14 y15.
Definition set_public (v : bool) (c : CacheControl) : CacheControl :=
  let '(mkCacheControl y0 y1 y2 y3 y4 y5 y6 y7 y8 y9 y10 y11 y12 _ y14 y15) := c in mkCacheControl y0 y1 y2 y3 y4 y5 y6 y7 y8 y9 y10 y11 y12 v y14 y15.
Definition set_private (v : bool) (c : CacheControl) : CacheControl :=
  let '(mkCacheControl y0 y1 y2 y3 y4 y5 y6 y7 y8 y9 y10 y11 y12 y13 _ y15) := c in mkCacheControl y0 y1 y2 y3 y4 y5 y6 y7 y8 y9 y10 y11 y12 y13 v y15.
Definition set_immutable (v : bool) (c : CacheControl) : CacheControl :=
  let '(mkCacheControl y0 y1 y2 y3 y4 y5 y6 y7 y8 y9 y10 y11 y12 y13 y14 _) := c in mkCacheControl y0 y1 y2 y3 y4 y5 y6 y7 y8 y9 y10 y11 y12 y13 y14 v.

Definition DELTA_SECONDS_OVERFLOW : N := 2147483648.

Definition parse_seconds (s : str) : result CacheError N :=
  if is_empty s || negb (forallb is_ascii_digit s) then Err InvalidNumber
  else Ok (default DELTA_SECONDS_OVERFLOW (parse_u64 s)).

(** [s.to_lowercase()] where only equality with the names of directives
    matters: the one non-ASCII character that it maps to an ASCII one is the
    Kelvin sign, to k, and no directive has a k. *)
Definition to_lowercase : str -> str := to_ascii_lowercase.

(** A value without its quotes; a quote at one end only is an error. *)
Definition unquote (raw_value : str) : result CacheError str :=
  match strip_prefix [DQUOTE] raw_value with
  | Some stripped => ok_or InvalidFormat (strip_suffix [DQUOTE] stripped)
  | None => if ends_with [DQUOTE] raw_value then Err InvalidFormat else Ok raw_value
  end.

(** The body of the loop of [parse]. *)
Definition parse_directive (cc : CacheControl) (directive : str) : result CacheError CacheControl :=
  match split_once "=" directive with
  | Some (name, value) =>
      let name := to_lowercase (trim name) in
      let raw_value := trim value in
      value ← unquote raw_value;
      if name =s B "max-age" then seconds ← parse_seconds value; Ok (set_max_age (Some seconds) cc)
      else if name =s B "s-maxage" then seconds ← parse_seconds value; Ok (set_s_maxage (Some seconds) cc)
      else if name =s B "max-stale" then seconds ← parse_seconds value; Ok (set_max_stale (Some seconds) cc)
      else if name =s B "min-fresh" then seconds ← parse_seconds value; Ok (set_min_fresh (Some seconds) cc)
      else if name =s B "stale-while-revalidate" then seconds ← parse_seconds value; Ok (set_stale_while_revalidate (Some seconds) cc)
      else if name =s B "stale-if-error" then seconds ← parse_seconds value; Ok (set_stale_if_error (Some seconds) cc)
      else if name =s B "no-cache" then Ok (set_no_cache true cc)
      else if name =s B "private" then Ok (set_private true cc)
      else Ok cc
  | None =>
      let name := to_lowercase directive in
      Ok (
        if name =s B "no-cache" then set_no_cache true cc
        else if name =s B "no-store" then set_no_store true cc
        else if name =s B "no-transform" then set_no_transform true cc
        else if name =s B "only-if-cached" then set_only_if_cached true cc
        else if name =s B "must-revalidate" then set_must_revalidate true cc
        else if name =s B "proxy-revalidate" then set_proxy_revalidate true cc
        else if name =s B "must-understand" then set_must_understand true cc
        else if name =s B "public" then set_public true cc
        else if name =s B "private" then set_private true cc
        else if name =s B "immutable" then set_immutable true cc
        else if name =s B "max-stale" then set_max_stale (Some u64_MAX) cc
        else cc)
  end.

Definition parse (input : str) : result CacheError CacheControl :=
  let input := trim input in
  if is_empty input then Ok new
  else for_parts trim parse_directive (split "," input) new.

Definition with_max_age (cc : CacheControl) (seconds : N) : CacheControl := set_max_age (Some seconds) cc.
Definition with_s_maxage (cc : CacheControl) (seconds : N) : CacheControl := set_s_maxage (Some seconds) cc.
Definition with_no_cache (cc : CacheControl) : CacheControl := set_no_cache true cc.
Definition with_no_store (cc : CacheControl) : CacheControl := set_no_store true cc.
Definition with_no_transform (cc : CacheControl) : CacheControl := set_no_transform true cc.
Definition with_must_revalidate (cc : CacheControl) : CacheControl := set_must_revalidate true cc.
Definition with_proxy_revalidate (cc : CacheControl) : CacheControl := set_proxy_revalidate true cc.
Definition with_public (cc : CacheControl) : CacheControl := set_public true cc.
Definition with_private (cc : CacheControl) : CacheControl := set_private true cc.
Definition with_immutable (cc : CacheControl) : CacheControl := set_immutable true cc.

Definition is_cacheable (cc : CacheControl) : bool :=
  negb (no_store cc) && (public cc || is_some (max_age cc) || is_some (s_maxage cc)).

(** The parts [Display] pushes. *)
Definition seconds_part (name : str) (o : option N) : list str :=
  match o with Some n => [name ++ B "=" ++ show_dec n] | None => [] end.
Definition flag_part (name : str) (b : bool) : list str := if b then [name] else [].

Definition parts (cc : CacheControl) : list str :=
  seconds_part (B "max-age") (max_age cc)
  ++ seconds_part (B "s-maxage") (s_maxage cc)
  ++ match max_stale cc with
     | Some max_stale => if max_stale =? u64_MAX then [B "max-stale"] else [B "max-stale=" ++ show_dec max_stale]
     | None => []
     end
  ++ seconds_part (B "min-fresh") (min_fresh cc)
  ++ seconds_part (B "stale-while-revalidate") (stale_while_revalidate cc)
  ++ seconds_part (B "stale-if-error") (stale_if_error cc)
  ++ flag_part (B "no-cache") (no_cache cc)
  ++ flag_part (B "no-store") (no_store cc)
  ++ flag_part (B "no-transform") (no_transform cc)
  ++ flag_part (B "only-if-cached") (only_if_cached cc)
  ++ flag_part (B "must-revalidate") (must_revalidate cc)
  ++ flag_part (B "proxy-revalidate") (proxy_revalidate cc)
  ++ flag_part (B "must-understand") (must_understand cc)
  ++ flag_part (B "public") (public cc)
  ++ flag_part (B "private") (private cc)
  ++ flag_part (B "immutable") (immutable cc).

Definition fmt (cc : CacheControl) : str := join (B ", ") (parts cc).
Definition to_header_value (cc : CacheControl) : str := fmt cc.

(** ** Age *)

Record Age : Type := mkAge { seconds : N }.  (* u64 *)

Definition Age_new (seconds : N) : Age := mkAge seconds.
Definition Age_parse (input : str) : result CacheError Age :=
  let input := trim input in
  if is_empty input then Err Empty
  else seconds ← parse_seconds input; Ok (mkAge seconds).
Definition Age_fmt (a : Age) : str := show_dec (seconds a).

(** ** Expires *)

Record Expires : Type := mkExpires { date : Date.HttpDate }.

Definition Expires_new (date : Date.HttpDate) : Expires := mkExpires date.
Definition Expires_parse (input : str) (reference_year : N) : result CacheError Expires :=
  date ← map_err (fun _ => InvalidDate)
    (match Date.parse input with
     | Err Date.Rfc850Date => Date.parse_rfc850 input reference_year
     | r => r
     end);
  Ok (mkExpires date).
Definition Expires_fmt (e : Expires) : str := Date.fmt (date e).

Example cache_ex :
  (cc ← parse (B "Max-Age = 60,, no-store, max-stale, s-maxage=99999999999999999999, x=y");
  Ok (fmt cc, is_cacheable cc)) =
  Ok (B "max-age=60, s-maxage=2147483648, max-stale, no-store", false).
Proof. vm_compute. reflexivity. Qed.

(** A list of field names in quotes is cut at its comma. *)
Example parse_qualified :
  parse (B "private=" ++ [DQUOTE] ++ B "a" ++ [DQUOTE]) = Ok (with_private new) /\
  parse (B "private=" ++ [DQUOTE] ++ B "a, b" ++ [DQUOTE]) = Err InvalidFormat.
Proof. vm_compute. split; reflexivity. Qed.

(** ** What is written is read back *)

Definition seconds_fit (o : option N) : Prop := match o with Some n => n <= u64_MAX | None => True end.

Definition in_range (cc : CacheControl) : Prop :=
  seconds_fit (max_age cc) /\ seconds_fit (s_maxage cc) /\ seconds_fit (max_stale cc) /\ seconds_fit (min_fresh cc) /\
  seconds_fit (stale_while_revalidate cc) /\ seconds_fit (stale_if_error cc).

Lemma parse_seconds_show n : n <= u64_MAX -> parse_seconds (show_dec n) = Ok n.
Proof.
  intros Hn. unfold parse_seconds. rewrite show_dec_digits. pose proof (show_dec_not_nil n).
  destruct (show_dec n) eqn:E; [done|]. cbn [is_empty orb negb]. rewrite <- E. by rewrite parse_u64_show.
Qed.

Lemma parse_seconds_range s n : parse_seconds s = Ok n -> n <= u64_MAX.
Proof.
  unfold parse_seconds. destruct (_ || _); [done|]. destruct (parse_u64 s) as [m|] eqn:E; intros [= <-]; [|done].
  by eapply from_str_radix_bound.
Qed.

Lemma digits_text_ends s : s <> [] -> forallb is_ascii_digit s = true -> text_ends s.
Proof. intros Hne Hs. apply visible_all; [done|]. revert Hs. apply forallb_impl. intros b. byte_solve b. Qed.

Lemma show_dec_text_ends n : text_ends (show_dec n).
Proof. apply digits_text_ends; [apply show_dec_not_nil | apply show_dec_digits]. Qed.

Lemma unquote_digits s : forallb is_ascii_digit s = true -> unquote s = Ok s.
Proof.
  intros Hd. unfold unquote.
  assert (Hq : forall s, forallb is_ascii_digit s = true -> strip_prefix [DQUOTE] s = None).
  { intros [|b s']; [done|]. cbn [forallb strip_prefix]. intros [Hb _]%andb_true_iff.
    assert ((DQUOTE =b b) = false) as -> by (revert Hb; clear; byte_solve b). done. }
  rewrite Hq by done. unfold ends_with, strip_suffix. rewrite Hq; [done|]. by rewrite forallb_rev.
Qed.

(** Digits: their number, or the value for a number that is too large. *)
Definition seconds_of (s : str) : N := if decimal s <=? u64_MAX then decimal s else 2 ^ 31.

Lemma parse_seconds_digits s : s <> [] -> forallb is_ascii_digit s = true -> parse_seconds s = Ok (seconds_of s).
Proof.
  intros Hne Hs. unfold parse_seconds, seconds_of. rewrite Hs. assert (is_empty s = false) as -> by (by destruct s).
  cbn [orb negb]. f_equal. unfold parse_u64. destruct (from_str_radix 10 u64_MAX s) as [n|] eqn:E.
  - apply digits_read in E as [-> Hn]; [|done..]. by rewrite (proj2 (N.leb_le _ _) Hn).
  - destruct (decimal s <=? u64_MAX) eqn:El; [|done]. apply N.leb_le in El.
    assert (Hx : from_str_radix 10 u64_MAX s = Some (decimal s)) by (by apply digits_read). congruence.
Qed.

(** A directive with digits: the assignment that its name stands for. *)
Lemma directive_digits cc name s n :
  contains_byte "=" name = false -> s <> [] -> forallb is_ascii_digit s = true -> parse_seconds s = Ok n ->
  parse_directive cc (name ++ B "=" ++ s) =
  Ok (let name := to_lowercase (trim name) in
      if name =s B "max-age" then set_max_age (Some n) cc
      else if name =s B "s-maxage" then set_s_maxage (Some n) cc
      else if name =s B "max-stale" then set_max_stale (Some n) cc
      else if name =s B "min-fresh" then set_min_fresh (Some n) cc
      else if name =s B "stale-while-revalidate" then set_stale_while_revalidate (Some n) cc
      else if name =s B "stale-if-error" then set_stale_if_error (Some n) cc
      else if name =s B "no-cache" then set_no_cache true cc
      else if name =s B "private" then set_private true cc
      else cc).
Proof.
  intros Hname Hne Hs Hn. unfold parse_directive. change (name ++ B "=" ++ ?r) with (name ++ "="%byte :: r).
  rewrite split_once_app by done. cbv zeta. rewrite (trim_text (tr := trim) s) by (by apply digits_text_ends).
  rewrite unquote_digits by done. cbn [mbind result_bind]. rewrite Hn. cbn [mbind result_bind].
  by repeat case_match.
Qed.

Lemma directive_seconds cc name n :
  contains_byte "=" name = false -> n <= u64_MAX ->
  parse_directive cc (name ++ B "=" ++ show_dec n) =
  Ok (let name := to_lowercase (trim name) in
      if name =s B "max-age" then set_max_age (Some n) cc
      else if name =s B "s-maxage" then set_s_maxage (Some n) cc
      else if name =s B "max-stale" then set_max_stale (Some n) cc
      else if name =s B "min-fresh" then set_min_fresh (Some n) cc
      else if name =s B "stale-while-revalidate" then set_stale_while_revalidate (Some n) cc
      else if name =s B "stale-if-error" then set_stale_if_error (Some n) cc
      else if name =s B "no-cache" then set_no_cache true cc
      else if name =s B "private" then set_private true cc
      else cc).
Proof.
  intros Hname Hn. apply directive_digits; [done|apply show_dec_not_nil|apply show_dec_digits|by apply parse_seconds_show].
Qed.

(** The directives with a number, and the field each one sets. *)
Definition numbers : list (str * (N -> CacheControl -> CacheControl)) :=
  [(B "max-age", fun n => set_max_age (Some n)); (B "s-maxage", fun n => set_s_maxage (Some n));
   (B "max-stale", fun n => set_max_stale (Some n)); (B "min-fresh", fun n => set_min_fresh (Some n));
   (B "stale-while-revalidate", fun n => set_stale_while_revalidate (Some n));
   (B "stale-if-error", fun n => set_stale_if_error (Some n))].

Lemma number_of_digits name set cc s :
  In (name, set) numbers -> s <> [] -> forallb is_ascii_digit s = true ->
  parse_directive cc (name ++ B "=" ++ s) = Ok (set (seconds_of s) cc).
Proof.
  intros Hin Hne Hs. pose proof (parse_seconds_digits s Hne Hs) as Hn.
  assert (Hname : contains_byte "=" name = false) by (revert Hin; cbn; intros; by repeat destruct_or?; simplify_eq).
  rewrite (directive_digits cc name s _ Hname Hne Hs Hn). cbn in Hin. by repeat destruct_or?; simplify_eq.
Qed.

Lemma age_of_digits s : s <> [] -> forallb is_ascii_digit s = true -> Age_parse s = Ok (mkAge (seconds_of s)).
Proof.
  intros Hne Hs. unfold Age_parse. rewrite (trim_text (tr := trim) s) by (by apply digits_text_ends).
  rewrite parse_seconds_digits by done. by destruct s.
Qed.

Lemma directive_flag cc name : contains_byte "=" name = false ->
  parse_directive cc name = Ok (let name := to_lowercase name in
      if name =s B "no-cache" then set_no_cache true cc
      else if name =s B "no-store" then set_no_store true cc
      else if name =s B "no-transform" then set_no_transform true cc
      else if name =s B "only-if-cached" then set_only_if_cached true cc
      else if name =s B "must-revalidate" then set_must_revalidate true cc
      else if name =s B "proxy-revalidate" then set_proxy_revalidate true cc
      else if name =s B "must-understand" then set_must_understand true cc
      else if name =s B "public" then set_public true cc
      else if name =s B "private" then set_private true cc
      else if name =s B "immutable" then set_immutable true cc
      else if name =s B "max-stale" then set_max_stale (Some u64_MAX) cc
      else cc).
Proof. intros Hname. unfold parse_directive. by rewrite (proj2 (split_once_None "=" name) Hname). Qed.

Lemma run_seconds name (set : option N -> CacheControl -> CacheControl) o cc :
  seconds_fit o -> (forall n, n <= u64_MAX -> parse_directive cc (name ++ B "=" ++ show_dec n) = Ok (set (Some n) cc)) ->
  set None cc = cc -> run parse_directive (seconds_part name o) cc = Ok (set o cc).
Proof. intros Ho Hd Hnone. destruct o as [n|]; cbn [seconds_part run]; [by rewrite Hd | by rewrite Hnone]. Qed.

Lemma run_flag name (set : bool -> CacheControl -> CacheControl) b cc :
  parse_directive cc name = Ok (set true cc) -> set false cc = cc -> run parse_directive (flag_part name b) cc = Ok (set b cc).
Proof. intros Hd Hnone. destruct b; cbn [flag_part run]; [by rewrite Hd | by rewrite Hnone]. Qed.

(** What the parts do to an empty value, part by part. *)
Lemma run_parts cc : in_range cc -> run parse_directive (parts cc) new = Ok cc.
Proof.
  intros (H1 & H2 & H3 & H4 & H5 & H6). unfold parts, new.
  rewrite run_app, (run_seconds (B "max-age") set_max_age); [|done|intros n Hn; by rewrite directive_seconds|done]. cbn [mbind result_bind].
  rewrite run_app, (run_seconds (B "s-maxage") set_s_maxage); [|done|intros n Hn; by rewrite directive_seconds|done]. cbn [mbind result_bind].
  assert (Hstale : forall c, max_stale c = None -> run parse_directive
    (match max_stale cc with Some m => if m =? u64_MAX then [B "max-stale"] else [B "max-stale=" ++ show_dec m] | None => [] end) c
    = Ok (set_max_stale (max_stale cc) c)).
  { intros c Hc. destruct (max_stale cc) as [m|]; [|by destruct c; cbn in *; subst]. destruct (m =? u64_MAX) eqn:E.
    - apply N.eqb_eq in E as ->. cbn [run]. by rewrite directive_flag.
    - cbn [run]. change (B "max-stale=" ++ show_dec m) with (B "max-stale" ++ B "=" ++ show_dec m). by rewrite directive_seconds. }
  rewrite run_app, Hstale by done. cbn [mbind result_bind].
  rewrite run_app, (run_seconds (B "min-fresh") set_min_fresh); [|done|intros n Hn; by rewrite directive_seconds|done]. cbn [mbind result_bind].
  rewrite run_app, (run_seconds (B "stale-while-revalidate") set_stale_while_revalidate); [|done|intros n Hn; by rewrite directive_seconds|done]. cbn [mbind result_bind].
  rewrite run_app, (run_seconds (B "stale-if-error") set_stale_if_error); [|done|intros n Hn; by rewrite directive_seconds|done]. cbn [mbind result_bind].
  rewrite run_app, (run_flag (B "no-cache") set_no_cache); [|by rewrite directive_flag|done]. cbn [mbind result_bind].
  rewrite run_app, (run_flag (B "no-store") set_no_store); [|by rewrite directive_flag|done]. cbn [mbind result_bind].
  rewrite run_app, (run_flag (B "no-transform") set_no_transform); [|by rewrite directive_flag|done]. cbn [mbind result_bind].
  rewrite run_app, (run_flag (B "only-if-cached") set_only_if_cached); [|by rewrite directive_flag|done]. cbn [mbind result_bind].
  rewrite run_app, (run_flag (B "must-revalidate") set_must_revalidate); [|by rewrite directive_flag|done]. cbn [mbind result_bind].
  rewrite run_app, (run_flag (B "proxy-revalidate") set_proxy_revalidate); [|by rewrite directive_flag|done]. cbn [mbind result_bind].
  rewrite run_app, (run_flag (B "must-understand") set_must_understand); [|by rewrite directive_flag|done]. cbn [mbind result_bind].
  rewrite run_app, (run_flag (B "public") set_public); [|by rewrite directive_flag|done]. cbn [mbind result_bind].
  rewrite run_app, (run_flag (B "private") set_private); [|by rewrite directive_flag|done]. cbn [mbind result_bind].
  rewrite (run_flag (B "immutable") set_immutable); [|by rewrite directive_flag|done].
  by destruct cc.
Qed.

Definition part_ok (t : str) : Prop := text_ends t /\ without "," t.

Lemma token_part name : is_valid_token name = true -> part_ok name.
Proof. intros Hn. split; [by apply token_text_ends | by apply token_no]. Qed.

Lemma seconds_parts_ok name o : is_valid_token name = true -> Forall part_ok (seconds_part name o).
Proof.
  intros [Hn Hw]%token_part. destruct o as [n|]; [|constructor]. constructor; [|constructor]. split.
  - apply text_ends_mid; [done | apply show_dec_text_ends].
  - unfold without in *. rewrite !contains_byte_app, Hw. cbn.
    apply (contains_byte_forallb "," _ is_ascii_digit); [apply show_dec_digits | done].
Qed.

Lemma flag_parts_ok name b : is_valid_token name = true -> Forall part_ok (flag_part name b).
Proof. intros Hn%token_part. destruct b; [|constructor]. by constructor. Qed.

Lemma cache_parts_ok cc : Forall part_ok (parts cc).
Proof.
  unfold parts. repeat (apply Forall_app; split); try (apply seconds_parts_ok; reflexivity); try (apply flag_parts_ok; reflexivity).
  destruct (max_stale cc) as [m|]; [|constructor]. destruct (m =? u64_MAX).
  - apply (flag_parts_ok (B "max-stale") true). reflexivity.
  - apply (seconds_parts_ok (B "max-stale") (Some m)). reflexivity.
Qed.

Lemma parse_fmt_cc cc : in_range cc -> parse (fmt cc) = Ok cc.
Proof.
  intros Hr%run_parts. pose proof (cache_parts_ok cc) as Hp. unfold fmt, parse. change (B ", ") with (sep ",").
  destruct (parts cc) as [|p ps]; [exact Hr|].
  assert (Ht : Forall text_ends (p :: ps)) by (revert Hp; apply List.Forall_impl; by intros t [? _]).
  assert (Hw : Forall (without ",") (p :: ps)) by (revert Hp; apply List.Forall_impl; by intros t [_ ?]).
  pose proof Ht as [Hp1 Hps]%Forall_cons_iff. pose proof (texts_join_ends "," ps p Hp1 Hps) as He.
  rewrite (trim_text (tr := trim)), text_ends_not_empty by done. cbv zeta.
  rewrite (split_texts (Splitter := split_Splitter "," ltac:(done))) by done. rewrite (for_parts_spaced trim) by exact Ht. exact Hr.
Qed.

Lemma age_parse_fmt a : seconds a <= u64_MAX -> Age_parse (Age_fmt a) = Ok a.
Proof.
  intros Ha. unfold Age_parse, Age_fmt. rewrite (trim_text (tr := trim)), text_ends_not_empty by apply show_dec_text_ends.
  cbv zeta. rewrite parse_seconds_show by done. by destruct a.
Qed.

Lemma expires_parse_valid s r e : Expires_parse s r = Ok e -> Date.valid (date e) = true.
Proof.
  unfold Expires_parse. destruct (Date.parse s) as [d|x] eqn:E; cbn [map_err mbind result_bind].
  - intros [= <-]. by eapply Date.parse_valid.
  - destruct x; try done. destruct (Date.parse_rfc850 s r) as [d|] eqn:E2; [|done]. cbn [map_err mbind result_bind].
    intros [= <-]. by eapply Date.parse_rfc850_valid.
Qed.

Lemma expires_parse_fmt e r : Date.valid (date e) = true -> Expires_parse (Expires_fmt e) r = Ok e.
Proof. intros He. unfold Expires_parse, Expires_fmt. rewrite Date.parse_fmt_date by done. cbn. by destruct e. Qed.

(** Whatever is parsed is in range. *)
Lemma directive_in_range cc d cc' : parse_directive cc d = Ok cc' -> in_range cc -> in_range cc'.
Proof.
  unfold parse_directive, in_range. destruct (split_once "=" d) as [[name value]|]; cbv zeta.
  - destruct (unquote _) as [v|]; [|done]. cbn [mbind result_bind]. destruct cc. intros H Hr.
    repeat (destruct (_ =s _); [first [injection H as <-; exact Hr |
      destruct (parse_seconds v) as [n|] eqn:E; [|done]; apply parse_seconds_range in E; injection H as <-; cbn in *; tauto]|]).
    by injection H as <-.
  - intros [= <-]. destruct cc. by repeat (destruct (_ =s _); [cbn in *; unfold seconds_fit; intuition (done || lia)|]).
Qed.

Lemma parsed_in_range s cc : parse s = Ok cc -> in_range cc.
Proof.
  assert (Hnew : in_range new) by (repeat split). unfold parse. cbv zeta. destruct (is_empty _); [by intros [= <-]|].
  revert Hnew. generalize new. induction (split "," (trim s)) as [|p ps IH]; intros c Hc; cbn [for_parts]; [by intros [= <-]|].
  cbv zeta. destruct (is_empty _); [by apply IH|]. destruct (parse_directive c _) as [c'|] eqn:E; [|done].
  cbn [mbind result_bind]. by apply IH, (directive_in_range _ _ _ E).
Qed.
End Cache.
