(* ===== verification/Cookie.v ===== *)
(** * Cookies ([src/cookie.rs]): Cookie and Set-Cookie *)
From S2P Require Import Prelude RustStd Validate RustStr FieldList Date.

Module Cookie.

Inductive CookieError : Type :=
  | Empty | InvalidFormat | InvalidName | InvalidValue | InvalidAttribute | InvalidSameSite.

Definition CookieError_fmt (e : CookieError) : str :=
  match e with
  | Empty => B "empty cookie"
  | InvalidFormat => B "invalid cookie format"
  | InvalidName => B "invalid cookie name"
  | InvalidValue => B "invalid cookie value"
  | InvalidAttribute => B "invalid cookie attribute"
  | InvalidSameSite => B "invalid SameSite attribute"
  end.

Definition is_valid_cookie_name (s : str) : bool := negb (is_empty s) && forallb is_token_char s.

Definition is_cookie_octet (b : byte) : bool :=
  (b2n b =? 33) || within 35 43 b || within 45 58 b || within 60 91 b || within 93 126 b.
Definition is_valid_cookie_value (s : str) : bool := forallb is_cookie_octet s.

Definition is_valid_domain_value (s : str) : bool :=
  forallb (fun b => is_ascii_alphanumeric b || (b =b "-") || (b =b ".")) s.

Definition parse_cookie_pair (pair : str) : result CookieError (str * str) :=
  eq_pos ← ok_or InvalidFormat (find_byte "=" pair);
  let name := trim (take eq_pos pair) in
  let value := trim (drop (S eq_pos) pair) in
  if is_empty name then Err InvalidName
  else if negb (is_valid_cookie_name name) then Err InvalidName
  else
    let value :=
      if starts_with [DQUOTE] value && ends_with [DQUOTE] value && (2 <=? length value)%nat
      then take (length value - 2) (drop 1 value) else value in
    if negb (is_valid_cookie_value value) then Err InvalidValue else Ok (name, value).

(** ** Cookie *)

Record Cookie : Type := mkCookie { c_name : str; c_value : str }.

(** The body of the loop of [Cookie::parse]. *)
Definition parse_pair (pair : str) : result CookieError Cookie :=
  '(name, value) ← parse_cookie_pair pair; Ok (mkCookie name value).

Definition Cookie_parse (input : str) : result CookieError (list Cookie) :=
  let input := trim_ows input in
  if is_empty input then Err Empty
  else
    cookies ← list_loop trim_ows parse_pair (split ";" input);
    if is_empty cookies then Err Empty else Ok cookies.

Definition Cookie_new (name value : str) : result CookieError Cookie :=
  if is_empty name || negb (is_valid_cookie_name name) then Err InvalidName
  else if negb (is_valid_cookie_value value) then Err InvalidValue
  else Ok (mkCookie name value).

Definition Cookie_fmt (c : Cookie) : str := c_name c ++ B "=" ++ c_value c.

(** ** Set-Cookie *)

Inductive SameSite : Type := Strict | Lax | SameSiteNone.

Definition SameSite_from_str (s : str) : result CookieError SameSite :=
  let s := to_ascii_lowercase s in
  if s =s B "strict" then Ok Strict
  else if s =s B "lax" then Ok Lax
  else if s =s B "none" then Ok SameSiteNone
  else Err InvalidSameSite.

Definition SameSite_fmt (s : SameSite) : str :=
  match s with Strict => B "Strict" | Lax => B "Lax" | SameSiteNone => B "None" end.

Record SetCookie : Type := mkSetCookie {
  name : str;
  value : str;
  expires : option Date.HttpDate;
  max_age : option Z;  (* i64 *)
  domain : option str;
  path : option str;
  secure : bool;
  http_only : bool;
  same_site : option SameSite;
}.

(** [SetCookie] with no attribute. *)
Definition bare (name value : str) : SetCookie := mkSetCookie name value None None None None false false None.

Definition with_expires (c : SetCookie) (expires : Date.HttpDate) : SetCookie :=
  mkSetCookie (name c) (value c) (Some expires) (max_age c) (domain c) (path c) (secure c) (http_only c) (same_site c).
Definition with_max_age (c : SetCookie) (max_age : Z) : SetCookie :=
  mkSetCookie (name c) (value c) (expires c) (Some max_age) (domain c) (path c) (secure c) (http_only c) (same_site c).
Definition with_domain (c : SetCookie) (domain : str) : SetCookie :=
  mkSetCookie (name c) (value c) (expires c) (max_age c) (Some domain) (path c) (secure c) (http_only c) (same_site c).
Definition with_path (c : SetCookie) (path : str) : SetCookie :=
  mkSetCookie (name c) (value c) (expires c) (max_age c) (domain c) (Some path) (secure c) (http_only c) (same_site c).
Definition with_secure (c : SetCookie) (secure : bool) : SetCookie :=
  mkSetCookie (name c) (value c) (expires c) (max_age c) (domain c) (path c) secure (http_only c) (same_site c).
Definition with_http_only (c : SetCookie) (http_only : bool) : SetCookie :=
  mkSetCookie (name c) (value c) (expires c) (max_age c) (domain c) (path c) (secure c) http_only (same_site c).
Definition with_same_site (c : SetCookie) (same_site : SameSite) : SetCookie :=
  mkSetCookie (name c) (value c) (expires c) (max_age c) (domain c) (path c) (secure c) (http_only c) (Some same_site).

(** [s.parse::<i64>()]: an optional sign and digits, within the type. *)
Definition i64_MAX : N := 9223372036854775807.
Definition parse_i64 (s : str) : option Z :=
  match s with
  | [] => None
  | b :: ds =>
      if b =b "-" then
        if is_empty ds then None else n ← parse_digits 10 (i64_MAX + 1) 0 ds; Some (- Z.of_N n)%Z
      else if b =b "+" then
        if is_empty ds then None else n ← parse_digits 10 i64_MAX 0 ds; Some (Z.of_N n)
      else n ← parse_digits 10 i64_MAX 0 s; Some (Z.of_N n)
  end.
Definition show_i64 (z : Z) : str := if (z <? 0)%Z then B "-" ++ show_dec (Z.to_N (- z)) else show_dec (Z.to_N z).

(** The arms of [match attr_name ..] that may be skipped. *)
Definition parse_expires (attr_value : str) (reference_year : N) : result Date.DateError Date.HttpDate :=
  match Date.parse attr_value with
  | Err Date.Rfc850Date => Date.parse_rfc850 attr_value reference_year
  | r => r
  end.

Definition parse_max_age (attr_value : str) : option Z :=
  match attr_value with
  | first :: rest =>
      if (is_ascii_digit first || (first =b "-")) && forallb is_ascii_digit rest then
        age ← parse_i64 attr_value; Some (if (age <? 0)%Z then 0%Z else age)
      else None
  | [] => None
  end.

Definition parse_domain (attr_value : str) : option str :=
  let d := default attr_value (strip_prefix (B ".") attr_value) in
  if is_empty d || starts_with (B ".") d || negb (is_valid_domain_value d) then None
  else Some (to_ascii_lowercase d).

(** [match attr_name.to_ascii_lowercase().as_str() { .. }]. *)
Definition set_attribute (reference_year : N) (set_cookie : SetCookie) (attr_name attr_value : str) : result CookieError SetCookie :=
  if attr_name =s B "expires" then
    Ok (match parse_expires attr_value reference_year with Ok date => with_expires set_cookie date | Err _ => set_cookie end)
  else if attr_name =s B "max-age" then
    Ok (match parse_max_age attr_value with Some age => with_max_age set_cookie age | None => set_cookie end)
  else if attr_name =s B "domain" then
    Ok (match parse_domain attr_value with Some d => with_domain set_cookie d | None => set_cookie end)
  else if (attr_name =s B "path") && negb (is_empty attr_value) && starts_with (B "/") attr_value then
    Ok (with_path set_cookie attr_value)
  else if attr_name =s B "samesite" then
    same_site ← SameSite_from_str attr_value; Ok (with_same_site set_cookie same_site)
  else Ok set_cookie.

(** The same for an attribute without a value. *)
Definition set_flag (set_cookie : SetCookie) (part : str) : SetCookie :=
  if part =s B "secure" then with_secure set_cookie true
  else if part =s B "httponly" then with_http_only set_cookie true
  else set_cookie.

(** The body of the loop over the attributes of [SetCookie::parse]. *)
Definition parse_attribute (reference_year : N) (set_cookie : SetCookie) (part : str) : result CookieError SetCookie :=
  match find_byte "=" part with
  | Some eq_pos =>
      let attr_name := trim (take eq_pos part) in
      let attr_value := trim (drop (S eq_pos) part) in
      set_attribute reference_year set_cookie (to_ascii_lowercase attr_name) attr_value
  | None => Ok (set_flag set_cookie (to_ascii_lowercase part))
  end.

Definition SetCookie_parse (input : str) (reference_year : N) : result CookieError SetCookie :=
  let input := trim_ows input in
  if is_empty input then Err Empty
  else
    let parts := split ";" input in
    first ← ok_or InvalidFormat (hd_error parts);
    '(name, value) ← parse_cookie_pair (trim_ows first);
    for_parts trim_ows (parse_attribute reference_year) (drop 1 parts) (bare name value).

Definition SetCookie_new (name value : str) : result CookieError SetCookie :=
  if is_empty name || negb (is_valid_cookie_name name) then Err InvalidName
  else if negb (is_valid_cookie_value value) then Err InvalidValue
  else Ok (bare name value).

Definition SetCookie_fmt (c : SetCookie) : str :=
  name c ++ B "=" ++ value c
  ++ match expires c with Some expires => B "; Expires=" ++ Date.fmt expires | None => [] end
  ++ match max_age c with Some max_age => B "; Max-Age=" ++ show_i64 max_age | None => [] end
  ++ match domain c with Some domain => B "; Domain=" ++ domain | None => [] end
  ++ match path c with Some path => B "; Path=" ++ path | None => [] end
  ++ (if secure c then B "; Secure" else [])
  ++ (if http_only c then B "; HttpOnly" else [])
  ++ match same_site c with Some same_site => B "; SameSite=" ++ SameSite_fmt same_site | None => [] end.

Example set_cookie_ex :
  (c ← SetCookie_parse (B "id = a3; Expires=Sunday, 06-Nov-94 08:49:37 GMT; max-age=-5; Domain=.Example.COM; path=/x;secure; samesite=LAX; Path=rel; y") 2024;
   Ok (SetCookie_fmt c)) =
  Ok (B "id=a3; Expires=Sun, 06 Nov 1994 08:49:37 GMT; Max-Age=0; Domain=example.com; Path=/x; Secure; SameSite=Lax").
Proof. vm_compute. reflexivity. Qed.
Example cookie_ex : (cs ← Cookie_parse (B "a=1; b=" ++ [DQUOTE] ++ B "2" ++ [DQUOTE]); Ok (map Cookie_fmt cs)) = Ok [B "a=1"; B "b=2"].
Proof. vm_compute. reflexivity. Qed.

(** ** Pairs *)

Definition pair_ok (n v : str) : Prop := is_valid_token n = true /\ forallb is_cookie_octet v = true.

Lemma octets_trim v : forallb is_cookie_octet v = true -> trim v = v.
Proof.
  intros Hv. destruct v as [|b v]; [done|]. apply (trim_text (tr := trim)), visible_all; [done|].
  revert Hv. apply forallb_impl. intros c. byte_solve c.
Qed.

Lemma parse_pair_text n v : pair_ok n v -> parse_cookie_pair (n ++ B "=" ++ v) = Ok (n, v).
Proof.
  intros [Hn Hv]. unfold parse_cookie_pair. change (n ++ B "=" ++ v) with (n ++ "="%byte :: v).
  rewrite find_byte_app by (by apply token_no). cbn [ok_or mbind result_bind]. cbv zeta.
  rewrite take_app_length, drop_past, trim_token, token_not_empty by done. unfold is_valid_cookie_name. fold (is_valid_token n).
  rewrite Hn, octets_trim by done. cbn [negb]. assert (starts_with [DQUOTE] v = false) as ->.
  { destruct v as [|b v]; [done|]. cbn [forallb] in Hv. apply andb_true_iff in Hv as [Hb _]. unfold starts_with. cbn [strip_prefix].
    assert ((DQUOTE =b b) = false) as -> by (revert Hb; clear; byte_solve b). done. }
  cbn [andb]. unfold is_valid_cookie_value. by rewrite Hv.
Qed.

Lemma parse_pair_ok s n v : parse_cookie_pair s = Ok (n, v) -> pair_ok n v.
Proof.
  unfold parse_cookie_pair. destruct (find_byte "=" s) as [i|]; [|done]. cbn [ok_or mbind result_bind]. cbv zeta.
  destruct (is_empty _); [done|]. destruct (negb (is_valid_cookie_name _)) eqn:En; [done|].
  destruct (negb (is_valid_cookie_value _)) eqn:Ev; [done|]. intros [= <- <-]. apply negb_false_iff in En, Ev. by split.
Qed.

Lemma pair_text_ends n v : pair_ok n v -> text_ends (n ++ B "=" ++ v).
Proof.
  intros [Hn Hv]. destruct (token_ends n Hn) as [Hs _]. split; [by apply visible_start_app|]. apply visible_end_app.
  destruct v as [|b v]; [by exists [], "="%byte|]. apply visible_end_app.
  apply visible_all; [done|]. revert Hv. apply forallb_impl. intros c. byte_solve c.
Qed.

Lemma pair_without n v : pair_ok n v -> without ";" (n ++ B "=" ++ v).
Proof.
  intros [Hn Hv]. unfold without. rewrite !contains_byte_app, (token_no n) by done. cbn.
  by apply (contains_byte_forallb ";" v is_cookie_octet).
Qed.

Lemma cookie_read_back c : pair_ok (c_name c) (c_value c) -> item_text parse_pair Cookie_fmt (without ";") c.
Proof.
  intros Hc. split_and!; [by apply pair_text_ends | by apply pair_without|].
  unfold parse_pair, Cookie_fmt. rewrite parse_pair_text by done. by destruct c.
Qed.

(** A Cookie field that sends the cookies with a semicolon and a space between. *)
Lemma cookies_read_back cs : cs <> [] -> Forall (fun c => pair_ok (c_name c) (c_value c)) cs ->
  Cookie_parse (join (B "; ") (map Cookie_fmt cs)) = Ok cs.
Proof.
  intros Hne Hf. apply (List.Forall_impl _ cookie_read_back) in Hf. unfold Cookie_parse. change (B "; ") with (sep ";").
  rewrite (trim_list_text trim_ows ";" Hf), (text_ends_not_empty _ (list_text_ends ";" Hf Hne)). cbv zeta.
  rewrite (field_read_back trim_ows (split ";") ";" Hf). cbn [mbind result_bind]. by destruct cs.
Qed.

Lemma cookies_parsed s cs : Cookie_parse s = Ok cs -> cs <> [] /\ Forall (fun c => pair_ok (c_name c) (c_value c)) cs.
Proof.
  unfold Cookie_parse. cbv zeta. destruct (is_empty _); [done|]. destruct (list_loop _ _ _) as [l|] eqn:E; [|done].
  cbn [mbind result_bind]. destruct (is_empty l) eqn:En; [done|]. intros [= <-]. split; [by destruct l|].
  revert E. apply list_loop_ok. intros p c. unfold parse_pair. destruct (parse_cookie_pair p) as [[n v]|] eqn:Ep; [|done].
  cbn [mbind result_bind]. intros [= <-]. by eapply parse_pair_ok.
Qed.

(** ** Attributes *)

Definition attribute_ok (c : SetCookie) : Prop :=
  match expires c with Some d => Date.valid d = true | None => True end /\
  match max_age c with Some z => (0 <= z <= Z.of_N i64_MAX)%Z | None => True end /\
  match domain c with
  | Some d => d <> [] /\ starts_with (B ".") d = false /\ is_valid_domain_value d = true /\ to_ascii_lowercase d = d
  | None => True
  end /\
  match path c with
  | Some p => starts_with (B "/") p = true /\ trim p = p /\ ows_trimmed p = true /\ without ";" p
  | None => True
  end.

Definition ok (c : SetCookie) : Prop := pair_ok (name c) (value c) /\ attribute_ok c.

Lemma attribute_text ry c n v : is_valid_token n = true -> trim v = v ->
  parse_attribute ry c (n ++ B "=" ++ v) = set_attribute ry c (to_ascii_lowercase n) v.
Proof.
  intros Hn Hv. unfold parse_attribute. change (n ++ B "=" ++ v) with (n ++ "="%byte :: v).
  rewrite find_byte_app by (by apply token_no). cbv zeta. by rewrite take_app_length, drop_past, trim_token, Hv.
Qed.

Lemma parse_max_age_show z : (0 <= z <= Z.of_N i64_MAX)%Z -> parse_max_age (show_i64 z) = Some z.
Proof.
  intros Hz. unfold show_i64. destruct (z <? 0)%Z eqn:E; [lia|]. set (n := Z.to_N z).
  pose proof (show_dec_digits n) as Hd. pose proof (show_dec_not_nil n) as Hne. unfold parse_max_age.
  pose proof (parse_digits_show n i64_MAX ltac:(unfold n; lia)) as Hp. destruct (show_dec n) as [|b ds] eqn:Es; [done|].
  cbn [forallb] in Hd. apply andb_true_iff in Hd as [Hb Hds]. rewrite Hb, Hds. cbn [orb andb]. unfold parse_i64.
  assert ((b =b "-") = false) as -> by (revert Hb; clear; byte_solve b). assert ((b =b "+") = false) as -> by (revert Hb; clear; byte_solve b).
  rewrite Hp. cbn [mbind option_bind]. assert ((Z.of_N n <? 0)%Z = false) as -> by lia. f_equal. unfold n. lia.
Qed.

Lemma parse_domain_text d : d <> [] -> starts_with (B ".") d = false -> is_valid_domain_value d = true -> to_ascii_lowercase d = d ->
  parse_domain d = Some d.
Proof.
  intros Hne Hs Hv Hl. unfold parse_domain, starts_with in *. destruct (strip_prefix (B ".") d) as [r|] eqn:E; [done|].
  cbn [default from_option]. cbv zeta. cbn [id]. rewrite E, Hv, Hl. by destruct d.
Qed.

(** ** The pieces of a Set-Cookie field *)

Definition attributes (c : SetCookie) : list str :=
  match expires c with Some d => [B "Expires" ++ B "=" ++ Date.fmt d] | None => [] end
  ++ match max_age c with Some z => [B "Max-Age" ++ B "=" ++ show_i64 z] | None => [] end
  ++ match domain c with Some d => [B "Domain" ++ B "=" ++ d] | None => [] end
  ++ match path c with Some p => [B "Path" ++ B "=" ++ p] | None => [] end
  ++ (if secure c then [B "Secure"] else [])
  ++ (if http_only c then [B "HttpOnly"] else [])
  ++ match same_site c with Some s => [B "SameSite" ++ B "=" ++ SameSite_fmt s] | None => [] end.

Lemma fmt_attributes c : SetCookie_fmt c = join (sep ";") ((name c ++ B "=" ++ value c) :: attributes c).
Proof.
  rewrite join_concat. unfold SetCookie_fmt, attributes. rewrite !map_app, !concat_app, <- !app_assoc. do 3 f_equal.
  assert (Ho : forall A (o : option A) (f : A -> str),
    concat (map (fun t => B "; " ++ t) match o with Some a => [f a] | None => [] end) = match o with Some a => B "; " ++ f a | None => [] end).
  { intros A [a|] f; [cbn; by rewrite app_nil_r | done]. }
  assert (Hb : forall (b : bool) x, concat (map (fun t => B "; " ++ t) (if b then [x] else [])) = if b then B "; " ++ x else []).
  { intros [|] x; [cbn; by rewrite app_nil_r | done]. }
  by rewrite !Ho, !Hb.
Qed.

Definition piece_ok (t : str) : Prop := t <> [] /\ ows_trimmed t = true /\ without ";" t.

Lemma text_piece t : text_ends t -> without ";" t -> piece_ok t.
Proof. intros Ht Hw. split_and!; [by destruct Ht as [(? & ? & -> & _) _] | by apply text_ows_trimmed | done]. Qed.

Lemma date_text d : text_ends (Date.fmt d) /\ without ";" (Date.fmt d).
Proof.
  split.
  - pose proof (Date.fmt_solid_ends d) as H. destruct (Date.fmt d) as [|b m] eqn:E; [exfalso; rewrite Date.fmt_eq in E; by destruct (Date.day_of_week d)|].
    unfold solid_ends in H. cbv zeta in H. rewrite !andb_true_iff in H. destruct H as [[[Ha Hw] Ha2] Hw2].
    split; [exists b, m; split; [done|]; unfold visible; by rewrite Ha, Hw|].
    destruct (@exists_last _ (b :: m)) as (l & x & Hx); [done|]. rewrite Hx in *. rewrite last_last in Ha2, Hw2.
    exists l, x. split; [done|]. unfold visible. by rewrite Ha2, Hw2.
  - unfold without, Date.fmt. rewrite !contains_byte_app, !(show_pad_no ";") by done.
    assert (contains_byte ";" (Date.short_name (Date.day_of_week d)) = false) as -> by (by destruct (Date.day_of_week d)).
    assert (contains_byte ";" (Date.month_name (Date.month d)) = false) as ->; [|done]. unfold Date.month_name.
    destruct (_ && _); [|done]. destruct (nth_in_or_default (N.to_nat (Date.month d - 1)) Date.month_names (B "???")) as [H| ->]; [|done].
    assert (Hall : forallb (fun s => negb (contains_byte ";" s)) Date.month_names = true) by (vm_compute; reflexivity).
    rewrite forallb_forall in Hall. by apply negb_true_iff, Hall.
Qed.

Lemma show_i64_text z : text_ends (show_i64 z) /\ without ";" (show_i64 z).
Proof.
  assert (Hd : forall n, text_ends (show_dec n) /\ without ";" (show_dec n)).
  { intros n. pose proof (show_dec_digits n) as H. split.
    - apply visible_all; [apply show_dec_not_nil|]. revert H. apply forallb_impl. intros b. byte_solve b.
    - by apply (contains_byte_forallb ";" _ is_ascii_digit). }
  unfold show_i64. destruct (z <? 0)%Z; [|apply Hd]. destruct (Hd (Z.to_N (- z))) as [He Hw]. split.
  - apply text_ends_app; [|done]. split; [by exists "-"%byte, [] | by exists [], "-"%byte].
  - unfold without. rewrite contains_byte_app, Hw. done.
Qed.

Lemma named_piece n v : is_valid_token n = true -> v <> [] -> ows_trimmed v = true -> without ";" v -> piece_ok (n ++ B "=" ++ v).
Proof.
  intros Hn Hv Ht Hw. split_and!; [by destruct n| |].
  - destruct (token_ends n Hn) as [(b & m & -> & Hb) _]. unfold ows_trimmed. cbn [app].
    destruct (@exists_last _ v Hv) as (l & x & ->). rewrite app_comm_cons, !app_assoc, last_last.
    apply andb_true_iff. split; [revert Hb; clear; byte_solve b|]. clear -Ht. destruct l as [|c l].
    + cbn in Ht. by apply andb_true_iff in Ht as [_ ?].
    + unfold ows_trimmed in Ht. cbn [app] in Ht. rewrite app_comm_cons, last_last in Ht. by apply andb_true_iff in Ht as [_ ?].
  - unfold without in *. rewrite !contains_byte_app, Hw, (token_no n) by done. done.
Qed.

Lemma domain_text d : d <> [] -> is_valid_domain_value d = true -> text_ends d /\ without ";" d.
Proof.
  intros Hne Hd. unfold is_valid_domain_value in Hd. split.
  - apply visible_all; [done|]. revert Hd. apply forallb_impl. intros b. byte_solve b.
  - by apply (contains_byte_forallb ";" d _ Hd).
Qed.

Lemma text_named n v : is_valid_token n = true -> text_ends v /\ without ";" v -> piece_ok (n ++ B "=" ++ v).
Proof.
  intros Hn [Hv Hw]. apply named_piece; [done | by destruct Hv as [(? & ? & -> & _) _] | by apply text_ows_trimmed | done].
Qed.

Lemma attributes_ok c : attribute_ok c -> Forall piece_ok (attributes c).
Proof.
  intros (He & Hm & Hd & Hp). unfold attributes. repeat (apply Forall_app; split).
  - destruct (expires c); constructor; [|constructor]. apply text_named; [done | apply date_text].
  - destruct (max_age c); constructor; [|constructor]. apply text_named; [done | apply show_i64_text].
  - destruct (domain c); constructor; [|constructor]. destruct Hd as (Hne & _ & Hv & _). apply text_named; [done | by apply domain_text].
  - destruct (path c) as [p|]; constructor; [|constructor]. destruct Hp as (Hs & _ & Ht & Hw). apply named_piece; try done. by destruct p.
  - destruct (secure c); constructor; [|constructor]. by apply text_piece; [apply token_text_ends|].
  - destruct (http_only c); constructor; [|constructor]. by apply text_piece; [apply token_text_ends|].
  - destruct (same_site c) as [s|]; constructor; [|constructor]. destruct s;
      (apply text_named; [done | split; [by apply token_text_ends | done]]).
Qed.

(** What the attributes do, one after the other. *)
Lemma run_attributes ry c : attribute_ok c -> run (parse_attribute ry) (attributes c) (bare (name c) (value c)) = Ok c.
Proof.
  intros (He & Hm & Hd & Hp). unfold attributes.
  assert (H1 : forall k, expires k = None -> run (parse_attribute ry) (match expires c with Some d => [B "Expires" ++ B "=" ++ Date.fmt d] | None => [] end) k
    = Ok (match expires c with Some d => with_expires k d | None => k end)).
  { intros k _. destruct (expires c) as [d|]; [|done]. cbn [run]. rewrite attribute_text by (done || apply trim_id, Date.fmt_solid_ends).
    unfold set_attribute. change (to_ascii_lowercase (B "Expires") =s B "expires") with true. cbv iota. unfold parse_expires.
    by rewrite Date.parse_fmt_date. }
  assert (H2 : forall k, run (parse_attribute ry) (match max_age c with Some z => [B "Max-Age" ++ B "=" ++ show_i64 z] | None => [] end) k
    = Ok (match max_age c with Some z => with_max_age k z | None => k end)).
  { intros k. destruct (max_age c) as [z|]; [|done]. cbn [run]. rewrite attribute_text by (done || apply (trim_text (tr := trim)), show_i64_text).
    change (set_attribute ry k (to_ascii_lowercase (B "Max-Age")) (show_i64 z)) with
      (@Ok CookieError _ (match parse_max_age (show_i64 z) with Some age => with_max_age k age | None => k end)). by rewrite parse_max_age_show. }
  assert (H3 : forall k, run (parse_attribute ry) (match domain c with Some d => [B "Domain" ++ B "=" ++ d] | None => [] end) k
    = Ok (match domain c with Some d => with_domain k d | None => k end)).
  { intros k. destruct (domain c) as [d|]; [|done]. destruct Hd as (Hne & Hs & Hv & Hl). cbn [run].
    rewrite attribute_text by (done || by apply (trim_text (tr := trim)), domain_text).
    change (set_attribute ry k (to_ascii_lowercase (B "Domain")) d) with
      (@Ok CookieError _ (match parse_domain d with Some d => with_domain k d | None => k end)). by rewrite parse_domain_text. }
  assert (H4 : forall k, run (parse_attribute ry) (match path c with Some p => [B "Path" ++ B "=" ++ p] | None => [] end) k
    = Ok (match path c with Some p => with_path k p | None => k end)).
  { intros k. destruct (path c) as [p|]; [|done]. destruct Hp as (Hs & Ht & _ & _). cbn [run]. rewrite attribute_text by done.
    change (set_attribute ry k (to_ascii_lowercase (B "Path")) p) with
      (if negb (is_empty p) && starts_with (B "/") p then @Ok CookieError _ (with_path k p) else Ok k). rewrite Hs. by destruct p. }
  rewrite run_app, H1 by done. cbn [mbind result_bind]. rewrite run_app, H2. cbn [mbind result_bind].
  rewrite run_app, H3. cbn [mbind result_bind]. rewrite run_app, H4. cbn [mbind result_bind]. clear.
  destruct c as [n v e m d p s h ss]. cbn [expires max_age domain path secure http_only same_site name value].
  by destruct e, m, d, p, s, h, ss as [[]|]; vm_compute.
Qed.

Lemma ows_trimmed_mid a m b :
  ows_trimmed a = true -> ows_trimmed b = true -> a <> [] -> b <> [] -> ows_trimmed (a ++ m ++ b) = true.
Proof.
  intros Hta Htb Hna Hnb. destruct a as [|x a]; [done|]. destruct (@exists_last _ b Hnb) as (l & y & ->).
  unfold ows_trimmed in *. cbn [app]. rewrite app_assoc, app_assoc, app_comm_cons, last_last. apply andb_true_iff in Hta as [-> _].
  destruct l as [|z l]; cbn [app] in Htb; [by apply andb_true_iff in Htb as [_ ?]|]. rewrite app_comm_cons, last_last in Htb.
  by apply andb_true_iff in Htb as [_ ?].
Qed.

Lemma pieces_join ts t : piece_ok t -> Forall piece_ok ts ->
  join (sep ";") (t :: ts) <> [] /\ ows_trimmed (join (sep ";") (t :: ts)) = true.
Proof.
  revert t. induction ts as [|u us IH]; intros t (Hne & Ht & _) Hts; [done|]. apply Forall_cons_iff in Hts as [Hu Hus].
  destruct (IH u Hu Hus) as [Hne2 Ht2]. rewrite join_cons by done. split; [by destruct t | by apply ows_trimmed_mid].
Qed.

Lemma parse_fmt_ok c ry : ok c -> SetCookie_parse (SetCookie_fmt c) ry = Ok c.
Proof.
  intros [Hpair Ha]. pose proof (attributes_ok c Ha) as Hp. pose proof (run_attributes ry c Ha) as Hrun.
  pose proof (pair_text_ends _ _ Hpair) as He. pose proof (pair_without _ _ Hpair) as Hw. rewrite fmt_attributes.
  set (pr := name c ++ B "=" ++ value c) in *. assert (Hpr : piece_ok pr) by (by apply text_piece).
  destruct (pieces_join _ _ Hpr Hp) as [Hne Ht]. unfold SetCookie_parse. rewrite trim_ows_id by done. cbv zeta.
  destruct (is_empty _) eqn:En; [by destruct (join _ _)|].
  rewrite (split_texts (Splitter := split_Splitter ";" ltac:(done))).
  2:{ constructor; [done|]. revert Hp. apply List.Forall_impl. by intros t (_ & _ & ?). }
  cbn [spaced hd_error ok_or mbind result_bind]. rewrite (trim_text (tr := trim_ows)) by done. unfold pr.
  rewrite parse_pair_text by done. cbn [mbind result_bind drop]. rewrite drop_0, for_parts_run; [exact Hrun|].
  revert Hp. apply List.Forall_impl. intros t (Hnt & Htt & _). split; [|done].
  rewrite <- (trim_ows_sandwich [" "%byte] t [] ltac:(done) ltac:(done) Htt) at 2. by rewrite app_nil_r.
Qed.

(** ** What is parsed can be written *)

Lemma parse_i64_bound s z : parse_i64 s = Some z -> (z <= Z.of_N i64_MAX)%Z.
Proof.
  unfold parse_i64. destruct s as [|b ds]; [done|]. destruct (b =b "-"); [|destruct (b =b "+")].
  - destruct (is_empty ds); [done|]. destruct (parse_digits _ _ _ _) as [n|]; [|done]. intros [= <-]. unfold i64_MAX. lia.
  - destruct (is_empty ds); [done|]. destruct (parse_digits _ _ _ _) as [n|] eqn:E; [|done]. intros [= <-].
    apply parse_digits_bound in E; [lia | unfold i64_MAX; lia].
  - destruct (parse_digits _ _ _ _) as [n|] eqn:E; [|done]. intros [= <-]. apply parse_digits_bound in E; [lia | unfold i64_MAX; lia].
Qed.

Lemma parse_max_age_range s z : parse_max_age s = Some z -> (0 <= z <= Z.of_N i64_MAX)%Z.
Proof.
  unfold parse_max_age. destruct s as [|b ds]; [done|]. destruct (_ && _); [|done]. destruct (parse_i64 _) as [a|] eqn:E; [|done].
  apply parse_i64_bound in E. cbn [mbind option_bind]. intros [= <-]. destruct (a <? 0)%Z eqn:Ea; unfold i64_MAX in *; lia.
Qed.

Lemma parse_domain_ok s d : parse_domain s = Some d ->
  d <> [] /\ starts_with (B ".") d = false /\ is_valid_domain_value d = true /\ to_ascii_lowercase d = d.
Proof.
  unfold parse_domain. cbv zeta. set (x := default s _). clearbody x. destruct (_ || _) eqn:E; [done|]. intros [= <-].
  rewrite !orb_false_iff, negb_false_iff in E. destruct E as [[Hne Hs] Hv]. split_and!; [by destruct x | | |apply lower_idem].
  - destruct x as [|b x]; [done|]. unfold starts_with in *. cbn [to_ascii_lowercase map strip_prefix B] in *.
    change (B ".") with ["."%byte] in *. cbn [strip_prefix] in *. destruct ("."%byte =b b) eqn:Eb; [done|].
    assert (("."%byte =b to_ascii_lowercase_byte b) = false) as ->; [|done]. revert Eb. clear. byte_solve b.
  - unfold is_valid_domain_value in *. clear Hne Hs. unfold to_ascii_lowercase. induction x as [|b x IH]; [done|].
    cbn [map forallb] in *. apply andb_true_iff in Hv as [Hb Hx]. rewrite (IH Hx), andb_true_r. revert Hb. clear. byte_solve b.
Qed.

Lemma path_ok s : starts_with (B "/") (trim s) = true -> trim (trim s) = trim s /\ ows_trimmed (trim s) = true.
Proof.
  intros Hs. unfold trim at 2 3 4. set (p := trim_end (trim_start s)) in *. change (trim s) with p in Hs.
  assert (Hp : exists m, p = "/"%byte :: m).
  { unfold starts_with in Hs. destruct (strip_prefix (B "/") p) as [r|] eqn:E; [|done]. apply strip_prefix_Some in E as ->. by exists r. }
  destruct Hp as [m Hm]. split.
  - unfold trim. assert (trim_start p = p) as -> by (rewrite Hm; by apply trim_start_id). apply trim_end_idem.
  - unfold ows_trimmed. rewrite Hm. apply andb_true_iff. split; [done|]. destruct (@exists_last _ ("/"%byte :: m)) as (l & c & El); [done|].
    rewrite El, last_last. destruct (is_ascii c) eqn:Ec; [|revert Ec; clear; byte_solve c].
    assert (byte_white c = false) as Hw by (apply (trim_end_last (trim_start s) l c); [by rewrite <- El, <- Hm | done]).
    revert Hw. clear. byte_solve c.
Qed.

Lemma without_trim d s : without d s -> without d (trim s).
Proof.
  unfold without, contains_byte. rewrite !existsb_negb_forallb, !negb_false_iff. apply forallb_trim.
Qed.

Lemma without_drop d n s : without d s -> without d (drop n s).
Proof.
  intros H. unfold without in *. rewrite <- (take_drop n s), contains_byte_app in H. by apply orb_false_iff in H as [_ ?].
Qed.

Lemma without_trim_ows d s : without d s -> without d (trim_ows s).
Proof. unfold without, contains_byte. rewrite !existsb_negb_forallb, !negb_false_iff. apply trim_ows_forallb. Qed.

Lemma parse_expires_valid s ry d : parse_expires s ry = Ok d -> Date.valid d = true.
Proof.
  unfold parse_expires. destruct (Date.parse s) as [x|[]] eqn:E; intros H; try discriminate H.
  - apply Ok_inj in H as ->. by eapply Date.parse_valid.
  - by eapply Date.parse_rfc850_valid.
Qed.

Lemma parse_attribute_ok ry c part c' : without ";" part -> parse_attribute ry c part = Ok c' -> ok c -> ok c'.
Proof.
  intros Hw. unfold parse_attribute, ok. destruct (find_byte "=" part) as [i|]; cbv zeta.
  - set (n := to_ascii_lowercase _). set (v := drop (S i) part). assert (Hv : without ";" (trim v)) by (by apply without_trim, without_drop).
    unfold set_attribute. intros H (Hpair & He & Hm & Hd & Hp). destruct (n =s B "expires").
    { apply Ok_inj in H as <-. destruct (parse_expires _ _) as [d|] eqn:E; [|done]. apply parse_expires_valid in E. done. }
    destruct (n =s B "max-age").
    { injection H as <-. destruct (parse_max_age _) as [z|] eqn:E; [by apply parse_max_age_range in E | done]. }
    destruct (n =s B "domain").
    { injection H as <-. destruct (parse_domain _) as [d|] eqn:E; [by apply parse_domain_ok in E | done]. }
    destruct (_ && _ && _) eqn:Epath.
    { injection H as <-. apply andb_true_iff in Epath as [_ Hs]. destruct (path_ok v Hs). done. }
    destruct (n =s B "samesite"); [|by injection H as <-]. destruct (SameSite_from_str _) as [x|]; [|done]. by injection H as <-.
  - intros [= <-] Hok. unfold set_flag. by repeat case_match.
Qed.

Lemma for_attributes_ok ry ps c c' : Forall (without ";") ps -> for_parts trim_ows (parse_attribute ry) ps c = Ok c' -> ok c -> ok c'.
Proof.
  intros Hf. revert c. induction Hf as [|p ps Hp Hf IH]; intros c; cbn [for_parts]; [by intros [= <-]|]. cbv zeta.
  destruct (is_empty _); [apply IH|]. destruct (parse_attribute ry c _) as [c1|] eqn:E; [|done]. cbn [mbind result_bind].
  intros H Hc. apply (IH c1 H). eapply parse_attribute_ok; [|exact E|done]. by apply without_trim_ows.
Qed.

Lemma set_cookie_parsed s ry c : SetCookie_parse s ry = Ok c -> ok c.
Proof.
  unfold SetCookie_parse. cbv zeta. destruct (is_empty _); [done|]. pose proof (split_pieces ";" (trim_ows s)) as Hsp.
  destruct (split ";" (trim_ows s)) as [|p ps]; [done|]. cbn [hd_error ok_or mbind result_bind drop]. rewrite drop_0.
  destruct (parse_cookie_pair _) as [[n v]|] eqn:E; [|done]. cbn [mbind result_bind]. intros H. apply Forall_cons_iff in Hsp as [_ Hsp].
  eapply for_attributes_ok; [exact Hsp | exact H|]. split; [by apply parse_pair_ok in E | done].
Qed.
End Cookie.
