(* ===== verification/Digest.v ===== *)
(** * Digest fields ([src/digest_fields.rs]): Content-Digest, Repr-Digest and
    their Want- forms *)
From S2P Require Import Prelude RustStd Validate RustStr FieldList Base64.

Module Digest.

Inductive DigestFieldsError : Type :=
  | Empty | InvalidFormat | InvalidAlgorithm | InvalidByteSequence | InvalidBase64 | InvalidPreference.

Definition DigestFieldsError_fmt (e : DigestFieldsError) : str :=
  match e with
  | Empty => B "empty digest field"
  | InvalidFormat => B "invalid digest field format"
  | InvalidAlgorithm => B "invalid digest algorithm"
  | InvalidByteSequence => B "invalid digest byte sequence"
  | InvalidBase64 => B "invalid digest base64"
  | InvalidPreference => B "invalid digest preference"
  end.

Record DigestValue : Type := mkDigestValue { value_bytes : bytes }.
Record DigestEntry : Type := mkDigestEntry { algorithm : str; value : DigestValue }.
Record DigestPreference : Type := mkDigestPreference { p_algorithm : str; weight : N }.

Record ContentDigest : Type := mkContentDigest { items : list DigestEntry }.
Record ReprDigest : Type := mkReprDigest { r_items : list DigestEntry }.
Record WantContentDigest : Type := mkWantContentDigest { w_items : list DigestPreference }.
Record WantReprDigest : Type := mkWantReprDigest { wr_items : list DigestPreference }.

Definition DigestValue_fmt (v : DigestValue) : str := B ":" ++ Base64.encode (value_bytes v) ++ B ":".
Definition DigestEntry_fmt (e : DigestEntry) : str := algorithm e ++ B "=" ++ DigestValue_fmt (value e).
Definition DigestPreference_fmt (p : DigestPreference) : str := p_algorithm p ++ B "=" ++ show_dec (weight p).
Definition ContentDigest_fmt (d : ContentDigest) : str := join (B ", ") (map DigestEntry_fmt (items d)).
Definition ReprDigest_fmt (d : ReprDigest) : str := join (B ", ") (map DigestEntry_fmt (r_items d)).
Definition WantContentDigest_fmt (d : WantContentDigest) : str := join (B ", ") (map DigestPreference_fmt (w_items d)).
Definition WantReprDigest_fmt (d : WantReprDigest) : str := join (B ", ") (map DigestPreference_fmt (wr_items d)).

Definition parse_byte_sequence (input : str) : result DigestFieldsError DigestValue :=
  let input := trim input in
  rest ← ok_or InvalidByteSequence (strip_prefix (B ":") input);
  end_ ← ok_or InvalidByteSequence (find_byte ":" rest);
  let encoded := take end_ rest in
  if negb (is_empty (trim (drop (S end_) rest))) then Err InvalidByteSequence
  else
    bytes ← map_err (fun _ => InvalidBase64) (Base64.decode encoded);
    Ok (mkDigestValue bytes).

Definition parse_preference (input : str) : result DigestFieldsError N :=
  let input := trim input in
  if is_empty input then Err InvalidPreference
  else if negb (forallb is_ascii_digit input) then Err InvalidPreference
  else
    value ← ok_or InvalidPreference (parse_u8 input);
    if 10 <? value then Err InvalidPreference else Ok value.

(** The body of the loop of [parse_dictionary]. *)
Definition parse_member {T} (value_parser : str -> result DigestFieldsError T) (part : str) : result DigestFieldsError (str * T) :=
  '(algorithm, value) ← ok_or InvalidFormat (split_once "=" part);
  let algorithm := trim algorithm in
  if is_empty algorithm then Err InvalidAlgorithm
  else if negb (is_valid_token algorithm) then Err InvalidAlgorithm
  else
    value ← value_parser value;
    Ok (to_ascii_lowercase algorithm, value).

Definition parse_dictionary {T} (input : str) (value_parser : str -> result DigestFieldsError T) : result DigestFieldsError (list (str * T)) :=
  let input := trim input in
  if is_empty input then Err Empty
  else
    entries ← list_loop trim (parse_member value_parser) (split "," input);
    if is_empty entries then Err Empty else Ok entries.

Definition parse_digest_dictionary (input : str) : result DigestFieldsError (list DigestEntry) :=
  entries ← parse_dictionary input parse_byte_sequence;
  Ok (map (fun '(algorithm, value) => mkDigestEntry algorithm value) entries).
Definition parse_preference_dictionary (input : str) : result DigestFieldsError (list DigestPreference) :=
  entries ← parse_dictionary input parse_preference;
  Ok (map (fun '(algorithm, weight) => mkDigestPreference algorithm weight) entries).

Definition ContentDigest_parse (input : str) : result DigestFieldsError ContentDigest :=
  items ← parse_digest_dictionary input; Ok (mkContentDigest items).
Definition ReprDigest_parse (input : str) : result DigestFieldsError ReprDigest :=
  items ← parse_digest_dictionary input; Ok (mkReprDigest items).
Definition WantContentDigest_parse (input : str) : result DigestFieldsError WantContentDigest :=
  items ← parse_preference_dictionary input; Ok (mkWantContentDigest items).
Definition WantReprDigest_parse (input : str) : result DigestFieldsError WantReprDigest :=
  items ← parse_preference_dictionary input; Ok (mkWantReprDigest items).

Definition ContentDigest_get (d : ContentDigest) (algorithm_ : str) : option DigestValue :=
  let key := to_ascii_lowercase algorithm_ in
  value <$> List.find (fun item => algorithm item =s key) (items d).
Definition ReprDigest_get (d : ReprDigest) (algorithm_ : str) : option DigestValue :=
  let key := to_ascii_lowercase algorithm_ in
  value <$> List.find (fun item => algorithm item =s key) (r_items d).
Definition WantContentDigest_get (d : WantContentDigest) (algorithm_ : str) : option N :=
  let key := to_ascii_lowercase algorithm_ in
  weight <$> List.find (fun item => p_algorithm item =s key) (w_items d).
Definition WantReprDigest_get (d : WantReprDigest) (algorithm_ : str) : option N :=
  let key := to_ascii_lowercase algorithm_ in
  weight <$> List.find (fun item => p_algorithm item =s key) (wr_items d).

Example digest_ex :
  (d ← ContentDigest_parse (B "SHA-256=:YWJj: , x = :eg==:"); Ok (ContentDigest_fmt d, ContentDigest_get d (B "Sha-256"))) =
  Ok (B "sha-256=:YWJj:, x=:eg==:", Some (mkDigestValue (B "abc"))).
Proof. vm_compute. reflexivity. Qed.
Example preference_ex : WantContentDigest_parse (B "a=11") = Err InvalidPreference.
Proof. vm_compute. reflexivity. Qed.

(** ** What is written is read back *)

Section Dictionary.
Context {T : Type} (value_parser : str -> result DigestFieldsError T) (text : T -> str) (value_ok : T -> Prop).
Hypothesis value_text : forall v, value_ok v ->
  text_ends (text v) /\ contains_byte "," (text v) = false /\ value_parser (text v) = Ok v.
Hypothesis value_parsed : forall s v, value_parser s = Ok v -> value_ok v.

Definition member_text (m : str * T) : str := fst m ++ B "=" ++ text (snd m).
Definition member_ok (m : str * T) : Prop := is_valid_token (fst m) = true /\ to_ascii_lowercase (fst m) = fst m /\ value_ok (snd m).

Lemma member_parsed s m : parse_member value_parser s = Ok m -> member_ok m.
Proof.
  unfold parse_member. destruct (split_once _ _) as [[a v]|]; [|done]. cbn [ok_or mbind result_bind]. cbv zeta.
  destruct (is_empty _); [done|]. destruct (is_valid_token _) eqn:Et; [|done]. cbn [negb].
  destruct (value_parser v) as [x|] eqn:Ev; [|done]. cbn [mbind result_bind]. intros [= <-].
  split_and!; [by apply lower_valid_token | apply lower_idem | by eapply value_parsed].
Qed.

Lemma member_read_back m : member_ok m -> item_text (parse_member value_parser) member_text (without ",") m.
Proof.
  destruct m as [a v]. intros (Ha & Hl & Hv). cbn [fst snd] in *. destruct (value_text v Hv) as (He & Hc & Hp).
  unfold item_text, member_text. cbn [fst snd]. split_and!.
  - apply text_ends_mid; [by apply token_text_ends | done].
  - unfold without. rewrite !contains_byte_app, Hc, (token_no a) by done. done.
  - unfold parse_member. change (a ++ B "=" ++ ?r) with (a ++ "="%byte :: r). rewrite split_once_app by (by apply token_no).
    cbn [ok_or mbind result_bind]. cbv zeta. rewrite trim_token, token_not_empty, Ha, Hp by done. cbn. by rewrite Hl.
Qed.

Lemma dictionary_ok s ms : parse_dictionary s value_parser = Ok ms -> ms <> [] /\ Forall member_ok ms.
Proof.
  unfold parse_dictionary. cbv zeta. destruct (is_empty _); [done|]. destruct (list_loop _ _ _) as [l|] eqn:E; [|done].
  cbn [mbind result_bind]. destruct (is_empty l) eqn:En; [done|]. intros [= <-]. split; [by destruct l|].
  revert E. apply list_loop_ok, member_parsed.
Qed.

Lemma dictionary_text ms : ms <> [] -> Forall member_ok ms ->
  parse_dictionary (join (B ", ") (map member_text ms)) value_parser = Ok ms.
Proof.
  intros Hne Hf. apply (List.Forall_impl _ member_read_back) in Hf. unfold parse_dictionary. change (B ", ") with (sep ",").
  rewrite (trim_list_text trim "," Hf), (text_ends_not_empty _ (list_text_ends "," Hf Hne)). cbv zeta.
  rewrite (field_read_back trim (split ",") "," Hf). cbn [mbind result_bind]. by destruct ms.
Qed.
End Dictionary.

Lemma encode_visible s : forallb (fun b => is_ascii b && negb (byte_white b) && (b <>b ":") && (b <>b ",")) (Base64.encode s) = true.
Proof. pose proof (Base64.encode_alphabet s) as H. revert H. apply forallb_impl. intros b. byte_solve b. Qed.

Lemma byte_sequence_text v : True ->
  text_ends (DigestValue_fmt v) /\ contains_byte "," (DigestValue_fmt v) = false /\ parse_byte_sequence (DigestValue_fmt v) = Ok v.
Proof.
  intros _. unfold DigestValue_fmt. pose proof (encode_visible (value_bytes v)) as Hv. set (e := Base64.encode _) in *.
  assert (He : text_ends (B ":" ++ e ++ B ":")) by (apply text_ends_mid; (split; [by exists ":"%byte, [] | by exists [], ":"%byte])).
  assert (Hc : contains_byte ":" e = false /\ contains_byte "," e = false).
  { split; by apply (contains_byte_forallb _ e _ Hv). }
  destruct Hc as [Hc1 Hc2]. split_and!; [done | by rewrite !contains_byte_app, Hc2|].
  unfold parse_byte_sequence. rewrite (trim_text (tr := trim)) by done. cbv zeta.
  change (strip_prefix (B ":") (B ":" ++ e ++ B ":")) with (Some (e ++ ":"%byte :: [])). cbn [ok_or mbind result_bind].
  rewrite find_byte_app by done. cbn [ok_or mbind result_bind]. rewrite take_app_length, drop_past.
  change (trim []) with (@nil byte). cbn [is_empty negb]. unfold e. rewrite Base64.decode_encode. cbn. by destruct v.
Qed.

Lemma preference_text n : n <= 10 ->
  text_ends (show_dec n) /\ contains_byte "," (show_dec n) = false /\ parse_preference (show_dec n) = Ok n.
Proof.
  intros Hn. pose proof (show_dec_digits n) as Hd. pose proof (show_dec_not_nil n) as Hne.
  assert (He : text_ends (show_dec n)) by (apply visible_all; [done|]; revert Hd; apply forallb_impl; intros b; byte_solve b).
  split_and!; [done | by apply (contains_byte_forallb "," _ is_ascii_digit)|]. unfold parse_preference.
  rewrite (trim_text (tr := trim)), text_ends_not_empty, Hd by done. cbv zeta. cbn [negb]. unfold parse_u8.
  rewrite from_str_radix_digits, parse_digits_show by (done || unfold u8_MAX; lia). cbn [ok_or mbind result_bind].
  by assert ((10 <? n) = false) as -> by lia.
Qed.

Lemma preference_parsed s n : parse_preference s = Ok n -> n <= 10.
Proof.
  unfold parse_preference. cbv zeta. destruct (is_empty _); [done|]. destruct (negb _); [done|].
  destruct (parse_u8 _) as [m|]; [|done]. cbn [ok_or mbind result_bind]. destruct (10 <? m) eqn:E; [done|]. intros [= <-]. lia.
Qed.

(** The two pairs of types are parsed and written alike. *)
Lemma digest_dictionary_roundtrip s es : parse_digest_dictionary s = Ok es ->
  parse_digest_dictionary (join (B ", ") (map DigestEntry_fmt es)) = Ok es.
Proof.
  unfold parse_digest_dictionary. destruct (parse_dictionary s _) as [ms|] eqn:E; [|done].
  cbn [mbind result_bind]. intros [= <-]. apply (dictionary_ok _ (fun _ => True)) in E as [Hne Hf]; [|done].
  pose proof (dictionary_text _ DigestValue_fmt _ byte_sequence_text ms Hne Hf) as H.
  replace (map DigestEntry_fmt (map _ ms)) with (map (member_text DigestValue_fmt) ms); [by rewrite H|].
  rewrite map_map. apply map_ext. by intros [a v].
Qed.

Lemma preference_dictionary_roundtrip s ps : parse_preference_dictionary s = Ok ps ->
  parse_preference_dictionary (join (B ", ") (map DigestPreference_fmt ps)) = Ok ps.
Proof.
  unfold parse_preference_dictionary. destruct (parse_dictionary s _) as [ms|] eqn:E; [|done].
  cbn [mbind result_bind]. intros [= <-]. apply (dictionary_ok _ (fun n => n <= 10)) in E as [Hne Hf]; [|apply preference_parsed].
  pose proof (dictionary_text _ show_dec _ preference_text ms Hne Hf) as H.
  replace (map DigestPreference_fmt (map _ ms)) with (map (member_text show_dec) ms); [by rewrite H|].
  rewrite map_map. apply map_ext. by intros [a v].
Qed.

Lemma content_digest_roundtrip s d : ContentDigest_parse s = Ok d -> ContentDigest_parse (ContentDigest_fmt d) = Ok d.
Proof.
  unfold ContentDigest_parse. destruct (parse_digest_dictionary s) as [es|] eqn:E; [|done]. intros [= <-].
  apply digest_dictionary_roundtrip in E. unfold ContentDigest_fmt. cbn [items]. by rewrite E.
Qed.
Lemma repr_digest_roundtrip s d : ReprDigest_parse s = Ok d -> ReprDigest_parse (ReprDigest_fmt d) = Ok d.
Proof.
  unfold ReprDigest_parse. destruct (parse_digest_dictionary s) as [es|] eqn:E; [|done]. intros [= <-].
  apply digest_dictionary_roundtrip in E. unfold ReprDigest_fmt. cbn [r_items]. by rewrite E.
Qed.
Lemma want_content_roundtrip s d : WantContentDigest_parse s = Ok d -> WantContentDigest_parse (WantContentDigest_fmt d) = Ok d.
Proof.
  unfold WantContentDigest_parse. destruct (parse_preference_dictionary s) as [es|] eqn:E; [|done]. intros [= <-].
  apply preference_dictionary_roundtrip in E. unfold WantContentDigest_fmt. cbn [w_items]. by rewrite E.
Qed.
Lemma want_repr_roundtrip s d : WantReprDigest_parse s = Ok d -> WantReprDigest_parse (WantReprDigest_fmt d) = Ok d.
Proof.
  unfold WantReprDigest_parse. destruct (parse_preference_dictionary s) as [es|] eqn:E; [|done]. intros [= <-].
  apply preference_dictionary_roundtrip in E. unfold WantReprDigest_fmt. cbn [wr_items]. by rewrite E.
Qed.
End Digest.
