(* ===== verification/Accept.v ===== *)
(** * Content negotiation ([src/accept.rs]): Accept, Accept-Charset,
    Accept-Encoding and Accept-Language *)
From S2P Require Import Prelude RustStd Validate RustStr FieldList.

Module Accept.

Inductive AcceptError : Type :=
  | Empty | InvalidFormat | InvalidMediaRange | InvalidToken | InvalidParameter | UnterminatedQuote
  | InvalidQValue | InvalidLanguageTag.

Definition AcceptError_fmt (e : AcceptError) : str :=
  match e with
  | Empty => B "empty Accept header"
  | InvalidFormat => B "invalid Accept header format"
  | InvalidMediaRange => B "invalid media range"
  | InvalidToken => B "invalid token"
  | InvalidParameter => B "invalid parameter"
  | UnterminatedQuote => B "unterminated quoted-string"
  | InvalidQValue => B "invalid qvalue"
  | InvalidLanguageTag => B "invalid language tag"
  end.

Definition from_quoted (e : QuotedStringError) : AcceptError :=
  match e with
  | InvalidQdtext | InvalidQuotedPair => InvalidParameter
  | Unterminated => UnterminatedQuote
  end.

(** ** QValue: thousandths in a [u16] *)

Definition QValue : Type := N.

(** The sum of [digit * 10^(2 - idx)] over the digits, [idx] from [i] on; there
    are three digits at most. *)
Fixpoint q_digits (i : N) (s : str) : N :=
  match s with
  | [] => 0
  | c :: s' => (b2n c - 48) * 10 ^ (2 - i) + q_digits (i + 1) s'
  end.

Definition QValue_parse (input : str) : result AcceptError QValue :=
  let input := trim_ows input in
  if is_empty input then Err InvalidQValue
  else if input =s B "1" then Ok 1000
  else
    match strip_prefix (B "1.") input with
    | Some rest =>
        if is_empty rest then Ok 1000
        else if (3 <? blen rest) || negb (forallb (fun c => c =b "0") rest) then Err InvalidQValue
        else Ok 1000
    | None =>
        if input =s B "0" then Ok 0
        else
          match strip_prefix (B "0.") input with
          | Some rest =>
              if (3 <? blen rest) || negb (forallb is_ascii_digit rest) then Err InvalidQValue
              else Ok (q_digits 0 rest)
          | None => Err InvalidQValue
          end
    end.

Definition QValue_default : QValue := 1000.

Definition QValue_fmt (q : QValue) : str :=
  if q =? 1000 then B "1"
  else if q =? 0 then B "0"
  else B "0." ++ rev (skip_while (fun c => c =b "0") (rev (show_pad 3 q))).

(** ** Accept *)

Record MediaRange : Type := mkMediaRange {
  media_type : str;
  subtype : str;
  parameters : list (str * str);
  q : QValue;
}.
Record t : Type := mkAccept { items : list MediaRange }.

Definition needs_quoting (s : str) : bool := is_empty s || existsb (fun b => negb (is_token_char b)) s.

Definition parse_param_value (input : str) : result AcceptError str :=
  let input := trim_ows input in
  match strip_prefix [DQUOTE] input with
  | Some rest =>
      '(value, remaining) ← map_err from_quoted (parse_quoted_string rest);
      if negb (is_empty (trim_ows remaining)) then Err InvalidParameter else Ok value
  | None => if negb (is_valid_token input) then Err InvalidToken else Ok input
  end.

Definition parse_media_range (input : str) : result AcceptError (str * str) :=
  let input := trim_ows input in
  if input =s B "*/*" then Ok (B "*", B "*")
  else
    '(media_type, subtype) ← ok_or InvalidMediaRange (split_once "/" input);
    let media_type := trim_ows media_type in
    let subtype := trim_ows subtype in
    if media_type =s B "*" then
      if negb (subtype =s B "*") then Err InvalidMediaRange else Ok (B "*", B "*")
    else if subtype =s B "*" then
      if negb (is_valid_token media_type) then Err InvalidMediaRange
      else Ok (to_ascii_lowercase media_type, B "*")
    else if negb (is_valid_token media_type) || negb (is_valid_token subtype) then Err InvalidMediaRange
    else Ok (to_ascii_lowercase media_type, to_ascii_lowercase subtype).

(** The variables of the parameter loop of [parse_media_range_item]. *)
Record params_state : Type := mkParams { params : list (str * str); qvalue : QValue; q_seen : bool }.

Definition media_param (s : params_state) (param : str) : result AcceptError params_state :=
  '(name, value) ← ok_or InvalidParameter (split_once "=" param);
  let name := to_ascii_lowercase (trim_ows name) in
  value ← parse_param_value value;
  if name =s B "q" then
    if q_seen s then Err InvalidQValue
    else qvalue ← QValue_parse value; Ok (mkParams (params s) qvalue true)
  else Ok (mkParams (params s ++ [(name, value)]) (qvalue s) (q_seen s)).

Definition parse_media_range_item (input : str) : result AcceptError MediaRange :=
  let parts := split_with_quotes input ";" in
  let media := trim (default [] (hd_error parts)) in
  '(media_type, subtype) ← parse_media_range media;
  s ← for_parts trim_ows media_param (drop 1 parts) (mkParams [] QValue_default false);
  Ok (mkMediaRange media_type subtype (params s) (qvalue s)).

Definition parse (input : str) : result AcceptError t :=
  let input := trim_ows input in
  items ← (if negb (is_empty input) then list_loop trim_ows parse_media_range_item (split_with_quotes input ",") else Ok []);
  Ok (mkAccept items).

Definition q_fmt (q : QValue) : str := if q <? 1000 then B "; q=" ++ QValue_fmt q else [].

Definition param_fmt (p : str * str) : str :=
  let '(name, value) := p in
  if needs_quoting value then B "; " ++ name ++ B "=" ++ [DQUOTE] ++ escape_quotes value ++ [DQUOTE]
  else B "; " ++ name ++ B "=" ++ value.

Definition MediaRange_fmt (m : MediaRange) : str :=
  media_type m ++ B "/" ++ subtype m ++ flat_map param_fmt (parameters m) ++ q_fmt (q m).
Definition fmt (a : t) : str := join (B ", ") (map MediaRange_fmt (items a)).

(** ** Weighted tokens *)

Definition validate_token_or_star (token : str) : bool := if token =s B "*" then true else is_valid_token token.
Definition validate_language_range (token : str) : bool := if token =s B "*" then true else is_valid_language_tag token.

(** The body of the parameter loop, with [qvalue] and [q_seen]. *)
Definition weight_param (s : QValue * bool) (param : str) : result AcceptError (QValue * bool) :=
  '(name, value) ← ok_or InvalidParameter (split_once "=" param);
  if eq_ignore_ascii_case (trim_ows name) (B "q") then
    if snd s : bool then Err InvalidQValue
    else qvalue ← QValue_parse (trim_ows value); Ok (qvalue, true)
  else Err InvalidParameter.

(** The body of the loop of [parse_weighted_tokens]. *)
Definition weighted_token (validator : str -> bool) (lowercase allow_wildcard : bool) (part : str)
    : result AcceptError (str * QValue) :=
  let parts := split_with_quotes part ";" in
  let token := trim_ows (default [] (hd_error parts)) in
  if is_empty token then Err InvalidFormat
  else if (token =s B "*") && negb allow_wildcard then Err InvalidFormat
  else if negb (token =s B "*") && negb (validator token) then Err InvalidToken
  else
    '(qvalue, _) ← for_parts trim_ows weight_param (drop 1 parts) (QValue_default, false);
    let token_value := if lowercase && negb (token =s B "*") then to_ascii_lowercase token else token in
    Ok (token_value, qvalue).

Definition parse_weighted_tokens (input : str) (validator : str -> bool) (lowercase allow_wildcard : bool)
    : result AcceptError (list (str * QValue)) :=
  let input := trim_ows input in
  if is_empty input then Ok []
  else list_loop trim_ows (weighted_token validator lowercase allow_wildcard) (split_with_quotes input ",").

Record CharsetRange : Type := mkCharsetRange { charset : str; charset_q : QValue }.
Record AcceptCharset : Type := mkAcceptCharset { charsets : list CharsetRange }.
Definition AcceptCharset_parse (input : str) : result AcceptError AcceptCharset :=
  items ← parse_weighted_tokens input validate_token_or_star true true;
  Ok (mkAcceptCharset (map (fun '(value, q) => mkCharsetRange value q) items)).
Definition CharsetRange_fmt (r : CharsetRange) : str := charset r ++ q_fmt (charset_q r).
Definition AcceptCharset_fmt (a : AcceptCharset) : str := join (B ", ") (map CharsetRange_fmt (charsets a)).

Record EncodingRange : Type := mkEncodingRange { coding : str; coding_q : QValue }.
Record AcceptEncoding : Type := mkAcceptEncoding { codings : list EncodingRange }.
Definition AcceptEncoding_parse (input : str) : result AcceptError AcceptEncoding :=
  items ← parse_weighted_tokens input validate_token_or_star true true;
  Ok (mkAcceptEncoding (map (fun '(value, q) => mkEncodingRange value q) items)).
Definition EncodingRange_fmt (r : EncodingRange) : str := coding r ++ q_fmt (coding_q r).
Definition AcceptEncoding_fmt (a : AcceptEncoding) : str := join (B ", ") (map EncodingRange_fmt (codings a)).

Record LanguageRange : Type := mkLanguageRange { language : str; language_q : QValue }.
Record AcceptLanguage : Type := mkAcceptLanguage { languages : list LanguageRange }.
Definition AcceptLanguage_parse (input : str) : result AcceptError AcceptLanguage :=
  items ← parse_weighted_tokens input validate_language_range false true;
  Ok (mkAcceptLanguage (map (fun '(value, q) => mkLanguageRange value q) items)).
Definition LanguageRange_fmt (r : LanguageRange) : str := language r ++ q_fmt (language_q r).
Definition AcceptLanguage_fmt (a : AcceptLanguage) : str := join (B ", ") (map LanguageRange_fmt (languages a)).

Example accept_ex :
  (a ← parse (B "text/HTML;level=" ++ [DQUOTE] ++ B "1,2" ++ [DQUOTE] ++ B ";q=0.50 , */*;Q=0.8,image/*"); Ok (fmt a)) =
  Ok (B "text/html; level=" ++ [DQUOTE] ++ B "1,2" ++ [DQUOTE] ++ B "; q=0.5, */*; q=0.8, image/*").
Proof. vm_compute. reflexivity. Qed.
Example encoding_ex : (a ← AcceptEncoding_parse (B "GZIP;q=1.000, *;q=0."); Ok (AcceptEncoding_fmt a)) = Ok (B "gzip, *; q=0").
Proof. vm_compute. reflexivity. Qed.
Example language_ex : AcceptLanguage_parse (B "en-US;x=1") = Err InvalidParameter.
Proof. vm_compute. reflexivity. Qed.

(** ** Quality values *)

Lemma q_digits_bound s : forallb is_ascii_digit s = true -> blen s <= 3 -> q_digits 0 s <= 999.
Proof.
  assert (Hd : forall c, is_ascii_digit c = true -> b2n c - 48 <= 9) by (intros c; unfold is_ascii_digit, within; lia).
  destruct s as [|a [|b [|c [|e s]]]]; cbn [forallb]; rewrite ?andb_true_iff.
  1-4: intros H _; cbn [q_digits]; change (10 ^ (2 - 0)) with 100; change (10 ^ (2 - (0 + 1))) with 10; change (10 ^ (2 - (0 + 1 + 1))) with 1;
    try (pose proof (Hd a)); try (pose proof (Hd b)); try (pose proof (Hd c)); destruct_and?; lia.
  unfold blen. cbn [length]. lia.
Qed.

Lemma qvalue_bound s v : QValue_parse s = Ok v -> v <= 1000.
Proof.
  unfold QValue_parse. cbv zeta. destruct (is_empty _); [done|]. destruct (_ =s B "1"); [intros [= <-]; lia|].
  destruct (strip_prefix (B "1.") _) as [r|].
  { destruct (is_empty r); [intros [= <-]; lia|]. destruct (_ || _); [done|]. intros [= <-]. lia. }
  destruct (_ =s B "0"); [intros [= <-]; lia|]. destruct (strip_prefix (B "0.") _) as [r|]; [|done].
  destruct (_ || _) eqn:E; [done|]. apply orb_false_iff in E as [E1 E2]. apply negb_false_iff in E2.
  intros [= <-]. pose proof (q_digits_bound r E2 ltac:(lia)). lia.
Qed.

Lemma qvalue_text v : v <= 1000 -> QValue_parse (QValue_fmt v) = Ok v /\ is_valid_token (QValue_fmt v) = true.
Proof.
  intros Hv. assert (H : forallb (fun i => match QValue_parse (QValue_fmt (N.of_nat i)) with Ok n => n =? N.of_nat i | Err _ => false end
    && is_valid_token (QValue_fmt (N.of_nat i))) (seq 0 1001) = true) by (vm_compute; reflexivity).
  rewrite forallb_forall in H. specialize (H (N.to_nat v)). rewrite N2Nat.id in H.
  apply andb_true_iff in H as [H1 H2]; [|apply in_seq; lia]. destruct (QValue_parse _) as [n|]; [|done]. apply N.eqb_eq in H1 as ->. done.
Qed.

(** ** Media ranges are read back *)

Definition lower_token (s : str) : Prop := is_valid_token s = true /\ to_ascii_lowercase s = s.

Definition media_ok (mt st : str) : Prop := lower_token mt /\ lower_token st /\ (mt = B "*" -> st = B "*").

Definition param_ok (p : str * str) : Prop :=
  lower_token (fst p) /\ fst p <> B "q" /\ forallb is_quoted_pair_char (snd p) = true.

Definition range_ok (m : MediaRange) : Prop :=
  media_ok (media_type m) (subtype m) /\ Forall param_ok (parameters m) /\ q m <= 1000.

Definition param_text (p : str * str) : str := fst p ++ B "=" ++ value_text (snd p).
Definition q_pieces (v : QValue) : list str := if v <? 1000 then [B "q=" ++ QValue_fmt v] else [].
Definition pieces (m : MediaRange) : list str := map param_text (parameters m) ++ q_pieces (q m).
Definition media_text (m : MediaRange) : str := media_type m ++ B "/" ++ subtype m.

Lemma q_fmt_eq v : q_fmt v = concat (map (fun t => B "; " ++ t) (q_pieces v)).
Proof. unfold q_fmt, q_pieces. destruct (v <? 1000); [|done]. cbn [map concat]. by rewrite app_nil_r. Qed.

Lemma range_fmt_eq m : MediaRange_fmt m = join (sep ";") (media_text m :: pieces m).
Proof.
  rewrite join_concat. change (sep ";") with (B "; "). unfold MediaRange_fmt, media_text, pieces. rewrite <- !app_assoc. do 3 f_equal.
  rewrite map_app, concat_app, q_fmt_eq. f_equal.
  induction (parameters m) as [|[n v] ps IH]; [done|]. cbn [flat_map map concat]. rewrite IH. f_equal.
  unfold param_fmt, param_text, value_text, needs_quoting. cbn [fst snd]. by destruct (is_empty v || _).
Qed.

Lemma closed_byte d b : b <> DQUOTE -> b <> d -> closed d [b].
Proof. intros H1 H2. apply closed_plain. cbn [forallb]. rewrite andb_true_r, andb_true_iff, !negb_true_iff, !byte_eqb_neq. done. Qed.

(** The pieces of a range end visibly and hide the delimiters they contain. *)
Definition piece_ok (t : str) : Prop := text_ends t /\ closed ";" t /\ closed "," t.

Lemma param_piece p : param_ok p -> piece_ok (param_text p).
Proof.
  intros ([Hn _] & _ & _).
  assert (Hc : forall d, is_token_char d = false -> d <> DQUOTE -> "="%byte <> d -> closed d (param_text p)).
  { intros d Hd Hq He. apply closed_app; [by apply closed_token|]. apply closed_app; [by apply closed_byte | by apply value_text_closed]. }
  split_and!; [apply text_ends_mid; [by apply token_text_ends | apply value_text_ends] | by apply Hc | by apply Hc].
Qed.

Lemma q_pieces_ok v : v <= 1000 -> Forall piece_ok (q_pieces v).
Proof.
  intros Hv. destruct (qvalue_text v Hv) as [_ Ht]. unfold q_pieces. destruct (v <? 1000); constructor; [|constructor]. split_and!.
  - destruct (token_ends _ Ht) as [_ He]. split; [by eexists _, _ | by apply visible_end_app].
  - apply closed_app; [by apply closed_plain | by apply closed_token].
  - apply closed_app; [by apply closed_plain | by apply closed_token].
Qed.

Lemma pieces_ok m : range_ok m -> Forall piece_ok (pieces m).
Proof.
  intros (_ & Hf & Hv). apply Forall_app. split; [|by apply q_pieces_ok]. apply Forall_map. revert Hf. apply List.Forall_impl, param_piece.
Qed.

Lemma parse_param_value_text v : forallb is_quoted_pair_char v = true -> parse_param_value (value_text v) = Ok v.
Proof.
  intros Hv. unfold parse_param_value. rewrite (trim_text (tr := trim_ows)) by apply value_text_ends. cbv zeta.
  destruct (value_text_cases v) as [[-> Ht]| ->].
  - rewrite Ht. destruct v as [|b v]; [done|]. cbn [strip_prefix]. apply is_valid_token_iff in Ht as [_ Ht].
    apply andb_true_iff in Ht as [Hb _]. assert ((DQUOTE =b b) = false) as ->; [|done]. revert Hb. clear. byte_solve b.
  - cbn [app strip_prefix]. rewrite byte_eqb_refl. change (escape_quotes v ++ [DQUOTE]) with (escape_quotes v ++ DQUOTE :: []).
    by rewrite parse_quoted_escape.
Qed.

Lemma value_text_token v : is_valid_token v = true -> value_text v = v.
Proof.
  intros Hv. unfold value_text. rewrite token_not_empty by done. apply is_valid_token_iff in Hv as [_ Hf].
  rewrite existsb_negb_forallb, (forallb_ext_eq _ is_token_char), Hf by (intros; apply negb_involutive). done.
Qed.

Lemma media_param_text s p : param_ok p -> media_param s (param_text p) = Ok (mkParams (params s ++ [p]) (qvalue s) (q_seen s)).
Proof.
  destruct p as [n v]. intros ([Hn Hl] & Hq & Hv). cbn [fst snd] in *. unfold media_param, param_text. cbn [fst snd].
  change (n ++ B "=" ++ ?r) with (n ++ "="%byte :: r). rewrite split_once_app by (by apply token_no). cbn [ok_or mbind result_bind]. cbv zeta.
  rewrite (trim_text (tr := trim_ows)) by (by apply token_text_ends). rewrite parse_param_value_text, Hl by done. cbn [mbind result_bind].
  apply beqs_neq in Hq. by rewrite Hq.
Qed.

Lemma media_param_q s v : v <= 1000 -> q_seen s = false -> media_param s (B "q=" ++ QValue_fmt v) = Ok (mkParams (params s) v true).
Proof.
  intros Hv Hs. destruct (qvalue_text v Hv) as [Hp Ht]. unfold media_param.
  change (split_once "=" (B "q=" ++ QValue_fmt v)) with (Some (B "q", QValue_fmt v)). cbn [ok_or mbind result_bind]. cbv zeta.
  pose proof (parse_param_value_text (QValue_fmt v) ltac:(by apply token_quotable)) as Hval. rewrite value_text_token in Hval by done.
  rewrite Hval. cbn [mbind result_bind]. change (to_ascii_lowercase (trim_ows (B "q")) =s B "q") with true. cbv iota. by rewrite Hs, Hp.
Qed.

Lemma run_pieces ps v s : Forall param_ok ps -> v <= 1000 -> q_seen s = false -> qvalue s = 1000 ->
  exists b, run media_param (map param_text ps ++ q_pieces v) s = Ok (mkParams (params s ++ ps) v b).
Proof.
  intros Hf Hv. revert s. induction Hf as [|p ps Hp Hf IH]; intros s Hs Hq; cbn [map app run].
  - unfold q_pieces. destruct (v <? 1000) eqn:E; cbn [run].
    + exists true. rewrite media_param_q by done. cbn. by rewrite app_nil_r.
    + exists false. rewrite app_nil_r. destruct s as [ps q0 b]. cbn in *. subst. replace v with 1000 by lia. done.
  - rewrite media_param_text by done. cbn [mbind result_bind].
    destruct (IH (mkParams (params s ++ [p]) (qvalue s) (q_seen s)) Hs Hq) as [b Hb]. exists b. rewrite Hb. cbn. by rewrite <- app_assoc.
Qed.

Lemma parse_media_text mt st : media_ok mt st -> parse_media_range (mt ++ B "/" ++ st) = Ok (mt, st).
Proof.
  intros ([Hm Lm] & [Hs Ls] & Hstar). unfold parse_media_range.
  rewrite (trim_text (tr := trim_ows)) by (apply text_ends_mid; by apply token_text_ends). cbv zeta.
  assert (Hsp : split_once "/" (mt ++ B "/" ++ st) = Some (mt, st)) by (apply split_once_app; by apply token_no).
  destruct (_ =s B "*/*") eqn:E.
  - apply beqs_eq in E. rewrite E in Hsp. by injection Hsp as <- <-.
  - rewrite Hsp. cbn [ok_or mbind result_bind].
    rewrite !(trim_text (tr := trim_ows)) by (by apply token_text_ends). destruct (mt =s B "*") eqn:Em.
    + apply beqs_eq in Em as ->. by rewrite Hstar.
    + destruct (st =s B "*") eqn:Es; [apply beqs_eq in Es as ->; by rewrite Hm, Lm|]. by rewrite Hm, Hs, Lm, Ls.
Qed.

Lemma media_piece m : media_ok (media_type m) (subtype m) -> piece_ok (media_text m).
Proof.
  intros ([Hm _] & [Hs _] & _).
  assert (Hc : forall d, is_token_char d = false -> "/"%byte <> d -> closed d (media_text m)).
  { intros d Hd Hn. apply closed_app; [by apply closed_token|]. apply closed_app; [by apply closed_byte | by apply closed_token]. }
  split_and!; [apply text_ends_mid; by apply token_text_ends | by apply Hc | by apply Hc].
Qed.

(** Pieces in a list: what the outer and the inner splitting need. *)
Lemma accept_pieces_join t ts : piece_ok t -> Forall piece_ok ts ->
  text_ends (join (sep ";") (t :: ts)) /\ closed "," (join (sep ";") (t :: ts)) /\
  split_with_quotes (join (sep ";") (t :: ts)) ";" = t :: map (fun y => " "%byte :: y) ts.
Proof.
  intros (Ht & Hc1 & Hc2) Hts. split_and!.
  - apply texts_join_ends; [done|]. revert Hts. apply List.Forall_impl. by intros u (? & _).
  - rewrite join_concat. apply closed_app; [done|]. induction Hts as [|u us (_ & _ & Hu) _ IH]; [by apply (closed_plain "," [])|].
    cbn [map concat]. apply closed_app; [|done]. apply closed_app; [by apply closed_plain | done].
  - apply (split_texts (sp := fun s => split_with_quotes s ";") (d := ";") (piece := closed ";") (t :: ts)).
    constructor; [done|]. revert Hts. apply List.Forall_impl. by intros u (_ & ? & _).
Qed.

Lemma spaced_run {S} (body : S -> str -> result AcceptError S) ts s :
  Forall piece_ok ts -> for_parts trim_ows body (map (fun y => " "%byte :: y) ts) s = run body ts s.
Proof.
  intros Hts. apply for_parts_run. revert Hts. apply List.Forall_impl. intros u (Hu & _).
  split; [by apply (trim_space_text (tr := trim_ows))|]. by destruct Hu as [(? & ? & -> & _) _].
Qed.

Lemma range_read_back m : range_ok m -> item_text parse_media_range_item MediaRange_fmt (closed ",") m.
Proof.
  intros Hok. pose proof (pieces_ok m Hok) as Hp. destruct Hok as (Hm & Hps & Hq). pose proof (media_piece m Hm) as Hmp.
  destruct (accept_pieces_join _ _ Hmp Hp) as (He & Hc & Hs). unfold item_text. rewrite range_fmt_eq. split_and!; [done | done|].
  unfold parse_media_range_item. rewrite Hs. cbn [hd_error default from_option id]. cbv zeta.
  rewrite (trim_text (tr := trim)) by apply Hmp. unfold media_text. rewrite parse_media_text by done.
  cbn [mbind result_bind drop]. rewrite drop_0, spaced_run by done.
  destruct (run_pieces (parameters m) (q m) (mkParams [] QValue_default false) Hps Hq) as [b Hb]; [done..|].
  fold (pieces m) in Hb. rewrite Hb. cbn. by destruct m.
Qed.

(** ** What is parsed can be written *)

Lemma lower_star s : s <> B "*" -> to_ascii_lowercase s <> B "*".
Proof.
  intros Hs Hl. apply Hs. destruct s as [|b [|c s]]; [done| |done]. injection Hl as Hb. f_equal. revert Hb. clear. byte_solve b.
Qed.

Lemma range_lower_is_lower s : is_valid_token s = true -> lower_token (to_ascii_lowercase s).
Proof. intros H. split; [by apply lower_valid_token | apply lower_idem]. Qed.

Lemma media_parsed s mt st : parse_media_range s = Ok (mt, st) -> media_ok mt st.
Proof.
  assert (Hstar : lower_token (B "*")) by done. unfold parse_media_range. cbv zeta.
  destruct (_ =s B "*/*"); [by intros [= <- <-]|]. destruct (split_once _ _) as [[a b]|]; [|done]. cbn [ok_or mbind result_bind].
  destruct (trim_ows a =s B "*") eqn:Ea; [destruct (trim_ows b =s B "*"); cbn [negb]; [by intros [= <- <-] | done]|]. apply beqs_neq in Ea.
  destruct (trim_ows b =s B "*") eqn:Eb.
  - destruct (is_valid_token _) eqn:Et; [|done]. intros [= <- <-]. split_and!; [by apply range_lower_is_lower | done | done].
  - destruct (is_valid_token (trim_ows a)) eqn:Eta; [|done]. destruct (is_valid_token (trim_ows b)) eqn:Etb; [|done]. intros [= <- <-].
    split_and!; [by apply range_lower_is_lower | by apply range_lower_is_lower|]. intros H. exfalso. by apply (lower_star _ Ea).
Qed.

Lemma param_value_parsed s v : parse_param_value s = Ok v -> forallb is_quoted_pair_char v = true.
Proof.
  unfold parse_param_value. cbv zeta. destruct (strip_prefix _ _) as [rest|].
  - destruct (parse_quoted_string rest) as [[w r]|] eqn:E; [|done]. cbn [map_err mbind result_bind]. destruct (negb _); [done|].
    intros [= <-]. by eapply parse_quoted_quotable.
  - destruct (is_valid_token _) eqn:E; [|done]. intros [= <-]. by apply token_quotable.
Qed.

Definition state_ok (s : params_state) : Prop :=
  Forall (fun p => to_ascii_lowercase (fst p) = fst p /\ fst p <> B "q" /\ forallb is_quoted_pair_char (snd p) = true) (params s) /\
  qvalue s <= 1000.

Lemma media_param_ok s p s' : media_param s p = Ok s' -> state_ok s -> state_ok s'.
Proof.
  unfold media_param. destruct (split_once _ _) as [[n v]|]; [|done]. cbn [ok_or mbind result_bind]. cbv zeta.
  destruct (parse_param_value v) as [w|] eqn:Ev; [|done]. cbn [mbind result_bind]. apply param_value_parsed in Ev.
  destruct (_ =s B "q") eqn:Eq.
  - destruct (q_seen s); [done|]. destruct (QValue_parse w) as [x|] eqn:Ex; [|done]. intros [= <-] [H1 H2].
    split; [done | by eapply qvalue_bound].
  - intros [= <-] [H1 H2]. split; [|done]. apply Forall_app. split; [done|]. constructor; [|constructor].
    apply beqs_neq in Eq. split_and!; [apply lower_idem | done | done].
Qed.

Lemma for_params_ok {S} (body : S -> str -> result AcceptError S) (P : S -> Prop) ps :
  (forall s p s', body s p = Ok s' -> P s -> P s') ->
  forall s s', for_parts trim_ows body ps s = Ok s' -> P s -> P s'.
Proof.
  intros Hb. induction ps as [|p ps IH]; intros s s'; cbn [for_parts]; [by intros [= <-]|]. cbv zeta.
  destruct (is_empty _); [apply IH|]. destruct (body s _) as [s1|] eqn:E; [|done]. cbn [mbind result_bind].
  intros H Hs. eapply IH; [exact H|]. by eapply Hb.
Qed.

Definition named (m : MediaRange) : Prop := Forall (fun p => is_valid_token (fst p) = true) (parameters m).

Lemma range_parsed s m : parse_media_range_item s = Ok m -> named m -> range_ok m.
Proof.
  unfold parse_media_range_item. cbv zeta. destruct (parse_media_range _) as [[mt st]|] eqn:Em; [|done]. cbn [mbind result_bind].
  destruct (for_parts _ _ _ _) as [ps|] eqn:Ef; [|done]. cbn [mbind result_bind]. intros [= <-] Hn.
  apply (for_params_ok media_param state_ok) in Ef as [H1 H2]; [|apply media_param_ok | split; [constructor | unfold QValue_default; cbn; lia]].
  split_and!; [by eapply media_parsed | | done]. cbn [parameters] in *. unfold named in Hn. cbn [parameters] in Hn.
  apply List.Forall_forall. intros p Hp. rewrite List.Forall_forall in H1, Hn. destruct (H1 p Hp) as (Hl & Hq & Hv). by split_and!; [split; [apply Hn|]| |].
Qed.

Lemma list_loop_in {E A} tr (item : str -> result E A) parts xs :
  list_loop tr item parts = Ok xs -> Forall (fun x => exists t, item t = Ok x) xs.
Proof. apply list_loop_ok. intros t x H. by exists t. Qed.

Lemma accept_roundtrip s a : parse s = Ok a -> Forall named (items a) -> parse (fmt a) = Ok a.
Proof.
  unfold parse. cbv zeta. intros H Hn. assert (Hf : Forall range_ok (items a)).
  { destruct (negb _); [|by injection H as <-]. destruct (list_loop _ _ _) as [ms|] eqn:E; [|done]. injection H as <-.
    apply list_loop_in in E. cbn [items] in *. apply List.Forall_forall. intros m Hm. rewrite List.Forall_forall in E, Hn.
    destruct (E m Hm) as [t Ht]. eapply range_parsed; [exact Ht | by apply Hn]. }
  clear H Hn. apply (List.Forall_impl _ range_read_back) in Hf. destruct a as [ms]. unfold fmt. cbn [items] in *.
  change (B ", ") with (sep ","). rewrite (trim_list_text trim_ows "," Hf). destruct ms as [|m ms]; [done|].
  rewrite (text_ends_not_empty _ (list_text_ends "," Hf ltac:(done))). cbn [negb].
  by rewrite (field_read_back trim_ows (fun s => split_with_quotes s ",") "," Hf).
Qed.

(** ** Weighted tokens *)

Lemma weight_param_q v : v <= 1000 -> weight_param (QValue_default, false) (B "q=" ++ QValue_fmt v) = Ok (v, true).
Proof.
  intros Hv. destruct (qvalue_text v Hv) as [Hp Ht]. unfold weight_param.
  change (split_once "=" (B "q=" ++ QValue_fmt v)) with (Some (B "q", QValue_fmt v)). cbn [ok_or mbind result_bind].
  change (eq_ignore_ascii_case (trim_ows (B "q")) (B "q")) with true. cbv iota. cbn [snd].
  rewrite (trim_text (tr := trim_ows)) by (by apply token_text_ends). by rewrite Hp.
Qed.

Section Weighted.
Context (validator : str -> bool) (lowercase : bool).
Hypothesis validator_piece : forall s, validator s = true -> piece_ok s.
Hypothesis validator_lower : forall s, lowercase = true -> validator s = true -> validator (to_ascii_lowercase s) = true.

Definition weighted_ok (x : str * QValue) : Prop :=
  (fst x = B "*" \/ validator (fst x) = true) /\ (lowercase = true -> to_ascii_lowercase (fst x) = fst x) /\ snd x <= 1000.
Definition weighted_text (x : str * QValue) : str := fst x ++ q_fmt (snd x).

Lemma weighted_read_back x : weighted_ok x -> item_text (weighted_token validator lowercase true) weighted_text (closed ",") x.
Proof.
  destruct x as [tk v]. intros (Htk & Hl & Hv). cbn [fst snd] in *.
  assert (Hp : piece_ok tk).
  { destruct Htk as [->|Htk]; [|by apply validator_piece]. split_and!; [by apply token_text_ends | by apply closed_plain | by apply closed_plain]. }
  destruct (accept_pieces_join tk (q_pieces v) Hp (q_pieces_ok v Hv)) as (He & Hc & Hs).
  assert (Ht : weighted_text (tk, v) = join (sep ";") (tk :: q_pieces v)) by (unfold weighted_text; cbn [fst snd]; by rewrite join_concat, q_fmt_eq).
  unfold item_text. rewrite Ht. split_and!; [done | done|]. unfold weighted_token. rewrite Hs. cbn [hd_error default from_option id]. cbv zeta.
  destruct Hp as [Hpe _]. rewrite (trim_text (tr := trim_ows)), text_ends_not_empty by done. rewrite andb_false_r.
  assert (negb (tk =s B "*") && negb (validator tk) = false) as ->.
  { destruct Htk as [->|Htk]; [done|]. by rewrite Htk, andb_false_r. }
  cbn [drop]. rewrite drop_0, spaced_run by (by apply q_pieces_ok).
  assert (exists b, run weight_param (q_pieces v) (QValue_default, false) = Ok (v, b)) as [b ->].
  { unfold q_pieces. destruct (v <? 1000) eqn:E; cbn [run]; [exists true; by rewrite weight_param_q|].
    exists false. unfold QValue_default. by replace v with 1000 by lia. }
  cbn [mbind result_bind]. destruct lowercase; [|done]. rewrite Hl by done. by destruct (negb _).
Qed.

Lemma weighted_parsed s x : weighted_token validator lowercase true s = Ok x -> weighted_ok x.
Proof.
  unfold weighted_token. cbv zeta. set (tk := trim_ows _). destruct (is_empty tk); [done|]. rewrite andb_false_r.
  destruct (negb (tk =s B "*") && negb (validator tk)) eqn:Ev; [done|]. destruct (for_parts _ _ _ _) as [[v b]|] eqn:Ef; [|done].
  cbn [mbind result_bind]. intros [= <-]. apply (for_params_ok weight_param (fun s => fst s <= 1000)) in Ef.
  2:{ clear. intros s p s'. unfold weight_param. destruct (split_once _ _) as [[n w]|]; [|done]. cbn [ok_or mbind result_bind].
      destruct (eq_ignore_ascii_case _ _); [|done]. destruct (snd s); [done|]. destruct (QValue_parse _) as [y|] eqn:E; [|done].
      intros [= <-] _. by eapply qvalue_bound. }
  2:{ cbn. unfold QValue_default. lia. }
  cbn [fst] in Ef. unfold weighted_ok. cbn [fst snd]. apply andb_false_iff in Ev. rewrite !negb_false_iff in Ev.
  destruct (tk =s B "*") eqn:Es.
  - apply beqs_eq in Es. rewrite andb_false_r. split_and!; [by left | intros _; by rewrite Es | done].
  - destruct Ev as [?|Ev]; [done|]. rewrite andb_true_r. destruct lowercase eqn:El.
    + split_and!; [right; by apply validator_lower | intros _; apply lower_idem | done].
    + split_and!; [by right | done | done].
Qed.

Lemma weighted_roundtrip s xs : parse_weighted_tokens s validator lowercase true = Ok xs ->
  parse_weighted_tokens (join (B ", ") (map weighted_text xs)) validator lowercase true = Ok xs.
Proof.
  unfold parse_weighted_tokens. cbv zeta. intros H. assert (Hf : Forall weighted_ok xs).
  { destruct (is_empty _); [by injection H as <-|]. revert H. apply list_loop_ok, weighted_parsed. }
  clear H. apply (List.Forall_impl _ weighted_read_back) in Hf. change (B ", ") with (sep ",").
  rewrite (trim_list_text trim_ows "," Hf). destruct xs as [|x xs]; [done|].
  rewrite (text_ends_not_empty _ (list_text_ends "," Hf ltac:(done))).
  by rewrite (field_read_back trim_ows (fun s => split_with_quotes s ",") "," Hf).
Qed.
End Weighted.

Lemma token_validator s : validate_token_or_star s = true -> piece_ok s.
Proof.
  unfold validate_token_or_star. destruct (s =s B "*") eqn:E.
  - apply beqs_eq in E as ->. intros _. split_and!; [by apply token_text_ends | by apply closed_plain | by apply closed_plain].
  - intros Hs. split_and!; [by apply token_text_ends | by apply closed_token | by apply closed_token].
Qed.

Lemma token_validator_lower s : true = true -> validate_token_or_star s = true -> validate_token_or_star (to_ascii_lowercase s) = true.
Proof.
  intros _. unfold validate_token_or_star. destruct (s =s B "*") eqn:E; [by apply beqs_eq in E as ->|]. intros Hs.
  destruct (to_ascii_lowercase s =s B "*"); [done | by apply lower_valid_token].
Qed.

Lemma language_validator s : validate_language_range s = true -> piece_ok s.
Proof.
  unfold validate_language_range. destruct (s =s B "*") eqn:E.
  - apply beqs_eq in E as ->. intros _. split_and!; [by apply token_text_ends | by apply closed_plain | by apply closed_plain].
  - intros [Hne Hc]%language_tag_chars. split_and!.
    + apply visible_all; [done|]. revert Hc. apply forallb_impl. intros b. byte_solve b.
    + apply closed_plain. revert Hc. apply forallb_impl. intros b. byte_solve b.
    + apply closed_plain. revert Hc. apply forallb_impl. intros b. byte_solve b.
Qed.

Lemma charset_roundtrip s a : AcceptCharset_parse s = Ok a -> AcceptCharset_parse (AcceptCharset_fmt a) = Ok a.
Proof.
  unfold AcceptCharset_parse. destruct (parse_weighted_tokens s _ _ _) as [xs|] eqn:E; [|done]. cbn [mbind result_bind]. intros [= <-].
  apply (weighted_roundtrip _ true token_validator token_validator_lower) in E. unfold AcceptCharset_fmt. cbn [charsets].
  rewrite map_map, (map_ext _ weighted_text) by (by intros [v w]). by rewrite E.
Qed.

Lemma encoding_roundtrip s a : AcceptEncoding_parse s = Ok a -> AcceptEncoding_parse (AcceptEncoding_fmt a) = Ok a.
Proof.
  unfold AcceptEncoding_parse. destruct (parse_weighted_tokens s _ _ _) as [xs|] eqn:E; [|done]. cbn [mbind result_bind]. intros [= <-].
  apply (weighted_roundtrip _ true token_validator token_validator_lower) in E. unfold AcceptEncoding_fmt. cbn [codings].
  rewrite map_map, (map_ext _ weighted_text) by (by intros [v w]). by rewrite E.
Qed.

Lemma language_roundtrip s a : AcceptLanguage_parse s = Ok a -> AcceptLanguage_parse (AcceptLanguage_fmt a) = Ok a.
Proof.
  unfold AcceptLanguage_parse. destruct (parse_weighted_tokens s _ _ _) as [xs|] eqn:E; [|done]. cbn [mbind result_bind]. intros [= <-].
  apply (weighted_roundtrip _ false language_validator) in E; [|done]. unfold AcceptLanguage_fmt. cbn [languages].
  rewrite map_map, (map_ext _ weighted_text) by (by intros [v w]). by rewrite E.
Qed.
End Accept.
