(* ===== verification/Multipart.v ===== *)
(** * multipart/form-data ([src/multipart.rs])

    The incremental parser with its buffer, position and scan offset, and the
    builder. *)
From S2P Require Import Prelude RustStd Validate RustStr FieldList ContentType ContentDisposition.

Module Multipart.

Inductive MultipartError : Type :=
  | Empty
  | InvalidBoundary
  | InvalidHeader
  | InvalidPart
  | Incomplete
  | MissingContentDisposition
  | InvalidContentDisposition
  | MissingName
  | BufferOverflow (size limit : N).

Definition MultipartError_fmt (e : MultipartError) : str :=
  match e with
  | Empty => B "empty multipart body"
  | InvalidBoundary => B "invalid boundary"
  | InvalidHeader => B "invalid part header"
  | InvalidPart => B "invalid part"
  | Incomplete => B "incomplete multipart data"
  | MissingContentDisposition => B "missing Content-Disposition header (RFC 7578 Section 4.2)"
  | InvalidContentDisposition => B "Content-Disposition type must be form-data (RFC 7578 Section 4.2)"
  | MissingName => B "Content-Disposition must contain name parameter (RFC 7578 Section 4.2)"
  | BufferOverflow size limit => B "buffer overflow: size=" ++ show_dec size ++ B ", limit=" ++ show_dec limit
  end.

(** ** Parts *)

Record Part : Type := mkPart {
  content_disposition : option ContentDisposition.t;
  content_type : option ContentType.t;
  headers : list (str * str);
  body : bytes;
}.

(** [r.ok()]. *)
Definition ok_of {E A} (r : result E A) : option A := match r with Ok a => Some a | Err _ => None end.

Definition Part_new (name : str) : Part :=
  mkPart (Some (ContentDisposition.with_name (ContentDisposition.new ContentDisposition.FormData) name)) None [] [].

Definition Part_file (name filename content_type : str) : Part :=
  let ct := ok_of (ContentType.parse content_type) in
  mkPart
    (Some (ContentDisposition.with_filename
             (ContentDisposition.with_name (ContentDisposition.new ContentDisposition.FormData) name) filename))
    ct [] [].

Definition with_body (p : Part) (body : bytes) : Part := mkPart (content_disposition p) (content_type p) (headers p) body.
Definition with_content_type (p : Part) (ct : ContentType.t) : Part := mkPart (content_disposition p) (Some ct) (headers p) (body p).

Definition name (p : Part) : option str := cd ← content_disposition p; ContentDisposition.name cd.
Definition filename (p : Part) : option str := cd ← content_disposition p; ContentDisposition.filename cd.
Definition body_str (p : Part) : option str := ok_of (from_utf8 (body p)).
Definition is_file (p : Part) : bool := is_some (filename p).

(** ** The parser *)

Inductive ParserState : Type := Initial | InPart | AfterInnerDelimiter | Finished.

Record MultipartParser : Type := mkParser {
  first_delimiter : bytes;
  inner_delimiter : bytes;
  buffer : bytes;
  pos : nat;
  state : ParserState;
  finished : bool;
  max_buffer_size : N;
  boundary_scan_offset : nat;
}.

Definition is_valid_boundary_char (b : byte) : bool :=
  within 65 90 b || within 97 122 b || within 48 57 b || (b =b "'") || (b =b "(") || (b =b ")") || (b =b "+") || (b =b "_")
  || (b =b ",") || (b =b "-") || (b =b ".") || (b =b "/") || (b =b ":") || (b =b "=") || (b =b "?") || (b =b " ").

Definition is_valid_boundary (boundary : str) : bool :=
  if is_empty boundary || (70 <? blen boundary) then false
  else if negb (forallb is_valid_boundary_char boundary) then false
  else negb (List.last boundary "000"%byte =b " ").

Definition new (boundary : str) : MultipartParser :=
  mkParser (B "--" ++ boundary) (["013"; "010"]%byte ++ B "--" ++ boundary) [] 0 Initial false (10 * 1024 * 1024) 0.

Definition with_max_buffer_size (p : MultipartParser) (max_buffer_size : N) : MultipartParser :=
  mkParser (first_delimiter p) (inner_delimiter p) (buffer p) (pos p) (state p) (finished p) max_buffer_size (boundary_scan_offset p).

Definition try_new (boundary : str) : result MultipartError MultipartParser :=
  if negb (is_valid_boundary boundary) then Err InvalidBoundary else Ok (new boundary).

Definition set_buffer (buffer : bytes) (p : MultipartParser) : MultipartParser :=
  mkParser (first_delimiter p) (inner_delimiter p) buffer (pos p) (state p) (finished p) (max_buffer_size p) (boundary_scan_offset p).
Definition set_pos (pos : nat) (p : MultipartParser) : MultipartParser :=
  mkParser (first_delimiter p) (inner_delimiter p) (buffer p) pos (state p) (finished p) (max_buffer_size p) (boundary_scan_offset p).
Definition set_state (state : ParserState) (p : MultipartParser) : MultipartParser :=
  mkParser (first_delimiter p) (inner_delimiter p) (buffer p) (pos p) state (finished p) (max_buffer_size p) (boundary_scan_offset p).
Definition set_finished (p : MultipartParser) : MultipartParser :=
  mkParser (first_delimiter p) (inner_delimiter p) (buffer p) (pos p) Finished true (max_buffer_size p) (boundary_scan_offset p).
Definition set_scan (offset : nat) (p : MultipartParser) : MultipartParser :=
  mkParser (first_delimiter p) (inner_delimiter p) (buffer p) (pos p) (state p) (finished p) (max_buffer_size p) offset.

Definition parser : Type -> Type := st MultipartParser MultipartError.

(** [len - pos] panics on underflow in a debug build. *)
Definition feed (data : bytes) : parser unit :=
  p ← get;
  effective ← unwrap (if (pos p <=? length (buffer p))%nat then Some (blen (buffer p) - N.of_nat (pos p)) else None);
  let new_size := N.min usize_MAX (effective + blen data) in
  if max_buffer_size p <? new_size then throw (BufferOverflow new_size (max_buffer_size p))
  else modify (set_buffer (buffer p ++ data)).

Definition is_finished (p : MultipartParser) : bool := finished p.

(** [&v[start..]] and [&v[start..end]]. *)
Definition slice_from (start : nat) (v : bytes) : option bytes :=
  if (start <=? length v)%nat then Some (drop start v) else None.
Definition slice (start end_ : nat) (v : bytes) : option bytes :=
  if (start <=? end_)%nat && (end_ <=? length v)%nat then Some (take (end_ - start) (drop start v)) else None.

(** The loop of [find_bytes] from index [i]; it goes round at most once for each
    byte of the haystack. *)
Fixpoint find_bytes_loop (fuel i max_start : nat) (first : byte) (haystack needle : bytes) : option nat :=
  match fuel with
  | O => None
  | S fuel' =>
      if (i <=? max_start)%nat then
        match position (fun b => b =b first) (take (S max_start - i) (drop i haystack)) with
        | Some offset =>
            let i := (i + offset)%nat in
            if take (length needle) (drop i haystack) =s needle then Some i
            else find_bytes_loop fuel' (i + 1) max_start first haystack needle
        | None => None
        end
      else None
  end.

Definition find_bytes (haystack needle : bytes) : option nat :=
  match needle with
  | [] => Some O
  | first :: _ =>
      if (length haystack <? length needle)%nat then None
      else find_bytes_loop (S (length haystack)) 0 (length haystack - length needle) first haystack needle
  end.

(** [padded] after the loop that skips transport padding from [i]. *)
Definition is_padding (b : byte) : bool := (b =b " ") || (b =b "009").
Definition skip_padding (buffer : bytes) (i : nat) : nat := (i + length (take_while is_padding (drop i buffer)))%nat.

(** [s.split("\r\n")]. *)
Fixpoint split_crlf (s : str) : list str :=
  match s with
  | [] => [[]]
  | c :: s' =>
      match s' with
      | d :: s'' =>
          if (c =b "013") && (d =b "010") then [] :: split_crlf s''
          else match split_crlf s' with l :: ls => (c :: l) :: ls | [] => [[c]] end
      | [] => [[c]]
      end
  end.

(** The loop over the header lines with its three variables. *)
Record part_headers : Type := mkPartHeaders {
  ph_disposition : option ContentDisposition.t;
  ph_type : option ContentType.t;
  ph_headers : list (str * str);
}.

Fixpoint part_header_lines (lines : list str) (h : part_headers) : part_headers :=
  match lines with
  | [] => h
  | line :: lines' =>
      if is_empty line then part_header_lines lines' h
      else
        match split_once ":" line with
        | Some (name, value) =>
            let name := trim name in
            let value := trim value in
            if eq_ignore_ascii_case name (B "Content-Disposition") then
              part_header_lines lines' (mkPartHeaders (ok_of (ContentDisposition.parse value)) (ph_type h) (ph_headers h))
            else if eq_ignore_ascii_case name (B "Content-Type") then
              part_header_lines lines' (mkPartHeaders (ph_disposition h) (ok_of (ContentType.parse value)) (ph_headers h))
            else part_header_lines lines' (mkPartHeaders (ph_disposition h) (ph_type h) (ph_headers h ++ [(name, value)]))
        | None => part_header_lines lines' h
        end
  end.

(** The headers of a part and the checks on its Content-Disposition. *)
Definition parse_part_headers (header_bytes : bytes) : result MultipartError (ContentDisposition.t * part_headers) :=
  headers_str ← map_err (fun _ => InvalidHeader) (from_utf8 header_bytes);
  let h := part_header_lines (split_crlf headers_str) (mkPartHeaders None None []) in
  content_disposition ← ok_or MissingContentDisposition (ph_disposition h);
  if negb (ContentDisposition.is_form_data content_disposition) then Err InvalidContentDisposition
  else if negb (is_some (ContentDisposition.name content_disposition)) then Err MissingName
  else Ok (content_disposition, h).

Definition CRLF : bytes := ["013"; "010"]%byte.
Definition DASHES : bytes := B "--".

(** ** [next_part]: a round of its loop for each state *)

Definition initial_round : parser (flow (option Part)) :=
  p ← get;
  let start := Nat.max (pos p) (boundary_scan_offset p) in
  view ← unwrap (slice_from start (buffer p));
  match find_bytes view (first_delimiter p) with
  | Some rel_pos =>
      let after_delim := (start + rel_pos + length (first_delimiter p))%nat in
      let wait := _ ← modify (set_scan (Nat.min (start + rel_pos) (length (buffer p)))); throw Incomplete in
      if (after_delim + 2 <=? length (buffer p))%nat then
        let padded := skip_padding (buffer p) after_delim in
        if (length (buffer p) <? padded + 2)%nat then wait
        else
          head ← unwrap (slice padded (padded + 2) (buffer p));
          if head =s CRLF then
            _ ← modify (set_pos (padded + 2));
            _ ← modify (set_scan (padded + 2));
            _ ← modify (set_state InPart);
            mret Continue
          else if head =s DASHES then _ ← modify set_finished; mret (Break None)
          else throw InvalidPart
      else wait
  | None =>
      let overlap := (length (first_delimiter p) - 1)%nat in
      _ ← modify (set_scan (length (buffer p) - overlap));
      throw Incomplete
  end.

(** The memory in front of [pos] is given back when it is more than half. *)
Definition compact (p : MultipartParser) : MultipartParser :=
  if (length (buffer p) / 2 <? pos p)%nat then
    set_scan (boundary_scan_offset p - pos p) (set_pos 0 (set_buffer (drop (pos p) (buffer p)) p))
  else p.

(** After the inner delimiter that ends a body, which stops at [after_delim]. *)
Definition leave_part (after_delim : nat) : parser unit :=
  p ← get;
  let padded := skip_padding (buffer p) after_delim in
  if (padded + 2 <=? length (buffer p))%nat then
    head ← unwrap (slice padded (padded + 2) (buffer p));
    if head =s DASHES then modify set_finished
    else if head =s CRLF then modify (set_pos (padded + 2))
    else throw InvalidPart
  else
    _ ← modify (set_pos padded); modify (set_state AfterInnerDelimiter).

Definition in_part_round : parser (flow (option Part)) :=
  p ← get;
  view ← unwrap (slice_from (pos p) (buffer p));
  match find_bytes view (CRLF ++ CRLF) with
  | Some header_end_rel =>
      let header_end := (pos p + header_end_rel)%nat in
      header_bytes ← unwrap (slice (pos p) header_end (buffer p));
      let body_start := (header_end + 4)%nat in
      '(content_disposition, h) ← lift (parse_part_headers header_bytes);
      let search_start := Nat.max body_start (boundary_scan_offset p) in
      body_view ← unwrap (slice_from search_start (buffer p));
      match find_bytes body_view (inner_delimiter p) with
      | Some body_end_rel =>
          let body_end := (search_start + body_end_rel)%nat in
          body ← unwrap (slice body_start body_end (buffer p));
          _ ← leave_part (body_end + length (inner_delimiter p));
          _ ← modify (fun p => set_scan (pos p) p);
          _ ← modify compact;
          mret (Break (Some (mkPart (Some content_disposition) (ph_type h) (ph_headers h) body)))
      | None =>
          let overlap := (length (inner_delimiter p) - 1)%nat in
          _ ← modify (set_scan (Nat.max (length (buffer p) - overlap) body_start));
          throw Incomplete
      end
  | None => throw Incomplete
  end.

Definition after_round : parser (flow (option Part)) :=
  p ← get;
  let padded := skip_padding (buffer p) (pos p) in
  if (length (buffer p) <? padded + 2)%nat then
    _ ← modify (set_pos padded); throw Incomplete
  else
    head ← unwrap (slice padded (padded + 2) (buffer p));
    if head =s DASHES then _ ← modify set_finished; mret (Break None)
    else if head =s CRLF then
      _ ← modify (set_pos (padded + 2));
      _ ← modify (set_scan (padded + 2));
      _ ← modify (set_state InPart);
      mret Continue
    else throw InvalidPart.

Definition next_round : parser (flow (option Part)) :=
  p ← get;
  match state p with
  | Initial => initial_round
  | InPart => in_part_round
  | AfterInnerDelimiter => after_round
  | Finished => mret (Break None)
  end.

(** A round that goes on leaves the parser in a part, whose round does not. *)
Definition next_part : parser (option Part) :=
  p ← get;
  if finished p then mret None else loop 2 next_round.

(** ** The builder *)

Record MultipartBuilder : Type := mkBuilder {
  boundary : str;
  parts : list Part;
}.

Definition with_boundary (boundary : str) : MultipartBuilder := mkBuilder boundary [].
Definition builder_new (random_value : N) : MultipartBuilder :=
  with_boundary (B "----FormBoundary" ++ show_dec random_value).
Definition try_with_boundary (boundary : str) : result MultipartError MultipartBuilder :=
  if negb (is_valid_boundary boundary) then Err InvalidBoundary else Ok (with_boundary boundary).

Definition builder_content_type (b : MultipartBuilder) : str :=
  if forallb is_token_char (boundary b) then B "multipart/form-data; boundary=" ++ boundary b
  else B "multipart/form-data; boundary=" ++ [DQUOTE] ++ boundary b ++ [DQUOTE].

Definition part (p : Part) (b : MultipartBuilder) : MultipartBuilder := mkBuilder (boundary b) (parts b ++ [p]).
Definition text_field (name value : str) : MultipartBuilder -> MultipartBuilder :=
  part (with_body (Part_new name) value).
Definition file_field (name filename content_type : str) (data : bytes) : MultipartBuilder -> MultipartBuilder :=
  part (with_body (Part_file name filename content_type) data).

(** [build]: one part, and the whole body. *)
Definition part_header_line (name value : str) : bytes := name ++ B ": " ++ value ++ CRLF.

Definition build_headers (p : Part) : bytes :=
  match content_disposition p with
  | Some cd => part_header_line (B "Content-Disposition") (ContentDisposition.fmt cd)
  | None => []
  end ++
  match content_type p with
  | Some ct => part_header_line (B "Content-Type") (ContentType.fmt ct)
  | None => []
  end ++
  concat (map (fun '(name, value) => part_header_line name value) (headers p)).

Definition build_part (boundary : str) (p : Part) : bytes :=
  DASHES ++ boundary ++ CRLF ++ build_headers p ++ CRLF ++ body p ++ CRLF.

Definition build (b : MultipartBuilder) : bytes :=
  concat (map (build_part (boundary b)) (parts b)) ++ DASHES ++ boundary b ++ DASHES ++ CRLF.
End Multipart.
