(* ===== verification/MultipartFacts.v ===== *)
(** * The multipart parser without positions

    What [Multipart.next_part] computes, said on the bytes that are left
    to read alone: no position, no scan offset and no compaction.  The parser is shown to
    refine it, and the reference is shown to be insensitive to where the input is cut. *)
From S2P Require Import Prelude RustStd Validate RustStr FieldList ContentType ContentDisposition Multipart.
Import Multipart.

#[export] Instance ParserState_eq_dec : EqDecision ParserState.
Proof. solve_decision. Defined.
#[export] Instance MultipartError_eq_dec : EqDecision MultipartError.
Proof. solve_decision. Defined.

(** ** Searching *)

Lemma length_pos {A} (l : list A) : l <> [] -> (0 < length l)%nat.
Proof. destruct l; simpl; [done | lia]. Qed.

(** [d] stands in [s] at [k]. *)
Definition occurs (d s : bytes) (k : nat) : Prop := take (length d) (drop k s) = d.

#[export] Instance occurs_dec d s k : Decision (occurs d s k).
Proof. unfold occurs. apply _. Defined.

Definition first_at (d s : bytes) (o : option nat) : Prop :=
  match o with
  | Some k => occurs d s k /\ forall j, (j < k)%nat -> ~ occurs d s j
  | None => forall j, ~ occurs d s j
  end.

Lemma first_at_unique d s o o' : first_at d s o -> first_at d s o' -> o = o'.
Proof.
  destruct o as [k|], o' as [k'|]; simpl; intros H H'.
  - f_equal. destruct H as [H Hm], H' as [H' Hm'].
    destruct (Nat.lt_trichotomy k k') as [L|[E|L]]; [|done|]; [by destruct (Hm' _ L) | by destruct (Hm _ L)].
  - by destruct (H' k); destruct H.
  - by destruct (H k'); destruct H'.
  - done.
Qed.

Lemma occurs_length d s k : d <> [] -> occurs d s k -> (k + length d <= length s)%nat.
Proof.
  intros Hd%length_pos H. apply (f_equal length) in H. rewrite length_take, length_drop in H. lia.
Qed.

Lemma occurs_app d s t k : occurs d s k -> (k + length d <= length s)%nat -> occurs d (s ++ t) k.
Proof.
  unfold occurs. intros H Hk. rewrite drop_app_le by lia. rewrite take_app_le; [done|]. rewrite length_drop. lia.
Qed.

Lemma occurs_app_inv d s t k : occurs d (s ++ t) k -> (k + length d <= length s)%nat -> occurs d s k.
Proof.
  unfold occurs. intros H Hk. rewrite drop_app_le in H by lia. rewrite take_app_le in H; [done|]. rewrite length_drop. lia.
Qed.

Lemma occurs_drop d s n k : occurs d (drop n s) k <-> occurs d s (n + k).
Proof. unfold occurs. by rewrite drop_drop. Qed.

Lemma starts_with_occurs d s : starts_with d s = true <-> occurs d s 0.
Proof.
  unfold occurs, starts_with. rewrite drop_0. revert s. induction d as [|a d IH]; intros [|b s]; simpl; try done.
  destruct (a =b b) eqn:E.
  - apply byte_eqb_eq in E as ->. rewrite IH. split; congruence.
  - apply byte_eqb_neq in E. split; [done | congruence].
Qed.

Lemma find_sub_first d s : d <> [] -> first_at d s (find_sub d s).
Proof.
  intros Hd. induction s as [|b s IH]; simpl.
  - destruct (starts_with d []) eqn:E.
    + apply starts_with_occurs in E. split; [done | lia].
    + intros j H. apply occurs_length in H; [|done]. destruct d; simpl in *; [done | lia].
  - destruct (starts_with d (b :: s)) eqn:E.
    + apply starts_with_occurs in E. split; [done | lia].
    + assert (H0 : ~ occurs d (b :: s) 0) by (rewrite <- starts_with_occurs; congruence).
      destruct (find_sub d s) as [k|]; simpl in *.
      * destruct IH as [IH Hm]. split; [done|]. intros [|j] Hj; [done|]. apply (Hm j). lia.
      * intros [|j]; [done | apply IH].
Qed.

Lemma position_first {A} (p : A -> bool) l : match position p l with
  | Some k => (exists x, l !! k = Some x /\ p x = true) /\ forall j x, (j < k)%nat -> l !! j = Some x -> p x = false
  | None => forall j x, l !! j = Some x -> p x = false end.
Proof.
  induction l as [|y l IH]; simpl; [done|]. destruct (p y) eqn:E.
  - split; [by exists y | lia].
  - destruct (position p l) as [k|]; simpl.
    + destruct IH as [IH Hm]. split; [done|]. intros [|j] x Hj; simpl; [by intros [= <-]|]. apply Hm. lia.
    + intros [|j] x; simpl; [by intros [= <-] | apply IH].
Qed.

(** The loop stops at the first occurrence at or after [i]. *)
Lemma find_bytes_loop_first first d d' h fuel : d = first :: d' ->
  forall i, (length d <= length h)%nat -> (length h - i < fuel)%nat -> (forall j, (j < i)%nat -> ~ occurs d h j) ->
  first_at d h (find_bytes_loop fuel i (length h - length d) first h d).
Proof.
  intros Hfirst. assert (Hne : d <> []) by by rewrite Hfirst.
  induction fuel as [|fuel IH]; intros i Hd Hf Hi; [lia|]. cbn [find_bytes_loop].
  assert (Hhead : forall j, occurs d h j -> h !! j = Some first).
  { intros j H. apply (f_equal (fun l => l !! O)) in H. apply length_pos in Hne. rewrite lookup_take_lt in H by lia.
    rewrite lookup_drop, Nat.add_0_r in H. by rewrite H, Hfirst. }
  destruct (i <=? length h - length d)%nat eqn:E.
  - pose proof (position_first (fun b => b =b first) (take (S (length h - length d) - i) (drop i h))) as Hp.
    destruct (position _ _) as [o|] eqn:Ep; simpl in Hp.
    + destruct Hp as [(x & Hx & _) Hm]. pose proof (lookup_lt_Some _ _ _ Hx) as Ho. rewrite length_take, length_drop in Ho.
      assert (Hlt : forall j, (j < i + o)%nat -> ~ occurs d h j).
      { intros j Hj Hocc. destruct (decide (j < i)%nat); [by apply (Hi j)|].
        pose proof (Hhead _ Hocc) as Hf'. specialize (Hm (j - i)%nat first). rewrite lookup_take_lt, lookup_drop in Hm by lia.
        rewrite Nat.add_comm, Nat.sub_add in Hm by lia. rewrite byte_eqb_refl in Hm. by discriminate (Hm ltac:(lia) Hf'). }
      destruct (take _ _ =s d) eqn:Et.
      * apply beqs_eq in Et. by split.
      * apply beqs_neq in Et. apply IH; [done | lia|]. intros j Hj. destruct (decide (j = i + o)%nat) as [->|]; [done|]. apply Hlt. lia.
    + intros j Hocc. destruct (decide (j < i)%nat); [by apply (Hi j)|]. pose proof (Hhead _ Hocc) as Hf'.
      apply occurs_length in Hocc; [|done]. specialize (Hp (j - i)%nat first). rewrite lookup_take_lt, lookup_drop in Hp by lia.
      rewrite Nat.add_comm, Nat.sub_add in Hp by lia. rewrite byte_eqb_refl in Hp. by discriminate (Hp Hf').
  - intros j Hocc. destruct (decide (j < i)%nat); [by apply (Hi j)|]. apply occurs_length in Hocc; [|done]. lia.
Qed.

Lemma find_bytes_sub h d : find_bytes h d = find_sub d h.
Proof.
  destruct d as [|first d]; [by destruct h|]. apply (first_at_unique (first :: d) h); [|by apply find_sub_first].
  unfold find_bytes. destruct (_ <? _)%nat eqn:E.
  - intros j H. apply occurs_length in H; [|done]. lia.
  - eapply find_bytes_loop_first; [done | lia..].
Qed.

(** *** Resuming a search *)

(** The first [n] places of [s] are known not to hold [d], whatever follows. *)
Definition searched (d s : bytes) (n : nat) : Prop :=
  forall j, (j < n)%nat -> (j + length d <= length s)%nat /\ ~ occurs d s j.

Lemma searched_0 d s : searched d s 0.
Proof. intros j. lia. Qed.

Lemma searched_app d s t n : searched d s n -> searched d (s ++ t) n.
Proof.
  intros H j Hj. destruct (H j Hj) as [Hl Hn]. rewrite length_app. split; [lia|]. intros Ho. by apply Hn, (occurs_app_inv _ _ t).
Qed.

Lemma searched_some d s k : d <> [] -> find_sub d s = Some k -> searched d s k.
Proof.
  intros Hd H. pose proof (find_sub_first d s Hd) as Hf. rewrite H in Hf. destruct Hf as [Ho Hm].
  apply occurs_length in Ho; [|done]. intros j Hj. split; [lia | by apply Hm].
Qed.

Lemma searched_none d s : d <> [] -> find_sub d s = None -> searched d s (length s - (length d - 1)).
Proof.
  intros Hd H j Hj. pose proof (find_sub_first d s Hd) as Hf. rewrite H in Hf. apply length_pos in Hd. split; [lia | apply Hf].
Qed.

Lemma find_sub_app d s t k : d <> [] -> find_sub d s = Some k -> find_sub d (s ++ t) = Some k.
Proof.
  intros Hd H. apply (first_at_unique d (s ++ t)); [by apply find_sub_first|].
  pose proof (find_sub_first d s Hd) as Hf. rewrite H in Hf. destruct Hf as [Ho Hm].
  pose proof (occurs_length _ _ _ Hd Ho). split; [by apply occurs_app|].
  intros j Hj Ho'. apply (Hm j Hj). apply (occurs_app_inv _ _ t); [done | lia].
Qed.

Lemma find_sub_bound d s k : d <> [] -> find_sub d s = Some k -> (k + length d <= length s)%nat.
Proof. intros Hd H. pose proof (find_sub_first d s Hd) as Hf. rewrite H in Hf. destruct Hf. by apply occurs_length. Qed.

(** A search that goes on from [n] finds what a search from the start finds. *)
Lemma resume d s n : d <> [] -> searched d s n -> find_sub d s = Nat.add n <$> find_bytes (drop n s) d.
Proof.
  intros Hd H. rewrite find_bytes_sub. apply (first_at_unique d s); [by apply find_sub_first|].
  pose proof (find_sub_first d (drop n s) Hd) as Hf. destruct (find_sub d (drop n s)) as [k|]; simpl in *.
  - destruct Hf as [Ho Hm]. split; [by apply occurs_drop|]. intros j Hj. destruct (decide (j < n)%nat); [by apply H|].
    intros Ho'. apply (Hm (j - n)%nat); [lia|]. apply occurs_drop. by rewrite Nat.add_comm, Nat.sub_add by lia.
  - intros j Ho. destruct (decide (j < n)%nat); [by apply (H j)|]. apply (Hf (j - n)%nat), occurs_drop.
    by rewrite Nat.add_comm, Nat.sub_add by lia.
Qed.

(** ** The reference: a phase and the bytes that are left *)

Definition view : Type := ParserState * bytes.

(** What follows a delimiter, past its padding. *)
Inductive verdict : Type :=
  | Wait (s : bytes)
  | Close
  | NextPart (s : bytes)
  | Bad.

Definition judge (s : bytes) : verdict :=
  let s := skip_while is_padding s in
  if (length s <? 2)%nat then Wait s
  else if take 2 s =s CRLF then NextPart (drop 2 s)
  else if take 2 s =s DASHES then Close
  else Bad.

(** A part whose headers begin [s]. *)
Definition reference_part (d : bytes) (s : bytes) : view * result MultipartError (option Part) :=
  match find_sub (CRLF ++ CRLF) s with
  | None => ((InPart, s), Err Incomplete)
  | Some h =>
      match parse_part_headers (take h s) with
      | Err e => ((InPart, s), Err e)
      | Ok (cd, hs) =>
          let rest := drop (h + 4) s in
          match find_sub d rest with
          | None => ((InPart, s), Err Incomplete)
          | Some k =>
              let part := mkPart (Some cd) (ph_type hs) (ph_headers hs) (take k rest) in
              match judge (drop (k + length d) rest) with
              | Wait r => ((AfterInnerDelimiter, r), Ok (Some part))
              | Close => ((Finished, s), Ok (Some part))
              | NextPart r => ((InPart, r), Ok (Some part))
              | Bad => ((InPart, s), Err InvalidPart)
              end
          end
      end
  end.

Definition reference_next (d1 d2 : bytes) (v : view) : view * result MultipartError (option Part) :=
  let '(q, s) := v in
  match q with
  | Initial =>
      match find_sub d1 s with
      | None => (v, Err Incomplete)
      | Some k =>
          match judge (drop (k + length d1) s) with
          | Wait _ => (v, Err Incomplete)
          | Close => ((Finished, s), Ok None)
          | NextPart r => reference_part d2 r
          | Bad => (v, Err InvalidPart)
          end
      end
  | InPart => reference_part d2 s
  | AfterInnerDelimiter =>
      match judge s with
      | Wait r => ((AfterInnerDelimiter, r), Err Incomplete)
      | Close => ((Finished, s), Ok None)
      | NextPart r => reference_part d2 r
      | Bad => (v, Err InvalidPart)
      end
  | Finished => (v, Ok None)
  end.

(** ** The parser refines it *)

Definition rest_of (p : MultipartParser) : bytes := drop (pos p) (buffer p).

(** What the scan offset vouches for. *)
Definition scanned (p : MultipartParser) : Prop :=
  match state p with
  | Initial => searched (first_delimiter p) (rest_of p) (boundary_scan_offset p - pos p)
  | InPart =>
      match find_sub (CRLF ++ CRLF) (rest_of p) with
      | None => (boundary_scan_offset p <= pos p)%nat
      | Some h => searched (inner_delimiter p) (drop (h + 4) (rest_of p)) (boundary_scan_offset p - (pos p + h + 4))
      end
  | _ => True
  end.

Record parser_ok (p : MultipartParser) : Prop := {
  ok_pos : (pos p <= length (buffer p))%nat;
  ok_scan : (boundary_scan_offset p <= length (buffer p))%nat;
  ok_scanned : scanned p;
  ok_first : first_delimiter p <> [];
  ok_inner : inner_delimiter p <> [];
  ok_finished : finished p = match state p with Finished => true | _ => false end;
}.

Definition view_of (p : MultipartParser) : view := (state p, rest_of p).

(** The settings a call keeps. *)
Definition kept (p p' : MultipartParser) : Prop :=
  first_delimiter p' = first_delimiter p /\ inner_delimiter p' = inner_delimiter p /\
  max_buffer_size p' = max_buffer_size p.

Lemma scanned_start p : (boundary_scan_offset p <= pos p)%nat -> scanned p.
Proof.
  intros H. unfold scanned. destruct (state p); [|destruct (find_sub _ _)|done..].
  - replace (_ - _)%nat with O by lia. apply searched_0.
  - replace (_ - _)%nat with O by lia. apply searched_0.
  - done.
Qed.

Lemma new_ok boundary : parser_ok (new boundary) /\ view_of (new boundary) = (Initial, []).
Proof. split; [split; try done; by apply scanned_start | done]. Qed.

(** *** Feeding *)

Lemma rest_of_app p data : (pos p <= length (buffer p))%nat -> rest_of (set_buffer (buffer p ++ data) p) = rest_of p ++ data.
Proof. intros H. apply drop_app_le, H. Qed.

Lemma set_buffer_ok p data : parser_ok p -> parser_ok (set_buffer (buffer p ++ data) p).
Proof.
  intros [Hp Hs Hn H1 H2 Hf]. split; cbn; rewrite ?length_app; try done; try lia.
  pose proof (rest_of_app p data Hp) as Hr. unfold scanned in *. rewrite Hr. cbn. destruct (state p); [|clear Hr|done..].
  - by apply searched_app.
  - destruct (find_sub _ (rest_of p)) as [h|] eqn:E.
    + pose proof (find_sub_bound (CRLF ++ CRLF) _ _ ltac:(done) E) as Hh. rewrite (find_sub_app (CRLF ++ CRLF) _ _ _ ltac:(done) E).
      rewrite drop_app_le by (cbn in Hh; lia). by apply searched_app.
    + destruct (find_sub _ (rest_of p ++ data)); [|done]. replace (_ - _)%nat with O by lia. apply searched_0.
Qed.

Lemma feed_eq data p : parser_ok p ->
  feed data p =
    let size := N.min usize_MAX (blen (rest_of p) + blen data) in
    if max_buffer_size p <? size then (p, Err (Throw (BufferOverflow size (max_buffer_size p))))
    else (set_buffer (buffer p ++ data) p, Ok tt).
Proof.
  intros H. pose proof (ok_pos _ H) as Hp. unfold feed, rest_of. st_simpl.
  apply Nat.leb_le in Hp as ->. rewrite blen_drop. by destruct (_ <? _).
Qed.

(** *** The two bytes after a delimiter *)

Lemma skip_while_drop {A} (p : A -> bool) l : skip_while p l = drop (length (take_while p l)) l.
Proof. rewrite <- (take_skip_while p l) at 3. by rewrite drop_app_length. Qed.

Lemma judge_head buf i : (i <= length buf)%nat ->
  let padded := skip_padding buf i in
  ((i <= padded)%nat /\ (padded <= length buf)%nat) /\
  match judge (drop i buf) with
  | Wait r => (length buf < padded + 2)%nat /\ r = drop padded buf
  | NextPart r => (padded + 2 <= length buf)%nat /\ slice padded (padded + 2) buf = Some CRLF /\ r = drop (padded + 2) buf
  | Close => (padded + 2 <= length buf)%nat /\ slice padded (padded + 2) buf = Some DASHES
  | Bad => (padded + 2 <= length buf)%nat /\ exists head, slice padded (padded + 2) buf = Some head /\ head <> CRLF /\ head <> DASHES
  end.
Proof.
  intros Hi padded.
  assert (Hd : skip_while is_padding (drop i buf) = drop padded buf) by (rewrite skip_while_drop, drop_drop; done).
  assert (Hp : (i <= padded)%nat /\ (padded <= length buf)%nat).
  { unfold padded, skip_padding. pose proof (f_equal length (take_skip_while is_padding (drop i buf))) as Hl.
    rewrite length_app, length_drop in Hl. lia. }
  split; [done|]. unfold judge. rewrite Hd, length_drop.
  destruct (_ <? 2)%nat eqn:E; [split; [lia | done]|]. apply Nat.ltb_ge in E.
  assert (Hs : slice padded (padded + 2) buf = Some (take 2 (drop padded buf))).
  { unfold slice. destruct (_ && _)%bool eqn:Es; [|lia]. f_equal. f_equal. lia. }
  rewrite Hs, drop_drop. destruct (_ =s CRLF) eqn:E1; [apply beqs_eq in E1 as ->; split_and!; [lia | done | done]|].
  destruct (_ =s DASHES) eqn:E2; [apply beqs_eq in E2 as ->; split_and!; [lia | done]|].
  apply beqs_neq in E1, E2. split; [lia|]. by eexists.
Qed.

(** *** The rounds *)

Definition outcome : Type := MultipartParser * result (exn MultipartError) (flow (option Part)).

(** The call ends with [r] and leaves [v]. *)
Definition ends p (v : view) (r : result MultipartError (option Part)) (o : outcome) : Prop :=
  exists p', o = (p', match r with Ok a => Ok (Break a) | Err e => Err (Throw e) end) /\
    parser_ok p' /\ kept p p' /\ view_of p' = v.

(** The loop goes on in a part whose headers begin [s]. *)
Definition goes_on p (s : bytes) (o : outcome) : Prop :=
  exists p', o = (p', Ok Continue) /\ parser_ok p' /\ kept p p' /\ view_of p' = (InPart, s).

Lemma keeps_refl p : kept p p.
Proof. done. Qed.

Lemma keeps_trans p q r : kept p q -> kept q r -> kept p r.
Proof. unfold kept. intuition congruence. Qed.

Lemma ends_unchanged p e : parser_ok p -> ends p (view_of p) (Err e) (p, Err (Throw e)).
Proof. intros H. by exists p. Qed.

Lemma ends_finished p r : parser_ok p ->
  ends p (Finished, rest_of p) (Ok r) (set_finished p, Ok (Break r)).
Proof. intros []. eexists. split; [done|]. by split; [split|]. Qed.

Lemma enter_part p i : parser_ok p -> state p <> Finished -> (i <= length (buffer p))%nat ->
  goes_on p (drop i (buffer p)) (set_state InPart (set_scan i (set_pos i p)), Ok Continue).
Proof.
  intros [] Hq Hi. eexists. split; [done|]. split; [split; try done|done].
  - by apply scanned_start.
  - cbn. rewrite ok_finished0. by destruct (state p).
Qed.

Lemma ends_scan p n : parser_ok p -> (n <= length (buffer p))%nat -> scanned (set_scan n p) ->
  ends p (view_of p) (Err Incomplete) (set_scan n p, Err (Throw Incomplete)).
Proof. intros [] Hn Hs. eexists. split; [done|]. by split; [split|]. Qed.

Lemma slice_from_Some i (s : bytes) : (i <= length s)%nat -> slice_from i s = Some (drop i s).
Proof. unfold slice_from. by intros ->%Nat.leb_le. Qed.

Lemma slice_Some i j (s : bytes) : (i <= j)%nat -> (j <= length s)%nat -> slice i j s = Some (take (j - i) (drop i s)).
Proof. unfold slice. by intros ->%Nat.leb_le ->%Nat.leb_le. Qed.

Lemma length_rest p : length (rest_of p) = (length (buffer p) - pos p)%nat.
Proof. apply length_drop. Qed.

Lemma initial_ok p : parser_ok p -> state p = Initial ->
  match find_sub (first_delimiter p) (rest_of p) with
  | None => ends p (Initial, rest_of p) (Err Incomplete) (initial_round p)
  | Some k =>
      match judge (drop (k + length (first_delimiter p)) (rest_of p)) with
      | Wait _ => ends p (Initial, rest_of p) (Err Incomplete) (initial_round p)
      | Close => ends p (Finished, rest_of p) (Ok None) (initial_round p)
      | NextPart r => goes_on p r (initial_round p)
      | Bad => ends p (Initial, rest_of p) (Err InvalidPart) (initial_round p)
      end
  end.
Proof.
  intros H Hq. pose proof (ok_pos _ H) as Hp. pose proof (ok_scan _ H) as Hs. pose proof (ok_scanned _ H) as Hn.
  pose proof (ok_first _ H) as H1. unfold scanned in Hn. rewrite Hq in Hn.
  set (n := (boundary_scan_offset p - pos p)%nat) in *.
  set (start := Nat.max (pos p) (boundary_scan_offset p)).
  assert (Hv : view_of p = (Initial, rest_of p)) by (unfold view_of; by rewrite Hq).
  assert (Hstart : start = (pos p + n)%nat) by lia.
  assert (Hfind : find_sub (first_delimiter p) (rest_of p) = Nat.add n <$> find_bytes (drop start (buffer p)) (first_delimiter p)).
  { rewrite (resume _ _ n H1 Hn). unfold rest_of. by rewrite drop_drop, Hstart. }
  unfold initial_round. st_simpl. fold start. rewrite slice_from_Some by lia. rewrite <- Hv.
  destruct (find_bytes _ _) as [rel|]; cbn [fmap option_fmap option_map] in Hfind; rewrite Hfind.
  - pose proof (find_sub_bound _ _ _ H1 Hfind) as Hb. rewrite length_rest in Hb.
    pose proof (searched_some _ _ _ H1 Hfind) as Hsome.
    assert (Hwait : ends p (view_of p) (Err Incomplete)
      (set_scan (Nat.min (start + rel) (length (buffer p))) p, Err (Throw Incomplete))).
    { apply ends_scan; [done | lia|]. unfold scanned, rest_of. cbn. rewrite Hq.
      replace (_ - pos p)%nat with (n + rel)%nat by lia. done. }
    set (after := (start + rel + length (first_delimiter p))%nat).
    assert (Hafter : drop (n + rel + length (first_delimiter p)) (rest_of p) = drop after (buffer p)).
    { unfold rest_of. rewrite drop_drop. f_equal. lia. }
    rewrite Hafter. destruct (judge_head (buffer p) after ltac:(lia)) as [Hpad Hj].
    set (padded := skip_padding (buffer p) after) in *.
    destruct (after + 2 <=? _)%nat eqn:E1.
    + destruct (judge _) as [r| |r|]; destruct Hj as [Hlen Hj].
      * apply Nat.ltb_lt in Hlen as ->. done.
      * apply Nat.ltb_ge in Hlen as ->. rewrite Hj. cbn. by apply ends_finished.
      * destruct Hj as [Hj ->]. pose proof Hlen as Hle. apply Nat.ltb_ge in Hlen as ->. rewrite Hj. cbn. apply enter_part; [done | by rewrite Hq | done].
      * destruct Hj as (head & Hj & N1%beqs_neq & N2%beqs_neq). apply Nat.ltb_ge in Hlen as ->. rewrite Hj. cbn beta iota.
        rewrite N1, N2. by apply ends_unchanged.
    + apply Nat.leb_gt in E1. destruct (judge _); [done | destruct Hj; lia..].
  - apply ends_scan; [done | lia|]. unfold scanned. cbn. rewrite Hq. pose proof (searched_none _ _ H1 Hfind) as Hnone.
    rewrite length_rest in Hnone. intros j Hj. apply Hnone. unfold rest_of in *. cbn in *. lia.
Qed.

Lemma after_ok p : parser_ok p -> state p = AfterInnerDelimiter ->
  match judge (rest_of p) with
  | Wait r => ends p (AfterInnerDelimiter, r) (Err Incomplete) (after_round p)
  | Close => ends p (Finished, rest_of p) (Ok None) (after_round p)
  | NextPart r => goes_on p r (after_round p)
  | Bad => ends p (AfterInnerDelimiter, rest_of p) (Err InvalidPart) (after_round p)
  end.
Proof.
  intros H Hq. pose proof (ok_pos _ H) as Hp. destruct (judge_head (buffer p) (pos p) Hp) as [Hpad Hj].
  unfold after_round. st_simpl. fold (rest_of p) in Hj. set (padded := skip_padding (buffer p) (pos p)) in *.
  destruct (judge _) as [r| |r|]; destruct Hj as [Hlen Hj].
  - apply Nat.ltb_lt in Hlen as ->. subst r. eexists. split; [done|]. destruct H.
    split; [split; try done; cbn; [lia | unfold scanned; cbn; by rewrite Hq] | split; [done|]]. unfold view_of. cbn. by rewrite Hq.
  - apply Nat.ltb_ge in Hlen as ->. rewrite Hj. cbn. by apply ends_finished.
  - destruct Hj as [Hj ->]. pose proof Hlen as Hle. apply Nat.ltb_ge in Hlen as ->. rewrite Hj. cbn. apply enter_part; [done | by rewrite Hq | done].
  - destruct Hj as (head & Hj & N1%beqs_neq & N2%beqs_neq). apply Nat.ltb_ge in Hlen as ->. rewrite Hj. cbn beta iota.
    rewrite N1, N2. rewrite <- Hq. by apply ends_unchanged.
Qed.

(** Giving back memory is invisible. *)
Lemma compact_ok p : parser_ok p -> (boundary_scan_offset p <= pos p)%nat ->
  parser_ok (compact p) /\ kept p (compact p) /\ view_of (compact p) = view_of p.
Proof.
  intros H Hs. destruct H. unfold compact. destruct (_ <? _)%nat; [|done]. split_and!; [|done|done].
  split; try done; cbn; rewrite ?length_drop; try lia. apply scanned_start. cbn. lia.
Qed.

(** The parser at the end of a body, and the scan offset and the memory after it. *)
Lemma leave_ok p after part : parser_ok p -> state p = InPart -> (after <= length (buffer p))%nat ->
  let rest := (_ ← leave_part after; _ ← modify (fun p => set_scan (pos p) p); _ ← modify compact; mret (Break (Some part))) p in
  match judge (drop after (buffer p)) with
  | Wait r => ends p (AfterInnerDelimiter, r) (Ok (Some part)) rest
  | Close => ends p (Finished, rest_of p) (Ok (Some part)) rest
  | NextPart r => ends p (InPart, r) (Ok (Some part)) rest
  | Bad => ends p (InPart, rest_of p) (Err InvalidPart) rest
  end.
Proof.
  intros H Hq Hafter rest. destruct (judge_head (buffer p) after Hafter) as [Hpad Hj].
  assert (Hend : forall p' v, leave_part after p = (p', Ok tt) ->
    parser_ok (set_scan (pos p') p') -> kept p p' -> view_of p' = v -> ends p v (Ok (Some part)) rest).
  { intros p' v E Hok Hk Hv. destruct (compact_ok _ Hok (le_n _)) as (Hc & Hck & Hcv).
    exists (compact (set_scan (pos p') p')). split; [unfold rest; cbv [mbind st_bind]; by rewrite E|].
    split; [done|]. split; [by eapply keeps_trans | by rewrite Hcv]. }
  unfold leave_part in Hend. st_simpl. set (padded := skip_padding (buffer p) after) in *.
  destruct (judge _) as [r| |r|]; destruct Hj as [Hlen Hj].
  - pose proof Hlen as Hlt. apply Nat.leb_gt in Hlen. rewrite Hlen in Hend. subst r. destruct H. eapply Hend; [done | | done | done].
    split; try done; cbn; [lia.. | by rewrite ok_finished0, Hq].
  - apply Nat.leb_le in Hlen. rewrite Hlen, Hj in Hend. eapply Hend; [done | | done | done]. by destruct H; split.
  - destruct Hj as [Hj ->]. pose proof Hlen as Hle. apply Nat.leb_le in Hlen. rewrite Hlen, Hj in Hend.
    eapply Hend; [done | | done | unfold view_of; cbn; by rewrite Hq].
    destruct H. split; try done; cbn; [lia.. | by apply scanned_start].
  - destruct Hj as (head & Hj & N1%beqs_neq & N2%beqs_neq). apply Nat.leb_le in Hlen. unfold rest, leave_part. st_simpl.
    fold padded. rewrite Hlen, Hj. cbn beta iota. rewrite N1, N2. rewrite <- Hq. by apply ends_unchanged.
Qed.

Lemma in_part_ok p v r : parser_ok p -> state p = InPart ->
  reference_part (inner_delimiter p) (rest_of p) = (v, r) -> ends p v r (in_part_round p).
Proof.
  intros H Hq. pose proof (ok_pos _ H) as Hp. pose proof (ok_scan _ H) as Hs. pose proof (ok_scanned _ H) as Hn.
  pose proof (ok_inner _ H) as H2. unfold scanned in Hn. rewrite Hq in Hn.
  assert (Hv : view_of p = (InPart, rest_of p)) by (unfold view_of; by rewrite Hq).
  unfold reference_part, in_part_round. st_simpl. rewrite slice_from_Some by done. rewrite find_bytes_sub.
  fold (rest_of p). rewrite <- Hv. destruct (find_sub _ (rest_of p)) as [h|] eqn:Eh; [|intros [= <- <-]; by apply ends_unchanged].
  pose proof (find_sub_bound (CRLF ++ CRLF) _ _ ltac:(done) Eh) as Hh. rewrite length_rest in Hh. cbn in Hh.
  rewrite slice_Some by lia. replace (pos p + h - pos p)%nat with h by lia. fold (rest_of p).
  destruct (parse_part_headers _) as [[cd hs]|e]; [|intros [= <- <-]; by apply ends_unchanged].
  set (start := (pos p + h + 4)%nat) in *. set (n := (boundary_scan_offset p - start)%nat) in *.
  set (rest := drop (h + 4) (rest_of p)) in *.
  assert (Hrest : rest = drop start (buffer p)) by (unfold rest, rest_of, start; rewrite drop_drop; f_equal; lia).
  rewrite slice_from_Some by lia.
  assert (Hd : drop (Nat.max start (boundary_scan_offset p)) (buffer p) = drop n rest).
  { rewrite Hrest, drop_drop. f_equal. lia. }
  rewrite Hd, (resume _ _ n H2 Hn). pose proof (resume _ _ n H2 Hn) as Hfind.
  destruct (find_bytes (drop n rest) _) as [rel|]; cbn [fmap option_fmap option_map] in Hfind |- *.
  - pose proof (find_sub_bound _ _ _ H2 Hfind) as Hb. rewrite Hrest, length_drop in Hb.
    rewrite slice_Some by lia. rewrite <- Hrest.
    replace (Nat.max start (boundary_scan_offset p) + rel - start)%nat with (n + rel)%nat by lia.
    set (after := (Nat.max start (boundary_scan_offset p) + rel + length (inner_delimiter p))%nat).
    assert (Hafter : drop (n + rel + length (inner_delimiter p)) rest = drop after (buffer p)).
    { rewrite Hrest, drop_drop. f_equal. lia. }
    rewrite Hafter.
    pose proof (leave_ok p after (mkPart (Some cd) (ph_type hs) (ph_headers hs) (take (n + rel) rest)) H Hq ltac:(lia)) as Hl.
    st_simpl. destruct (judge _); intros [= <- <-]; rewrite ?Hv; exact Hl.
  - intros [= <- <-]. apply ends_scan; [done | lia|]. unfold scanned. cbn [state set_scan boundary_scan_offset pos inner_delimiter]. rewrite Hq.
    change (rest_of (set_scan _ p)) with (rest_of p). rewrite Eh. fold rest. fold start.
    pose proof (searched_none _ _ H2 Hfind) as Hnone. rewrite Hrest, length_drop, <- Hrest in Hnone.
    intros j Hj. apply Hnone. lia.
Qed.

(** *** The call *)

Definition refines p (v : view) (r : result MultipartError (option Part)) (o : MultipartParser * result (exn MultipartError) (option Part)) : Prop :=
  exists p', o = (p', map_err Throw r) /\ parser_ok p' /\ kept p p' /\ view_of p' = v.

Lemma loop_ends p v r fuel : ends p v r (next_round p) -> refines p v r (loop (S fuel) next_round p).
Proof. intros (p' & E & H). exists p'. split; [|done]. cbn [loop]. rewrite E. by destruct r. Qed.

Lemma loop_goes_on p s v r : goes_on p s (next_round p) -> reference_part (inner_delimiter p) s = (v, r) ->
  refines p v r (loop 2 next_round p).
Proof.
  intros (p1 & E & Hok & Hk & Hv) Hr. pose proof Hk as (_ & Hk2 & _). assert (Hq : state p1 = InPart) by (by injection Hv).
  assert (Hs : rest_of p1 = s) by (by injection Hv). rewrite <- Hk2, <- Hs in Hr.
  pose proof (in_part_ok _ _ _ Hok Hq Hr) as Hin.
  destruct (loop_ends p1 v r 0) as (p' & E' & Hok' & Hk' & Hv'); [unfold next_round; st_simpl; by rewrite Hq|].
  exists p'. split; [|split; [done|]; split; [by eapply keeps_trans | done]].
  change (loop 2 next_round p) with (match next_round p with
    | (s', Ok Continue) => loop 1 next_round s' | (s', Ok (Break a)) => (s', Ok a) | (s', Err e) => (s', Err e) end).
  by rewrite E.
Qed.

Lemma next_refines p v r : parser_ok p ->
  reference_next (first_delimiter p) (inner_delimiter p) (view_of p) = (v, r) -> refines p v r (next_part p).
Proof.
  intros H. unfold next_part, view_of. st_simpl. rewrite (ok_finished _ H).
  assert (Hround : next_round p = match state p with Initial => initial_round p | InPart => in_part_round p
    | AfterInnerDelimiter => after_round p | Finished => (p, Ok (Break None)) end).
  { unfold next_round. st_simpl. by destruct (state p). }
  destruct (state p) eqn:Hq; cbn [reference_next].
  - pose proof (initial_ok p H Hq) as Hi. rewrite <- Hround in Hi. destruct (find_sub _ _) as [k|].
    + destruct (judge _); try (intros [= <- <-]; by apply loop_ends). by apply loop_goes_on.
    + intros [= <- <-]. by apply loop_ends.
  - intros Hr. apply loop_ends. rewrite Hround. by apply in_part_ok.
  - pose proof (after_ok p H Hq) as Ha. rewrite <- Hround in Ha.
    destruct (judge _); try (intros [= <- <-]; by apply loop_ends). by apply loop_goes_on.
  - intros [= <- <-]. exists p. unfold view_of. by rewrite Hq.
Qed.
