(* ===== verification/MultipartTheorems.v ===== *)
(** * Multipart: cutting the input, and building what is parsed

    A caller feeds what it has received and takes parts until the parser says
    [Incomplete]. [receive] is that caller; its results do not depend on how the
    input was cut, and on the output of the builder they are the parts that were built. *)
From S2P Require Import Prelude RustStd Validate RustStr FieldList ContentType ContentDisposition Multipart MultipartFacts.
Import Multipart.

Implicit Types (v : view) (s t d : bytes) (ps : list Part).

(** ** The caller *)

Abbreviation ending := (result (exn MultipartError) unit).

Section Caller.
Context {S : Type} (next : st S MultipartError (option Part)) (put : bytes -> st S MultipartError unit) (size : S -> nat).

Fixpoint pull_loop (fuel : nat) (p : S) : S * (list Part * ending) :=
  match fuel with
  | O => (p, ([], Err Diverge))
  | Datatypes.S fuel' =>
      match next p with
      | (p', Ok (Some part)) => let '(p'', (ps, r)) := pull_loop fuel' p' in (p'', (part :: ps, r))
      | (p', Ok None) => (p', ([], Ok tt))
      | (p', Err e) => (p', ([], Err e))
      end
  end.

Definition pull (p : S) : S * (list Part * ending) := pull_loop (2 + size p) p.

Definition more_parts ps (o : S * (list Part * ending)) : S * (list Part * ending) :=
  let '(p, (ps', r)) := o in (p, (ps ++ ps', r)).

Fixpoint receive (chunks : list bytes) (p : S) : S * (list Part * ending) :=
  match chunks with
  | [] => (p, ([], Err (Throw Incomplete)))
  | chunk :: chunks' =>
      match put chunk p with
      | (p', Err e) => (p', ([], Err e))
      | (p', Ok _) =>
          match pull p' with
          | (p'', (ps, Err (Throw Incomplete))) => more_parts ps (receive chunks' p'')
          | o => o
          end
      end
  end.
End Caller.

(** ** The reference under more input *)

Lemma skip_while_more (p : byte -> bool) s t : skip_while p (s ++ t) = skip_while p (skip_while p s ++ t).
Proof.
  induction s as [|b s IH]; [done|]. cbn. destruct (p b) eqn:E; [done|]. cbn. by rewrite E.
Qed.

Lemma skip_while_head_more (p : byte -> bool) s t : skip_while p s <> [] -> skip_while p (s ++ t) = skip_while p s ++ t.
Proof. induction s as [|b s IH]; [done|]. cbn. by destruct (p b). Qed.

Lemma judge_app s t :
  match judge s with
  | Wait r => judge (s ++ t) = judge (r ++ t)
  | Close => judge (s ++ t) = Close
  | NextPart r => judge (s ++ t) = NextPart (r ++ t)
  | Bad => judge (s ++ t) = Bad
  end.
Proof.
  unfold judge. destruct (_ <? 2)%nat eqn:E.
  - cbv zeta. by rewrite (skip_while_more is_padding s t).
  - apply Nat.ltb_ge in E. assert (Hne : skip_while is_padding s <> []) by (intros H; rewrite H in E; simpl in E; lia).
    cbv zeta. rewrite (skip_while_head_more _ _ t Hne). set (r := skip_while _ s) in *. rewrite length_app.
    replace (_ <? 2)%nat with false by lia. rewrite take_app_le, drop_app_le by done.
    destruct (_ =s CRLF); [done|]. by destruct (_ =s DASHES).
Qed.

Lemma judge_wait s r : judge s = Wait r -> (length r < 2)%nat /\ (length r <= length s)%nat.
Proof.
  unfold judge. cbv zeta. destruct (_ <? 2)%nat eqn:E; [|by destruct (_ =s _); [|destruct (_ =s _)]].
  intros [= <-]. split; [lia|]. rewrite skip_while_drop, length_drop. lia.
Qed.

Lemma judge_next s r : judge s = NextPart r -> (length r + 2 <= length s)%nat.
Proof.
  unfold judge. cbv zeta. destruct (_ <? 2)%nat eqn:E; [done|]. destruct (_ =s CRLF); [|by destruct (_ =s _)].
  intros [= <-]. rewrite length_drop. rewrite skip_while_drop, length_drop in E |- *. lia.
Qed.

Lemma judge_short r : (length r < 2)%nat -> exists r', judge r = Wait r'.
Proof.
  intros H. unfold judge. cbv zeta. replace (_ <? 2)%nat with true; [by eexists|]. symmetry. apply Nat.ltb_lt.
  rewrite skip_while_drop, length_drop. lia.
Qed.

(** The part at the end of [s] when the input stopped right after its delimiter. *)
Definition after_part s t r part : view * result MultipartError (option Part) :=
  match judge (r ++ t) with
  | Wait r' => ((AfterInnerDelimiter, r'), Ok (Some part))
  | Close => ((Finished, s ++ t), Ok (Some part))
  | NextPart r' => ((InPart, r'), Ok (Some part))
  | Bad => ((InPart, s ++ t), Err InvalidPart)
  end.

Definition add t v : view := (fst v, snd v ++ t).

Lemma reference_part_app d s t : d <> [] ->
  let '(v, x) := reference_part d s in
  match fst v, x with
  | AfterInnerDelimiter, Ok (Some part) => reference_part d (s ++ t) = after_part s t (snd v) part
  | _, Err Incomplete => v = (InPart, s)
  | _, _ => reference_part d (s ++ t) = (add t v, x)
  end.
Proof.
  intros Hd. unfold reference_part at 1. destruct (find_sub (CRLF ++ CRLF) s) as [h|] eqn:Eh; [|done].
  pose proof (find_sub_bound (CRLF ++ CRLF) _ _ ltac:(done) Eh) as Hh. cbn in Hh.
  assert (Hr : reference_part d (s ++ t) = reference_part d (s ++ t)) by done. unfold reference_part at 2 in Hr.
  rewrite (find_sub_app (CRLF ++ CRLF) _ t _ ltac:(done) Eh), take_app_le, drop_app_le in Hr by lia.
  destruct (parse_part_headers (take h s)) as [[cd hs]|e]; [|destruct e; done]. cbv zeta in Hr |- *.
  set (rest := drop (h + 4) s) in *. destruct (find_sub d rest) as [k|] eqn:Ek; [|done].
  pose proof (find_sub_bound _ _ _ Hd Ek) as Hk.
  rewrite (find_sub_app _ _ t _ Hd Ek), take_app_le, drop_app_le in Hr by lia.
  pose proof (judge_app (drop (k + length d) rest) t) as Hj.
  destruct (judge (drop _ _)) as [r| |r|]; cbn [fst snd]; rewrite Hr; unfold after_part; by rewrite Hj.
Qed.

Section Reference.
Context (d1 d2 : bytes) (Hd1 : d1 <> []) (Hd2 : d2 <> []).

Abbreviation next := (reference_next d1 d2).

(** Steps with the same result that leave the same bytes, unless the parser stops there. *)
Definition same_step (o o' : view * result MultipartError (option Part)) : Prop :=
  snd o = snd o' /\ (fst o = fst o' \/ snd o = Ok None \/ snd o = Err InvalidPart).

Lemma same_step_refl o : same_step o o.
Proof. split; [done | by left]. Qed.

Lemma reference_next_app t v :
  let '(v', x) := next v in
  match fst v', x with
  | AfterInnerDelimiter, Ok (Some part) => exists s, next (add t v) = after_part s t (snd v') part
  | _, Err Incomplete => same_step (next (add t v)) (next (add t v'))
  | _, _ => next (add t v) = (add t v', x)
  end.
Proof.
  destruct v as [q s].
  assert (Hpart : forall s', let '(v', x) := reference_part d2 s' in
    match fst v', x with
    | AfterInnerDelimiter, Ok (Some part) => exists s, reference_part d2 (s' ++ t) = after_part s t (snd v') part
    | _, Err Incomplete => same_step (reference_part d2 (s' ++ t)) (next (add t v'))
    | _, _ => reference_part d2 (s' ++ t) = (add t v', x)
    end).
  { intros s'. pose proof (reference_part_app d2 s' t Hd2) as H. destruct (reference_part d2 s') as [v' x].
    destruct (fst v') eqn:E, x as [[part|]|[]]; try done; try (subst v'; apply same_step_refl). by exists s'. }
  remember (next (add t (q, s))) as n eqn:Hn. unfold add in Hn. cbn [fst snd] in Hn. destruct q; cbn [reference_next] in Hn |- *.
  - destruct (find_sub d1 s) as [k|] eqn:Ek; [|cbn; rewrite Hn; apply same_step_refl]. pose proof (find_sub_bound _ _ _ Hd1 Ek) as Hk.
    rewrite (find_sub_app _ _ t _ Hd1 Ek), drop_app_le in Hn by lia.
    pose proof (judge_app (drop (k + length d1) s) t) as Hj.
    destruct (judge (drop _ s)) as [r| |r|] eqn:Ej; rewrite ?Hj in Hn; subst n; try done; [|apply Hpart].
    unfold add. cbn [fst snd reference_next]. rewrite (find_sub_app _ _ t _ Hd1 Ek), drop_app_le, Hj by lia. apply same_step_refl.
  - subst n. apply Hpart.
  - pose proof (judge_app s t) as Hj. destruct (judge s) as [r| |r|] eqn:Ej; rewrite ?Hj in Hn; subst n; try done; [|apply Hpart].
    unfold add. cbn [fst snd reference_next]. destruct (judge (r ++ t)); split; auto.
  - by subst n.
Qed.

(** Each part is taken from what is left. *)
Definition weight v : nat := match fst v with Finished => O | _ => S (length (snd v)) end.

Lemma reference_part_shrinks s v x : reference_part d2 s = (v, x) ->
  (length (snd v) <= length s)%nat /\
  match x with Ok _ => (weight v <= length s)%nat | Err _ => True end /\
  match x, fst v with Ok _, AfterInnerDelimiter => (length (snd v) < 2)%nat | _, _ => True end.
Proof.
  unfold reference_part. destruct (find_sub (CRLF ++ CRLF) s) as [h|] eqn:Eh; [|by intros [= <- <-]].
  pose proof (find_sub_bound (CRLF ++ CRLF) _ _ ltac:(done) Eh) as Hh. cbn in Hh.
  destruct (parse_part_headers _) as [[cd hs]|e]; [|by intros [= <- <-]]. cbv zeta.
  destruct (find_sub d2 _) as [k|] eqn:Ek; [|by intros [= <- <-]].
  pose proof (find_sub_bound _ _ _ Hd2 Ek) as Hk. pose proof (length_pos _ Hd2). rewrite length_drop in Hk.
  destruct (judge _) as [r| |r|] eqn:Ej; intros [= <- <-]; unfold weight; cbn [fst snd];
    [apply judge_wait in Ej | | apply judge_next in Ej | ]; rewrite ?length_drop in Ej; split_and!; try done; lia.
Qed.

Lemma next_shrinks v v' x : next v = (v', x) ->
  (length (snd v') <= length (snd v))%nat /\
  match x with Ok (Some _) => (weight v' < weight v)%nat | _ => True end /\
  match x, fst v' with Ok (Some _), AfterInnerDelimiter => (length (snd v') < 2)%nat | _, _ => True end.
Proof.
  destruct v as [q s]. unfold weight at 2.
  assert (Hpart : forall s', (length s' <= length s)%nat -> reference_part d2 s' = (v', x) -> (length (snd v') <= length s)%nat /\
    match x with Ok (Some _) => (weight v' < S (length s))%nat | _ => True end /\
    match x, fst v' with Ok (Some _), AfterInnerDelimiter => (length (snd v') < 2)%nat | _, _ => True end).
  { intros s' Hs' (H1 & H2 & H3)%reference_part_shrinks. destruct x as [[part|]|]; split_and!; try done; lia. }
  destruct q; cbn [reference_next fst snd].
  - destruct (find_sub d1 s) as [k|]; [|by intros [= <- <-]].
    destruct (judge _) as [r| |r|] eqn:Ej; try by intros [= <- <-].
    apply Hpart. apply judge_next in Ej. rewrite length_drop in Ej. lia.
  - by apply Hpart.
  - destruct (judge _) as [r| |r|] eqn:Ej; try by intros [= <- <-].
    + intros [= <- <-]. cbn. apply judge_wait in Ej. split_and!; [lia | done | done].
    + apply Hpart. apply judge_next in Ej. lia.
  - by intros [= <- <-].
Qed.

(** *** The caller of the reference *)

Definition ref_next : st view MultipartError (option Part) := fun v => let '(v', x) := next v in (v', map_err Throw x).
Definition ref_put : bytes -> st view MultipartError unit := fun chunk v => (add chunk v, Ok tt).
Definition ref_size v : nat := length (snd v).

Abbreviation rpull := (pull ref_next ref_size).
Abbreviation rreceive := (receive ref_next ref_put ref_size).

Lemma pull_fuel f f' v : (weight v < f)%nat -> (weight v < f')%nat -> pull_loop ref_next f v = pull_loop ref_next f' v.
Proof.
  revert f' v. induction f as [|f IH]; intros f' v Hf Hf'; [lia|]. destruct f' as [|f']; [lia|]. cbn [pull_loop].
  unfold ref_next at 1 3. destruct (next v) as [v' x] eqn:E. apply next_shrinks in E as (_ & E & _).
  destruct x as [[part|]|]; [|done..]. cbn. by rewrite (IH f') by lia.
Qed.

Lemma weight_size v : (weight v < 2 + ref_size v)%nat.
Proof. unfold weight, ref_size. destruct (fst v); lia. Qed.

(** [pull] takes one part and goes on. *)
Lemma pull_eq v : rpull v =
  match next v with
  | (v', Ok (Some part)) => more_parts [part] (rpull v')
  | (v', Ok None) => (v', ([], Ok tt))
  | (v', Err e) => (v', ([], Err (Throw e)))
  end.
Proof.
  assert (Hp : forall f, pull_loop ref_next (S f) v = match ref_next v with
    | (v', Ok (Some part)) => more_parts [part] (pull_loop ref_next f v') | (v', Ok None) => (v', ([], Ok tt)) | (v', Err e) => (v', ([], Err e)) end).
  { intros f. cbn [pull_loop]. destruct (ref_next v) as [v' [[part|]|]]; try done. }
  change (rpull v) with (pull_loop ref_next (S (S (ref_size v))) v). rewrite Hp. unfold ref_next at 1. destruct (next v) as [v' x] eqn:E.
  pose proof (weight_size v) as Hw. apply next_shrinks in E as (_ & E & _). destruct x as [[part|]|]; [|done..]. cbn [map_err].
  f_equal. apply pull_fuel; [lia | apply weight_size].
Qed.

Lemma more_parts_app ps ps' o : more_parts (S := view) (ps ++ ps') o = more_parts ps (more_parts ps' o).
Proof. destruct o as [p [ps'' r]]. cbn. by rewrite <- app_assoc. Qed.

Lemma pull_after r : rpull (AfterInnerDelimiter, r) =
  match judge r with
  | Wait r' => ((AfterInnerDelimiter, r'), ([], Err (Throw Incomplete)))
  | Close => ((Finished, r), ([], Ok tt))
  | NextPart r' => rpull (InPart, r')
  | Bad => ((AfterInnerDelimiter, r), ([], Err (Throw InvalidPart)))
  end.
Proof. rewrite pull_eq. cbn [reference_next]. destruct (judge r); try done. by rewrite pull_eq. Qed.

Lemma pull_same_step v v' : same_step (next v) (next v') -> snd (rpull v) = snd (rpull v').
Proof.
  intros [E H]. rewrite (pull_eq v), (pull_eq v'). destruct (next v) as [w x], (next v') as [w' x']. cbn in *. subst x'.
  destruct H as [->|[->| ->]]; done.
Qed.

(** The caller stops with the part [part] right after its delimiter. *)
Lemma pull_app_after t v u u' s part : next (add t v) = after_part s t u part -> judge u = Wait u' ->
  snd (rpull (add t v)) = snd (more_parts [part] (rpull (add t (AfterInnerDelimiter, u')))) \/
  judge (u' ++ t) = Bad /\ snd (rpull (add t v)) = ([], Err (Throw InvalidPart)).
Proof.
  intros Hn Hu. pose proof (judge_app u t) as Hj. rewrite Hu in Hj.
  rewrite (pull_eq (add t v)), Hn. unfold after_part, add. cbn [fst snd]. rewrite pull_after, <- Hj.
  destruct (judge (u ++ t)) as [w| |w|] eqn:Hjt; [left|left|left|by right].
  - rewrite pull_after. pose proof (judge_wait _ _ Hjt) as [Hw' _]. by destruct (judge_short w Hw') as [w' ->].
  - by rewrite pull_eq.
  - done.
Qed.

(** More input after the caller has stopped: it would have gone on from where
    it stands, except that a part is not returned when what follows it is known to be bad. *)
Lemma pull_app t v v1 ps r : rpull v = (v1, (ps, r)) ->
  match r with
  | Err (Throw Incomplete) =>
      snd (rpull (add t v)) = snd (more_parts ps (rpull (add t v1))) \/
      exists ps0 part u, ps = ps0 ++ [part] /\ v1 = (AfterInnerDelimiter, u) /\ (length u < 2)%nat /\
        judge (u ++ t) = Bad /\ snd (rpull (add t v)) = (ps0, Err (Throw InvalidPart))
  | _ => snd (rpull (add t v)) = (ps, r)
  end.
Proof.
  revert v1 ps r. induction v as [v IH] using (induction_ltof1 _ weight); unfold ltof in IH. intros v1 ps r.
  rewrite pull_eq. pose proof (reference_next_app t v) as Hn. destruct (next v) as [v' x] eqn:E.
  apply next_shrinks in E as (_ & Hw & Hs). destruct x as [[part|]|e].
  - destruct (rpull v') as [v1' [ps' r']] eqn:Hp. intros [= -> <- ->].
    destruct (decide (fst v' = AfterInnerDelimiter)) as [Ha|Ha].
    + clear IH. destruct v' as [q u]. cbn [fst snd] in *. subst q. destruct Hn as [s Hn]. rewrite pull_after in Hp.
      destruct (judge_short u Hs) as [u' Hu]. rewrite Hu in Hp. injection Hp as <- <- <-.
      pose proof (judge_wait _ _ Hu) as [Hu' _]. destruct (pull_app_after t v u u' s part Hn Hu) as [H|[Hb H]]; [by left|].
      right. by exists [], part, u'.
    + assert (Hn' : next (add t v) = (add t v', Ok (Some part))) by (destruct (fst v'); done).
      specialize (IH v' Hw _ _ _ Hp). rewrite (pull_eq (add t v)), Hn'.
      destruct r as [[]|[[]| |]]; try (by destruct (rpull (add t v')) as [? [? ?]]; cbn in *; simplify_eq).
      destruct IH as [IH|(ps0 & p0 & u & -> & -> & Hu & Hj & IH)].
      * left. destruct (rpull (add t v')) as [? [? ?]], (rpull (add t v1)) as [? [? ?]]. cbn in *. by simplify_eq.
      * right. exists (part :: ps0), p0, u. destruct (rpull (add t v')) as [? [? ?]]. cbn in *. by simplify_eq.
  - intros [= <- <- <-]. rewrite pull_eq. assert (Hn' : next (add t v) = (add t v', Ok None)) by (destruct (fst v'); done). by rewrite Hn'.
  - intros [= <- <- <-]. destruct (decide (e = Incomplete)) as [->|He].
    + left. assert (Hn' : same_step (next (add t v)) (next (add t v'))) by (destruct (fst v'); done).
      apply pull_same_step in Hn'. rewrite Hn'. destruct (rpull (add t v')) as [? [? ?]]. done.
    + assert (Hn' : next (add t v) = (add t v', Err e)) by (destruct (fst v'), e; done).
      rewrite pull_eq, Hn'. by destruct e.
Qed.

(** *** Cutting the input *)

(** The same parts and ending, except that before a bad delimiter the second
    caller can have one part more. *)
Definition agrees (o o' : list Part * ending) : Prop :=
  o = o' \/ exists part, snd o = Err (Throw InvalidPart) /\ o' = (fst o ++ [part], Err (Throw InvalidPart)).

Lemma agrees_more ps (o o' : view * (list Part * ending)) : agrees (snd o) (snd o') -> agrees (snd (more_parts (S := view) ps o)) (snd (more_parts ps o')).
Proof.
  destruct o as [v [ps1 r1]], o' as [v' [ps2 r2]]. unfold agrees. cbn. intros [[= -> ->]|(part & -> & [= -> ->])]; [by left|right].
  exists part. cbn. by rewrite <- app_assoc.
Qed.

(** A caller that waits after a part whose delimiter will prove bad. *)
Lemma receive_bad chunks : forall u, (length u < 2)%nat -> judge (u ++ concat chunks) = Bad ->
  snd (rreceive chunks (AfterInnerDelimiter, u)) = ([], Err (Throw InvalidPart)).
Proof.
  induction chunks as [|chunk chunks IH]; intros u Hu; cbn [concat receive].
  - rewrite app_nil_r. by destruct (judge_short u Hu) as [u' ->].
  - unfold ref_put at 1, add at 1. cbn [fst snd]. rewrite app_assoc, pull_after. pose proof (judge_app (u ++ chunk) (concat chunks)) as Hj.
    destruct (judge (u ++ chunk)) as [r| |r|] eqn:E; rewrite Hj; try done.
    intros Hb. apply judge_wait in E as [Hr _]. specialize (IH r Hr Hb).
    destruct (rreceive chunks _) as [? [? ?]]. cbn in *. by simplify_eq.
Qed.

Definition resting v : Prop := snd (rpull v) = ([], Err (Throw Incomplete)).

Lemma add_nil v : add [] v = v.
Proof. destruct v. unfold add. cbn. by rewrite app_nil_r. Qed.

Lemma add_add s t v : add t (add s v) = add (s ++ t) v.
Proof. unfold add. cbn. by rewrite app_assoc. Qed.

Lemma pull_resting v v1 ps : rpull v = (v1, (ps, Err (Throw Incomplete))) -> resting v1.
Proof.
  intros H. pose proof (pull_app [] _ _ _ _ H) as Hp. cbv beta iota in Hp. rewrite !add_nil, H in Hp. unfold resting.
  destruct (rpull v1) as [w [ps' r']]. cbn in *. destruct Hp as [[= Hps <-]|(? & ? & ? & ? & ? & ? & ? & [=])].
  f_equal. apply (f_equal length) in Hps. rewrite length_app in Hps. destruct ps'; [done | cbn in Hps; lia].
Qed.

Lemma receive_agrees chunks : forall v, resting v -> agrees (snd (rpull (add (concat chunks) v))) (snd (rreceive chunks v)).
Proof.
  induction chunks as [|chunk chunks IH]; intros v Hv; cbn [concat receive]; [rewrite add_nil; by left|].
  unfold ref_put at 1. destruct (rpull (add chunk v)) as [v1 [ps r]] eqn:Hp. rewrite <- add_add.
  pose proof (pull_app (concat chunks) _ _ _ _ Hp) as Ha.
  destruct r as [u|e]; [by left|]. destruct e as [e| |]; [|by left..]. destruct (decide (e = Incomplete)) as [->|He].
  - pose proof (pull_resting _ _ _ Hp) as Hv1. specialize (IH v1 Hv1). destruct Ha as [->|(ps0 & part & u & -> & -> & Hu & Hb & ->)].
    + by apply agrees_more.
    + right. exists part. split; [done|]. pose proof (receive_bad chunks u Hu Hb) as Hr.
      destruct (rreceive chunks _) as [w [? ?]]. cbn in *. simplify_eq. by rewrite app_nil_r.
  - left. destruct e; done.
Qed.
End Reference.

(** ** The parser as the caller uses it *)

Definition parse_chunks (chunks : list bytes) (p : MultipartParser) : MultipartParser * (list Part * ending) :=
  receive next_part feed (fun p => length (rest_of p)) chunks p.

Section Concrete.
Context (d1 d2 : bytes) (Hd1 : d1 <> []) (Hd2 : d2 <> []).

Definition delimited (p : MultipartParser) : Prop := first_delimiter p = d1 /\ inner_delimiter p = d2.

Lemma delimited_kept p p' : kept p p' -> delimited p -> delimited p'.
Proof. unfold kept, delimited. intuition congruence. Qed.

(** A run on the parser and one on the reference. *)
Definition same_run (p : MultipartParser) (o : MultipartParser * (list Part * ending)) (o' : view * (list Part * ending)) : Prop :=
  snd o = snd o' /\ parser_ok (fst o) /\ kept p (fst o) /\ view_of (fst o) = fst o'.

Lemma pull_loop_refines fuel : forall p, parser_ok p -> delimited p ->
  same_run p (pull_loop next_part fuel p) (pull_loop (ref_next d1 d2) fuel (view_of p)).
Proof.
  induction fuel as [|fuel IH]; intros p Hp Hd; [by split_and!|]. cbn [pull_loop]. unfold ref_next at 1.
  destruct (reference_next d1 d2 (view_of p)) as [v x] eqn:E. pose proof Hd as [Hf Hi]. rewrite <- Hf, <- Hi in E.
  destruct (next_refines p v x Hp E) as (p' & -> & Hp' & Hk & Hv). destruct x as [[part|]|e]; [|by split_and!..].
  cbn [map_err]. destruct (IH p' Hp' (delimited_kept _ _ Hk Hd)) as (Hs & Ho & Hk' & Hv'). rewrite Hv in *.
  destruct (pull_loop next_part fuel p') as [q [ps r]], (pull_loop _ fuel v) as [w [ps' r']]. cbn in *. simplify_eq.
  split_and!; [done | done | by eapply keeps_trans | done].
Qed.

Lemma pull_shrinks v : (length (snd (fst (pull (ref_next d1 d2) ref_size v))) <= length (snd v))%nat.
Proof.
  induction v as [v IH] using (induction_ltof1 _ weight); unfold ltof in IH. rewrite pull_eq by done.
  destruct (reference_next d1 d2 v) as [v' x] eqn:E. apply next_shrinks in E as (Hl & Hw & _); [|done..].
  destruct x as [[part|]|]; [|done..]. specialize (IH v' Hw). destruct (pull _ _ v') as [w [ps r]]. cbn in *. lia.
Qed.

Lemma receive_refines chunks : forall p, parser_ok p -> delimited p ->
  blen (rest_of p) + blen (concat chunks) <= max_buffer_size p ->
  snd (parse_chunks chunks p) = snd (receive (ref_next d1 d2) ref_put ref_size chunks (view_of p)).
Proof.
  unfold parse_chunks. induction chunks as [|chunk chunks IH]; intros p Hp Hd Hmax; [done|]. cbn [receive concat] in *.
  rewrite blen_app in Hmax. rewrite feed_eq by done. cbv zeta. replace (_ <? _) with false by lia. unfold ref_put at 1.
  set (p1 := set_buffer _ p). pose proof (set_buffer_ok p chunk Hp) as Hp1. fold p1 in Hp1.
  assert (Hv : view_of p1 = add chunk (view_of p)) by (unfold view_of, add; cbn [fst snd]; by rewrite <- rest_of_app by apply Hp).
  pose proof (pull_loop_refines (2 + length (rest_of p1)) p1 Hp1 Hd) as Hr. rewrite Hv in Hr.
  unfold pull. replace (ref_size (add chunk (view_of p))) with (length (rest_of p1)) by (by rewrite <- Hv).
  pose proof (pull_shrinks (add chunk (view_of p))) as Hs. unfold pull in Hs.
  replace (ref_size (add chunk (view_of p))) with (length (rest_of p1)) in Hs by (by rewrite <- Hv).
  destruct (pull_loop next_part _ p1) as [p2 [ps r]], (pull_loop (ref_next d1 d2) _ _) as [v2 [ps' r']].
  destruct Hr as (Hr & Hp2 & Hk & Hv2). cbn [fst snd] in *. injection Hr as <- <-. destruct r as [|[[]| |]]; try done.
  specialize (IH p2 Hp2 (delimited_kept _ _ Hk Hd)). rewrite Hv2 in IH.
  destruct Hk as (_ & _ & Hk). rewrite Hk in IH. unfold add in Hs. cbn [snd view_of] in Hs. rewrite length_app in Hs.
  assert (Hlen : length (rest_of p2) = length (snd v2)) by (by rewrite <- Hv2).
  assert (Hle : blen (rest_of p2) + blen (concat chunks) <= max_buffer_size p1) by (unfold blen in *; change (max_buffer_size p1) with (max_buffer_size p); lia).
  specialize (IH Hle). destruct (receive next_part _ _ chunks p2) as [? [? ?]], (receive _ _ _ chunks v2) as [? [? ?]]. cbn in *. by simplify_eq.
Qed.
End Concrete.

(** ** Runs *)

Definition parser_for (boundary : str) (max : N) : MultipartParser := with_max_buffer_size (new boundary) max.

Lemma parser_for_ok boundary max : parser_ok (parser_for boundary max).
Proof. destruct (new_ok boundary) as [[] _]. by split. Qed.

Section Runs.
Context (boundary : str).

Let d1 : bytes := first_delimiter (new boundary).
Let d2 : bytes := inner_delimiter (new boundary).

Lemma parse_chunks_reference max chunks : blen (concat chunks) <= max ->
  snd (parse_chunks chunks (parser_for boundary max)) = snd (receive (ref_next d1 d2) ref_put ref_size chunks (Initial, [])).
Proof. intros H. by rewrite (receive_refines d1 d2) by (done || apply parser_for_ok). Qed.

Lemma receive_one chunk v : snd (receive (ref_next d1 d2) ref_put ref_size [chunk] v) = snd (pull (ref_next d1 d2) ref_size (add chunk v)).
Proof.
  cbn [receive]. unfold ref_put at 1. destruct (pull _ _ _) as [v' [ps [|[[]| |]]]]; try done. cbn. by rewrite app_nil_r.
Qed.

Lemma resting_start : resting d1 d2 (Initial, []).
Proof. unfold resting. by rewrite pull_eq. Qed.

Lemma pull_orderly v : orderly (snd (snd (pull (ref_next d1 d2) ref_size v))).
Proof.
  induction v as [v IH] using (induction_ltof1 _ weight); unfold ltof in IH. rewrite pull_eq by done.
  destruct (reference_next d1 d2 v) as [v' x] eqn:E. apply next_shrinks in E as (_ & Hw & _); [|done..].
  destruct x as [[part|]|]; [|done..]. specialize (IH v' Hw). by destruct (pull _ _ v') as [w [ps r]].
Qed.

Lemma receive_orderly chunks : forall v, orderly (snd (snd (receive (ref_next d1 d2) ref_put ref_size chunks v))).
Proof.
  induction chunks as [|chunk chunks IH]; intros v; [done|]. cbn [receive]. unfold ref_put at 1.
  pose proof (pull_orderly (add chunk v)) as Ho. destruct (pull _ _ _) as [v' [ps [|[[]| |]]]]; try done.
  specialize (IH v'). by destruct (receive _ _ _ chunks v') as [w [ps' r]].
Qed.
End Runs.

(** ** The properties *)

(** C27: The multipart parser refines a reference that holds a phase and the
    unread bytes and searches them from their start with [str::find]: for every parser
    in its invariant (which a new parser satisfies), [feed] appends to the
    unread bytes or reports the overflow, and [next_part] gives the reference's
    part or error, does not panic, and leaves the parser in its invariant. So the scan
    offset never skips a delimiter and giving back memory is not seen. *)
Theorem multipart_refines_reference :
  (forall boundary max, parser_ok (parser_for boundary max) /\ view_of (parser_for boundary max) = (Initial, [])) /\
  (forall p data, parser_ok p ->
    let size := N.min usize_MAX (blen (rest_of p) + blen data) in
    if max_buffer_size p <? size then feed data p = (p, Err (Throw (BufferOverflow size (max_buffer_size p))))
    else exists p', feed data p = (p', Ok tt) /\ parser_ok p' /\ kept p p' /\ view_of p' = (state p, rest_of p ++ data)) /\
  (forall p, parser_ok p ->
    let '(v, r) := reference_next (first_delimiter p) (inner_delimiter p) (view_of p) in
    exists p', next_part p = (p', map_err Throw r) /\ parser_ok p' /\ kept p p' /\ view_of p' = v).
Proof.
  split_and!.
  - intros boundary max. split; [apply parser_for_ok | done].
  - intros p data H. rewrite feed_eq by done. cbv zeta. destruct (_ <? _); [done|].
    eexists. split; [done|]. split; [by apply set_buffer_ok|]. split; [done|].
    unfold view_of. rewrite rest_of_app by apply H. done.
  - intros p H. destruct (reference_next _ _ _) as [v r] eqn:E. by apply next_refines.
Qed.

Example multipart_refines_reference_witness :
  let p := fst (feed (B "--b  ") (parser_for (B "b") 100)) in
  exists p', next_part p = (p', Err (Throw Incomplete)) /\ parser_ok p'.
Proof.
  destruct multipart_refines_reference as (Hnew & Hfeed & Hnext). cbv zeta.
  destruct (Hfeed (parser_for (B "b") 100) (B "--b  ") (proj1 (Hnew (B "b") 100))) as (p & E & Hp & _ & Hv).
  rewrite E. cbn [fst]. specialize (Hnext p Hp).
  destruct (reference_next _ _ _) as [v r] eqn:Er.
  assert (Hr : r = Err Incomplete).
  { assert (Hf : p = fst (feed (B "--b  ") (parser_for (B "b") 100))) by (by rewrite E).
    subst p. vm_compute in Er. congruence. }
  subst r. destruct Hnext as (p' & E' & Hp' & _). by exists p'.
Defined.

(** C28: How an input that fits into the buffer (of at most [max_buffer_size]
    bytes in all) is cut does not matter: a caller that feeds it in chunks and
    takes the parts after each gets the parts and the ending of a caller that
    feeds it at once, except that when a delimiter is followed by neither [CRLF] nor [--] both
    end with [InvalidPart] and the caller with the chunks may have got the part
    before it. No caller sees a panic or a loop that does not end. *)
Theorem multipart_segmentation boundary max chunks : blen (concat chunks) <= max ->
  let p := parser_for boundary max in
  agrees (snd (parse_chunks [concat chunks] p)) (snd (parse_chunks chunks p)) /\
  orderly (snd (snd (parse_chunks chunks p))).
Proof.
  intros Hmax p. subst p. rewrite (parse_chunks_reference _ _ chunks) by done. split; [|apply receive_orderly].
  rewrite parse_chunks_reference by (cbn; by rewrite app_nil_r). rewrite receive_one.
  apply receive_agrees; [done | done | apply resting_start].
Qed.

(** The exception is real: the same bytes, with and without a part. *)
Definition cut_input : bytes :=
  B "--b" ++ CRLF ++ B "Content-Disposition: form-data; name=x" ++ CRLF ++ CRLF ++ B "v" ++ CRLF ++ B "--b".

Example cut_after_delimiter :
  let run chunks := let '(ps, r) := snd (parse_chunks chunks (parser_for (B "b") 1000)) in (map body ps, r) in
  run [cut_input ++ B "??"] = ([], Err (Throw InvalidPart)) /\
  run [cut_input; B "??"] = ([B "v"], Err (Throw InvalidPart)).
Proof. vm_compute. done. Qed.

Example multipart_segmentation_witness :
  let chunks := map (fun b => [b]) (cut_input ++ B "--") in
  agrees (snd (parse_chunks [concat chunks] (parser_for (B "b") 1000))) (snd (parse_chunks chunks (parser_for (B "b") 1000))) /\
  map body (fst (snd (parse_chunks chunks (parser_for (B "b") 1000)))) = [B "v"].
Proof.
  intros chunks. split; [|vm_compute; reflexivity].
  assert (Hmax : blen (concat chunks) <= 1000) by (vm_compute; discriminate).
  destruct (multipart_segmentation (B "b") 1000 chunks Hmax) as [H _]. exact H.
Defined.
