(* ===== verification/MultipartRoundTrip.v ===== *)
(** * Multipart: what is built is parsed back

    The header block a part is written with, and the parser on the whole body. *)
From S2P Require Import Prelude RustStd Validate RustStr FieldList ContentType ContentDisposition Multipart MultipartFacts MultipartTheorems.
Import Multipart.

Definition CR : byte := "013"%byte.
Definition LF : byte := "010"%byte.

(** ** Text without line ends *)

Definition in_line (b : byte) : bool := negb ((b =b CR) || (b =b LF)).
Abbreviation one_line := (forallb in_line).

Lemma token_one_line s : forallb is_token_char s = true -> one_line s = true.
Proof. apply forallb_impl. intros b. byte_solve b. Qed.

Lemma valid_token_one_line s : is_valid_token s = true -> one_line s = true.
Proof. unfold is_valid_token. intros [_ H]%andb_true_iff. by apply token_one_line. Qed.

Lemma flat_map_all {A} (p : byte -> bool) (f : A -> bytes) l : (forall x, forallb p (f x) = true) -> forallb p (flat_map f l) = true.
Proof. intros H. induction l as [|x l IH]; [done|]. cbn [flat_map]. by rewrite forallb_app, H, IH. Qed.

Lemma escape_one_line s : one_line (escape_quotes s) = true.
Proof. apply flat_map_all. intros b. by destruct b. Qed.

Lemma quoted_one_line s : one_line ([DQUOTE] ++ escape_quotes s ++ [DQUOTE]) = true.
Proof. by rewrite !forallb_app, escape_one_line. Qed.

Lemma value_text_one_line s : one_line (value_text s) = true.
Proof. destruct (value_text_cases s) as [[-> H]| ->]; [by apply valid_token_one_line | apply quoted_one_line]. Qed.

Lemma ext_text_one_line s : one_line (ContentDisposition.ext_text s) = true.
Proof. unfold ContentDisposition.ext_text. rewrite forallb_app. apply andb_true_iff. split; [done|]. apply flat_map_all. intros b. by destruct b. Qed.

Lemma join_all (p : byte -> bool) d xs : forallb p d = true -> Forall (fun x => forallb p x = true) xs -> forallb p (join d xs) = true.
Proof.
  intros Hd. induction 1 as [|x xs Hx Hxs IH]; [done|]. destruct xs as [|y xs]; [done|].
  rewrite join_cons by done. by rewrite !forallb_app, Hx, Hd, IH.
Qed.

(** ** Valid strings *)

(** Quoting keeps a string valid: only ASCII characters change. *)
Lemma escape_char_valid c : one_char c -> utf8_valid (flat_map escape_char c) = true.
Proof.
  intros (Hv & Hc & Hb). destruct c as [|b r]; [done|]. destruct Hb as [_ Hr].
  assert (Hid : flat_map escape_char r = r).
  { clear Hv Hc. induction r as [|x r IH]; [done|]. cbn [forallb flat_map] in *. apply andb_true_iff in Hr as [Hx Hr]. rewrite IH by done.
    assert (He : (escape_char x =s [x]) = true) by (revert Hx; clear; byte_solve x). by apply beqs_eq in He as ->. }
  cbn [flat_map]. rewrite Hid. destruct (is_ascii b) eqn:E.
  - assert (r = []) as ->.
    { cbn [char_list] in Hc. unfold is_ascii in E. rewrite E in Hc. by injection Hc as <-. }
    apply utf8_ascii. rewrite app_nil_r. revert E. clear. byte_solve b.
  - assert (He : (escape_char b =s [b]) = true) by (revert E; clear; byte_solve b). by apply beqs_eq in He as ->.
Qed.

Lemma escape_valid s : utf8_valid s = true -> utf8_valid (escape_quotes s) = true.
Proof.
  intros (cs & -> & Hcs)%one_chars. unfold escape_quotes. induction Hcs as [|c cs Hc Hcs IH]; [done|].
  cbn [concat]. rewrite flat_map_app. by apply utf8_app; [apply escape_char_valid|].
Qed.

Lemma ascii_valid_app a s : forallb is_ascii a = true -> utf8_valid s = true -> utf8_valid (a ++ s) = true.
Proof. intros Ha Hs. by apply utf8_app; [apply utf8_ascii|]. Qed.

Lemma token_valid s : is_valid_token s = true -> utf8_valid s = true.
Proof. unfold is_valid_token. intros [_ H]%andb_true_iff. apply utf8_ascii. revert H. apply forallb_impl. intros b. byte_solve b. Qed.

Lemma quoted_valid s : utf8_valid s = true -> utf8_valid ([DQUOTE] ++ escape_quotes s ++ [DQUOTE]) = true.
Proof. intros H. apply ascii_valid_app; [done|]. by apply utf8_app; [apply escape_valid|]. Qed.

Lemma value_text_valid s : utf8_valid s = true -> utf8_valid (value_text s) = true.
Proof. intros H. destruct (value_text_cases s) as [[-> _]| ->]; [done | by apply quoted_valid]. Qed.

Lemma join_valid d xs : utf8_valid d = true -> Forall (fun x => utf8_valid x = true) xs -> utf8_valid (join d xs) = true.
Proof.
  intros Hd. induction 1 as [|x xs Hx Hxs IH]; [done|]. destruct xs as [|y xs]; [done|].
  rewrite join_cons by done. by apply utf8_app, utf8_app.
Qed.

(** ** The texts of the two fields *)

Section Disposition.
Import ContentDisposition.
Context (cd : t) (Hcd : ok cd).

Lemma disposition_pieces : fmt cd = join (sep ";") (DispositionType_fmt (disposition_type cd) :: map field_text (fields cd)).
Proof. apply fmt_fields, Hcd. Qed.

Lemma disposition_one_line : one_line (fmt cd) = true.
Proof.
  destruct Hcd as (_ & Ht & Hf & _). rewrite disposition_pieces. apply join_all; [done|].
  constructor; [by apply valid_token_one_line|]. apply Forall_map. revert Hf. apply Forall_impl. intros [n v] [[Hn _] _].
  unfold field_text. cbn [fst snd] in *. rewrite forallb_app, valid_token_one_line, forallb_app by done.
  destruct (n =s _); [apply ext_text_one_line | apply quoted_one_line].
Qed.

Lemma disposition_valid : Forall (fun p => utf8_valid (snd p) = true) (fields cd) -> utf8_valid (fmt cd) = true.
Proof.
  intros Hu. destruct Hcd as (_ & Ht & Hf & _). rewrite disposition_pieces. apply join_valid; [done|].
  constructor; [by apply token_valid|]. apply Forall_map, Forall_forall. intros [n v] Hin.
  rewrite Forall_forall in Hf, Hu. destruct (Hf _ Hin) as [[Hn _] _]. pose proof (Hu _ Hin) as Hv. unfold field_text. cbn [fst snd] in *.
  apply utf8_app; [by apply token_valid|]. apply ascii_valid_app; [done|].
  destruct (n =s _); [apply utf8_app; [done | apply utf8_ascii, encode_ascii] | by apply quoted_valid].
Qed.

Lemma disposition_ends : text_ends (fmt cd).
Proof.
  destruct Hcd as (_ & Ht & Hf & _). rewrite disposition_pieces. apply texts_join_ends; [by apply token_text_ends|].
  apply Forall_map. revert Hf. apply Forall_impl. apply field_text_ends.
Qed.
End Disposition.

Section Type_.
Import ContentType.
Context (c : t) (Hc : ok c).

Lemma type_pieces : fmt c = mime_type c ++ concat (map (fun p => B "; " ++ parameter_text p) (parameters c)).
Proof. unfold fmt, mime_type. rewrite !app_assoc, flat_map_concat_map. do 2 f_equal. apply map_ext, parameter_fmt_eq. Qed.

Lemma type_one_line : one_line (fmt c) = true.
Proof.
  destruct Hc as ([Hm _] & [Hs _] & Hp). rewrite type_pieces. unfold mime_type. rewrite !forallb_app.
  rewrite (valid_token_one_line (media_type c)), (valid_token_one_line (subtype c)) by done. change (one_line (B "/")) with true. cbn [andb]. revert Hp. generalize (parameters c).
  induction 1 as [|p ps [[Hn _] _] Hps IH]; [done|]. cbn [map concat]. unfold parameter_text at 1.
  by rewrite !forallb_app, (valid_token_one_line (fst p)), value_text_one_line, IH.
Qed.

Lemma type_valid : Forall (fun p => utf8_valid (snd p) = true) (parameters c) -> utf8_valid (fmt c) = true.
Proof.
  destruct Hc as ([Hm _] & [Hs _] & Hp). intros Hu. rewrite type_pieces. unfold mime_type. apply utf8_app.
  - apply utf8_app; [by apply token_valid|]. apply utf8_app; [done | by apply token_valid].
  - revert Hp Hu. generalize (parameters c). induction 1 as [|p ps [[Hn _] _] Hps IH]; [done|]. intros Hu. apply Forall_cons_iff in Hu as [Hu1 Hu]. cbn [map concat]. apply utf8_app; [|by apply IH].
    apply ascii_valid_app; [done|]. apply utf8_app; [by apply token_valid|]. apply ascii_valid_app; [done | by apply value_text_valid].
Qed.

Lemma type_ends : text_ends (fmt c).
Proof.
  pose proof (mime_text_ends _ Hc) as Hm. destruct Hc as (_ & _ & Hp). rewrite type_pieces.
  destruct (parameters c) as [|p ps] eqn:E; [cbn; by rewrite app_nil_r|].
  rewrite <- E in *. replace (map _ (parameters c)) with (map parameter_fmt (parameters c)) by apply map_ext, parameter_fmt_eq.
  rewrite <- flat_map_concat_map, parameters_fmt_eq by congruence.
  apply text_ends_mid; [done|]. apply parameters_text_ends; [done | congruence].
Qed.
End Type_.

(** ** A block of lines *)

Definition line_ok (l : bytes) : Prop := l <> [] /\ one_line l = true.

Lemma one_line_lookup l j : one_line l = true -> l !! j <> Some CR /\ l !! j <> Some LF.
Proof.
  intros H%forallb_Forall. split; intros E; by apply (Forall_lookup_1 _ _ _ _ H) in E.
Qed.

Lemma find_sub_skip d l s : d <> [] -> (forall j, (j < length l)%nat -> ~ occurs d (l ++ s) j) ->
  find_sub d (l ++ s) = Nat.add (length l) <$> find_sub d s.
Proof.
  intros Hd H. apply (first_at_unique d (l ++ s)); [by apply find_sub_first|].
  pose proof (find_sub_first d s Hd) as Hf.
  assert (Hocc : forall j, occurs d s j <-> occurs d (l ++ s) (length l + j)) by (intros j; rewrite <- occurs_drop, drop_app_length; done).
  destruct (find_sub d s) as [k|]; cbn [fmap option_fmap option_map first_at] in *.
  - destruct Hf as [Ho Hm]. split; [by apply Hocc|]. intros j Hj. destruct (decide (j < length l)%nat); [by apply H|].
    intros Hj'. apply (Hm (j - length l)%nat); [lia|]. apply Hocc. by replace (length l + (j - length l))%nat with j by lia.
  - intros j Hj'. destruct (decide (j < length l)%nat); [by apply (H j)|].
    apply (Hf (j - length l)%nat), Hocc. by replace (length l + (j - length l))%nat with j by lia.
Qed.

Lemma occurs_head b d s j : occurs (b :: d) s j -> s !! j = Some b.
Proof.
  intros H. apply (f_equal (fun l => l !! O)) in H. rewrite lookup_take_lt in H by (simpl; lia).
  by rewrite lookup_drop, Nat.add_0_r in H.
Qed.

Lemma occurs_blank s j : occurs (CRLF ++ CRLF) s j -> s !! j = Some CR /\ s !! (2 + j)%nat = Some CR.
Proof.
  intros H. split; [by apply occurs_head in H|]. apply (f_equal (fun l => l !! 2%nat)) in H.
  rewrite lookup_take_lt, lookup_drop in H by (cbn; lia). rewrite Nat.add_comm. exact H.
Qed.

(** The first blank line is the one after the last line. *)
Lemma find_blank ls x : ls <> [] -> Forall line_ok ls ->
  find_sub (CRLF ++ CRLF) (join CRLF ls ++ CRLF ++ CRLF ++ x) = Some (length (join CRLF ls)).
Proof.
  intros Hne H. induction H as [|l ls [Hl1 Hl] Hls IH]; [done|].
  assert (Hskip : forall s j, (j < length l)%nat -> ~ occurs (CRLF ++ CRLF) (l ++ s) j).
  { intros s j Hj [Ho _]%occurs_blank. rewrite lookup_app_l in Ho by done. by apply one_line_lookup with (j := j) in Hl as [Hl _]. }
  destruct ls as [|l' ls].
  - cbn [join]. rewrite find_sub_skip by (done || apply Hskip). cbn. f_equal. lia.
  - rewrite join_cons, <- !app_assoc by done. rewrite find_sub_skip by (done || apply Hskip).
    set (s := join CRLF (l' :: ls) ++ CRLF ++ CRLF ++ x) in *.
    assert (Hs : s !! 0%nat <> Some CR).
    { apply Forall_cons_iff in Hls as [[Hn Ho] _]. destruct l' as [|b l']; [done|]. apply (one_line_lookup _ 0) in Ho as [Ho _].
      unfold s. by destruct ls. }
    rewrite (find_sub_skip _ CRLF s); [|done|].
    + rewrite IH by done. cbn [fmap option_fmap option_map]. f_equal. rewrite !length_app. done.
    + intros [|[|j]] Hj [Ho1 Ho2]%occurs_blank; [by apply Hs | done | cbn in Hj; lia].
Qed.

Lemma split_crlf_line l : one_line l = true -> split_crlf l = [l].
Proof.
  induction l as [|b l IH]; [done|]. cbn [forallb]. intros [Hb Hl]%andb_true_iff. specialize (IH Hl). cbn [split_crlf].
  destruct l as [|c l]; [done|]. rewrite IH.
  replace (b =b "013") with false; [done|]. revert Hb. clear. unfold in_line, CR. by destruct (b =b "013").
Qed.

Lemma split_crlf_cons l s : one_line l = true -> split_crlf (l ++ CRLF ++ s) = l :: split_crlf s.
Proof.
  induction l as [|b l IH]; [done|]. cbn [forallb]. intros [Hb Hl]%andb_true_iff. specialize (IH Hl).
  cbn [app split_crlf]. destruct (l ++ CRLF ++ s) as [|c r] eqn:E; [by destruct l|]. rewrite IH.
  replace (b =b "013") with false; [done|]. revert Hb. clear. unfold in_line, CR. by destruct (b =b "013").
Qed.

Lemma split_crlf_join ls : ls <> [] -> Forall line_ok ls -> split_crlf (join CRLF ls) = ls.
Proof.
  intros Hne H. induction H as [|l ls [_ Hl] Hls IH]; [done|]. destruct ls as [|l' ls]; [by apply split_crlf_line|].
  rewrite join_cons, split_crlf_cons, IH by done. done.
Qed.

(** ** The lines of a part *)

Definition field_line (name value : str) : bytes := name ++ B ": " ++ value.

Definition header_ok (h : str * str) : Prop :=
  is_valid_token (fst h) = true /\
  eq_ignore_ascii_case (fst h) (B "Content-Disposition") = false /\
  eq_ignore_ascii_case (fst h) (B "Content-Type") = false /\
  trim (snd h) = snd h /\ one_line (snd h) = true /\ utf8_valid (snd h) = true.

Definition part_lines (p : Part) (cd : ContentDisposition.t) : list bytes :=
  field_line (B "Content-Disposition") (ContentDisposition.fmt cd) ::
  match content_type p with Some ct => [field_line (B "Content-Type") (ContentType.fmt ct)] | None => [] end ++
  map (fun h => field_line (fst h) (snd h)) (headers p).

(** What a part must satisfy to be read back: a form-data disposition with a name, and texts the fields can carry. *)
Record headers_ok (p : Part) (cd : ContentDisposition.t) : Prop := {
  hk_disposition : content_disposition p = Some cd;
  hk_ok : ContentDisposition.ok cd;
  hk_form_data : ContentDisposition.is_form_data cd = true;
  hk_name : is_some (ContentDisposition.name cd) = true;
  hk_text : Forall (fun f => utf8_valid (snd f) = true) (ContentDisposition.fields cd);
  hk_type : match content_type p with
            | Some ct => ContentType.ok ct /\ Forall (fun f => utf8_valid (snd f) = true) (ContentType.parameters ct)
            | None => True end;
  hk_headers : Forall header_ok (headers p);
}.

Lemma field_line_ok name value : is_valid_token name = true -> one_line value = true -> line_ok (field_line name value).
Proof.
  intros Hn Hv. unfold field_line. split.
  - by destruct name.
  - by rewrite forallb_app, forallb_app, valid_token_one_line.
Qed.

Lemma field_line_valid name value : is_valid_token name = true -> utf8_valid value = true -> utf8_valid (field_line name value) = true.
Proof. intros Hn Hv. apply utf8_app; [by apply token_valid|]. by apply ascii_valid_app. Qed.

Section PartLines.
Context (p : Part) (cd : ContentDisposition.t) (Hp : headers_ok p cd).

Lemma part_lines_all (P : bytes -> Prop) :
  P (field_line (B "Content-Disposition") (ContentDisposition.fmt cd)) ->
  (forall ct, content_type p = Some ct -> P (field_line (B "Content-Type") (ContentType.fmt ct))) ->
  Forall (fun h => P (field_line (fst h) (snd h))) (headers p) -> Forall P (part_lines p cd).
Proof.
  intros H1 H2 H3. constructor; [done|]. apply Forall_app. split; [|by apply Forall_map].
  destruct (content_type p) as [ct|]; [by constructor; [apply H2|] | constructor].
Qed.

Lemma part_lines_ok : Forall line_ok (part_lines p cd).
Proof.
  destruct Hp as [_ Hok _ _ _ Ht Hh]. apply part_lines_all.
  - apply field_line_ok; [done | by apply disposition_one_line].
  - intros ct E. rewrite E in Ht. destruct Ht. apply field_line_ok; [done | by apply type_one_line].
  - revert Hh. apply Forall_impl. intros h (Hn & _ & _ & _ & Hv & _). by apply field_line_ok.
Qed.

Lemma part_lines_valid : utf8_valid (join CRLF (part_lines p cd)) = true.
Proof.
  destruct Hp as [_ Hok _ _ Hu Ht Hh]. apply join_valid; [done|]. apply part_lines_all.
  - apply field_line_valid; [done | by apply disposition_valid].
  - intros ct E. rewrite E in Ht. destruct Ht. apply field_line_valid; [done | by apply type_valid].
  - revert Hh. apply Forall_impl. intros h (Hn & _ & _ & _ & _ & Hv). by apply field_line_valid.
Qed.

Lemma build_headers_eq : build_headers p = join CRLF (part_lines p cd) ++ CRLF.
Proof.
  assert (Hj : forall ls, ls <> [] -> join CRLF ls ++ CRLF = concat (map (fun l => l ++ CRLF) ls)).
  { induction ls as [|l ls IH]; [done|]. intros _. destruct ls as [|l' ls]; [cbn; by rewrite app_nil_r|].
    rewrite join_cons, <- !app_assoc, IH by done. cbn [map concat]. by rewrite <- !app_assoc. }
  assert (Hl : forall n v, part_header_line n v = field_line n v ++ CRLF) by (intros n v; unfold field_line; by rewrite <- !app_assoc).
  rewrite Hj by done. unfold build_headers, part_lines. rewrite (hk_disposition _ _ Hp), Hl. cbn [map concat].
  rewrite map_app, concat_app, map_map. f_equal. f_equal.
  - destruct (content_type p); [|done]. rewrite Hl. cbn [map concat]. by rewrite app_nil_r.
  - f_equal. apply map_ext. intros [n v]. apply Hl.
Qed.

Lemma split_field_line name value : is_valid_token name = true -> split_once ":" (field_line name value) = Some (name, " "%byte :: value).
Proof.
  intros [_ H]%is_valid_token_iff. unfold field_line. apply split_once_app. unfold contains_byte. rewrite existsb_negb_forallb, negb_false_iff.
  revert H. apply forallb_impl. intros b. byte_solve b.
Qed.

Lemma trim_space s : trim (" "%byte :: s) = trim s.
Proof. unfold trim. by rewrite trim_start_space. Qed.

Lemma header_lines_fields hs : forall h, Forall header_ok hs ->
  part_header_lines (map (fun h => field_line (fst h) (snd h)) hs) h = mkPartHeaders (ph_disposition h) (ph_type h) (ph_headers h ++ hs).
Proof.
  induction hs as [|[n v] hs IH]; intros h Hh; cbn [map part_header_lines].
  - rewrite app_nil_r. by destruct h.
  - apply Forall_cons_iff in Hh as [(Hn & H1 & H2 & Ht & _) Hh]. cbn [fst snd] in *. rewrite split_field_line by done.
    replace (is_empty (field_line n v)) with false by (symmetry; by destruct n).
    rewrite trim_space, Ht, (trim_token n), H1, H2, IH by done. cbn. by rewrite <- app_assoc.
Qed.

Lemma parse_part_lines : parse_part_headers (join CRLF (part_lines p cd)) = Ok (cd, mkPartHeaders (Some cd) (content_type p) (headers p)).
Proof.
  unfold parse_part_headers. rewrite from_utf8_valid by apply part_lines_valid. cbn [map_err mbind result_bind].
  rewrite split_crlf_join by (done || apply part_lines_ok).
  assert (Hh : part_header_lines (part_lines p cd) (mkPartHeaders None None []) = mkPartHeaders (Some cd) (content_type p) (headers p)).
  { destruct Hp as [_ Hok _ _ _ Ht Hh]. unfold part_lines. cbn [part_header_lines]. rewrite split_field_line by done.
    change (is_empty (field_line (B "Content-Disposition") _)) with false. cbv beta iota zeta.
    change (trim (B "Content-Disposition")) with (B "Content-Disposition").
    rewrite trim_space, (trim_text (tr := trim) (ContentDisposition.fmt cd)) by (by apply disposition_ends). rewrite ContentDisposition.parse_disposition_fmt by done.
    change (eq_ignore_ascii_case (B "Content-Disposition") (B "Content-Disposition")) with true. cbn [ph_type ph_headers ok_of].
    destruct (content_type p) as [ct|]; cbn [app]; [|by rewrite header_lines_fields].
    destruct Ht as [Ht _]. cbn [part_header_lines]. rewrite split_field_line by done.
    change (is_empty (field_line (B "Content-Type") _)) with false. cbv beta iota zeta.
    change (trim (B "Content-Type")) with (B "Content-Type").
    rewrite trim_space, (trim_text (tr := trim) (ContentType.fmt ct)) by (by apply type_ends). rewrite ContentType.parse_type_fmt by done.
    change (eq_ignore_ascii_case (B "Content-Type") (B "Content-Disposition")) with false.
    change (eq_ignore_ascii_case (B "Content-Type") (B "Content-Type")) with true. cbv iota. by rewrite header_lines_fields. }
  cbv zeta. rewrite Hh. cbn [ph_disposition ok_or mbind result_bind]. by rewrite (hk_form_data _ _ Hp), (hk_name _ _ Hp).
Qed.
End PartLines.

(** ** The body and the delimiters *)

Definition opening (boundary : str) : bytes := DASHES ++ boundary.
Definition between (boundary : str) : bytes := CRLF ++ DASHES ++ boundary.

(** A part that [boundary] can carry. *)
Definition part_ok (boundary : str) (p : Part) : Prop :=
  (exists cd, headers_ok p cd) /\ find_sub (between boundary) (body p) = None.

Section Built.
Context (boundary : str) (Hb : contains_byte CR boundary = false).

Abbreviation d1 := (opening boundary).
Abbreviation d2 := (between boundary).

Lemma between_ne : d2 <> [].
Proof. done. Qed.

Lemma between_CR k : (0 < k)%nat -> d2 !! k <> Some CR.
Proof.
  destruct k as [|[|[|[|k]]]]; try done; [lia|]. intros _ E. cbn in E. apply list_elem_of_lookup_2, list_elem_of_In in E.
  unfold contains_byte in Hb. rewrite existsb_negb_forallb, negb_false_iff, forallb_forall in Hb. by apply Hb in E.
Qed.

(** The body ends at the first delimiter. *)
Lemma find_body body x : find_sub d2 body = None -> find_sub d2 (body ++ d2 ++ x) = Some (length body).
Proof.
  intros Hn. pose proof (find_sub_first d2 body between_ne) as Hf. rewrite Hn in Hf. cbn [first_at] in Hf.
  apply (first_at_unique d2 (body ++ d2 ++ x)); [by apply find_sub_first|]. split.
  - unfold occurs. by rewrite drop_app_length, take_app_length.
  - intros j Hj Ho. destruct (decide (j + length d2 <= length body)%nat) as [Hle|Hgt]; [by apply (Hf j), (occurs_app_inv _ _ (d2 ++ x))|].
    apply (f_equal (fun l => l !! (length body - j)%nat)) in Ho. rewrite lookup_take_lt, lookup_drop in Ho by lia.
    replace (j + (length body - j))%nat with (length body + 0)%nat in Ho by lia. rewrite lookup_app_r in Ho by lia.
    replace (length body + 0 - length body)%nat with 0%nat in Ho by lia. cbn [between app CRLF lookup list_lookup] in Ho.
    by apply (between_CR (length body - j)%nat); [lia|].
Qed.

Definition part_text (p : Part) : bytes := build_headers p ++ CRLF ++ body p ++ d2.

Fixpoint tail_text (ps : list Part) : bytes :=
  match ps with
  | [] => DASHES ++ CRLF
  | p :: ps' => CRLF ++ part_text p ++ tail_text ps'
  end.

Lemma build_eq ps : build (mkBuilder boundary ps) = d1 ++ tail_text ps.
Proof.
  unfold build. cbn [parts Multipart.boundary]. induction ps as [|p ps IH]; [by unfold opening; rewrite <- !app_assoc|].
  cbn [map concat]. rewrite <- app_assoc, IH. unfold build_part, opening. cbn [tail_text]. unfold part_text, between.
  by rewrite <- !app_assoc.
Qed.

Lemma judge_tail ps : judge (tail_text ps) = match ps with [] => Close | p :: ps' => NextPart (part_text p ++ tail_text ps') end.
Proof. by destruct ps. Qed.

Lemma reference_part_built p ps : part_ok boundary p ->
  exists v, reference_part d2 (part_text p ++ tail_text ps) = (v, Ok (Some p)) /\
    match ps with [] => fst v = Finished | p' :: ps' => v = (InPart, part_text p' ++ tail_text ps') end.
Proof.
  intros [[cd Hp] Hbody]. unfold part_text at 1. rewrite (build_headers_eq _ _ Hp), <- !app_assoc.
  unfold reference_part. pose proof (part_lines_ok _ _ Hp) as Hl. rewrite find_blank by done.
  rewrite take_app_length, (parse_part_lines _ _ Hp). cbn [fst snd ph_type ph_headers].
  set (ls := join CRLF (part_lines p cd)). cbv zeta.
  assert (Hd : drop (length ls + 4) (ls ++ CRLF ++ CRLF ++ body p ++ d2 ++ tail_text ps) = body p ++ d2 ++ tail_text ps).
  { rewrite <- drop_drop, drop_app_length. done. }
  rewrite Hd, find_body by done. rewrite take_app_length, <- drop_drop, drop_app_length, drop_app_length, judge_tail.
  assert (Hpart : mkPart (Some cd) (content_type p) (headers p) (body p) = p).
  { destruct p. cbn. by rewrite <- (hk_disposition _ _ Hp). }
  rewrite Hpart. destruct ps; by eexists.
Qed.

Lemma pull_built ps : forall p, Forall (part_ok boundary) (p :: ps) ->
  snd (pull (ref_next d1 d2) ref_size (InPart, part_text p ++ tail_text ps)) = (p :: ps, Ok tt).
Proof.
  induction ps as [|p' ps IH]; intros p [Hp Hps]%Forall_cons_iff; rewrite pull_eq by done; cbn [reference_next].
  - destruct (reference_part_built p [] Hp) as (v & E & Hv). rewrite E. destruct v as [q s]. cbn in Hv. subst q. by rewrite pull_eq.
  - destruct (reference_part_built p (p' :: ps) Hp) as (v & E & ->). rewrite E. specialize (IH p' Hps). destruct (pull _ _ _) as [w [l r]]. cbn in *. by simplify_eq.
Qed.

Lemma pull_build ps : Forall (part_ok boundary) ps ->
  snd (pull (ref_next d1 d2) ref_size (Initial, build (mkBuilder boundary ps))) = (ps, Ok tt).
Proof.
  intros Hps. rewrite build_eq, pull_eq by done. cbn [reference_next].
  assert (Hf : find_sub d1 (d1 ++ tail_text ps) = Some O).
  { pose proof (find_sub_first d1 (d1 ++ tail_text ps) ltac:(done)) as Hf. apply (first_at_unique d1 (d1 ++ tail_text ps)); [done|].
    split; [unfold occurs; by rewrite drop_0, take_app_length | lia]. }
  rewrite Hf. cbn [Nat.add]. rewrite drop_app_length, judge_tail. destruct ps as [|p ps]; [done|].
  pose proof (pull_built ps p Hps) as Hp. rewrite pull_eq in Hp by done. exact Hp.
Qed.
End Built.

(** ** Parts made with the builder *)

Lemma boundary_no_CR b : is_valid_boundary b = true -> contains_byte CR b = false.
Proof.
  unfold is_valid_boundary. destruct (_ || _); [done|]. destruct (forallb is_valid_boundary_char b) eqn:E; [|done]. intros _.
  unfold contains_byte. rewrite existsb_negb_forallb, negb_false_iff. revert E. apply forallb_impl. intros x. byte_solve x.
Qed.

(** A name or file name a quoted string can hold. *)
Definition quotable (s : str) : Prop := forallb is_quoted_pair_char s = true /\ utf8_valid s = true.

Lemma form_data_ok name filename : quotable name -> (forall f, filename = Some f -> quotable f) ->
  let cd := ContentDisposition.mkContentDisposition ContentDisposition.FormData filename None (Some name) [] in
  ContentDisposition.ok cd /\ Forall (fun f => utf8_valid (snd f) = true) (ContentDisposition.fields cd).
Proof.
  intros [Hn Hu] Hf cd. unfold ContentDisposition.ok.
  assert (Hfields : ContentDisposition.fields cd = (B "name", name) :: match filename with Some f => [(B "filename", f)] | None => [] end)
    by (by destruct filename).
  assert (Hn1 : ContentDisposition.field_ok (B "name", name)) by done.
  rewrite Hfields. destruct filename as [f|].
  - destruct (Hf f eq_refl) as [Hf1 Hf2]. assert (Hf3 : ContentDisposition.field_ok (B "filename", f)) by done.
    split; [split_and!; try done|by auto].
    + by auto.
    + cbn. constructor; [intros [|[]]; done | constructor; [intros [] | constructor]].
    + cbn. unfold ContentDisposition.MAX_PARAMS. lia.
  - split; [split_and!; try done|by auto].
    + by auto.
    + constructor; [intros [] | constructor].
    + cbn. unfold ContentDisposition.MAX_PARAMS. lia.
Qed.

Lemma text_part_ok boundary name value : quotable name -> find_sub (between boundary) value = None ->
  part_ok boundary (with_body (Part_new name) value).
Proof.
  intros Hn Hv. split; [|done]. destruct (form_data_ok name None Hn ltac:(done)) as [Hok Hu]. by eexists.
Qed.

Lemma file_part_ok boundary name filename content_type data : quotable name -> quotable filename ->
  (forall ct, ContentType.parse content_type = Ok ct -> Forall (fun f => utf8_valid (snd f) = true) (ContentType.parameters ct)) ->
  find_sub (between boundary) data = None ->
  part_ok boundary (with_body (Part_file name filename content_type) data).
Proof.
  intros Hn Hf Ht Hv. split; [|done].
  destruct (form_data_ok name (Some filename) Hn) as [Hok Hu]; [by intros ? [= <-]|].
  eexists. split; try done. cbn. destruct (ContentType.parse content_type) as [ct|] eqn:E; [|done]. cbn.
  split; [by apply ContentType.type_parsed_ok in E | by apply Ht].
Qed.

(** C29: What [MultipartBuilder::build] writes with a valid boundary, and that
    fits into the buffer of the parser, the parser reads back, however the bytes
    are cut into chunks: the parts are returned in order with their
    Content-Disposition, Content-Type, other headers and body, and then the end.
    The parts need a form-data disposition with a name, texts that the fields can
    carry, and bodies that do not contain the delimiter. *)
Theorem multipart_roundtrip boundary ps max chunks :
  is_valid_boundary boundary = true -> Forall (part_ok boundary) ps ->
  concat chunks = build (mkBuilder boundary ps) -> blen (concat chunks) <= max ->
  snd (parse_chunks chunks (parser_for boundary max)) = (ps, Ok tt).
Proof.
  intros Hb%boundary_no_CR Hps Hc Hmax. rewrite parse_chunks_reference by done.
  pose proof (receive_agrees (opening boundary) (between boundary) ltac:(done) ltac:(done) chunks (Initial, []) (resting_start boundary)) as Ha.
  pose proof (pull_build boundary Hb ps Hps) as Hp. rewrite <- Hc in Hp.
  change (add (concat chunks) (Initial, [])) with ((Initial, concat chunks) : MultipartFacts.view) in Ha.
  destruct Ha as [Ha|(part & Ha & _)]; [exact (eq_trans (eq_sym Ha) Hp)|]. rewrite Hp in Ha. done.
Qed.

(** A text field and a file, one byte at a time. *)
Definition sample : MultipartBuilder :=
  file_field (B "f") (B "a b.txt") (B "text/plain; charset=utf-8") (CRLF ++ B "--B") (text_field (B "x") (B "1") (with_boundary (B "B:1"))).

Example multipart_roundtrip_witness :
  snd (parse_chunks (map (fun b => [b]) (build sample)) (parser_for (B "B:1") 4096)) = (parts sample, Ok tt).
Proof.
  apply (multipart_roundtrip (B "B:1") (parts sample) 4096); [reflexivity | | vm_compute; reflexivity | vm_compute; discriminate].
  constructor; [apply text_part_ok; [split; reflexivity | reflexivity]|].
  constructor; [|constructor]. apply file_part_ok; [split; reflexivity | split; reflexivity | | reflexivity].
  intros ct E. assert (Hok : forallb (fun f => utf8_valid (snd f)) (ContentType.parameters ct) = true).
  { assert (Hct : (ct ← ContentType.parse (B "text/plain; charset=utf-8"); Ok (forallb (fun f => utf8_valid (snd f)) (ContentType.parameters ct))) = Ok true) by (vm_compute; reflexivity).
    rewrite E in Hct. cbn [mbind result_bind] in Hct. congruence. }
  apply forallb_Forall in Hok. exact Hok.
Defined.
