(* ===== verification/FieldTheorems.v ===== *)
(** * What a field parser accepts, its writer gives back

    For every field type of the library that has both a parser and a [Display]: a
    value the parser accepted is written as text that the parser reads as the same value, so that
    a field that is decoded, kept and sent again has not changed its meaning. *)
From S2P Require Import Prelude RustStd Validate RustStr FieldList Range ETag Conditional ListFields ContentLocation ContentType ContentDisposition Cache Cookie Digest Accept Date.

(** [fmt] writes what [parse] reads back, for each value that [parse] gives and that satisfies [ok]. *)
Definition reads_back {E A} (parse : str -> result E A) (fmt : A -> str) (ok : A -> Prop) : Prop :=
  forall s a, parse s = Ok a -> ok a -> parse (fmt a) = Ok a.

Definition anything {A} (_ : A) : Prop := True.

Lemma reads_back_all {E A} (parse : str -> result E A) fmt :
  (forall s a, parse s = Ok a -> parse (fmt a) = Ok a) -> reads_back parse fmt anything.
Proof. intros H s a Hs _. by eapply H. Qed.

(** C39: The fields that are lists of tokens, tags, codings, expectations or
    digests read back what they write: Vary, Upgrade, Content-Encoding, Content-Language,
    Expect and the four digest fields; and so do the four Accept fields, a media
    range when its parameters have tokens for names, with weights that are never
    above 1, 1000 thousandths. *)
Theorem list_fields_roundtrip :
  reads_back Vary.parse Vary.fmt anything /\ reads_back Upgrade.parse Upgrade.fmt anything /\
  reads_back ContentEncoding.parse ContentEncoding.fmt anything /\
  reads_back ContentLanguage.parse ContentLanguage.fmt anything /\ reads_back Expect.parse Expect.fmt anything /\
  reads_back Digest.ContentDigest_parse Digest.ContentDigest_fmt anything /\
  reads_back Digest.ReprDigest_parse Digest.ReprDigest_fmt anything /\
  reads_back Digest.WantContentDigest_parse Digest.WantContentDigest_fmt anything /\
  reads_back Digest.WantReprDigest_parse Digest.WantReprDigest_fmt anything /\
  reads_back Accept.parse Accept.fmt (fun a => Forall Accept.named (Accept.items a)) /\
  reads_back Accept.AcceptCharset_parse Accept.AcceptCharset_fmt anything /\
  reads_back Accept.AcceptEncoding_parse Accept.AcceptEncoding_fmt anything /\
  reads_back Accept.AcceptLanguage_parse Accept.AcceptLanguage_fmt anything /\
  (forall s q, Accept.QValue_parse s = Ok q -> q <= 1000).
Proof.
  split_and!.
  10: exact Accept.accept_roundtrip.
  13: exact Accept.qvalue_bound.
  all: apply reads_back_all.
  - apply Vary.vary_roundtrip.
  - apply Upgrade.upgrade_roundtrip.
  - apply ContentEncoding.coding_roundtrip.
  - apply ContentLanguage.language_tags_roundtrip.
  - apply Expect.expect_roundtrip.
  - apply Digest.content_digest_roundtrip.
  - apply Digest.repr_digest_roundtrip.
  - apply Digest.want_content_roundtrip.
  - apply Digest.want_repr_roundtrip.
  - apply Accept.charset_roundtrip.
  - apply Accept.encoding_roundtrip.
  - apply Accept.language_roundtrip.
Qed.

(** C38: A media type with its parameters reads back, quoted values included, and so
    do a Content-Disposition whose parameter names are tokens (which the parser does not
    ask for), a Content-Location, the pairs of a Cookie header joined as a client sends
    them, and a Set-Cookie value with all its attributes, whatever the year that two-digit
    years are read against. *)
Theorem media_fields_roundtrip :
  reads_back ContentType.parse ContentType.fmt anything /\
  reads_back ContentDisposition.parse ContentDisposition.fmt
    (fun cd => Forall (fun p => is_valid_token (fst p) = true) (ContentDisposition.parameters cd)) /\
  (forall s l, utf8_valid s = true -> ContentLocation.parse s = Ok l -> ContentLocation.parse (ContentLocation.fmt l) = Ok l) /\
  (forall s cs, Cookie.Cookie_parse s = Ok cs -> Cookie.Cookie_parse (join (B "; ") (map Cookie.Cookie_fmt cs)) = Ok cs) /\
  (forall s y y' c, Cookie.SetCookie_parse s y = Ok c -> Cookie.SetCookie_parse (Cookie.SetCookie_fmt c) y' = Ok c).
Proof.
  split_and!; [apply reads_back_all, ContentType.type_roundtrip | exact ContentDisposition.disposition_roundtrip | exact ContentLocation.location_roundtrip | |].
  - intros s cs [Hne Hok]%Cookie.cookies_parsed. by apply Cookie.cookies_read_back.
  - intros s y y' c H%Cookie.set_cookie_parsed. by apply Cookie.parse_fmt_ok.
Qed.

(** C40: Range, Content-Range and Accept-Ranges read back, and so do the five
    conditional fields, with tags or with a date in any of the three formats,
    whatever the reference year is; and so do Cache-Control, Age and Expires.
    The seconds of Age and of the directives of Cache-Control that have them are
    the number that is written, and 2^31 for a number beyond 64 bits; all the
    numbers of a Cache-Control that is read are within 64 bits. *)
Theorem range_conditional_roundtrip y :
  reads_back Range.parse Range.fmt anything /\ reads_back Range.ContentRange_parse Range.ContentRange_fmt anything /\
  reads_back Range.AcceptRanges_parse Range.AcceptRanges_fmt anything /\
  reads_back Conditional.IfMatch_parse Conditional.IfMatch_fmt anything /\
  reads_back Conditional.IfNoneMatch_parse Conditional.IfNoneMatch_fmt anything /\
  reads_back (fun s => Conditional.IfModifiedSince_parse s y) Conditional.IfModifiedSince_fmt anything /\
  reads_back (fun s => Conditional.IfUnmodifiedSince_parse s y) Conditional.IfUnmodifiedSince_fmt anything /\
  reads_back (fun s => Conditional.IfRange_parse s y) Conditional.IfRange_fmt anything /\
  reads_back Cache.parse Cache.fmt anything /\ reads_back Cache.Age_parse Cache.Age_fmt anything /\
  (forall s y' e, Cache.Expires_parse s y = Ok e -> Cache.Expires_parse (Cache.Expires_fmt e) y' = Ok e) /\
  (forall s cc, Cache.parse s = Ok cc -> Cache.in_range cc) /\
  forall s, s <> [] -> forallb is_ascii_digit s = true ->
    let seconds := if decimal s <=? u64_MAX then decimal s else 2 ^ 31 in
    Cache.Age_parse s = Ok (Cache.mkAge seconds) /\
    forall name set cc, In (name, set) Cache.numbers -> Cache.parse_directive cc (name ++ B "=" ++ s) = Ok (set seconds cc).
Proof.
  split_and!.
  1-8: apply reads_back_all; intros s a Ha; first [by apply (Range.range_fields_roundtrip s)
    | by apply (Conditional.conditional_fields_roundtrip s y)].
  - apply reads_back_all. intros s cc H%Cache.parsed_in_range. by apply Cache.parse_fmt_cc.
  - apply reads_back_all. intros s a. unfold Cache.Age_parse at 1. cbv zeta. destruct (is_empty _); [done|].
    destruct (Cache.parse_seconds _) as [n|] eqn:E; [|done]. cbn [mbind result_bind]. intros [= <-].
    apply Cache.age_parse_fmt. by eapply Cache.parse_seconds_range.
  - intros s y' e H%Cache.expires_parse_valid. by apply Cache.expires_parse_fmt.
  - exact Cache.parsed_in_range.
  - intros s Hne Hs seconds. split; [by apply Cache.age_of_digits | intros name set cc Hin; by apply Cache.number_of_digits].
Qed.

(** ** The theorems at concrete fields *)

Example range_conditional_roundtrip_witness :
  Range.parse (Range.fmt (Range.mkRange (B "bytes") [Range.Range_ 0 499; Range.Suffix 5])) = Ok (Range.mkRange (B "bytes") [Range.Range_ 0 499; Range.Suffix 5]) /\
  Conditional.IfRange_parse (Conditional.IfRange_fmt (Conditional.IR_Date Date.example_date)) 2024 = Ok (Conditional.IR_Date Date.example_date).
Proof.
  destruct (range_conditional_roundtrip 2024) as (H1 & _ & _ & _ & _ & _ & _ & H2 & _). split.
  - apply (H1 (B "bytes=0 - 499,,-5")); [vm_compute; reflexivity | exact I].
  - apply (H2 (B "Sunday, 06-Nov-94 08:49:37 GMT")); [vm_compute; reflexivity | exact I].
Defined.

Definition quoted_text (s : string) : str := [DQUOTE] ++ B s ++ [DQUOTE].

Example list_fields_roundtrip_witness :
  let s := B "gzip , BR,x-mine" in
  exists e, ContentEncoding.parse s = Ok e /\ ContentEncoding.parse (ContentEncoding.fmt e) = Ok e /\
    ContentEncoding.fmt e = B "gzip, br, x-mine".
Proof.
  destruct list_fields_roundtrip as (_ & _ & H & _). eexists. split; [reflexivity|]. split; [|reflexivity].
  by apply (H (B "gzip , BR,x-mine")).
Defined.

Example media_fields_roundtrip_witness :
  let s := B "Text/HTML; charset=" ++ quoted_text "a b" in
  exists c, ContentType.parse s = Ok c /\ ContentType.parse (ContentType.fmt c) = Ok c /\
    ContentType.fmt c = B "text/html; charset=" ++ quoted_text "a b".
Proof.
  destruct media_fields_roundtrip as (H & _). eexists. split; [reflexivity|]. split; [|reflexivity].
  by apply (H (B "Text/HTML; charset=" ++ quoted_text "a b")).
Defined.
