(* ===== verification/Io.v ===== *)
(** * What the example programs run on ([examples/])

    The programs under [src/examples/] put the crate between sockets.  A
    socket is what is still to arrive on it and what was written to it; the
    errors of a program are the boxed errors its functions return.  Whether a
    write or a flush fails is up to the class [Wire].  Reading
    into the receive buffer of a decoder is the same few lines in every
    program: they are here. *)
From S2P Require Import Prelude RustStd Errors Head Buffer BodyDecoder Compression DecoderCore CoreApi.

(** ** Errors *)

(** [Box<dyn Error>]: an error of the crate, a text made with [.into()], or
    an error of the operating system. *)
Inductive BoxedError : Type :=
  | Decoding (e : Error.t)
  | Encoding (e : EncodeError.t)
  | Decompressing (e : CompressionError.t)
  | Text (msg : str)
  | IoFailed.

(** [?] on a run that fails with another error type. *)
Definition boxed {E F A} (f : E -> F) (r : result (exn E) A) : result (exn F) A :=
  match r with
  | Ok a => Ok a
  | Err (Throw e) => Err (Throw (f e))
  | Err Panic => Err Panic
  | Err Diverge => Err Diverge
  end.

(** Run a method of a part of the state: [part] takes the part out, [put]
    stores it. *)
Definition on_part {S T E F A} (part : S -> T) (put : T -> S -> S) (f : E -> F) (m : st T E A) : st S F A :=
  fun s => let '(t, r) := m (part s) in (put t s, boxed f r).

(** ** Sockets *)

(** What a read finds: bytes, a failure, or nothing for so long that a timer
    goes off.  The end of the list is the end of the stream. *)
Inductive arrival : Type :=
  | Arrived (data : bytes)
  | ReadFailed
  | Silence.

(** [written] is what was handed to the writer, [flushed] how much of it has
    been pushed out. *)
Record Socket := { inbox : list arrival; written : bytes; flushed : nat }.

(** After a write, and after a flush. *)
Definition wrote (data : bytes) (s : Socket) : Socket :=
  {| inbox := inbox s; written := written s ++ data; flushed := flushed s |}.
Definition pushed (s : Socket) : Socket :=
  {| inbox := inbox s; written := written s; flushed := length (written s) |}.

(** The network a program runs on.  A socket takes all the bytes of a write, or
    some of them before the write fails; a flush goes through or fails.  Both
    can depend on all that happened on the socket. *)
Class Wire := {
  (** [None]: all of them. *)
  takes : bytes -> Socket -> option nat;
  pushes : Socket -> bool
}.

(** The network on which no write and no flush fails. *)
Definition calm : Wire := {| takes _ _ := None; pushes _ := true |}.

(** [write_all(data).await] *)
Definition write_all {wire : Wire} (data : bytes) : st Socket BoxedError unit := fun s =>
  match takes data s with
  | None => (wrote data s, Ok tt)
  | Some n => (wrote (take n data) s, Err (Throw IoFailed))
  end.

(** [flush().await] *)
Definition flush {wire : Wire} : st Socket BoxedError unit := fun s =>
  if pushes s then (pushed s, Ok tt) else (s, Err (Throw IoFailed)).

Definition with_inbox (i : list arrival) (s : Socket) : Socket :=
  {| inbox := i; written := written s; flushed := flushed s |}.

Inductive read_outcome : Type :=
  | Got (data : bytes)
  | Failed
  | TimedOut.

(** [timeout(.., read(buf))] into a buffer of [want] bytes: no bytes is the end of the stream. *)
Definition read_timeout (want : N) (s : Socket) : Socket * read_outcome :=
  match inbox s with
  | [] => (s, Got [])
  | Arrived data :: rest =>
      if blen data <=? want then (with_inbox rest s, Got data)
      else (with_inbox (Arrived (drop (N.to_nat want) data) :: rest) s, Got (take (N.to_nat want) data))
  | ReadFailed :: rest => (with_inbox rest s, Failed)
  | Silence :: rest => (with_inbox rest s, TimedOut)
  end.

(** [read(buf)]: without a timer a read waits. *)
Fixpoint skip_silence (i : list arrival) : list arrival :=
  match i with Silence :: rest => skip_silence rest | _ => i end.
Definition read (want : N) (s : Socket) : Socket * read_outcome :=
  read_timeout want (with_inbox (skip_silence (inbox s)) s).

(** A bound on the reads before the end of the stream. *)
Definition arrival_size (a : arrival) : nat := match a with Arrived d => S (length d) | _ => 1 end.
Definition inbox_size (s : Socket) : nat := sum_list (map arrival_size (inbox s)).

(** The bytes that are still to arrive. *)
Definition arrival_bytes (a : arrival) : bytes := match a with Arrived d => d | _ => [] end.
Definition to_come (s : Socket) : bytes := concat (map arrival_bytes (inbox s)).

(** ** Reading into a decoder *)

Section Receive.
Context {D T : Type} `{CoreOf D T}.

(** [let want = decoder.available_buf().min(chunk); if want == 0 { return Err(..) }]. *)
Definition wanted (chunk : N) (t : T) : N := N.min (core_available_buf (core_of t)) chunk.

(** [mut_buf(want)], a read into the slice, and [advance_buf(n)]: the caller
    sees the bytes read by their number. *)
Definition receive (reader : N -> Socket -> Socket * read_outcome) (want : N) :
    st (T * Socket) Error.t read_outcome := fun '(t, s) =>
  let '(t1, r) := on_core (core_mut_buf want) t in
  match r with
  | Err e => ((t1, s), Err e)
  | Ok _ =>
      let '(s', o) := reader want s in
      let data := match o with Got data => data | _ => [] end in
      let c := core_of t1 in
      ((put_core (core_advance_buf (blen data) (core_write_slice want data c)) t1, s'), Ok o)
  end.
End Receive.

(** ** Lemmas *)

Lemma skip_silence_size i : (sum_list (map arrival_size (skip_silence i)) <= sum_list (map arrival_size i))%nat.
Proof. induction i as [|[] i IH]; cbn; try done. cbn in IH. lia. Qed.

(** A read that got bytes is progress. *)
Lemma read_timeout_size want s s' data :
  0 < want -> read_timeout want s = (s', Got data) -> data <> [] -> (inbox_size s' < inbox_size s)%nat.
Proof.
  unfold read_timeout, inbox_size. intros Hw. destruct (inbox s) as [|[d| |] rest]; [by intros [= <- <-]| |done|done].
  destruct (blen d <=? want) eqn:E.
  - intros [= <- <-] _. cbn. lia.
  - intros [= <- <-] Hd. cbn. rewrite length_drop. unfold blen in *. lia.
Qed.

Lemma read_size want s s' data :
  0 < want -> read want s = (s', Got data) -> data <> [] -> (inbox_size s' < inbox_size s)%nat.
Proof.
  intros Hw Hr Hd. pose proof (read_timeout_size _ _ _ _ Hw Hr Hd) as H. unfold inbox_size in *. cbn in H.
  pose proof (skip_silence_size (inbox s)). lia.
Qed.

(** What was read is no longer to come. *)
Lemma read_timeout_to_come want s s' o :
  read_timeout want s = (s', o) -> to_come s = match o with Got data => data | _ => [] end ++ to_come s'.
Proof.
  unfold read_timeout, to_come. destruct (inbox s) as [|[d| |] rest] eqn:Hi.
  - intros [= <- <-]. by rewrite Hi.
  - destruct (blen d <=? want); intros [= <- <-]; [done|]. cbn. by rewrite app_assoc, take_drop.
  - by intros [= <- <-].
  - by intros [= <- <-].
Qed.

Lemma skip_silence_to_come i : concat (map arrival_bytes (skip_silence i)) = concat (map arrival_bytes i).
Proof. by induction i as [|[] i IH]. Qed.

Lemma read_to_come want s s' o :
  read want s = (s', o) -> to_come s = match o with Got data => data | _ => [] end ++ to_come s'.
Proof. unfold read. intros <-%read_timeout_to_come. unfold to_come. cbn. by rewrite skip_silence_to_come. Qed.

(** Reading writes nothing. *)
Lemma read_timeout_written want s s' o : read_timeout want s = (s', o) -> written s' = written s /\ flushed s' = flushed s.
Proof. unfold read_timeout. destruct (inbox s) as [|[d| |] rest]; [|destruct (_ <=? _)|..]; by intros [= <- <-]. Qed.

Lemma read_written want s s' o : read want s = (s', o) -> written s' = written s /\ flushed s' = flushed s.
Proof. by intros [H1 H2]%read_timeout_written. Qed.

Lemma read_bound want s s' data : read_timeout want s = (s', Got data) -> blen data <= want.
Proof.
  unfold read_timeout. destruct (inbox s) as [|[d| |] rest]; [intros [= <- <-]; by apply N.le_0_l| |done|done].
  destruct (blen d <=? want) eqn:E; intros [= <- <-]; [lia|]. rewrite blen_take. lia.
Qed.

(** ** Runs that a failing write cuts off

    A program of [?]s stops at the first write or flush that fails.  So its run
    on any network is its run on the calm one, or it is cut off: it ends with
    the failure, and has written to each of its sockets a beginning of what it
    writes on the calm network.  [wired] states this of a program [m] and
    the same program [m0] on the calm network, [outs] being what was written to
    the sockets of the state; its lemmas follow the program's structure. *)

Section Wired.
Context {S : Type} (outs : S -> list bytes).

Definition ahead (s s' : S) : Prop := Forall2 prefix (outs s) (outs s').

#[export] Instance ahead_preorder : PreOrder ahead.
Proof.
  split; unfold ahead.
  - intros s. induction (outs s); by constructor.
  - intros s1 s2 s3 H1. generalize (outs s3). revert H1. generalize (outs s2). generalize (outs s1). clear.
    intros l1 l2 H1. induction H1 as [|a b l1 l2 Hab _ IH]; intros l3 H2; inversion H2; subst; constructor; [by etransitivity | by apply IH].
Qed.

Lemma ahead_same s s' : outs s' = outs s -> ahead s s'.
Proof. intros E. unfold ahead. rewrite E. apply ahead_preorder. Qed.

Definition cut_off {A} (o o0 : S * result (exn BoxedError) A) : Prop :=
  o = o0 \/ snd o = Err (Throw IoFailed) /\ ahead (fst o) (fst o0).

Definition wired_at {A} (m m0 : st S BoxedError A) (s : S) : Prop := ahead s (fst (m0 s)) /\ cut_off (m s) (m0 s).
Definition wired {A} (m m0 : st S BoxedError A) : Prop := forall s, wired_at m m0 s.

(** A step that writes nothing. *)
Lemma wired_silent_at {A} (m : st S BoxedError A) s : outs (fst (m s)) = outs s -> wired_at m m s.
Proof. intros Hm. split; [by apply ahead_same | by left]. Qed.

Lemma wired_silent {A} (m : st S BoxedError A) : (forall s, outs (fst (m s)) = outs s) -> wired m m.
Proof. intros Hm s. by apply wired_silent_at. Qed.

Lemma wired_ret {A} (a : A) : wired (mret a) (mret a).
Proof. by apply wired_silent. Qed.

Lemma wired_err {A} (x : exn BoxedError) : wired (fun s => (s, @Err _ A x)) (fun s => (s, Err x)).
Proof. by apply wired_silent. Qed.

Lemma wired_lift {A} (r : result BoxedError A) : wired (lift r) (lift r).
Proof. apply wired_silent. intros s. by destruct r. Qed.

Lemma wired_bind_at {A C} (m m0 : st S BoxedError A) (f f0 : A -> st S BoxedError C) s :
  wired_at m m0 s -> (forall a, wired (f a) (f0 a)) -> wired_at (m ≫= f) (m0 ≫= f0) s.
Proof.
  intros [Hg [Hc|[Hc Ha]]] Hf; unfold wired_at, mbind, st_bind in *.
  - rewrite Hc. destruct (m0 s) as [s1 [a|x]]; [|by split; [|left]]. destruct (Hf a s1) as [Hg1 Hc1]. cbn [fst] in Hg.
    split; [by etransitivity | done].
  - destruct (m s) as [s1 [a|x]]; [done|]. cbn [fst snd] in *. injection Hc as ->.
    assert (Hlater : ahead (fst (m0 s)) (fst ((let (s', r) := m0 s in match r with Ok a => f0 a s' | Err e => (s', Err e) end)))).
    { destruct (m0 s) as [s0 [a|x]]; [|done]. apply Hf. }
    split; [by etransitivity|]. right. split; [done|]. cbn [fst]. by etransitivity.
Qed.

Lemma wired_bind {A C} (m m0 : st S BoxedError A) (f f0 : A -> st S BoxedError C) :
  wired m m0 -> (forall a, wired (f a) (f0 a)) -> wired (m ≫= f) (m0 ≫= f0).
Proof. intros Hm Hf s. by apply wired_bind_at. Qed.

Lemma wired_loop {A} (r r0 : st S BoxedError (flow A)) fuel : wired r r0 -> wired (loop fuel r) (loop fuel r0).
Proof.
  intros Hr. induction fuel as [|fuel IH]; intros s; [by split; [|left]|]. cbn [loop].
  destruct (Hr s) as [Hg [Hc|[Hc Ha]]]; unfold wired_at.
  - rewrite Hc. destruct (r0 s) as [s1 [[|a]|x]]; [|by split; [|left]..]. destruct (IH s1) as [Hg1 Hc1]. cbn [fst] in Hg.
    split; [by etransitivity | done].
  - destruct (r s) as [s1 [a|x]]; [done|]. cbn [fst snd] in *. injection Hc as ->.
    assert (Hlater : ahead (fst (r0 s)) (fst (match r0 s with
      | (s', Ok Continue) => loop fuel r0 s' | (s', Ok (Break a)) => (s', Ok a) | (s', Err e) => (s', Err e) end))).
    { destruct (r0 s) as [s0 [[|a]|x]]; [|done..]. apply IH. }
    split; [by etransitivity|]. right. split; [done|]. cbn [fst]. by etransitivity.
Qed.

(** A write to one of the sockets: [part] takes it out, [put] stores it. *)
Lemma wired_part {A} (part : S -> Socket) (put : Socket -> S -> S) (m m0 : st Socket BoxedError A) :
  (forall s k, written (part s) `prefix_of` written k -> ahead s (put k s)) ->
  (forall s k1 k2, written k1 `prefix_of` written k2 -> ahead (put k1 s) (put k2 s)) ->
  (forall k, written k `prefix_of` written (fst (m0 k)) /\
     (m k = m0 k \/ snd (m k) = Err (Throw IoFailed) /\ written (fst (m k)) `prefix_of` written (fst (m0 k)))) ->
  wired (on_part part put id m) (on_part part put id m0).
Proof.
  intros H1 H2 Hm s. unfold wired_at, on_part. destruct (Hm (part s)) as [Hg [->|[Hc Ha]]].
  - destruct (m0 (part s)) as [k r]. split; [by apply H1 | by left].
  - destruct (m (part s)) as [k r], (m0 (part s)) as [k0 r0]. cbn [fst snd] in *. subst r.
    split; [by apply H1|]. right. split; [done | by apply H2].
Qed.
End Wired.

Lemma write_all_cut {wire : Wire} data k :
  written k `prefix_of` written (fst (write_all (wire := calm) data k)) /\
  (write_all data k = write_all (wire := calm) data k \/
   snd (write_all data k) = Err (Throw IoFailed) /\
   written (fst (write_all data k)) `prefix_of` written (fst (write_all (wire := calm) data k))).
Proof.
  unfold write_all. cbn [takes calm]. split; [by eexists|]. destruct (takes data k) as [n|]; [right|by left].
  split; [done|]. cbn. apply prefix_app. exists (drop n data). by rewrite take_drop.
Qed.

Lemma flush_cut {wire : Wire} k :
  written k `prefix_of` written (fst (flush (wire := calm) k)) /\
  (flush k = flush (wire := calm) k \/
   snd (flush k) = Err (Throw IoFailed) /\ written (fst (flush k)) `prefix_of` written (fst (flush (wire := calm) k))).
Proof. unfold flush. cbn [pushes calm]. split; [done|]. destruct (pushes k); [by left | right; by split]. Qed.
