(* ===== verification/Streaming.v ===== *)
(** * The streaming interface and [decode]

    A program that takes the body itself - [peek_body], [consume_body],
    [progress], in a loop, reading from a socket in between - collects what
    [decode] returns.  The argument is the same for every program: its round
    is the round of the loop of [decode], seen through a relation between the
    state of the program and the state of the decoder. *)
From S2P Require Import Prelude RustStd Errors Validate Head Buffer BodyDecoder BodyFacts Compression DecoderCore CoreFacts CoreApi HeadFacts Io.

(** ** Loops that do the same *)

Section Simulation.
Context {S1 S2 E1 E2 : Type} (f : E1 -> E2).

(** [o2] is the outcome [o1], in states related as the result says. *)
Definition sim_outcome {A} (Q : A -> S1 -> S2 -> Prop)
    (o1 : S1 * result (exn E1) A) (o2 : S2 * result (exn E2) A) : Prop :=
  snd o2 = boxed f (snd o1) /\ match snd o1 with Ok a => Q a (fst o1) (fst o2) | Err _ => True end.

(** A round goes on in [R] and ends in [Q]. *)
Definition flow_rel {A} (R : S1 -> S2 -> Prop) (Q : A -> S1 -> S2 -> Prop) (x : flow A) : S1 -> S2 -> Prop :=
  match x with Continue => R | Break a => Q a end.

Lemma loop_sim {A} R (Q : A -> S1 -> S2 -> Prop) (r1 : st S1 E1 (flow A)) (r2 : st S2 E2 (flow A)) fuel s1 s2 :
  (forall s1 s2, R s1 s2 -> sim_outcome (flow_rel R Q) (r1 s1) (r2 s2)) ->
  R s1 s2 -> sim_outcome Q (loop fuel r1 s1) (loop fuel r2 s2).
Proof.
  intros Hr. revert s1 s2. induction fuel as [|fuel IH]; intros s1 s2 HR; [by split|]. cbn [loop].
  destruct (Hr s1 s2 HR) as [He Hs]. destruct (r1 s1) as [t1 [[|a]|e]], (r2 s2) as [t2 x]; cbn [fst snd boxed flow_rel] in *; subst x.
  - by apply IH.
  - done.
  - destruct e; by split.
Qed.
End Simulation.

(** What every round keeps, the loop keeps. *)
Lemma loop_keeps {S E A} (P : S -> Prop) (r : st S E (flow A)) fuel s :
  (forall s, P s -> P (fst (r s))) -> P s -> P (fst (loop fuel r s)).
Proof.
  intros Hr. revert s. induction fuel as [|fuel IH]; intros s Hs; [done|]. cbn [loop]. pose proof (Hr s Hs) as H1.
  destruct (r s) as [s' [[|a]|e]]; [by apply IH|done..].
Qed.

(** With another condition where it ends. *)
Lemma loop_post {S E A} (P : S -> Prop) (Q : A -> S -> Prop) (r : st S E (flow A)) fuel s :
  (forall s, P s -> match r s with (s', Ok (Break a)) => Q a s' | (s', _) => P s' end) ->
  P s -> match loop fuel r s with (s', Ok a) => Q a s' | (s', Err _) => P s' end.
Proof.
  intros Hr. revert s. induction fuel as [|fuel IH]; intros s Hs; [done|]. cbn [loop]. pose proof (Hr s Hs) as H1.
  destruct (r s) as [s' [[|a]|e]]; [by apply IH|done..].
Qed.

Lemma loop_same {S E A} (r1 r2 : st S E (flow A)) fuel s :
  (forall s, r1 s = r2 s) -> loop fuel r1 s = loop fuel r2 s.
Proof.
  intros Hr. revert s. induction fuel as [|fuel IH]; intros s; [done|]. cbn [loop]. rewrite (Hr s).
  destruct (r2 s) as [s' [[|a]|e]]; by rewrite ?IH.
Qed.

(** ** The round of a program *)

Section Streaming.
Context {D : Type} `{Decompressor D}.

Implicit Types c : Core D.

(** What a program does first: it looks at the data, then calls
    [consume_body] with its length, or [progress] when there is none. *)
Definition stream_step c : option bytes * (Core D * result (exn Error.t) BodyProgress) :=
  match core_peek_body c with
  | Some data => (Some data, core_consume_body (blen data) c)
  | None => (None, core_progress c)
  end.

(** How it goes on. *)
Definition stream_flow (taken : option bytes) (p : BodyProgress) : flow bool :=
  match p with
  | ProgressComplete _ => Break true
  | Advanced => Continue
  | NeedData => match taken with Some _ => Continue | None => Break false end
  end.

Definition stream_result (taken : option bytes) (r : result (exn Error.t) BodyProgress) :
    result (exn Error.t) (flow bool) :=
  match r with Ok p => Ok (stream_flow taken p) | Err e => Err e end.

Context (line_ok : str -> Prop).

(** [Complete] is reported when it is reached. *)
Lemma consume_complete limits s d s' p :
  body_inv limits s -> max_body_size limits <= usize_MAX -> b_phase s <> BodyCloseDelimited ->
  peek_body (b_buf s) (b_phase s) = Some d -> consume_body (blen d) limits s = (s', Ok p) ->
  bool_decide (b_phase s' = Complete) = match p with ProgressComplete _ => true | _ => false end.
Proof.
  intros Hi Hm Hn Hpk. pose proof (peek_body_phase _ _ Hpk) as [H0 [[r Hp]|[[r Hp]|[Hp _]]]]; [| |done].
  - rewrite Hp, (peek_length _ r) in Hpk by (by left). destruct (_ && _); [|done]. injection Hpk as Hd.
    pose proof Hi as [H1 _ _]. rewrite Hp in H1. assert (Hl : blen d <= r /\ blen d <= blen (b_buf s)) by (subst d; rewrite blen_take; lia).
    rewrite (consume_content_length_eq _ _ _ r) by (done || lia). cbv zeta. destruct (_ =? 0); [by intros [= <- <-]|].
    destruct (0 <? blen d); by intros [= <- <-].
  - rewrite Hp, (peek_length _ r) in Hpk by (by right). destruct (_ && _); [|done]. injection Hpk as Hd.
    pose proof Hi as [H1 _ _]. rewrite Hp in H1. assert (Hl : blen d <= r /\ blen d <= blen (b_buf s)) by (subst d; rewrite blen_take; lia).
    rewrite (consume_chunk_eq _ _ _ r) by (done || lia). cbv zeta. destruct (_ =? 0); [|by intros [= <- <-]].
    unfold chunk_end. rewrite ?take_chunk_crlf_eq. unfold fail, throw. destruct (2 <=? _)%nat; [destruct (negb _)|]; by intros [= <- <-].
Qed.

(** The round of [decode] in these terms. *)
Lemma body_round_stream c :
  loop_inv line_ok c ->
  let '(taken, (c', r)) := stream_step c in
  body_round c = (set_decoded_body (c_decoded_body c ++ default [] taken) c', stream_result taken r).
Proof.
  intros [Hi Hn]. pose proof Hi as [(_ & _ & _ & Hm & _) Hb _ _ _ _].
  unfold stream_step. rewrite body_round_eq. unfold body_step, core_peek_body. cs.
  destruct (peek_body (c_buf c) (c_phase c)) as [data|] eqn:Hpk; cbn [default from_option id].
  - pose proof (peek_body_phase (body_state c) data Hpk) as [Hd _]. unfold core_consume_body.
    rewrite (proj2 (N.eqb_neq (blen data) 0)) by lia. unfold on_body. fold (body_state c).
    destruct (consume_body (blen data) (c_limits c) _) as [s [p|e]] eqn:Hc; [|done].
    rewrite (consume_complete _ _ data _ p Hb Hm Hn Hpk Hc). by destruct p.
  - unfold core_progress, on_body. fold (body_state c).
    destruct (consume_body 0 (c_limits c) _) as [s [[| |ts]|e]]; done.
Qed.

Lemma body_round_keeps c : loop_inv line_ok c -> loop_inv line_ok (fst (body_round c)).
Proof.
  intros [Hc Hn]. rewrite body_round_eq. destruct (body_step _ _) as [[d b] r] eqn:Hb.
  pose proof (stepped_inv _ _ _ _ _ Hc Hb) as Hc'. split; [done|].
  eapply body_step_inv in Hb as (_ & _ & _ & _ & _ & Hcl & _); [|apply Hc..]. intros E2. by apply Hn, Hcl.
Qed.

(** The fields that neither a step nor its caller look at. *)
Definition dressed (b : bytes) (k : option BodyKind) c : Core D := set_decoded_body_kind k (set_decoded_body b c).

Lemma dressed_inv b k c : loop_inv line_ok c -> loop_inv line_ok (dressed b k c).
Proof. intros [[I1 [B1 B2 B3] I3 I4 I5 I6] Hn]. split; [|done]. by split; [|split|..]. Qed.

Lemma stream_step_dressed b k c :
  stream_step (dressed b k c) = let '(taken, (c', r)) := stream_step c in (taken, (dressed b k c', r)).
Proof.
  unfold stream_step, dressed, core_consume_body, core_progress, on_body, core_peek_body, fail, throw. cs.
  destruct (peek_body _ _) as [data|]; [destruct (_ =? 0); [done|]|]; by destruct (consume_body _ _ _).
Qed.

(** ** Reading *)

(** No slice is out, and the buffer is within its limit. *)
Definition quiet c : Prop := c_pending c = 0 /\ blen (c_buf c) <= max_buffer_size (c_limits c).

Lemma quiet_round c c' r : loop_inv line_ok c -> quiet c -> body_round c = (c', r) -> quiet c'.
Proof.
  intros [Hi Hn] [Hp Hb]. rewrite body_round_eq. destruct (body_step _ _) as [[d s] x] eqn:Hs. intros [= <- <-].
  eapply body_step_inv in Hs as (_ & _ & _ & Hle & _); [|apply Hi..]. unfold buffered in Hle.
  split; unfold stepped; cs; [done|]. unfold blen in *. cbn in Hle. lia.
Qed.

Lemma quiet_kept c c' : quiet c -> same_rest c c' -> (core_buffered c' <= core_buffered c)%nat -> quiet c'.
Proof.
  unfold quiet, core_buffered, blen. intros [Hp Hb] (Hl & _ & _ & Hp') Hle. rewrite Hl, Hp'. split; [done | lia].
Qed.

Lemma quiet_extend y c :
  quiet c -> blen y <= core_available_buf c -> quiet (core_extend y c).
Proof.
  unfold quiet, core_available_buf, available_buf, saturating_sub. cs. intros [Hp Hb] Hy. split; [done|].
  rewrite blen_app. lia.
Qed.

(** Bytes behind those in the buffer, and nothing else. *)
Lemma receive_extends {T} `{CoreOfLaws D T} reader want (t : T) (s : Socket) :
  limits_ok (c_limits (core_of t)) -> c_pending (core_of t) = 0 ->
  want <= core_available_buf (core_of t) ->
  blen (c_buf (core_of t)) <= max_buffer_size (c_limits (core_of t)) ->
  (forall data s', reader want s = (s', Got data) -> blen data <= want) ->
  let '(s', o) := reader want s in
  receive reader want (t, s) =
    ((extend_core (match o with Got data => data | _ => [] end) t, s'), Ok o).
Proof.
  intros Hl Hp Hw Hb Hr. destruct (reader want s) as [s' o] eqn:Hrd.
  set (data := match o with Got data => data | _ => [] end).
  assert (Hd : blen data <= want) by (unfold data; destruct o; [by apply (Hr data0 s')| |]; apply N.le_0_l).
  pose proof (receive_slice_is_feed (core_of t) want data Hl Hp Hd) as Hf.
  unfold receive, on_core. destruct (core_mut_buf want (core_of t)) as [c1 r].
  unfold core_available_buf, available_buf, saturating_sub in Hw.
  destruct r as [[]|e]; [|destruct Hf as [Hf _]; lia]. destruct Hf as [_ Hf].
  rewrite Hrd. fold data. rewrite core_put, put_put. unfold extend_core. f_equal. f_equal. f_equal.
  unfold core_feed in Hf. destruct (feed _ _ _) as [b|e] eqn:Hfd; [|done].
  apply feed_Ok in Hfd as [-> _]. apply (f_equal fst) in Hf. cbn [fst] in Hf. by rewrite <- Hf.
Qed.

(** ** Reading and decoding in turn *)

Section Pump.
Context {S E : Type} (boxer : Error.t -> E) (R Q : Core D -> S -> Prop).
Context (round : st S E (flow bool)) (more : st S E unit) (buffered : S -> nat) (size : S -> nat)
  (ahead : S -> bytes).

(** [R] holds between the decoder of a program and [decode]'s, and [Q] where
    the body is complete; a round of the program is a round of [decode];
    reading adds bytes at the end, which are no longer [ahead]. *)
Definition done_rel (complete : bool) : Core D -> S -> Prop := if complete then Q else R.

Record pump : Prop := {
  pump_buffered c s : R c s -> buffered s = length (c_buf c);
  pump_round c s : R c s -> loop_inv line_ok c -> sim_outcome boxer (flow_rel R done_rel) (body_round c) (round s);
  pump_more c s : R c s -> loop_inv line_ok c ->
    match more s with
    | (s', Ok _) => exists y, R (core_extend y c) s' /\ (size s' < size s)%nat /\ ahead s = y ++ ahead s'
    | (_, Err e) => orderly (Err (A := unit) e)
    end;
  pump_size c s c' r : R c s -> body_round c = (c', Ok r) ->
    size (fst (round s)) = size s /\ ahead (fst (round s)) = ahead s
}.

Context (P : pump).

Definition pump_inner : st S E bool := fun s => loop (Datatypes.S (buffered s)) round s.

Definition pump_read_round : st S E (flow unit) :=
  complete ← pump_inner;
  if (complete : bool) then mret (Break tt) else _ ← more; mret Continue.

Definition R_inv (c : Core D) (s : S) : Prop := R c s /\ loop_inv line_ok c.
Definition done_inv (complete : bool) (c : Core D) (s : S) : Prop := done_rel complete c s /\ loop_inv line_ok c.

Lemma pump_round_inv c s : R_inv c s -> sim_outcome boxer (flow_rel R_inv done_inv) (body_round c) (round s).
Proof.
  intros [HR Hi]. destruct (pump_round P c s HR Hi) as [He Hr]. split; [done|].
  pose proof (body_round_keeps c Hi) as Hi'.
  by destruct (snd (body_round c)) as [[|b]|e].
Qed.

Lemma pump_inner_sim c s : R_inv c s -> sim_outcome boxer done_inv (body_loop c) (pump_inner s).
Proof.
  intros HR. unfold body_loop, pump_inner. rewrite (pump_buffered P c s) by apply HR.
  eapply loop_sim; [apply pump_round_inv | done].
Qed.

(** The rounds read nothing. *)
Lemma pump_inner_size c s b :
  R_inv c s -> snd (pump_inner s) = Ok b ->
  size (fst (pump_inner s)) = size s /\ ahead (fst (pump_inner s)) = ahead s.
Proof.
  unfold pump_inner. generalize (Datatypes.S (buffered s)) as fuel. intros fuel. revert c s.
  induction fuel as [|fuel IH]; intros c s HR; [done|]. cbn [loop].
  pose proof (pump_round_inv c s HR) as [He Hs]. destruct HR as [HR Hi].
  pose proof (fun c' r => pump_size P c s c' r HR) as Hz. destruct (body_round c) as [c' [r|e]]; cbn [fst snd boxed] in *.
  - specialize (Hz c' r eq_refl). destruct (round s) as [s' x]; cbn [fst snd] in *; subst x. destruct r as [|b']; [|done].
    destruct Hz as [<- <-]. by apply (IH c').
  - destruct (round s) as [s' x]; cbn [fst snd] in *; subst x. by destruct e.
Qed.

(** Reading and decoding in turn is decoding once all the bytes are there. *)
Lemma pump_decodes c s fuel :
  R_inv c s -> (size s < fuel)%nat ->
  match loop fuel pump_read_round s with
  | (s', Ok _) => exists y c',
      body_loop (core_extend y c) = (c', Ok true) /\ Q c' s' /\ loop_inv line_ok c' /\ ahead s = y ++ ahead s'
  | (_, Err e) => orderly (Err (A := unit) e)
  end.
Proof.
  revert c s. induction fuel as [|fuel IH]; intros c s HR Hm; [lia|]. cbn [loop].
  pose proof (pump_inner_sim c s HR) as [He Hs]. pose proof (fun b => pump_inner_size c s b HR) as Hz.
  pose proof (body_loop_inv line_ok c ltac:(apply HR)) as (_ & Ho & _).
  pose proof (fun y => body_loop_ext line_ok y c) as Hext.
  unfold pump_read_round, mbind, st_bind. destruct (body_loop c) as [c1 r] eqn:Hl, (pump_inner s) as [s1 x]; cbn [fst snd] in *; subst x.
  destruct r as [[]|e]; cbn [boxed].
  - exists [], c1. unfold core_extend. rewrite app_nil_r. specialize (Hz true eq_refl).
    split_and!; [by destruct c | apply Hs | apply Hs | cbn; symmetry; apply Hz].
  - destruct Hs as [HR1 Hi1]. pose proof (pump_more P c1 s1 HR1 Hi1) as Hmore. destruct (Hz false eq_refl) as [Hz1 Hz2].
    destruct (more s1) as [s2 [[]|e]]; [|by destruct e]. cbn -[body_loop core_extend pump_read_round loop]. destruct Hmore as (y & HR2 & Hlt & Ha).
    specialize (IH (core_extend y c1) s2). destruct (loop fuel _ s2) as [s3 [[]|e]].
    + destruct IH as (y2 & c' & Hb & HR3 & Hi3 & Ha2); [|lia|].
      { split; [done|]. by apply loop_inv_extend. }
      exists (y ++ y2), c'. split_and!; [|done..|by rewrite <- Hz2, Ha, Ha2, app_assoc]. destruct (Hext (y ++ y2) c1 (Ok false)) as [_ ->]; [apply HR | done |].
      rewrite <- Hb. unfold core_extend. cs. by rewrite app_assoc.
    + apply IH; [|lia]. split; [done|]. by apply loop_inv_extend.
  - by destruct e.
Qed.
End Pump.
End Streaming.

(** ** Reading a head in pieces *)

Section Heads.
Context {T X E S A : Type} (dec : st T E (option X)) (extend : bytes -> T -> T) (inv : T -> Prop).
Context (R : T -> S -> Prop) (round : st S BoxedError (flow A)) (found : A -> option X).
Context (size : S -> nat) (ahead : S -> bytes).

(** [dec] can be called again when more has arrived. *)
Record resumable : Prop := {
  res_extend y z t : extend z (extend y t) = extend (y ++ z) t;
  res_nil t : extend [] t = t;
  res_inv y t : inv t -> inv (extend y t);
  res_dec y t t' : inv t -> dec t = (t', Ok None) -> inv t' /\ dec (extend y t) = dec (extend y t')
}.

(** A round reads, and calls [dec] on what is there then. *)
Definition head_pump : Prop := forall t s, R t s -> inv t ->
  match round s with
  | (s', Ok Continue) => exists y t', dec (extend y t) = (t', Ok None) /\ R t' s' /\
      (size s' < size s)%nat /\ ahead s = y ++ ahead s'
  | (s', Ok (Break a)) =>
      match found a with
      | Some x => exists y t', dec (extend y t) = (t', Ok (Some x)) /\ R t' s' /\ ahead s = y ++ ahead s'
      | None => ahead s = ahead s'
      end
  | (_, Err e) => orderly (Err (A := unit) e)
  end.

Lemma head_pump_decodes t s fuel :
  resumable -> head_pump -> R t s -> inv t -> (size s < fuel)%nat ->
  match loop fuel round s with
  | (s', Ok a) =>
      match found a with
      | Some x => exists y t', dec (extend y t) = (t', Ok (Some x)) /\ R t' s' /\ ahead s = y ++ ahead s'
      | None => exists y, (y = [] \/ exists t', dec (extend y t) = (t', Ok None)) /\ ahead s = y ++ ahead s'
      end
  | (_, Err e) => orderly (Err (A := unit) e)
  end.
Proof.
  intros Hres Hp. revert t s. induction fuel as [|fuel IH]; intros t s HR Hi Hm; [lia|]. cbn [loop].
  pose proof (Hp t s HR Hi) as Hr. destruct (round s) as [s1 [[|a]|e]]; [| |done].
  2: { destruct (found a); [done|]. exists []. split; [by left | done]. }
  destruct Hr as (y & t1 & Hd & HR1 & Hlt & Ha). apply (res_inv Hres y) in Hi as Hiy.
  destruct (res_dec Hres [] _ _ Hiy Hd) as [Hi1 _].
  specialize (IH t1 s1 HR1 Hi1 ltac:(lia)). destruct (loop fuel round s1) as [s2 [a|e]]; [|done].
  assert (Hmore : forall y2, dec (extend (y ++ y2) t) = dec (extend y2 t1)).
  { intros y2. rewrite <- (res_extend Hres). by destruct (res_dec Hres y2 _ _ Hiy Hd). }
  destruct (found a) as [x|].
  - destruct IH as (y2 & t' & Hd2 & HR2 & Ha2). exists (y ++ y2), t'. rewrite Hmore.
    split_and!; [done..|]. by rewrite Ha, Ha2, app_assoc.
  - destruct IH as (y2 & Hd2 & Ha2). exists (y ++ y2). split; [right | by rewrite Ha, Ha2, app_assoc].
    destruct Hd2 as [-> | [t' Hd2]]; [exists t1; by rewrite app_nil_r | exists t'; by rewrite Hmore].
Qed.
End Heads.

(** * A part of the data

    [consume_body] may take less than [peek_body] shows.  What [decode]
    collects is the same however the data is cut. *)

(** ** One step *)

(** After a part of the data, the rest of it is there, and taking it does what
    taking all of it does. *)
Lemma consume_part limits s n data :
  body_inv limits s -> max_body_size limits <= usize_MAX -> b_phase s <> BodyCloseDelimited ->
  peek_body (b_buf s) (b_phase s) = Some data -> 0 < n -> n < blen data ->
  exists s1, consume_body n limits s = (s1, Ok Advanced) /\
    peek_body (b_buf s1) (b_phase s1) = Some (drop (N.to_nat n) data) /\
    consume_body (blen data - n) limits s1 = consume_body (blen data) limits s.
Proof.
  intros Hi Hm Hnc Hpk H0 Hn. pose proof (peek_body_phase s data Hpk) as [_ [[r Hp]|[[r Hp]|[Hp _]]]]; [| |done].
  all: rewrite Hp, (peek_length _ r) in Hpk by (first [by left | by right]); destruct (_ && _) eqn:Hc; [|done]; injection Hpk as Hd.
  all: pose proof (inv_consumed _ _ Hi) as Hr; rewrite Hp in Hr; destruct Hr as [Hr0 Hr].
  all: assert (Hb : blen data = N.min r (blen (b_buf s))) by (subst data; rewrite blen_take; lia).
  all: assert (Hdrop : blen (drop (N.to_nat n) (b_buf s)) = blen (b_buf s) - n) by (unfold blen; rewrite length_drop; lia).
  all: assert (Hpk : take (N.to_nat (N.min (r - n) (blen (drop (N.to_nat n) (b_buf s))))) (drop (N.to_nat n) (b_buf s)) = drop (N.to_nat n) data)
    by (rewrite <- Hd, skipn_firstn_comm; f_equal; lia).
  all: assert (Hne : is_empty (drop (N.to_nat n) (b_buf s)) = false)
    by (destruct (drop (N.to_nat n) (b_buf s)); [unfold blen in Hdrop at 1; cbn in Hdrop; lia | done]).
  - rewrite (consume_content_length_eq limits n s r), (consume_content_length_eq limits (blen data) s r) by (done || lia). cbv zeta.
    rewrite (proj2 (N.eqb_neq (r - n) 0)), (proj2 (N.ltb_lt 0 n)) by lia. eexists. split; [done|]. split.
    + bs. rewrite (peek_length _ (r - n)) by (by left). rewrite Hne, (proj2 (N.ltb_lt 0 (r - n))) by lia. cbn [andb negb]. by rewrite Hpk.
    + rewrite (consume_content_length_eq _ _ _ (r - n)) by (bs; done || lia). cbv zeta. bs.
      replace (r - n - (blen data - n)) with (r - blen data) by lia. replace (body_consumed (b_self s) + n + (blen data - n)) with (body_consumed (b_self s) + blen data) by lia.
      rewrite (proj2 (N.ltb_lt 0 (blen data - n))), (proj2 (N.ltb_lt 0 (blen data))) by lia. unfold with_phase, with_self, drain. bs.
      rewrite drop_drop. replace (N.to_nat n + N.to_nat (blen data - n))%nat with (N.to_nat (blen data)) by lia. done.
  - rewrite (consume_chunk_eq limits n s r), (consume_chunk_eq limits (blen data) s r) by (done || lia). cbv zeta.
    rewrite (proj2 (N.eqb_neq (r - n) 0)) by lia. eexists. split; [done|]. split.
    + bs. rewrite (peek_length _ (r - n)) by (by right). rewrite Hne, (proj2 (N.ltb_lt 0 (r - n))) by lia. cbn [andb negb]. by rewrite Hpk.
    + rewrite (consume_chunk_eq _ _ _ (r - n)) by (bs; done || lia). cbv zeta. bs.
      replace (r - n - (blen data - n)) with (r - blen data) by lia. replace (body_consumed (b_self s) + n + (blen data - n)) with (body_consumed (b_self s) + blen data) by lia.
      unfold with_phase, with_self, drain. bs.
      rewrite drop_drop. replace (N.to_nat n + N.to_nat (blen data - n))%nat with (N.to_nat (blen data)) by lia. done.
Qed.

(** ** The decoder *)

Section Taking.
Context {D : Type} `{Decompressor D} (line_ok : str -> Prop).
Implicit Types c : Core D.

Abbreviation goes_on b k c := (body_loop (dressed b (Some k) c)).

Lemma undressed_inv b k c : loop_inv line_ok (dressed b k c) -> loop_inv line_ok c.
Proof.
  intros Hi. assert (Hc : c = dressed (c_decoded_body c) (c_decoded_body_kind c) (dressed b k c)) by (by destruct c).
  rewrite Hc. by apply dressed_inv.
Qed.

(** The loop goes by its first round. *)
Lemma body_loop_round c1 c2 :
  loop_inv line_ok c1 -> loop_inv line_ok c2 -> body_round c1 = body_round c2 -> body_loop c1 = body_loop c2.
Proof.
  intros H1 H2 He. destruct (body_round c2) as [c' [[|a]|e]] eqn:Hr.
  - rewrite (body_loop_continue line_ok [] c1 c' H1 He). symmetry. by apply (body_loop_continue line_ok []).
  - unfold body_loop. cbn [loop]. by rewrite He, Hr.
  - unfold body_loop. cbn [loop]. by rewrite He, Hr.
Qed.

(** A round that is known, seen from the loop. *)
Lemma body_loop_step fed k c taken c' r :
  loop_inv line_ok c -> stream_step c = (taken, (c', r)) ->
  match stream_result taken r with
  | Ok Continue => goes_on fed k c = goes_on (fed ++ default [] taken) k c' /\ loop_inv line_ok c' /\ (core_buffered c' < core_buffered c)%nat
  | Ok (Break b) => goes_on fed k c = (dressed (fed ++ default [] taken) (Some k) c', Ok b) /\ loop_inv line_ok c'
  | Err e => orderly (Err (A := unit) e)
  end.
Proof.
  intros Hi Hs. pose proof (dressed_inv line_ok fed (Some k) c Hi) as Hdi.
  pose proof (body_round_stream line_ok _ Hdi) as Hr. rewrite stream_step_dressed, Hs in Hr.
  change (set_decoded_body _ _) with (dressed (fed ++ default [] taken) (Some k) c') in Hr.
  pose proof (body_round_keeps line_ok _ Hdi) as Hk. rewrite Hr in Hk. cbn [fst] in Hk.
  destruct (stream_result taken r) as [[|b]|e] eqn:Hres.
  - split; [by apply (body_loop_continue line_ok [])|]. split; [by apply undressed_inv in Hk|].
    pose proof (body_round_ext line_ok [] _ Hdi) as He. unfold round_ext in He. rewrite Hr in He. apply He.
  - split; [unfold body_loop; cbn [loop]; by rewrite Hr | by apply undressed_inv in Hk].
  - pose proof (body_loop_inv line_ok _ (proj1 Hdi)) as (_ & Ho & _). unfold body_loop in Ho. cbn [loop] in Ho. rewrite Hr in Ho. exact Ho.
Qed.

(** What the body loop of [decode] still does is what it did before. *)
Lemma consume_any c data n fed k :
  loop_inv line_ok c -> core_peek_body c = Some data -> 0 < n -> n <= blen data ->
  match core_consume_body n c with
  | (c', Ok (ProgressComplete _)) => goes_on fed k c = (dressed (fed ++ take (N.to_nat n) data) (Some k) c', Ok true)
  | (c', Ok _) => goes_on fed k c = goes_on (fed ++ take (N.to_nat n) data) k c' /\ loop_inv line_ok c' /\ (core_buffered c' < core_buffered c)%nat
  | (_, Err e) => orderly (Err (A := unit) e)
  end.
Proof.
  intros Hi Hpk H0 Hn. destruct (decide (n = blen data)) as [->|Hne].
  - assert (Ht : take (N.to_nat (blen data)) data = data) by (unfold blen; rewrite Nat2N.id; apply firstn_all). rewrite Ht.
    destruct (core_consume_body (blen data) c) as [c' r] eqn:Hc.
    pose proof (body_loop_step fed k c (Some data) c' r Hi ltac:(unfold stream_step; by rewrite Hpk, Hc)) as Hs.
    destruct r as [[| |ts]|e]; cbn [stream_result stream_flow default] in Hs; [exact Hs..| |exact Hs]. apply Hs.
  - pose proof Hi as [Hc Hnc]. destruct (inv_limits _ _ Hc) as (_ & _ & _ & Hm & _).
    destruct (consume_part (c_limits c) (body_state c) n data (inv_body _ _ Hc) Hm Hnc Hpk H0 ltac:(lia)) as (s1 & H1 & H2 & H3).
    destruct (core_consume_body_keeps line_ok n c Hc) as (Hk1 & _ & Hk2).
    assert (He : core_consume_body n c = (put_body s1 c, Ok Advanced)).
    { unfold core_consume_body, on_body. rewrite (proj2 (N.eqb_neq n 0)) by lia. change (Build_BodyState _ _ _) with (body_state c). by rewrite H1. }
    rewrite He in Hk1, Hk2 |- *. cbn [fst] in Hk1, Hk2.
    assert (Hi' : loop_inv line_ok (put_body s1 c)) by (split; [done | intros Hx; by apply Hnc, Hk2]).
    split_and!; [|done|].
    + apply body_loop_round; [by apply dressed_inv..|]. rewrite !body_round_eq. unfold body_step.
      change (body_state (dressed fed (Some k) c)) with (body_state c). unfold core_peek_body in Hpk. cs. rewrite Hpk.
      change (body_state (dressed _ (Some k) (put_body s1 c))) with (body_state (put_body s1 c)).
      assert (Hs1 : body_state (put_body s1 c) = s1) by (by destruct s1). rewrite Hs1.
      set (c2 := dressed (fed ++ take (N.to_nat n) data) (Some k) (put_body s1 c)).
      change (c_buf c2) with (b_buf s1). change (c_phase c2) with (b_phase s1). change (c_limits c2) with (c_limits c).
      change (c_limits (dressed fed (Some k) c)) with (c_limits c). rewrite H2.
      replace (blen (drop (N.to_nat n) data)) with (blen data - n) by (unfold blen; rewrite length_drop; lia). rewrite H3.
      assert (Hst : forall s', stepped (drop (N.to_nat n) data) s' c2 =
          stepped data s' (dressed fed (Some k) c)).
      { intros s'. unfold stepped, c2, dressed. cs. rewrite <- app_assoc, take_drop. done. }
      destruct (consume_body (blen data) _ _) as [s' [p|e]]; by rewrite Hst.
    + unfold core_buffered. cs. pose proof (consume_body_inv (c_limits c) n (body_state c) (inv_body _ _ Hc) Hm) as Hp. rewrite H1 in Hp.
      destruct Hp as (_ & _ & _ & _ & _ & _ & Hlt). exact Hlt.
Qed.

Lemma progress_any c fed k :
  loop_inv line_ok c -> core_peek_body c = None ->
  match core_progress c with
  | (c', Ok (ProgressComplete _)) => goes_on fed k c = (dressed fed (Some k) c', Ok true)
  | (c', Ok Advanced) => goes_on fed k c = goes_on fed k c' /\ loop_inv line_ok c' /\ (core_buffered c' < core_buffered c)%nat
  | (c', Ok NeedData) => goes_on fed k c = (dressed fed (Some k) c', Ok false) /\ loop_inv line_ok c'
  | (_, Err e) => orderly (Err (A := unit) e)
  end.
Proof.
  intros Hi Hpk. destruct (core_progress c) as [c' r] eqn:Hc.
  pose proof (body_loop_step fed k c None c' r Hi ltac:(unfold stream_step; by rewrite Hpk, Hc)) as Hs.
  destruct r as [[| |ts]|e]; cbn [stream_result stream_flow default] in Hs; rewrite ?app_nil_r in Hs; try exact Hs. apply Hs.
Qed.
End Taking.
