(* ===== verification/ReverseProxy.v ===== *)
(** * The reverse proxy ([examples/http11_reverse_proxy/src/main.rs])

    The upstream URL, the pool of idle connections, the headers that are
    passed on, and the two halves of a client's request: collecting it and
    streaming the response of the upstream back.  TLS and the making of a
    connection are not part of the repository; a connection is a value of type
    [C] in the pool and a socket where it is used.  [Instant]s are counted in
    nanoseconds and are arguments. *)
From stdpp Require Import gmap.
From S2P Require Import Prelude RustStd Errors Validate StatusCode Head Message Buffer BodyDecoder Compression.
From S2P Require Import DecoderCore RequestDecoder ResponseDecoder Encoder RustStr Io.

#[export] Instance byte_countable : Countable byte.
Proof. refine (inj_countable' b2n n2b _). apply n2b_b2n. Defined.

Module Proxy.

(** ** The upstream *)

Inductive Scheme : Type := Http | Https.

#[export] Instance scheme_eq_dec : EqDecision Scheme.
Proof. solve_decision. Defined.
#[export] Instance scheme_countable : Countable Scheme.
Proof.
  refine (inj_countable' (fun s => match s with Http => true | Https => false end)
    (fun b : bool => if b then Http else Https) _). by intros [].
Defined.

Definition default_port (s : Scheme) : N := match s with Http => 80 | Https => 443 end.

Record UpstreamUrl := { scheme : Scheme; host : str; port : N }.

Definition UpstreamKey : Type := Scheme * str * N.
Definition key (u : UpstreamUrl) : UpstreamKey := (scheme u, host u, port u).

(** The host and the text of the port in an authority. *)
Definition split_authority (url authority : str) : result BoxedError (str * option str) :=
  match strip_prefix (B "[") authority with
  | Some rest =>
      close ← ok_or (Text (B "unterminated IPv6 literal in upstream URL: " ++ url)) (find_byte "]" rest);
      let host := take close rest in
      let after := drop (S close) rest in
      if is_empty after then Ok (host, None)
      else
        match strip_prefix (B ":") after with
        | Some port_str => Ok (host, Some port_str)
        | None => Err (Text (B "unexpected characters after IPv6 literal in upstream URL: " ++ url))
        end
  | None =>
      match rfind_byte ":" authority with
      | Some colon => Ok (take colon authority, Some (drop (S colon) authority))
      | None => Ok (authority, None)
      end
  end.

(** The [map_err] of the port. *)
Definition invalid_port (url s : str) : BoxedError :=
  Text (B "invalid port in upstream URL: " ++ url ++ B " ("
        ++ match int_error 10 u16_MAX s with Some k => show_int_error k | None => [] end ++ B ")").

Definition parse_upstream_url (url : str) : result BoxedError UpstreamUrl :=
  '(scheme, rest) ←
    match strip_prefix (B "https://") url with
    | Some rest => Ok (Https, rest)
    | None =>
        match strip_prefix (B "http://") url with
        | Some rest => Ok (Http, rest)
        | None => Err (Text (B "upstream URL must start with http:// or https://: " ++ url))
        end
    end;
  let empty_host := Err (Text (B "upstream URL has empty host: " ++ url)) in
  let authority_end := default (length rest) (position (fun b => (b =b "/") || (b =b "?")) rest) in
  let authority := take authority_end rest in
  if is_empty authority then empty_host
  else
    '(host, port_opt) ← split_authority url authority;
    if is_empty host then empty_host
    else
      port ← match port_opt with
             | Some s => if is_empty s then Ok (default_port scheme)
                         else ok_or (invalid_port url s) (parse_u16 s)
             | None => Ok (default_port scheme)
             end;
      Ok {| scheme := scheme; host := host; port := port |}.

Definition format_host_header (scheme : Scheme) (host : str) (port : N) : str :=
  let host_part := if contains_byte ":" host then B "[" ++ host ++ B "]" else host in
  if port =? default_port scheme then host_part else host_part ++ B ":" ++ show_dec port.

(** ** The pool *)

Record PoolConfig := {
  max_connections_per_host : N;
  idle_timeout_secs : N;
  max_lifetime_secs : N
}.

Definition PoolConfig_default : PoolConfig :=
  {| max_connections_per_host := 10; idle_timeout_secs := 60; max_lifetime_secs := 300 |}.

(** [Duration::from_secs] and [duration_since], which is zero before the start. *)
Definition from_secs (s : N) : N := s * 1000000000.
Definition duration_since (now earlier : N) : N := saturating_sub now earlier.

Section Pool.
Context {C : Type}.

Record PooledConnection := { stream : C; created_at : N; last_used : N }.

Definition connection_new (now : N) (c : C) : PooledConnection :=
  {| stream := c; created_at := now; last_used := now |}.

Definition is_valid (config : PoolConfig) (now : N) (conn : PooledConnection) : bool :=
  (duration_since now (last_used conn) <? from_secs (idle_timeout_secs config))
  && (duration_since now (created_at conn) <? from_secs (max_lifetime_secs config)).

Definition touch (now : N) (conn : PooledConnection) : PooledConnection :=
  {| stream := stream conn; created_at := created_at conn; last_used := now |}.

(** [idle_connections] and [config]; the TLS connector is handed on unchanged. *)
Record ConnectionPool := { idle : gmap UpstreamKey (list PooledConnection); config : PoolConfig }.

Definition pool_new (config : PoolConfig) : ConnectionPool := {| idle := ∅; config := config |}.

Definition set_idle (m : gmap UpstreamKey (list PooledConnection)) (p : ConnectionPool) : ConnectionPool :=
  {| idle := m; config := config p |}.

(** The [while let Some(conn) = connections.pop()]: the vector is given from its end. *)
Fixpoint pop_valid (config : PoolConfig) (now : N) (rev_connections : list PooledConnection) :
    list PooledConnection * option PooledConnection :=
  match rev_connections with
  | [] => ([], None)
  | conn :: rest => if is_valid config now conn then (rest, Some (touch now conn)) else pop_valid config now rest
  end.

Definition try_acquire (now : N) (key : UpstreamKey) (p : ConnectionPool) :
    ConnectionPool * option PooledConnection :=
  match idle p !! key with
  | Some connections =>
      let '(rest, conn) := pop_valid (config p) now (rev connections) in
      (set_idle (<[key := rev rest]> (idle p)) p, conn)
  | None => (p, None)
  end.

Definition release (now : N) (key : UpstreamKey) (conn : PooledConnection) (p : ConnectionPool) : ConnectionPool :=
  if negb (is_valid (config p) now conn) then p
  else
    let connections := default [] (idle p !! key) in
    if max_connections_per_host (config p) <=? blen connections
    then set_idle (<[key := connections]> (idle p)) p
    else set_idle (<[key := connections ++ [conn]]> (idle p)) p.

Definition cleanup_expired (now : N) (p : ConnectionPool) : ConnectionPool :=
  let kept := List.filter (is_valid (config p) now) <$> idle p in
  set_idle (filter (fun kv => kv.2 <> []) kept) p.

Definition stats (p : ConnectionPool) : N * N :=
  (N.of_nat (size (idle p)), map_fold (fun _ connections n => blen connections + n) 0 (idle p)).
End Pool.
Arguments PooledConnection C : clear implicits.
Arguments ConnectionPool C : clear implicits.

(** ** Headers *)

(** The names listed in the Connection fields. *)
Definition connection_headers (hs : list (str * str)) : list str :=
  flat_map (fun h => List.filter (fun s => negb (is_empty s))
                       (map (fun s => to_ascii_lowercase (trim s)) (split "," (snd h))))
    (List.filter (named (B "Connection")) hs).

Definition HOP_BY_HOP_HEADERS : list str :=
  [B "connection"; B "keep-alive"; B "proxy-authenticate"; B "proxy-authorization"; B "proxy-connection";
   B "te"; B "transfer-encoding"; B "upgrade"].

Definition is_hop_by_hop_header (name : str) (connection_headers : list str) : bool :=
  let name_lower := to_ascii_lowercase name in
  if existsb (beqs name_lower) HOP_BY_HOP_HEADERS then true
  else existsb (beqs name_lower) connection_headers.

(** The loop that copies the headers of the request: [skip] is its [continue]. *)
Definition skip_request_header (connection_headers : list str) (name : str) : bool :=
  eq_ignore_ascii_case name (B "host") || eq_ignore_ascii_case name (B "content-length")
  || is_hop_by_hop_header name connection_headers.

Definition skip_response_header (connection_headers : list str) (name : str) : bool :=
  is_hop_by_hop_header name connection_headers
  || eq_ignore_ascii_case name (B "content-length") || eq_ignore_ascii_case name (B "transfer-encoding").

Section Copy.
Context {M : Type} (add_header : str -> str -> M -> result EncodeError.t M) (skip : str -> bool).

Fixpoint copy_headers (hs : list (str * str)) (m : M) : result EncodeError.t M :=
  match hs with
  | [] => Ok m
  | (name, value) :: hs' =>
      if skip name then copy_headers hs' m
      else m' ← add_header name value m; copy_headers hs' m'
  end.
End Copy.

(** The request for the upstream. *)
Definition upstream_request (head : RequestHead.t) (body_kind : BodyKind) (body : bytes)
    (upstream_host_header : str) : result EncodeError.t Request.t :=
  r ← Request.new (RequestHead.method head) (RequestHead.uri head);
  r ← copy_headers Request.add_header (skip_request_header (connection_headers (RequestHead.headers head)))
        (RequestHead.headers head) r;
  r ← Request.add_header (B "Host") upstream_host_header r;
  r ← Request.add_header (B "Connection") (B "keep-alive") r;
  Ok (match body_kind with KNone => r | _ => Request.set_body body r end).

(** The length the proxy announces. *)
Definition announced_length (is_head : bool) (head : ResponseHead.t) (body_kind : BodyKind) :
    result Error.t (option N) :=
  match body_kind with
  | KContentLength len => Ok (Some len)
  | KNone => if is_head then content_length head else Ok None
  | _ => Ok None
  end.

(** The head for the client. *)
Definition downstream_head (method : str) (head : ResponseHead.t) (body_kind : BodyKind) :
    result BoxedError Response.t :=
  r ← map_err Encoding (Response.new (ResponseHead.status_code head) (ResponseHead.reason_phrase head));
  content_length ← map_err Decoding
    (announced_length (eq_ignore_ascii_case method (B "HEAD")) head body_kind);
  map_err Encoding
    (r ← copy_headers Response.add_header (skip_response_header (connection_headers (ResponseHead.headers head)))
           (ResponseHead.headers head) r;
     match content_length, body_kind with
     | Some len, _ => Response.add_header (B "Content-Length") (show_dec len) r
     | None, KChunked => Response.add_header (B "Transfer-Encoding") (B "chunked") r
     | None, KCloseDelimited => Response.add_header (B "Connection") (B "close") r
     | None, _ => Ok r
     end).

(** ** Collecting the request ([handle_client]) *)

Abbreviation Rq := (RequestDecoder NoCompression).
Abbreviation Rs := (ResponseDecoder NoCompression).

(** The decoder and the socket of the client, and the body collected so far. *)
Record ClientSide := { cl_decoder : Rq; cl_socket : Socket; cl_body : bytes }.

Definition with_client (ds : Rq * Socket) (s : ClientSide) : ClientSide :=
  {| cl_decoder := fst ds; cl_socket := snd ds; cl_body := cl_body s |}.

(** A method of the decoder of the request. *)
Definition on_request {A} (m : st Rq Error.t A) : st ClientSide BoxedError A :=
  on_part cl_decoder (fun d s => with_client (d, cl_socket s) s) Decoding m.

(** [READ_CHUNK] *)
Definition CLIENT_CHUNK : N := 4096.
Definition UPSTREAM_CHUNK : N := 8192.

(** [want], [mut_buf], [read], and [advance_buf]; the number of bytes read. *)
Definition client_read : st ClientSide BoxedError N := fun s =>
  let want := wanted CLIENT_CHUNK (cl_decoder s) in
  if want =? 0 then throw (Text (B "decoder buffer full")) s
  else
    (o ← on_part (fun s => (cl_decoder s, cl_socket s)) with_client Decoding (receive read want);
     match o with Got data => mret (blen data) | _ => throw IoFailed end) s.

(** One round of the loop that reads the head: [Break None] is the client closing. *)
Definition request_head_round : st ClientSide BoxedError (flow (option (RequestHead.t * BodyKind))) :=
  n ← client_read;
  if n =? 0 then mret (Break None)
  else
    r ← on_request rq_decode_headers;
    match r with
    | Some result => mret (Break (Some result))
    | None => mret Continue
    end.

Definition request_head_loop : st ClientSide BoxedError (option (RequestHead.t * BodyKind)) := fun s =>
  loop (S (inbox_size (cl_socket s))) request_head_round s.

(** One round of the inner loop that collects the body: [Break true] is [break 'outer],
    [Break false] goes back to reading. *)
Definition request_body_round : st ClientSide BoxedError (flow bool) := fun s =>
  match rq_peek_body (cl_decoder s) with
  | Some data =>
      (_ ← modify (fun s => {| cl_decoder := cl_decoder s; cl_socket := cl_socket s; cl_body := cl_body s ++ data |});
       p ← on_request (rq_consume_body (blen data));
       match p with
       | ProgressComplete _ => mret (Break true)
       | Advanced | NeedData => mret Continue
       end) s
  | None =>
      (p ← on_request rq_progress;
       match p with
       | ProgressComplete _ => mret (Break true)
       | Advanced => mret Continue
       | NeedData => mret (Break false)
       end) s
  end.

(** A round of the outer loop. *)
Definition request_read_round : st ClientSide BoxedError (flow unit) := fun s =>
  (complete ← loop (S (length (rq_remaining (cl_decoder s)))) request_body_round;
   if (complete : bool) then mret (Break tt)
   else
     n ← client_read;
     if n =? 0 then throw (Text (B "client disconnected during request body"))
     else mret Continue) s.

Definition request_body_loop : st ClientSide BoxedError unit := fun s =>
  loop (S (inbox_size (cl_socket s))) request_read_round s.

(** 405 for CONNECT. *)
Definition connect_refusal : result EncodeError.t Response.t :=
  r ← Response.with_status {| code := 405; canonical_reason := B "Method Not Allowed" |};
  r ← Response.add_header (B "Allow") (B "GET, HEAD, POST, PUT, DELETE, OPTIONS, PATCH") r;
  r ← Response.add_header (B "Content-Length") (B "0") r;
  Response.add_header (B "Connection") (B "close") r.

Definition client_write {wire : Wire} (data : bytes) : st ClientSide BoxedError unit :=
  on_part cl_socket (fun k s => with_client (cl_decoder s, k) s) id (write_all data).

(** [handle_client] up to the call of [stream_upstream_response_pooled]: the
    request for the upstream, or [None] when there is none to make. *)
Definition collect_request {wire : Wire} (upstream_host_header : str) : st ClientSide BoxedError (option Request.t) :=
  head ← request_head_loop;
  match head with
  | None => mret None
  | Some (_, KTunnel) =>
      response ← lift (map_err Encoding connect_refusal);
      data ← lift (map_err Encoding (encode_response response));
      _ ← client_write data;
      mret None
  | Some (req_head, req_body_kind) =>
      _ ← match req_body_kind with KNone => mret tt | _ => request_body_loop end;
      body ← gets cl_body;
      r ← lift (map_err Encoding (upstream_request req_head req_body_kind body upstream_host_header));
      mret (Some r)
  end.

Definition client_start (s : Socket) : ClientSide :=
  {| cl_decoder := rq_new NoCompression_new DecoderLimits_default; cl_socket := s; cl_body := [] |}.

(** ** Streaming the response ([stream_response_on_connection]) *)

Record Exchange := { ex_decoder : Rs; ex_down : Socket; ex_up : Socket }.

Definition with_upstream (ds : Rs * Socket) (s : Exchange) : Exchange :=
  {| ex_decoder := fst ds; ex_down := ex_down s; ex_up := snd ds |}.

Definition on_response {A} (m : st Rs Error.t A) : st Exchange BoxedError A :=
  on_part ex_decoder (fun d s => with_upstream (d, ex_up s) s) Decoding m.

Definition proxy_limits : DecoderLimits := {|
  max_buffer_size := 256 * 1024;
  max_headers_count := max_headers_count DecoderLimits_default;
  max_header_line_size := max_header_line_size DecoderLimits_default;
  max_body_size := 50 * 1024 * 1024;
  max_chunk_line_size := max_chunk_line_size DecoderLimits_default
|}.

Definition with_down (k : Socket) (s : Exchange) : Exchange :=
  {| ex_decoder := ex_decoder s; ex_down := k; ex_up := ex_up s |}.

(** What the proxy does with its client's socket, and with that of the upstream. *)
Definition on_down {A} (m : st Socket BoxedError A) : st Exchange BoxedError A := on_part ex_down with_down id m.
Definition on_up {A} (m : st Socket BoxedError A) : st Exchange BoxedError A :=
  on_part ex_up (fun k s => with_upstream (ex_decoder s, k) s) id m.

Section Streaming.
Context {wire : Wire}.

Definition down_write (data : bytes) : st Exchange BoxedError unit := on_down (write_all data).
Definition down_flush : st Exchange BoxedError unit := on_down flush.

(** [upstream.write_all] and [flush]. *)
Definition send_request (data : bytes) : st Exchange BoxedError unit :=
  _ ← on_up (write_all data);
  on_up flush.

Definition upstream_read : st Exchange BoxedError N := fun s =>
  let want := wanted UPSTREAM_CHUNK (ex_decoder s) in
  if want =? 0 then throw (Text (B "decoder buffer full")) s
  else
    (o ← on_part (fun s => (ex_decoder s, ex_up s)) with_upstream Decoding (receive read want);
     match o with Got data => mret (blen data) | _ => throw IoFailed end) s.

Definition response_head_round : st Exchange BoxedError (flow (ResponseHead.t * BodyKind)) :=
  n ← upstream_read;
  if n =? 0 then throw (Text (B "upstream connection closed"))
  else
    r ← on_response rs_decode_headers;
    match r with
    | Some result => mret (Break result)
    | None => mret Continue
    end.

Definition response_head_loop : st Exchange BoxedError (ResponseHead.t * BodyKind) := fun s =>
  loop (S (inbox_size (ex_up s))) response_head_round s.

(** [write_last_chunk]. *)
Definition last_chunk_bytes (trailers : list (str * str)) : bytes :=
  if is_empty trailers then encode_chunk []
  else B "0" ++ CRLF ++ flat_map (fun '(name, value) => name ++ B ": " ++ value ++ CRLF) trailers ++ CRLF.

Definition write_last_chunk (trailers : list (str * str)) : st Exchange BoxedError unit :=
  down_write (last_chunk_bytes trailers).

(** [BodyProgress::Complete]. *)
Definition response_complete (use_chunked : bool) (trailers : list (str * str)) :
    st Exchange BoxedError (flow bool) :=
  _ ← (if use_chunked then write_last_chunk trailers else mret tt);
  mret (Break true).

(** One round of the inner loop of the body. *)
Definition response_body_round (use_chunked : bool) : st Exchange BoxedError (flow bool) := fun s =>
  match rs_peek_body (ex_decoder s) with
  | Some data =>
      (_ ← down_write (if use_chunked then encode_chunk data else data);
       p ← on_response (rs_consume_body (blen data));
       match p with
       | ProgressComplete trailers => response_complete use_chunked trailers
       | Advanced | NeedData => mret Continue
       end) s
  | None =>
      (p ← on_response rs_progress;
       match p with
       | ProgressComplete trailers => response_complete use_chunked trailers
       | Advanced => mret Continue
       | NeedData => mret (Break false)
       end) s
  end.

Definition response_read_round (use_chunked : bool) : st Exchange BoxedError (flow unit) := fun s =>
  (complete ← loop (S (length (rs_remaining (ex_decoder s)))) (response_body_round use_chunked);
   if (complete : bool) then mret (Break tt)
   else
     n ← upstream_read;
     if n =? 0 then throw (Text (B "upstream disconnected during response body"))
     else mret Continue) s.

Definition response_body_loop (use_chunked : bool) : st Exchange BoxedError unit := fun s =>
  loop (S (inbox_size (ex_up s))) (response_read_round use_chunked) s.

(** The rest of a close-delimited body: from the socket to the client. *)
Definition raw_round : st Exchange BoxedError (flow unit) := fun s =>
  let '(up, o) := read UPSTREAM_CHUNK (ex_up s) in
  (_ ← modify (with_upstream (ex_decoder s, up));
   match o with
   | Got data => if is_empty data then mret (Break tt) else _ ← down_write data; mret Continue
   | _ => throw IoFailed
   end) s.

Definition close_delimited_transfer : st Exchange BoxedError unit := fun s =>
  let '(d, leftover) := rs_take_remaining (ex_decoder s) in
  (_ ← modify (with_upstream (d, ex_up s));
   _ ← (if is_empty leftover then mret tt else down_write leftover);
   _ ← (fun s => loop (S (inbox_size (ex_up s))) raw_round s);
   down_flush) s.

(** [stream_response_on_connection]: whether the connection can be used again. *)
Definition stream_response (request : Request.t) (method : str) : st Exchange BoxedError bool :=
  request_bytes ← lift (map_err Encoding (encode_request request));
  _ ← send_request request_bytes;
  '(resp_head, body_kind) ← response_head_loop;
  let is_close_delimited := match body_kind with KCloseDelimited => true | _ => false end in
  let can_reuse := if is_close_delimited then false else is_keep_alive resp_head in
  response ← lift (downstream_head method resp_head body_kind);
  header_bytes ← lift (map_err Encoding (encode_response_headers response));
  _ ← down_write header_bytes;
  _ ← down_flush;
  if is_close_delimited then
    _ ← close_delimited_transfer;
    mret can_reuse
  else
    _ ← match body_kind with
        | KNone => mret tt
        | _ => response_body_loop (match body_kind with KChunked => true | _ => false end)
        end;
    _ ← down_flush;
    mret can_reuse.

End Streaming.

(** The decoder of an exchange. *)
Definition exchange_start (method : str) (down up : Socket) : Exchange :=
  {| ex_decoder := set_request_method method (rs_new NoCompression_new proxy_limits);
     ex_down := down; ex_up := up |}.

(** [stream_upstream_response_pooled] after the connection was acquired: the
    exchange, and the connection given back when it can be used again. *)
Definition should_reuse (r : result (exn BoxedError) bool) : bool :=
  match r with Ok reuse => reuse | Err _ => false end.

(** [used] is when the exchange ended, [now] when the lock of the pool was had. *)
Definition give_back {C} (used now : N) (k : UpstreamKey) (conn : PooledConnection C)
    (r : result (exn BoxedError) bool) (p : ConnectionPool C) : ConnectionPool C :=
  if should_reuse r then release now k (touch used conn) p else p.

Definition run_exchange {wire : Wire} (request : Request.t) (down : Socket) (conn : PooledConnection Socket) :
    Socket * PooledConnection Socket * result (exn BoxedError) bool :=
  let method := Request.method request in
  let '(e, r) := stream_response request method (exchange_start method down (stream conn)) in
  (ex_down e, {| stream := ex_up e; created_at := created_at conn; last_used := last_used conn |}, r).
End Proxy.
