(* ===== verification/ProxyPool.v ===== *)
(** * The pool of the reverse proxy

    The pool is shared by the tasks that serve clients and by the task that
    cleans it up; each holds its lock for one operation.  A state is the pool,
    the connections that are in use, and the clock; a step is one operation, or
    time that goes by.  A connection is known by the upstream it was made for
    and a number. *)
From stdpp Require Import gmap.
From S2P Require Import Prelude RustStd Errors Io ReverseProxy.

Module ProxyPool.
Import Proxy.

Definition Id : Type := UpstreamKey * N.
Definition PConn : Type := PooledConnection Id.

Implicit Types (k : UpstreamKey) (c : PConn) (cs : list PConn).

(** ** The loop of [try_acquire] *)

Lemma pop_valid_spec cfg now l :
  match pop_valid cfg now l with
  | (rest, Some conn) => exists dropped c, l = dropped ++ c :: rest /\ conn = touch now c /\
      is_valid cfg now c = true /\ Forall (fun c => is_valid cfg now c = false) dropped
  | (rest, None) => rest = [] /\ Forall (fun c : PConn => is_valid cfg now c = false) l
  end.
Proof.
  induction l as [|c l IH]; [done|]. cbn [pop_valid]. destruct (is_valid cfg now c) eqn:Hv.
  - by exists [], c.
  - destruct (pop_valid cfg now l) as [rest [conn|]].
    + destruct IH as (dropped & c' & -> & Hc & Hv' & Hd). exists (c :: dropped), c'. by split_and!; [..|constructor].
    + destruct IH as [-> Hd]. by split; [|constructor].
Qed.

(** The newest connection that is valid, the connections behind it closed. *)
Lemma try_acquire_hit now k (p p' : ConnectionPool Id) conn :
  try_acquire now k p = (p', Some conn) ->
  exists older c newer, idle p !! k = Some (older ++ c :: newer) /\ conn = touch now c /\
    is_valid (config p) now c = true /\ Forall (fun c => is_valid (config p) now c = false) newer /\
    p' = set_idle (<[k := older]> (idle p)) p.
Proof.
  unfold try_acquire. destruct (idle p !! k) as [cs|] eqn:Hk; [|done].
  pose proof (pop_valid_spec (config p) now (rev cs)) as Hp.
  destruct (pop_valid _ _ _) as [rest [c0|]]; [|done]. intros [= <- <-].
  destruct Hp as (dropped & c & Hl & Hc & Hv & Hd). exists (rev rest), c, (rev dropped).
  apply (f_equal (@rev PConn)) in Hl. rewrite rev_involutive, rev_app_distr in Hl. cbn in Hl. rewrite <- app_assoc in Hl.
  split_and!; [by rewrite Hl | done | done | by apply Forall_rev | done].
Qed.

Lemma try_acquire_miss now k (p p' : ConnectionPool Id) :
  try_acquire now k p = (p', None) ->
  match idle p !! k with
  | Some cs => Forall (fun c => is_valid (config p) now c = false) cs /\ p' = set_idle (<[k := []]> (idle p)) p
  | None => p' = p
  end.
Proof.
  unfold try_acquire. destruct (idle p !! k) as [cs|] eqn:Hk; [|by intros [= <-]].
  pose proof (pop_valid_spec (config p) now (rev cs)) as Hp.
  destruct (pop_valid _ _ _) as [rest [c0|]]; [done|]. intros [= <-]. destruct Hp as [-> Hd]. split; [|done].
  apply Forall_rev in Hd. by rewrite rev_involutive in Hd.
Qed.

(** ** The steps *)

Record Sys := { pool : ConnectionPool Id; busy : list (UpstreamKey * PConn); clock : N; made : N }.

(** [Finish] gives back what a run of [stream_response_on_connection] allows to;
    [used] is when the run ended, before the lock was had. *)
Inductive step : Sys -> Sys -> Prop :=
  | Hit s k p' conn : try_acquire (clock s) k (pool s) = (p', Some conn) ->
      step s {| pool := p'; busy := (k, conn) :: busy s; clock := clock s; made := made s |}
  | Miss s k p' : try_acquire (clock s) k (pool s) = (p', None) ->
      step s {| pool := p'; busy := busy s; clock := clock s; made := made s |}
  | Connect s k :
      step s {| pool := pool s; busy := (k, connection_new (clock s) (k, made s)) :: busy s;
                clock := clock s; made := made s + 1 |}
  | Finish s l1 k conn l2 used r : busy s = l1 ++ (k, conn) :: l2 -> last_used conn <= used <= clock s ->
      step s {| pool := give_back used (clock s) k conn r (pool s); busy := l1 ++ l2; clock := clock s; made := made s |}
  | Cleanup s :
      step s {| pool := cleanup_expired (clock s) (pool s); busy := busy s; clock := clock s; made := made s |}
  | Tick s d :
      step s {| pool := pool s; busy := busy s; clock := clock s + d; made := made s |}.

Inductive reachable (cfg : PoolConfig) : Sys -> Prop :=
  | Started now : reachable cfg {| pool := pool_new cfg; busy := []; clock := now; made := 0 |}
  | Stepped s s' : reachable cfg s -> step s s' -> reachable cfg s'.

(** ** What holds in between *)

(** Made for [k], and used since, not in the future. *)
Definition conn_ok (now n : N) k c : Prop :=
  fst (stream c) = k /\ snd (stream c) < n /\ created_at c <= last_used c <= now.

Definition busy_ids (b : list (UpstreamKey * PConn)) : list Id := map (fun kc => stream (snd kc)) b.

(** The idle connections of an upstream: no more than allowed, each once, and
    none of them in use. *)
Record list_ok (cfg : PoolConfig) (now n : N) (ids : list Id) k cs : Prop := {
  lk_size : blen cs <= max_connections_per_host cfg;
  lk_conns : Forall (conn_ok now n k) cs;
  lk_once : NoDup (map stream cs);
  lk_free : Forall (fun c => stream c ∉ ids) cs
}.

Record well_kept (cfg : PoolConfig) (s : Sys) : Prop := {
  wk_config : config (pool s) = cfg;
  wk_idle : map_Forall (list_ok cfg (clock s) (made s) (busy_ids (busy s))) (idle (pool s));
  wk_busy : Forall (fun kc => conn_ok (clock s) (made s) (fst kc) (snd kc)) (busy s);
  wk_busy_once : NoDup (busy_ids (busy s))
}.

Lemma conn_ok_later now n now' n' k c : now <= now' -> n <= n' -> conn_ok now n k c -> conn_ok now' n' k c.
Proof. unfold conn_ok. intros H1 H2 (-> & H3 & H4). split_and!; [done|lia..]. Qed.

Lemma forall_sublist {A} (P : A -> Prop) l l' : l' `sublist_of` l -> Forall P l -> Forall P l'.
Proof. induction 1 as [|x l1 l2 _ IH|x l1 l2 _ IH]; [done|..]; intros [Hx Hl]%Forall_cons_iff; [constructor|]; auto. Qed.

(** Some of the connections, in their order. *)
Lemma list_ok_part cfg now n ids k cs cs' :
  cs' `sublist_of` cs -> list_ok cfg now n ids k cs -> list_ok cfg now n ids k cs'.
Proof.
  intros Hs [H1 H2 H3 H4]. split.
  - pose proof (sublist_length _ _ Hs). unfold blen in *. lia.
  - by eapply forall_sublist.
  - eapply sublist_NoDup; [exact H3|]. by apply (fmap_sublist stream).
  - by eapply forall_sublist.
Qed.

Lemma list_ok_weaken cfg now n ids now' n' ids' k cs :
  now <= now' -> n <= n' -> (forall c, c ∈ cs -> stream c ∈ ids' -> stream c ∈ ids) ->
  list_ok cfg now n ids k cs -> list_ok cfg now' n' ids' k cs.
Proof.
  intros H1 H2 Hids [L1 L2 L3 L4]. split; [done| |done|].
  - eapply Forall_impl; [|exact L2]. intros c. by apply conn_ok_later.
  - rewrite list.Forall_forall in *. intros c Hc Hin. by apply (L4 c Hc), Hids.
Qed.

Lemma list_ok_nil cfg now n ids k : list_ok cfg now n ids k [].
Proof. split; [apply N.le_0_l|constructor..]. Qed.

Lemma conn_ok_key now n k k' c : conn_ok now n k c -> conn_ok now n k' c -> k = k'.
Proof. by intros (<- & _) (<- & _). Qed.

(** One more connection, if there is room for it. *)
Lemma list_ok_snoc cfg now n ids k cs c :
  list_ok cfg now n ids k cs -> conn_ok now n k c -> stream c ∉ ids -> stream c ∉ map stream cs ->
  blen cs < max_connections_per_host cfg -> list_ok cfg now n ids k (cs ++ [c]).
Proof.
  intros [L1 L2 L3 L4] Hc Hf Hn Hlt. split.
  - rewrite blen_app, blen_cons, blen_nil. lia.
  - by apply Forall_app; split; [|constructor].
  - rewrite map_app. apply list.NoDup_app. split_and!; [done| |apply list.NoDup_singleton].
    intros x Hx Hx2%list_elem_of_singleton. by subst.
  - by apply Forall_app; split; [|constructor].
Qed.

(** ** The operations *)

Lemma busy_once_cons cfg now n b k c cs older newer :
  list_ok cfg now n (busy_ids b) k cs -> cs = older ++ c :: newer -> NoDup (busy_ids b) ->
  NoDup (stream c :: busy_ids b) /\ Forall (fun c' => stream c' <> stream c) older.
Proof.
  intros [_ _ L3 L4] -> Hb. apply Forall_app in L4 as [_ [Hc _]%Forall_cons_iff].
  rewrite map_app in L3. apply list.NoDup_app in L3 as (_ & L3 & _). split; [by constructor|].
  apply list.Forall_forall. intros c' Hc' He. apply (L3 (stream c')); [by apply list.list_elem_of_fmap_2|].
  rewrite He. by left.
Qed.

Lemma hit_keeps cfg s k p' conn :
  well_kept cfg s -> try_acquire (clock s) k (pool s) = (p', Some conn) ->
  well_kept cfg {| pool := p'; busy := (k, conn) :: busy s; clock := clock s; made := made s |}.
Proof.
  intros [W1 W2 W3 W4] (older & c & newer & Hk & -> & _ & _ & ->)%try_acquire_hit.
  pose proof (W2 _ _ Hk) as Hl. pose proof (lk_conns _ _ _ _ _ _ Hl) as Hc.
  apply Forall_app in Hc as [Ho [(Hc1 & Hc2 & Hc3) _]%Forall_cons_iff].
  destruct (busy_once_cons _ _ _ _ _ _ _ _ _ Hl eq_refl W4) as [Hn Hold].
  split; cbn [pool busy clock made set_idle idle config busy_ids map fst snd touch stream]; [done| | |exact Hn].
  - intros k' cs'. intros Hk'. destruct (decide (k' = k)) as [->|Hne].
    + rewrite lookup_insert_eq in Hk'. injection Hk' as <-.
      apply (list_ok_part _ _ _ _ _ _ older) in Hl; [|by apply sublist_inserts_r].
      destruct Hl as [L1 L2 L3 L4]. split; [done..|]. rewrite list.Forall_forall in *. intros c' Hc' [He|Hin]%elem_of_cons;
        [by apply (Hold c' Hc') | by apply (L4 c' Hc')].
    + rewrite lookup_insert_ne in Hk' by done. pose proof (W2 _ _ Hk') as Hl'.
      eapply list_ok_weaken; [done|done| |exact Hl']. intros c' Hc' [He|Hin]%elem_of_cons; [|done]. exfalso.
      pose proof (lk_conns _ _ _ _ _ _ Hl') as Hall. rewrite list.Forall_forall in Hall. destruct (Hall c' Hc') as (Hk2 & _).
      apply Hne. rewrite <- Hk2, He. exact Hc1.
  - constructor; [|done]. cbn. split_and!; [done|done|cbn; lia|cbn; lia].
Qed.

Lemma part_keeps cfg s m :
  well_kept cfg s ->
  (forall k cs, m !! k = Some cs -> exists cs0, idle (pool s) !! k = Some cs0 /\ cs `sublist_of` cs0) ->
  well_kept cfg {| pool := set_idle m (pool s); busy := busy s; clock := clock s; made := made s |}.
Proof.
  intros [W1 W2 W3 W4] Hm. split; [done| |done|done]. intros k cs Hk. destruct (Hm k cs Hk) as (cs0 & Hk0 & Hs).
  eapply list_ok_part; [exact Hs|]. by apply W2.
Qed.

Lemma same_pool (p : ConnectionPool Id) : p = set_idle (idle p) p.
Proof. by destruct p. Qed.

Lemma miss_keeps cfg s k p' :
  well_kept cfg s -> try_acquire (clock s) k (pool s) = (p', None) ->
  well_kept cfg {| pool := p'; busy := busy s; clock := clock s; made := made s |}.
Proof.
  intros Hw Ha%try_acquire_miss. destruct (idle (pool s) !! k) as [cs|] eqn:Hk; [destruct Ha as [_ ->]|subst p'].
  - apply part_keeps; [done|]. intros k' cs'. destruct (decide (k' = k)) as [->|Hne].
    + rewrite lookup_insert_eq. intros [= <-]. exists cs. split; [done | apply sublist_nil_l].
    + rewrite lookup_insert_ne by done. by exists cs'.
  - rewrite (same_pool (pool s)). apply part_keeps; [done|]. intros k' cs'. by exists cs'.
Qed.

Lemma cleanup_keeps cfg s :
  well_kept cfg s ->
  well_kept cfg {| pool := cleanup_expired (clock s) (pool s); busy := busy s; clock := clock s; made := made s |}.
Proof.
  intros Hw. unfold cleanup_expired. apply part_keeps; [done|]. intros k cs [Hk _]%map_lookup_filter_Some.
  rewrite lookup_fmap in Hk. destruct (idle (pool s) !! k) as [cs0|]; [|done]. injection Hk as <-. exists cs0. split; [done|].
  induction cs0 as [|c cs0 IH]; [constructor|]. cbn. by destruct (is_valid _ _ _); constructor.
Qed.

Lemma tick_keeps cfg s d :
  well_kept cfg s -> well_kept cfg {| pool := pool s; busy := busy s; clock := clock s + d; made := made s |}.
Proof.
  intros [W1 W2 W3 W4]. split; cbn; [done| | |done].
  - intros k cs Hk. eapply list_ok_weaken; [| | |by apply W2]; [lia|lia|done].
  - eapply Forall_impl; [|exact W3]. intros kc. apply conn_ok_later; lia.
Qed.

Lemma connect_keeps cfg s k :
  well_kept cfg s ->
  well_kept cfg {| pool := pool s; busy := (k, connection_new (clock s) (k, made s)) :: busy s;
                   clock := clock s; made := made s + 1 |}.
Proof.
  intros [W1 W2 W3 W4].
  assert (Hnew : forall k' c, conn_ok (clock s) (made s) k' c -> stream c <> (k, made s)).
  { intros k' c (_ & Hn & _) He. rewrite He in Hn. cbn in Hn. lia. }
  split; cbn [pool busy clock made busy_ids map snd connection_new stream]; [done| | |].
  - intros k' cs Hk. pose proof (W2 _ _ Hk) as Hl. eapply list_ok_weaken; [| | |exact Hl]; [lia|lia|].
    intros c Hc [He|Hin]%elem_of_cons; [|done]. pose proof (lk_conns _ _ _ _ _ _ Hl) as Hall.
    rewrite list.Forall_forall in Hall. by destruct (Hnew _ _ (Hall c Hc)).
  - constructor; [split_and!; cbn; [done|lia..]|]. eapply Forall_impl; [|exact W3]. intros kc. apply conn_ok_later; lia.
  - constructor; [|done]. intros ([k' c] & He & Hin)%list.list_elem_of_fmap_1. rewrite list.Forall_forall in W3.
    destruct (Hnew _ _ (W3 _ Hin)). by symmetry.
Qed.

(** A connection that is no longer in use. *)
Lemma unbusy cfg s l1 k conn l2 :
  well_kept cfg s -> busy s = l1 ++ (k, conn) :: l2 ->
  well_kept cfg {| pool := pool s; busy := l1 ++ l2; clock := clock s; made := made s |} /\
  conn_ok (clock s) (made s) k conn /\ (stream conn ∉ busy_ids (l1 ++ l2)) /\
  forall k' cs, idle (pool s) !! k' = Some cs -> stream conn ∉ map stream cs.
Proof.
  intros [W1 W2 W3 W4] Hb. rewrite Hb in *.
  assert (Hids : Permutation (busy_ids (l1 ++ (k, conn) :: l2)) (stream conn :: busy_ids (l1 ++ l2))).
  { unfold busy_ids. by rewrite <- Permutation_middle. }
  apply Forall_app in W3 as [W31 [Hc W32]%Forall_cons_iff]. rewrite Hids in W4. apply list.NoDup_cons in W4 as [Hn W4].
  split_and!; [split; cbn; [done| |by apply Forall_app|done] | done | done |].
  - intros k' cs Hk. eapply list_ok_weaken; [done|done| |by apply W2]. intros c _ Hin. rewrite Hids. by right.
  - intros k' cs Hk Hin. apply list.list_elem_of_fmap_1 in Hin as (c & He & Hin).
    pose proof (lk_free _ _ _ _ _ _ (W2 _ _ Hk)) as Hf. rewrite list.Forall_forall in Hf. apply (Hf c Hin).
    rewrite <- He, Hids. by left.
Qed.

Lemma finish_keeps cfg s l1 k conn l2 used r :
  well_kept cfg s -> busy s = l1 ++ (k, conn) :: l2 -> last_used conn <= used <= clock s ->
  well_kept cfg {| pool := give_back used (clock s) k conn r (pool s); busy := l1 ++ l2; clock := clock s; made := made s |}.
Proof.
  intros Hw Hb Hu. destruct (unbusy _ _ _ _ _ _ Hw Hb) as ([W1 W2 W3 W4] & (Hc1 & Hc2 & Hc3) & Hfree & Hidle).
  cbn [pool busy clock made] in *. unfold give_back. destruct (should_reuse r); [|done].
  unfold release. destruct (is_valid _ _ _); cbn [negb]; [|done].
  set (cs := default [] (idle (pool s) !! k)).
  assert (Hcs : list_ok cfg (clock s) (made s) (busy_ids (l1 ++ l2)) k cs).
  { unfold cs. destruct (idle (pool s) !! k) as [cs0|] eqn:Hk; [by apply W2 | apply list_ok_nil]. }
  assert (Hins : forall cs', list_ok cfg (clock s) (made s) (busy_ids (l1 ++ l2)) k cs' ->
    well_kept cfg {| pool := set_idle (<[k := cs']> (idle (pool s))) (pool s); busy := l1 ++ l2; clock := clock s; made := made s |}).
  { intros cs' Hcs'. split; [done| |done|done]. by apply map_Forall_insert_2. }
  destruct (max_connections_per_host (config (pool s)) <=? blen cs) eqn:Hmax; [by apply Hins|].
  apply Hins, list_ok_snoc; [done| |done| |apply N.leb_gt in Hmax; by rewrite <- W1].
  - split_and!; [done|done|cbn; lia|cbn; lia].
  - cbn. unfold cs. destruct (idle (pool s) !! k) as [cs0|] eqn:Hk; [by apply (Hidle k) | apply not_elem_of_nil].
Qed.

Lemma step_keeps cfg s s' : well_kept cfg s -> step s s' -> well_kept cfg s'.
Proof.
  intros Hw Hs. destruct Hs; [by eapply hit_keeps | by eapply miss_keeps | by apply connect_keeps
    | by eapply finish_keeps | by apply cleanup_keeps | by apply tick_keeps].
Qed.

Lemma reachable_kept cfg s : reachable cfg s -> well_kept cfg s.
Proof.
  induction 1 as [now|s s' _ IH Hs]; [|by eapply step_keeps]. split; cbn; [done|apply map_Forall_empty|constructor..].
Qed.

(** [stats] counts no more than the upstreams have room for. *)
Lemma stats_bound (p : ConnectionPool Id) m :
  map_Forall (fun _ cs => blen cs <= m) (idle p) -> snd (stats p) <= fst (stats p) * m.
Proof.
  unfold stats. cbn [fst snd]. intros Hm. revert Hm. generalize (idle p) as i. intros i.
  apply (map_fold_weak_ind (fun n (i : gmap UpstreamKey (list PConn)) =>
    map_Forall (fun _ cs => blen cs <= m) i -> n <= N.of_nat (size i) * m)); [intros _; by apply N.le_0_l|].
  intros k cs i' n Hk IH Hm. rewrite map_size_insert_None by done. apply map_Forall_insert in Hm as [Hc Hm]; [|done].
  specialize (IH Hm). rewrite Nat2N.inj_succ, N.mul_succ_l, N.add_comm. by apply N.add_le_mono.
Qed.

(** C21: The connection pool of the reverse proxy, whatever its operations and
    the order and the times at which the tasks come to them: an upstream has at
    most [max_connections_per_host] idle connections, each of them was made for
    that upstream (scheme, host and port), is idle there once and not in use at
    the same time, and its times are in order and not in the future.  A
    connection that [try_acquire] hands out was idle for the upstream asked
    for, is within its idle time and its lifetime, and is from then on neither
    idle anywhere nor handed to anyone else; after [cleanup_expired] every idle
    connection is valid and no upstream without one is kept. *)
Theorem pool_invariant cfg s :
  reachable cfg s ->
  well_kept cfg s /\
  snd (stats (pool s)) <= fst (stats (pool s)) * max_connections_per_host cfg /\
  (forall k p' conn, try_acquire (clock s) k (pool s) = (p', Some conn) ->
     fst (stream conn) = k /\ (stream conn ∉ busy_ids (busy s)) /\
     (exists cs c, idle (pool s) !! k = Some cs /\ c ∈ cs /\ conn = touch (clock s) c /\ is_valid cfg (clock s) c = true) /\
     forall k' cs', idle p' !! k' = Some cs' -> stream conn ∉ map stream cs') /\
  (forall k cs, idle (cleanup_expired (clock s) (pool s)) !! k = Some cs ->
     cs <> [] /\ Forall (fun c => is_valid cfg (clock s) c = true) cs).
Proof.
  intros Hr. pose proof (reachable_kept _ _ Hr) as Hw. pose proof Hw as [W1 W2 W3 W4]. split_and!; [done| | |].
  - apply stats_bound. intros k cs Hk. by apply (lk_size _ _ _ _ _ _ (W2 _ _ Hk)).
  - intros k p' conn Ha. pose proof (hit_keeps _ _ _ _ _ Hw Ha) as [_ V2 V3 V4]. cbn [pool busy clock made busy_ids map snd fst] in *.
    apply Forall_cons_iff in V3 as [(Hk & _) _]. apply list.NoDup_cons in V4 as [Hn _]. split_and!; [done|done| |].
    + apply try_acquire_hit in Ha as (older & c & newer & Hi & -> & Hv & _). rewrite W1 in Hv.
      exists (older ++ c :: newer), c. split_and!; [done| |done|done]. apply elem_of_app. right. by left.
    + intros k' cs' Hk' Hin. apply list.list_elem_of_fmap_1 in Hin as (c & He & Hin).
      pose proof (lk_free _ _ _ _ _ _ (V2 _ _ Hk')) as Hf. rewrite list.Forall_forall in Hf. apply (Hf c Hin). rewrite <- He. by left.
  - intros k cs [Hk Hne]%map_lookup_filter_Some. split; [done|]. rewrite lookup_fmap in Hk.
    destruct (idle (pool s) !! k) as [cs0|]; [|done]. injection Hk as <-. rewrite W1.
    apply list.Forall_forall. intros c Hc%list_elem_of_In%List.filter_In. apply Hc.
Qed.

(** ** A run *)

Definition small : PoolConfig := {| max_connections_per_host := 1; idle_timeout_secs := 60; max_lifetime_secs := 300 |}.
Definition origin : UpstreamKey := (Http, B "up", 80).
Definition second : N := from_secs 1.

(** Two connections are used and given back; there is room for one. *)
Definition after_two : Sys :=
  {| pool := {| idle := <[origin := [{| stream := (origin, 0); created_at := 0; last_used := second |}]]> ∅; config := small |};
     busy := []; clock := second; made := 2 |}.

Lemma after_two_reachable : reachable small after_two.
Proof.
  set (c0 := connection_new 0 (origin, 0)). set (c1 := connection_new 0 (origin, 1)).
  set (s1 := {| pool := pool_new small; busy := [(origin, c1); (origin, c0)]; clock := second; made := 2 |}).
  assert (H : reachable small s1).
  { exact (Stepped _ _ _ (Stepped _ _ _ (Stepped _ _ _ (Started small 0) (Connect _ origin)) (Connect _ origin)) (Tick _ second)). }
  apply (fun H => Stepped _ _ _ H (Finish s1 [(origin, c1)] origin c0 [] second (Ok true) eq_refl
    (conj (N.le_0_l second) (N.le_refl second)))) in H.
  set (s2 := {| pool := give_back _ _ _ _ _ _; busy := _; clock := _; made := _ |}) in H.
  apply (fun H => Stepped _ _ _ H (Finish s2 [] origin c1 [] second (Ok true) eq_refl
    (conj (N.le_0_l second) (N.le_refl second)))) in H.
  exact H.
Defined.

Lemma pool_invariant_witness :
  well_kept small after_two /\
  exists p', try_acquire second origin (pool after_two) = (p', Some {| stream := (origin, 0); created_at := 0; last_used := second |}) /\
    fst (stats p') = 1 /\ snd (stats p') = 0 /\
    forall k' cs', idle p' !! k' = Some cs' -> (origin, 0) ∉ map stream cs'.
Proof.
  destruct (pool_invariant small after_two after_two_reachable) as (H1 & _ & H3 & _). split; [exact H1|].
  destruct (try_acquire second origin (pool after_two)) as [p' o] eqn:E.
  assert (Hc : (fun x => (snd x, stats (fst x))) (try_acquire second origin (pool after_two)) =
    (Some {| stream := (origin, 0); created_at := 0; last_used := second |}, (1, 0))) by (vm_compute; reflexivity).
  rewrite E in Hc. cbv beta in Hc. apply pair_equal_spec in Hc as [Ho Hs]. cbn [fst snd] in Ho, Hs. subst o.
  exists p'. rewrite Hs. split; [reflexivity|]. split; [reflexivity|]. split; [reflexivity|].
  destruct (H3 origin p' _ E) as (_ & _ & _ & H). exact H.
Defined.
End ProxyPool.
