(* ===== verification/ProxyRequest.v ===== *)
(** * What the reverse proxy sends to its upstream

    The proxy collects a request with the streaming interface.  It is the
    request that [decode] returns for the same bytes, without the fields that
    belong to the connection.  Where a
    write fails, what was written before is a prefix of that. *)
From S2P Require Import Prelude RustStd Errors Validate Head Message Buffer BodyDecoder BodyFacts Compression.
From S2P Require Import DecoderCore CoreFacts CoreApi HeadFacts RequestDecoder RequestFacts RequestTheorems.
From S2P Require Import Host Target Trailer Framing FramingFacts Limits Encoder EncoderFacts HeadRoundTrip LengthRoundTrip RequestRoundTrip Forward.
From S2P Require Import RustStr Io Streaming ReverseProxy.

Module ProxyRequest.
Import Proxy.

Abbreviation core_of_client s := (rq_core (cl_decoder s)).

(** Up to the section on failing writes no write fails. *)
#[local] Existing Instance calm.

Lemma client_read_spec s :
  limits_ok (c_limits (core_of_client s)) -> quiet (core_of_client s) ->
  match client_read s with
  | (s', Ok n) => exists y, cl_decoder s' = rq_extend y (cl_decoder s) /\ cl_body s' = cl_body s /\
      n = blen y /\ quiet (core_of_client s') /\ to_come (cl_socket s) = y ++ to_come (cl_socket s') /\
      written (cl_socket s') = written (cl_socket s) /\
      (n <> 0 -> (inbox_size (cl_socket s') < inbox_size (cl_socket s))%nat)
  | (_, Err e) => orderly (Err (A := unit) e)
  end.
Proof.
  intros Hl Hq. unfold client_read. destruct (wanted CLIENT_CHUNK (cl_decoder s) =? 0) eqn:Hw; [done|].
  set (want := wanted CLIENT_CHUNK (cl_decoder s)) in *. unfold on_part, mbind, st_bind.
  assert (Hle : want <= core_available_buf (core_of_client s)) by (apply N.le_min_l).
  pose proof (receive_extends read want (cl_decoder s) (cl_socket s) Hl (proj1 Hq) Hle (proj2 Hq)) as Hr.
  assert (Hb : forall s1 data, read want (cl_socket s) = (s1, Got data) -> blen data <= want)
    by (intros s1 data; apply read_bound).
  destruct (read want (cl_socket s)) as [s1 o] eqn:Hrd. rewrite Hr by (intros d s2 E; by apply (Hb s2)). cbn [boxed].
  destruct o as [y| |]; [|done..]. cbn. exists y. split_and!; try done.
  - change (quiet (core_extend y (core_of_client s))). apply quiet_extend; [done|].
    specialize (Hb s1 y eq_refl). cbn. lia.
  - by apply read_to_come in Hrd.
  - by apply read_written in Hrd as [? _].
  - intros Hn. eapply read_size; [|exact Hrd|by intros ->]. lia.
Qed.

(** ** The head *)

Lemma request_resumable :
  resumable rq_core_decode_headers core_extend (loop_inv (D := NoCompression) request_line_ok).
Proof.
  split.
  - intros y z c. unfold core_extend. cs. by rewrite app_assoc.
  - intros c. unfold core_extend. rewrite app_nil_r. by destruct c.
  - intros y c. apply loop_inv_core_extend.
  - intros y c c' Hi Hd. pose proof (decode_headers_post c Hi) as Hp. pose proof (decode_headers_ext y c c' _ Hi Hd) as He.
    rewrite Hd in Hp. by split; [apply Hp|].
Qed.

(** The decoder before the body; nothing was collected or written yet. *)
Definition reading (out : bytes) (c : Core NoCompression) (s : ClientSide) : Prop :=
  c = core_of_client s /\ quiet c /\ cl_body s = [] /\ written (cl_socket s) = out.

Lemma request_head_pump out :
  head_pump rq_core_decode_headers core_extend (loop_inv request_line_ok) (reading out) request_head_round id
    (fun s => inbox_size (cl_socket s)) (fun s => to_come (cl_socket s)).
Proof.
  intros c s (-> & Hq & Hb & Hw) Hi. unfold request_head_round, mbind, st_bind.
  pose proof (client_read_spec s (inv_limits _ _ (proj1 Hi)) Hq) as Hr.
  destruct (client_read s) as [s1 [n|e]]; [|done]. destruct Hr as (y & Hd & Hb1 & Hn & Hq1 & Ha & Hw1 & Hlt).
  destruct (n =? 0) eqn:Hz.
  { apply N.eqb_eq in Hz. rewrite Hz in Hn. destruct y; [|unfold blen in Hn; cbn in Hn; lia]. done. }
  unfold on_request, on_part, rq_decode_headers, on_core. rewrite Hd. cbn [core_of put_core rq_core_of rq_extend rq_core].
  apply (loop_inv_core_extend y) in Hi as Hiy.
  pose proof (decode_headers_post _ Hiy) as Hp. destruct (rq_core_decode_headers _) as [c' [[x|]|e]] eqn:Hdec;
    destruct Hp as (_ & Ho & Hle & Hs & _); cbn [boxed].
  1,2: assert (Hq2 : quiet c') by (eapply quiet_kept; [|exact Hs|exact Hle]; by rewrite Hd in Hq1).
  - exists y, c'. split_and!; [done| |done]. by split_and!; cbn; rewrite ?Hb1, ?Hw1.
  - exists y, c'. split_and!; [done| |apply Hlt; lia|done]. by split_and!; cbn; rewrite ?Hb1, ?Hw1.
  - by destruct e.
Qed.

(** ** The body *)

(** [decode] has the collected body and the kind of the body in its state. *)
Definition collecting (k : BodyKind) (out : bytes) (c : Core NoCompression) (s : ClientSide) : Prop :=
  c = dressed (cl_body s) (Some k) (core_of_client s) /\ quiet c /\ written (cl_socket s) = out.

Lemma request_body_round_eq s :
  request_body_round s =
    let '(taken, (c', r)) := stream_step (core_of_client s) in
    ({| cl_decoder := with_core c' (cl_decoder s); cl_socket := cl_socket s; cl_body := cl_body s ++ default [] taken |},
     boxed Decoding (stream_result taken r)).
Proof.
  unfold request_body_round, stream_step, rq_peek_body. destruct (core_peek_body _) as [data|].
  - unfold mbind, st_bind, modify, on_request, on_part, rq_consume_body, on_core, with_client. cbn.
    by destruct (core_consume_body _ _) as [c' [[| |ts]|[]]].
  - unfold mbind, st_bind, on_request, on_part, rq_progress, on_core, with_client. cbn.
    rewrite app_nil_r. by destruct (core_progress _) as [c' [[| |ts]|[]]].
Qed.

Lemma client_pump k out :
  pump request_line_ok Decoding (collecting k out) (collecting k out) request_body_round
    (n ← client_read; if n =? 0 then throw (Text (B "client disconnected during request body")) else mret tt)
    (fun s => length (rq_remaining (cl_decoder s)))
    (fun s => inbox_size (cl_socket s)) (fun s => to_come (cl_socket s)).
Proof.
  split.
  - by intros c s (-> & _).
  - intros c s (-> & Hq & Hw) Hi. rewrite request_body_round_eq.
    pose proof (body_round_stream _ _ Hi) as Hb. rewrite stream_step_dressed in Hb.
    destruct (stream_step (core_of_client s)) as [taken [c' r]].
    pose proof (quiet_round _ _ _ _ Hi Hq Hb) as Hq'. rewrite Hb. split; [done|].
    by destruct (stream_result taken r) as [[|[]]|e].
  - intros c s (-> & Hq & Hw) Hi. unfold mbind, st_bind.
    pose proof (client_read_spec s (inv_limits _ _ (proj1 Hi)) Hq) as Hr.
    destruct (client_read s) as [s1 [n|e]]; [|done]. destruct Hr as (y & Hd & Hb1 & Hn & Hq1 & Ha & Hw1 & Hlt).
    destruct (n =? 0) eqn:Hz; [done|]. cbn. exists y. split_and!; [|apply Hlt; lia|done].
    split_and!; [by rewrite Hb1, Hd| |by rewrite Hw1]. by rewrite Hd in Hq1.
  - intros c s c' r (-> & _) Hb. rewrite request_body_round_eq. by destruct (stream_step _) as [taken [c1 r1]].
Qed.

Lemma request_body_decodes k out c s :
  R_inv request_line_ok (collecting k out) c s ->
  match request_body_loop s with
  | (s', Ok _) => exists y c', body_loop (core_extend y c) = (c', Ok true) /\
      collecting k out c' s' /\ to_come (cl_socket s) = y ++ to_come (cl_socket s')
  | (_, Err e) => orderly (Err (A := unit) e)
  end.
Proof.
  intros HR. pose proof (pump_decodes _ _ _ _ _ _ _ _ _ (client_pump k out) c s _ HR (Nat.lt_succ_diag_r _)) as Hp.
  unfold request_body_loop. rewrite (loop_same request_read_round (pump_read_round request_body_round
    (n ← client_read; if n =? 0 then throw (Text (B "client disconnected during request body")) else mret tt)
    (fun s => length (rq_remaining (cl_decoder s))))).
  - destruct (loop _ _ s) as [s' [[]|e]]; [|done]. destruct Hp as (y & c' & Hb & HR' & _ & Ha). by exists y, c'.
  - intros t. unfold request_read_round, pump_read_round, pump_inner, mbind, st_bind.
    destruct (loop _ request_body_round t) as [t1 [[]|e]]; try done. destruct (client_read t1) as [t2 [n|e]]; [|done].
    by destruct (n =? 0).
Qed.

(** ** The request *)

(** A head, and [decode] on the bytes that hold the body as well. *)
Lemma decode_after_head {D} `{Decompressor D} (d : RequestDecoder D) data h k c1 :
  rq_inv d -> rq_decoded_head d = None -> c_phase (rq_core d) = StartLine -> c_decoded_body (rq_core d) = [] ->
  rq_core_decode_headers (rq_core d) = (c1, Ok (Some (h, k))) ->
  rq_decode (rq_extend data d) =
    let d1 := {| rq_core := core_extend data (dressed [] (Some k) c1); rq_decoded_head := Some h |} in
    match rq_decode_body k (rq_core d1) with
    | (c, Err e) => (with_core c d1, Err e)
    | (c, Ok false) => (with_core c d1, Ok None)
    | (c, Ok true) => (message_done k (with_core c d1), Ok (Some (message h k c)))
    end.
Proof.
  intros Hi Hh Hs Hb0 Hd. pose proof (decode_headers_ext data _ _ _ (ri_core _ Hi) Hd) as He.
  pose proof (decode_headers_post _ (ri_core _ Hi)) as Hp. rewrite Hd in Hp.
  destruct Hp as (_ & _ & _ & (_ & _ & Hb & _) & _).
  rewrite rq_decode_eq by (by apply rq_extend_inv). rewrite decode_head_eq. cbn [rq_extend rq_decoded_head rq_core].
  rewrite Hh. cs. rewrite Hs. change (set_buf (c_buf (rq_core d) ++ data) (rq_core d)) with (core_extend data (rq_core d)).
  rewrite He. cbn [rq_decoded_head rq_core]. cs.
  assert (Hc : set_decoded_body_kind (Some k) (core_extend data c1) = core_extend data (dressed [] (Some k) c1)).
  { unfold dressed. cs. rewrite Hb0 in Hb. rewrite <- Hb. by destruct c1. }
  by rewrite Hc.
Qed.

(** The request without the fields of the connection, in the proxy's name. *)
Definition proxied (upstream_host_header : str) (m : Request.t) : Request.t :=
  Request.from_raw_parts (Request.method m) (Request.uri m) (B "HTTP/1.1")
    (List.filter (fun h => negb (skip_request_header (connection_headers (Request.headers m)) (fst h))) (Request.headers m)
       ++ [(B "Host", upstream_host_header); (B "Connection", B "keep-alive")])
    (Request.body m).

Lemma copy_request_headers skip hs r :
  forallb header_ok hs = true ->
  copy_headers Request.add_header skip hs r =
    Ok (Request.with_headers (Request.headers r ++ List.filter (fun h => negb (skip (fst h))) hs) r).
Proof.
  revert r. induction hs as [|[n v] hs IH]; intros r; cbn [copy_headers List.filter fst forallb].
  - intros _. rewrite app_nil_r. by destruct r.
  - intros [Hh Hhs]%andb_true_iff. destruct (skip n); cbn [negb]; [by apply IH|].
    unfold Request.add_header. rewrite (header_ok_checked n v Hh). cbn [mbind result_bind]. rewrite IH by done. cbn.
    by rewrite <- app_assoc.
Qed.

Lemma upstream_request_proxied limits h k c uh :
  head_known limits h k -> k <> KTunnel -> is_valid_field_value uh = true ->
  upstream_request h k (c_decoded_body c) uh = Ok (proxied uh (message (D := NoCompression) h k c)).
Proof.
  intros Hk Hn Hu. destruct (head_known_valid _ _ _ Hk) as [Hv Ha].
  unfold upstream_request, Request.new, RequestHead.valid in *. rewrite !andb_true_iff in Hv. destruct Hv as [[[-> ->] _] Hh].
  rewrite Ha. cbn [negb mbind result_bind]. rewrite copy_request_headers by done. cbn [mbind result_bind].
  unfold Request.add_header. rewrite (header_ok_checked (B "Host") uh) by (unfold header_ok; cbn [fst snd]; by rewrite Hu).
  cbn. rewrite <- !app_assoc. by destruct k.
Qed.

(** ** The whole of a request *)

Definition refusal : bytes :=
  match connect_refusal with Ok r => match encode_response r with Ok b => b | Err _ => [] end | Err _ => [] end.

Lemma client_read_written s : written (cl_socket (fst (client_read s))) = written (cl_socket s).
Proof.
  unfold client_read. destruct (_ =? 0); [done|]. unfold on_part, mbind, st_bind, receive.
  destruct (on_core _ _) as [d1 [[]|e]]; [|by destruct e]. destruct (read _ _) as [s1 o] eqn:Hr.
  apply read_written in Hr as [Hw _]. by destruct o.
Qed.

Lemma head_loop_written out s :
  written (cl_socket s) = out -> written (cl_socket (fst (request_head_loop s))) = out.
Proof.
  unfold request_head_loop. generalize (S (inbox_size (cl_socket s))). intros fuel.
  apply (loop_keeps (fun s => written (cl_socket s) = out)). clear s. intros s <-. unfold request_head_round, mbind, st_bind.
  pose proof (client_read_written s) as Hw. destruct (client_read s) as [s1 [n|e]]; [|done]. cbn [fst] in Hw.
  destruct (n =? 0); [done|]. unfold on_request, on_part. by destruct (rq_decode_headers _) as [d [[x|]|[]]].
Qed.

Lemma refusal_encoded : exists r, connect_refusal = Ok r /\ encode_response r = Ok refusal.
Proof.
  assert (Hok : is_ok (r ← connect_refusal; encode_response r) = true) by (vm_compute; reflexivity).
  unfold refusal. destruct connect_refusal as [r|]; [|done]. exists r. split; [done|]. cbn in Hok.
  by destruct (encode_response r).
Qed.

(** What [handle_client] does before it turns to its upstream. *)
Definition collected (uh : str) (sock : Socket) (o : ClientSide * result (exn BoxedError) (option Request.t)) : Prop :=
  match o with
  | (s', Ok (Some req)) => exists data d' m,
      rq_decode (fresh_decoder data) = (d', Ok (Some m)) /\ req = proxied uh m /\
      to_come sock = data ++ to_come (cl_socket s') /\ written (cl_socket s') = written sock
  | (s', Ok None) => exists data d' r,
      rq_decode_headers (fresh_decoder data) = (d', Ok r) /\ to_come sock = data ++ to_come (cl_socket s') /\
      match r with
      | None => written (cl_socket s') = written sock
      | Some (h, _) => RequestHead.method h = B "CONNECT" /\ written (cl_socket s') = written sock ++ refusal
      end
  | (_, Err e) => orderly (Err (A := unit) e)
  end.

(** The loop that reads the head. *)
Lemma request_head_decodes sock :
  match request_head_loop (client_start sock) with
  | (s', Ok (Some (h, k))) => exists data c,
      rq_core_decode_headers (rq_core (fresh_decoder data)) = (c, Ok (Some (h, k))) /\
      reading (written sock) c s' /\ to_come sock = data ++ to_come (cl_socket s')
  | (s', Ok None) => written (cl_socket s') = written sock /\ exists data c,
      rq_core_decode_headers (rq_core (fresh_decoder data)) = (c, Ok None) /\ to_come sock = data ++ to_come (cl_socket s')
  | (_, Err e) => orderly (Err (A := unit) e)
  end.
Proof.
  pose proof (head_loop_written (written sock) (client_start sock) eq_refl) as Hw.
  assert (Hi0 : rq_inv (rq_new NoCompression_new DecoderLimits_default)) by (apply rq_new_inv, limits_ok_default).
  assert (Hr : reading (written sock) (rq_core (rq_new NoCompression_new DecoderLimits_default)) (client_start sock))
    by (by split_and!).
  pose proof (head_pump_decodes _ _ _ _ _ _ _ _ _ _ _ request_resumable
    (request_head_pump (written sock)) Hr (ri_core _ Hi0) (Nat.lt_succ_diag_r _)) as Hhead.
  unfold request_head_loop in *. destruct (loop _ _ _) as [s' [[[h k]|]|e]]; [| |done]; cbn [id] in Hhead.
  - destruct Hhead as (data & c & Hd & HR & Ha). by exists data, c.
  - destruct Hhead as (data & Hd & Ha). split; [done|]. exists data.
    destruct Hd as [-> | [c Hd]]; [|by exists c]. by eexists.
Qed.

Lemma fresh_decoder_inv data : rq_inv (fresh_decoder data).
Proof. apply (rq_extend_inv data (fresh_decoder [])), rq_new_inv, limits_ok_default. Qed.

(** A request that was taken with its body. *)
Lemma collected_body uh sock data h k s1 (Hu : is_valid_field_value uh = true) :
  rq_core_decode_headers (rq_core (fresh_decoder data)) = (core_of_client s1, Ok (Some (h, k))) ->
  reading (written sock) (core_of_client s1) s1 -> to_come sock = data ++ to_come (cl_socket s1) ->
  rq_decode_body k = body_loop (D := NoCompression) ->
  collected uh sock ((_ ← request_body_loop;
     body ← gets cl_body;
     r ← lift (map_err Encoding (upstream_request h k body uh));
     mret (Some r)) s1).
Proof.
  intros Hd (_ & Hq & Hb & Hw) Ha Hk. pose proof (fresh_decoder_inv data) as Hi.
  pose proof (decode_headers_post _ (ri_core _ Hi)) as Hp. rewrite Hd in Hp.
  destruct Hp as (Hi1 & _ & _ & _ & Hdec & _). pose proof (hd_known _ _ _ Hdec) as Hkn.
  assert (Hnt : k <> KTunnel).
  { intros ->. apply (f_equal (fun f => f (rq_core (fresh_decoder [])))) in Hk. vm_compute in Hk. done. }
  assert (HR : R_inv request_line_ok (collecting k (written sock)) (dressed [] (Some k) (core_of_client s1)) s1).
  { split; [by split_and!; rewrite ?Hb | by apply dressed_inv]. }
  pose proof (request_body_decodes _ _ _ _ HR) as Hbody. unfold mbind, st_bind.
  destruct (request_body_loop s1) as [s2 [[]|e]]; [|by destruct e].
  destruct Hbody as (y & c' & Hl & (Hc' & _ & Hw2) & Ha2). cbn [gets].
  assert (Hbody : cl_body s2 = c_decoded_body c') by (by rewrite Hc'). rewrite Hbody.
  unfold lift. rewrite (upstream_request_proxied _ _ _ _ _ Hkn Hnt Hu). cbn.
  exists (data ++ y). do 2 eexists. split; [|split_and!; [done| |by rewrite Hw2]].
  - change (fresh_decoder (data ++ y)) with (rq_extend y (fresh_decoder data)).
    rewrite (decode_after_head _ y h k _ Hi eq_refl eq_refl eq_refl Hd). cbv zeta. cbn [rq_core]. by rewrite Hk, Hl.
  - by rewrite Ha, Ha2, app_assoc.
Qed.

Lemma collect_request_spec uh sock :
  is_valid_field_value uh = true -> collected uh sock (collect_request uh (client_start sock)).
Proof.
  intros Hu. unfold collect_request. unfold mbind at 1, st_bind at 1. pose proof (request_head_decodes sock) as Hhead.
  destruct (request_head_loop (client_start sock)) as [s1 [[[h k]|]|e]]; [| |done].
  2: { destruct Hhead as (Hw & data & c & Hd & Ha). exists data. unfold rq_decode_headers, on_core. cbn [core_of rq_core_of].
       rewrite Hd. do 2 eexists. by split_and!. }
  destruct Hhead as (data & c & Hd & HR & Ha). pose proof HR as (-> & Hq & Hb & Hw).
  pose proof (fresh_decoder_inv data) as Hi. pose proof (decode_headers_post _ (ri_core _ Hi)) as Hp. rewrite Hd in Hp.
  destruct Hp as (_ & _ & _ & (_ & _ & Hdb & _) & Hdec & _). pose proof (hd_known _ _ _ Hdec) as Hk.
  destruct k as [n| | | |].
  - by apply (collected_body uh sock data).
  - by apply (collected_body uh sock data).
  - by destruct (hd_kind _ _ _ Hk).
  - unfold mbind, st_bind, gets, lift, mret, st_ret. rewrite Hb.
    change (upstream_request h KNone [] uh) with (upstream_request h KNone (c_decoded_body (core_of_client s1)) uh).
    rewrite (upstream_request_proxied _ _ _ _ _ Hk) by done. cbn [map_err collected].
    exists data. do 2 eexists. split; [|done].
    assert (Hx : fresh_decoder data = rq_extend [] (fresh_decoder data)) by (unfold rq_extend, core_extend; by rewrite app_nil_r).
    rewrite Hx, (decode_after_head _ [] h KNone _ Hi eq_refl eq_refl eq_refl Hd). done.
  - destruct refusal_encoded as (r & Hr & He). unfold lift, mbind, st_bind. rewrite Hr. cbn [map_err]. rewrite He.
    cbn. unfold rq_decode_headers, on_core. cbn [core_of rq_core_of].
    exists data. rewrite Hd. eexists _, _. split; [done|]. split; [done|]. split; [|by rewrite Hw].
    pose proof (hd_framing _ _ _ Hk) as Hf. destruct (RequestHead.method h =s _) eqn:E; [by apply beqs_eq|].
    by apply request_framing_iff in Hf.
Qed.

(** ** The upstream receives it *)

(** A Host field that can be sent. *)
Definition good_host (uh : str) : Prop :=
  sendable (B "Host", uh) = true /\ (uh = [] \/ is_ok (Host_parse uh) = true).

Section Proxied.
Context (uh : str) (m : Request.t).

Abbreviation kept_headers :=
  (List.filter (fun h => negb (skip_request_header (connection_headers (Request.headers m)) (fst h))) (Request.headers m)).

Lemma kept_none name :
  (forall n, eq_ignore_ascii_case n name = true -> skip_request_header (connection_headers (Request.headers m)) n = true) ->
  List.filter (named name) kept_headers = [].
Proof.
  generalize (connection_headers (Request.headers m)). intros conns Hs.
  induction (Request.headers m) as [|h hs IH]; [done|]. cbn [List.filter].
  destruct (skip_request_header conns (fst h)) eqn:E; cbn [negb]; [done|]. cbn [List.filter].
  unfold named at 1. destruct (eq_ignore_ascii_case (fst h) name) eqn:En; [|done]. by rewrite (Hs _ En) in E.
Qed.

Lemma kept_no_host : List.filter (named (B "Host")) kept_headers = [].
Proof. apply kept_none. intros n Hn. unfold skip_request_header. change (eq_ignore_ascii_case n (B "host")) with (eq_ignore_ascii_case n (B "Host")). by rewrite Hn. Qed.

Lemma kept_no_length : List.filter (named (B "Content-Length")) kept_headers = [].
Proof.
  apply kept_none. intros n Hn. unfold skip_request_header.
  change (eq_ignore_ascii_case n (B "content-length")) with (eq_ignore_ascii_case n (B "Content-Length")). rewrite Hn.
  by rewrite orb_true_r.
Qed.

Lemma kept_no_coding : List.filter (named (B "Transfer-Encoding")) kept_headers = [].
Proof.
  apply kept_none. intros n Hn%beqs_eq. unfold skip_request_header, is_hop_by_hop_header. rewrite Hn.
  change (existsb _ HOP_BY_HOP_HEADERS) with true. by rewrite orb_true_r.
Qed.

Lemma proxied_headers_sendable :
  forallb sendable (Request.headers m) = true -> good_host uh -> forallb sendable (Request.headers (proxied uh m)) = true.
Proof.
  intros Hs [Hh _]. cbn [proxied Request.from_raw_parts Request.headers]. rewrite forallb_app, andb_true_iff. split.
  - rewrite forallb_forall in *. intros h [Hin _]%List.filter_In. by apply Hs.
  - cbn [forallb]. by rewrite Hh.
Qed.

Lemma proxied_no_coding : has_header (B "Transfer-Encoding") (proxied uh m) = false.
Proof.
  unfold has_header. cbn [headers Request_head proxied Request.from_raw_parts Request.headers].
  by rewrite existsb_app, (proj2 (existsb_filter_nil _ _) kept_no_coding).
Qed.

Lemma proxied_no_length : cl_values (Request.headers (proxied uh m)) = [].
Proof. unfold cl_values. cbn [proxied Request.from_raw_parts Request.headers]. by rewrite List.filter_app, kept_no_length. Qed.

(** Without its body it is a request that a decoder could have handed out. *)
Lemma proxied_received limits :
  received limits m -> good_host uh -> received limits (Request.clear_body (proxied uh m)).
Proof.
  intros [(l & [_ P1 P2 P3 P4 P5]) Hc Hs _ _] Hu. split.
  - eexists. by split; [reflexivity|..].
  - done.
  - by apply proxied_headers_sendable.
  - unfold check_host. cbn [proxied Request.clear_body Request.with_body Request.from_raw_parts Request.headers Request.version].
    rewrite beqs_refl, List.filter_app, kept_no_host.
    change (List.filter (named (B "Host")) [(B "Host", uh); (B "Connection", B "keep-alive")]) with [(B "Host", uh)].
    cbn [app]. destruct Hu as [_ [-> | Hp]]; [done|].
    unfold is_err. rewrite Hp. by rewrite andb_false_r.
  - unfold body_framed. cbn [Request.clear_body Request.with_body Request.body]. apply request_framing_iff.
    split; [apply te_tokens_absent, proxied_no_coding | apply proxied_no_length].
Qed.

Lemma no_lengths_checked hs : cl_values hs = [] -> validate_content_length_headers hs = Ok None.
Proof.
  unfold validate_content_length_headers. generalize (@None N). induction hs as [|h hs IH]; intros acc; [done|].
  unfold cl_values. cbn [List.filter foldM]. destruct (named (B "Content-Length") h) eqn:E; [done|]. intros Hn.
  assert (content_length_step acc h = Ok acc) as -> by (unfold content_length_step; by rewrite E). by apply IH.
Qed.

Lemma proxied_encodes limits :
  received limits m -> good_host uh -> origin_target (Request.uri m) = true ->
  exists bs, encode_request (proxied uh m) = Ok bs.
Proof.
  intros Hr Hu Ho. unfold encode_request. assert (check_request true (proxied uh m) = Ok tt) as ->; [|by eexists].
  destruct (received_checked limits _ (proxied_received limits Hr Hu) Ho) as (H1 & H2 & H3 & H4).
  unfold check_request. change (validate_request_fields (proxied uh m)) with (validate_request_fields (Request.clear_body (proxied uh m))).
  change (Request.uri (proxied uh m)) with (Request.uri (Request.clear_body (proxied uh m))).
  change (validate_host_header (proxied uh m)) with (validate_host_header (Request.clear_body (proxied uh m))).
  rewrite H1, H2, H3, H4. cbn [mbind result_bind]. rewrite proxied_no_coding. cbn [negb andb].
  by rewrite (no_lengths_checked _ proxied_no_length).
Qed.

(** What a decoder has to admit. *)
Definition admits_sent (limits : DecoderLimits) (r : Request.t) : Prop :=
  limits_ok limits /\ fits limits (Request.headers r ++ auto_length r) /\ body_len (Request.body r) <= max_body_size limits.

Lemma proxied_receivable limits limits2 :
  received limits m -> good_host uh -> admits_sent limits2 (proxied uh m) -> receivable limits2 (proxied uh m).
Proof.
  intros Hr Hu (Hl & Hf & Hb). destruct (proxied_received limits Hr Hu) as [(l & Hp) Hc Hs _ _].
  split; try done; [|apply proxied_no_coding]. pose proof (rl_line _ _ _ _ Hp) as ->. exact Hp.
Qed.
End Proxied.

(** ** Writes that fail *)

Section AnyNetwork.
Context (wire : Wire).

Definition client_output (s : ClientSide) : list bytes := [written (cl_socket s)].

Abbreviation wired := (Io.wired client_output).

Lemma client_write_wired data : wired (client_write (wire := wire) data) (client_write (wire := calm) data).
Proof. apply wired_part; [intros; by repeat constructor..|]. intros k. apply write_all_cut. Qed.

Lemma on_request_silent {A} (m : st Rq Error.t A) : wired (on_request m) (on_request m).
Proof. apply wired_silent. intros s. unfold on_request, on_part. by destruct (m _) as [d r]. Qed.

Lemma client_read_silent : wired client_read client_read.
Proof. apply wired_silent. intros s. unfold client_output. by rewrite client_read_written. Qed.

Lemma request_head_wired : wired request_head_loop request_head_loop.
Proof.
  intros s. unfold request_head_loop. apply wired_loop. apply wired_bind; [apply client_read_silent|].
  intros n. destruct (n =? 0); [by apply wired_silent|]. apply wired_bind; [apply on_request_silent|].
  intros [x|]; by apply wired_silent.
Qed.

Lemma request_body_wired : wired request_body_loop request_body_loop.
Proof.
  intros s. unfold request_body_loop. apply wired_loop. clear s. intros s. unfold wired_at, request_read_round. apply wired_bind_at.
  - apply wired_loop. clear s. intros s. unfold wired_at. rewrite !request_body_round_eq.
    destruct (stream_step (core_of_client s)) as [taken [c r]]. split; [by apply ahead_same | by left].
  - intros [|]; [by apply wired_silent|]. apply wired_bind; [apply client_read_silent|].
    intros n. destruct (n =? 0); by apply wired_silent.
Qed.

(** The run on any network is the run on the calm one, or it is cut off. *)
Lemma collect_request_wired uh : wired (collect_request (wire := wire) uh) (collect_request (wire := calm) uh).
Proof.
  unfold collect_request. apply wired_bind; [apply request_head_wired|]. intros [[h k]|]; [|by apply wired_silent].
  assert (Hrest : forall body : st ClientSide BoxedError unit, wired body body ->
    let m := (_ ← body; body ← gets cl_body; r ← lift (map_err Encoding (upstream_request h k body uh)); mret (Some r)) in wired m m).
  { intros m Hm. apply wired_bind; [done|]. intros _. apply wired_bind; [by apply wired_silent|]. intros b.
    apply wired_bind; [apply wired_lift|]. intros r. by apply wired_silent. }
  destruct k; [by apply Hrest, request_body_wired..|by apply Hrest, wired_silent|].
  apply wired_bind; [apply wired_lift|]. intros r. apply wired_bind; [apply wired_lift|]. intros data.
  apply wired_bind; [apply client_write_wired|]. intros _. by apply wired_silent.
Qed.
End AnyNetwork.


(** ** A run *)

Definition client_bytes : bytes :=
  B "POST /a HTTP/1.0" ++ CRLF ++ B "Host: proxy" ++ CRLF ++ B "Connection: close, x-token" ++ CRLF ++ B "X-Token: 1" ++ CRLF
  ++ B "TE: trailers" ++ CRLF ++ B "Accept: */*" ++ CRLF ++ B "Content-Length: 5" ++ CRLF ++ CRLF ++ B "hello".

Definition client_socket : Socket :=
  {| inbox := [Arrived (take 40 client_bytes); Silence; Arrived (drop 40 client_bytes)]; written := []; flushed := 0 |}.

Definition client_request : Request.t :=
  Request.from_raw_parts (B "POST") (B "/a") (B "HTTP/1.0")
    [(B "Host", B "proxy"); (B "Connection", B "close, x-token"); (B "X-Token", B "1"); (B "TE", B "trailers");
     (B "Accept", B "*/*"); (B "Content-Length", B "5")] (Some (B "hello")).

Example client_request_collected :
  snd (collect_request (B "up:81") (client_start client_socket)) = Ok (Some (proxied (B "up:81") client_request)) /\
  proxied (B "up:81") client_request =
    Request.from_raw_parts (B "POST") (B "/a") (B "HTTP/1.1")
      [(B "Accept", B "*/*"); (B "Host", B "up:81"); (B "Connection", B "keep-alive")] (Some (B "hello")).
Proof. split; vm_compute; reflexivity. Qed.

End ProxyRequest.
