(* ===== verification/ProxyResponse.v ===== *)
(** * What the reverse proxy sends back to its client

    The response of the upstream is taken with the streaming interface and
    written out while it arrives.  It has the body that [decode] returns for
    the same bytes, cut into the chunks of the proxy.  Where a
    write fails, what was written before is a prefix of that. *)
From S2P Require Import Prelude RustStd Errors Validate Head Message Buffer BodyDecoder BodyFacts Compression.
From S2P Require Import DecoderCore CoreFacts CoreApi HeadFacts Stream ResponseDecoder ResponseFacts ResponseTheorems.
From S2P Require Import Host Target Trailer Framing FramingFacts StatusCode Encoder EncoderFacts HeadRoundTrip LengthRoundTrip RequestRoundTrip ResponseRoundTrip Forward.
From S2P Require Import RustStr Io Streaming ReverseProxy.

Module ProxyResponse.
Import Proxy.

Abbreviation core_of_up e := (rs_core (ex_decoder e)).

(** Up to the last section no write fails; there, any may. *)
#[local] Existing Instance calm.

Lemma down_write_calm data e : down_write data e = (with_down (wrote data (ex_down e)) e, Ok tt).
Proof. done. Qed.

Lemma down_flush_calm e : down_flush e = (with_down (pushed (ex_down e)) e, Ok tt).
Proof. done. Qed.

Lemma send_request_calm data e :
  send_request data e = (with_upstream (ex_decoder e, pushed (wrote data (ex_up e))) e, Ok tt).
Proof. done. Qed.

Lemma upstream_read_spec e :
  limits_ok (c_limits (core_of_up e)) -> quiet (core_of_up e) ->
  match upstream_read e with
  | (e', Ok n) => exists y, ex_decoder e' = rs_extend y (ex_decoder e) /\ ex_down e' = ex_down e /\
      n = blen y /\ quiet (core_of_up e') /\ to_come (ex_up e) = y ++ to_come (ex_up e') /\
      written (ex_up e') = written (ex_up e) /\
      (n <> 0 -> (inbox_size (ex_up e') < inbox_size (ex_up e))%nat)
  | (_, Err x) => orderly (Err (A := unit) x)
  end.
Proof.
  intros Hl Hq. unfold upstream_read. destruct (wanted UPSTREAM_CHUNK (ex_decoder e) =? 0) eqn:Hw; [done|].
  set (want := wanted UPSTREAM_CHUNK (ex_decoder e)) in *. unfold on_part, mbind, st_bind.
  assert (Hle : want <= core_available_buf (core_of_up e)) by (apply N.le_min_l).
  pose proof (receive_extends read want (ex_decoder e) (ex_up e) Hl (proj1 Hq) Hle (proj2 Hq)) as Hr.
  assert (Hb : forall s1 data, read want (ex_up e) = (s1, Got data) -> blen data <= want)
    by (intros s1 data; apply read_bound).
  destruct (read want (ex_up e)) as [s1 o] eqn:Hrd. rewrite Hr by (intros d s2 E; by apply (Hb s2)). cbn [boxed].
  destruct o as [y| |]; [|done..]. cbn. exists y. split_and!; try done.
  - change (quiet (core_extend y (core_of_up e))). apply quiet_extend; [done|].
    specialize (Hb s1 y eq_refl). cbn. lia.
  - by apply read_to_come in Hrd.
  - by apply read_written in Hrd as [? _].
  - intros Hn. eapply read_size; [|exact Hrd|by intros ->]. lia.
Qed.

(** Reading writes nothing to the client. *)
Lemma upstream_read_down e : ex_down (fst (upstream_read e)) = ex_down e.
Proof.
  unfold upstream_read. destruct (_ =? 0); [done|]. unfold on_part, mbind, st_bind.
  destruct (receive _ _ _) as [[d s] [[]|[]]]; done.
Qed.

(** ** The head *)

Lemma response_resumable : resumable rs_decode_headers rs_extend (rs_inv (D := NoCompression)).
Proof.
  split.
  - intros y z d. unfold rs_extend, extend_core, core_extend. cbn. cs. by rewrite app_assoc.
  - intros [c h m]. unfold rs_extend, extend_core, core_extend. cbn. rewrite app_nil_r. by destruct c.
  - intros y d. apply rs_extend_inv.
  - intros y d d' Hi Hd. pose proof (rs_decode_headers_post d Hi) as Hp. rewrite Hd in Hp.
    split; [apply Hp|]. exact (rs_decode_headers_ext y d d' _ Hi Hd).
Qed.

(** The decoder before the body: nothing was written to the client yet. *)
Definition awaiting (out sent : bytes) (d : Rs) (e : Exchange) : Prop :=
  d = ex_decoder e /\ quiet (rs_core d) /\ written (ex_down e) = out /\ written (ex_up e) = sent.

Lemma rs_headers_quiet d d' x : rs_inv d -> quiet (rs_core d) -> rs_decode_headers d = (d', Ok x) -> quiet (rs_core d').
Proof.
  intros Hi Hq Hd. pose proof (read_head_post (D := NoCompression) response_reader d (rsi_core _ Hi)) as Hp.
  unfold rs_decode_headers, response_round in Hd. rewrite Hd in Hp.
  destruct Hp as (_ & _ & Hle & [Hs _] & _). by eapply quiet_kept.
Qed.

Lemma response_head_pump out sent :
  head_pump rs_decode_headers rs_extend (rs_inv (D := NoCompression)) (awaiting out sent) response_head_round Some
    (fun e => inbox_size (ex_up e)) (fun e => to_come (ex_up e)).
Proof.
  intros d e (-> & Hq & Hw & Hs) Hi. unfold response_head_round, mbind, st_bind.
  pose proof (upstream_read_spec e (inv_limits _ _ (rsi_core _ Hi)) Hq) as Hr.
  destruct (upstream_read e) as [e1 [n|x]]; [|done]. destruct Hr as (y & Hd & Hdn & Hn & Hq1 & Ha & Hs1 & Hlt).
  destruct (n =? 0) eqn:Hz; [done|].
  unfold on_response, on_part. apply (rs_extend_inv y) in Hi as Hiy. rewrite Hd in Hq1 |- *.
  pose proof (rs_decode_headers_post _ Hiy) as Hp. pose proof (rs_headers_quiet (rs_extend y (ex_decoder e))) as Hq2.
  destruct (rs_decode_headers _) as [d' [[a|]|x]] eqn:Hdec; cbn [boxed].
  1,2: specialize (Hq2 _ _ Hiy Hq1 eq_refl).
  - exists y, d'. split_and!; [done| |done]. split_and!; [done..|cbn; by rewrite Hdn|cbn; by rewrite Hs1].
  - exists y, d'. split_and!; [done| |apply Hlt; lia|done]. split_and!; [done..|cbn; by rewrite Hdn|cbn; by rewrite Hs1].
  - destruct Hp as (_ & Ho & _). by destruct x.
Qed.

(** ** The body *)

Definition piece (use_chunked : bool) (data : bytes) : bytes := if use_chunked then encode_chunk data else data.
Definition end_piece (use_chunked : bool) (ts : list (str * str)) : bytes :=
  if use_chunked then last_chunk_bytes ts else [].

(** What the client has of the body, and what [decode] has. *)
Definition passed_on (u : bool) (out : bytes) (ds : list bytes) (tail : bytes) (e : Exchange) : Prop :=
  Forall (fun x : bytes => x <> []) ds /\ written (ex_down e) = out ++ flat_map (piece u) ds ++ tail.

Definition relaying (u : bool) (k : BodyKind) (out sent : bytes) (c : Core NoCompression) (e : Exchange) : Prop :=
  exists ds, c = dressed (concat ds) (Some k) (core_of_up e) /\ quiet c /\ passed_on u out ds [] e /\
    written (ex_up e) = sent.

Definition relayed (u : bool) (k : BodyKind) (out sent : bytes) (c : Core NoCompression) (e : Exchange) : Prop :=
  exists ds ts, c = dressed (concat ds) (Some k) (core_of_up e) /\ passed_on u out ds (end_piece u ts) e /\
    Forall (fun h => header_ok h = true) ts /\ written (ex_up e) = sent.

Lemma response_body_round_eq u e :
  response_body_round u e =
    let '(taken, (c', r)) := stream_step (core_of_up e) in
    ({| ex_decoder := put_core c' (ex_decoder e);
        ex_down := match taken, r with
                   | None, Ok (ProgressComplete ts) => if u then wrote (last_chunk_bytes ts) (ex_down e) else ex_down e
                   | Some data, Ok (ProgressComplete ts) =>
                       if u then wrote (last_chunk_bytes ts) (wrote (piece u data) (ex_down e))
                       else wrote (piece u data) (ex_down e)
                   | None, _ => ex_down e
                   | Some data, _ => wrote (piece u data) (ex_down e)
                   end;
        ex_up := ex_up e |}, boxed Decoding (stream_result taken r)).
Proof.
  unfold response_body_round, stream_step, rs_peek_body, response_complete, write_last_chunk. destruct (core_peek_body _) as [data|].
  - unfold mbind, st_bind, down_write, modify, on_response, on_part, rs_consume_body, on_core, with_upstream. cbn.
    destruct (core_consume_body _ _) as [c' [[| |ts]|[]]]; cbn; try done. by destruct u.
  - unfold mbind, st_bind, down_write, modify, on_response, on_part, rs_progress, on_core, with_upstream. cbn.
    destruct (core_progress _) as [c' [[| |ts]|[]]]; cbn; try done. by destruct u.
Qed.

Lemma passed_on_more u out ds data e s :
  data <> [] -> passed_on u out ds [] e -> ex_down s = wrote (piece u data) (ex_down e) -> passed_on u out (ds ++ [data]) [] s.
Proof.
  unfold passed_on. intros Hd [Hf Hw] ->. split; [apply Forall_app; by split; [|constructor]|]. cbn. rewrite Hw, !app_nil_r, flat_map_app.
  cbn [flat_map]. by rewrite app_nil_r, app_assoc.
Qed.

Lemma passed_on_end (u : bool) out ds ts e s :
  passed_on u out ds [] e -> ex_down s = (if u then wrote (last_chunk_bytes ts) (ex_down e) else ex_down e) ->
  passed_on u out ds (end_piece u ts) s.
Proof. unfold passed_on. intros [Hf Hw] ->. split; [done|]. destruct u; cbn; rewrite Hw; [by rewrite app_nil_r, app_assoc | done]. Qed.

(** The trailers handed out have valid names and values. *)
Lemma stream_step_trailers (c : Core NoCompression) taken c' ts :
  core_inv status_line_ok c -> stream_step c = (taken, (c', Ok (ProgressComplete ts))) ->
  Forall (fun h => header_ok h = true) ts.
Proof.
  intros Hi. destruct (inv_limits _ _ Hi) as (_ & _ & _ & Hm & _).
  assert (Hc : forall n c', on_body (consume_body n (c_limits c)) c = (c', Ok (ProgressComplete ts)) ->
    Forall (fun h => header_ok h = true) ts).
  { intros n c1. unfold on_body. change (Build_BodyState _ _ _) with (body_state c).
    pose proof (consume_body_inv _ n _ (inv_body _ _ Hi) Hm) as Hp. destruct (consume_body n _ _) as [s r].
    intros [= _ ->]. destruct Hp as (_ & _ & _ & _ & _ & _ & _ & Hf & _). eapply Forall_impl; [|exact Hf].
    intros h. unfold trailer_ok, header_ok. rewrite !andb_true_iff. tauto. }
  unfold stream_step. destruct (core_peek_body c) as [data|]; intros [= <- Hs].
  - unfold core_consume_body in Hs. destruct (_ =? 0); [done|]. by apply Hc in Hs.
  - by apply Hc in Hs.
Qed.

Lemma stream_step_taken (c : Core NoCompression) data r : stream_step c = (Some data, r) -> data <> [].
Proof.
  unfold stream_step, core_peek_body. destruct (peek_body _ _) as [d|] eqn:Hp; [|done]. intros [= <- _] ->.
  pose proof (peek_body_phase (body_state c) [] Hp) as [Hd _]. by cbn in Hd.
Qed.

Lemma response_pump u k out sent :
  pump status_line_ok Decoding (relaying u k out sent) (relayed u k out sent) (response_body_round u)
    (n ← upstream_read; if n =? 0 then throw (Text (B "upstream disconnected during response body")) else mret tt)
    (fun e => length (rs_remaining (ex_decoder e)))
    (fun e => inbox_size (ex_up e)) (fun e => to_come (ex_up e)).
Proof.
  split.
  - by intros c e (ds & -> & _).
  - intros c e (ds & -> & Hq & Hp & Hs) Hi. rewrite response_body_round_eq.
    pose proof (body_round_stream _ _ Hi) as Hb. rewrite stream_step_dressed in Hb.
    pose proof (stream_step_taken (core_of_up e)) as Ht.
    pose proof (fun taken c' ts => stream_step_trailers (dressed (concat ds) (Some k) (core_of_up e)) taken c' ts (proj1 Hi)) as Hts.
    rewrite stream_step_dressed in Hts.
    destruct (stream_step (core_of_up e)) as [taken [c' r]].
    pose proof (quiet_round _ _ _ _ Hi Hq Hb) as Hq'. rewrite Hb. split; [done|]. cbn [snd fst].
    assert (Hx : dressed (concat ds ++ default [] taken) (Some k) c'
      = set_decoded_body (c_decoded_body (dressed (concat ds) (Some k) (core_of_up e)) ++ default [] taken)
          (dressed (concat ds) (Some k) c')) by done.
    destruct r as [p|]; [|done]. cbn [stream_result stream_flow]. rewrite <- Hx in Hq' |- *.
    assert (Hds : concat ds ++ default [] taken = concat (ds ++ match taken with Some d => [d] | None => [] end)).
    { rewrite concat_app. destruct taken; cbn; by rewrite ?app_nil_r. }
    rewrite Hds in Hq' |- *.
    destruct p as [| |ts], taken as [data|]; cbn [flow_rel stream_flow done_rel];
      try (specialize (Ht data _ eq_refl)); rewrite ?app_nil_r in *;
      try (eexists; split_and!; [reflexivity|exact Hq'|by eapply passed_on_more|done]);
      try (exists ds; by split_and!).
    + specialize (Hts _ _ _ eq_refl). do 2 eexists. split_and!; [reflexivity| |exact Hts|done].
      by apply (passed_on_end u out _ ts {| ex_decoder := ex_decoder e; ex_down := wrote (piece u data) (ex_down e); ex_up := ex_up e |});
        [eapply passed_on_more|].
    + specialize (Hts _ _ _ eq_refl). exists ds, ts. split_and!; [reflexivity| |exact Hts|done]. by eapply passed_on_end.
  - intros c e (ds & -> & Hq & [Hf Hp] & Hs) Hi. unfold mbind, st_bind.
    pose proof (upstream_read_spec e (inv_limits _ _ (proj1 Hi)) Hq) as Hr.
    destruct (upstream_read e) as [e1 [n|x]]; [|done]. destruct Hr as (y & Hd & Hdn & Hn & Hq1 & Ha & Hs1 & Hlt).
    destruct (n =? 0) eqn:Hz; [done|]. cbn. exists y. split_and!; [|apply Hlt; lia|done].
    exists ds. split_and!; [by rewrite Hd| |split; [done|by rewrite Hdn]|by rewrite Hs1]. by rewrite Hd in Hq1.
  - intros c e c' r (ds & -> & _) Hb. rewrite response_body_round_eq. by destruct (stream_step _) as [taken [c1 r1]].
Qed.

Lemma response_body_decodes u k out sent c e :
  R_inv status_line_ok (relaying u k out sent) c e ->
  match response_body_loop u e with
  | (e', Ok _) => exists y c', body_loop (core_extend y c) = (c', Ok true) /\
      relayed u k out sent c' e' /\ to_come (ex_up e) = y ++ to_come (ex_up e')
  | (_, Err x) => orderly (Err (A := unit) x)
  end.
Proof.
  intros HR. pose proof (pump_decodes _ _ _ _ _ _ _ _ _ (response_pump u k out sent) c e _ HR (Nat.lt_succ_diag_r _)) as Hp.
  unfold response_body_loop. rewrite (loop_same (response_read_round u) (pump_read_round (response_body_round u)
    (n ← upstream_read; if n =? 0 then throw (Text (B "upstream disconnected during response body")) else mret tt)
    (fun e => length (rs_remaining (ex_decoder e))))).
  - destruct (loop _ _ e) as [e' [[]|x]]; [|done]. destruct Hp as (y & c' & Hb & HR' & _ & Ha). by exists y, c'.
  - intros t. unfold response_read_round, pump_read_round, pump_inner, mbind, st_bind.
    destruct (loop _ (response_body_round u) t) as [t1 [[]|x]]; try done. destruct (upstream_read t1) as [t2 [n|x]]; [|done].
    by destruct (n =? 0).
Qed.

(** However the body loop ends: whole pieces, and no last chunk after a failure. *)
Lemma response_body_pieces u out e :
  (exists ds, passed_on u out ds [] e) ->
  match response_body_loop u e with
  | (_, Ok _) => True
  | (e', Err _) => exists ds, passed_on u out ds [] e'
  end.
Proof.
  set (P := fun e : Exchange => exists ds, passed_on u out ds [] e). intros HP.
  assert (Hround : forall e, P e -> match response_body_round u e with
    | (e', Ok (Break b)) => b = false -> P e' | (e', _) => P e' end).
  { clear e HP. intros e [ds Hp]. rewrite response_body_round_eq. pose proof (stream_step_taken (core_of_up e)) as Ht.
    destruct (stream_step _) as [[data|] [c' [[| |ts]|[]]]]; cbn [boxed stream_result stream_flow]; try done; try (intros _);
      first [by exists ds | exists (ds ++ [data]); by apply (passed_on_more u out ds data e _ (Ht _ _ eq_refl))]. }
  assert (Hread : forall e, P e -> match response_read_round u e with
    | (e', Ok (Break _)) => True | (e', _) => P e' end).
  { clear e HP. intros e HP. unfold response_read_round, mbind, st_bind.
    pose proof (loop_post P (fun b e' => b = false -> P e') _ (S (length (rs_remaining (ex_decoder e)))) e Hround HP) as Hl.
    destruct (loop _ (response_body_round u) e) as [e1 [[]|x]]; [done| |done]. specialize (Hl eq_refl).
    pose proof (upstream_read_down e1) as Hd. destruct (upstream_read e1) as [e2 [n|x]]; cbn [fst] in Hd.
    - destruct Hl as [ds [Hf Hw]]. destruct (n =? 0); exists ds; (split; [done|]); cbn; by rewrite Hd.
    - destruct Hl as [ds [Hf Hw]]. exists ds. split; [done|]. by rewrite Hd. }
  pose proof (loop_post P (fun _ _ => True) _ (S (inbox_size (ex_up e))) e Hread HP) as Hl. unfold response_body_loop.
  by destruct (loop _ (response_read_round u) e) as [e1 [[]|x]].
Qed.

(** ** The method waits for its response *)

Lemma response_round_method d :
  core_inv status_line_ok (rs_core d) -> reading_head (rs_core d) ->
  rs_request_method (fst (response_round d)) = rs_request_method (D := NoCompression) d.
Proof.
  intros Hi Hp. unfold response_round, head_round, start_line_round, header_round, on_core. cbn [core_of rs_core_of].
  destruct Hp as [Hp | Hp]; rewrite Hp; (destruct (find_line _) as [pos|] eqn:Hf; [|done]).
  - by match goal with |- context [let '(_, _) := ?m in _] => destruct m as [c r] end.
  - destruct pos as [|pos].
    + pose proof Hi as [_ _ _ I4 _ _]. destruct (I4 Hp) as (l & Hl & _ & (v & s & code & reason & Hlp)%check_status_line_iff).
      rewrite (response_head_done_eq d l v s code reason Hl Hlp (proj2 (find_line_Some _ _ Hf))). cbv zeta. by destruct (response_kind _ _ _) as [[k hs]|].
    + unfold mbind, st_bind. by destruct (header_line _ _) as [c [[]|]].
Qed.

Lemma rs_headers_method d :
  rs_inv d -> reading_head (rs_core d) ->
  rs_request_method (fst (rs_decode_headers d)) = rs_request_method (D := NoCompression) d.
Proof.
  intros Hi Hp. set (P := fun d' : Rs => core_inv status_line_ok (rs_core d') /\ reading_head (rs_core d') /\
    rs_request_method d' = rs_request_method d).
  assert (HP : P d) by (split_and!; [apply Hi | done | done]).
  assert (Hround : forall d1, P d1 -> match response_round d1 with
    | (d2, Ok (Break _)) => rs_request_method d2 = rs_request_method d | (d2, Ok Continue) => P d2
    | (d2, Err _) => rs_request_method d2 = rs_request_method d end).
  { intros d1 (Hc & Hp1 & Hm). pose proof (response_round_method d1 Hc Hp1) as Hm1.
    pose proof (head_round_post (D := NoCompression) response_reader d1 Hc) as Hpost. unfold round_post in Hpost.
    change (head_round check_status_line response_head_done rs_next_message d1) with (response_round d1) in Hpost.
    destruct (response_round d1) as [d2 [[|x]|e]]; cbn [fst] in Hm1; [|congruence..].
    destruct Hpost as (Hi2 & Hp2 & _). by split_and!; [..|congruence]. }
  unfold rs_decode_headers, read_head.
  assert (Hx : forall fuel d1, P d1 -> rs_request_method (fst (loop fuel response_round d1)) = rs_request_method d).
  { induction fuel as [|fuel IH]; intros d1 H1; [apply H1|]. cbn [loop]. specialize (Hround d1 H1).
    destruct (response_round d1) as [d2 [[|x]|e]]; [by apply IH | done..]. }
  by apply Hx.
Qed.

(** ** The whole of a response *)

(** The decoder of a response to [method] that got [data]. *)
Definition response_decoder (limits : DecoderLimits) (method : str) (data : bytes) : Rs :=
  rs_extend data (set_request_method method (rs_new NoCompression_new limits)).

Definition upstream_decoder (method : str) (data : bytes) : Rs := response_decoder proxy_limits method data.

Lemma proxy_limits_ok : limits_ok proxy_limits.
Proof. unfold limits_ok. vm_compute. repeat split; discriminate. Qed.

Lemma response_decoder_inv limits method data : limits_ok limits -> rs_inv (response_decoder limits method data).
Proof.
  intros Hl. apply rs_extend_inv. pose proof (rs_new_inv NoCompression_new limits Hl) as [Hc _]. by split.
Qed.

Lemma upstream_decoder_inv method data : rs_inv (upstream_decoder method data).
Proof. apply response_decoder_inv, proxy_limits_ok. Qed.

(** The response of the upstream with the body [body]. *)
Definition upstream_message (h : ResponseHead.t) (body : option bytes) : Response.t :=
  Response.from_raw_parts (ResponseHead.version h) (ResponseHead.status_code h) (ResponseHead.reason_phrase h)
    (ResponseHead.headers h) body.

(** [decode] on a head, with what follows it. *)
Lemma decode_after_response_head limits method data more d1 h k :
  limits_ok limits -> rs_decode_headers (response_decoder limits method data) = (d1, Ok (Some (h, k))) ->
  rs_decode (response_decoder limits method (data ++ more)) =
    let d2 := with_head h k (rs_extend more d1) in
    match rs_decode_body k (rs_core d2) with
    | (c, Err e) => (put_core c d2, Err e)
    | (c, Ok false) => (put_core c d2, Ok None)
    | (c, Ok true) => (rs_message_done k (put_core c d2), Ok (Some (response_message h k c)))
    end.
Proof.
  intros Hl Hd. rewrite (rs_decode_eq _ (response_decoder_inv limits method (data ++ more) Hl)), rs_decode_head_eq.
  change (rs_decoded_head (response_decoder limits method (data ++ more))) with (@None ResponseHead.t).
  change (c_phase (rs_core (response_decoder limits method (data ++ more)))) with StartLine.
  change (response_decoder limits method (data ++ more)) with (rs_extend more (response_decoder limits method data)).
  pose proof (rs_decode_headers_ext more _ _ _ (response_decoder_inv limits method data Hl) Hd) as He. rewrite He.
  by destruct k.
Qed.

(** The state after the head. *)
Lemma head_state limits method data d1 h k :
  limits_ok limits -> rs_decode_headers (response_decoder limits method data) = (d1, Ok (Some (h, k))) ->
  rs_inv d1 /\ rs_head_decoded h k d1 /\ c_decoded_body (rs_core d1) = [] /\ rs_request_method d1 = Some method /\
  c_limits (rs_core d1) = limits.
Proof.
  intros Hlim Hd. pose proof (response_decoder_inv limits method data Hlim) as Hi.
  pose proof (rs_decode_headers_post _ Hi) as Hp. rewrite Hd in Hp. destruct Hp as (Hi1 & _ & _ & _ & Hdec & _).
  pose proof (rs_headers_method _ Hi (or_introl eq_refl)) as Hm. rewrite Hd in Hm.
  pose proof (read_head_post (D := NoCompression) response_reader (response_decoder limits method data) (rsi_core _ Hi)) as Hk.
  unfold rs_decode_headers, response_round in Hd. rewrite Hd in Hk. destruct Hk as (_ & _ & _ & [(Hl & _ & Hb & _) _] & _).
  split_and!; [done..|by symmetry|exact Hm|exact Hl].
Qed.

(** ** The head for the client *)

Definition framing_header (len : option N) (k : BodyKind) : list (str * str) :=
  match len, k with
  | Some n, _ => [(B "Content-Length", show_dec n)]
  | None, KChunked => [(B "Transfer-Encoding", B "chunked")]
  | None, KCloseDelimited => [(B "Connection", B "close")]
  | None, _ => []
  end.

Definition kept_fields (h : ResponseHead.t) : list (str * str) :=
  List.filter (fun f => negb (skip_response_header (connection_headers (ResponseHead.headers h)) (fst f)))
    (ResponseHead.headers h).

(** The fields of the upstream but those of its connection and its framing,
    and the framing of the proxy. *)
Definition downstream (h : ResponseHead.t) (len : option N) (k : BodyKind) : Response.t :=
  Response.from_raw_parts (B "HTTP/1.1") (ResponseHead.status_code h) (ResponseHead.reason_phrase h)
    (kept_fields h ++ framing_header len k) None.

Lemma copy_response_headers skip hs r :
  forallb header_ok hs = true ->
  copy_headers Response.add_header skip hs r =
    Ok (Response.with_headers (Response.headers r ++ List.filter (fun f => negb (skip (fst f))) hs) r).
Proof.
  revert r. induction hs as [|[n v] hs IH]; intros r; cbn [copy_headers List.filter fst forallb].
  - intros _. rewrite app_nil_r. by destruct r.
  - intros [Hh Hhs]%andb_true_iff. destruct (skip n); cbn [negb]; [by apply IH|].
    unfold Response.add_header. rewrite (header_ok_checked n v Hh). cbn [mbind result_bind]. rewrite IH by done. cbn.
    by rewrite <- app_assoc.
Qed.

Lemma downstream_head_eq method h k :
  ResponseHead.valid h = true ->
  downstream_head method h k =
    if is_valid_reason_phrase (ResponseHead.reason_phrase h) then
      len ← map_err Decoding (announced_length (eq_ignore_ascii_case method (B "HEAD")) h k);
      Ok (downstream h len k)
    else Err (Encoding (EncodeError.InvalidReasonPhrase (ResponseHead.reason_phrase h))).
Proof.
  unfold ResponseHead.valid. rewrite !andb_true_iff. intros [[[_ Hc] _] Hh].
  unfold downstream_head, Response.new. rewrite Hc. cbn [negb]. destruct (is_valid_reason_phrase _); [|done].
  cbn [negb map_err mbind result_bind]. destruct (announced_length _ h k) as [len|e]; cbn [map_err mbind result_bind]; [|done].
  rewrite copy_response_headers by done. cbn [mbind result_bind].
  assert (Hd : forall n, header_ok (B "Content-Length", show_dec n) = true).
  { intros n. pose proof (length_header_sendable n) as Hs. unfold sendable in Hs. rewrite !andb_true_iff in Hs. tauto. }
  assert (Hadd : forall n v r, header_ok (n, v) = true ->
    map_err Encoding (Response.add_header n v r) = Ok (Response.with_headers (Response.headers r ++ [(n, v)]) r)).
  { intros n v r Hn. unfold Response.add_header. by rewrite (header_ok_checked n v Hn). }
  unfold downstream, framing_header, kept_fields.
  destruct len as [n|]; [by rewrite Hadd|]. destruct k; try (by rewrite Hadd); cbn; by rewrite app_nil_r.
Qed.

(** The fields of the upstream that frame its body are gone. *)
Lemma kept_no_framing h name :
  name = B "Content-Length" \/ name = B "Transfer-Encoding" -> List.filter (named name) (kept_fields h) = [].
Proof.
  intros Hname. unfold kept_fields. generalize (connection_headers (ResponseHead.headers h)). intros conns.
  induction (ResponseHead.headers h) as [|f hs IH]; [done|]. cbn [List.filter].
  destruct (skip_response_header conns (fst f)) eqn:E; cbn [negb]; [done|]. cbn [List.filter].
  unfold named at 1. destruct (eq_ignore_ascii_case (fst f) name) eqn:En; [|done].
  exfalso. unfold skip_response_header in E. destruct Hname as [-> | ->].
  - change (eq_ignore_ascii_case (fst f) (B "content-length")) with (eq_ignore_ascii_case (fst f) (B "Content-Length")) in E.
    rewrite En in E. by rewrite orb_true_r in E.
  - change (eq_ignore_ascii_case (fst f) (B "transfer-encoding")) with (eq_ignore_ascii_case (fst f) (B "Transfer-Encoding")) in E.
    rewrite En in E. by rewrite !orb_true_r in E.
Qed.

Lemma downstream_lengths h len k :
  cl_values (Response.headers (downstream h len k)) = match len with Some n => [show_dec n] | None => [] end.
Proof.
  unfold cl_values, downstream. cbn [Response.from_raw_parts Response.headers].
  rewrite List.filter_app, kept_no_framing by auto. unfold framing_header. by destruct len, k.
Qed.

Lemma downstream_coding h len k :
  has_header (B "Transfer-Encoding") (downstream h len k) =
    match len, k with None, KChunked => true | _, _ => false end.
Proof.
  unfold has_header, downstream. cbn [headers Response_head Response.from_raw_parts Response.headers].
  rewrite existsb_app, (proj2 (existsb_filter_nil _ _)) by (apply kept_no_framing; auto).
  unfold framing_header. by destruct len, k.
Qed.

(** The encoder holds a Content-Length against the body of the head, which is empty. *)
Lemma length_refused h n k hb :
  0 < n -> n <= u64_MAX -> status_has_body (ResponseHead.status_code h) = true ->
  encode_response_headers (downstream h (Some n) k) <> Ok hb.
Proof.
  intros Hn Hmax Hs He. unfold encode_response_headers in He. apply result_bind_Ok in He as ([] & Hc & _).
  unfold check_response in Hc. apply result_bind_Ok in Hc as ([] & _ & Hc). rewrite downstream_coding in Hc.
  change (response_status_has_body (Response.status_code (downstream h (Some n) k)))
    with (status_has_body (ResponseHead.status_code h)) in Hc. rewrite Hs in Hc. cbn [andb negb] in Hc.
  repeat match type of Hc with (if ?b then Err _ else _) = _ => destruct b; [done|] end.
  apply result_bind_Ok in Hc as (v & Hv & Hc).
  unfold validate_content_length_headers in Hv. apply validate_lengths in Hv. rewrite downstream_lengths in Hv.
  destruct Hv as [[? _]|(m & -> & _ & _ & Hf)]; [done|]. apply Forall_singleton in Hf as (_ & _ & Hp).
  destruct (show_dec_plain n Hmax) as (_ & _ & Hp2). rewrite Hp2 in Hp. injection Hp as <-.
  cbn in Hc. destruct (n =? 0) eqn:E; [lia|]. done.
Qed.

(** ** From the head to the end *)

(** The body that was written for the bytes [data ++ more] of the upstream, of
    which [data] ends in the head. *)
Definition transferred (method : str) (data more : bytes) (d1 : Rs) (h : ResponseHead.t) (k : BodyKind) (body : bytes) : Prop :=
  match k with
  | KCloseDelimited => body = c_buf (rs_core d1) ++ more
  | KTunnel => False
  | _ => exists d2 b,
      rs_decode (upstream_decoder method (data ++ more)) = (d2, Ok (Some (upstream_message h b))) /\
      match k with
      | KChunked => exists ds ts, b = Some (concat ds) /\ Forall (fun x : bytes => x <> []) ds /\
          Forall (fun f => header_ok f = true) ts /\ body = flat_map chunk ds ++ last_chunk_bytes ts
      | KContentLength _ => b = Some body
      | _ => b = None /\ body = []
      end
  end.

(** A head came from the upstream and was written to the client. *)
Record head_passed (method : str) (up : Socket) (data : bytes) (d1 : Rs) (h : ResponseHead.t) (k : BodyKind)
    (hb : bytes) : Prop := {
  hp_prefix : exists rest, to_come up = data ++ rest;
  hp_decoded : rs_decode_headers (upstream_decoder method data) = (d1, Ok (Some (h, k)));
  hp_written : exists len, announced_length (eq_ignore_ascii_case method (B "HEAD")) h k = Ok len /\
    encode_response_headers (downstream h len k) = Ok hb
}.

(** What the client got of a body that did not come to its end: of a chunked one
    chunks without the last, of one that ends with the connection a beginning.
    [stream] is what the upstream sends, [data] the part that ends in the head. *)
Definition broken_off (d1 : Rs) (k : BodyKind) (stream data body : bytes) : Prop :=
  match k with
  | KChunked => exists ds, Forall (fun x : bytes => x <> []) ds /\ body = flat_map chunk ds
  | KCloseDelimited => exists more, body `prefix_of` c_buf (rs_core d1) ++ more /\ stream = data ++ more
  | _ => True
  end.

Definition passed_back (request : Request.t) (method : str) (down up : Socket)
    (o : Exchange * result (exn BoxedError) bool) : Prop :=
  match o with
  | (e', Ok reuse) => exists bs data more d1 h k hb body,
      encode_request request = Ok bs /\ written (ex_up e') = written up ++ bs /\
      head_passed method up data d1 h k hb /\ to_come up = data ++ more ++ to_come (ex_up e') /\
      transferred method data more d1 h k body /\
      written (ex_down e') = written down ++ hb ++ body /\ flushed (ex_down e') = length (written (ex_down e')) /\
      reuse = match k with KCloseDelimited => false | _ => is_keep_alive h end
  | (e', Err x) =>
      orderly (Err (A := unit) x) /\
      (written (ex_down e') = written down \/
       exists data d1 h k hb body, head_passed method up data d1 h k hb /\
         written (ex_down e') = written down ++ hb ++ body /\
         broken_off d1 k (to_come up) data body)
  end.

Lemma response_head_down e : ex_down (fst (response_head_loop e)) = ex_down e.
Proof.
  unfold response_head_loop. generalize (S (inbox_size (ex_up e))). intros fuel.
  apply (loop_keeps (fun e' => ex_down e' = ex_down e)); [|done]. intros e1 <-. unfold response_head_round, mbind, st_bind.
  pose proof (upstream_read_down e1) as Hd. destruct (upstream_read e1) as [e2 [n|x]]; [|done]. cbn [fst] in Hd.
  destruct (n =? 0); [done|]. unfold on_response, on_part. by destruct (rs_decode_headers _) as [d [[x|]|[]]].
Qed.

(** The loop that reads the head. *)
Lemma response_head_decodes method sent e :
  ex_decoder e = upstream_decoder method [] -> written (ex_up e) = sent ->
  match response_head_loop e with
  | (e', Ok (h, k)) => exists data,
      rs_decode_headers (upstream_decoder method data) = (ex_decoder e', Ok (Some (h, k))) /\
      awaiting (written (ex_down e)) sent (ex_decoder e') e' /\ to_come (ex_up e) = data ++ to_come (ex_up e')
  | (_, Err x) => orderly (Err (A := unit) x)
  end.
Proof.
  intros Hd Hs. assert (Hr : awaiting (written (ex_down e)) sent (upstream_decoder method []) e) by (by split_and!).
  pose proof (head_pump_decodes _ _ _ _ _ _ _ _ _ _ _ response_resumable
    (response_head_pump (written (ex_down e)) sent) Hr (upstream_decoder_inv method []) (Nat.lt_succ_diag_r _)) as Hhead.
  unfold response_head_loop in *. destruct (loop _ _ _) as [e' [[h k]|x]]; [|done].
  destruct Hhead as (data & d & Hdec & HR & Ha). exists data. pose proof HR as (-> & _). by split_and!.
Qed.

(** The rest of [stream_response_on_connection] after the head was read. *)
Definition respond (method : str) (h : ResponseHead.t) (k : BodyKind) : st Exchange BoxedError bool :=
  let is_close_delimited := match k with KCloseDelimited => true | _ => false end in
  let can_reuse := if is_close_delimited then false else is_keep_alive h in
  response ← lift (downstream_head method h k);
  header_bytes ← lift (map_err Encoding (encode_response_headers response));
  _ ← down_write header_bytes;
  _ ← down_flush;
  if is_close_delimited then
    _ ← close_delimited_transfer;
    mret can_reuse
  else
    _ ← match k with
        | KNone => mret tt
        | _ => response_body_loop (match k with KChunked => true | _ => false end)
        end;
    _ ← down_flush;
    mret can_reuse.

Lemma stream_response_eq request method e :
  stream_response request method e =
    match encode_request request with
    | Err x => (e, Err (Throw (Encoding x)))
    | Ok bs =>
        match response_head_loop (with_upstream (ex_decoder e, pushed (wrote bs (ex_up e))) e) with
        | (e', Ok (h, k)) => respond method h k e'
        | (e', Err x) => (e', Err x)
        end
    end.
Proof.
  unfold stream_response. unfold mbind at 1, st_bind at 1, lift at 1. destruct (encode_request request) as [bs|x]; [|done].
  cbn [map_err]. unfold mbind at 1, st_bind at 1. rewrite send_request_calm. unfold mbind at 1, st_bind at 1.
  by destruct (response_head_loop _) as [e' [[h k]|x]].
Qed.

Lemma response_head_state method data d1 h k :
  rs_decode_headers (upstream_decoder method data) = (d1, Ok (Some (h, k))) ->
  rs_inv d1 /\ rs_head_decoded h k d1 /\ c_decoded_body (rs_core d1) = [] /\ rs_request_method d1 = Some method /\
  c_limits (rs_core d1) = proxy_limits.
Proof. apply head_state, proxy_limits_ok. Qed.

(** What the client was sent of a body, and the end of the run. *)
Definition body_passed (method : str) (data : bytes) (d1 : Rs) (h : ResponseHead.t) (k : BodyKind) (out sent : bytes)
    (ahead : bytes) (o : Exchange * result (exn BoxedError) unit) : Prop :=
  match o with
  | (e', Ok _) => exists more body, transferred method data more d1 h k body /\ written (ex_down e') = out ++ body /\
      ahead = more ++ to_come (ex_up e') /\ written (ex_up e') = sent
  | (e', Err x) => orderly (Err (A := unit) x) /\
      exists body, written (ex_down e') = out ++ body /\
        broken_off d1 k (data ++ ahead) data body
  end.

Lemma chunk_pieces ds : Forall (fun x : bytes => x <> []) ds -> flat_map (piece true) ds = flat_map chunk ds.
Proof.
  induction 1 as [|d ds Hd _ IH]; [done|]. cbn [flat_map]. rewrite IH. unfold piece, encode_chunk. by destruct d.
Qed.

Lemma plain_pieces ds : flat_map (piece false) ds = concat ds.
Proof. induction ds as [|d ds IH]; [done|]. cbn [flat_map concat]. by rewrite IH. Qed.

Lemma dressed_core_inv b k (c : Core NoCompression) : core_inv status_line_ok c -> core_inv status_line_ok (dressed b k c).
Proof. intros [I1 [B1 B2 B3] I3 I4 I5 I6]. by split; [|split|..]. Qed.

(** A body that is taken piece by piece. *)
Lemma body_streamed method data h k out sent e :
  rs_decode_headers (upstream_decoder method data) = (ex_decoder e, Ok (Some (h, k))) ->
  awaiting out sent (ex_decoder e) e ->
  match k with KChunked | KContentLength _ => True | _ => False end ->
  body_passed method data (ex_decoder e) h k out sent (to_come (ex_up e))
    (response_body_loop (match k with KChunked => true | _ => false end) e).
Proof.
  intros Hd (_ & Hq & Hw & Hs) Hk. destruct (response_head_state _ _ _ _ _ Hd) as ([Hi _] & Hdec & Hb & _ & _).
  set (u := match k with KChunked => true | _ => false end).
  set (c := dressed [] (Some k) (core_of_up e)).
  assert (Hl : rs_decode_body k = body_loop (D := NoCompression)) by (by destruct k).
  assert (HR : R_inv status_line_ok (relaying u k out sent) c e).
  { split; [|split].
    - exists []. split_and!; [done..| |done]. split; [constructor|]. cbn. by rewrite app_nil_r.
    - by apply dressed_core_inv.
    - change (c_phase c) with (c_phase (core_of_up e)). rewrite (rd_phase _ _ _ Hdec).
      destruct k as [n| | | |]; try done. cbn. by destruct (0 <? n). }
  pose proof (response_body_decodes u k out sent c e HR) as Hbody.
  pose proof (response_body_pieces u out e) as Hpieces.
  destruct (response_body_loop u e) as [e' [[]|x]].
  - destruct Hbody as (y & c' & Hloop & (ds & ts & Hc' & [Hf Hout] & Hts & Hs') & Ha).
    exists y. eexists. split; [|split_and!; [exact Hout|done..]].
    assert (Hm : exists d2, rs_decode (upstream_decoder method (data ++ y)) =
        (d2, Ok (Some (upstream_message h (Some (concat ds)))))).
    { unfold upstream_decoder. rewrite (decode_after_response_head proxy_limits method data y _ h k proxy_limits_ok Hd). cbv zeta.
      assert (Hx : rs_core (with_head h k (rs_extend y (ex_decoder e))) = core_extend y c).
      { unfold with_head, rs_extend, extend_core, c, dressed. cbn. unfold core_extend. cs.
        rewrite <- Hb. by destruct (core_of_up e). }
      rewrite Hx, Hl, Hloop, Hc'. unfold response_message. eexists. by destruct k. }
    destruct Hm as [d2 Hm]. unfold transferred, u. destruct k as [n| | | |]; try done.
    + exists d2, (Some (concat ds)). split; [done|]. cbn [end_piece]. by rewrite app_nil_r, plain_pieces.
    + exists d2, (Some (concat ds)). split; [done|]. exists ds, ts. cbn [end_piece]. by rewrite chunk_pieces.
  - split; [done|]. destruct Hpieces as [ds [Hf Hout]].
    { exists []. split; [constructor|]. cbn. by rewrite app_nil_r. }
    rewrite app_nil_r in Hout. eexists. split; [exact Hout|].
    subst u. destruct k; try done. exists ds. by rewrite <- chunk_pieces.
Qed.

(** A tunnel has no body: the first round fails. *)
Lemma tunnel_body_fails u e :
  c_phase (core_of_up e) = Tunnel ->
  exists e' x, response_body_loop u e = (e', Err (Throw x)) /\ ex_down e' = ex_down e.
Proof.
  intros Hp.
  assert (Hr : exists e1 x, response_body_round u e = (e1, Err (Throw x)) /\ ex_down e1 = ex_down e).
  { rewrite response_body_round_eq. unfold stream_step, core_peek_body, core_progress, on_body, consume_body. cs. rewrite Hp.
    cbn [peek_body]. unfold fail, throw. cbn. by do 2 eexists. }
  destruct Hr as (e1 & x & Hr & Hd). exists e1, x. unfold response_body_loop. cbn [loop]. unfold response_read_round, mbind, st_bind.
  cbn [loop]. by rewrite Hr.
Qed.

(** ** A body that ends with the connection *)

Lemma raw_loop fuel e :
  (inbox_size (ex_up e) < fuel)%nat ->
  match loop fuel raw_round e with
  | (e', Ok _) => exists more, to_come (ex_up e) = more ++ to_come (ex_up e') /\
      written (ex_down e') = written (ex_down e) ++ more /\ written (ex_up e') = written (ex_up e)
  | (e', Err x) => orderly (Err (A := unit) x) /\
      exists more, more `prefix_of` to_come (ex_up e) /\ written (ex_down e') = written (ex_down e) ++ more
  end.
Proof.
  revert e. induction fuel as [|fuel IH]; intros e Hf; [lia|]. cbn [loop]. unfold raw_round at 1.
  destruct (read UPSTREAM_CHUNK (ex_up e)) as [up o] eqn:Hr. pose proof (read_to_come _ _ _ _ Hr) as Ha.
  pose proof (read_written _ _ _ _ Hr) as [Hw _]. unfold mbind, st_bind, modify.
  destruct o as [data| |]; try (split; [done | exists []; split; [apply prefix_nil | by rewrite app_nil_r]]).
  destruct (is_empty data) eqn:He.
  - destruct data; [|done]. cbn [mret st_ret]. exists []. split_and!; [exact Ha | by rewrite app_nil_r | exact Hw].
  - assert (Hne : data <> []) by (by intros ->). pose proof (read_size UPSTREAM_CHUNK _ _ _ eq_refl Hr Hne) as Hlt.
    rewrite down_write_calm. cbn [mret st_ret].
    match goal with |- context [loop fuel _ ?s] => specialize (IH s) end. cbn [ex_up ex_down with_upstream with_down snd] in *.
    specialize (IH ltac:(lia)). destruct (loop fuel raw_round _) as [e' [u|x]].
    + destruct IH as (more & H1 & H2 & H3). exists (data ++ more). cbn [written wrote] in *.
      split_and!; [by rewrite Ha, H1, app_assoc | by rewrite H2, app_assoc | by rewrite H3].
    + destruct IH as [Ho (more & Hp & H2)]. split; [done|]. exists (data ++ more). cbn [written wrote] in *.
      split; [rewrite Ha; by apply prefix_app | by rewrite H2, app_assoc].
Qed.

Lemma close_delimited_spec method data h out sent e :
  awaiting out sent (ex_decoder e) e ->
  body_passed method data (ex_decoder e) h KCloseDelimited out sent (to_come (ex_up e)) (close_delimited_transfer e) /\
  (is_ok (snd (close_delimited_transfer e)) = true ->
     flushed (ex_down (fst (close_delimited_transfer e))) = length (written (ex_down (fst (close_delimited_transfer e))))).
Proof.
  intros (_ & _ & Hw & Hs). unfold close_delimited_transfer, rs_take_remaining, core_take_remaining. cbn [fst snd].
  unfold mbind, st_bind, modify, mret, st_ret.
  set (leftover := c_buf (core_of_up e)).
  assert (Hgen : forall e1, written (ex_down e1) = out ++ leftover -> ex_up e1 = ex_up e ->
    let o := (let (s', r) := loop (S (inbox_size (ex_up e1))) raw_round e1 in
              match r with Ok a => down_flush s' | Err x => (s', Err x) end) in
    body_passed method data (ex_decoder e) h KCloseDelimited out sent (to_come (ex_up e)) o /\
    (is_ok (snd o) = true -> flushed (ex_down (fst o)) = length (written (ex_down (fst o))))).
  { intros e1 Hw1 Hup. pose proof (raw_loop _ e1 (Nat.lt_succ_diag_r _)) as Hl.
    destruct (loop _ raw_round e1) as [e2 [u|x]]; cbn [body_passed].
    - destruct Hl as (more & H1 & H2 & H3). split; [|done]. exists more, (leftover ++ more). cbn.
      rewrite <- Hup. split_and!; [done|by rewrite H2, Hw1, app_assoc|done|congruence].
    - destruct Hl as (Ho & more & Hpre & H2). split; [|done]. split; [done|]. exists (leftover ++ more).
      split; [by rewrite H2, Hw1, app_assoc|]. exists (to_come (ex_up e)). rewrite <- Hup. split; [by apply prefix_app | done]. }
  destruct (is_empty leftover) eqn:He.
  - destruct leftover; [|done]. apply Hgen; [|done]. cbn. by rewrite app_nil_r.
  - rewrite down_write_calm. apply Hgen; [|done]. cbn. by rewrite Hw.
Qed.

(** ** The run *)

(** What is written once the head was read. *)
Lemma respond_spec method data h k out sent e up :
  rs_decode_headers (upstream_decoder method data) = (ex_decoder e, Ok (Some (h, k))) ->
  awaiting out sent (ex_decoder e) e -> to_come up = data ++ to_come (ex_up e) ->
  match respond method h k e with
  | (e', Ok reuse) => exists more hb body, head_passed method up data (ex_decoder e) h k hb /\
      transferred method data more (ex_decoder e) h k body /\ to_come (ex_up e) = more ++ to_come (ex_up e') /\
      written (ex_up e') = sent /\ written (ex_down e') = out ++ hb ++ body /\
      flushed (ex_down e') = length (written (ex_down e')) /\
      reuse = match k with KCloseDelimited => false | _ => is_keep_alive h end
  | (e', Err x) => orderly (Err (A := unit) x) /\
      (written (ex_down e') = out \/
       exists hb body, head_passed method up data (ex_decoder e) h k hb /\ written (ex_down e') = out ++ hb ++ body /\
         broken_off (ex_decoder e) k (to_come up) data body)
  end.
Proof.
  intros Hd Hwait Ha. pose proof Hwait as (_ & Hq & Hw & Hs).
  destruct (response_head_state _ _ _ _ _ Hd) as (Hi & Hdec & Hb & _ & _).
  unfold respond, lift. unfold mbind at 1, st_bind at 1. rewrite (downstream_head_eq _ _ _ (rd_valid _ _ _ Hdec)).
  destruct (is_valid_reason_phrase _); [|by (split; [|left])].
  destruct (announced_length _ h k) as [len|x] eqn:Hlen; cbn [map_err mbind result_bind]; [|by (split; [|left])].
  unfold mbind at 1, st_bind at 1. destruct (encode_response_headers (downstream h len k)) as [hb|x] eqn:He; cbn [map_err]; [|by (split; [|left])].
  unfold mbind, st_bind. rewrite down_write_calm. cbn beta iota. rewrite down_flush_calm. cbn [ex_decoder ex_down ex_up with_down].
  set (e1 := with_down (pushed _) _).
  assert (Hhp : head_passed method up data (ex_decoder e) h k hb) by (split; [by exists (to_come (ex_up e))|done|by exists len]).
  assert (Hw1 : awaiting (out ++ hb) sent (ex_decoder e1) e1) by (split_and!; [done..|cbn; by rewrite Hw|done]).
  assert (Hfail : forall e' x, body_passed method data (ex_decoder e) h k (out ++ hb) sent (to_come (ex_up e)) (e', Err x) ->
    orderly (Err (A := unit) x) /\
    (written (ex_down e') = out \/
     exists hb body, head_passed method up data (ex_decoder e) h k hb /\ written (ex_down e') = out ++ hb ++ body /\
       broken_off (ex_decoder e) k (to_come up) data body)).
  { rewrite Ha. intros e' x (Ho & body & Hbw & Hds). split; [done|]. right. exists hb, body. split_and!; [done| |done]. by rewrite Hbw, app_assoc. }
  destruct k as [n| | | |].
  - pose proof (body_streamed method data h (KContentLength n) _ _ e1 Hd Hw1 I) as Hbody. cbn beta iota in Hbody.
    destruct (response_body_loop false e1) as [e2 [[]|x]]; [|by apply Hfail].
    destruct Hbody as (more & body & Ht & Hbw & Hm & Hs2). exists more, hb, body. split_and!; [done..| |done|done]. cbn. by rewrite Hbw, app_assoc.
  - pose proof (body_streamed method data h KChunked _ _ e1 Hd Hw1 I) as Hbody. cbn beta iota in Hbody.
    destruct (response_body_loop true e1) as [e2 [[]|x]]; [|by apply Hfail].
    destruct Hbody as (more & body & Ht & Hbw & Hm & Hs2). exists more, hb, body. split_and!; [done..| |done|done]. cbn. by rewrite Hbw, app_assoc.
  - destruct (close_delimited_spec method data h (out ++ hb) sent e1 Hw1) as [Hbody Hfl].
    destruct (close_delimited_transfer e1) as [e2 [[]|x]]; [|by apply Hfail].
    destruct Hbody as (more & body & Ht & Hbw & Hm & Hs2). exists more, hb, body.
    split_and!; [done..| |by apply Hfl|done]. by rewrite Hbw, app_assoc.
  - cbn. exists [], hb, []. rewrite !app_nil_r.
    assert (Hm := decode_after_response_head proxy_limits method data [] _ h KNone proxy_limits_ok Hd). cbv zeta in Hm. cbn [rs_decode_body] in Hm.
    rewrite app_nil_r in Hm. split_and!; [done| |done|done|by rewrite Hw|done|done].
    do 2 eexists. split; [exact Hm | done].
  - destruct (tunnel_body_fails false e1) as (e2 & x & -> & Hdn).
    { change (core_of_up e1) with (core_of_up e). by rewrite (rd_phase _ _ _ Hdec). }
    split; [done|]. right. exists hb, []. split_and!; [done| |done]. rewrite Hdn. cbn. by rewrite app_nil_r, Hw.
Qed.

Lemma stream_response_spec request method down up :
  passed_back request method down up (stream_response request method (exchange_start method down up)).
Proof.
  rewrite stream_response_eq. destruct (encode_request request) as [bs|x] eqn:He; [|by (split; [|left])].
  set (e1 := with_upstream _ _).
  assert (Hd1 : ex_decoder e1 = upstream_decoder method []) by done.
  pose proof (response_head_decodes method _ e1 Hd1 eq_refl) as Hhead. pose proof (response_head_down e1) as Hdn.
  destruct (response_head_loop e1) as [e2 [[h k]|x]]; cbn [fst] in Hdn.
  2: { split; [done|]. left. by rewrite Hdn. }
  destruct Hhead as (data & Hd & Hw & Ha). pose proof (respond_spec method data h k _ _ e2 up Hd Hw Ha) as Hr.
  destruct (respond method h k e2) as [e3 [reuse|x]].
  - destruct Hr as (more & hb & body & H1 & H2 & H3 & H4 & H5 & H6 & H7).
    exists bs, data, more, (ex_decoder e2), h, k, hb, body. split_and!; [done..| |done|done|done|done].
    change (to_come up) with (to_come (ex_up e1)). by rewrite Ha, H3.
  - destruct Hr as [Ho Hr]. split; [done|]. destruct Hr as [Hr | (hb & body & H1 & H2 & H3)]; [by left|].
    right. by exists data, (ex_decoder e2), h, k, hb, body.
Qed.

(** The head that a stream of bytes begins with is one. *)
Lemma head_unique method data data2 rest rest2 d1 d2 r r2 :
  data ++ rest = data2 ++ rest2 ->
  rs_decode_headers (upstream_decoder method data) = (d1, Ok (Some r)) ->
  rs_decode_headers (upstream_decoder method data2) = (d2, Ok (Some r2)) -> r = r2.
Proof.
  intros He H1 H2.
  pose proof (rs_decode_headers_ext rest _ _ _ (upstream_decoder_inv method data) H1) as E1.
  pose proof (rs_decode_headers_ext rest2 _ _ _ (upstream_decoder_inv method data2) H2) as E2.
  change (rs_extend rest (upstream_decoder method data)) with (upstream_decoder method (data ++ rest)) in E1.
  change (rs_extend rest2 (upstream_decoder method data2)) with (upstream_decoder method (data2 ++ rest2)) in E2.
  rewrite He, E2 in E1. congruence.
Qed.

Lemma announced_bound is_head (d1 : Rs) h k n :
  rs_head_decoded h k d1 -> c_limits (rs_core d1) = proxy_limits ->
  announced_length is_head h k = Ok (Some n) -> n <= u64_MAX.
Proof.
  intros Hdec Hl. unfold announced_length. destruct k as [m| | | |]; try done.
  - intros [= <-]. pose proof (rd_kind _ _ _ Hdec) as Hk. rewrite Hl in Hk. cbn in Hk. unfold u64_MAX. lia.
  - destruct is_head; [|done]. intros [[_ ?]|(m & [= <-] & Hne & Hf)]%parse_content_length_iff; [done|].
    destruct (cl_values _) as [|v vs]; [done|]. apply Forall_cons_iff in Hf as [[Hp Hf] _].
    destruct (cl_parts v) as [|p ps]; [done|]. apply Forall_cons_iff in Hf as [[_ Hn] _].
    by apply from_str_radix_bound in Hn.
Qed.

(** What the client has to admit. *)
Definition client_admits (limits : DecoderLimits) (h : ResponseHead.t) (ds : list bytes) : Prop :=
  limits_ok limits /\ fits limits (Response.headers (downstream h None KChunked)) /\
  blen (concat ds) <= max_body_size limits /\ 16 <= max_chunk_line_size limits.

Lemma kept_fields_app h p : forallb p (ResponseHead.headers h) = true -> forallb p (kept_fields h) = true.
Proof. rewrite !forallb_forall. intros Hp f [Hin _]%List.filter_In. by apply Hp. Qed.

Lemma downstream_streamed limits method data d1 h hb :
  rs_decode_headers (upstream_decoder method data) = (d1, Ok (Some (h, KChunked))) ->
  encode_response_headers (downstream h None KChunked) = Ok hb ->
  limits_ok limits -> fits limits (Response.headers (downstream h None KChunked)) ->
  streamed limits (Some method) (downstream h None KChunked).
Proof.
  intros Hd He Hl Hf. destruct (response_head_state _ _ _ _ _ Hd) as (_ & Hdec & _ & Hm & _).
  pose proof (rd_valid _ _ _ Hdec) as Hv. unfold ResponseHead.valid in Hv. rewrite !andb_true_iff in Hv.
  destruct Hv as [[[_ Hc] Hr] Hh]. destruct (rd_framing _ _ _ Hdec) as (l & hs & _ & Hk).
  apply response_framing_iff in Hk. rewrite Hm in Hk.
  destruct (_ || _) eqn:Hb in Hk; [by destruct Hk|]. destruct (_ && _) eqn:Ht in Hk; [by destruct Hk|].
  split; [|exact Hb|exact Ht]. split; [|apply Hdec| |done|done].
  - unfold Response.valid. cbn [downstream Response.from_raw_parts Response.version Response.status_code Response.reason_phrase Response.headers].
    rewrite Hc, Hr, forallb_app, kept_fields_app by done. done.
  - cbn [downstream Response.from_raw_parts Response.headers]. rewrite forallb_app, kept_fields_app by apply Hdec. done.
Qed.

Lemma downstream_read limits method data d1 h hb ds rest d :
  rs_decode_headers (upstream_decoder method data) = (d1, Ok (Some (h, KChunked))) ->
  encode_response_headers (downstream h None KChunked) = Ok hb ->
  Forall (fun x : bytes => x <> []) ds -> client_admits limits h ds ->
  rs_idle limits (Some method) (hb ++ (flat_map chunk ds ++ last_chunk_bytes []) ++ rest) d ->
  exists d', rs_decode (D := NoCompression) d = (d', Ok (Some (streamed_response (downstream h None KChunked) (concat ds)))) /\
    rs_idle limits None rest d'.
Proof.
  intros Hd He Hds (Hl & Hf & Hb & Hc) Hid.
  apply (chunked_response_step limits (Some method) d _ ds hb rest He); try done.
  - by eapply downstream_streamed.
  - unfold chunked_headers. cbn [downstream Response.from_raw_parts Response.headers].
    assert (Ht : te_tokens (kept_fields h ++ framing_header None KChunked) = [B "chunked"]).
    { unfold te_tokens. rewrite flat_map_app. fold (te_tokens (kept_fields h)). rewrite te_tokens_absent; [done|].
      apply existsb_filter_nil, kept_no_framing. by right. }
    rewrite Ht. by vm_compute.
Qed.

(** ** Writes that fail *)

Section AnyNetwork.
Context (wire : Wire).

(** What was written to the client, and to the upstream. *)
Definition outputs (e : Exchange) : list bytes := [written (ex_down e); written (ex_up e)].

Abbreviation wired := (Io.wired outputs).

Lemma on_down_wired {A} (m m0 : st Socket BoxedError A) :
  (forall k, written k `prefix_of` written (fst (m0 k)) /\
     (m k = m0 k \/ snd (m k) = Err (Throw IoFailed) /\ written (fst (m k)) `prefix_of` written (fst (m0 k)))) ->
  wired (on_down m) (on_down m0).
Proof. apply wired_part; intros; by repeat constructor. Qed.

Lemma on_up_wired {A} (m m0 : st Socket BoxedError A) :
  (forall k, written k `prefix_of` written (fst (m0 k)) /\
     (m k = m0 k \/ snd (m k) = Err (Throw IoFailed) /\ written (fst (m k)) `prefix_of` written (fst (m0 k)))) ->
  wired (on_up m) (on_up m0).
Proof. apply wired_part; intros; by repeat constructor. Qed.

Lemma down_write_wired data : wired (down_write (wire := wire) data) (down_write (wire := calm) data).
Proof. apply on_down_wired. intros k. apply write_all_cut. Qed.

Lemma down_flush_wired : wired (down_flush (wire := wire)) (down_flush (wire := calm)).
Proof. apply on_down_wired. intros k. apply flush_cut. Qed.

Lemma send_request_wired data : wired (send_request (wire := wire) data) (send_request (wire := calm) data).
Proof.
  apply wired_bind; [|intros _]; apply on_up_wired; intros k; [apply write_all_cut | apply flush_cut].
Qed.

Lemma upstream_read_silent e : outputs (fst (upstream_read e)) = outputs e.
Proof.
  unfold upstream_read, outputs. destruct (_ =? 0); [done|]. unfold on_part, mbind, st_bind, receive.
  destruct (on_core _ _) as [d [[]|x]]; [|by destruct x]. destruct (read _ _) as [k o] eqn:Hr.
  apply read_written in Hr as [Hw _]. destruct o; cbn; by rewrite Hw.
Qed.

Lemma on_response_silent {A} (m : st Rs Error.t A) : wired (on_response m) (on_response m).
Proof. apply wired_silent. intros e. unfold on_response, on_part. by destruct (m _) as [d r]. Qed.

Lemma response_head_wired : wired response_head_loop response_head_loop.
Proof.
  intros e. unfold response_head_loop. apply wired_loop. apply wired_bind; [apply wired_silent, upstream_read_silent|].
  intros n. destruct (n =? 0); [by apply wired_silent|]. apply wired_bind; [apply on_response_silent|].
  intros [x|]; by apply wired_silent.
Qed.

Lemma complete_wired u ts : wired (response_complete (wire := wire) u ts) (response_complete (wire := calm) u ts).
Proof.
  apply wired_bind; [|intros _; by apply wired_silent]. destruct u; [apply down_write_wired | by apply wired_silent].
Qed.

Lemma body_round_wired u : wired (response_body_round (wire := wire) u) (response_body_round (wire := calm) u).
Proof.
  intros e. unfold wired_at, response_body_round. destruct (rs_peek_body (ex_decoder e)) as [data|]; apply wired_bind_at; try apply on_response_silent.
  - apply down_write_wired.
  - intros _. apply wired_bind; [apply on_response_silent|]. intros [| |ts]; [by apply wired_silent..|apply complete_wired].
  - intros [| |ts]; [by apply wired_silent..|apply complete_wired].
Qed.

Lemma body_loop_wired u : wired (response_body_loop (wire := wire) u) (response_body_loop (wire := calm) u).
Proof.
  intros e. unfold response_body_loop. apply wired_loop. clear e. intros e. unfold wired_at, response_read_round. apply wired_bind_at.
  - apply wired_loop, body_round_wired.
  - intros [|]; [by apply wired_silent|]. apply wired_bind; [apply wired_silent, upstream_read_silent|].
    intros n. destruct (n =? 0); by apply wired_silent.
Qed.

Lemma raw_round_wired : wired (raw_round (wire := wire)) (raw_round (wire := calm)).
Proof.
  intros e. unfold wired_at, raw_round. destruct (read _ _) as [k o] eqn:Hr. apply read_written in Hr as [Hw _]. apply wired_bind_at.
  - apply wired_silent_at. unfold outputs. cbn. by rewrite Hw.
  - intros _. destruct o as [data| |]; try by apply wired_silent. destruct (is_empty data); [by apply wired_silent|].
    apply wired_bind; [apply down_write_wired | intros _; by apply wired_silent].
Qed.

Lemma close_delimited_wired : wired (close_delimited_transfer (wire := wire)) (close_delimited_transfer (wire := calm)).
Proof.
  intros e. unfold wired_at, close_delimited_transfer. destruct (rs_take_remaining (ex_decoder e)) as [d leftover]. apply wired_bind_at; [by apply wired_silent_at|].
  intros _. apply wired_bind; [destruct (is_empty leftover); [by apply wired_silent | apply down_write_wired]|].
  intros _. apply wired_bind; [|intros _; apply down_flush_wired]. intros e1. apply wired_loop, raw_round_wired.
Qed.

(** The run on any network is the run on the calm one, or it is cut off. *)
Lemma stream_response_wired request method :
  wired (stream_response (wire := wire) request method) (stream_response (wire := calm) request method).
Proof.
  unfold stream_response. apply wired_bind; [apply wired_lift|]. intros bs. apply wired_bind; [apply send_request_wired|].
  intros _. apply wired_bind; [apply response_head_wired|]. intros [h k]. apply wired_bind; [apply wired_lift|].
  intros r. apply wired_bind; [apply wired_lift|]. intros hb. apply wired_bind; [apply down_write_wired|].
  intros _. apply wired_bind; [apply down_flush_wired|]. intros _.
  assert (Hrest : forall u b, wired (_ ← response_body_loop (wire := wire) u; _ ← down_flush (wire := wire); mret (b : bool))
    (_ ← response_body_loop (wire := calm) u; _ ← down_flush (wire := calm); mret b)).
  { intros u b. apply wired_bind; [apply body_loop_wired|]. intros _. apply wired_bind; [apply down_flush_wired|]. intros _. by apply wired_silent. }
  destruct k; [apply Hrest..| | |apply Hrest].
  - apply wired_bind; [apply close_delimited_wired|]. intros _. by apply wired_silent.
  - apply wired_bind; [by apply wired_silent|]. intros _. apply wired_bind; [apply down_flush_wired|]. intros _. by apply wired_silent.
Qed.
End AnyNetwork.

(** ** The theorems *)

(** C18: What the reverse proxy sends back for a request, whatever the pieces the
    response arrives in and wherever it is interrupted.  When no write fails: a
    run that succeeds has sent the encoded request, and has written to its
    client, and flushed, the head of the upstream without the fields of the
    connection and with the proxy's framing, and behind it the body that
    [decode] returns for the same bytes - cut into chunks for a chunked body, and
    up to the end of the stream for one that ends with the connection, which is
    not used again.  A run that fails ends with an error, not a panic, and has
    written nothing, or a head and, of a chunked body, whole chunks without the last
    one, so that the client cannot take it for complete; of a body that ends
    with the connection it has written a beginning, which to the client looks
    like all of it.  When writes can fail, the run is that one, or it ends with the
    failed write and has written to each side a beginning of what it would
    have.  And a client that admits a chunked response reads its body from what
    the proxy writes, for a response without trailers. *)
Theorem proxied_response {wire : Wire} request method down up :
  let run := stream_response (wire := calm) request method (exchange_start method down up) in
  passed_back request method down up run /\
  cut_off outputs (stream_response (wire := wire) request method (exchange_start method down up)) run /\
  forall limits data d1 h hb ds rest d,
    rs_decode_headers (upstream_decoder method data) = (d1, Ok (Some (h, KChunked))) ->
    encode_response_headers (downstream h None KChunked) = Ok hb ->
    Forall (fun x : bytes => x <> []) ds -> client_admits limits h ds ->
    rs_idle limits (Some method) (hb ++ (flat_map chunk ds ++ last_chunk_bytes []) ++ rest) d ->
    exists d', rs_decode (D := NoCompression) d = (d', Ok (Some (streamed_response (downstream h None KChunked) (concat ds)))) /\
      rs_idle limits None rest d'.
Proof.
  split; [apply stream_response_spec|]. split; [by apply stream_response_wired|].
  intros limits data d1 h hb ds rest d. apply downstream_read.
Qed.

(** C20: A response whose length the proxy announces is never passed on: when
    the head of the upstream leads to a Content-Length that is not zero - for a
    body of known length, or for the Content-Length of a response to HEAD - and
    its status can have a body, the run fails with an error and the client
    receives nothing, because [encode_response_headers] holds the field against
    the body of the head, which is empty. *)
Theorem announced_length_refused request method down up data rest d1 h k n :
  to_come up = data ++ rest ->
  rs_decode_headers (upstream_decoder method data) = (d1, Ok (Some (h, k))) ->
  announced_length (eq_ignore_ascii_case method (B "HEAD")) h k = Ok (Some n) -> 0 < n ->
  status_has_body (ResponseHead.status_code h) = true ->
  exists e' x, stream_response request method (exchange_start method down up) = (e', Err (Throw x)) /\
    written (ex_down e') = written down.
Proof.
  intros Hup Hd Ha Hn Hs. destruct (response_head_state _ _ _ _ _ Hd) as (_ & Hdec & _ & _ & Hl).
  pose proof (announced_bound _ _ _ _ _ Hdec Hl Ha) as Hmax.
  assert (Hno : forall data2 d2 h2 k2 hb, head_passed method up data2 d2 h2 k2 hb -> False).
  { intros data2 d2 h2 k2 hb [[rest2 Hup2] Hd2 (len & Ha2 & He)]. rewrite Hup in Hup2.
    pose proof (head_unique _ _ _ _ _ _ _ _ _ Hup2 Hd Hd2) as [= <- <-]. rewrite Ha in Ha2. injection Ha2 as <-.
    by apply (length_refused h n k hb). }
  pose proof (stream_response_spec request method down up) as Hp.
  destruct (stream_response _ _ _) as [e' [reuse|x]].
  - destruct Hp as (bs & data2 & more & d2 & h2 & k2 & hb & body & _ & _ & Hp & _). by destruct (Hno _ _ _ _ _ Hp).
  - destruct Hp as [Ho [Hw | (data2 & d2 & h2 & k2 & hb & body & Hp & _)]]; [|by destruct (Hno _ _ _ _ _ Hp)].
    destruct x as [x| |]; [by exists e', x | done..].
Qed.

(** ** Runs *)

Definition get_request : Request.t :=
  Request.from_raw_parts (B "GET") (B "/") (B "HTTP/1.1") [(B "Host", B "up"); (B "Connection", B "keep-alive")] None.

Definition idle_socket : Socket := {| inbox := []; written := []; flushed := 0 |}.

Definition upstream_socket (pieces : list bytes) : Socket :=
  {| inbox := map Arrived pieces; written := []; flushed := 0 |}.

Definition chunked_head : bytes :=
  B "HTTP/1.1 200 OK" ++ CRLF ++ B "Keep-Alive: 5" ++ CRLF ++ B "X-A: b" ++ CRLF ++ B "Transfer-Encoding: chunked" ++ CRLF ++ CRLF.

(** Two chunks of the upstream are three here: the second arrived in two pieces. *)
Example chunked_passed_on :
  let o := stream_response get_request (B "GET") (exchange_start (B "GET") idle_socket
    (upstream_socket [chunked_head ++ B "3" ++ CRLF ++ B "abc" ++ CRLF; B "4" ++ CRLF ++ B "de"; B "fg" ++ CRLF ++ last_chunk])) in
  snd o = Ok true /\
  written (ex_down (fst o)) = B "HTTP/1.1 200 OK" ++ CRLF ++ B "X-A: b" ++ CRLF ++ B "Transfer-Encoding: chunked" ++ CRLF ++ CRLF
    ++ flat_map chunk [B "abc"; B "de"; B "fg"] ++ last_chunk.
Proof. split; vm_compute; reflexivity. Qed.

Lemma proxied_response_witness :
  exists h d1 hb d', rs_decode_headers (upstream_decoder (B "GET") chunked_head) = (d1, Ok (Some (h, KChunked))) /\
    rs_decode (D := NoCompression) (set_request_method (B "GET") (rs_extend (hb ++ (flat_map chunk [B "abc"] ++ last_chunk_bytes []) ++ B "HTTP")
      (rs_new NoCompression_new DecoderLimits_default)))
    = (d', Ok (Some (streamed_response (downstream h None KChunked) (B "abc")))) /\ rs_idle DecoderLimits_default None (B "HTTP") d'.
Proof.
  assert (Hc : match rs_decode_headers (upstream_decoder (B "GET") chunked_head) with
    | (_, Ok (Some (h, KChunked))) => is_ok (encode_response_headers (downstream h None KChunked)) = true /\
        ResponseHead.headers h = [(B "Keep-Alive", B "5"); (B "X-A", B "b"); (B "Transfer-Encoding", B "chunked")]
    | _ => False
    end) by (vm_compute; by split).
  destruct (rs_decode_headers _) as [d1 [[[h []]|]|]] eqn:Hd; try contradiction.
  destruct Hc as [He Hh]. destruct (encode_response_headers _) as [hb|] eqn:Hb; [|discriminate].
  destruct (proxied_response get_request (B "GET") idle_socket idle_socket) as (_ & _ & Hread).
  specialize (Hread DecoderLimits_default chunked_head d1 h hb [B "abc"] (B "HTTP")
    (set_request_method (B "GET") (rs_extend (hb ++ (flat_map chunk [B "abc"] ++ last_chunk_bytes []) ++ B "HTTP")
      (rs_new NoCompression_new DecoderLimits_default))) Hd Hb).
  destruct Hread as (d' & Hr & Hid).
  - by repeat constructor.
  - split_and!; [apply limits_ok_default| |vm_compute; discriminate|vm_compute; discriminate].
    apply fits_check. unfold downstream, kept_fields. cbn [Response.from_raw_parts Response.headers]. rewrite Hh. vm_compute. reflexivity.
  - split; try reflexivity.
    pose proof (rs_extend_inv (hb ++ (flat_map chunk [B "abc"] ++ last_chunk_bytes []) ++ B "HTTP") _
      (rs_new_inv NoCompression_new DecoderLimits_default limits_ok_default)) as [Hc _]. by split.
  - exists h, d1, hb, d'. split; [reflexivity|]. split; [exact Hr | exact Hid].
Defined.

Definition plain_head : bytes := B "HTTP/1.1 200 OK" ++ CRLF ++ B "Content-Length: 2" ++ CRLF ++ CRLF.

(** An ordinary response never reaches the client. *)
Example plain_response_lost :
  let o := stream_response get_request (B "GET") (exchange_start (B "GET") idle_socket (upstream_socket [plain_head ++ B "ok"])) in
  snd o = Err (Throw (Encoding (EncodeError.ContentLengthMismatch 2 0))) /\ written (ex_down (fst o)) = [].
Proof. split; vm_compute; reflexivity. Qed.

Lemma announced_length_refused_witness :
  exists e' x, stream_response get_request (B "GET")
      (exchange_start (B "GET") idle_socket (upstream_socket [plain_head ++ B "ok"])) = (e', Err (Throw x)) /\
    written (ex_down e') = [].
Proof.
  assert (Hd : exists d1 h, rs_decode_headers (upstream_decoder (B "GET") plain_head) = (d1, Ok (Some (h, KContentLength 2))) /\
    ResponseHead.status_code h = 200) by (do 2 eexists; split; vm_compute; reflexivity).
  destruct Hd as (d1 & h & Hd & Hs).
  apply (announced_length_refused get_request (B "GET") idle_socket (upstream_socket [plain_head ++ B "ok"])
    plain_head (B "ok") d1 h (KContentLength 2) 2 eq_refl Hd eq_refl eq_refl). rewrite Hs. reflexivity.
Defined.

(** An interim response is taken for the response, and the connection goes back
    to the pool with the response itself still to come. *)
Definition interim_head : bytes := B "HTTP/1.1 103 Early Hints" ++ CRLF ++ CRLF.

Example interim_response_pooled :
  let o := stream_response get_request (B "GET") (exchange_start (B "GET") idle_socket
    (upstream_socket [interim_head; B "HTTP/1.1 204 No Content" ++ CRLF ++ CRLF])) in
  snd o = Ok true /\ to_come (ex_up (fst o)) = B "HTTP/1.1 204 No Content" ++ CRLF ++ CRLF /\
  written (ex_down (fst o)) = interim_head.
Proof. split_and!; vm_compute; reflexivity. Qed.
End ProxyResponse.
