(* ===== verification/F32.v ===== *)
(** * [f32] as far as the examples use it

    [str::parse::<f32>] and the comparisons.  A finite value is a whole number
    of units of 2^-149, the smallest positive value of the type, so that it is
    compared exactly. *)
From S2P Require Import Prelude RustStd Validate RustStr.

Inductive f32 : Type :=
  | NaN
  | Infinite (negative : bool)
  | Finite (negative : bool) (units : N).

(** [hi], or the next one: [rest] of [whole] is left over, half goes to the even. *)
Definition round_half_even (hi rest whole : N) : N :=
  if (whole <? 2 * rest) || ((2 * rest =? whole) && N.odd hi) then hi + 1 else hi.

(** The value nearest to [num / den] with 24 bits, in units; [None] is too large. *)
Definition nearest_f32 (num den : N) : option N :=
  let q := num * 2 ^ 149 / den in
  let r := (num * 2 ^ 149) mod den in
  let shift := N.size q - 24 in
  let units := round_half_even (N.shiftr q shift) (N.land q (N.ones shift) * den + r) (2 ^ shift * den) * 2 ^ shift in
  if 2 ^ 277 <=? units then None else Some units.

(** Digits of a number: their value after [acc], how many, and what follows. *)
Fixpoint decimal_digits (acc : N) (n : nat) (s : str) : N * nat * str :=
  match s with
  | b :: s' => if is_ascii_digit b then decimal_digits (acc * 10 + (b2n b - 48)) (S n) s' else (acc, n, s)
  | [] => (acc, n, s)
  end.

(** The sign of a number or of an exponent. *)
Definition strip_sign (s : str) : bool * str :=
  match s with
  | b :: s' => if b =b "-" then (true, s') else if b =b "+" then (false, s') else (false, s)
  | [] => (false, s)
  end.

(** [e] and a number, or nothing. *)
Definition exponent (s : str) : option Z :=
  match s with
  | [] => Some 0%Z
  | b :: s' =>
      if (b =b "e") || (b =b "E") then
        let '(negative, digits) := strip_sign s' in
        let '(e, n, rest) := decimal_digits 0 0 digits in
        if (n =? 0)%nat || negb (is_empty rest) then None
        else Some (if negative then (- Z.of_N e)%Z else Z.of_N e)
      else None
  end.

(** Digits with a point somewhere, and an exponent. *)
Definition parse_number (negative : bool) (s : str) : option f32 :=
  let '(m, n, rest) := decimal_digits 0 0 s in
  let '(m, places, rest) :=
    match strip_prefix (B ".") rest with
    | Some frac => decimal_digits m 0 frac
    | None => (m, O, rest)
    end in
  if (n + places =? 0)%nat then None
  else
    e ← exponent rest;
    let e10 := (e - Z.of_nat places)%Z in
    Some (match (if (0 <=? e10)%Z then nearest_f32 (m * 10 ^ Z.to_N e10) 1 else nearest_f32 m (10 ^ Z.to_N (- e10))) with
          | Some units => Finite negative units
          | None => Infinite negative
          end).

(** [parse::<f32>]. *)
Definition parse_f32 (s : str) : option f32 :=
  let '(negative, s) := strip_sign s in
  match parse_number negative s with
  | Some f => Some f
  | None =>
      if eq_ignore_ascii_case s (B "inf") || eq_ignore_ascii_case s (B "infinity") then Some (Infinite negative)
      else if eq_ignore_ascii_case s (B "nan") then Some NaN
      else None
  end.

(** [>] and [==]: a NaN is neither; the two zeros are equal. *)
Definition f32_place (f : f32) : option Z :=
  match f with
  | NaN => None
  | Infinite negative => Some (if negative then (- 2 ^ 300)%Z else (2 ^ 300)%Z)
  | Finite negative units => Some (if negative then (- Z.of_N units)%Z else Z.of_N units)
  end.

Definition f32_gt (a b : f32) : bool :=
  match f32_place a, f32_place b with Some x, Some y => (y <? x)%Z | _, _ => false end.
Definition f32_eqb (a b : f32) : bool :=
  match f32_place a, f32_place b with Some x, Some y => (x =? y)%Z | _, _ => false end.

Definition f32_zero : f32 := Finite false 0.
Definition f32_one : f32 := Finite false (2 ^ 149).

Example parses :
  parse_f32 (B "1") = Some f32_one /\ parse_f32 (B ".5") = Some (Finite false (2 ^ 148)) /\
  parse_f32 (B "-0.") = Some (Finite true 0) /\ parse_f32 (B "1e-1") = parse_f32 (B "0.1") /\
  parse_f32 (B "0.1") = Some (Finite false (13421773 * 2 ^ 122)) /\ parse_f32 (B "1e39") = Some (Infinite false) /\
  parse_f32 (B "+NaN") = Some NaN /\ parse_f32 (B ".") = None /\ parse_f32 (B "1_0") = None /\ parse_f32 [] = None.
Proof. split_and!; vm_compute; reflexivity. Qed.
