(* ===== verification/DateFormat.v ===== *)
(** * The date of a response ([format_http_date] of the two server examples)

    The seconds since 1970 as an IMF-fixdate.  Up to the year 9999 the text is
    the date of that second: the crate's own parser reads the day, the time and
    the weekday back from it. *)
From S2P Require Import Prelude RustStd RustStr Date.

Module DateFormat.

Definition DAYS : list str := [B "Sun"; B "Mon"; B "Tue"; B "Wed"; B "Thu"; B "Fri"; B "Sat"].
Definition MONTHS : list str :=
  [B "Jan"; B "Feb"; B "Mar"; B "Apr"; B "May"; B "Jun"; B "Jul"; B "Aug"; B "Sep"; B "Oct"; B "Nov"; B "Dec"].

(** [i32] and its display. *)
Definition i32_wrap (z : Z) : Z := ((z + 2147483648) mod 4294967296 - 2147483648)%Z.
Definition show_int (z : Z) : str := if (z <? 0)%Z then B "-" ++ show_dec (Z.to_N (- z)) else show_dec (Z.to_N z).

Definition is_leap_year (year : Z) : bool :=
  ((Z.rem year 4 =? 0) && negb (Z.rem year 100 =? 0) || (Z.rem year 400 =? 0))%Z.

(** The loop over the years: every round takes 365 days or more. *)
Fixpoint year_loop (fuel : nat) (year remaining_days : Z) : Z * Z :=
  match fuel with
  | O => (year, remaining_days)
  | S fuel =>
      let days_in_year := if is_leap_year year then 366%Z else 365%Z in
      if (remaining_days <? days_in_year)%Z then (year, remaining_days)
      else year_loop fuel (i32_wrap (year + 1)) (remaining_days - days_in_year)
  end.

(** The loop over the months from the month [i] on; [month] is 0 if it does not break. *)
Fixpoint month_loop (i : nat) (days_in_months : list Z) (remaining_days : Z) : nat * Z :=
  match days_in_months with
  | [] => (O, remaining_days)
  | days :: rest =>
      if (remaining_days <? days)%Z then (i, remaining_days)
      else month_loop (S i) rest (remaining_days - days)
  end.

Definition days_in_months (year : Z) : list Z :=
  if is_leap_year year then [31; 29; 31; 30; 31; 30; 31; 31; 30; 31; 30; 31]%Z
  else [31; 28; 31; 30; 31; 30; 31; 31; 30; 31; 30; 31]%Z.

(** A day number, in the range of [i64] for every [u64] timestamp. *)
Definition format_http_date (timestamp : N) : str :=
  let days_since_epoch := timestamp / 86400 in
  let day_of_week := N.to_nat ((days_since_epoch + 4) mod 7) in
  let '(year, remaining_days) := year_loop (S (N.to_nat (days_since_epoch / 365))) 1970 (Z.of_N days_since_epoch) in
  let '(month, remaining_days) := month_loop 0 (days_in_months year) remaining_days in
  let day := Z.to_N (remaining_days + 1) in
  let time_of_day := timestamp mod 86400 in
  nth day_of_week DAYS [] ++ B ", " ++ show_pad 2 day ++ B " " ++ nth month MONTHS [] ++ B " " ++ show_int year ++ B " "
  ++ show_pad 2 (time_of_day / 3600) ++ B ":" ++ show_pad 2 (time_of_day mod 3600 / 60) ++ B ":"
  ++ show_pad 2 (time_of_day mod 60) ++ B " GMT".

(** ** The calendar

    A reference that does not count year by year. *)

(** The leap days before the year [y]. *)
Definition leaps_before (y : Z) : Z := ((y - 1) / 4 - (y - 1) / 100 + (y - 1) / 400)%Z.

(** The days from 1970-01-01 to the first day of [y]. *)
Definition days_before_year (y : Z) : Z := (365 * (y - 1970) + leaps_before y - leaps_before 1970)%Z.

(** The days from the first day of the year to the first of [month], by the
    lengths the parser of the crate checks. *)
Definition days_before_month (month year : N) : N :=
  fold_right N.add 0 (map (fun m => Date.max_day_in_month (N.of_nat m) year) (seq 1 (N.to_nat month - 1))).

(** The second that a date names. *)
Definition day_number (d : Date.HttpDate) : Z :=
  (days_before_year (Z.of_N (Date.year d)) + Z.of_N (days_before_month (Date.month d) (Date.year d))
   + Z.of_N (Date.day d) - 1)%Z.

Definition second_number (d : Date.HttpDate) : Z :=
  (day_number d * 86400 + Z.of_N (Date.hour d) * 3600 + Z.of_N (Date.minute d) * 60 + Z.of_N (Date.second d))%Z.

(** 1970-01-01 was a Thursday. *)
Definition weekday (day_number : Z) : Date.DayOfWeek :=
  nth (Z.to_nat ((day_number + 4) mod 7)) [Date.Sunday; Date.Monday; Date.Tuesday; Date.Wednesday; Date.Thursday; Date.Friday; Date.Saturday] Date.Sunday.

Example dates :
  format_http_date 784111777 = B "Sun, 06 Nov 1994 08:49:37 GMT" /\ second_number Date.example_date = 784111777%Z /\
  format_http_date 253402300799 = B "Fri, 31 Dec 9999 23:59:59 GMT" /\ format_http_date 951782400 = B "Tue, 29 Feb 2000 00:00:00 GMT".
Proof. split_and!; vm_compute; reflexivity. Qed.

(** ** The loops *)

#[local] Ltac Zify.zify_post_hook ::= Z.to_euclidean_division_equations.

Definition days_in_year (y : Z) : Z := if is_leap_year y then 366%Z else 365%Z.

Lemma year_length y : (0 < y)%Z -> days_before_year (y + 1) = (days_before_year y + days_in_year y)%Z.
Proof.
  intros Hy. unfold days_before_year, days_in_year, leaps_before, is_leap_year. replace (y + 1 - 1)%Z with y by lia.
  assert (H4 : (y / 4 = (y - 1) / 4 + if Z.rem y 4 =? 0 then 1 else 0)%Z) by (destruct (Z.rem y 4 =? 0)%Z eqn:E; lia).
  assert (H100 : (y / 100 = (y - 1) / 100 + if Z.rem y 100 =? 0 then 1 else 0)%Z) by (destruct (Z.rem y 100 =? 0)%Z eqn:E; lia).
  assert (H400 : (y / 400 = (y - 1) / 400 + if Z.rem y 400 =? 0 then 1 else 0)%Z) by (destruct (Z.rem y 400 =? 0)%Z eqn:E; lia).
  rewrite H4, H100, H400.
  destruct (Z.rem y 4 =? 0)%Z eqn:E4, (Z.rem y 100 =? 0)%Z eqn:E100, (Z.rem y 400 =? 0)%Z eqn:E400; cbn [andb orb negb]; lia.
Qed.

Lemma days_in_year_bound y : (365 <= days_in_year y <= 366)%Z.
Proof. unfold days_in_year. destruct (is_leap_year y); lia. Qed.

Lemma year_loop_spec fuel y r :
  (1970 <= y <= 9999)%Z -> (0 <= r)%Z -> (r < 365 * Z.of_nat fuel)%Z -> (days_before_year y + r < days_before_year 10000)%Z ->
  let '(y', r') := year_loop fuel y r in
  (1970 <= y' <= 9999)%Z /\ (0 <= r' < days_in_year y')%Z /\ (days_before_year y' + r' = days_before_year y + r)%Z.
Proof.
  revert y r. induction fuel as [|fuel IH]; intros y r Hy Hr Hf Hd; [lia|]. cbn [year_loop]. fold (days_in_year y).
  pose proof (days_in_year_bound y) as Hb. pose proof (year_length y ltac:(lia)) as Hl.
  destruct (r <? days_in_year y)%Z eqn:E; [split_and!; lia|].
  assert (Hw : i32_wrap (y + 1) = (y + 1)%Z) by (unfold i32_wrap; lia). rewrite Hw.
  assert (Hne : y <> 9999%Z) by (intros ->; change (9999 + 1)%Z with 10000%Z in Hl; lia).
  specialize (IH (y + 1)%Z (r - days_in_year y)%Z ltac:(lia) ltac:(lia) ltac:(lia) ltac:(lia)).
  destruct (year_loop fuel _ _) as [y' r']. destruct IH as (H1 & H2 & H3). split_and!; lia.
Qed.

Lemma month_loop_spec i l r :
  (0 <= r < fold_right Z.add 0 l)%Z ->
  exists n r', month_loop i l r = ((i + n)%nat, r') /\ (n < length l)%nat /\
    (0 <= r' < nth n l 0)%Z /\ (r = fold_right Z.add 0 (take n l) + r')%Z.
Proof.
  revert i r. induction l as [|d l IH]; intros i r Hr; cbn [fold_right month_loop] in *; [lia|].
  destruct (r <? d)%Z eqn:E.
  - exists 0%nat, r. cbn. split_and!; [by rewrite Nat.add_0_r|lia|lia|lia|lia].
  - destruct (IH (S i) (r - d)%Z ltac:(lia)) as (n & r' & -> & Hn & Hr' & He). exists (S n), r'. cbn.
    split_and!; [by rewrite Nat.add_succ_r|lia|lia|lia|lia].
Qed.

(** The table of the months is what the parser checks a day against. *)
Lemma days_in_months_eq y :
  (0 < y)%Z -> days_in_months y = map (fun m => Z.of_N (Date.max_day_in_month (N.of_nat m) (Z.to_N y))) (seq 1 12).
Proof.
  intros Hy.
  assert (Hl : is_leap_year y = ((Z.to_N y mod 4 =? 0) && (negb (Z.to_N y mod 100 =? 0) || (Z.to_N y mod 400 =? 0)))).
  { unfold is_leap_year.
    assert (forall n, (0 < n)%N -> (Z.rem y (Z.of_N n) =? 0)%Z = (Z.to_N y mod n =? 0)) as Hm.
    { intros n Hn. apply eq_true_iff_eq. rewrite Z.eqb_eq, N.eqb_eq. rewrite Z.rem_mod_nonneg by lia.
      replace y with (Z.of_N (Z.to_N y)) at 1 by lia. rewrite <- N2Z.inj_mod. lia. }
    pose proof (Hm 4 ltac:(lia)) as H4. pose proof (Hm 100 ltac:(lia)) as H100. pose proof (Hm 400 ltac:(lia)) as H400.
    cbn [Z.of_N] in H4, H100, H400. rewrite H4, H100, H400.
    assert (Hx : (Z.to_N y mod 400 =? 0) = true -> (Z.to_N y mod 4 =? 0) = true) by lia.
    destruct (Z.to_N y mod 4 =? 0), (Z.to_N y mod 100 =? 0), (Z.to_N y mod 400 =? 0); try done; by destruct (Hx eq_refl). }
  unfold days_in_months. rewrite Hl. cbn [map seq N.of_nat Pos.of_succ_nat Pos.succ]. unfold Date.max_day_in_month. cbv zeta.
  by destruct (_ && _).
Qed.

Lemma show_year y : (1970 <= y <= 9999)%Z -> show_int y = show_pad 4 (Z.to_N y).
Proof.
  intros Hy.
  assert (Hc : forallb (fun a => forallb (fun b => (length (show_dec (N.of_nat a * 100 + N.of_nat b)) =? 4)%nat) (seq 0 100)) (seq 10 90) = true)
    by (vm_compute; reflexivity).
  rewrite forallb_forall in Hc. specialize (Hc (Z.to_nat (y / 100)) ltac:(apply in_seq; lia)).
  rewrite forallb_forall in Hc. specialize (Hc (Z.to_nat (y mod 100)) ltac:(apply in_seq; lia)). apply Nat.eqb_eq in Hc.
  replace (N.of_nat (Z.to_nat (y / 100)) * 100 + N.of_nat (Z.to_nat (y mod 100))) with (Z.to_N y) in Hc by lia.
  unfold show_int, show_pad. destruct (y <? 0)%Z eqn:E; [lia|]. by rewrite Hc.
Qed.

Lemma weekday_name n : nth (N.to_nat ((n + 4) mod 7)) DAYS [] = Date.short_name (weekday (Z.of_N n)).
Proof.
  unfold weekday. replace (Z.to_nat ((Z.of_N n + 4) mod 7)) with (N.to_nat ((n + 4) mod 7)) by lia.
  assert (Hl : (N.to_nat ((n + 4) mod 7) < 7)%nat) by lia. destruct (N.to_nat _) as [|[|[|[|[|[|[|m]]]]]]]; try done. lia.
Qed.

Lemma month_text n : (n < 12)%nat -> nth n MONTHS [] = Date.month_name (N.of_nat n + 1).
Proof.
  intros Hn. assert (Hc : forallb (fun n => nth n MONTHS [] =s Date.month_name (N.of_nat n + 1)) (seq 0 12) = true) by (vm_compute; reflexivity).
  rewrite forallb_forall in Hc. apply beqs_eq, Hc, in_seq. lia.
Qed.

Lemma take_months y n :
  (0 < y)%Z -> (n < 12)%nat ->
  fold_right Z.add 0%Z (take n (days_in_months y)) = Z.of_N (days_before_month (N.of_nat n + 1) (Z.to_N y)) /\
  nth n (days_in_months y) 0%Z = Z.of_N (Date.max_day_in_month (N.of_nat n + 1) (Z.to_N y)).
Proof.
  intros Hy Hn. rewrite (days_in_months_eq y Hy). unfold days_before_month.
  replace (N.to_nat (N.of_nat n + 1) - 1)%nat with n by lia. split.
  - rewrite firstn_map, take_seq, Nat.min_l by lia. generalize (seq 1 n). intros l.
    induction l as [|m l IH]; [done|]. cbn [map fold_right]. rewrite IH. lia.
  - rewrite (nth_indep _ _ (Z.of_N (Date.max_day_in_month (N.of_nat 0) (Z.to_N y)))) by (rewrite length_map, length_seq; lia).
    rewrite (map_nth (fun m => Z.of_N (Date.max_day_in_month (N.of_nat m) (Z.to_N y)))), seq_nth by done.
    by replace (N.of_nat (1 + n)) with (N.of_nat n + 1) by lia.
Qed.

Lemma months_sum y : (0 < y)%Z -> fold_right Z.add 0%Z (days_in_months y) = days_in_year y.
Proof. intros _. unfold days_in_months, days_in_year. by destruct (is_leap_year y). Qed.

(** C26: The Date field of the two servers, for every second before the year
    10000: the text is an IMF-fixdate that the crate's own parser reads back, and
    the date read names that very second, counted with the Gregorian calendar
    (whole years by their leap days, months by the lengths the parser checks),
    and the right weekday. *)
Theorem http_date_exact t :
  t < 253402300800 ->
  exists d, format_http_date t = Date.fmt d /\ Date.valid d = true /\ Date.parse (format_http_date t) = Ok d /\
    second_number d = Z.of_N t /\ Date.day_of_week d = weekday (day_number d).
Proof.
  intros Ht. unfold format_http_date. set (n := t / 86400).
  assert (Hn : n < 2932897) by (unfold n; lia).
  assert (H0 : days_before_year 1970 = 0%Z) by reflexivity. assert (H9 : days_before_year 10000 = 2932897%Z) by reflexivity.
  pose proof (year_loop_spec (S (N.to_nat (n / 365))) 1970 (Z.of_N n) ltac:(lia) ltac:(lia) ltac:(lia) ltac:(lia)) as Hyear.
  destruct (year_loop _ _ _) as [y r]. destruct Hyear as (Hy & Hr & Hsum).
  rewrite <- (months_sum y ltac:(lia)) in Hr. destruct (month_loop_spec 0 (days_in_months y) r Hr) as (m & r' & Hm & Hlen & Hr' & Hrm).
  rewrite Hm. cbn [Nat.add].
  assert (H12 : (m < 12)%nat) by (unfold days_in_months in Hlen; by destruct (is_leap_year y)).
  destruct (take_months y m ltac:(lia) H12) as [Htake Hnth]. rewrite Htake in Hrm. rewrite Hnth in Hr'.
  set (d := Date.mkHttpDate (weekday (Z.of_N n)) (Z.to_N (r' + 1)) (N.of_nat m + 1) (Z.to_N y)
    (t mod 86400 / 3600) (t mod 86400 mod 3600 / 60) (t mod 86400 mod 60)).
  assert (Hd : day_number d = Z.of_N n).
  { unfold day_number. cbn [Date.year Date.month Date.day d]. replace (Z.of_N (Z.to_N y)) with y by lia. lia. }
  assert (Hv : Date.valid d = true).
  { unfold Date.valid, d. cbn [Date.month Date.day Date.year Date.hour Date.minute Date.second]. unfold u16_MAX.
    rewrite !andb_true_iff, !N.leb_le. split_and!; lia. }
  assert (Hf : nth (N.to_nat ((n + 4) mod 7)) DAYS [] ++ B ", " ++ show_pad 2 (Z.to_N (r' + 1)) ++ B " " ++ nth m MONTHS [] ++ B " "
    ++ show_int y ++ B " " ++ show_pad 2 (t mod 86400 / 3600) ++ B ":" ++ show_pad 2 (t mod 86400 mod 3600 / 60) ++ B ":"
    ++ show_pad 2 (t mod 86400 mod 60) ++ B " GMT" = Date.fmt d).
  { by rewrite weekday_name, (month_text m H12), (show_year y Hy). }
  rewrite Hf. exists d. split_and!; [done|done|by apply Date.parse_fmt_date| |by rewrite Hd].
  unfold second_number. rewrite Hd. unfold n, d. cbn [Date.hour Date.minute Date.second]. lia.
Qed.

Lemma http_date_exact_witness :
  exists d, format_http_date 4107542399 = Date.fmt d /\ second_number d = 4107542399%Z /\ Date.year d = 2100.
Proof.
  destruct (http_date_exact 4107542399 ltac:(reflexivity)) as (d & Hf & _ & Hp & Hs & _). exists d. split; [exact Hf|]. split; [exact Hs|].
  assert (Hc : match Date.parse (format_http_date 4107542399) with Ok d => Date.year d = 2100 | Err _ => False end) by (vm_compute; reflexivity).
  rewrite Hp in Hc. exact Hc.
Defined.
End DateFormat.
