(* ===== verification/Site.v ===== *)
(** * What the two server examples answer

    [build_response] and what it calls, and [compressor.rs], which both servers
    have word for word.  The pages of a server are its [Site]; the compressors
    are other crates, the arguments [gzip], [brotli] and [zstd]. *)
From S2P Require Import Prelude RustStd Errors Validate Trailer Framing FramingFacts StatusCode Head Buffer BodyDecoder Compression Message.
From S2P Require Import DecoderCore CoreFacts ResponseDecoder Encoder EncoderFacts HeadRoundTrip LengthRoundTrip RequestRoundTrip ResponseRoundTrip Forward RustStr F32 DateFormat.

Module Site.

(** ** [compressor.rs] *)

(** The quality of an element; one that is no number is zero. *)
Definition coding_quality (part : str) : str * f32 :=
  let part := trim part in
  match find_sub (B ";q=") part with
  | Some pos => (trim (take pos part), default f32_zero (parse_f32 (trim (drop (pos + 3) part))))
  | None => (part, f32_one)
  end.

Definition encodings (accept_encoding : str) : list (str * f32) :=
  List.filter (fun e => f32_gt (snd e) f32_zero) (map coding_quality (split "," accept_encoding)).

Definition priority (enc : str) : option N :=
  if enc =s B "zstd" then Some 3
  else if enc =s B "br" then Some 2
  else if (enc =s B "gzip") || (enc =s B "x-gzip") || (enc =s B "*") then Some 1
  else None.

(** One round of the loop that looks for the best. *)
Definition better (best : option (str * f32 * N)) (e : str * f32) : option (str * f32 * N) :=
  let '(enc, q) := e in
  match priority enc with
  | None => best
  | Some p =>
      match best with
      | None => Some (enc, q, p)
      | Some (_, best_q, best_p) =>
          if f32_gt q best_q || (f32_eqb q best_q && (best_p <? p)) then Some (enc, q, p) else best
      end
  end.

Definition select_encoding (accept_encoding : str) : option str :=
  match fold_left better (encodings accept_encoding) None with
  | Some (enc, _, _) => Some (if enc =s B "zstd" then B "zstd" else if enc =s B "br" then B "br" else B "gzip")
  | None => None
  end.

Definition encoding_header (encoding : str) : str :=
  if encoding =s B "zstd" then B "zstd"
  else if encoding =s B "br" then B "br"
  else if (encoding =s B "gzip") || (encoding =s B "x-gzip") then B "gzip"
  else B "identity".

(** By quality, then zstd before br before gzip; an asterisk stands for gzip,
    also where gzip is excluded. *)
Example selected :
  select_encoding (B "gzip, br;q=0.5, zstd;q=0") = Some (B "gzip") /\ select_encoding (B "gzip, br, zstd") = Some (B "zstd") /\
  select_encoding (B "br;q=x, identity") = None.
Proof. split_and!; vm_compute; reflexivity. Qed.

Example star_selects_gzip : select_encoding (B "gzip;q=0, *") = Some (B "gzip").
Proof. vm_compute. reflexivity. Qed.

Section Compressors.
(** One-shot compression; the error is its text. *)
Context (gzip brotli zstd : bytes -> result str bytes).

Definition compress_body (data : bytes) (encoding : str) : result CompressionError.t bytes :=
  if encoding =s B "gzip" then map_err CompressionError.Internal (gzip data)
  else if encoding =s B "br" then map_err CompressionError.Internal (brotli data)
  else if encoding =s B "zstd" then map_err CompressionError.Internal (zstd data)
  else Ok data.

(** ** The response *)

(** The body to send and the coding it got. *)
Definition coded_body (body : bytes) (encoding : option str) : bytes * option str :=
  match encoding with
  | Some enc =>
      match compress_body body enc with
      | Ok compressed => if blen compressed <? blen body then (compressed, Some (encoding_header enc)) else (body, None)
      | Err _ => (body, None)
      end
  | None => (body, None)
  end.

(** The pages of a server. *)
Record site := {
  home_page : bytes;
  info_page : N -> bytes;
  server_name : str
}.

Context (pages : site).

Definition build_compressed_response (status : StatusCode) (content_type : str) (body : bytes) (date : str)
    (is_head : bool) (encoding : option str) : result EncodeError.t Response.t :=
  let '(final_body, content_encoding) := coded_body body encoding in
  r ← Response.with_status status;
  r ← Response.add_header (B "Date") date r;
  r ← Response.add_header (B "Content-Type") content_type r;
  r ← Response.add_header (B "Content-Length") (show_dec (blen final_body)) r;
  r ← Response.add_header (B "Server") (server_name pages) r;
  r ← Response.add_header (B "Vary") (B "Accept-Encoding") r;
  r ← match content_encoding with
      | Some enc => Response.add_header (B "Content-Encoding") enc r
      | None => Ok r
      end;
  Ok (Response.set_omit_body is_head (Response.set_body final_body r)).

Definition add_connection_headers (response : Response.t) (should_keep_alive : bool) : result EncodeError.t Response.t :=
  if should_keep_alive then Ok response else Response.add_header (B "Connection") (B "close") response.

(** The page of [/echo]. *)
Definition echo_page (request : Request.t) : bytes :=
  B "Method: " ++ Request.method request ++ [LF] ++ B "URI: " ++ Request.uri request ++ [LF]
  ++ B "Version: " ++ Request.version request ++ [LF; LF] ++ B "Headers:" ++ [LF]
  ++ flat_map (fun '(name, value) => B "  " ++ name ++ B ": " ++ value ++ [LF]) (Request.headers request)
  ++ match Request.body_bytes request with
     | Some req_body =>
         if is_empty req_body then []
         else [LF] ++ B "Body (" ++ show_dec (blen req_body) ++ B " bytes):" ++ [LF]
              ++ (if utf8_valid req_body then req_body else B "[binary data]")
     | None => []
     end.

(** [now] is the system clock, in seconds since 1970. *)
Definition build_response (now : N) (request : Request.t) (should_keep_alive : bool) : result EncodeError.t Response.t :=
  let date := DateFormat.format_http_date now in
  let is_head := eq_ignore_ascii_case (Request.method request) (B "HEAD") in
  let encoding :=
    match get_header (B "Accept-Encoding") request with Some v => select_encoding v | None => None end in
  let uri := Request.uri request in
  response ←
    if uri =s B "/" then
      build_compressed_response {| code := 200; canonical_reason := B "OK" |} (B "text/html; charset=utf-8")
        (home_page pages) date is_head encoding
    else if uri =s B "/info" then
      build_compressed_response {| code := 200; canonical_reason := B "OK" |} (B "application/json")
        (info_page pages now) date is_head encoding
    else if uri =s B "/echo" then
      if is_head then
        r ← Response.with_status {| code := 200; canonical_reason := B "OK" |};
        r ← Response.add_header (B "Date") date r;
        r ← Response.add_header (B "Content-Type") (B "text/plain; charset=utf-8") r;
        r ← Response.add_header (B "Content-Length") (B "0") r;
        r ← Response.add_header (B "Server") (server_name pages) r;
        Ok (Response.set_omit_body true r)
      else
        build_compressed_response {| code := 200; canonical_reason := B "OK" |} (B "text/plain; charset=utf-8")
          (echo_page request) date false encoding
    else
      build_compressed_response {| code := 404; canonical_reason := B "Not Found" |} (B "text/plain")
        (B "404 Not Found" ++ [LF]) date is_head encoding;
  add_connection_headers response should_keep_alive.
End Compressors.

(** ** Every request has an answer *)

(** Visible characters and inner spaces. *)
Definition plain (b : byte) : bool := within 32 126 b.

Lemma plain_sendable name s :
  is_valid_header_name name = true -> forallb plain s = true -> ows_trimmed s = true -> sendable (name, s) = true.
Proof.
  intros Hn Hs Ho. unfold sendable, header_ok. cbn [fst snd]. rewrite Hn, Ho, utf8_ascii; [|by revert Hs; apply forallb_impl; intros b; byte_solve b].
  rewrite !andb_true_r. cbn [andb]. unfold is_valid_field_value. revert Hs. apply forallb_impl. intros b. byte_solve b.
Qed.

Lemma digits_plain s : forallb is_ascii_digit s = true -> forallb plain s = true.
Proof. apply forallb_impl. intros b. byte_solve b. Qed.

Lemma date_sendable now : sendable (B "Date", DateFormat.format_http_date now) = true.
Proof.
  unfold DateFormat.format_http_date. destruct (DateFormat.year_loop _ _ _) as [y r]. destruct (DateFormat.month_loop _ _ _) as [m r'].
  set (text := _ ++ _). assert (Hx : exists t e, text = t ++ B " GMT" /\ forallb plain t = true /\ (exists b t', t = b :: t' /\ not_ows b = true) /\ e = tt).
  { assert (Hday : forall n, forallb plain (nth n DateFormat.DAYS []) = true /\ forallb plain (nth n DateFormat.MONTHS []) = true).
    { intros n. do 13 (destruct n as [|n]; [done|]). by destruct n. }
    assert (Hp : forall w n, forallb plain (show_pad w n) = true) by (intros; apply digits_plain, show_pad_digits).
    assert (Hi : forall z, forallb plain (DateFormat.show_int z) = true).
    { intros z. unfold DateFormat.show_int. destruct (z <? 0)%Z; rewrite ?forallb_app, (digits_plain _ (show_dec_digits _)); done. }
    unfold text. rewrite !app_assoc. do 2 eexists. split; [reflexivity|]. split; [|split; [|reflexivity]].
    - rewrite !forallb_app, !Hp, Hi, !(proj1 (Hday _)), !(proj2 (Hday _)). done.
    - rewrite <- !app_assoc. assert (Hn : forall n : nat, exists b t', nth n DateFormat.DAYS [] ++ B ", " = b :: t' /\ not_ows b = true).
      { intros n. do 7 (destruct n as [|n]; [by do 2 eexists|]). destruct n; by do 2 eexists. }
      destruct (Hn (N.to_nat ((now / 86400 + 4) mod 7))) as (b & t' & He & Hb).
      rewrite app_assoc, He. cbn [app]. by do 2 eexists. }
  destruct Hx as (t & _ & -> & Ht & (b & t' & -> & Hb) & _). apply plain_sendable; [done|by rewrite forallb_app, Ht|].
  cbn [app ows_trimmed]. rewrite Hb. change (b :: t' ++ B " GMT") with ((b :: t') ++ B " GM" ++ ["T"%byte]).
  by rewrite app_assoc, last_snoc_default.
Qed.

(** The page before it is compressed. *)
Definition page (pages : site) (now : N) (m : Request.t) : bytes :=
  if Request.uri m =s B "/" then home_page pages
  else if Request.uri m =s B "/info" then info_page pages now
  else if Request.uri m =s B "/echo" then
    if eq_ignore_ascii_case (Request.method m) (B "HEAD") then [] else echo_page m
  else B "404 Not Found" ++ [LF].

(** What an answer is, to the encoder and to the peer. *)
Record answer_ok (pages : site) (now : N) (m : Request.t) (keep : bool) (r : Response.t) : Prop := {
  an_valid : Response.valid r = true;
  an_version : Response.version r = B "HTTP/1.1";
  an_status : Response.status_code r = 200 \/ Response.status_code r = 404;
  an_reason : utf8_valid (Response.reason_phrase r) = true;
  an_headers : forallb sendable (Response.headers r) = true;
  an_lengths : cl_values (Response.headers r) = [show_dec (body_len (Response.body r))];
  an_coding : has_header (B "Transfer-Encoding") r = false;
  an_omit : Response.omit_body r = eq_ignore_ascii_case (Request.method m) (B "HEAD");
  an_body : Response.omit_body r = false -> is_some (Response.body r) = true;
  an_size : body_len (Response.body r) <= blen (page pages now m);
  an_close : is_keep_alive r = keep
}.

Definition fields (date content_type : str) (len : N) (name : str) (more : list (str * str)) : list (str * str) :=
  [(B "Date", date); (B "Content-Type", content_type); (B "Content-Length", show_dec len); (B "Server", name)] ++ more.

Definition coding_fields (enc : option str) : list (str * str) :=
  (B "Vary", B "Accept-Encoding") :: match enc with Some e => [(B "Content-Encoding", e)] | None => [] end.

Definition closing (keep : bool) : list (str * str) := if keep then [] else [(B "Connection", B "close")].

Lemma encoding_header_sendable enc : sendable (B "Content-Encoding", encoding_header enc) = true.
Proof. unfold encoding_header. by repeat match goal with |- context [if ?b then _ else _] => destruct b end. Qed.

Lemma add_field name v r :
  sendable (name, v) = true -> Response.add_header name v r = Ok (Response.with_headers (Response.headers r ++ [(name, v)]) r).
Proof.
  intros Hs. unfold Response.add_header. rewrite (header_ok_checked name v); [done|].
  unfold sendable in Hs. rewrite !andb_true_iff in Hs. tauto.
Qed.

Lemma coded_body_spec gzip brotli zstd body enc :
  let '(b, e) := coded_body gzip brotli zstd body enc in
  blen b <= blen body /\ forall x, e = Some x -> sendable (B "Content-Encoding", x) = true.
Proof.
  unfold coded_body. destruct enc as [enc|]; [|done]. destruct (compress_body _ _ _ _ _) as [c|x]; [|done].
  destruct (blen c <? blen body) eqn:E; [|done]. split; [lia|]. intros x [= <-]. apply encoding_header_sendable.
Qed.

Section Answers.
Context (gzip brotli zstd : bytes -> result str bytes) (pages : site).
Hypothesis Hname : sendable (B "Server", server_name pages) = true.

Definition answer (status : N) (reason date content_type : str) (body : option bytes) (omit : bool)
    (more : list (str * str)) : Response.t :=
  {| Response.version := B "HTTP/1.1"; Response.status_code := status; Response.reason_phrase := reason;
     Response.headers := fields date content_type (body_len body) (server_name pages) more;
     Response.body := body; Response.omit_body := omit |}.

Lemma build_compressed_eq status ctype body now is_head enc :
  is_ok (Response.with_status status) = true -> sendable (B "Content-Type", ctype) = true ->
  exists final e, coded_body gzip brotli zstd body enc = (final, e) /\
    build_compressed_response gzip brotli zstd pages status ctype body (DateFormat.format_http_date now) is_head enc =
      Ok (answer (code status) (canonical_reason status) (DateFormat.format_http_date now) ctype (Some final) is_head (coding_fields e)).
Proof.
  intros Hs Hc. unfold build_compressed_response. pose proof (coded_body_spec gzip brotli zstd body enc) as Hb.
  destruct (coded_body _ _ _ body enc) as [final e]. destruct Hb as [_ He]. exists final, e. split; [done|].
  unfold Response.with_status, Response.with_version in *. cbn [negb] in *. destruct (negb (is_valid_status_code _)); [done|].
  destruct (negb (is_valid_reason_phrase _)); [done|].
  change (negb (is_valid_protocol_version (B "HTTP/1.1"))) with false. cbv iota. cbn [mbind result_bind].
  rewrite (add_field _ _ _ (date_sendable now)). cbn [mbind result_bind]. rewrite (add_field _ _ _ Hc). cbn [mbind result_bind].
  rewrite (add_field _ _ _ (length_header_sendable _)). cbn [mbind result_bind]. rewrite (add_field _ _ _ Hname). cbn [mbind result_bind].
  rewrite add_field by done. cbn [mbind result_bind]. destruct e as [x|]; [rewrite (add_field _ _ _ (He x eq_refl))|]; done.
Qed.

Lemma answer_is_ok now m keep status reason date ctype body omit more :
  status = 200 /\ reason = B "OK" \/ status = 404 /\ reason = B "Not Found" ->
  sendable (B "Date", date) = true -> sendable (B "Content-Type", ctype) = true ->
  (exists e, more = coding_fields e /\ forall x, e = Some x -> sendable (B "Content-Encoding", x) = true) \/ more = [] ->
  omit = eq_ignore_ascii_case (Request.method m) (B "HEAD") -> (omit = false -> is_some body = true) ->
  body_len body <= blen (page pages now m) ->
  answer_ok pages now m keep (answer status reason date ctype body omit (more ++ closing keep)).
Proof.
  intros Hs Hd Hc Hmore Ho Hbody Hsize.
  assert (Hheaders : forallb sendable (fields date ctype (body_len body) (server_name pages) (more ++ closing keep)) = true).
  { unfold fields. cbn [app forallb]. rewrite Hd, Hc, Hname, length_header_sendable, forallb_app. cbn [andb].
    apply andb_true_iff. split; [|by destruct keep].
    destruct Hmore as [(e & -> & He) | ->]; [|done]. destruct e as [x|]; [|done]. cbn [coding_fields forallb]. by rewrite (He x eq_refl). }
  split; cbn [answer Response.version Response.status_code Response.reason_phrase Response.headers Response.body Response.omit_body]; try done.
  - unfold Response.valid. cbn [answer Response.version Response.status_code Response.reason_phrase Response.headers].
    rewrite (sendable_header_ok _ Hheaders). by destruct Hs as [[-> ->] | [-> ->]].
  - destruct Hs as [[-> _] | [-> _]]; auto.
  - by destruct Hs as [[_ ->] | [_ ->]].
  - destruct Hmore as [([x|] & -> & _) | ->], keep; reflexivity.
  - destruct Hmore as [([x|] & -> & _) | ->], keep; reflexivity.
  - destruct Hmore as [([x|] & -> & _) | ->], keep; reflexivity.
Qed.

Lemma closing_eq r keep :
  add_connection_headers r keep = Ok (Response.with_headers (Response.headers r ++ closing keep) r).
Proof. unfold add_connection_headers, closing. destruct keep; [rewrite app_nil_r; by destruct r | by rewrite add_field]. Qed.

(** The server answers every request. *)
Lemma build_response_ok now m keep :
  exists r, build_response gzip brotli zstd pages now m keep = Ok r /\ answer_ok pages now m keep r.
Proof.
  unfold build_response. set (enc := match get_header _ m with Some v => select_encoding v | None => None end).
  set (date := DateFormat.format_http_date now). set (is_head := eq_ignore_ascii_case _ (B "HEAD")).
  assert (Hpage : forall status ctype body h,
    code status = 200 /\ canonical_reason status = B "OK" \/ code status = 404 /\ canonical_reason status = B "Not Found" ->
    is_ok (Response.with_status status) = true -> sendable (B "Content-Type", ctype) = true ->
    h = is_head -> blen body <= blen (page pages now m) ->
    exists r, (response ← build_compressed_response gzip brotli zstd pages status ctype body date h enc;
               add_connection_headers response keep) = Ok r /\ answer_ok pages now m keep r).
  { intros status ctype body h Hs Hok Hc -> Hsize.
    destruct (build_compressed_eq status ctype body now is_head enc Hok Hc) as (final & e & Hb & He).
    unfold date. rewrite He. cbn [mbind result_bind]. rewrite closing_eq. eexists. split; [reflexivity|].
    pose proof (coded_body_spec gzip brotli zstd body enc) as Hcb. rewrite Hb in Hcb. destruct Hcb as [Hle Hx].
    apply (answer_is_ok now m keep (code status) (canonical_reason status) _ ctype (Some final) is_head (coding_fields e));
      try done; [apply date_sendable | by left; exists e | cbn; unfold body_len in *; lia]. }
  unfold page in Hpage. destruct (Request.uri m =s B "/"); [by apply Hpage; auto|].
  destruct (Request.uri m =s B "/info"); [by apply Hpage; auto|].
  destruct (Request.uri m =s B "/echo") eqn:He; [|by apply Hpage; auto].
  fold is_head in Hpage |- *. destruct is_head eqn:Hh; [|by apply Hpage; auto].
  change (Response.with_status _) with (Ok (E := EncodeError.t) (Response.with_headers [] {| Response.version := B "HTTP/1.1"; Response.status_code := 200;
    Response.reason_phrase := B "OK"; Response.headers := []; Response.body := None; Response.omit_body := false |})).
  cbn [mbind result_bind]. unfold date. rewrite (add_field _ _ _ (date_sendable now)). cbn [mbind result_bind]. rewrite add_field by done.
  cbn [mbind result_bind]. rewrite add_field by done. cbn [mbind result_bind]. rewrite (add_field _ _ _ Hname). cbn [mbind result_bind].
  rewrite closing_eq. eexists. split; [reflexivity|].
  apply (answer_is_ok now m keep 200 (B "OK") _ (B "text/plain; charset=utf-8") None true []); try done;
    [auto | apply date_sendable | auto | by apply N.le_0_l].
Qed.
End Answers.

(** ** The peer reads the answer *)

Section Read.
Context {pages : site} {now : N} {m : Request.t} {keep : bool} {r : Response.t}.
Hypothesis Hr : answer_ok pages now m keep r.
Hypothesis Hpage : blen (page pages now m) <= usize_MAX.

Lemma answer_fits_memory : body_len (Response.body r) <= usize_MAX.
Proof. pose proof (an_size _ _ _ _ _ Hr). lia. Qed.

Lemma answer_encodes : exists bs, encode_response r = Ok bs.
Proof.
  unfold encode_response. assert (check_response true r = Ok tt) as ->; [|by eexists].
  pose proof Hr as [Hv Hver Hst Hre Hh Hl Hte _ _ _ _]. unfold Response.valid in Hv. rewrite !andb_true_iff in Hv.
  destruct Hv as [[[Hv1 Hv2] Hv3] Hv4].
  assert (Hf : validate_response_fields r = Ok tt).
  { unfold validate_response_fields. rewrite (version_for_encode _ Hv1), Hv2, (validate_headers_ok _ Hv4). cbn [negb].
    destruct (Response.reason_phrase r); [done|]. cbn in Hv3 |- *. by rewrite Hv3. }
  unfold check_response. rewrite Hf. cbn [mbind result_bind]. rewrite Hte. cbn [andb].
  assert (Hs : is_1xx_or_204 (Response.status_code r) = false /\ (Response.status_code r =? 205) = false /\
    response_status_has_body (Response.status_code r) = true) by (by destruct Hst as [-> | ->]).
  destruct Hs as (-> & -> & ->). cbn [andb negb].
  destruct (plain_lengths_ok (body_len (Response.body r)) (Response.headers r) None) as (v & Hfold & Hval).
  { rewrite Hl. constructor; [|constructor]. apply show_dec_plain. exact answer_fits_memory. }
  { by left. }
  unfold validate_content_length_headers. rewrite Hfold. cbn [mbind result_bind].
  unfold Response.body_bytes. destruct Hval as [-> | ->]; [done|]. unfold check_content_length_mismatch.
  by rewrite N.eqb_refl, andb_false_r.
Qed.

(** A client that admits the answer. *)
Definition admits_answer (limits : DecoderLimits) (r : Response.t) : Prop :=
  limits_ok limits /\ fits limits (Response.headers r) /\ body_len (Response.body r) <= max_body_size limits.

Lemma answer_no_auto_length : response_auto_length r = [].
Proof.
  unfold response_auto_length, should_auto_emit_content_length_for_response.
  assert (has_header (B "Content-Length") r = true) as ->; [|by rewrite andb_false_r].
  destruct (has_header (B "Content-Length") r) eqn:E; [done|]. unfold has_header in E. apply cl_values_absent in E.
  pose proof (an_lengths _ _ _ _ _ Hr) as Hl. change (headers r) with (Response.headers r) in E. by rewrite E in Hl.
Qed.

Lemma answer_receivable limits :
  admits_answer limits r -> Request.method m <> B "CONNECT" ->
  eq_ignore_ascii_case (Request.method m) (B "HEAD") = (Request.method m =s B "HEAD") ->
  response_receivable limits (Some (Request.method m)) r.
Proof.
  intros (Hl & Hf & Hb) Hc Hh. pose proof Hr as [Hv _ Hst Hre Hsend Hlen Hte Ho Hbody _ _].
  assert (Hs : response_status_has_body (Response.status_code r) = true) by (by destruct Hst as [-> | ->]).
  split; rewrite ?answer_no_auto_length, ?app_nil_r.
  - by split.
  - unfold written_body. destruct (_ && _); [|by apply N.le_0_l]. unfold Response.body_bytes, body_len in *. by destruct (Response.body r).
  - exact answer_fits_memory.
  - unfold opens_tunnel, method_is. destruct (Request.method m =s B "CONNECT") eqn:E; [by apply beqs_eq in E|done].
  - unfold bodyless, method_is. rewrite <- Hh, <- Ho. destruct (Response.omit_body r) eqn:E.
    + cbn [orb]. unfold written_body, Response.is_body_omitted. by rewrite E, andb_false_r.
    + change (status_has_body (Response.status_code r)) with (response_status_has_body (Response.status_code r)).
      rewrite Hs. cbn [orb negb]. split_and!; [done|done|]. right. by apply Hbody.
Qed.
End Read.
End Site.
