(* ===== verification/Server.v ===== *)
(** * The server example ([examples/http11_server/src/main.rs])

    A connection: the loop that reads, decodes with the streaming interface and
    answers.  TLS, the listener and the command line are not part of the
    repository; [handle_tls_client] is [handle_client] on another stream. *)
From S2P Require Import Prelude RustStd Errors Validate Framing StatusCode Head Message Buffer BodyDecoder Compression.
From S2P Require Import DecoderCore RequestDecoder Encoder RustStr Io Site.

Module Server.

Abbreviation Rq := (RequestDecoder NoCompression).

Definition DEFAULT_KEEP_ALIVE_TIMEOUT : N := 60.
Definition DEFAULT_MAX_REQUESTS : N := 1000.

(** [ConnectionState]; the timeout is one of the [Silence]s of the socket. *)
Record ConnectionState := { request_count : N; max_requests : N }.

Record StreamingState := { head : option RequestHead.t; body_kind : option BodyKind; body : option bytes }.

Definition StreamingState_new : StreamingState := {| head := None; body_kind := None; body := None |}.

(** The locals of [handle_client]. *)
Record Connection := { decoder : Rq; state : StreamingState; conn_state : ConnectionState; socket : Socket }.

Definition set_state (x : StreamingState) (s : Connection) : Connection :=
  {| decoder := decoder s; state := x; conn_state := conn_state s; socket := socket s |}.
Definition set_io (ds : Rq * Socket) (s : Connection) : Connection :=
  {| decoder := fst ds; state := state s; conn_state := conn_state s; socket := snd ds |}.

(** ** The body *)

(** The accumulator [acc] of [stream_body] goes with the decoder. *)
Definition on_acc {A} (m : st Rq Error.t A) : st (Rq * bytes) Error.t A :=
  fun '(d, acc) => let '(d', r) := m d in ((d', acc), r).

(** One round of the loop of [stream_body]: [Break] is the value returned. *)
Definition stream_round : st (Rq * bytes) Error.t (flow bool) := fun '(d, acc) =>
  match rq_peek_body d with
  | Some data =>
      (_ ← modify (fun '(d, acc) => (d, acc ++ data));
       p ← on_acc (rq_consume_body (blen data));
       match p with
       | ProgressComplete _ => mret (Break true)
       | Advanced | NeedData => mret Continue
       end) (d, acc)
  | None =>
      (p ← on_acc rq_progress;
       match p with
       | ProgressComplete _ => mret (Break true)
       | Advanced => mret Continue
       | NeedData => mret (Break false)
       end) (d, acc)
  end.

(** [stream_body]: [buf] is emptied when the body is taken up, and holds it again
    at every return that is no error. *)
Definition stream_body (body_kind : BodyKind) : st (Rq * option bytes) Error.t bool := fun '(d, buf) =>
  match body_kind with
  | KNone | KCloseDelimited | KTunnel => ((d, None), Ok true)
  | KContentLength _ | KChunked =>
      let '((d', acc), r) := loop (S (length (rq_remaining d))) stream_round (d, default [] buf) in
      match r with
      | Ok complete => ((d', Some acc), Ok complete)
      | Err e => ((d', None), Err e)
      end
  end.

Section Serving.
Context (gzip brotli zstd : bytes -> result str bytes).
Context (pages : Site.site).
(** The system clock when the request with this number is answered. *)
Context (clock : N -> N).
(** The network of the connection. *)
Context {wire : Wire}.

(** ** A request *)

(** 501 for CONNECT. *)
Definition not_implemented : result EncodeError.t Response.t :=
  r ← Response.with_status {| code := 501; canonical_reason := B "Not Implemented" |};
  r ← Response.add_header (B "Content-Length") (B "0") r;
  Response.add_header (B "Connection") (B "close") r.

(** The request that is built from the head. *)
Definition rebuild_request (h : RequestHead.t) (body : option bytes) : result EncodeError.t Request.t :=
  request ← Request.with_version (RequestHead.method h) (RequestHead.uri h) (RequestHead.version h);
  request ← foldM (fun r '(name, value) => Request.add_header name value r) request (RequestHead.headers h);
  Ok (match body with Some b => Request.set_body b request | None => request end).

(** [writer.write_all] and [writer.flush]. *)
Definition on_socket {A} (m : st Socket BoxedError A) : st Connection BoxedError A :=
  on_part socket (fun k s => set_io (decoder s, k) s) id m.

Definition send (data : bytes) : st Connection BoxedError unit :=
  _ ← on_socket (write_all data);
  on_socket flush.

Definition count_request : st Connection BoxedError unit :=
  modify (fun s => {| decoder := decoder s; state := state s; socket := socket s;
    conn_state := {| request_count := request_count (conn_state s) + 1; max_requests := max_requests (conn_state s) |} |}).

(** [serve_request]: whether the connection goes on. *)
Definition serve_request : st Connection BoxedError bool :=
  s ← get;
  h ← unwrap (head (state s));
  let kind := body_kind (state s) in
  _ ← modify (set_state {| head := None; body_kind := None; body := body (state s) |});
  match kind with
  | Some KTunnel =>
      response ← lift (map_err Encoding not_implemented);
      data ← lift (map_err Encoding (encode_response response));
      _ ← send data;
      mret false
  | _ =>
      let body := body (state s) in
      request ← lift (map_err Encoding (rebuild_request h body));
      _ ← modify (set_state StreamingState_new);
      _ ← count_request;
      c ← gets conn_state;
      let should_keep_alive := is_keep_alive request && (request_count c <? max_requests c) in
      response ← lift (map_err Encoding
        (Site.build_response gzip brotli zstd pages (clock (request_count c)) request should_keep_alive));
      data ← lift (map_err Encoding (encode_response response));
      _ ← send data;
      mret should_keep_alive
  end.

(** ** The connection *)

(** How [handle_client] ends: its loop is left, or it returns after an answer. *)
Inductive ending : Type := Left | Returned.

Definition READ_CHUNK : N := 8192.

(** The head, unless it is there: whether there is one. *)
Definition take_head : st Connection BoxedError bool := fun s =>
  match head (state s) with
  | Some _ => (s, Ok true)
  | None =>
      (r ← on_part decoder (fun d s => set_io (d, socket s) s) Decoding rq_decode_headers;
       match r with
       | Some (h, k) =>
           _ ← modify (fun s => set_state {| head := Some h; body_kind := Some k; body := body (state s) |} s);
           mret true
       | None => mret false
       end) s
  end.

(** The body: whether it is complete. *)
Definition take_body : st Connection BoxedError bool :=
  kind ← (s ← get; unwrap (body_kind (state s)));
  on_part (fun s => (decoder s, body (state s)))
    (fun '(d, b) s => set_state {| head := head (state s); body_kind := body_kind (state s); body := b |} (set_io (d, socket s) s))
    Decoding (stream_body kind).

(** The inner loop: [Break None] is [break], [Break (Some tt)] the [return]. *)
Definition serve_round : st Connection BoxedError (flow (option unit)) :=
  have_head ← take_head;
  if negb have_head then mret (Break None)
  else
    complete ← take_body;
    if negb complete then mret (Break None)
    else
      keep_alive ← serve_request;
      mret (if (keep_alive : bool) then Continue else Break (Some tt)).

Definition request_loop : st Connection BoxedError (option unit) := fun s =>
  loop (S (S (length (rq_remaining (decoder s))))) serve_round s.

(** A round of the outer loop: a read with the keep-alive timeout, then all
    that can be answered. *)
Definition client_round : st Connection BoxedError (flow ending) := fun s =>
  let want := wanted READ_CHUNK (decoder s) in
  if want =? 0 then (s, Ok (Break Left))
  else
    (o ← on_part (fun s => (decoder s, socket s)) set_io Decoding (receive read_timeout want);
     match o with
     | Got [] | Failed | TimedOut => mret (Break Left)
     | Got _ =>
         done ← request_loop;
         match done with
         | None => mret Continue
         | Some _ => mret (Break Returned)
         end
     end) s.

(** [handle_client]. *)
Definition handle_client : st Connection BoxedError ending := fun s =>
  loop (S (inbox_size (socket s))) client_round s.

Definition connection_start (s : Socket) : Connection :=
  {| decoder := rq_new NoCompression_new DecoderLimits_default; state := StreamingState_new;
     conn_state := {| request_count := 0; max_requests := DEFAULT_MAX_REQUESTS |}; socket := s |}.
End Serving.

(** ** The pages of the server *)

Definition quoted (s : string) : str := [DQUOTE] ++ B s ++ [DQUOTE].
Definition line (s : str) : str := s ++ [LF].
Definition page_link (path text : string) : str :=
  line (B "<li><a href=" ++ quoted path ++ B ">" ++ B path ++ B "</a> - " ++ B text ++ B "</li>").

Definition home (title powered : string) : bytes :=
  line (B "<!DOCTYPE html>") ++ line (B "<html>") ++ line (B "<head><title>" ++ B title ++ B "</title></head>")
  ++ line (B "<body>") ++ line (B "<h1>Welcome to shiguredo_http11 Server</h1>") ++ line (B "<p>" ++ B powered ++ B "</p>")
  ++ line (B "<ul>") ++ page_link "/info" "Server information" ++ page_link "/echo" "Echo request details"
  ++ line (B "</ul>") ++ line (B "</body>") ++ line (B "</html>").

(** A member of the JSON object of [/info]. *)
Definition member (key value : string) : str := quoted key ++ B ":" ++ quoted value ++ B ",".

Definition server_site : Site.site := {|
  Site.home_page := home "shiguredo_http11 Server" "This server is powered by shiguredo_http11 library.";
  Site.info_page := fun now => B "{" ++ member "server" "shiguredo_http11" ++ member "version" "0.1.0"
    ++ quoted "timestamp" ++ B ":" ++ show_dec now ++ B "}";
  Site.server_name := B "shiguredo_http11/0.1.0"
|}.
End Server.
