(* ===== verification/ServerSession.v ===== *)
(** * What the server example does with a connection

    The server takes requests with the streaming interface, from a decoder that
    it reads into.  [as_decoded] is the decoder that [decode] would have been
    called on: a round of the server answers the request that [decode] returns,
    and what the server writes is a function of the bytes it received, in
    whatever pieces they came.  Where a
    write fails, what was written before is a prefix of that. *)
From S2P Require Import Prelude RustStd Errors Validate Framing StatusCode Head Message Buffer BodyDecoder BodyFacts Compression.
From S2P Require Import DecoderCore CoreFacts CoreApi HeadFacts RequestDecoder RequestFacts RequestTheorems Stream FramingFacts Forward.
From S2P Require Import ResponseDecoder ResponseFacts Encoder EncoderFacts HeadRoundTrip RequestRoundTrip ResponseRoundTrip RustStr Io Streaming Site Server.

Module ServerSession.
Import Server.

Abbreviation Rq := (RequestDecoder NoCompression).
Abbreviation core s := (rq_core (decoder s)).

(** Up to the section on failing writes no write fails. *)
#[local] Existing Instance calm.

Lemma send_calm data s : send data s = (set_io (decoder s, pushed (wrote data (socket s))) s, Ok tt).
Proof. done. Qed.

(** ** The decoder that [decode] is called on *)

(** [decode] gets ready for the next message at the end of a message,
    [decode_headers] when it is called for the next. *)
Definition between {D} `{Decompressor D} (c : Core D) : Core D :=
  match c_phase c with Complete => core_next_message c | _ => c end.

Definition as_decoded (s : Connection) : Rq :=
  match head (state s) with
  | None => {| rq_core := between (core s); rq_decoded_head := None |}
  | Some h => {| rq_core := dressed (default [] (body (state s))) (body_kind (state s)) (core s); rq_decoded_head := Some h |}
  end.

Definition clean {D} (c : Core D) : Prop := c_headers c = [] /\ c_start_line c = None.

(** What the server leaves to itself: the fields of [decode] are not used. *)
Record plain {D} `{Decompressor D} (c : Core D) : Prop := {
  pl_inv : loop_inv request_line_ok c;
  pl_quiet : quiet c;
  pl_body : c_decoded_body c = [];
  pl_kind : c_decoded_body_kind c = None
}.

Definition state_ok (s : Connection) : Prop :=
  match head (state s) with
  | None => state s = StreamingState_new /\ (reading_head (core s) \/ c_phase (core s) = Complete)
  | Some h => exists k, body_kind (state s) = Some k /\ head_known (c_limits (core s)) h k /\ clean (core s) /\
      match k with KNone => c_phase (core s) = Complete /\ body (state s) = None | _ => True end
  end.

Record ready (s : Connection) : Prop := {
  rd_core : plain (core s);
  rd_head : rq_decoded_head (decoder s) = None;
  rd_state : state_ok s
}.

Lemma between_reading {D} `{Decompressor D} (c : Core D) : reading_head c -> between c = c.
Proof. unfold between. by intros [-> | ->]. Qed.

Lemma dressed_plain (c : Core NoCompression) : plain c -> dressed [] None c = c.
Proof. intros [_ _ Hb Hk]. unfold dressed. destruct c. cbn in *. by subst. Qed.

Lemma complete_next {D} `{Decompressor D} (c : Core D) :
  loop_inv request_line_ok c -> c_phase c = Complete ->
  loop_inv request_line_ok (core_next_message c) /\ rq_core_decode_headers c = rq_core_decode_headers (core_next_message c).
Proof.
  intros Hi Hp. assert (Hr : RequestDecoder.request_round c = (core_next_message c, Ok Continue)) by (unfold RequestDecoder.request_round, head_round; cbn [core_of core_self]; by rewrite Hp).
  by destruct (decode_headers_continue c _ Hi Hr).
Qed.

Lemma between_inv {D} `{Decompressor D} (c : Core D) : loop_inv request_line_ok c -> loop_inv request_line_ok (between c).
Proof. intros Hi. unfold between. destruct (c_phase c) eqn:Hp; try done. by apply complete_next. Qed.

Lemma between_headers {D} `{Decompressor D} (c : Core D) :
  loop_inv request_line_ok c -> rq_core_decode_headers (between c) = rq_core_decode_headers c.
Proof. intros Hi. unfold between. destruct (c_phase c) eqn:Hp; try done. symmetry. by apply complete_next. Qed.

Lemma ready_inv s : ready s -> rq_inv (as_decoded s).
Proof.
  intros [Hc Hd Hs]. unfold as_decoded, state_ok in *. destruct (head (state s)) as [h|].
  - split; [apply dressed_inv, Hc|]. intros h' [= <-]. destruct Hs as (k & -> & Hk & _). by exists k.
  - split; [apply between_inv, Hc | done].
Qed.

(** More input. *)
Definition extend_conn (y : bytes) (s : Connection) : Connection := set_io (rq_extend y (decoder s), socket s) s.

Lemma extend_as_decoded y s : as_decoded (extend_conn y s) = rq_extend y (as_decoded s).
Proof.
  unfold as_decoded. cbn. destruct (head (state s)); [done|]. unfold between, rq_extend. cbn. by destruct (c_phase (core s)).
Qed.

Lemma plain_extend y (c : Core NoCompression) : plain c -> blen y <= core_available_buf c -> plain (core_extend y c).
Proof. intros [Hi Hq Hb Hk] Hy. split; [by apply loop_inv_extend | by apply quiet_extend | done | done]. Qed.

Lemma ready_extend y s : ready s -> blen y <= core_available_buf (core s) -> ready (extend_conn y s).
Proof. intros [Hc Hd Hs] Hy. split; [by apply plain_extend | done | done]. Qed.

(** ** The head *)

Lemma take_head_spec s :
  ready s ->
  let '(d, r) := rq_decode_head (as_decoded s) in
  let '(s', r') := take_head s in
  r' = boxed Decoding r /\ socket s' = socket s /\ conn_state s' = conn_state s /\
  match r with
  | Ok b => as_decoded s' = d /\ ready s' /\ is_some (head (state s')) = b
  | Err _ => True
  end.
Proof.
  intros Hr. pose proof (ready_inv s Hr) as Hi. pose proof Hr as [Hc Hd Hs]. rewrite decode_head_eq. unfold take_head, as_decoded in *. unfold state_ok in Hs.
  destruct (head (state s)) as [h|] eqn:Hh; cbn [rq_decoded_head rq_core].
  { by rewrite Hh. }
  destruct Hs as [Hst Hph]. unfold mbind, st_bind, on_part, rq_decode_headers, on_core. cbn [core_of put_core rq_core_of].
  rewrite <- (between_headers _ (pl_inv _ Hc)). pose proof (decode_headers_post _ (between_inv _ (pl_inv _ Hc))) as Hp.
  assert (Hb : same_rest (core s) (between (core s)) /\ reading_head (between (core s)) /\ core_buffered (between (core s)) = core_buffered (core s)).
  { unfold between. destruct Hph as [[Hp1 | Hp1] | Hp1]; rewrite Hp1; (split; [done|]); (split; [|done]); [by left | by right | by left]. }
  destruct Hb as (Hsame & Hread & Hbuf). assert (Hx : forall A (x y : A), match c_phase (between (core s)) with StartLine | Headers => x | _ => y end = x) by (by destruct Hread as [-> | ->]).
  destruct (rq_core_decode_headers (between (core s))) as [c' r]. destruct Hp as (Hi' & _ & Hle & Hs' & Hp).
  assert (Hpl : is_ok r = true -> plain c').
  { destruct Hc as [H1 H2 H3 H4]. assert (Hs2 : same_rest (core s) c') by (by etransitivity). pose proof Hs2 as (_ & E2 & E3 & _).
    split; [done | | congruence | congruence]. eapply quiet_kept; [exact H2 | done |]. by rewrite <- Hbuf. }
  rewrite Hx. destruct r as [[[h k]|]|[]]; cbn; try (by split_and!); (split_and!; [done|done|done|..]).
  - rewrite Hst. cbn. pose proof (Hpl eq_refl) as Hpl'. rewrite <- (dressed_plain c' Hpl') at 2. done.
  - destruct Hp as [[Hk Hp' Hcl] _]. split; [by apply Hpl | done |]. unfold state_ok. cbn. rewrite Hst. exists k. split_and!; try done.
    by destruct k.
  - done.
  - rewrite Hh. by rewrite between_reading.
  - split; [by apply Hpl | done|]. unfold state_ok. cbn. rewrite Hh. split; [done | by left].
  - by rewrite Hh.
Qed.

(** ** The body *)

(** The accumulator of the server is the collected body of [decode]. *)
Definition body_rel (h : option RequestHead.t) (c : Core NoCompression) (da : Rq * bytes) : Prop :=
  loop_inv request_line_ok c /\ rq_core (fst da) = dressed [] None c /\ snd da = c_decoded_body c /\ rq_decoded_head (fst da) = h.

Lemma server_round_eq d acc :
  Server.stream_round (d, acc) =
    let '(taken, (c', r)) := stream_step (rq_core d) in
    ((with_core c' d, acc ++ default [] taken), stream_result taken r).
Proof.
  unfold Server.stream_round, stream_step, rq_peek_body. destruct (core_peek_body _) as [data|].
  - unfold mbind, st_bind, modify, on_acc, rq_consume_body, on_core. cbn.
    by destruct (core_consume_body _ _) as [c' [[| |ts]|[]]].
  - unfold mbind, st_bind, on_acc, rq_progress, on_core. cbn. rewrite app_nil_r.
    by destruct (core_progress _) as [c' [[| |ts]|[]]].
Qed.

Lemma body_round_sim h c da :
  body_rel h c da ->
  sim_outcome id (flow_rel (body_rel h) (fun _ => body_rel h)) (DecoderCore.body_round c) (Server.stream_round da).
Proof.
  intros (Hi & Hc & Ha & Hh). destruct da as [d acc]. rewrite server_round_eq. cbn [fst snd] in *. rewrite Hc, stream_step_dressed.
  pose proof (body_round_keeps _ _ Hi) as Hi'. pose proof (body_round_stream _ _ Hi) as Hb.
  destruct (stream_step c) as [taken [c' r]]. rewrite Hb in Hi' |- *. subst acc. cbn [fst] in Hi'.
  destruct r as [[| |ts]|[]]; cbn; try (by destruct taken); by split_and!.
Qed.

(** What [stream_body] does for a body that is delimited. *)
Lemma delimited_spec k d buf h :
  plain (rq_core d) -> rq_decoded_head d = h -> rq_decode_body (D := NoCompression) k = body_loop ->
  let '(c', r) := body_loop (dressed (default [] buf) (Some k) (rq_core d)) in
  let '((d', buf'), r') := stream_body k (d, buf) in
  r' = r /\ match r with
  | Ok b => rq_decoded_head d' = h /\ c' = dressed (default [] buf') (Some k) (rq_core d') /\ is_some buf' = true /\
      plain (rq_core d') /\ c_limits (rq_core d') = c_limits (rq_core d) /\
      (clean (rq_core d) -> clean (rq_core d')) /\ (b = true -> c_phase (rq_core d') = Complete)
  | Err _ => True
  end.
Proof.
  intros Hp Hh Hk. set (c0 := dressed (default [] buf) (Some k) (rq_core d)).
  assert (Hb : stream_body k (d, buf) = let '((d', acc), r) := loop (S (length (rq_remaining d))) Server.stream_round (d, default [] buf) in
            match r with Ok complete => ((d', Some acc), Ok complete) | Err e => ((d', None), Err e) end).
  { destruct k; try done; apply (f_equal (fun f => f (rq_core start))) in Hk; vm_compute in Hk; done. }
  rewrite Hb. clear Hb. assert (Hr : body_rel h c0 (d, default [] buf)).
  { split; [apply dressed_inv, Hp|]. split_and!; try done. cbn. symmetry. apply (dressed_plain _ Hp). }
  pose proof (loop_sim id (body_rel h) (fun _ => body_rel h) DecoderCore.body_round Server.stream_round (S (length (c_buf c0)))
    c0 (d, default [] buf) (body_round_sim h) Hr) as [He Hs].
  pose proof (body_loop_inv request_line_ok c0 (proj1 (proj1 Hr))) as (_ & Ho & Hle & Hph & _ & data & b & Hc).
  unfold body_loop in *. change (rq_remaining d) with (c_buf c0).
  destruct (loop _ DecoderCore.body_round c0) as [c' r], (loop _ Server.stream_round _) as [[d' acc] r']. cbn [fst snd] in *.
  subst r'. destruct r as [b'|[]]; cbn [boxed]; try by split.
  destruct Hs as (Hi' & Hc' & Ha & Hh'). cbn [fst snd] in *. split; [done|].
  assert (Hkind : c_decoded_body_kind c' = Some k) by (by rewrite Hc).
  split_and!; [done| |done|split|..].
  - rewrite Hc', Ha. cbn. rewrite <- Hkind. by destruct c'.
  - rewrite Hc'. by apply dressed_inv.
  - rewrite Hc'. destruct Hp as [_ [Hp1 Hp2] _ _]. unfold quiet, core_buffered in *. rewrite Hc in Hle |- *. cbn in *. split; [done|].
    unfold blen in *. lia.
  - by rewrite Hc'.
  - by rewrite Hc'.
  - by rewrite Hc', Hc.
  - rewrite Hc', Hc. done.
  - rewrite Hc'. intros ->. by apply Hph.
Qed.

(** A request that is there with its body, as [decode] has it. *)
Record finished (h : RequestHead.t) (k : BodyKind) (c : Core NoCompression) (s : Connection) : Prop := {
  fi_core : plain (core s);
  fi_decoder : rq_decoded_head (decoder s) = None;
  fi_clean : clean (core s);
  fi_phase : c_phase (core s) = Complete;
  fi_head : head (state s) = Some h;
  fi_kind : body_kind (state s) = Some k;
  fi_dressed : c = dressed (default [] (body (state s))) (Some k) (core s);
  fi_body : match k with KNone => body (state s) = None | _ => is_some (body (state s)) = true end
}.

Lemma take_body_spec s h :
  ready s -> head (state s) = Some h ->
  exists k, body_kind (state s) = Some k /\ head_known (c_limits (core s)) h k /\
    let '(s', r') := take_body s in
    socket s' = socket s /\ conn_state s' = conn_state s /\
    match k with
    | KTunnel => r' = Ok true /\ head (state s') = Some h /\ body_kind (state s') = Some KTunnel
    | _ =>
        let '(c, r) := rq_decode_body k (rq_core (as_decoded s)) in
        r' = boxed Decoding r /\
        match r with
        | Ok true => finished h k c s'
        | Ok false => as_decoded s' = with_core c (as_decoded s) /\ ready s'
        | Err _ => True
        end
    end.
Proof.
  intros [Hc Hd Hs] Hh. unfold state_ok in Hs. rewrite Hh in Hs. destruct Hs as (k & Hk & Hkn & Hcl & Hx). exists k. split_and!; [done..|].
  unfold take_body, mbind, st_bind, get, unwrap. rewrite Hk. unfold on_part.
  assert (Hdel : rq_decode_body (D := NoCompression) k = body_loop ->
    let '(d', b, r) := stream_body k (decoder s, body (state s)) in
    let s' := set_state {| head := head (state s); body_kind := body_kind (state s); body := b |} (set_io (d', socket s) s) in
    let '(c, r0) := rq_decode_body k (rq_core (as_decoded s)) in
    r = r0 /\ match r0 with
    | Ok true => finished h k c s'
    | Ok false => as_decoded s' = with_core c (as_decoded s) /\ ready s'
    | Err _ => True
    end).
  { intros Hdk. assert (Hnone : match k with KNone => False | _ => True end)
      by (by destruct k; try done; apply (f_equal (fun f => f (rq_core start))) in Hdk; vm_compute in Hdk).
    pose proof (delimited_spec k (decoder s) (body (state s)) None Hc Hd Hdk) as Hb. unfold as_decoded. rewrite Hh, Hk, Hdk. cbn [rq_core].
    destruct (body_loop _) as [c r]. destruct (stream_body k _) as [[d' b] r']. destruct Hb as [-> Hb]. split; [done|].
    destruct r as [[]|e]; [| |done]; destruct Hb as (B1 & B2 & B3 & B4 & B5 & B6 & B7).
    - split; cbn; rewrite ?Hh, ?Hk; try done; [by apply B6 | by apply B7 | by destruct k].
    - cbn. rewrite B2. split; [done|]. split; [done..|]. unfold state_ok. cbn. exists k. rewrite B5.
      split_and!; [done | done | by apply B6 |]. by destruct k. }
  destruct k.
  1,2: specialize (Hdel eq_refl); destruct (stream_body _ _) as [[d' b] r]; destruct (rq_decode_body _ _) as [c r0];
    destruct Hdel as [-> Hdel]; by split_and!.
  - by destruct (hd_kind _ _ _ Hkn).
  - destruct Hx as [Hph Hbody]. cbn. split_and!; try done. split; cbn; rewrite ?Hh, ?Hk; try done.
    unfold as_decoded. rewrite Hh. cbn. by rewrite Hbody, Hk.
  - cbn. by rewrite Hh, Hk.
Qed.

(** ** The answer *)

Section Session.
Context (gzip brotli zstd : bytes -> result str bytes) (pages : Site.site) (clock : N -> N).
Hypothesis Hname : sendable (B "Server", Site.server_name pages) = true.

(** Whether the connection goes on after the request with this number. *)
Definition keep (limit n : N) (m : Request.t) : bool := is_keep_alive m && (n <? limit).

Definition reply (limit n : N) (m : Request.t) : bytes :=
  match (r ← Site.build_response gzip brotli zstd pages (clock n) m (keep limit n m); encode_response r) with
  | Ok data => data
  | Err _ => []
  end.

(** What is written for the messages after the first [n], and whether the
    connection is still open then. *)
Fixpoint transcript (limit n : N) (ms : list Request.t) : bytes * bool :=
  match ms with
  | [] => ([], true)
  | m :: ms =>
      if keep limit (n + 1) m
      then let '(out, open) := transcript limit (n + 1) ms in (reply limit (n + 1) m ++ out, open)
      else (reply limit (n + 1) m, false)
  end.

(** The page fits into memory. *)
Definition page_fits (m : Request.t) : Prop := forall n, blen (Site.page pages (clock n) m) <= usize_MAX.

Lemma reply_spec limit n m :
  page_fits m -> exists r, Site.build_response gzip brotli zstd pages (clock n) m (keep limit n m) = Ok r /\
    encode_response r = Ok (reply limit n m) /\ Site.answer_ok pages (clock n) m (keep limit n m) r.
Proof.
  intros Hf. destruct (Site.build_response_ok gzip brotli zstd pages Hname (clock n) m (keep limit n m)) as (r & Hb & Ha).
  exists r. destruct (Site.answer_encodes Ha (Hf n)) as [data He]. unfold reply. rewrite Hb. cbn [mbind result_bind]. by rewrite He.
Qed.

Lemma rebuild_headers hs r :
  forallb header_ok hs = true ->
  foldM (fun r '(name, value) => Request.add_header name value r) r hs = Ok (Request.with_headers (Request.headers r ++ hs) r).
Proof.
  revert r. induction hs as [|[n v] hs IH]; intros r; cbn [forallb foldM].
  - intros _. rewrite app_nil_r. by destruct r.
  - intros [Hh Hhs]%andb_true_iff. assert (Ha : Request.add_header n v r = Ok (Request.with_headers (Request.headers r ++ [(n, v)]) r))
      by (unfold Request.add_header; by rewrite (header_ok_checked n v Hh)).
    rewrite Ha. cbn [mbind result_bind]. rewrite IH by done. cbn. by rewrite <- app_assoc.
Qed.

Lemma rebuild_request_eq limits h k b :
  head_known limits h k ->
  rebuild_request h b = Ok (Request.from_raw_parts (RequestHead.method h) (RequestHead.uri h) (RequestHead.version h) (RequestHead.headers h) b).
Proof.
  intros Hk. destruct (head_known_valid _ _ _ Hk) as [Hv Ha]. unfold RequestHead.valid in Hv. rewrite !andb_true_iff in Hv.
  destruct Hv as [[[V1 V2] V3] V4]. unfold rebuild_request, Request.with_version. rewrite V1, V2, V3, Ha. cbn [negb mbind result_bind].
  rewrite rebuild_headers by done. cbn. by destruct b.
Qed.

Lemma finished_message h k c s :
  finished h k c s -> k <> KTunnel ->
  message h k c = Request.from_raw_parts (RequestHead.method h) (RequestHead.uri h) (RequestHead.version h) (RequestHead.headers h) (body (state s)).
Proof.
  intros Hf Hk. unfold message. f_equal. pose proof (fi_body _ _ _ _ Hf) as Hb. pose proof (fi_dressed _ _ _ _ Hf) as ->.
  destruct k; try done; by destruct (body (state s)).
Qed.

Lemma finished_next h k c s (d : Rq) :
  finished h k c s -> message_done k (with_core c d) = {| rq_core := between (core s); rq_decoded_head := None |}.
Proof.
  intros [[Hi _ Hb Hk] _ [Hc1 Hc2] Hp _ _ -> _]. unfold message_done, with_core, between. rewrite Hp. f_equal.
  unfold core_message_done, core_next_message, dressed. destruct (core s) as [cb cp cs ch cbd cl ck cdb cz cpd]. cbn in *. subst. by destruct k.
Qed.

Lemma serve_request_spec limits h k c s d :
  finished h k c s -> head_known limits h k -> k <> KTunnel -> page_fits (message h k c) ->
  let limit := max_requests (conn_state s) in
  let n := request_count (conn_state s) + 1 in
  exists s', serve_request gzip brotli zstd pages clock s = (s', Ok (keep limit n (message h k c))) /\
    as_decoded s' = message_done k (with_core c d) /\ ready s' /\
    written (socket s') = written (socket s) ++ reply limit n (message h k c) /\ inbox (socket s') = inbox (socket s) /\
    conn_state s' = {| request_count := n; max_requests := limit |}.
Proof.
  intros Hf Hk Hn Hp limit n. rewrite (finished_next h k c s d Hf). pose proof Hf as [F1 F2 F3 F4 F5 F6 F7 F8].
  destruct (reply_spec limit n _ Hp) as (r & Hb & He & _). rewrite (finished_message h k c s Hf Hn) in *.
  unfold serve_request, mbind, st_bind, get, unwrap, modify, gets, lift. rewrite F5, F6. cbn [head body_kind body state set_state].
  rewrite (rebuild_request_eq _ _ _ _ Hk).
  destruct k; try done; cbn [map_err set_state count_request modify conn_state state decoder socket request_count max_requests].
  all: unfold keep in Hb; fold limit n; rewrite Hb; cbn [map_err]; rewrite He; cbn [map_err].
  all: eexists; (split; [reflexivity|]); cbn; split_and!; try done; (split; [done|done|]); unfold state_ok; cbn; (split; [done | by right]).
Qed.

(** ** A round *)

Definition refusal : bytes :=
  match (r ← not_implemented; encode_response r) with Ok b => b | Err _ => [] end.

Lemma not_implemented_encoded : exists r, not_implemented = Ok r /\ encode_response r = Ok refusal.
Proof.
  assert (Hok : is_ok (r ← not_implemented; encode_response r) = true) by (vm_compute; reflexivity).
  unfold refusal. destruct not_implemented as [r|]; [|done]. exists r. split; [done|]. cbn in *. by destruct (encode_response r).
Qed.

(** The answer of [decode] to CONNECT. *)
Definition tunnel_error : exn Error.t :=
  Throw (Error.InvalidData (B "decode() cannot be used in tunnel mode, use take_remaining() instead")).

Lemma serve_tunnel_spec s h :
  head (state s) = Some h -> body_kind (state s) = Some KTunnel ->
  exists s', serve_request gzip brotli zstd pages clock s = (s', Ok false) /\
    inbox (socket s') = inbox (socket s) /\ written (socket s') = written (socket s) ++ refusal.
Proof.
  intros Hh Hk. destruct not_implemented_encoded as (r & Hr & He). unfold serve_request, mbind, st_bind, get, unwrap, modify, lift.
  rewrite Hh, Hk, Hr. cbn [map_err]. rewrite He. by eexists.
Qed.

(** What a round leaves when it is over without an answer. *)
Definition untouched (s s' : Connection) : Prop := socket s' = socket s /\ conn_state s' = conn_state s.

Definition answered (s s' : Connection) (out : bytes) (count : N) : Prop :=
  inbox (socket s') = inbox (socket s) /\ written (socket s') = written (socket s) ++ out /\
  conn_state s' = {| request_count := request_count (conn_state s) + count; max_requests := max_requests (conn_state s) |}.

Lemma serve_round_spec s :
  ready s ->
  let limit := max_requests (conn_state s) in
  let n := request_count (conn_state s) + 1 in
  match rq_decode (as_decoded s) with
  | (d', Ok (Some m)) => page_fits m ->
      exists s', serve_round gzip brotli zstd pages clock s = (s', Ok (if keep limit n m then Continue else Break (Some tt))) /\
        as_decoded s' = d' /\ ready s' /\ answered s s' (reply limit n m) 1
  | (d', Ok None) =>
      exists s', serve_round gzip brotli zstd pages clock s = (s', Ok (Break None)) /\ as_decoded s' = d' /\ ready s' /\ untouched s s'
  | (_, Err e) => exists s',
      serve_round gzip brotli zstd pages clock s = (s', boxed Decoding (Err e)) /\ socket s' = socket s \/
      e = tunnel_error /\ serve_round gzip brotli zstd pages clock s = (s', Ok (Break (Some tt))) /\
        inbox (socket s') = inbox (socket s) /\ written (socket s') = written (socket s) ++ refusal
  end.
Proof.
  intros Hr limit n. rewrite (rq_decode_eq _ (ready_inv s Hr)). pose proof (take_head_spec s Hr) as Hhd.
  pose proof (decode_head_inv _ (ready_inv s Hr)) as Hpost.
  unfold serve_round, mbind, st_bind.
  destruct (rq_decode_head (as_decoded s)) as [d r], (take_head s) as [s1 r1]. destruct Hhd as (-> & Hs1 & Hc1 & Hhd).
  destruct r as [b|e]; cbn [boxed].
  2: { destruct e; eexists; left; (split; [reflexivity|done]). }
  destruct Hhd as (Hd1 & Hr1 & Hb). destruct b; cbn [negb].
  2: { eexists. split; [reflexivity|]. by split_and!. }
  destruct Hpost as (_ & _ & _ & h & k & Hh & Hk). rewrite Hh, Hk. subst d.
  destruct (head (state s1)) as [h1|] eqn:Hh1; [|done].
  assert (h1 = h) as -> by (unfold as_decoded in Hh; rewrite Hh1 in Hh; by injection Hh).
  destruct (take_body_spec s1 h Hr1 Hh1) as (k1 & Hk1 & Hkn & Hb1).
  assert (k1 = k) as -> by (unfold as_decoded in Hk; rewrite Hh1, Hk1 in Hk; by injection Hk).
  destruct (take_body s1) as [s2 r2]. destruct Hb1 as (Hs2 & Hc2 & Hb2).
  assert (Hcases : k = KTunnel \/ k <> KTunnel) by (clear; destruct k; by (left + right)).
  destruct Hcases as [-> | Hnt].
  { destruct Hb2 as (-> & Hh2 & Hk2). destruct (serve_tunnel_spec s2 h Hh2 Hk2) as (s3 & Hsv & Hi & Hw).
    cbn [rq_decode_body negb]. unfold fail, throw. rewrite Hsv. exists s3. right. by rewrite <- Hs1, <- Hs2. }
  assert (Hb3 : let '(c, r) := rq_decode_body k (rq_core (as_decoded s1)) in
      r2 = boxed Decoding r /\
      match r with
      | Ok true => finished h k c s2
      | Ok false => as_decoded s2 = with_core c (as_decoded s1) /\ ready s2
      | Err _ => True
      end) by (by destruct k). clear Hb2.
  destruct (rq_decode_body k (rq_core (as_decoded s1))) as [c [[]|e]]; destruct Hb3 as [-> Hb3]; cbn [boxed negb].
  - intros Hp. destruct (serve_request_spec _ h k c s2 (as_decoded s1) Hb3 Hkn Hnt Hp) as (s3 & Hsv & Ha & Hr3 & Hw & Hi & Hc3).
    rewrite Hsv. rewrite Hc2, Hc1, Hs2, Hs1 in *. fold limit n in Hsv, Hw, Hc3 |- *. eexists. split; [|split; [exact Ha|split; [exact Hr3|by split_and!]]].
    by destruct (keep _ _ _).
  - eexists. split; [reflexivity|]. destruct Hb3 as [Ha Hr3]. split_and!; [done..|]. split; congruence.
  - eexists. left. split; [by destruct e | congruence].
Qed.

(** ** All that is there *)

Lemma transcript_app limit n ms1 ms2 :
  transcript limit n (ms1 ++ ms2) =
    let '(out, open) := transcript limit n ms1 in
    if open : bool then let '(out2, open2) := transcript limit (n + blen ms1) ms2 in (out ++ out2, open2) else (out, false).
Proof.
  revert n. induction ms1 as [|m ms1 IH]; intros n; cbn [app transcript].
  - rewrite N.add_0_r. by destruct (transcript limit n ms2).
  - destruct (keep limit (n + 1) m); [|done]. rewrite IH. destruct (transcript limit (n + 1) ms1) as [out []]; [|done].
    replace (n + blen (m :: ms1)) with (n + 1 + blen ms1) by (unfold blen; cbn; lia).
    destruct (transcript limit _ ms2). by rewrite app_assoc.
Qed.

(** [decode_ready], at the decoder of requests. *)
Lemma ready_eq (d : Rq) :
  rq_inv d ->
  decode_ready d =
    match rq_decode d with
    | (d', Ok (Some m)) => after [m] (decode_ready d')
    | (d', Ok None) => (d', [], None)
    | (d', Err e) => (d', [], Some e)
    end.
Proof. intros Hi. exact (decode_ready_eq (T := Rq) (M := Request.t) (E := Error.t) d Hi). Qed.

(** How the messages [ms], and the error that came after them, are answered:
    the run goes on, ends after an answer, or fails as [decode] does. *)
Definition session_post {A} (goes_on : A -> bool) (s s' : Connection) (ms : list Request.t) (e : option (exn Error.t))
    (r : result (exn BoxedError) A) : Prop :=
  let '(out, open) := transcript (max_requests (conn_state s)) (request_count (conn_state s)) ms in
  match r with
  | Ok a =>
      if goes_on a then e = None /\ open = true /\ written (socket s') = written (socket s) ++ out
      else (open = false /\ written (socket s') = written (socket s) ++ out) \/
           (open = true /\ e = Some tunnel_error /\ written (socket s') = written (socket s) ++ out ++ refusal)
  | Err x => open = true /\ written (socket s') = written (socket s) ++ out /\
      exists e', e = Some e' /\ Err (A := unit) x = boxed Decoding (Err e')
  end.

Definition no_break (o : option unit) : bool := match o with None => true | Some _ => false end.

(** The messages before it. *)
Lemma session_post_after {A} (goes_on : A -> bool) s s1 s' m ms e r :
  let limit := max_requests (conn_state s) in
  let n := request_count (conn_state s) + 1 in
  keep limit n m = true -> answered s s1 (reply limit n m) 1 ->
  session_post goes_on s1 s' ms e r -> session_post goes_on s s' (m :: ms) e r.
Proof.
  intros limit n Hk (_ & Hw & Hc). unfold session_post. cbn [transcript]. fold limit n. rewrite Hk, Hc. cbn [request_count max_requests].
  fold limit n. rewrite Hw. destruct (transcript limit n ms) as [out open]. rewrite <- !app_assoc. done.
Qed.

Lemma request_loop_spec fuel s :
  ready s -> (all_measure (as_decoded s) < fuel)%nat ->
  let '(d', ms, e) := decode_ready (as_decoded s) in
  Forall page_fits ms ->
  exists s' r, loop fuel (serve_round gzip brotli zstd pages clock) s = (s', r) /\ inbox (socket s') = inbox (socket s) /\
    session_post no_break s s' ms e r /\
    (r = Ok None -> as_decoded s' = d' /\ ready s' /\
      conn_state s' = {| request_count := request_count (conn_state s) + blen ms; max_requests := max_requests (conn_state s) |}).
Proof.
  revert s. induction fuel as [|fuel IH]; intros s Hr Hm; [lia|].
  pose proof (ready_inv s Hr) as Hi. rewrite (ready_eq _ Hi). pose proof (serve_round_spec s Hr) as Hrd.
  cbn [loop]. destruct (rq_decode (as_decoded s)) as [d1 [[m|]|e]] eqn:Hd.
  - destruct (decode_some_measure _ _ _ Hi Hd) as [_ Hlt].
    destruct (keep (max_requests (conn_state s)) (request_count (conn_state s) + 1) m) eqn:Hk; cbv zeta in Hrd; rewrite Hk in Hrd.
    + destruct (decode_ready d1) as [[d' ms] e] eqn:Hall. cbn [after app]. intros [Hp Hps]%Forall_cons_iff.
      destruct (Hrd Hp) as (s1 & -> & Hd1 & Hr1 & Ha). subst d1. specialize (IH s1 Hr1 ltac:(lia)). rewrite Hall in IH.
      destruct (IH Hps) as (s' & r & -> & Hin & Hpost & Hnone). exists s', r. split_and!; [done| | |].
      * rewrite Hin. apply Ha.
      * by apply (session_post_after _ s s1).
      * intros Hn. destruct (Hnone Hn) as (H1 & H2 & H3). split_and!; [done..|]. destruct Ha as (_ & _ & Hc). rewrite H3, Hc. cbn.
        f_equal. unfold blen. cbn. lia.
    + destruct (decode_ready d1) as [[d' ms] e]. cbn [after app]. intros [Hp _]%Forall_cons_iff.
      destruct (Hrd Hp) as (s1 & -> & _ & _ & Ha). exists s1, (Ok (Some tt)). split_and!; try done; [apply Ha|].
      unfold session_post. cbn [transcript]. rewrite Hk. cbn. left. split; [done | apply Ha].
  - intros _. destruct Hrd as (s1 & -> & Hd1 & Hr1 & Hs1 & Hc1). exists s1, (Ok None). split_and!; [done | by rewrite Hs1 | |].
    + unfold session_post. cbn. by rewrite app_nil_r, Hs1.
    + intros _. split_and!; try done. rewrite Hc1. change (blen []) with 0. rewrite N.add_0_r. by destruct (conn_state s).
  - intros _. destruct Hrd as (s1 & [[-> Hs1] | (-> & -> & Hin & Hw)]).
    + exists s1, (boxed Decoding (Err e)). split_and!; [by destruct e | by rewrite Hs1 | | by destruct e].
      unfold session_post. cbn. rewrite app_nil_r, Hs1. by destruct e; cbn; (split_and!; [done..|]); eexists.
    + exists s1, (Ok (Some tt)). split_and!; try done. unfold session_post. cbn. by right.
Qed.

(** ** Reading *)

(** Bytes in two parts. *)
Lemma ready_parts (d : Rq) y z :
  rq_inv d ->
  same_run (decode_ready (rq_extend (y ++ z) d)) (and_then (decode_ready (rq_extend y d)) (fun t => decode_ready (rq_extend z t))).
Proof.
  intros Hi. assert (He : rq_extend (y ++ z) d = rq_extend z (rq_extend y d)) by (unfold rq_extend, core_extend; cbn [rq_core rq_decoded_head]; cs; by rewrite app_assoc).
  rewrite He. exact (decode_ready_extend (T := Rq) (M := Request.t) (E := Error.t) z (rq_extend y d) (rq_extend_inv y d Hi)).
Qed.

Lemma rq_extend_nil (d : Rq) : rq_extend [] d = d.
Proof. unfold rq_extend, core_extend. rewrite app_nil_r. destruct d as [[] ?]. done. Qed.

(** Nothing more comes out. *)
Definition drained (d : Rq) : Prop := rq_decode d = (d, Ok None).

Lemma drained_ready d : rq_inv d -> drained d -> decode_ready d = (d, [], None).
Proof. intros Hi Hd. by rewrite (ready_eq d Hi), Hd. Qed.

Lemma ready_drained (d d' : Rq) ms : rq_inv d -> decode_ready d = (d', ms, None) -> drained d'.
Proof.
  remember (all_measure d) as n eqn:Hn. revert d ms Hn. induction (lt_wf n) as [n _ IH]. intros d ms -> Hi.
  rewrite (ready_eq d Hi). destruct (rq_decode d) as [d1 [[m|]|e]] eqn:Hd; [| |done].
  - destruct (decode_some_measure _ _ _ Hi Hd) as [Hi1 Hlt]. destruct (decode_ready d1) as [[d2 ms2] e2] eqn:Hr.
    intros [= <- _ ->]. by apply (IH _ Hlt d1 ms2 eq_refl Hi1).
  - intros [= <- _]. unfold drained. pose proof (rq_decode_ext [] d d1 _ Hi Hd) as He. cbn in He. by rewrite !rq_extend_nil, Hd in He.
Qed.

Lemma read_spec s :
  ready s -> wanted READ_CHUNK (decoder s) <> 0 ->
  let '(s1, o) := read_timeout (wanted READ_CHUNK (decoder s)) (socket s) in
  let data := match o with Got data => data | _ => [] end in
  on_part (fun s => (decoder s, socket s)) set_io Decoding (receive read_timeout (wanted READ_CHUNK (decoder s))) s =
    (set_io (rq_extend data (decoder s), s1) s, Ok o) /\
  ready (set_io (rq_extend data (decoder s), s1) s) /\
  as_decoded (set_io (rq_extend data (decoder s), s1) s) = rq_extend data (as_decoded s).
Proof.
  intros Hr Hw. pose proof Hr as [Hc _ _]. set (want := wanted READ_CHUNK (decoder s)) in *.
  assert (Hle : want <= core_available_buf (core s)) by (apply N.le_min_l).
  pose proof (receive_extends read_timeout want (decoder s) (socket s) (inv_limits _ _ (proj1 (pl_inv _ Hc)))
    (proj1 (pl_quiet _ Hc)) Hle (proj2 (pl_quiet _ Hc))) as Hx.
  assert (Hb : forall s1 data, read_timeout want (socket s) = (s1, Got data) -> blen data <= want)
    by (intros s1 data; apply read_bound).
  destruct (read_timeout want (socket s)) as [s1 o]. unfold on_part. rewrite Hx by (intros d s2 E; by apply (Hb s2)).
  set (data := match o with Got data => data | _ => [] end). split_and!; [done| |apply (extend_as_decoded data s)].
  destruct (ready_extend data s Hr) as [R1 R2 R3]; [|by split].
  unfold data. destruct o as [y| |]; try apply N.le_0_l. specialize (Hb s1 y eq_refl). lia.
Qed.

(** The messages of the first part. *)
Lemma session_post_app {A} (goes_on : A -> bool) s s1 s' ms1 ms2 e r :
  session_post no_break s s1 ms1 None (Ok None) ->
  conn_state s1 = {| request_count := request_count (conn_state s) + blen ms1; max_requests := max_requests (conn_state s) |} ->
  session_post goes_on s1 s' ms2 e r -> session_post goes_on s s' (ms1 ++ ms2) e r.
Proof.
  unfold session_post. intros H1 Hc H2. rewrite Hc in H2. cbn [request_count max_requests] in H2. rewrite transcript_app.
  destruct (transcript _ _ ms1) as [out1 o1]. destruct H1 as (_ & -> & Hw). rewrite Hw in H2.
  destruct (transcript _ _ ms2) as [out2 o2]. by rewrite <- !app_assoc in *.
Qed.

Definition is_left (x : ending) : bool := match x with Left => true | Returned => false end.

Definition run_of (data : bytes) (s : Connection) := decode_ready (rq_extend data (as_decoded s)).

(** The state in which the server waits for input. *)
Record waits (s : Connection) : Prop := { wt_ready : ready s; wt_drained : drained (as_decoded s) }.

Definition all_fit (r : Stream.run (T := Rq) (M := Request.t) (E := Error.t)) : Prop := let '(_, ms, _) := r in Forall page_fits ms.

Lemma all_fit_same r1 r2 : same_run r1 r2 -> all_fit r1 -> all_fit r2.
Proof. destruct r1 as [[t1 ms1] e1], r2 as [[t2 ms2] e2]. by intros [<- _]. Qed.

(** How the run from [s] on ends: what was received, and how it was answered. *)
Definition session (s s' : Connection) (r : result (exn BoxedError) ending) : Prop :=
  exists data, to_come (socket s) = data ++ to_come (socket s') /\
    let '(_, ms, e) := run_of data s in session_post is_left s s' ms e r.

(** The server stops without an answer. *)
Lemma session_stops s s' :
  waits s -> to_come (socket s') = to_come (socket s) -> written (socket s') = written (socket s) -> session s s' (Ok Left).
Proof.
  intros [Hr Hd] Ht Hw. exists []. split; [done|]. unfold run_of. rewrite rq_extend_nil, (drained_ready _ (ready_inv s Hr) Hd).
  unfold session_post. cbn. by rewrite app_nil_r.
Qed.

(** It goes on after a read. *)
Lemma session_goes_on s s1 s2 s' data ms d' r :
  waits s -> to_come (socket s) = data ++ to_come (socket s2) ->
  run_of data s = (d', ms, None) -> as_decoded s2 = d' ->
  written (socket s1) = written (socket s) -> conn_state s1 = conn_state s ->
  session_post no_break s1 s2 ms None (Ok None) ->
  conn_state s2 = {| request_count := request_count (conn_state s1) + blen ms; max_requests := max_requests (conn_state s1) |} ->
  session s2 s' r -> session s s' r.
Proof.
  intros [Hr _] Ht Hrun Hd Hw Hc Hpost Hc2 (data2 & Ht2 & Hs). exists (data ++ data2). split; [by rewrite Ht, Ht2, app_assoc|].
  pose proof (ready_parts (as_decoded s) data data2 (ready_inv s Hr)) as Hp. unfold run_of in *. rewrite Hrun in Hp. cbn [and_then] in Hp.
  rewrite <- Hd in Hp. destruct (decode_ready (rq_extend data2 (as_decoded s2))) as [[d2 ms2] e2]. cbn [after] in Hp.
  destruct (decode_ready (rq_extend (data ++ data2) (as_decoded s))) as [[d3 ms3] e3]. destruct Hp as [-> He].
  assert (e3 = e2) as -> by (destruct e3, e2; try done; by f_equal).
  apply (session_post_app is_left s s2); [by unfold session_post in *; rewrite <- Hw, <- Hc | by rewrite <- Hc | done].
Qed.

Lemma client_loop_spec fuel s :
  waits s -> (inbox_size (socket s) < fuel)%nat -> all_fit (run_of (to_come (socket s)) s) ->
  let '(s', r) := loop fuel (client_round gzip brotli zstd pages clock) s in session s s' r.
Proof.
  revert s. induction fuel as [|fuel IH]; intros s Hwt Hm Hf; [lia|]. pose proof Hwt as [Hr Hdr]. cbn [loop].
  unfold client_round at 1. destruct (wanted READ_CHUNK (decoder s) =? 0) eqn:Hw.
  { by apply session_stops. }
  apply N.eqb_neq in Hw. pose proof (read_spec s Hr Hw) as Hrd.
  destruct (read_timeout (wanted READ_CHUNK (decoder s)) (socket s)) as [s1 o] eqn:Hread. destruct Hrd as (Hon & Hr1 & Hd1).
  pose proof (read_timeout_to_come _ _ _ _ Hread) as Htc. pose proof (read_timeout_written _ _ _ _ Hread) as [Hwr _].
  unfold mbind, st_bind. rewrite Hon. remember (match o with Got data => data | _ => [] end) as y eqn:Hyo.
  set (sr := set_io (rq_extend y (decoder s), s1) s) in *.
  assert (Hstop : y = [] -> session s sr (Ok Left)) by (intros Hy; apply session_stops; [done| |done]; by rewrite Htc, Hy).
  assert (Hgo : y <> [] -> (inbox_size s1 < inbox_size (socket s))%nat).
  { intros Hy. subst y. destruct o as [data| |]; try done. apply (read_timeout_size _ _ _ _ (proj1 (N.neq_0_lt_0 _) Hw) Hread Hy). }
  assert (Hcases : o = Got y /\ y <> [] \/ y = [] /\ match o with Got [] | Failed | TimedOut => True | _ => False end)
    by (subst y; clear; destruct o as [[|b data]| |]; by (left + right)).
  destruct Hcases as [[Ho Hy] | [Hy Ho]]; [clear Hyo; subst o|].
  2: { destruct o as [[|b data]| |]; try done; by apply Hstop. }
  assert (Hne : forall A (a b : A), match y with [] => a | _ :: _ => b end = b) by (by destruct y). rewrite Hne. clear Hne Hstop.
  specialize (Hgo Hy). pose proof (ready_parts (as_decoded s) y (to_come s1) (ready_inv s Hr)) as Hparts.
  unfold run_of in Hf. rewrite Htc in Hf. apply (all_fit_same _ _ Hparts) in Hf.
  pose proof (request_loop_spec (S (S (length (rq_remaining (decoder sr))))) sr Hr1) as Hl.
  unfold request_loop. rewrite Hd1 in Hl. destruct (decode_ready (rq_extend y (as_decoded s))) as [[d' ms] e] eqn:Hrun.
  assert (Hms : Forall page_fits ms).
  { destruct e; [done|]. cbn [and_then] in Hf. destruct (decode_ready (rq_extend (to_come s1) d')) as [[d2 ms2] e2].
    cbn [after all_fit] in Hf. by apply Forall_app in Hf as [? _]. }
  destruct Hl as (s2 & r & -> & Hin & Hpost & Hnone); [|done|].
  { rewrite <- Hd1. unfold all_measure, as_decoded, rq_buffered, core_buffered, rq_remaining, core_remaining. destruct (head (state sr)); cbn -[sr]; [lia|].
    unfold between. destruct (c_phase (core sr)); cbn -[sr]; lia. }
  change (inbox (socket sr)) with (inbox s1) in Hin. assert (Htc2 : to_come (socket s2) = to_come s1) by (unfold to_come; by rewrite Hin).
  assert (Hpost2 : forall A (f : A -> bool) r', match r, r' with Ok a, Ok b => no_break a = f b | Err a, Err b => a = b | _, _ => False end ->
    session_post f s s2 ms e r').
  { intros A f r' Hrr. unfold session_post in *. change (written (socket sr)) with (written s1) in Hpost. rewrite Hwr in Hpost.
    change (conn_state sr) with (conn_state s) in Hpost. destruct (transcript _ _ ms) as [out op].
    destruct r, r'; try done; [by rewrite Hrr in Hpost | by subst]. }
  destruct r as [[[]|]|x].
  - exists y. split; [by rewrite Htc2|]. unfold run_of. rewrite Hrun. by apply Hpost2.
  - destruct (Hnone eq_refl) as (Hd2 & Hr2 & Hc2). cbn [mret st_ret].
    assert (e = None) as -> by (unfold session_post in Hpost; destruct (transcript _ _ ms) as [out op]; cbn in Hpost; by destruct Hpost).
    assert (Hwt2 : waits s2). { split; [done|]. rewrite Hd2. eapply ready_drained; [|exact Hrun]. by apply rq_extend_inv, ready_inv. }
    specialize (IH s2 Hwt2). unfold run_of in IH. rewrite Hd2, Htc2 in IH. cbn [and_then] in Hf.
    assert (Hf2 : all_fit (decode_ready (rq_extend (to_come s1) d'))).
    { destruct (decode_ready _) as [[d2 ms2] e2]. cbn [after all_fit] in *. by apply Forall_app in Hf as [_ ?]. }
    specialize (IH ltac:(unfold inbox_size in *; rewrite Hin; lia) Hf2).
    destruct (loop fuel _ s2) as [s' r]. eapply (session_goes_on s sr s2); try done. by rewrite Htc2.
  - exists y. split; [by rewrite Htc2|]. unfold run_of. rewrite Hrun. by apply Hpost2.
Qed.
End Session.

(** ** Writes that fail *)

Section AnyNetwork.
Context (gzip brotli zstd : bytes -> result str bytes) (pages : Site.site) (clock : N -> N) (wire : Wire).

Definition output (s : Connection) : list bytes := [written (socket s)].

Abbreviation wired := (Io.wired output).

Lemma send_wired data : wired (send (wire := wire) data) (send (wire := calm) data).
Proof.
  assert (Hs : forall s k, ahead output s (set_io (decoder s, k) s) <-> written (socket s) `prefix_of` written k).
  { intros s k. unfold ahead. cbn. split; [by inversion 1|by repeat constructor]. }
  apply wired_bind; [|intros _]; apply wired_part; try (intros s k; by apply Hs); try (intros s k1 k2 Hk; by repeat constructor);
    intros k; [apply write_all_cut | apply flush_cut].
Qed.

Lemma serve_request_wired :
  wired (serve_request gzip brotli zstd pages clock (wire := wire)) (serve_request gzip brotli zstd pages clock (wire := calm)).
Proof.
  unfold serve_request. apply wired_bind; [by apply wired_silent|]. intros s. apply wired_bind; [apply wired_silent; by destruct (head (state s))|].
  intros h. apply wired_bind; [by apply wired_silent|]. intros _.
  assert (Hanswer : wired
    (request ← lift (map_err Encoding (rebuild_request h (body (state s))));
     _ ← modify (set_state StreamingState_new);
     _ ← count_request;
     c ← gets conn_state;
     let keep := is_keep_alive request && (request_count c <? max_requests c) in
     response ← lift (map_err Encoding (Site.build_response gzip brotli zstd pages (clock (request_count c)) request keep));
     data ← lift (map_err Encoding (encode_response response));
     _ ← send (wire := wire) data;
     mret keep)
    (request ← lift (map_err Encoding (rebuild_request h (body (state s))));
     _ ← modify (set_state StreamingState_new);
     _ ← count_request;
     c ← gets conn_state;
     let keep := is_keep_alive request && (request_count c <? max_requests c) in
     response ← lift (map_err Encoding (Site.build_response gzip brotli zstd pages (clock (request_count c)) request keep));
     data ← lift (map_err Encoding (encode_response response));
     _ ← send (wire := calm) data;
     mret keep)).
  { apply wired_bind; [apply wired_lift|]. intros r. do 2 (apply wired_bind; [by apply wired_silent|]; intros _).
    apply wired_bind; [by apply wired_silent|]. intros c. apply wired_bind; [apply wired_lift|]. intros a.
    apply wired_bind; [apply wired_lift|]. intros data. apply wired_bind; [apply send_wired|]. intros _. by apply wired_silent. }
  destruct (body_kind (state s)) as [[n| | | |]|]; [exact Hanswer..| |exact Hanswer].
  apply wired_bind; [apply wired_lift|]. intros r. apply wired_bind; [apply wired_lift|]. intros data.
  apply wired_bind; [apply send_wired|]. intros _. by apply wired_silent.
Qed.

Lemma take_head_silent : wired take_head take_head.
Proof.
  apply wired_silent. intros s. unfold take_head. destruct (head (state s)); [done|]. unfold mbind, st_bind, on_part.
  by destruct (rq_decode_headers _) as [d [[[h k]|]|[]]].
Qed.

Lemma take_body_silent : wired take_body take_body.
Proof.
  unfold take_body. apply wired_bind; [apply wired_silent; intros s; unfold mbind, st_bind, get; by destruct (body_kind (state s))|].
  intros k. apply wired_silent. intros s. unfold on_part. by destruct (stream_body _ _) as [[d b] r].
Qed.

Lemma serve_round_wired :
  wired (serve_round gzip brotli zstd pages clock (wire := wire)) (serve_round gzip brotli zstd pages clock (wire := calm)).
Proof.
  unfold serve_round. apply wired_bind; [apply take_head_silent|]. intros [|]; [|by apply wired_silent]. cbn [negb].
  apply wired_bind; [apply take_body_silent|]. intros [|]; [|by apply wired_silent]. cbn [negb].
  apply wired_bind; [apply serve_request_wired|]. intros b. by apply wired_silent.
Qed.

Lemma client_round_wired :
  wired (client_round gzip brotli zstd pages clock (wire := wire)) (client_round gzip brotli zstd pages clock (wire := calm)).
Proof.
  intros s. unfold wired_at, client_round. destruct (wanted READ_CHUNK (decoder s) =? 0); [by split; [apply ahead_same | left]|].
  apply wired_bind_at.
  - apply wired_silent_at. unfold output, on_part, receive. destruct (on_core _ _) as [d [[]|x]]; [|by destruct x].
    destruct (read_timeout _ _) as [k o] eqn:Hr. apply read_timeout_written in Hr as [Hw _]. cbn. by rewrite Hw.
  - intros o. assert (Hgo : wired
      (answered ← request_loop gzip brotli zstd pages clock (wire := wire);
       match answered with None => mret Continue | Some _ => mret (Break Returned) end)
      (answered ← request_loop gzip brotli zstd pages clock (wire := calm);
       match answered with None => mret Continue | Some _ => mret (Break Returned) end)).
    { apply wired_bind; [|intros [[]|]; by apply wired_silent]. intros t. apply wired_loop, serve_round_wired. }
    destruct o as [[|b data]| |]; [by apply wired_silent|exact Hgo|by apply wired_silent..].
Qed.

(** The run on any network is the run on the calm one, or it is cut off. *)
Lemma handle_client_wired :
  wired (handle_client gzip brotli zstd pages clock (wire := wire)) (handle_client gzip brotli zstd pages clock (wire := calm)).
Proof. intros s. apply wired_loop, client_round_wired. Qed.
End AnyNetwork.

(** ** The connection *)

Section Theorems.
Context (gzip brotli zstd : bytes -> result str bytes) (pages : Site.site) (clock : N -> N).


(** C23: The client reads the answer to its request: a request that came out of the
    decoder has a response, whose encoding, with whatever behind it, the response
    decoder of the client (any that admits it, knowing the method) reads as that
    response and nothing more.  The method must be HEAD in capitals or not at
    all: the server takes head for HEAD and leaves the body out. *)
Theorem server_answer_received limit n m :
  sendable (B "Server", Site.server_name pages) = true ->
  received DecoderLimits_default m -> page_fits pages clock m ->
  eq_ignore_ascii_case (Request.method m) (B "HEAD") = (Request.method m =s B "HEAD") ->
  exists r, Site.build_response gzip brotli zstd pages (clock n) m (keep limit n m) = Ok r /\
    Site.answer_ok pages (clock n) m (keep limit n m) r /\
    forall limits d rest, Site.admits_answer limits r ->
      rs_idle limits (Some (Request.method m)) (reply gzip brotli zstd pages clock limit n m ++ rest) d ->
      exists d', rs_decode (D := NoCompression) d = (d', Ok (Some (sent_response (Some (Request.method m)) r))) /\
        rs_idle limits None rest d'.
Proof.
  intros Hn Hr Hf Hh. destruct (reply_spec gzip brotli zstd pages clock Hn limit n m Hf) as (r & Hb & He & Ha).
  exists r. split_and!; [done..|]. intros limits d rest Had Hid. apply (response_step limits (Some (Request.method m)) d r _ rest He); [|done].
  apply (Site.answer_receivable Ha (Hf n)); [done | by destruct Hr | done].
Qed.
End Theorems.

(** ** Runs *)

Definition first_bytes : bytes := B "GET /info HTTP/1.1" ++ CRLF ++ B "Host: a" ++ CRLF ++ CRLF.
Definition second_bytes : bytes :=
  B "POST /echo HTTP/1.1" ++ CRLF ++ B "Host: a" ++ CRLF ++ B "Connection: close" ++ CRLF ++ B "Content-Length: 2" ++ CRLF ++ CRLF ++ B "ok".

(** Both requests, in three pieces, and more behind them. *)
Definition example_socket : Socket :=
  {| inbox := [Arrived (take 20 first_bytes); Arrived (drop 20 first_bytes ++ take 60 second_bytes);
               Arrived (drop 60 second_bytes ++ B "GET"); Silence]; written := []; flushed := 0 |}.

Definition no_coder (_ : bytes) : result str bytes := Err [].
Definition at_epoch (_ : N) : N := 0.

Abbreviation run_server sock :=
  (handle_client no_coder no_coder no_coder server_site at_epoch (connection_start sock)).

Example server_answers :
  let '(s', r) := run_server example_socket in
  r = Ok Returned /\ request_count (conn_state s') = 2 /\
  starts_with (B "HTTP/1.1 200 OK" ++ CRLF ++ B "Date: Thu, 01 Jan 1970 00:00:00 GMT" ++ CRLF) (written (socket s')) = true /\
  ends_with (B "Body (2 bytes):" ++ [LF] ++ B "ok") (written (socket s')) = true /\
  flushed (socket s') = length (written (socket s')).
Proof. vm_compute. done. Qed.

(** CONNECT, and a head that is none. *)
Definition connect_socket : Socket :=
  {| inbox := [Arrived (first_bytes ++ B "CONNECT a:80 HTTP/1.1" ++ CRLF ++ B "Host: a:80" ++ CRLF ++ CRLF)]; written := []; flushed := 0 |}.

Example connect_refused :
  let '(s', r) := run_server connect_socket in r = Ok Returned /\ ends_with refusal (written (socket s')) = true.
Proof. vm_compute. done. Qed.

(** A method is compared without case where the response is built, and with it where
    the client reads: the answer to head has a Content-Length and no body. *)
Definition head_request : Request.t :=
  Request.from_raw_parts (B "head") (B "/info") (B "HTTP/1.1") [(B "Host", B "a")] None.

Example lower_case_head :
  match Site.build_response no_coder no_coder no_coder server_site 0 head_request true with
  | Ok r => Response.omit_body r = true /\ get_header (B "Content-Length") r = Some (B "61")
  | Err _ => False
  end.
Proof. vm_compute. done. Qed.

Lemma example_pages_fit :
  Forall (page_fits server_site at_epoch) (snd (fst (decode_ready (rq_feed_unchecked (to_come example_socket) start)))).
Proof.
  set (ms := snd _). assert (Hb : forallb (fun m => blen (Site.page server_site 0 m) <=? usize_MAX) ms = true) by (vm_compute; reflexivity).
  rewrite forallb_forall in Hb. apply List.Forall_forall. intros m Hm n. by apply N.leb_le, Hb.
Qed.


Definition info_request : Request.t :=
  Request.from_raw_parts (B "GET") (B "/info") (B "HTTP/1.1") [(B "Host", B "a")] None.

Lemma server_answer_received_witness :
  exists r, Site.build_response no_coder no_coder no_coder server_site 0 info_request true = Ok r /\
    exists d', rs_decode (set_request_method (B "GET") (fresh_response_decoder
        (reply no_coder no_coder no_coder server_site at_epoch 9 1 info_request ++ B "HTTP"))) =
      (d', Ok (Some (sent_response (Some (B "GET")) r))).
Proof.
  assert (Hr : received DecoderLimits_default info_request).
  { assert (Hd : exists d', rq_decode (rq_feed_unchecked first_bytes start) = (d', Ok (Some info_request))) by (eexists; vm_compute; reflexivity).
    destruct Hd as [d' Hd]. pose proof (rq_decode_received DecoderLimits_default (rq_feed_unchecked first_bytes start)
      (rq_extend_inv first_bytes start (rq_new_inv NoCompression_new DecoderLimits_default limits_ok_default))) as Hx.
    rewrite Hd in Hx. destruct Hx as [_ Hx]; [by repeat split | exact Hx]. }
  destruct (server_answer_received no_coder no_coder no_coder server_site at_epoch 9 1 info_request eq_refl Hr) as (r & Hb & _ & Hd);
    [intros n; vm_compute; discriminate | reflexivity|].
  exists r. split; [exact Hb|].
  assert (Ha : Site.admits_answer DecoderLimits_default r).
  { assert (Hc : match Site.build_response no_coder no_coder no_coder server_site (at_epoch 1) info_request (keep 9 1 info_request) with
        | Ok r => (blen (Response.headers r) <=? 100) && forallb (fun h => blen (line_of h) <=? 8192) (Response.headers r)
                  && (body_len (Response.body r) <=? 61)
        | Err _ => false
        end = true) by (vm_compute; reflexivity).
    rewrite Hb in Hc. apply andb_true_iff in Hc as [Hc Hl]. split_and!; [apply limits_ok_default | by apply fits_check |].
    apply N.leb_le in Hl. etransitivity; [exact Hl | vm_compute; discriminate]. }
  destruct (Hd DecoderLimits_default (set_request_method (B "GET") (fresh_response_decoder
        (reply no_coder no_coder no_coder server_site at_epoch 9 1 info_request ++ B "HTTP"))) (B "HTTP") Ha) as (d' & He & _).
  { apply set_method_idle with None. apply fresh_response_decoder_idle. }
  exists d'. exact He.
Defined.
End ServerSession.
