(* ===== verification/Uring.v ===== *)
(** * The server on io_uring ([examples/http11_server_io_uring/src/main.rs])

    One thread submits operations to the kernel and handles their completions;
    each connection is a state machine that has one operation in flight.  The
    TLS library, the key material handed to the kernel and the slab that numbers
    the connections are other crates: the class [Tls], and the argument [vacant_key].
    The kernel is the step relation of [UringOrder]. *)
From stdpp Require Import gmap.
From S2P Require Import Prelude RustStd RustStr Errors Validate Head Message Buffer BodyDecoder Compression DecoderCore RequestDecoder Encoder Io Site Server.

Module Uring.

Abbreviation Rq := (RequestDecoder NoCompression).

Definition DEFAULT_MAX_REQUESTS : N := 1000.
Definition READ_BUF_SIZE : N := 8192.
Definition RING_ENTRIES : N := 256.
Definition SOL_TCP : N := 6.
Definition SOL_TLS : N := 282.
Definition TCP_ULP : N := 31.
Definition TLS_TX : N := 1.
Definition TLS_RX : N := 2.

Inductive ConnectionState : Type :=
  | HandshakeReading | HandshakeWriting | EnablingKtls | Reading | Writing | Closing.

Inductive OpType : Type := Accept | Read | Write | Close | SetSockOpt.

(** ** The user data of an operation *)

Record UserData := { conn_id : N; op_type : OpType }.

Definition op_bits (op : OpType) : N :=
  match op with Accept => 0 | Read => 1 | Write => 2 | Close => 3 | SetSockOpt => 4 end.

(** [(conn_id as u64) << 32 | op_bits]: the high bits are shifted out. *)
Definition encode_user_data (conn_id : N) (op : OpType) : N :=
  N.lor (N.shiftl conn_id 32 mod 2 ^ 64) (op_bits op).

Definition decode_user_data (value : N) : UserData :=
  {| conn_id := N.shiftr value 32;
     op_type := match N.land value 4294967295 with
                | 0 => Accept | 1 => Read | 2 => Write | 3 => Close | 4 => SetSockOpt | _ => Close
                end |}.

(** ** The TLS library *)

(** What [read_to_end] on the decrypted data ends with. *)
Inductive drain_end : Type := DrainedAll | WouldBlock | DrainFailed.

(** A server session: [C] the connection, [U] the suite, [K] the secrets of a
    direction, [I] what the kernel is given for it. *)
Class Tls (C U K I : Type) := {
  tls_new : result str C;
  read_tls : bytes -> C -> C * result str N;
  process_new_packets : C -> C * result str unit;
  wants_write : C -> bool;
  (** The bytes that are appended to the buffer. *)
  write_tls : C -> C * result unit bytes;
  is_handshaking : C -> bool;
  negotiated_cipher_suite : C -> option U;
  read_to_end : C -> C * (bytes * drain_end);
  dangerous_extract_secrets : C -> result str (K * K);
  from_rustls : U -> K -> result str I
}.

Section Program.
Context {C U K I : Type} `{Tls C U K I}.

(** ** State *)

(** The fields of [Connection] for the handshake, and those for the output. *)
Record Session := {
  tls_conn : option C;
  cipher_suite : option U;
  ktls_tx : option I;
  ktls_rx : option I;
  ulp_name : bytes;
  ktls_pending_ops : N
}.

Record Output := {
  write_buf : bytes;
  write_offset : nat;
  current_write_should_keep_alive : bool;
  pending_writes : list (bytes * bool)
}.

Record Connection := {
  fd : N;
  state : ConnectionState;
  session : Session;
  decoder : Rq;
  read_buf : bytes;
  output : Output;
  request_count : N
}.

Definition connection_with (fd : N) (tls : C) : Connection := {|
  fd := fd; state := HandshakeReading;
  session := {| tls_conn := Some tls; cipher_suite := None; ktls_tx := None; ktls_rx := None;
                ulp_name := B "tls" ++ ["000"%byte]; ktls_pending_ops := 0 |};
  decoder := rq_new NoCompression_new DecoderLimits_default;
  read_buf := replicate (N.to_nat READ_BUF_SIZE) "000"%byte;
  output := {| write_buf := []; write_offset := 0; current_write_should_keep_alive := true; pending_writes := [] |};
  request_count := 0
|}.

(** [Connection::new]; [None]: its [expect] panics. *)
Definition connection_new (fd : N) : option Connection :=
  match tls_new with Ok tls => Some (connection_with fd tls) | Err _ => None end.

Definition set_state (x : ConnectionState) (c : Connection) : Connection := {|
  fd := fd c; state := x; session := session c; decoder := decoder c; read_buf := read_buf c; output := output c; request_count := request_count c |}.
Definition set_session (x : Session) (c : Connection) : Connection := {|
  fd := fd c; state := state c; session := x; decoder := decoder c; read_buf := read_buf c; output := output c; request_count := request_count c |}.
Definition set_decoder (x : Rq) (c : Connection) : Connection := {|
  fd := fd c; state := state c; session := session c; decoder := x; read_buf := read_buf c; output := output c; request_count := request_count c |}.
Definition set_read_buf (x : bytes) (c : Connection) : Connection := {|
  fd := fd c; state := state c; session := session c; decoder := decoder c; read_buf := x; output := output c; request_count := request_count c |}.
Definition set_output (x : Output) (c : Connection) : Connection := {|
  fd := fd c; state := state c; session := session c; decoder := decoder c; read_buf := read_buf c; output := x; request_count := request_count c |}.
Definition set_count (x : N) (c : Connection) : Connection := {|
  fd := fd c; state := state c; session := session c; decoder := decoder c; read_buf := read_buf c; output := output c; request_count := x |}.

Definition with_tls_conn (x : option C) (s : Session) : Session := {|
  tls_conn := x; cipher_suite := cipher_suite s; ktls_tx := ktls_tx s; ktls_rx := ktls_rx s; ulp_name := ulp_name s; ktls_pending_ops := ktls_pending_ops s |}.
Definition with_keys (suite : option U) (tx rx : option I) (s : Session) : Session := {|
  tls_conn := tls_conn s; cipher_suite := suite; ktls_tx := tx; ktls_rx := rx; ulp_name := ulp_name s; ktls_pending_ops := ktls_pending_ops s |}.
Definition with_pending_ops (x : N) (s : Session) : Session := {|
  tls_conn := tls_conn s; cipher_suite := cipher_suite s; ktls_tx := ktls_tx s; ktls_rx := ktls_rx s; ulp_name := ulp_name s; ktls_pending_ops := x |}.

Definition with_write (buf : bytes) (offset : nat) (o : Output) : Output := {|
  write_buf := buf; write_offset := offset; current_write_should_keep_alive := current_write_should_keep_alive o; pending_writes := pending_writes o |}.
Definition with_pending (x : list (bytes * bool)) (o : Output) : Output := {|
  write_buf := write_buf o; write_offset := write_offset o; current_write_should_keep_alive := current_write_should_keep_alive o; pending_writes := x |}.

(** ** The ring *)

(** An option of a socket is text or the keys of a direction. *)
Inductive SockValue : Type := UlpName (name : bytes) | Keys (info : I).

(** The kernel reads from the buffer of a write while it is in flight; the
    server leaves that buffer alone until then, so that the bytes are fixed when
    the write is submitted.  A read goes to the buffer of the connection. *)
Inductive Operation : Type :=
  | OpAccept
  | OpRead (fd : N) (len : N)
  | OpWrite (fd : N) (data : bytes)
  | OpClose (fd : N)
  | OpSetSockOpt (fd level name : N) (value : SockValue).

Record Entry := { operation : Operation; io_link : bool; user_data : N }.

(** The operations in flight, and the room in the submission queue. *)
Record Ring := { in_flight : list Entry; room : N }.

Definition push (e : Entry) : st Ring BoxedError unit := fun r =>
  if room r =? 0 then throw (Text (B "submission queue full")) r
  else ({| in_flight := in_flight r ++ [e]; room := room r - 1 |}, Ok tt).

Definition plain_entry (op : Operation) (data : N) : Entry := {| operation := op; io_link := false; user_data := data |}.
Definition linked_entry (op : Operation) (data : N) : Entry := {| operation := op; io_link := true; user_data := data |}.

(** [usize::MAX] for the connection. *)
Definition submit_accept : st Ring BoxedError unit :=
  push (plain_entry OpAccept (encode_user_data (2 ^ 64 - 1) Accept)).

(** ** A connection

    The functions take the slab and the number of the connection and index the
    slab; here they take the connection, and [at_connection] below is the indexing. *)

Definition Local : Type := Ring * Connection.

Definition on_ring {A} (m : st Ring BoxedError A) : st Local BoxedError A := fun '(r, c) => let '(r', x) := m r in ((r', c), x).
Definition on_conn {A} (m : st Connection BoxedError A) : st Local BoxedError A := fun '(r, c) => let '(c', x) := m c in ((r, c'), x).
Definition the_conn : st Local BoxedError Connection := fun l => (l, Ok (snd l)).
Definition update (f : Connection -> Connection) : st Local BoxedError unit := on_conn (modify f).

(** [if let Err(e) = m { .. }]. *)
Definition attempt {A} (m : st Local BoxedError A) : st Local BoxedError (result BoxedError A) := fun l =>
  let '(l', r) := m l in
  match r with
  | Ok a => (l', Ok (Ok a))
  | Err (Throw e) => (l', Ok (Err e))
  | Err Panic => (l', Err Panic)
  | Err Diverge => (l', Err Diverge)
  end.

Section One.
Context (id : N).

Definition submit_read : st Local BoxedError unit :=
  c ← the_conn;
  on_ring (push (plain_entry (OpRead (fd c) (blen (read_buf c))) (encode_user_data id Read))).

(** [&conn.write_buf[conn.write_offset..]] panics when the offset is out of range. *)
Definition submit_write : st Local BoxedError unit :=
  c ← the_conn;
  let o := output c in
  remaining ← unwrap (if (write_offset o <=? length (write_buf o))%nat then Some (drop (write_offset o) (write_buf o)) else None);
  on_ring (push (plain_entry (OpWrite (fd c) remaining) (encode_user_data id Write))).

Definition submit_close (fd : N) : st Ring BoxedError unit := push (plain_entry (OpClose fd) (encode_user_data id Close)).

Definition submit_enable_ktls : st Local BoxedError unit :=
  c ← the_conn;
  let s := session c in
  let data := encode_user_data id SetSockOpt in
  tx ← unwrap (ktls_tx s);
  rx ← unwrap (ktls_rx s);
  _ ← on_ring (push (linked_entry (OpSetSockOpt (fd c) SOL_TCP TCP_ULP (UlpName (ulp_name s))) data));
  _ ← on_ring (push (linked_entry (OpSetSockOpt (fd c) SOL_TLS TLS_TX (Keys tx)) data));
  _ ← on_ring (push (plain_entry (OpSetSockOpt (fd c) SOL_TLS TLS_RX (Keys rx)) data));
  update (fun c => set_session (with_pending_ops 3 (session c)) c).

(** [close_connection]: the connection stays until the close is complete. *)
Definition close_connection : st Local BoxedError unit :=
  c ← the_conn;
  on_ring (submit_close (fd c)).

(** *** Requests *)

Section Answers.
Context (gzip brotli zstd : bytes -> result str bytes) (pages : Site.site).
(** The system clock when the request with this number of the connection is answered. *)
Context (clock : N -> N).

(** A round of [while let Some(request) = conn.decoder.decode()?]; the number
    goes with the connection. *)
Definition answer_round : st (Connection * N) BoxedError (flow unit) :=
  request ← on_part (fun '(c, _) => decoder c) (fun d '(c, n) => (set_decoder d c, n)) Decoding rq_decode;
  match request with
  | None => mret (Break tt)
  | Some request =>
      _ ← modify (fun '(c, n) => (c, n + 1));
      n ← gets snd;
      let should_keep_alive := is_keep_alive request && (n <? DEFAULT_MAX_REQUESTS) in
      response ← lift (map_err Encoding (Site.build_response gzip brotli zstd pages (clock n) request should_keep_alive));
      data ← lift (map_err Encoding (encode_response response));
      _ ← modify (fun '(c, n) => (set_output (with_pending (pending_writes (output c) ++ [(data, should_keep_alive)]) (output c)) c, n));
      mret (if should_keep_alive then Continue else Break tt)
  end.

(** The loop, and the number stored at its end. *)
Definition answer_all : st Connection BoxedError unit := fun c =>
  let '((c', n), r) := loop (S (S (length (rq_remaining (decoder c))))) answer_round (c, request_count c) in
  match r with
  | Ok _ => (set_count n c', Ok tt)
  | Err e => (c', Err e)
  end.

(** [drain_and_feed_leftover]: the TLS connection has been taken out. *)
Definition drain_and_feed_leftover (tls : C) : st Connection BoxedError unit :=
  let '(_, (leftover, e)) := read_to_end tls in
  match e with
  | DrainFailed => throw IoFailed
  | DrainedAll | WouldBlock =>
      if is_empty leftover then mret tt
      else
        _ ← on_part decoder set_decoder Decoding (rq_feed leftover);
        answer_all
  end.

(** The next response; the entry is put back when the write cannot be
    submitted.  [false]: there is none. *)
Definition send_next : st Local BoxedError bool := fun l =>
  let o := output (snd l) in
  match pending_writes o with
  | [] => (l, Ok false)
  | (response_bytes, should_keep_alive) :: rest =>
      let c := set_state (if should_keep_alive then Writing else Closing)
        (set_output {| write_buf := response_bytes; write_offset := 0;
                       current_write_should_keep_alive := should_keep_alive; pending_writes := rest |} (snd l)) in
      let '(l', r) := submit_write (fst l, c) in
      match r with
      | Ok _ => (l', Ok true)
      | Err e =>
          let o := output (snd l') in
          ((fst l', set_output {| write_buf := []; write_offset := 0;
              current_write_should_keep_alive := current_write_should_keep_alive o;
              pending_writes := (write_buf o, current_write_should_keep_alive o) :: pending_writes o |} (snd l')), Err e)
      end
  end.

(** A response, or a read when there is none. *)
Definition send_or_read : st Local BoxedError unit :=
  sent ← send_next;
  if (sent : bool) then mret tt
  else _ ← update (set_state Reading); submit_read.

(** *** The handshake *)

(** A method of the TLS connection, which has to be there. *)
Definition on_tls {A} (m : C -> C * A) : st Local BoxedError A :=
  c ← the_conn;
  tls ← unwrap (tls_conn (session c));
  let '(tls', a) := m tls in
  _ ← update (fun c => set_session (with_tls_conn (Some tls') (session c)) c);
  mret a.

Definition the_tls : st Local BoxedError C := c ← the_conn; unwrap (tls_conn (session c)).

(** The end of the handshake: the plaintext is drained, then the keys of the session
    without it go to the kernel. *)
Definition finish_handshake : st Local BoxedError unit :=
  tls ← the_tls;
  suite ← lift (ok_or (Text (B "TLS handshake succeeded but no cipher suite negotiated")) (negotiated_cipher_suite tls));
  _ ← update (fun c => set_session (with_tls_conn None (session c)) c);
  drained ← attempt (on_conn (drain_and_feed_leftover tls));
  match drained with
  | Err _ => close_connection
  | Ok _ =>
      secrets ← lift (map_err (fun e => Text (B "failed to extract TLS secrets: " ++ e)) (dangerous_extract_secrets (fst (read_to_end tls))));
      tx ← lift (map_err (fun e => Text (B "failed to create ktls TX info: " ++ e)) (from_rustls suite (fst secrets)));
      rx ← lift (map_err (fun e => Text (B "failed to create ktls RX info: " ++ e)) (from_rustls suite (snd secrets)));
      _ ← update (fun c => set_state EnablingKtls (set_session (with_keys (Some suite) (Some tx) (Some rx) (session c)) c));
      submit_enable_ktls
  end.

(** Not finished: more is to come. *)
Definition finish_or_read : st Local BoxedError unit :=
  tls ← the_tls;
  if negb (is_handshaking tls) then finish_handshake
  else _ ← update (set_state HandshakeReading); submit_read.

Definition handshake_read (data : bytes) : st Local BoxedError unit :=
  read ← on_tls (read_tls data);
  match read with
  | Err _ => close_connection
  | Ok _ =>
      processed ← on_tls process_new_packets;
      match processed with
      | Err _ => close_connection
      | Ok _ =>
          tls ← the_tls;
          if wants_write tls then
            _ ← update (fun c => set_output (with_write [] 0 (output c)) c);
            written ← on_tls write_tls;
            data ← lift (map_err (fun _ => IoFailed) written);
            _ ← update (fun c => set_state HandshakeWriting (set_output (with_write data 0 (output c)) c));
            submit_write
          else finish_or_read
      end
  end.

(** ** The handlers *)

(** [&conn.read_buf[..bytes_read]], which panics when it is out of range. *)
Definition read_data (bytes_read : N) : st Local BoxedError bytes :=
  c ← the_conn;
  unwrap (if bytes_read <=? blen (read_buf c) then Some (take (N.to_nat bytes_read) (read_buf c)) else None).

Definition handle_read (bytes_read : N) : st Local BoxedError unit :=
  c ← the_conn;
  match state c with
  | HandshakeReading | HandshakeWriting => data ← read_data bytes_read; handshake_read data
  | Reading =>
      data ← read_data bytes_read;
      _ ← on_conn (on_part decoder set_decoder Decoding (rq_feed data));
      _ ← on_conn answer_all;
      sent ← send_next;
      if (sent : bool) then mret tt else submit_read
  | _ => mret tt
  end.

Definition handle_write (bytes_written : N) : st Local BoxedError unit :=
  _ ← update (fun c => set_output (with_write (write_buf (output c)) (write_offset (output c) + N.to_nat bytes_written) (output c)) c);
  c ← the_conn;
  if (write_offset (output c) <? length (write_buf (output c)))%nat then submit_write
  else
    _ ← update (fun c => set_output (with_write [] 0 (output c)) c);
    match state c with
    | HandshakeWriting => finish_or_read
    | Writing => send_or_read
    | Closing =>
        _ ← update (fun c => set_output (with_pending [] (output c)) c);
        close_connection
    | _ => mret tt
    end.

(** [ktls_pending_ops] is a [u8]. *)
Definition handle_setsockopt_complete : st Local BoxedError unit :=
  _ ← update (fun c => set_session (with_pending_ops ((ktls_pending_ops (session c) + 255) mod 256) (session c)) c);
  c ← the_conn;
  if ktls_pending_ops (session c) =? 0 then
    _ ← update (fun c => set_session (with_keys (cipher_suite (session c)) None None (session c)) c);
    send_or_read
  else mret tt.
End Answers.
End One.

(** ** The main loop *)

Record World := { ring : Ring; connections : gmap N Connection }.

(** [&mut connections[conn_id]]. *)
Definition at_connection {A} (id : N) (m : st Local BoxedError A) : st World BoxedError A := fun w =>
  match connections w !! id with
  | None => (w, Err Panic)
  | Some c =>
      let '((r, c'), x) := m (ring w, c) in
      ({| ring := r; connections := <[id := c']> (connections w) |}, x)
  end.

Definition on_world_ring {A} (m : st Ring BoxedError A) : st World BoxedError A := fun w =>
  let '(r, x) := m (ring w) in ({| ring := r; connections := connections w |}, x).

Section Main.
Context (gzip brotli zstd : bytes -> result str bytes) (pages : Site.site).

(** The handling of a completion, [result] negative for an error; the slab gives
    [vacant_key] to a new connection. *)
Definition handle_completion (vacant_key : N) (clock : N -> N) (data : UserData) (result : Z) : st World BoxedError unit :=
  let id := conn_id data in
  match op_type data with
  | Accept =>
      _ ← on_world_ring submit_accept;
      if (result <? 0)%Z then mret tt
      else
        conn ← unwrap (connection_new (Z.to_N result));
        _ ← modify (fun w => {| ring := ring w; connections := <[vacant_key := conn]> (connections w) |});
        at_connection vacant_key (submit_read vacant_key)
  | Read => fun w =>
      if negb (bool_decide (is_Some (connections w !! id))) then (w, Ok tt)
      else if (result <=? 0)%Z then at_connection id (close_connection id) w
      else at_connection id (handle_read id gzip brotli zstd pages clock (Z.to_N result)) w
  | Write => fun w =>
      if negb (bool_decide (is_Some (connections w !! id))) then (w, Ok tt)
      else if (result <? 0)%Z then at_connection id (close_connection id) w
      else at_connection id (handle_write id gzip brotli zstd pages clock (Z.to_N result)) w
  | SetSockOpt => fun w =>
      if negb (bool_decide (is_Some (connections w !! id))) then (w, Ok tt)
      else if (result <? 0)%Z then at_connection id (close_connection id) w
      else at_connection id (handle_setsockopt_complete id) w
  | Close => modify (fun w => {| ring := ring w; connections := delete id (connections w) |})
  end.

(** Where the loop starts: the first accept is in flight. *)
Definition main_start : World :=
  fst (on_world_ring submit_accept {| ring := {| in_flight := []; room := RING_ENTRIES |}; connections := ∅ |}).
End Main.
End Program.

Definition uring_site : Site.site := {|
  Site.home_page := Server.home "shiguredo_http11 Server (io_uring + kTLS)"
    "This server is powered by shiguredo_http11 library with io_uring and kTLS.";
  Site.info_page := fun now => B "{" ++ Server.member "server" "shiguredo_http11" ++ Server.member "version" "0.1.0"
    ++ Server.member "backend" "io_uring+kTLS" ++ Server.quoted "timestamp" ++ B ":" ++ show_dec now ++ B "}";
  Site.server_name := B "shiguredo_http11/0.1.0 (io_uring+kTLS)"
|}.
End Uring.
