(* ===== verification/UringOrder.v ===== *)
(** * The responses of the server on io_uring

    The kernel completes the operations in flight in any order, with any number of
    bytes; every step handles one completion.  In every state that can be reached
    each connection has an operation in flight, no handler panics, and what was
    written on a connection is a beginning of the answers to the requests that
    [decode] returns for the bytes it received, in their order. *)
From stdpp Require Import gmap.
From S2P Require Import Prelude RustStd RustStr Errors Validate Head Message Buffer BodyDecoder Compression DecoderCore CoreFacts RequestDecoder RequestFacts RequestTheorems Stream.
From S2P Require Import Encoder Io Streaming Site Server ServerSession Uring BufferLimit.

Module UringOrder.
Import Uring.

(** ** The user data *)

(** The number of a connection survives in the upper half. *)
Lemma user_data_roundtrip id op : id < 2 ^ 32 -> decode_user_data (encode_user_data id op) = {| conn_id := id; op_type := op |}.
Proof.
  intros Hid. unfold decode_user_data, encode_user_data. rewrite N.mod_small by (rewrite N.shiftl_mul_pow2; lia).
  rewrite N.shiftr_lor, N.shiftr_shiftl_l, N.shiftl_0_r by lia. rewrite N.land_lor_distr_l.
  assert (N.land (N.shiftl id 32) 4294967295 = 0) as ->.
  { change 4294967295 with (N.ones 32). rewrite N.land_ones, N.shiftl_mul_pow2. by apply N.Div0.mod_mul. }
  rewrite N.lor_0_l. destruct op; cbn; by rewrite N.lor_0_r.
Qed.

Section Order.
Context {C U K I : Type} `{Tls C U K I}.
Context (gzip brotli zstd : bytes -> result str bytes) (pages : Site.site).

Abbreviation Connection := (Connection (C := C) (U := U) (I := I)).
Abbreviation Operation := (Operation (I := I)).

(** ** The answers *)

Section Replies.
Context (clock : N -> N).

(** The responses to the messages after the first [n], with their flags: none
    after the first that closes the connection. *)
Fixpoint replies (n : N) (ms : list Request.t) : list (bytes * bool) :=
  match ms with
  | [] => []
  | m :: ms =>
      let keep := ServerSession.keep DEFAULT_MAX_REQUESTS (n + 1) m in
      (ServerSession.reply gzip brotli zstd pages clock DEFAULT_MAX_REQUESTS (n + 1) m, keep)
        :: if keep then replies (n + 1) ms else []
  end.

Lemma replies_transcript n ms :
  ServerSession.transcript gzip brotli zstd pages clock DEFAULT_MAX_REQUESTS n ms =
    (concat (map fst (replies n ms)), forallb snd (replies n ms)).
Proof.
  revert n. induction ms as [|m ms IH]; intros n; [done|]. cbn [ServerSession.transcript replies].
  destruct (ServerSession.keep _ _ m); [|cbn; by rewrite app_nil_r]. by rewrite IH.
Qed.

Lemma replies_app n ms1 ms2 :
  replies n (ms1 ++ ms2) = if forallb snd (replies n ms1) then replies n ms1 ++ replies (n + blen ms1) ms2 else replies n ms1.
Proof.
  revert n. induction ms1 as [|m ms1 IH]; intros n; cbn [app replies forallb].
  - by rewrite N.add_0_r.
  - cbn [forallb snd]. destruct (ServerSession.keep _ _ m); [|done]. cbn [andb]. rewrite IH.
    replace (n + blen (m :: ms1)) with (n + 1 + blen ms1) by (unfold blen; cbn; lia). by destruct (forallb _ _).
Qed.

(** Only the last closes the connection. *)
Lemma replies_last n ms done b rest : replies n ms = done ++ (b, false) :: rest -> rest = [].
Proof.
  revert n done. induction ms as [|m ms IH]; intros n done; cbn [replies]; [by destruct done|].
  destruct done as [|x done]; cbn [app]; [by intros [= _ ->]|]. destruct (ServerSession.keep _ _ m).
  - intros [= _ He]. by apply IH in He.
  - intros [= _ He]. by destruct done.
Qed.

Lemma replies_open n ms done b : replies n ms = done ++ [(b, true)] -> forallb snd (replies n ms) = true.
Proof.
  intros He. rewrite He, forallb_app. cbn. rewrite !andb_true_r.
  apply forallb_forall. intros [b' []] Hin; [done|]. apply List.in_split in Hin as (l1 & l2 & ->). rewrite <- app_assoc in He.
  apply replies_last in He. by destruct l2.
Qed.
End Replies.

(** ** What a handler does

    [wp id m c Q]: with whatever room in the ring, [m] on the connection [c] ends
    with an error of the code or in a state that satisfies [Q], which also gets
    the operations that [m] submitted, all of them for the connection [id]. *)

Definition kind_of (op : Operation) : OpType :=
  match op with
  | OpAccept => Accept | OpRead _ _ => Read | OpWrite _ _ => Write | OpClose _ => Close | OpSetSockOpt _ _ _ _ => SetSockOpt
  end.

Definition entry_for (id : N) (e : Entry (I := I)) : Prop :=
  decode_user_data (user_data e) = {| conn_id := id; op_type := kind_of (operation e) |}.

Definition wp {A} (id : N) (m : st Local BoxedError A) (c : Connection) (Q : A -> Connection -> list Operation -> Prop) : Prop :=
  forall r : Ring (I := I),
    match m (r, c) with
    | ((r', c'), Ok a) => exists es, in_flight r' = in_flight r ++ es /\ Forall (entry_for id) es /\ Q a c' (map operation es)
    | (_, Err e) => orderly (Err (A := unit) e)
    end.

Section Rules.
Context {A B : Type} (id : N).
Implicit Types (Q : A -> Connection -> list Operation -> Prop) (c : Connection).

Lemma wp_mono (m : st Local BoxedError A) c Q Q' : wp id m c Q -> (forall a c' ops, Q a c' ops -> Q' a c' ops) -> wp id m c Q'.
Proof.
  intros Hm HQ r. specialize (Hm r). destruct (m (r, c)) as [[r' c'] [a|e]]; [|done].
  destruct Hm as (es & ? & ? & ?). exists es. eauto.
Qed.

Lemma wp_ret a c Q : Q a c [] -> wp id (mret a) c Q.
Proof. intros HQ r. exists []. by rewrite app_nil_r. Qed.

Lemma wp_bind (m : st Local BoxedError A) (k : A -> st Local BoxedError B) c (Q : B -> Connection -> list Operation -> Prop) :
  wp id m c (fun a c1 ops1 => wp id (k a) c1 (fun b c2 ops2 => Q b c2 (ops1 ++ ops2))) -> wp id (m ≫= k) c Q.
Proof.
  intros Hm r. specialize (Hm r). unfold mbind, st_bind. destruct (m (r, c)) as [[r1 c1] [a|e]]; [|done].
  destruct Hm as (es1 & H1 & H2 & Hk). specialize (Hk r1). destruct (k a (r1, c1)) as [[r2 c2] [b|e]]; [|done].
  destruct Hk as (es2 & H3 & H4 & HQ). exists (es1 ++ es2). rewrite H3, H1, app_assoc, map_app. split; [done|].
  by rewrite Forall_app.
Qed.

Lemma wp_on_conn (m : st Connection BoxedError A) c Q :
  match m c with (c', Ok a) => Q a c' [] | (_, Err e) => orderly (Err (A := unit) e) end -> wp id (on_conn m) c Q.
Proof.
  intros Hm r. unfold on_conn. destruct (m c) as [c' [a|e]]; [|done]. exists []. by rewrite app_nil_r.
Qed.

Lemma wp_lift (x : result BoxedError A) c Q : (forall a, x = Ok a -> Q a c []) -> wp id (lift x) c Q.
Proof. intros HQ r. unfold lift. destruct x as [a|e]; [|done]. exists []. rewrite app_nil_r. eauto. Qed.

Lemma wp_unwrap (x : option A) a c Q : x = Some a -> Q a c [] -> wp id (unwrap x) c Q.
Proof. intros -> HQ r. exists []. by rewrite app_nil_r. Qed.

Lemma wp_attempt (m : st Local BoxedError A) c (Q : result BoxedError A -> Connection -> list Operation -> Prop) :
  (forall r, match m (r, c) with
   | ((r', c'), Ok a) => r' = r /\ Q (Ok a) c' []
   | ((r', c'), Err (Throw e)) => r' = r /\ Q (Err e) c' []
   | (_, Err _) => False
   end) -> wp id (attempt m) c Q.
Proof.
  intros Hm r. specialize (Hm r). unfold attempt. destruct (m (r, c)) as [[r' c'] [a|[e| |]]]; try done.
  all: destruct Hm as [-> HQ]; exists []; by rewrite app_nil_r.
Qed.
End Rules.

Lemma wp_update id f c (Q : unit -> Connection -> list Operation -> Prop) : Q tt (f c) [] -> wp id (update f) c Q.
Proof. intros HQ. by apply wp_on_conn. Qed.

Lemma wp_the_conn id c (Q : Connection -> Connection -> list Operation -> Prop) : Q c c [] -> wp id the_conn c Q.
Proof. intros HQ r. exists []. by rewrite app_nil_r. Qed.

Lemma wp_push id e c (Q : unit -> Connection -> list Operation -> Prop) :
  entry_for id e -> Q tt c [operation e] -> wp id (on_ring (push e)) c Q.
Proof.
  intros He HQ r. unfold on_ring, push. destruct (room r =? 0); [done|]. exists [e]. split; [done|]. split; [by constructor | done].
Qed.

Lemma entry_for_encode id op l : id < 2 ^ 32 -> entry_for id {| operation := op; io_link := l; user_data := encode_user_data id (kind_of op) |}.
Proof. intros Hid. unfold entry_for. cbn. by apply user_data_roundtrip. Qed.

Section One.
Context (id : N) (Hid : id < 2 ^ 32).
Implicit Types (c : Connection) (Q : unit -> Connection -> list Operation -> Prop).

Lemma wp_submit_read c Q : Q tt c [OpRead (fd c) (blen (read_buf c))] -> wp id (submit_read id) c Q.
Proof.
  intros HQ. unfold submit_read. apply wp_bind, wp_the_conn. cbn [app].
  apply wp_push; [by apply (entry_for_encode id (OpRead _ _)) | done].
Qed.

Lemma wp_submit_write c Q :
  (write_offset (output c) <= length (write_buf (output c)))%nat ->
  Q tt c [OpWrite (fd c) (drop (write_offset (output c)) (write_buf (output c)))] -> wp id (submit_write id) c Q.
Proof.
  intros Hle HQ. unfold submit_write. apply wp_bind, wp_the_conn, wp_bind. rewrite (proj2 (Nat.leb_le _ _) Hle). eapply wp_unwrap; [done|].
  cbn [app]. apply wp_push; [by apply (entry_for_encode id (OpWrite _ _)) | done].
Qed.

Lemma wp_close_connection c Q : Q tt c [OpClose (fd c)] -> wp id (close_connection id) c Q.
Proof.
  intros HQ. unfold close_connection. apply wp_bind, wp_the_conn. cbn [app].
  apply wp_push; [by apply (entry_for_encode id (OpClose _)) | done].
Qed.

Definition is_setsockopt (op : Operation) : Prop := match op with OpSetSockOpt _ _ _ _ => True | _ => False end.

Lemma wp_submit_enable_ktls c tx rx Q :
  ktls_tx (session c) = Some tx -> ktls_rx (session c) = Some rx ->
  (forall ops, Forall is_setsockopt ops -> length ops = 3%nat -> Q tt (set_session (with_pending_ops 3 (session c)) c) ops) ->
  wp id (submit_enable_ktls id) c Q.
Proof.
  intros Htx Hrx HQ. unfold submit_enable_ktls. apply wp_bind, wp_the_conn, wp_bind. eapply wp_unwrap; [done|].
  apply wp_bind. eapply wp_unwrap; [done|].
  do 3 (apply wp_bind, wp_push; [by apply (entry_for_encode id (OpSetSockOpt _ _ _ _))|]).
  apply wp_update. apply HQ; [by repeat constructor | done].
Qed.

(** The next response goes out, or there is none. *)
Definition started (b : bytes) (keep : bool) (rest : list (bytes * bool)) c : Connection :=
  set_state (if keep then Writing else Closing)
    (set_output {| write_buf := b; write_offset := 0; current_write_should_keep_alive := keep; pending_writes := rest |} c).

Lemma wp_send_next c (Q : bool -> Connection -> list Operation -> Prop) :
  match pending_writes (output c) with
  | [] => Q false c []
  | (b, keep) :: rest => Q true (started b keep rest c) [OpWrite (fd c) b]
  end -> wp id (send_next id) c Q.
Proof.
  intros HQ r. unfold send_next. cbn [fst snd]. destruct (pending_writes (output c)) as [|[b keep] rest].
  { exists []. by rewrite app_nil_r. }
  pose proof (wp_submit_write (started b keep rest c) (fun _ c' ops => c' = started b keep rest c /\ ops = [OpWrite (fd c) b]) ltac:(cbn; lia)
    ltac:(by cbn; rewrite drop_0)) as Hw. specialize (Hw r). fold (started b keep rest c).
  destruct (submit_write id _) as [[r' c'] [[]|e]]; [|by destruct e].
  destruct Hw as (es & H1 & H2 & -> & H4). exists es. by rewrite H4.
Qed.

Lemma wp_send_or_read c Q :
  match pending_writes (output c) with
  | [] => Q tt (set_state Reading c) [OpRead (fd c) (blen (read_buf c))]
  | (b, keep) :: rest => Q tt (started b keep rest c) [OpWrite (fd c) b]
  end -> wp id (send_or_read id) c Q.
Proof.
  intros HQ. unfold send_or_read. apply wp_bind, wp_send_next. destruct (pending_writes (output c)) as [|[b keep] rest].
  - apply wp_bind, wp_update. by apply wp_submit_read.
  - by apply wp_ret.
Qed.
End One.

(** ** The requests that are there *)

Section Requests.
Context (clock : N -> N).
Implicit Types (c : Connection).

Definition queued (rs : list (bytes * bool)) c : Connection :=
  set_output (with_pending (pending_writes (output c) ++ rs) (output c)) c.

Definition answered c (n : N) c' (n' : N) : Prop :=
  let '(d', ms, e) := decode_ready (decoder c) in
  exists d, c' = set_decoder d (queued (replies clock n ms) c) /\
    (forallb snd (replies clock n ms) = true -> e = None /\ d = d' /\ n' = n + blen ms).

Lemma answer_loop_spec fuel c n :
  rq_inv (decoder c) -> (all_measure (decoder c) < fuel)%nat ->
  match loop fuel (answer_round gzip brotli zstd pages clock) (c, n) with
  | ((c', n'), Ok _) => answered c n c' n'
  | (_, Err x) => orderly (Err (A := unit) x)
  end.
Proof.
  revert c n. induction fuel as [|fuel IH]; intros c n Hi Hm; [lia|]. cbn [loop]. unfold answered. rewrite (ServerSession.ready_eq _ Hi).
  unfold answer_round at 1, mbind, st_bind, on_part. pose proof (rq_decode_inv (decoder c) Hi) as Ho.
  destruct (rq_decode (decoder c)) as [d1 [[m|]|e]] eqn:Hd; cbn [boxed]; rewrite ?Hd in Ho; [| |destruct Ho as (_ & Ho & _); by destruct e].
  - destruct (decode_some_measure _ _ _ Hi Hd) as [Hi1 Hlt]. unfold modify, gets, lift. cbn [snd].
    set (keep := is_keep_alive m && (n + 1 <? DEFAULT_MAX_REQUESTS)).
    destruct (Site.build_response _ _ _ _ _ m keep) as [r|x] eqn:Hb; cbn [map_err]; [|done].
    destruct (encode_response r) as [data|x] eqn:He; cbn [map_err]; [|done].
    assert (Hreply : ServerSession.reply gzip brotli zstd pages clock DEFAULT_MAX_REQUESTS (n + 1) m = data).
    { unfold ServerSession.reply, ServerSession.keep. fold keep. rewrite Hb. cbn [mbind result_bind]. by rewrite He. }
    destruct (decode_ready d1) as [[d' ms] e] eqn:Hall. cbn [after app replies]. rewrite Hreply.
    change (ServerSession.keep DEFAULT_MAX_REQUESTS (n + 1) m) with keep. destruct keep.
    + specialize (IH (queued [(data, true)] (set_decoder d1 c)) (n + 1) Hi1). cbn [queued set_output decoder set_decoder] in IH.
      specialize (IH ltac:(lia)). cbn [mret st_ret]. unfold queued in IH at 1. cbn [set_decoder output] in IH.
      destruct (loop fuel _ _) as [[c' n'] [[]|x]]; [|done]. unfold answered in IH. cbn [queued set_output decoder set_decoder] in IH. rewrite Hall in IH.
      destruct IH as (d & -> & Hfin). exists d. split.
      * unfold queued. cbn. by rewrite <- app_assoc.
      * cbn [forallb snd andb]. intros Ht. destruct (Hfin Ht) as (-> & -> & ->). split_and!; try done. unfold blen. cbn. lia.
    + cbn [mret st_ret]. exists d1. split; [by unfold queued|]. done.
  - cbn [mret st_ret replies]. exists d1. split; [|intros _; split_and!; try done; unfold blen; cbn; lia].
    unfold queued. rewrite app_nil_r. destruct c as [? ? ? ? ? [] ?]. done.
Qed.

Lemma answer_all_spec c :
  rq_inv (decoder c) ->
  match answer_all gzip brotli zstd pages clock c with
  | (c', Ok _) => exists c1 n', answered c (request_count c) c1 n' /\ c' = set_count n' c1
  | (_, Err x) => orderly (Err (A := unit) x)
  end.
Proof.
  intros Hi. unfold answer_all.
  pose proof (answer_loop_spec (S (S (length (rq_remaining (decoder c))))) c (request_count c) Hi) as Hl.
  destruct (loop _ _ _) as [[c' n'] [[]|x]].
  - exists c', n'. split; [|done]. apply Hl. unfold all_measure, rq_buffered, core_buffered, rq_remaining, core_remaining.
    destruct (rq_decoded_head _); lia.
  - apply Hl. unfold all_measure, rq_buffered, core_buffered, rq_remaining, core_remaining. destruct (rq_decoded_head _); lia.
Qed.

(** [feed] adds the bytes, or fails and adds none. *)
Lemma on_feed_spec data c :
  match on_part decoder set_decoder Decoding (rq_feed data) c with
  | (c', Ok _) => c' = set_decoder (rq_extend data (decoder c)) c
  | (_, Err x) => orderly (Err (A := unit) x)
  end.
Proof.
  unfold on_part, rq_feed, on_core, core_feed. cbn [core_of rq_core_of put_core].
  destruct (feed _ _ _) as [b|e] eqn:Hf; cbn [boxed]; [|done]. apply feed_Ok in Hf as [-> _]. done.
Qed.
End Requests.

(** ** A connection and its history *)

(** What the decoder was fed, what was written after the handshake, and the times
    of the answers. *)
Record Trace := { received : bytes; sent : bytes; at_time : N -> N }.

Definition messages (data : bytes) : list Request.t := snd (fst (decode_ready (rq_feed_unchecked data start))).
Definition responses (t : Trace) : list (bytes * bool) := replies (at_time t) 0 (messages (received t)).

Definition record (more_received more_sent : bytes) (t : Trace) : Trace :=
  {| received := received t ++ more_received; sent := sent t ++ more_sent; at_time := at_time t |}.

(** The plaintext that a completion hands to the decoder of [c], which becomes
    [c']: what is left in the TLS session at the end of the handshake, or what was read. *)
Definition fed (op : Operation) (data : bytes) (c c' : Connection) : bytes :=
  match tls_conn (session c), tls_conn (session c') with
  | Some tls, None =>
      let tls := match op with OpRead _ _ => fst (process_new_packets (fst (read_tls data tls))) | _ => tls end in
      fst (snd (read_to_end tls))
  | _, _ => match op, state c with OpRead _ _, Reading => data | _, _ => [] end
  end.

(** What a completion wrote on the connection, past the handshake. *)
Definition wrote (op : Operation) (result : Z) (c : Connection) : bytes :=
  match op, state c with
  | OpWrite _ data, (Writing | Closing) => take (Z.to_nat result) data
  | _, _ => []
  end.

(** The decoder is where [decode] leaves it, with all requests counted. *)
Definition agree (c : Connection) (t : Trace) : Prop :=
  exists ms, decode_ready (rq_feed_unchecked (received t) start) = (decoder c, ms, None) /\ request_count c = blen ms.

Definition served (c : Connection) (t : Trace) (done rest : list (bytes * bool)) : Prop :=
  responses t = done ++ rest /\ (forallb snd (responses t) = true -> agree c t) /\ tls_conn (session c) = None.

Definition text (rs : list (bytes * bool)) : bytes := concat (map fst rs).

(** Before the handshake is over. *)
Record fresh (c : Connection) (t : Trace) : Prop := {
  fr_tls : is_some (tls_conn (session c)) = true;
  fr_decoder : decoder c = start;
  fr_count : request_count c = 0;
  fr_pending : pending_writes (output c) = [];
  fr_trace : received t = [] /\ sent t = []
}.

Definition in_order (c : Connection) (t : Trace) : Prop :=
  sent t `prefix_of` text (responses t) /\
  (state c = Reading -> sent t = text (responses t) /\ forallb snd (responses t) = true).

(** The state of a connection, its history and its operations in flight. *)
Inductive conn_ok (c : Connection) (t : Trace) : list Operation -> Prop :=
  | ok_handshake_reading :
      state c = HandshakeReading -> fresh c t -> conn_ok c t [OpRead (fd c) (blen (read_buf c))]
  | ok_handshake_writing :
      state c = HandshakeWriting -> fresh c t -> (write_offset (output c) <= length (write_buf (output c)))%nat ->
      conn_ok c t [OpWrite (fd c) (drop (write_offset (output c)) (write_buf (output c)))]
  | ok_enabling ops :
      state c = EnablingKtls -> served c t [] (pending_writes (output c)) -> sent t = [] ->
      Forall is_setsockopt ops -> ktls_pending_ops (session c) = blen ops -> ops <> [] -> blen ops <= 3 -> conn_ok c t ops
  | ok_reading :
      state c = Reading -> served c t (responses t) [] -> sent t = text (responses t) ->
      forallb snd (responses t) = true -> pending_writes (output c) = [] -> conn_ok c t [OpRead (fd c) (blen (read_buf c))]
  | ok_writing done :
      state c = (if current_write_should_keep_alive (output c) then Writing else Closing) ->
      served c t done ((write_buf (output c), current_write_should_keep_alive (output c)) :: pending_writes (output c)) ->
      sent t = text done ++ take (write_offset (output c)) (write_buf (output c)) ->
      (write_offset (output c) <= length (write_buf (output c)))%nat ->
      conn_ok c t [OpWrite (fd c) (drop (write_offset (output c)) (write_buf (output c)))]
  | ok_closed : in_order c t -> conn_ok c t [OpClose (fd c)].

Lemma conn_ok_order c t ops : conn_ok c t ops -> in_order c t.
Proof.
  unfold in_order. destruct 1 as [Hs [_ _ _ _ [_ Hf]]|Hs [_ _ _ _ [_ Hf]] _|ops Hs _ Hf _ _ _ _|Hs _ Ht Ho _|done Hs [Hr _] Hf _|Ho].
  - rewrite Hs, Hf. split; [apply prefix_nil | done].
  - rewrite Hs, Hf. split; [apply prefix_nil | done].
  - rewrite Hs, Hf. split; [apply prefix_nil | done].
  - by rewrite Ht.
  - split; [|by rewrite Hs; destruct (current_write_should_keep_alive _)]. rewrite Hr, Hf. unfold text. rewrite map_app, concat_app. cbn.
    apply prefix_app. eexists. rewrite <- (take_drop (write_offset (output c)) (write_buf (output c))) at 1. by rewrite <- app_assoc.
  - done.
Qed.

(** At the start. *)
Lemma start_inv : rq_inv start.
Proof. apply rq_new_inv, limits_ok_default. Qed.

Lemma start_drained : decode_ready start = (start, [], None).
Proof. apply ServerSession.drained_ready; [apply start_inv | done]. Qed.

Lemma nothing_received t : received t = [] -> responses t = [].
Proof.
  intros Hr. unfold responses, messages. rewrite Hr. change (rq_feed_unchecked [] start) with start. by rewrite start_drained.
Qed.

(** ** Answering *)

(** All that is there is answered: the requests of [data] are queued behind those before. *)
Lemma answer_received c t data :
  agree c t -> forallb snd (responses t) = true ->
  let c1 := set_decoder (rq_extend data (decoder c)) c in
  match answer_all gzip brotli zstd pages (at_time t) c1 with
  | (c', Ok _) => exists rs d n, c' = set_count n (set_decoder d (queued rs c1)) /\
      responses (record data [] t) = responses t ++ rs /\
      (forallb snd (responses (record data [] t)) = true -> agree c' (record data [] t))
  | (_, Err x) => orderly (Err (A := unit) x)
  end.
Proof.
  intros (ms & Hd & Hn) Hopen c1. pose proof (rq_extend_inv (received t) start start_inv) as Hi0.
  assert (Hi : rq_inv (decoder c)).
  { pose proof (decode_ready_inv (T := Rq) (M := Request.t) (E := Error.t) _ Hi0) as Hx.
    change (rq_extend (received t) start) with (rq_feed_unchecked (received t) start) in Hx. by rewrite Hd in Hx. }
  assert (Hi1 : rq_inv (decoder c1)) by (by apply rq_extend_inv).
  pose proof (answer_all_spec (at_time t) c1 Hi1) as Ha. destruct (answer_all _ _ _ _ _ c1) as [c' [[]|x]]; [|done].
  destruct Ha as (c2 & n' & Ha & ->). unfold answered in Ha. cbn [c1 decoder set_decoder request_count] in Ha.
  pose proof (ServerSession.ready_parts start (received t) data start_inv) as Hp.
  change (rq_extend (received t) start) with (rq_feed_unchecked (received t) start) in Hp. rewrite Hd in Hp. cbn [and_then] in Hp.
  destruct (decode_ready (rq_extend data (decoder c))) as [[d' ms2] e] eqn:H2. cbn [after] in Hp. destruct Ha as (d & -> & Hfin).
  destruct (decode_ready (rq_extend (received t ++ data) start)) as [[d3 ms3] e3] eqn:H3. destruct Hp as [-> He].
  assert (Hresp : responses (record data [] t) = responses t ++ replies (at_time t) (blen ms) ms2).
  { unfold responses, messages, record in *. cbn [received at_time].
    change (rq_feed_unchecked (received t ++ data) start) with (rq_extend (received t ++ data) start). rewrite H3, Hd in *. cbn [fst snd] in *.
    by rewrite replies_app, Hopen, N.add_0_l. }
  exists (replies (at_time t) (request_count c) ms2), d, n'. rewrite Hresp, Hn. split_and!; [done..|].
  rewrite forallb_app, Hopen. cbn [andb]. intros Ht. rewrite Hn in Hfin. destruct (Hfin Ht) as (-> & -> & ->). exists (ms ++ ms2).
  destruct e3; [done|]. subst d3. unfold record. cbn [received]. change (rq_feed_unchecked (received t ++ data) start) with (rq_extend (received t ++ data) start).
  rewrite H3. split; [done|]. cbn. by rewrite blen_app.
Qed.

(** Answering changes neither the state of the connection nor its session. *)
Definition same_place (c c' : Connection) : Prop := fd c' = fd c /\ state c' = state c /\ session c' = session c.

Lemma answer_all_place clock c : same_place c (fst (answer_all gzip brotli zstd pages clock c)).
Proof.
  unfold answer_all. set (fuel := S (S _)).
  pose proof (loop_keeps (fun cn => same_place c (fst cn)) (answer_round gzip brotli zstd pages clock) fuel (c, request_count c)) as Hk.
  assert (Hp : same_place c (fst (fst (loop fuel (answer_round gzip brotli zstd pages clock) (c, request_count c))))).
  { apply Hk; [|done]. intros [c1 n] Hc. unfold answer_round, mbind, st_bind, on_part, modify, gets, lift.
    destruct (rq_decode (decoder c1)) as [d [[m|]|[]]]; cbn [boxed]; try exact Hc. cbn [snd].
    destruct (Site.build_response _ _ _ _ _ _ _) as [r|x]; cbn [map_err]; [|exact Hc].
    destruct (encode_response r) as [b|x]; cbn [map_err]; [|exact Hc]. by destruct (_ && _). }
  by destruct (loop _ _ _) as [[c' n'] [[]|x]].
Qed.

Section Handlers.
Context (id : N) (Hid : id < 2 ^ 32).
Implicit Types (c : Connection) (t : Trace).

Abbreviation drain t tls := (drain_and_feed_leftover gzip brotli zstd pages (at_time t) tls).

Lemma fresh_agree c t : fresh c t -> agree c t.
Proof.
  intros [_ Hd Hn _ [Hr _]]. exists []. rewrite Hr, Hd, Hn. change (rq_feed_unchecked [] start) with start. by rewrite start_drained.
Qed.

Lemma fresh_closed c t t' : fresh c t -> sent t' = sent t -> state c <> Reading -> in_order c t'.
Proof. intros [_ _ _ _ [_ Hs]] Ht Hst. unfold in_order. rewrite Ht, Hs. split; [apply prefix_nil | done]. Qed.

(** The plaintext left in the TLS session. *)
Lemma drain_spec c t tls :
  fresh c t ->
  let c0 := set_session (with_tls_conn None (session c)) c in
  let t' := record (fst (snd (read_to_end tls))) [] t in
  let '(c', r) := drain t tls c0 in
  same_place c0 c' /\
  match r with
  | Ok _ => served c' t' [] (pending_writes (output c'))
  | Err e => orderly (Err (A := unit) e)
  end.
Proof.
  intros Hf c0 t'. unfold drain_and_feed_leftover. subst t'. destruct (read_to_end tls) as [tls' [leftover e]]. cbn [fst snd].
  pose proof Hf as [F1 F2 F3 F4 [F5 F6]].
  assert (Hdone : leftover = [] -> served c0 (record leftover [] t) [] (pending_writes (output c0))).
  { intros ->. assert (Hr : received (record [] [] t) = []) by (cbn; by rewrite app_nil_r). split_and!; [|intros _|done].
    - rewrite nothing_received by done. cbn. by rewrite F4.
    - exists []. rewrite Hr. change (rq_feed_unchecked [] start) with start. by rewrite start_drained, <- F2. }
  destruct e; [| |done].
  all: destruct (is_empty leftover) eqn:E; [by destruct leftover; [split; [done | by apply Hdone]|]|].
  all: unfold mbind, st_bind; pose proof (on_feed_spec leftover c0) as Hfeed.
  all: destruct (on_part _ _ _ _ c0) as [c1 [[]|x]] eqn:Hon.
  2,4: split; [|done]; revert Hon; unfold on_part; destruct (rq_feed _ _) as [d x']; intros [= <- _]; done.
  all: subst c1; pose proof (answer_received c0 t leftover) as Ha.
  all: pose proof (answer_all_place (at_time t) (set_decoder (rq_extend leftover (decoder c0)) c0)) as Hpl.
  all: cbv zeta in Ha; destruct (answer_all _ _ _ _ _ _) as [c' [[]|x]]; (split; [exact Hpl|]).
  2,4: apply Ha; [exact (fresh_agree c t Hf) | by rewrite nothing_received].
  all: destruct Ha as (rs & d & n & -> & Hr & Hag); [exact (fresh_agree c t Hf) | by rewrite nothing_received|].
  all: split_and!; [|exact Hag|done]; rewrite Hr, nothing_received by done; cbn; by rewrite F4.
Qed.

Lemma wp_finish_handshake c t tls :
  fresh c t -> tls_conn (session c) = Some tls -> state c <> Reading ->
  wp id (finish_handshake id gzip brotli zstd pages (at_time t)) c (fun _ c' ops =>
    tls_conn (session c') = None /\ conn_ok c' (record (fst (snd (read_to_end tls))) [] t) ops).
Proof.
  intros Hf Htls Hst. pose proof Hf as [F1 F2 F3 F4 [F5 F6]]. unfold finish_handshake, the_tls.
  apply wp_bind, wp_bind, wp_the_conn. eapply wp_unwrap; [done|].
  apply wp_bind, wp_lift. intros suite _. apply wp_bind, wp_update, wp_bind, wp_attempt. intros r.
  unfold on_conn. pose proof (drain_spec c t tls Hf) as Hdr. cbv zeta in Hdr.
  destruct (drain t tls _) as [c1 x]. destruct Hdr as [(P1 & P2 & P3) Hx].
  destruct x as [[]|[e| |]]; [| |done|done]; (split; [done|]).
  - apply wp_bind, wp_lift. intros secrets _. apply wp_bind, wp_lift. intros tx _. apply wp_bind, wp_lift. intros rx _.
    apply wp_bind, wp_update. eapply wp_submit_enable_ktls; [done..|]. intros ops Ho Hlen. cbn [app]. split; [by cbn; rewrite P3|].
    destruct Hx as (S1 & S2 & S3). apply ok_enabling; try done.
    + cbn. by rewrite F6.
    + cbn. unfold blen. by rewrite Hlen.
    + by destruct ops.
    + unfold blen. lia.
  - apply wp_close_connection; [done|]. cbn [app]. split; [by rewrite P3|]. apply ok_closed. unfold in_order. rewrite P2. cbn [record sent].
    rewrite F6. split; [apply prefix_nil | done].
Qed.

Lemma wp_finish_or_read c t tls :
  fresh c t -> tls_conn (session c) = Some tls -> state c <> Reading ->
  wp id (finish_or_read id gzip brotli zstd pages (at_time t)) c (fun _ c' ops =>
    match tls_conn (session c') with
    | None => conn_ok c' (record (fst (snd (read_to_end tls))) [] t) ops
    | Some _ => conn_ok c' t ops
    end).
Proof.
  intros Hf Htls Hst. unfold finish_or_read, the_tls. apply wp_bind, wp_bind, wp_the_conn. eapply wp_unwrap; [done|].
  destruct (is_handshaking tls); cbn [negb].
  - apply wp_bind, wp_update, wp_submit_read; [done|]. cbn [app]. cbn [set_state session]. rewrite Htls.
    apply ok_handshake_reading; [done|]. by destruct Hf.
  - eapply wp_mono; [by apply wp_finish_handshake|]. intros [] c' ops [Hn Hc]. cbn [app]. by rewrite Hn.
Qed.

Lemma record_nil t : record [] [] t = t.
Proof. unfold record. rewrite !app_nil_r. by destruct t. Qed.

Lemma wp_on_tls {A} (m : C -> C * A) c tls (Q : A -> Connection -> list Operation -> Prop) :
  tls_conn (session c) = Some tls ->
  Q (snd (m tls)) (set_session (with_tls_conn (Some (fst (m tls))) (session c)) c) [] -> wp id (on_tls m) c Q.
Proof.
  intros Htls HQ. unfold on_tls. apply wp_bind, wp_the_conn, wp_bind. eapply wp_unwrap; [done|].
  destruct (m tls) as [tls' a]. apply wp_bind, wp_update, wp_ret. done.
Qed.

(** Another TLS session in the same place. *)
Lemma fresh_tls c t tls : fresh c t -> fresh (set_session (with_tls_conn (Some tls) (session c)) c) t.
Proof. intros [F1 F2 F3 F4 F5]. by split. Qed.

Lemma wp_handshake_read c t data fd0 len :
  fresh c t -> state c = HandshakeReading ->
  wp id (handshake_read id gzip brotli zstd pages (at_time t) data) c (fun _ c' ops =>
    conn_ok c' (record (fed (OpRead fd0 len) data c c') [] t) ops).
Proof.
  intros Hf Hst. destruct (tls_conn (session c)) as [tls|] eqn:Htls; [|by destruct Hf as [F1]; rewrite Htls in F1].
  unfold fed. rewrite Htls, Hst. unfold handshake_read. apply wp_bind. eapply wp_on_tls; [done|].
  set (tls1 := fst (read_tls data tls)). set (c1 := set_session (with_tls_conn (Some tls1) (session c)) c).
  pose proof (fresh_tls c t tls1 Hf) as Hf1. fold c1 in Hf1.
  assert (Hclose : forall c' r, tls_conn (session c') = Some r -> fresh c' t -> state c' = HandshakeReading ->
    wp id (close_connection id) c' (fun _ c' ops => conn_ok c' (record match tls_conn (session c') with
      | Some _ => [] | None => fst (snd (read_to_end (fst (process_new_packets tls1)))) end [] t) ([] ++ ops))).
  { intros c' r Hr Hf' Hs'. apply wp_close_connection; [done|]. rewrite Hr, record_nil. apply ok_closed.
    apply (fresh_closed c' t); [done | done | by rewrite Hs']. }
  destruct (snd (read_tls data tls)) as [n|e]; [|by apply (Hclose c1 tls1)].
  apply wp_bind. eapply (wp_on_tls process_new_packets c1 tls1); [done|].
  set (tls2 := fst (process_new_packets tls1)) in *. set (c2 := set_session (with_tls_conn (Some tls2) (session c1)) c1).
  pose proof (fresh_tls c1 t tls2 Hf1) as Hf2. fold c2 in Hf2.
  destruct (snd (process_new_packets tls1)) as [[]|e]; [|by apply (Hclose c2 tls2)].
  apply wp_bind. unfold the_tls. apply wp_bind, wp_the_conn. eapply (wp_unwrap id _ tls2); [done|].
  destruct (wants_write tls2).
  - apply wp_bind, wp_update, wp_bind. eapply wp_on_tls; [done|]. apply wp_bind, wp_lift. intros out _.
    apply wp_bind, wp_update, wp_submit_write; [done | cbn; lia|]. cbn [app]. cbn [set_state set_output set_session session with_tls_conn tls_conn c2 c1].
    rewrite record_nil. apply ok_handshake_writing; [done | by destruct Hf2 | cbn; lia].
  - eapply wp_mono; [apply (wp_finish_or_read c2 t tls2); [done | done | by cbn; rewrite Hst]|]. intros [] c' ops Hc. cbn [app].
    destruct (tls_conn (session c')); [by rewrite record_nil | exact Hc].
Qed.

Lemma wp_read_data n c (Q : bytes -> Connection -> list Operation -> Prop) :
  n <= blen (read_buf c) -> Q (take (N.to_nat n) (read_buf c)) c [] -> wp id (read_data n) c Q.
Proof.
  intros Hn HQ. unfold read_data. apply wp_bind, wp_the_conn. rewrite (proj2 (N.leb_le _ _) Hn). by eapply wp_unwrap.
Qed.

(** A read is in flight. *)
Lemma conn_ok_read c t a b :
  conn_ok c t [OpRead a b] ->
  state c = HandshakeReading /\ fresh c t \/
  state c = Reading /\ served c t (responses t) [] /\ sent t = text (responses t) /\ forallb snd (responses t) = true /\
    pending_writes (output c) = [].
Proof.
  remember [OpRead a b] as ops eqn:Hops. destruct 1 as [| |ops' ? ? ? Hs| | |]; try done; [by left | | by right].
  subst. by inversion Hs.
Qed.

(** A response goes out. *)
Lemma started_ok c t b keep rest done :
  responses t = done ++ (b, keep) :: rest -> (forallb snd (responses t) = true -> agree c t) -> tls_conn (session c) = None ->
  sent t = text done -> conn_ok (started b keep rest c) t [OpWrite (fd c) b].
Proof.
  intros Hr Ha Ht Hs. apply (ok_writing (started b keep rest c) t done); [by destruct keep | by split_and! | | cbn; lia].
  cbn. by rewrite take_0, app_nil_r.
Qed.

(** A connection that waits for requests gets some bytes. *)
Lemma wp_serve c t data :
  conn_ok c t [OpRead (fd c) (blen (read_buf c))] -> state c = Reading ->
  wp id (_ ← on_conn (on_part decoder set_decoder Decoding (rq_feed data));
         _ ← on_conn (answer_all gzip brotli zstd pages (at_time t));
         sent ← send_next id;
         if (sent : bool) then mret tt else submit_read id) c (fun _ c' ops => tls_conn (session c') = None /\ conn_ok c' (record data [] t) ops).
Proof.
  intros Hok Hst. apply conn_ok_read in Hok as [[Hs _]|(_ & (_ & Hag & Htls) & Hsent & Hopen & Hpend)]; [congruence|]. specialize (Hag Hopen).
  apply wp_bind, wp_on_conn. pose proof (on_feed_spec data c) as Hfeed.
  destruct (on_part _ _ _ _ c) as [c1 [[]|x]]; [|exact Hfeed]. subst c1. apply wp_bind, wp_on_conn.
  pose proof (answer_received c t data Hag Hopen) as Ha. cbv zeta in Ha. destruct (answer_all _ _ _ _ _ _) as [c2 [[]|x]]; [|exact Ha].
  destruct Ha as (rs & d & n & -> & Hresp & Hag2). apply wp_bind, wp_send_next; [done|].
  cbn [set_count set_decoder queued set_output output with_pending pending_writes]. rewrite Hpend. cbn [app].
  destruct rs as [|[b keep] rest].
  - apply wp_submit_read; [done|]. cbn [app]. split; [done|]. rewrite app_nil_r in Hresp.
    apply ok_reading; try done; [|by rewrite Hresp; cbn; rewrite app_nil_r | by rewrite Hresp | by cbn; rewrite Hpend].
    split_and!; [by rewrite app_nil_r | | done]. intros Ho. by apply Hag2.
  - apply wp_ret. cbn [app]. split; [done|].
    eapply started_ok; [exact Hresp | exact Hag2 | exact Htls |]. cbn. by rewrite app_nil_r.
Qed.

Lemma handle_read_ok c t data rest fd0 len :
  conn_ok c t [OpRead (fd c) (blen (read_buf c))] -> read_buf c = data ++ rest ->
  wp id (handle_read id gzip brotli zstd pages (at_time t) (blen data)) c (fun _ c' ops =>
    conn_ok c' (record (fed (OpRead fd0 len) data c c') [] t) ops).
Proof.
  intros Hok Hbuf. assert (Hn : blen data <= blen (read_buf c)) by (rewrite Hbuf, blen_app; lia).
  assert (Ht : take (N.to_nat (blen data)) (read_buf c) = data) by (rewrite Hbuf; unfold blen; rewrite Nat2N.id; apply take_app_length).
  unfold handle_read. apply wp_bind, wp_the_conn.
  pose proof (conn_ok_read _ _ _ _ Hok) as [[Hst Hf] | (Hst & (_ & _ & Htls) & _)]; rewrite Hst; apply wp_bind, wp_read_data; try done; rewrite Ht.
  - eapply wp_mono; [by eapply wp_handshake_read|]. intros [] c' ops Hc. exact Hc.
  - eapply wp_mono; [by eapply wp_serve|]. intros [] c' ops [Hn' Hc]. unfold fed. by rewrite Htls, Hst.
Qed.

(** The rest goes out, or the connection reads again. *)
Lemma wp_send_or_read_ok c t done :
  responses t = done ++ pending_writes (output c) -> (forallb snd (responses t) = true -> agree c t) -> tls_conn (session c) = None ->
  sent t = text done -> (pending_writes (output c) = [] -> forallb snd (responses t) = true) ->
  wp id (send_or_read id) c (fun _ c' ops => tls_conn (session c') = None /\ conn_ok c' t ops).
Proof.
  intros Hr Ha Ht Hs Hlast. apply wp_send_or_read; [done|]. destruct (pending_writes (output c)) as [|[b keep] rest] eqn:Hp.
  - rewrite app_nil_r in Hr. split; [done|]. apply (ok_reading (set_state Reading c) t); try done; [|by rewrite Hr | by apply Hlast].
    split_and!; [by rewrite app_nil_r | exact Ha | exact Ht].
  - split; [done|]. by eapply started_ok.
Qed.

(** Writing changes nothing in what was received. *)
Lemma responses_sent x t : responses (record [] x t) = responses t.
Proof. unfold responses, record. cbn. by rewrite app_nil_r. Qed.

Lemma agree_sent c c' x t :
  agree c t -> decoder c' = decoder c -> request_count c' = request_count c -> agree c' (record [] x t).
Proof. unfold agree, record. cbn. rewrite app_nil_r. by intros (ms & ? & ?) -> ->; exists ms. Qed.

(** A write is in flight. *)
Lemma conn_ok_write c t f d :
  conn_ok c t [OpWrite f d] ->
  f = fd c /\ d = drop (write_offset (output c)) (write_buf (output c)) /\ (write_offset (output c) <= length (write_buf (output c)))%nat /\
  (state c = HandshakeWriting /\ fresh c t \/
   exists done, state c = (if current_write_should_keep_alive (output c) then Writing else Closing) /\
     served c t done ((write_buf (output c), current_write_should_keep_alive (output c)) :: pending_writes (output c)) /\
     sent t = text done ++ take (write_offset (output c)) (write_buf (output c))).
Proof.
  remember [OpWrite f d] as ops eqn:Hops. destruct 1 as [|Hs Hf Hle|ops' ? ? ? Hs| |done Hs Hv Ht Hle|]; try discriminate Hops.
  - injection Hops as Hf' Hd'. subst. split_and!; try done. by left.
  - subst. by inversion Hs.
  - injection Hops as Hf' Hd'. subst. split_and!; try done. right. by exists done.
Qed.

(** What the writer is at. *)
Definition advanced (n : N) c : Connection :=
  set_output (with_write (write_buf (output c)) (write_offset (output c) + N.to_nat n) (output c)) c.

Lemma handle_write_ok c t f d n :
  conn_ok c t [OpWrite f d] -> n <= blen d ->
  wp id (handle_write id gzip brotli zstd pages (at_time t) n) c (fun _ c' ops =>
    conn_ok c' (record (fed (OpWrite f d) [] c c') (wrote (OpWrite f d) (Z.of_N n) c) t) ops).
Proof.
  intros Hok Hn. apply conn_ok_write in Hok as (-> & -> & Hle & Hcases). set (o := output c) in *.
  assert (Hlen : (write_offset o + N.to_nat n <= length (write_buf o))%nat) by (unfold blen in Hn; rewrite length_drop in Hn; lia).
  unfold handle_write. apply wp_bind, wp_update, wp_bind, wp_the_conn. fold (advanced n c). cbn [app].
  change (write_offset (output (advanced n c))) with (write_offset o + N.to_nat n)%nat. change (write_buf (output (advanced n c))) with (write_buf o).
  destruct (write_offset o + N.to_nat n <? length (write_buf o))%nat eqn:E.
  - apply wp_submit_write; [done|done|]. cbn [app].
    destruct Hcases as [[Hst Hf] | (done & Hst & Hv & Hs)].
    + assert (Htls : is_some (tls_conn (session c)) = true) by apply Hf. unfold fed, wrote. cbn [advanced set_output session]. rewrite Hst.
      destruct (tls_conn (session c)) as [tls|]; [|done]. rewrite record_nil. apply (ok_handshake_writing (advanced n c) t); [done | by destruct Hf | done].
    + destruct Hv as (Hr & Ha & Htls). unfold fed, wrote. cbn [advanced set_output session]. rewrite Htls.
      assert (Hw : (match state c with Writing | Closing => take (Z.to_nat (Z.of_N n)) (drop (write_offset o) (write_buf o)) | _ => [] end) =
                   take (N.to_nat n) (drop (write_offset o) (write_buf o))).
      { rewrite Hst, <- Z_N_nat, N2Z.id. by destruct (current_write_should_keep_alive _). }
      rewrite Hw. apply (ok_writing (advanced n c) _ done); [done | | |done].
      { split_and!; [by rewrite responses_sent | rewrite responses_sent; intros Ho; by eapply agree_sent; [apply Ha| |] | done]. }
      cbn. fold o. rewrite Hs, <- app_assoc. f_equal. by rewrite take_take_drop.
  - assert (Hall : (write_offset o + N.to_nat n = length (write_buf o))%nat) by lia.
    apply wp_bind, wp_update. cbn [app]. set (c1 := set_output (with_write [] 0 (output (advanced n c))) (advanced n c)).
    change (state (advanced n c)) with (state c). destruct Hcases as [[Hst Hf] | (done & Hst & Hv & Hs)].
    + rewrite Hst. destruct (tls_conn (session c)) as [tls|] eqn:Htls; [|by destruct Hf as [F1]; rewrite Htls in F1].
      assert (Hf1 : fresh c1 t) by (by destruct Hf). unfold fed, wrote. rewrite Htls, Hst.
      eapply wp_mono; [apply (wp_finish_or_read c1 t tls); [done | done | by cbn; rewrite Hst]|]. intros [] c' ops Hc. cbn [app].
      destruct (tls_conn (session c')); [by rewrite record_nil | exact Hc].
    + destruct Hv as (Hr & Ha & Htls). unfold fed, wrote. rewrite Htls.
      assert (Hsent : sent t ++ take (N.to_nat n) (drop (write_offset o) (write_buf o)) = text (done ++ [(write_buf o, current_write_should_keep_alive o)])).
      { unfold text. rewrite map_app, concat_app. cbn. rewrite app_nil_r, Hs, <- app_assoc, take_take_drop, Hall, firstn_all. done. }
      rewrite Hst. rewrite <- Z_N_nat, N2Z.id. destruct (current_write_should_keep_alive o) eqn:Hk.
      * eapply wp_mono; [eapply (wp_send_or_read_ok c1 (record [] (take (N.to_nat n) (drop (write_offset o) (write_buf o))) t)
          (done ++ [(write_buf o, true)]))|intros [] c' ops [_ Hc]; exact Hc]; try done.
        -- rewrite responses_sent, Hr, <- app_assoc. done.
        -- rewrite responses_sent. intros Ho. by eapply agree_sent; [apply Ha| |].
        -- intros Hp. change (pending_writes (output c1)) with (pending_writes o) in Hp. rewrite responses_sent.
           apply (replies_open _ _ _ done (write_buf o)). fold (responses t). by rewrite Hr, Hp.
      * assert (Hp : pending_writes o = []) by (eapply replies_last; fold (responses t); exact Hr).
        apply wp_bind, wp_update, wp_close_connection; [done|]. cbn [app]. apply ok_closed. split; [|by cbn; rewrite Hst].
        rewrite responses_sent, Hr, Hp. cbn [record sent]. by rewrite Hsent.
Qed.

Lemma handle_setsockopt_ok c t pre op post :
  conn_ok c t (pre ++ op :: post) -> is_setsockopt op ->
  wp id (handle_setsockopt_complete id) c (fun _ c' ops =>
    conn_ok c' (record (fed op [] c c') (wrote op 0 c) t) ((pre ++ post) ++ ops)).
Proof.
  intros Hok Hop. assert (Hen : state c = EnablingKtls /\ served c t [] (pending_writes (output c)) /\ sent t = [] /\
      Forall is_setsockopt (pre ++ op :: post) /\ ktls_pending_ops (session c) = blen (pre ++ op :: post) /\ blen (pre ++ op :: post) <= 3).
  { remember (pre ++ op :: post) as ops eqn:Hops. destruct Hok as [| |ops' ? ? ? ? ? ? ?| | |]; [| |by split_and!|..];
      destruct pre as [|x pre]; injection Hops as <- Hx; try done; by destruct pre. }
  destruct Hen as (Hst & (Hr & Ha & Htls) & Hs & Hall & Hn & Hle).
  assert (Hrec : forall c', tls_conn (session c') = None -> record (fed op [] c c') (wrote op 0 c) t = t).
  { intros c' Hc'. unfold fed, wrote. rewrite Htls, Hst. destruct op; try done; apply record_nil. }
  assert (Hrest : Forall is_setsockopt (pre ++ post)) by (apply Forall_app in Hall as [? [_ ?]%Forall_cons_iff]; by apply Forall_app).
  assert (Hlen : blen (pre ++ op :: post) = blen (pre ++ post) + 1) by (unfold blen; rewrite !length_app; cbn; lia).
  assert (Hdec : (ktls_pending_ops (session c) + 255) mod 256 = blen (pre ++ post)).
  { rewrite Hn, Hlen. replace (blen (pre ++ post) + 1 + 255) with (blen (pre ++ post) + 1 * 256) by lia.
    rewrite N.Div0.mod_add, N.mod_small by lia. done. }
  unfold handle_setsockopt_complete. apply wp_bind, wp_update, wp_bind, wp_the_conn. cbn [set_session session with_pending_ops ktls_pending_ops app].
  rewrite Hdec. destruct (blen (pre ++ post) =? 0) eqn:E.
  - assert (Hnil : pre ++ post = []) by (destruct (pre ++ post); [done | discriminate E]). rewrite Hnil. cbn [app].
    apply wp_bind, wp_update. cbn [app].
    eapply wp_mono; [apply (wp_send_or_read_ok _ t []); try done|].
    + cbn. intros Hp. rewrite Hr, Hp. done.
    + intros [] c' ops [Hc' Hc]. by rewrite Hrec.
  - apply wp_ret. rewrite !app_nil_r, Hrec by done. apply ok_enabling; try done.
    + intros Hx. by rewrite Hx in E.
    + lia.
Qed.
End Handlers.


(** ** The kernel *)

Abbreviation World := (World (C := C) (U := U) (I := I)).
Abbreviation Entry := (Entry (I := I)).

(** The results of an operation: a read or a write of no more bytes than
    asked for; the options of the socket are accepted, the kernel has kTLS. *)
Definition allowed (op : Operation) (result : Z) (data : bytes) : Prop :=
  match op with
  | OpRead _ len => blen data <= len /\ Z.of_N (blen data) = Z.max 0 result
  | OpWrite _ d => (result <= Z.of_N (blen d))%Z /\ data = []
  | OpSetSockOpt _ _ _ _ => result = 0%Z /\ data = []
  | OpAccept | OpClose _ => data = []
  end.

Definition deliver (data : bytes) (c : Connection) : Connection := set_read_buf (data ++ drop (length data) (read_buf c)) c.

(** The world when the operation [e] is complete: its bytes are in the buffer
    of the connection, and the submission queue has some room. *)
Definition completed (e : Entry) (data : bytes) (rest : list Entry) (more_room : N) (w : World) : World :=
  {| ring := {| in_flight := rest; room := more_room |};
     connections := match operation e with
                    | OpRead _ _ => alter (deliver data) (conn_id (decode_user_data (user_data e))) (connections w)
                    | _ => connections w
                    end |}.

Record System := { world : World; traces : gmap N Trace }.

(** The history after the completion [e] of the world [w] led to [w']; a new connection starts one. *)
Definition traced (e : Entry) (result : Z) (data : bytes) (vacant_key : N) (clock : N -> N) (w w' : World) (ts : gmap N Trace) : gmap N Trace :=
  let id := conn_id (decode_user_data (user_data e)) in
  match operation e with
  | OpAccept => if (result <? 0)%Z then ts else <[vacant_key := {| received := []; sent := []; at_time := clock |}]> ts
  | op =>
      match connections w !! id, connections w' !! id with
      | Some c, Some c' => alter (record (fed op data c c') (wrote op result c)) id ts
      | _, _ => delete id ts
      end
  end.

(** The clock of the connection that an operation belongs to. *)
Definition clock_of (e : Entry) (clock : N -> N) (ts : gmap N Trace) : N -> N :=
  match ts !! conn_id (decode_user_data (user_data e)) with Some t => at_time t | None => clock end.

(** A step of the server: some operation in flight is complete, and its handler ends without an
    error.  A new connection gets a key that is free. *)
Inductive step (s : System) : System -> Prop :=
  | step_completion pre e post result data more_room vacant_key clock w' :
      in_flight (ring (world s)) = pre ++ e :: post -> allowed (operation e) result data ->
      connections (world s) !! vacant_key = None -> vacant_key < 2 ^ 32 - 1 ->
      let w := completed e data (pre ++ post) more_room (world s) in
      handle_completion gzip brotli zstd pages vacant_key (clock_of e clock (traces s)) (decode_user_data (user_data e)) result w = (w', Ok tt) ->
      step s {| world := w'; traces := traced e result data vacant_key clock w w' (traces s) |}.

Definition system_start : System := {| world := main_start; traces := ∅ |}.

Inductive reachable : System -> Prop :=
  | reach_start : reachable system_start
  | reach_step s s' : reachable s -> step s s' -> reachable s'.

(** ** The invariant *)

Definition accept_id : N := 2 ^ 32 - 1.

Definition of_id (id : N) (es : list Entry) : list Entry := List.filter (fun e => conn_id (decode_user_data (user_data e)) =? id) es.

Record sys_inv (s : System) : Prop := {
  si_conns id c : connections (world s) !! id = Some c ->
    id < accept_id /\ exists t, traces s !! id = Some t /\ conn_ok c t (map operation (of_id id (in_flight (ring (world s)))));
  si_kinds : Forall (fun e => op_type (decode_user_data (user_data e)) = kind_of (operation e)) (in_flight (ring (world s)));
  si_none id : connections (world s) !! id = None -> id <> accept_id -> of_id id (in_flight (ring (world s))) = [];
  si_accept : map operation (of_id accept_id (in_flight (ring (world s)))) = [OpAccept]
}.

Lemma of_id_app id a b : of_id id (a ++ b) = of_id id a ++ of_id id b.
Proof. apply List.filter_app. Qed.

Lemma of_id_own id es : Forall (entry_for id) es -> of_id id es = es.
Proof.
  induction 1 as [|e es He _ IH]; [done|]. unfold of_id. cbn [List.filter]. unfold entry_for in He. rewrite He. cbn [conn_id].
  rewrite N.eqb_refl. f_equal. exact IH.
Qed.

Lemma of_id_other id id' es : Forall (entry_for id) es -> id' <> id -> of_id id' es = [].
Proof.
  intros Hes Hne. induction Hes as [|e es He _ IH]; [done|]. unfold of_id. cbn [List.filter]. unfold entry_for in He.
  rewrite He. cbn [conn_id]. rewrite (proj2 (N.eqb_neq _ _)) by done. exact IH.
Qed.

Lemma of_id_take id pre e post :
  conn_id (decode_user_data (user_data e)) = id -> of_id id (pre ++ e :: post) = of_id id pre ++ e :: of_id id post.
Proof. intros He. rewrite of_id_app. unfold of_id. cbn [List.filter]. by rewrite He, N.eqb_refl. Qed.

Lemma of_id_skip id pre e post :
  conn_id (decode_user_data (user_data e)) <> id -> of_id id (pre ++ e :: post) = of_id id (pre ++ post).
Proof. intros He. rewrite !of_id_app. unfold of_id. cbn [List.filter]. by rewrite (proj2 (N.eqb_neq _ _)) by done. Qed.

Lemma entry_kinds id es : Forall (entry_for id) es -> Forall (fun e => op_type (decode_user_data (user_data e)) = kind_of (operation e)) es.
Proof. apply Forall_impl. intros e He. unfold entry_for in He. by rewrite He. Qed.

Lemma at_connection_spec {A} id (m : st Local BoxedError A) (w : World) c Q :
  connections w !! id = Some c -> wp id m c Q ->
  match at_connection id m w with
  | (w', Ok a) => exists c' es, connections w' = <[id := c']> (connections w) /\ in_flight (ring w') = in_flight (ring w) ++ es /\
      Forall (entry_for id) es /\ Q a c' (map operation es)
  | (_, Err e) => orderly (Err (A := unit) e)
  end.
Proof.
  intros Hc Hm. unfold at_connection. rewrite Hc. specialize (Hm (ring w)). destruct (m (ring w, c)) as [[r' c'] [a|e]]; [|done].
  destruct Hm as (es & H1 & H2 & H3). exists c', es. by split_and!.
Qed.

(** A handler did its work on one connection. *)
Lemma inv_update s pre e post w' ts' c c' t' es id :
  sys_inv s -> in_flight (ring (world s)) = pre ++ e :: post -> conn_id (decode_user_data (user_data e)) = id ->
  connections (world s) !! id = Some c ->
  connections w' = <[id := c']> (connections (world s)) -> in_flight (ring w') = (pre ++ post) ++ es -> Forall (entry_for id) es ->
  conn_ok c' t' (map operation (of_id id pre ++ of_id id post) ++ map operation es) ->
  ts' !! id = Some t' -> (forall id', id' <> id -> ts' !! id' = traces s !! id') ->
  sys_inv {| world := w'; traces := ts' |}.
Proof.
  intros [I1 I2 I3 I4] Hq He Hc Hw Hq' Hes Hok Ht Hts. rewrite Hq in *.
  assert (Hid : id < accept_id) by (by destruct (I1 id c Hc)).
  assert (Hother : forall id', id' <> id -> of_id id' ((pre ++ post) ++ es) = of_id id' (pre ++ e :: post)).
  { intros id' Hne. rewrite of_id_app, (of_id_other id id' es Hes Hne), app_nil_r. rewrite of_id_skip; [done | by rewrite He]. }
  split; cbn [world traces]; rewrite ?Hw, ?Hq'.
  - intros id' c1. destruct (decide (id' = id)) as [->|Hne].
    + rewrite lookup_insert_eq. intros [= <-]. split; [done|]. exists t'. split; [done|].
      rewrite of_id_app, (of_id_own id es Hes), of_id_app, map_app. exact Hok.
    + rewrite lookup_insert_ne by done. intros Hc1. destruct (I1 id' c1 Hc1) as (Hlt & t1 & Ht1 & Hok1). split; [done|].
      exists t1. rewrite Hts, Hother by done. done.
  - apply Forall_app in I2 as [I2a I2b]. apply Forall_cons_iff in I2b as [_ I2b].
    apply Forall_app. split; [by apply Forall_app | by eapply entry_kinds].
  - intros id' Hn Ha. destruct (decide (id' = id)) as [->|Hne]; [by rewrite lookup_insert_eq in Hn|].
    rewrite lookup_insert_ne in Hn by done. rewrite Hother by done. by apply I3.
  - rewrite Hother; [exact I4 | lia].
Qed.

(** An operation other than an option is alone. *)
Lemma conn_ok_alone c t pre op post : conn_ok c t (pre ++ op :: post) -> ~ is_setsockopt op -> pre = [] /\ post = [].
Proof.
  intros Hok Hop. remember (pre ++ op :: post) as ops eqn:Hops.
  destruct Hok as [| |ops' ? ? ? Hall| | |];
    try (destruct pre as [|x pre]; injection Hops as ? Hx; [by subst | by destruct pre]).
  subst. apply Forall_app in Hall as [_ [Hs _]%Forall_cons_iff]. done.
Qed.

Lemma conn_ok_no_accept c t pre post : ~ conn_ok c t (pre ++ OpAccept :: post).
Proof.
  intros Hok. destruct (conn_ok_alone c t pre OpAccept post Hok) as [-> ->]; [by intros []|]. cbn [app] in Hok.
  remember [OpAccept] as ops eqn:Hops. destruct Hok as [| |ops' ? ? ? Hall| | |]; try discriminate Hops. subst. by inversion Hall.
Qed.

(** The operation that is complete is the accept, or one of a connection. *)
Lemma owner s pre e post :
  sys_inv s -> in_flight (ring (world s)) = pre ++ e :: post ->
  let id := conn_id (decode_user_data (user_data e)) in
  id = accept_id /\ operation e = OpAccept /\ of_id accept_id (pre ++ post) = [] \/
  id < accept_id /\ operation e <> OpAccept /\ exists c t, connections (world s) !! id = Some c /\ traces s !! id = Some t /\
    conn_ok c t (map operation (of_id id pre) ++ operation e :: map operation (of_id id post)).
Proof.
  intros [I1 I2 I3 I4] Hq id. rewrite Hq in *. destruct (decide (id = accept_id)) as [Ha|Hne].
  - left. rewrite of_id_take in I4 by done. rewrite of_id_app. rewrite map_app in I4. destruct (of_id accept_id pre) as [|x l].
    + injection I4 as He Hp. split_and!; [done..|]. by destruct (of_id accept_id post).
    + injection I4 as _ Hl. by destruct l.
  - right. destruct (connections (world s) !! id) as [c|] eqn:Hc.
    + destruct (I1 id c Hc) as (Hlt & t & Ht & Hok). rewrite of_id_take in Hok by done. rewrite map_app in Hok. cbn [map] in Hok.
      split_and!; [done | | by exists c, t]. intros He. rewrite He in Hok. by apply conn_ok_no_accept in Hok.
    + specialize (I3 id Hc Hne). rewrite of_id_take in I3 by done. by destruct (of_id id pre).
Qed.

(** A handler of a connection. *)
Lemma handler_ok s pre e post (m : st Local BoxedError unit) (w : World) c0 (T : Connection -> Trace) ts :
  sys_inv s -> in_flight (ring (world s)) = pre ++ e :: post ->
  let id := conn_id (decode_user_data (user_data e)) in
  is_Some (connections (world s) !! id) -> connections w = <[id := c0]> (connections (world s)) -> in_flight (ring w) = pre ++ post ->
  wp id m c0 (fun _ c' ops => conn_ok c' (T c') (map operation (of_id id pre ++ of_id id post) ++ ops)) ->
  (forall w' c', connections w' !! id = Some c' ->
     ts w' !! id = Some (T c') /\ forall id', id' <> id -> ts w' !! id' = traces s !! id') ->
  match at_connection id m w with
  | (w', Ok _) => sys_inv {| world := w'; traces := ts w' |}
  | (_, Err x) => orderly (Err (A := unit) x)
  end.
Proof.
  intros Hi Hq id [c Hc] Hw Hr Hm Hts.
  pose proof (at_connection_spec id m w c0 _ ltac:(by rewrite Hw, lookup_insert_eq) Hm) as Hat.
  destruct (at_connection id m w) as [w' [[]|x]]; [|exact Hat]. destruct Hat as (c' & es & H1 & H2 & H3 & H4).
  assert (Hconn : connections w' = <[id := c']> (connections (world s))) by (by rewrite H1, Hw, insert_insert_eq).
  destruct (Hts w' c') as [Ht Hother]; [by rewrite Hconn, lookup_insert_eq|].
  eapply (inv_update s pre e post w' (ts w') c c' (T c') es id); try done. by rewrite H2, Hr.
Qed.

(** ** Completions *)

(** The bytes of a read come in where they are expected. *)
Lemma deliver_ok c t a b data :
  conn_ok c t [OpRead a b] -> blen data <= b ->
  conn_ok (deliver data c) t [OpRead (fd (deliver data c)) (blen (read_buf (deliver data c)))] /\
  exists rest, read_buf (deliver data c) = data ++ rest.
Proof.
  intros Hok Hle. split; [|by exists (drop (length data) (read_buf c))].
  remember [OpRead a b] as ops eqn:Hops. destruct Hok as [Hs Hf| |ops' ? ? ? Hall|Hs Hv Ht Ho Hp| |]; try discriminate Hops.
  - apply ok_handshake_reading; [done|]. by destruct Hf.
  - subst. by inversion Hall.
  - by apply ok_reading.
Qed.

(** The buffer is as long as the read that is in flight. *)
Lemma read_fits c t a b : conn_ok c t [OpRead a b] -> b = blen (read_buf c).
Proof.
  remember [OpRead a b] as ops eqn:Hops. destruct 1 as [| |ops' ? ? ? Hall| | |]; try discriminate Hops; try (by injection Hops).
  subst. by inversion Hall.
Qed.

Lemma fed_same op data c : fed op data c c = match op, state c with OpRead _ _, Reading => data | _, _ => [] end.
Proof. unfold fed. by destruct (tls_conn (session c)). Qed.

(** An error of the kernel closes the connection. *)
Lemma close_ok id c t ops op result :
  id < 2 ^ 32 -> conn_ok c t ops -> wrote op result c = [] ->
  wp id (close_connection id) c (fun _ c' ops => conn_ok c' (record (fed op [] c c') (wrote op result c) t) ops).
Proof.
  intros Hid Hok Hw. apply wp_close_connection; [done|]. rewrite fed_same, Hw.
  replace (match op with OpRead _ _ => _ | _ => _ end) with ([] : bytes) by (by destruct op, (state c)).
  rewrite record_nil. apply ok_closed. by eapply conn_ok_order.
Qed.

(** The history of the connection that the completion is for. *)
Lemma traced_one e result data vacant clock (w w' : World) ts c c' t :
  let id := conn_id (decode_user_data (user_data e)) in
  match operation e with OpAccept => False | _ => True end ->
  connections w !! id = Some c -> connections w' !! id = Some c' -> ts !! id = Some t ->
  let ts' := traced e result data vacant clock w w' ts in
  ts' !! id = Some (record (fed (operation e) data c c') (wrote (operation e) result c) t) /\
  forall id', id' <> id -> ts' !! id' = ts !! id'.
Proof.
  intros id Ho Hc Hc' Ht ts'.
  assert (Hts : ts' = alter (record (fed (operation e) data c c') (wrote (operation e) result c)) id ts).
  { subst ts'. unfold traced. fold id. by destruct (operation e); rewrite ?Hc, ?Hc'. }
  rewrite Hts. split; [by rewrite lookup_alter_eq, Ht | intros id' Hne; by rewrite lookup_alter_ne].
Qed.

(** How a handler ends. *)
Abbreviation Ended := (result (exn BoxedError) unit).

Section Completion.
Context (s : System) (pre : list Entry) (e : Entry) (post : list Entry) (result : Z) (data : bytes) (more_room vacant_key : N) (clock : N -> N).
Context (Hinv : sys_inv s) (Hq : in_flight (ring (world s)) = pre ++ e :: post) (Hallowed : allowed (operation e) result data).
Context (Hvacant : connections (world s) !! vacant_key = None) (Hkey : vacant_key < 2 ^ 32 - 1).

Let id := conn_id (decode_user_data (user_data e)).
Let w := completed e data (pre ++ post) more_room (world s).
Let handled := handle_completion gzip brotli zstd pages vacant_key (clock_of e clock (traces s)) (decode_user_data (user_data e)) result w.

(** The panic of [Connection::new] when the TLS library gives no session. *)
Definition no_session (r : Ended) : Prop :=
  r = Err Panic /\ operation e = OpAccept /\ (0 <= result)%Z /\ is_err tls_new = true.

Definition next_ok (o : World * Ended) : Prop :=
  match o with
  | (w', Ok _) => sys_inv {| world := w'; traces := traced e result data vacant_key clock w w' (traces s) |}
  | (_, Err x) => orderly (Err (A := unit) x) \/ no_session (Err x)
  end.

Lemma kind_of_entry : op_type (decode_user_data (user_data e)) = kind_of (operation e).
Proof. pose proof (si_kinds s Hinv) as Hk. rewrite Hq in Hk. by apply Forall_app in Hk as [_ [Hk _]%Forall_cons_iff]. Qed.

(** The handler [m] works on the connection [c0]. *)
Lemma connection_next m c c0 t :
  match operation e with OpAccept => False | _ => True end ->
  connections (world s) !! id = Some c -> traces s !! id = Some t -> connections w = <[id := c0]> (connections (world s)) ->
  wp id m c0 (fun _ c' ops => conn_ok c' (record (fed (operation e) data c0 c') (wrote (operation e) result c0) t)
    (map operation (of_id id pre ++ of_id id post) ++ ops)) ->
  next_ok (at_connection id m w).
Proof.
  intros Ho Hc Ht Hw Hm. unfold next_ok.
  pose proof (handler_ok s pre e post m w c0 (fun c' => record (fed (operation e) data c0 c') (wrote (operation e) result c0) t)
    (fun w' => traced e result data vacant_key clock w w' (traces s)) Hinv Hq (mk_is_Some _ _ Hc) Hw eq_refl Hm) as Hh.
  fold id in Hh. destruct (at_connection id m w) as [w1 [u|x]]; [|left]; apply Hh.
  all: intros w' c' Hc'; apply (traced_one e result data vacant_key clock w w' (traces s) c0 c' t); try done; by rewrite Hw, lookup_insert_eq.
Qed.

Lemma clock_is t : traces s !! id = Some t -> clock_of e clock (traces s) = at_time t.
Proof. intros Ht. unfold clock_of. fold id. by rewrite Ht. Qed.

Lemma read_next a b : operation e = OpRead a b -> next_ok handled.
Proof.
  intros He. destruct (owner s pre e post Hinv Hq) as [(_ & Ho & _) | (Hlt & _ & c & t & Hc & Ht & Hok)]; [congruence|]. fold id in Hlt, Hc, Ht, Hok.
  pose proof Hallowed as Hal. rewrite He in Hal, Hok. destruct Hal as [Hle Hlen].
  destruct (conn_ok_alone c t _ _ _ Hok) as [Hp1 Hp2]; [by intros []|].
  assert (Hw : connections w = <[id := deliver data c]> (connections (world s))).
  { unfold w, completed. cbn [connections]. rewrite He. fold id. apply map_eq. intros i. destruct (decide (i = id)) as [->|Hne].
    - by rewrite lookup_alter_eq, lookup_insert_eq, Hc.
    - by rewrite lookup_alter_ne, lookup_insert_ne. }
  rewrite Hp1, Hp2 in Hok. cbn [app] in Hok. pose proof (deliver_ok c t a b data Hok Hle) as [Hok' [rest Hrest]].
  unfold handled, handle_completion. rewrite kind_of_entry, He. cbn [kind_of]. fold id. rewrite Hw, lookup_insert_eq.
  cbn [bool_decide negb]. rewrite bool_decide_eq_true_2 by done. cbn [negb]. rewrite (clock_is t Ht).
  assert (Hid : id < 2 ^ 32) by (unfold accept_id in Hlt; lia).
  destruct (result <=? 0)%Z eqn:E.
  - apply (connection_next _ c (deliver data c) t); [by rewrite He|done..|]. rewrite map_app, Hp1, Hp2, He. cbn [app map].
    assert (Hd : data = []) by (destruct data; [done | unfold blen in Hlen; cbn in Hlen; lia]). rewrite Hd in Hok' |- *. by apply (close_ok id _ t _ (OpRead a b) result Hid Hok').
  - apply (connection_next _ c (deliver data c) t); [by rewrite He|done..|]. rewrite map_app, Hp1, Hp2, He. cbn [app map].
    replace (Z.to_N result) with (blen data) by lia. eapply wp_mono; [by apply (handle_read_ok id Hid (deliver data c) t data rest a b)|].
    intros [] c' ops Hx. exact Hx.
Qed.

Lemma write_next f d : operation e = OpWrite f d -> next_ok handled.
Proof.
  intros He. destruct (owner s pre e post Hinv Hq) as [(_ & Ho & _) | (Hlt & _ & c & t & Hc & Ht & Hok)]; [congruence|]. fold id in Hlt, Hc, Ht, Hok.
  pose proof Hallowed as Hal. rewrite He in Hal, Hok. destruct Hal as [Hle _].
  destruct (conn_ok_alone c t _ _ _ Hok) as [Hp1 Hp2]; [by intros []|].
  assert (Hw : connections w = <[id := c]> (connections (world s))) by (unfold w, completed; cbn [connections]; rewrite He; by rewrite insert_id).
  rewrite Hp1, Hp2 in Hok. cbn [app] in Hok.
  unfold handled, handle_completion. rewrite kind_of_entry, He. cbn [kind_of]. fold id. rewrite Hw, lookup_insert_eq.
  rewrite bool_decide_eq_true_2 by done. cbn [negb]. rewrite (clock_is t Ht).
  assert (Hid : id < 2 ^ 32) by (unfold accept_id in Hlt; lia).
  destruct (result <? 0)%Z eqn:E.
  - apply (connection_next _ c c t); [by rewrite He|done..|]. rewrite map_app, Hp1, Hp2, He. cbn [app map].
    apply (close_ok id _ t _ (OpWrite f d) result Hid Hok). unfold wrote. replace (Z.to_nat result) with 0%nat by lia. by destruct (state c).
  - apply (connection_next _ c c t); [by rewrite He|done..|]. rewrite map_app, Hp1, Hp2, He. cbn [app map].
    eapply wp_mono; [apply (handle_write_ok id Hid c t f d (Z.to_N result)); [done | lia]|]. rewrite Z2N.id by lia. intros [] c' ops Hx. exact Hx.
Qed.

Lemma setsockopt_next f l n v : operation e = OpSetSockOpt f l n v -> next_ok handled.
Proof.
  intros He. destruct (owner s pre e post Hinv Hq) as [(_ & Ho & _) | (Hlt & _ & c & t & Hc & Ht & Hok)]; [congruence|]. fold id in Hlt, Hc, Ht, Hok.
  pose proof Hallowed as Hal. rewrite He in Hal. destruct Hal as [Hres _].
  assert (Hw : connections w = <[id := c]> (connections (world s))) by (unfold w, completed; cbn [connections]; rewrite He; by rewrite insert_id).
  unfold handled, handle_completion. rewrite kind_of_entry, He. cbn [kind_of]. fold id. rewrite Hw, lookup_insert_eq.
  rewrite bool_decide_eq_true_2 by done. cbn [negb]. replace (result <? 0)%Z with false by lia.
  assert (Hid : id < 2 ^ 32) by (unfold accept_id in Hlt; lia).
  apply (connection_next _ c c t); [by rewrite He|done..|]. rewrite map_app.
  eapply wp_mono; [apply (handle_setsockopt_ok id Hid c t _ _ _ Hok); by rewrite He|]. rewrite He. intros [] c' ops Hx. exact Hx.
Qed.

(** The operations of another connection are where they were. *)
Lemma others_stay id' es : id' <> id -> of_id id' es = [] -> of_id id' ((pre ++ post) ++ es) = of_id id' (in_flight (ring (world s))).
Proof. intros Hne Hes. rewrite Hq, of_id_app, Hes, app_nil_r, of_id_skip; [done|]. fold id. congruence. Qed.

Lemma kinds_stay es : Forall (fun e => op_type (decode_user_data (user_data e)) = kind_of (operation e)) es ->
  Forall (fun e => op_type (decode_user_data (user_data e)) = kind_of (operation e)) ((pre ++ post) ++ es).
Proof.
  intros Hes. pose proof (si_kinds s Hinv) as Hk. rewrite Hq in Hk. apply Forall_app in Hk as [Hk1 Hk2].
  apply Forall_cons_iff in Hk2 as [_ Hk2]. apply Forall_app. split; [by apply Forall_app | done].
Qed.

Lemma close_next f : operation e = OpClose f -> next_ok handled.
Proof.
  intros He. destruct (owner s pre e post Hinv Hq) as [(_ & Ho & _) | (Hlt & _ & c & t & Hc & Ht & Hok)]; [congruence|]. fold id in Hlt, Hc, Ht, Hok.
  rewrite He in Hok. destruct (conn_ok_alone c t _ _ _ Hok) as [Hp1 Hp2]; [by intros []|].
  assert (Hw : connections w = connections (world s)) by (unfold w, completed; cbn [connections]; by rewrite He).
  unfold handled, handle_completion. rewrite kind_of_entry, He. cbn [kind_of]. fold id. unfold modify, next_ok, traced. fold id. rewrite He, Hw.
  cbn [connections]. rewrite lookup_delete_eq, Hc.
  assert (Hempty : of_id id (pre ++ post) = []).
  { rewrite of_id_app. destruct (of_id id pre); [|done]. by destruct (of_id id post). }
  assert (Hsame : forall id', id' <> id -> of_id id' (pre ++ post) = of_id id' (in_flight (ring (world s)))).
  { intros id' Hne. rewrite <- (others_stay id' []) by done. by rewrite app_nil_r. }
  pose proof Hinv as [I1 I2 I3 I4]. split; cbn [world traces ring connections in_flight w completed].
  - intros i c1. destruct (decide (i = id)) as [->|Hne]; [by rewrite lookup_delete_eq|]. rewrite lookup_delete_ne by done. intros Hi.
    destruct (I1 i c1 Hi) as (Hl & t1 & Ht1 & Hok1). split; [done|]. exists t1. rewrite lookup_delete_ne by done. by rewrite Hsame.
  - rewrite <- (app_nil_r (pre ++ post)). by apply kinds_stay.
  - intros i Hn Ha. destruct (decide (i = id)) as [->|Hne]; [done|]. rewrite lookup_delete_ne in Hn by done. rewrite Hsame by done. by apply I3.
  - rewrite Hsame by lia. done.
Qed.

(** What the handler of an accept leaves: an accept again, and the operations [es] of the new connection. *)
Lemma accepted_inv es w' ts' :
  operation e = OpAccept ->
  let a := plain_entry OpAccept (encode_user_data (2 ^ 64 - 1) Accept) in
  in_flight (ring w') = ((pre ++ post) ++ [a]) ++ es ->
  (es = [] /\ connections w' = connections (world s) /\ ts' = traces s \/
   Forall (entry_for vacant_key) es /\ exists c t, connections w' = <[vacant_key := c]> (connections (world s)) /\
     ts' = <[vacant_key := t]> (traces s) /\ conn_ok c t (map operation es)) ->
  sys_inv {| world := w'; traces := ts' |}.
Proof.
  intros He a Hr Hes. destruct (owner s pre e post Hinv Hq) as [(Hid & _ & Hnone) | (_ & Hx & _)]; [|congruence]. fold id in Hid.
  pose proof Hinv as [I1 I2 I3 I4].
  assert (Ha : entry_for accept_id a) by done.
  assert (Hacc : forall i, i <> accept_id -> of_id i ((pre ++ post) ++ [a]) = of_id i (in_flight (ring (world s)))).
  { intros i Hne. apply others_stay; [congruence|]. apply (of_id_other accept_id i [a]); [by repeat constructor | done]. }
  assert (Hone : of_id accept_id ((pre ++ post) ++ [a]) = [a]).
  { rewrite of_id_app, Hnone. apply of_id_own. by repeat constructor. }
  assert (Hka : Forall (fun e => op_type (decode_user_data (user_data e)) = kind_of (operation e)) [a]) by (by repeat constructor).
  destruct Hes as [(-> & Hc & ->) | (Hes & c & t & Hc & -> & Hok)]; split; cbn [world traces]; rewrite ?Hc, ?Hr, ?app_nil_r.
  - intros i c1 Hi. destruct (I1 i c1 Hi) as (Hl & t1 & Ht1 & Hok1). split; [done|]. exists t1. rewrite Hacc by lia. split; assumption.
  - by apply kinds_stay.
  - intros i Hn Hne. rewrite Hacc by done. by apply I3.
  - by rewrite Hone.
  - intros i c1. rewrite of_id_app. destruct (decide (i = vacant_key)) as [->|Hne].
    + rewrite lookup_insert_eq. intros [= <-]. split; [exact Hkey|]. exists t. rewrite lookup_insert_eq. split; [done|].
      rewrite Hacc by (unfold accept_id; lia). rewrite I3; [by rewrite of_id_own | exact Hvacant | unfold accept_id; lia].
    + rewrite lookup_insert_ne by done. intros Hi. destruct (I1 i c1 Hi) as (Hl & t1 & Ht1 & Hok1). split; [done|]. exists t1.
      rewrite lookup_insert_ne by done. rewrite Hacc by lia. rewrite (of_id_other vacant_key i es Hes Hne), app_nil_r. split; assumption.
  - rewrite <- app_assoc. apply kinds_stay. apply Forall_app. split; [done | by eapply entry_kinds].
  - intros i. rewrite of_id_app. destruct (decide (i = vacant_key)) as [->|Hne]; [by rewrite lookup_insert_eq|].
    rewrite lookup_insert_ne by done. intros Hn Ha'. rewrite (of_id_other vacant_key i es), app_nil_r, Hacc by done. by apply I3.
  - rewrite of_id_app, Hone, (of_id_other vacant_key accept_id es Hes) by (unfold accept_id; lia). done.
Qed.

Lemma accept_next : operation e = OpAccept -> next_ok handled.
Proof.
  intros He. assert (Hw : connections w = connections (world s)) by (unfold w, completed; cbn [connections]; by rewrite He).
  unfold handled, handle_completion. rewrite kind_of_entry, He. cbn [kind_of]. unfold mbind, st_bind, on_world_ring, submit_accept, push.
  destruct (room (ring w) =? 0); [by left|]. cbn [in_flight ring w completed].
  destruct (result <? 0)%Z eqn:E.
  - cbn [mret st_ret]. unfold next_ok, traced. rewrite He, E. eapply (accepted_inv []); [done | cbn [ring in_flight]; by rewrite app_nil_r | by left].
  - unfold modify, unwrap, connection_new. destruct tls_new as [tls|] eqn:Htls; [|right; split_and!; [done..|lia|by rewrite Htls]]. cbn [mret st_ret ring connections].
    set (c := connection_with (Z.to_N result) tls). set (t := {| received := []; sent := []; at_time := clock |}).
    match goal with |- next_ok (at_connection _ _ ?x) => set (w1 := x) end.
    assert (Hm : wp vacant_key (submit_read vacant_key) c (fun _ c' ops => conn_ok c' t ops)).
    { apply wp_submit_read; [lia|]. by apply ok_handshake_reading. }
    pose proof (at_connection_spec vacant_key _ w1 c _ (lookup_insert_eq _ _ _) Hm) as Hat.
    destruct (at_connection vacant_key _ w1) as [w' [[]|x]]; [|by left]. destruct Hat as (c' & es & H1 & H2 & H3 & H4).
    unfold next_ok, traced. rewrite He, E. eapply (accepted_inv es); [done | by rewrite H2 |]. right. split; [done|]. exists c', t.
    split_and!; [|done|done]. rewrite H1. cbn [connections w1]. rewrite insert_insert_eq. cbn. by rewrite He.
Qed.

Lemma completion_ok : next_ok handled.
Proof.
  assert (Hall : forall op, operation e = op -> next_ok handled); [|by eapply Hall].
  intros [|a b|f d|f|f l n v] He; [by apply accept_next | by eapply read_next | by eapply write_next | by eapply close_next | by eapply setsockopt_next].
Qed.
End Completion.

(** ** Every state that can be reached *)

Lemma start_ok : sys_inv system_start.
Proof.
  split; [by intros i c Hc | by apply Forall_singleton | | done]. intros i _ Hne.
  apply (of_id_other accept_id i [_]); [by apply Forall_singleton | done].
Qed.

Lemma reachable_inv s : reachable s -> sys_inv s.
Proof.
  induction 1 as [|s s' _ IH [pre e post result data more_room vacant_key clock w' Hq Ha Hv Hk w Hh]]; [apply start_ok|].
  pose proof (completion_ok s pre e post result data more_room vacant_key clock IH Hq Ha Hv Hk) as Hn. fold w in Hn. by rewrite Hh in Hn.
Qed.

(** The answers to what the connection received. *)
Abbreviation answers t :=
  (ServerSession.transcript gzip brotli zstd pages (at_time t) DEFAULT_MAX_REQUESTS 0 (messages (received t))).

(** C24: In every state of the server that completions in any order can lead to, one
    accept is in flight, and each connection has an operation in flight; what was
    written on it after the handshake is a beginning of the answers to the requests
    that [decode] gives for the bytes it received, in their order and with nothing
    after an answer that closes the connection.  A connection that waits for
    requests has been sent all of them.  Whatever operation is complete next, and
    with whatever result the kernel gives (short reads and writes and errors; the
    options of the socket are accepted), its handler does not panic - but for
    that of an accept with a new connection, which panics when the TLS library
    gives no session for it. *)
Theorem uring_answers_in_order s :
  reachable s ->
  map operation (of_id accept_id (in_flight (ring (world s)))) = [OpAccept] /\
  (forall id c, connections (world s) !! id = Some c ->
    exists t, traces s !! id = Some t /\ of_id id (in_flight (ring (world s))) <> [] /\
      sent t `prefix_of` fst (answers t) /\
      (state c = Reading -> answers t = (sent t, true))) /\
  forall pre e post result data more_room vacant_key clock,
    in_flight (ring (world s)) = pre ++ e :: post -> allowed (operation e) result data ->
    connections (world s) !! vacant_key = None -> vacant_key < 2 ^ 32 - 1 ->
    let r := snd (handle_completion gzip brotli zstd pages vacant_key (clock_of e clock (traces s)) (decode_user_data (user_data e)) result
      (completed e data (pre ++ post) more_room (world s))) in
    orderly r \/ r = Err Panic /\ operation e = OpAccept /\ (0 <= result)%Z /\ is_err tls_new = true.
Proof.
  intros Hr. apply reachable_inv in Hr. split_and!.
  - apply Hr.
  - intros id c Hc. destruct (si_conns s Hr id c Hc) as (_ & t & Ht & Hok). exists t. rewrite replies_transcript.
    apply conn_ok_order in Hok as Ho. destruct Ho as [Hp Hd]. split_and!; [done | | exact Hp |].
    + intros Hn. rewrite Hn in Hok. remember (map operation []) as ops eqn:Hops. by destruct Hok.
    + intros Hs. destruct (Hd Hs) as [-> Hopen]. unfold text. fold (responses t). by rewrite Hopen.
  - intros pre e post result data more_room vacant_key clock Hq Ha Hv Hk.
    pose proof (completion_ok s pre e post result data more_room vacant_key clock Hr Hq Ha Hv Hk) as Hn.
    destruct (handle_completion _ _ _ _ _ _ _ _ _) as [w' [[]|x]]; [by left | exact Hn].
Qed.

(** ** Runs *)

#[export] Instance allowed_dec op result data : Decision (allowed op result data).
Proof.
  assert (Hn : Decision (data = [])) by (destruct data; [by left | by right]). destruct op; cbn [allowed]; apply _.
Defined.

(** A completion: which operation in flight, its result and its bytes, the room
    in the submission queue after it and the key for a new connection. *)
Record Event := { which : nat; outcome : Z; brought : bytes; room_after : N; new_key : N }.

Definition happen (clock : N -> N) (ev : Event) (s : System) : option System :=
  let q := in_flight (ring (world s)) in
  match nth_error q (which ev) with
  | None => None
  | Some e =>
      let rest := take (which ev) q ++ drop (S (which ev)) q in
      let w := completed e (brought ev) rest (room_after ev) (world s) in
      if negb (bool_decide (allowed (operation e) (outcome ev) (brought ev)) && (new_key ev <? 2 ^ 32 - 1)
               && negb (is_some (connections (world s) !! new_key ev))) then None
      else
        match handle_completion gzip brotli zstd pages (new_key ev) (clock_of e clock (traces s)) (decode_user_data (user_data e)) (outcome ev) w with
        | (w', Ok _) => Some {| world := w'; traces := traced e (outcome ev) (brought ev) (new_key ev) clock w w' (traces s) |}
        | (_, Err _) => None
        end
  end.

Fixpoint run (clock : N -> N) (evs : list Event) (s : System) : option System :=
  match evs with
  | [] => Some s
  | ev :: evs => match happen clock ev s with Some s' => run clock evs s' | None => None end
  end.

Lemma happen_step clock ev s s' : happen clock ev s = Some s' -> step s s'.
Proof.
  unfold happen. destruct (nth_error _ _) as [e|] eqn:Hn; [|done]. apply nth_error_split in Hn as (pre & post & Hq & Hlen).
  destruct (negb _) eqn:Hc; [done|]. apply negb_false_iff in Hc. apply andb_true_iff in Hc as [Hc Hv]. apply andb_true_iff in Hc as [Ha Hk].
  apply bool_decide_eq_true_1 in Ha. apply N.ltb_lt in Hk. apply negb_true_iff in Hv.
  assert (Hrest : take (which ev) (in_flight (ring (world s))) ++ drop (S (which ev)) (in_flight (ring (world s))) = pre ++ post).
  { rewrite Hq, <- Hlen. by rewrite take_app_length, drop_app_ge, Nat.sub_succ_l, Nat.sub_diag by lia. }
  rewrite Hrest. destruct (handle_completion _ _ _ _ _ _ _ _ _) as [w' [[]|x]] eqn:Hh; [|done]. intros [= <-].
  eapply (step_completion s pre e post (outcome ev) (brought ev) (room_after ev) (new_key ev) clock w'); try done.
  by destruct (connections (world s) !! new_key ev).
Qed.

Lemma run_reachable clock evs s s' : reachable s -> run clock evs s = Some s' -> reachable s'.
Proof.
  revert s. induction evs as [|ev evs IH]; intros s Hs; cbn [run]; [by intros [= <-]|].
  destruct (happen clock ev s) as [s1|] eqn:Hh; [|done]. apply IH. eapply reach_step; [exact Hs | by eapply happen_step].
Qed.
End Order.

(** A session of two flights each way; what comes with the last is plaintext. *)
#[local] Instance two_flights : Tls (nat * bytes) unit unit unit := {
  tls_new := Ok (0%nat, []);
  read_tls := fun data '(n, _) => ((S n, if (n =? 2)%nat then data else []), Ok (blen data));
  process_new_packets := fun c => (c, Ok tt);
  wants_write := fun '(n, _) => (n =? 1)%nat;
  write_tls := fun '(n, d) => ((S n, d), Ok (B "server hello"));
  is_handshaking := fun '(n, _) => (n <? 3)%nat;
  negotiated_cipher_suite := fun _ => Some tt;
  read_to_end := fun '(n, d) => ((n, []), (d, WouldBlock));
  dangerous_extract_secrets := fun _ => Ok (tt, tt);
  from_rustls := fun _ _ => Ok tt
}.

Definition ends (k : nat) (result : Z) (data : bytes) : Event :=
  {| which := k; outcome := result; brought := data; room_after := 200; new_key := 8 |}.
Definition reads (data : bytes) : Event := ends 1 (Z.of_N (blen data)) data.

(** A handshake, a request that comes with its end and half of the next, and the
    answer in two writes. *)
Definition first_answer : list Event :=
  [{| which := 0; outcome := 5; brought := []; room_after := 200; new_key := 7 |}; reads (B "client hello"); ends 1 4 []; ends 1 8 [];
   reads (ServerSession.first_bytes ++ take 30 ServerSession.second_bytes);
   ends 2 0 []; ends 1 0 []; ends 1 0 []; ends 1 100 []].

Definition example_run (evs : list Event) : option (System (C := nat * bytes) (U := unit) (I := unit)) :=
  run ServerSession.no_coder ServerSession.no_coder ServerSession.no_coder uring_site ServerSession.at_epoch evs system_start.

(** The rest of the answer, the second request and its answer, the close. *)
Definition second_answer : list Event :=
  [ends 1 166 []; reads (drop 30 ServerSession.second_bytes)].

Example uring_run :
  match example_run (first_answer ++ second_answer) with
  | Some s =>
      match map operation (in_flight (ring (world s))) with
      | [OpAccept; OpWrite f d] =>
          f = 5 /\ ends_with (B "Body (2 bytes):" ++ [LF] ++ B "ok") d = true /\
          match example_run (first_answer ++ second_answer ++ [ends 1 (Z.of_N (blen d)) []; ends 1 0 []]) with
          | Some s' => map operation (in_flight (ring (world s'))) = [OpAccept] /\ connections (world s') !! 7 = None
          | None => False
          end
      | _ => False
      end
  | None => False
  end.
Proof. vm_compute. done. Qed.

Definition completes (k : nat) (result : Z) (data : bytes) (w : World (C := nat * bytes) (U := unit) (I := unit)) :
    World (C := nat * bytes) (U := unit) (I := unit) * Prelude.result (exn BoxedError) unit :=
  let q := in_flight (ring w) in
  match nth_error q k with
  | Some e => handle_completion ServerSession.no_coder ServerSession.no_coder ServerSession.no_coder uring_site 8 ServerSession.at_epoch
      (decode_user_data (user_data e)) result (completed e data (take k q ++ drop (S k) q) 200 w)
  | None => (w, Ok tt)
  end.

Definition after (evs : list Event) : World (C := nat * bytes) (U := unit) (I := unit) :=
  match example_run evs with Some s => world s | None => main_start end.

(** A request that is none is an error of the handler, which [main] returns: the
    server ends, with all its connections. *)
Example malformed_request_ends_server :
  snd (completes 1 8 (B "GET /" ++ [CR; LF; CR]) (after (first_answer ++ [ends 1 166 []]))) =
    Err (Throw (Decoding (Error.InvalidData (B "invalid header line: missing colon")))).
Proof. vm_compute. done. Qed.

(** The kernel without kTLS: the first option fails, the two linked to it are
    cancelled, and each completion closes the descriptor. *)
Example one_failure_three_closes :
  map operation (in_flight (ring (fst (completes 1 (-125) [] (fst (completes 1 (-125) [] (fst (completes 1 (-2) []
    (after (take 5 first_answer)))))))))) = [OpAccept; OpClose 5; OpClose 5; OpClose 5].
Proof. vm_compute. done. Qed.

(** A TLS library that gives no session: the first connection that is accepted
    ends the server. *)
Example no_session_panics :
  let broken : Tls unit unit unit unit := {|
    tls_new := Err (B "no session"); read_tls := fun _ c => (c, Ok 0); process_new_packets := fun c => (c, Ok tt);
    wants_write := fun _ => false; write_tls := fun c => (c, Ok []); is_handshaking := fun _ => true;
    negotiated_cipher_suite := fun _ => None; read_to_end := fun c => (c, ([], WouldBlock));
    dangerous_extract_secrets := fun _ => Err []; from_rustls := fun _ _ => Err [] |} in
  snd (handle_completion (H := broken) ServerSession.no_coder ServerSession.no_coder ServerSession.no_coder uring_site 8
    ServerSession.at_epoch {| conn_id := accept_id; op_type := Accept |} 5 main_start) = Err Panic.
Proof. vm_compute. done. Qed.

Definition waits_for_requests (s : System (C := nat * bytes) (U := unit) (I := unit)) : bool :=
  match connections (world s) !! 7 with Some c => match state c with Reading => true | _ => false end | None => false end.

Lemma waits_connection s : waits_for_requests s = true -> exists c, connections (world s) !! 7 = Some c /\ state c = Reading.
Proof.
  unfold waits_for_requests. destruct (connections (world s) !! 7) as [c|]; [|done]. intros Hc. exists c. split; [done|]. by destruct (state c).
Qed.

Abbreviation reachable_example := (reachable ServerSession.no_coder ServerSession.no_coder ServerSession.no_coder uring_site).

Lemma uring_answers_in_order_witness :
  exists s, example_run (first_answer ++ [ends 1 166 []]) = Some s /\ reachable_example s /\
  exists t, traces s !! 7 = Some t /\
    ServerSession.transcript ServerSession.no_coder ServerSession.no_coder ServerSession.no_coder uring_site (at_time t) DEFAULT_MAX_REQUESTS 0
      (messages (UringOrder.received t)) = (sent t, true).
Proof.
  assert (Hw : match example_run (first_answer ++ [ends 1 166 []]) with Some s => waits_for_requests s | None => false end = true)
    by (vm_compute; reflexivity).
  destruct (example_run (first_answer ++ [ends 1 166 []])) as [s|] eqn:Hs; [|discriminate Hw]. exists s. split; [reflexivity|].
  assert (Hr : reachable_example s) by (eapply run_reachable; [apply reach_start | exact Hs]).
  split; [exact Hr|]. destruct (waits_connection s Hw) as (c & Hc & Hst).
  destruct (uring_answers_in_order _ _ _ _ s Hr) as (_ & Hall & _). destruct (Hall 7 c Hc) as (t & Ht & _ & _ & Ha).
  exists t. split; [exact Ht | exact (Ha Hst)].
Defined.
End UringOrder.
