(* ===== verification/Decompressors.v ===== *)
(** * The decompressors of the client ([examples/http11_client/src/decompressor.rs])

    Three adapters put the decoders of other crates behind [Decompressor], and
    [AnyDecompressor] chooses among them by the Content-Encoding.  The decoders
    themselves are classes; [Stream] is what the client relies on: bytes come out
    in order, and what is not out at the end of a call is announced by
    [OutputFull].  The adapter of gzip keeps this promise if its decoder does. *)
From S2P Require Import Prelude RustStd RustStr Errors Validate Compression.

(** What is left after [n] bytes, and the slices of a buffer. *)
Definition from_index (n : N) (b : bytes) : bytes := drop (N.to_nat n) b.
Definition to_index (n : N) (b : bytes) : bytes := take (N.to_nat n) b.

Module Decompressors.

(** ** The other crates *)

(** [noflate::gzip::Decoder]: [feed] takes all it is given.  [gz_left] bounds
    what is still to come out when the input follows. *)
Class GzipDecoder (G : Type) := {
  gz_new : G;
  gz_feed : bytes -> G -> G * result str unit;
  gz_output : G -> bytes;
  gz_advance : N -> G -> G;
  gz_is_finished : G -> bool;
  gz_left : G -> bytes -> nat
}.

Inductive BrotliResult : Type := ResultSuccess | NeedsMoreInput | NeedsMoreOutput | ResultFailure.

(** [BrotliDecompressStream]: the offsets in the input and in the output, the
    output and the total. *)
Class BrotliStream (BS : Type) := {
  br_new : BS;
  br_stream : bytes -> bytes -> N -> BS -> BS * (N * N * bytes * N) * BrotliResult;
  br_left : BS -> bytes -> nat
}.

Record ZstdStatus := { bytes_read : N; bytes_written : N; status_remaining : N }.

(** [zstd::stream::raw::Decoder]. *)
Class ZstdDecoder (ZD : Type) := {
  zs_new : result str ZD;
  zs_run_on_buffers : bytes -> bytes -> ZD -> ZD * bytes * result str ZstdStatus;
  zs_left : ZD -> bytes -> nat
}.

(** ** gzip *)

Definition GZIP_FEED_CHUNK : N := 4096.

Section Gzip.
Context {G : Type} `{GzipDecoder G}.

Record GzipDecompressor := { gzip_decoder : G }.

Definition GzipDecompressor_new : GzipDecompressor := {| gzip_decoder := gz_new |}.

(** [drain_into]: the decoder, the output and the number of bytes written. *)
Definition drain_into (output : bytes) (g : G) : G * bytes * N :=
  let avail := gz_output g in
  let n := N.min (blen avail) (blen output) in
  if n =? 0 then (g, output, 0) else (gz_advance n g, to_index n avail ++ from_index n output, n).

(** [self.drain_into(&mut output[produced..])]. *)
Definition drain_at (output : bytes) (produced : N) (g : G) : G * bytes * N :=
  let '(g', rest, n) := drain_into (from_index produced output) g in
  (g', to_index produced output ++ rest, produced + n).

(** The [while] loop; every round takes a byte of the input at least. *)
Fixpoint gzip_loop (fuel : nat) (input output : bytes) (consumed produced : N) (g : G) : G * bytes * status_result :=
  let done := (g, output, Ok (if gz_is_finished g then SComplete consumed produced else SContinue consumed produced)) in
  match fuel with
  | O => done
  | S fuel =>
      if (consumed <? blen input) && (produced <? blen output) then
        let feed_size := N.min (blen input - consumed) GZIP_FEED_CHUNK in
        let '(g, fed) := gz_feed (to_index feed_size (from_index consumed input)) g in
        match fed with
        | Err e => (g, output, Err (CompressionError.InvalidData e))
        | Ok _ =>
            let consumed := consumed + feed_size in
            let '(g, output, produced) := drain_at output produced g in
            if negb (is_empty (gz_output g)) then (g, output, Ok (SOutputFull consumed produced))
            else gzip_loop fuel input output consumed produced g
        end
      else done
  end.

Definition gzip_decompress (d : GzipDecompressor) (input output : bytes) : GzipDecompressor * bytes * status_result :=
  let '(g, output, produced) := drain_at output 0 (gzip_decoder d) in
  let '(g, output, r) :=
    if negb (is_empty (gz_output g)) then (g, output, Ok (SOutputFull 0 produced))
    else gzip_loop (length input) input output 0 produced g in
  ({| gzip_decoder := g |}, output, r).

#[export] Instance GzipDecompressor_decompressor : Decompressor GzipDecompressor :=
  {| decompress := gzip_decompress; decompressor_reset := fun _ => GzipDecompressor_new |}.
End Gzip.
Arguments GzipDecompressor G : clear implicits.

(** ** Brotli *)

Section Brotli.
Context {BS : Type} `{BrotliStream BS}.

Record BrotliDecompressor := { brotli_state : BS; total_out : N }.

Definition BrotliDecompressor_new : BrotliDecompressor := {| brotli_state := br_new; total_out := 0 |}.

Definition brotli_decompress (d : BrotliDecompressor) (input output : bytes) : BrotliDecompressor * bytes * status_result :=
  let '(s, (input_offset, output_offset, output', total), r) := br_stream input output (total_out d) (brotli_state d) in
  ({| brotli_state := s; total_out := total |}, output',
   match r with
   | ResultSuccess => Ok (SComplete input_offset output_offset)
   | NeedsMoreInput => Ok (SContinue input_offset output_offset)
   | NeedsMoreOutput => Ok (SOutputFull input_offset output_offset)
   | ResultFailure => Err (CompressionError.InvalidData (B "brotli decoder reported failure"))
   end).

#[export] Instance BrotliDecompressor_decompressor : Decompressor BrotliDecompressor :=
  {| decompress := brotli_decompress; decompressor_reset := fun _ => BrotliDecompressor_new |}.
End Brotli.
Arguments BrotliDecompressor BS : clear implicits.

(** ** Zstandard *)

Section Zstd.
Context {ZD : Type} `{ZstdDecoder ZD}.

Record ZstdDecompressor := { zstd_decoder : ZD }.

Definition ZstdDecompressor_new : result CompressionError.t ZstdDecompressor :=
  d ← map_err CompressionError.Internal zs_new; Ok {| zstd_decoder := d |}.

Definition zstd_decompress (d : ZstdDecompressor) (input output : bytes) : ZstdDecompressor * bytes * status_result :=
  let '(z, output', r) := zs_run_on_buffers input output (zstd_decoder d) in
  ({| zstd_decoder := z |}, output',
   status ← map_err CompressionError.InvalidData r;
   let consumed := bytes_read status in
   let produced := bytes_written status in
   Ok (if status_remaining status =? 0 then SComplete consumed produced
       else if (produced =? blen output) && (consumed <? blen input) then SOutputFull consumed produced
       else SContinue consumed produced)).

(** [reset] panics when no decoder can be made; the model keeps the old one. *)
Definition zstd_reset (d : ZstdDecompressor) : ZstdDecompressor :=
  match zs_new with Ok z => {| zstd_decoder := z |} | Err _ => d end.

#[export] Instance ZstdDecompressor_decompressor : Decompressor ZstdDecompressor :=
  {| decompress := zstd_decompress; decompressor_reset := zstd_reset |}.
End Zstd.
Arguments ZstdDecompressor ZD : clear implicits.

(** ** The choice *)

Section Any.
Context {G BS ZD : Type} `{GzipDecoder G, BrotliStream BS, ZstdDecoder ZD}.

(** [enum AnyDecompressor]; [ANone] is its variant [None], and so on. *)
Inductive AnyDecompressor : Type :=
  | ANone (d : NoCompression)
  | AGzip (d : GzipDecompressor G)
  | ABrotli (d : BrotliDecompressor BS)
  | AZstd (d : ZstdDecompressor ZD).

Definition for_encoding (encoding : str) : result CompressionError.t AnyDecompressor :=
  let e := to_ascii_lowercase (trim encoding) in
  if is_empty e || (e =s B "identity") then Ok (ANone NoCompression_new)
  else if (e =s B "gzip") || (e =s B "x-gzip") then Ok (AGzip GzipDecompressor_new)
  else if e =s B "br" then Ok (ABrotli BrotliDecompressor_new)
  else if e =s B "zstd" then d ← ZstdDecompressor_new; Ok (AZstd d)
  else Err (CompressionError.InvalidData (B "unsupported Content-Encoding: " ++ e)).

Definition any_decompress (d : AnyDecompressor) (input output : bytes) : AnyDecompressor * bytes * status_result :=
  match d with
  | ANone d => let '(d, o, r) := decompress d input output in (ANone d, o, r)
  | AGzip d => let '(d, o, r) := decompress d input output in (AGzip d, o, r)
  | ABrotli d => let '(d, o, r) := decompress d input output in (ABrotli d, o, r)
  | AZstd d => let '(d, o, r) := decompress d input output in (AZstd d, o, r)
  end.

Definition any_reset (d : AnyDecompressor) : AnyDecompressor :=
  match d with
  | ANone d => ANone (decompressor_reset d)
  | AGzip d => AGzip (decompressor_reset d)
  | ABrotli d => ABrotli (decompressor_reset d)
  | AZstd d => AZstd (decompressor_reset d)
  end.

#[export] Instance AnyDecompressor_decompressor : Decompressor AnyDecompressor :=
  {| decompress := any_decompress; decompressor_reset := any_reset |}.

(** A bound on the calls that make progress on an input, the fuel of the client's loops. *)
Definition any_work (d : AnyDecompressor) (input : bytes) : nat :=
  match d with
  | ANone _ => length input
  | AGzip d => length input + gz_left (gzip_decoder d) input
  | ABrotli d => length input + br_left (brotli_state d) input
  | AZstd d => length input + zs_left (zstd_decoder d) input
  end.
End Any.
Arguments AnyDecompressor G BS ZD : clear implicits.

Definition supported_encodings : str := B "gzip, br, zstd".
End Decompressors.

(** * What the client relies on in a decompressor

    [Stream]: the output is a beginning of what the input decompresses to, and
    all of it after a call that does not announce [OutputFull].  NoCompression keeps
    this promise, and the adapter of gzip does when its decoder gives out in order
    what it was fed ([GzipLaws], the documented behaviour of [noflate]). *)

Module DecompressorFacts.
Import Decompressors.

(** ** The interface *)

Section Interface.
Context {D : Type} `{Decompressor D}.

(** One call on [input], [d] having read [fed] and given [given], which
    should decompress to [whole]. *)
Record call_ok (at_ : D -> bytes -> bytes -> Prop) (whole : bytes -> bytes) (work : D -> bytes -> nat)
    (d d' : D) (fed given input output output' : bytes) (s : CompressionStatus) : Prop := {
  call_length : length output' = length output;
  call_consumed : consumed s <= blen input;
  call_produced : produced s <= blen output;
  call_at : at_ d' (fed ++ to_index (consumed s) input) (given ++ to_index (produced s) output');
  call_work : consumed s <> 0 \/ produced s <> 0 -> (work d' (from_index (consumed s) input) < work d input)%nat;
  call_flushed : is_output_full s = false -> given ++ to_index (produced s) output' = whole (fed ++ to_index (consumed s) input);
  call_full : is_output_full s = true -> produced s = blen output;
  call_eager : given = whole fed -> input <> [] -> output <> [] -> consumed s <> 0
}.

Class Stream (whole : bytes -> bytes) (work : D -> bytes -> nat) := {
  at_ : D -> bytes -> bytes -> Prop;
  stream_call d input output d' output' s fed given :
    at_ d fed given -> decompress d input output = (d', output', Ok s) ->
    call_ok at_ whole work d d' fed given input output output' s;
  stream_prefix d fed given : at_ d fed given -> given `prefix_of` whole fed;
  stream_empty d output fed given : at_ d fed given -> is_ok (snd (decompress d [] output)) = true
}.
End Interface.
Arguments Stream D {H} whole work.

(** ** NoCompression *)

Lemma to_index_app_length (a b : bytes) : to_index (blen a) (a ++ b) = a.
Proof. unfold to_index, blen. rewrite Nat2N.id. apply take_app_length. Qed.

#[export] Instance no_compression_stream : Stream NoCompression (fun fed => fed) (fun _ input => length input).
Proof.
  refine {| at_ := fun _ fed given => given = fed |}.
  - intros d input output d' output' s fed given -> Hd. cbn in Hd. unfold no_decompress in Hd. injection Hd as <- <- Hs.
    set (n := Nat.min (length input) (length output)) in *.
    assert (Hx : consumed s = N.of_nat n /\ produced s = N.of_nat n /\
      (is_output_full s = true -> n = length output) /\ (is_output_full s = false -> n = length input)).
    { destruct (n <? length input)%nat eqn:E1; [subst s; cbn; split_and!; try done; lia|].
      destruct (length input =? 0)%nat eqn:E2; subst s; cbn; split_and!; try done; lia. }
    destruct Hx as (Hc & Hp & Hf & Hn).
    assert (Ht : to_index (N.of_nat n) (copy_prefix input output n) = to_index (N.of_nat n) input).
    { unfold to_index, copy_prefix. rewrite Nat2N.id. rewrite take_app_le by (rewrite length_take; lia). by rewrite take_take, Nat.min_id. }
    split; unfold blen in *; rewrite ?Hc, ?Hp, ?Ht; try lia.
    + apply copy_prefix_length.
    + done.
    + unfold from_index. rewrite length_drop. lia.
    + done.
    + intros _ Hi Ho. destruct input, output; cbn in *; try done; lia.
  - by intros d fed given ->.
  - done.
Defined.

(** ** gzip *)

Section Gzip.
Context {G : Type} `{GzipDecoder G}.

(** A decoder gives out, in order, what the input so far inflates to.  [gz_at g f k]:
    it was fed [f], and [k] bytes were taken. *)
Class GzipLaws (inflate : bytes -> bytes) := {
  gz_at : G -> bytes -> nat -> Prop;
  gz_at_new : gz_at gz_new [] 0;
  gz_at_feed g f k x g' : gz_at g f k -> gz_feed x g = (g', Ok tt) -> gz_at g' (f ++ x) k;
  gz_at_advance g f k n : gz_at g f k -> n <= blen (gz_output g) -> gz_at (gz_advance n g) f (k + N.to_nat n);
  gz_at_output g f k : gz_at g f k -> gz_output g = drop k (inflate f) /\ (k <= length (inflate f))%nat;
  inflate_nil : inflate [] = [];
  inflate_more f x : inflate f `prefix_of` inflate (f ++ x);
  gz_left_output g input : (length (gz_output g) <= gz_left g input)%nat;
  gz_left_advance g n input : n <= blen (gz_output g) -> (gz_left (gz_advance n g) input + N.to_nat n <= gz_left g input)%nat;
  gz_left_feed g x input g' : gz_feed x g = (g', Ok tt) -> (gz_left g' input <= gz_left g (x ++ input))%nat
}.

Context {inflate : bytes -> bytes} `{GzipLaws inflate}.

(** The decoder after [fed], of whose output [given] is what was taken. *)
Definition gzip_at (g : G) (fed given : bytes) : Prop :=
  gz_at g fed (length given) /\ given = take (length given) (inflate fed).

Lemma gzip_output g fed given : gzip_at g fed given -> given ++ gz_output g = inflate fed.
Proof. intros [Ha Hg]. destruct (gz_at_output _ _ _ Ha) as [-> _]. rewrite Hg at 1. apply take_drop. Qed.

(** [drain_into] moves bytes from the decoder to the output. *)
Lemma drain_into_spec output g g' output' n fed given input :
  gzip_at g fed given -> drain_into output g = (g', output', n) ->
  length output' = length output /\ n <= blen output /\ gzip_at g' fed (given ++ to_index n output') /\
  (gz_output g' <> [] -> n = blen output) /\ (gz_left g' input + N.to_nat n <= gz_left g input)%nat.
Proof.
  intros Hg. pose proof (gzip_output _ _ _ Hg) as Ho. destruct Hg as [Ha Hg]. unfold drain_into.
  set (m := N.min (blen (gz_output g)) (blen output)). destruct (m =? 0) eqn:E.
  - intros [= <- <- <-]. unfold to_index. rewrite take_0, app_nil_r. split_and!; [done | lia | by split | | cbn; lia].
    intros Hne. destruct (gz_output g); [done|]. unfold blen in *. cbn in *. lia.
  - intros [= <- <- <-]. assert (Hm : m <= blen (gz_output g)) by lia.
    assert (Hlen : length (to_index m (gz_output g)) = N.to_nat m) by (unfold to_index, blen in *; rewrite length_take; lia).
    assert (Ht : to_index m (to_index m (gz_output g) ++ from_index m output) = to_index m (gz_output g)).
    { unfold to_index at 1. rewrite take_app_le by lia. rewrite firstn_all2; [done | lia]. }
    rewrite Ht. pose proof (gz_at_advance _ _ _ m Ha Hm) as Ha'. pose proof (gz_left_advance g m input Hm) as Hl.
    split_and!; [|lia | | |exact Hl].
    + rewrite length_app, Hlen. unfold from_index. rewrite length_drop. unfold blen in *. lia.
    + split; [by rewrite length_app, Hlen|]. rewrite <- Ho. unfold to_index in *. rewrite length_app, Hlen, take_app_add'.
      * done.
      * done.
    + destruct (gz_at_output _ _ _ Ha') as [Ho' _]. intros Hne. destruct (N.eq_dec m (blen output)) as [|Hx]; [done|]. exfalso. apply Hne.
      assert (Hmo : m = blen (gz_output g)) by lia. rewrite Ho'. apply list.drop_ge. rewrite <- Ho, length_app. unfold blen in *. lia.
Qed.

Lemma to_index_more n m (b : bytes) : to_index (n + m) b = to_index n b ++ to_index m (from_index n b).
Proof.
  unfold to_index, from_index. rewrite N2Nat.inj_add. rewrite <- (take_drop (N.to_nat n) b) at 1.
  destruct (decide (N.to_nat n <= length b)%nat).
  - rewrite take_app_add'; [done|]. rewrite length_take. lia.
  - rewrite list.drop_ge by lia. rewrite take_nil, !app_nil_r. rewrite !firstn_all2; rewrite ?length_firstn; try done; lia.
Qed.

Lemma drain_at_spec base output produced g g' output' produced' fed input :
  produced <= blen output -> gzip_at g fed (base ++ to_index produced output) ->
  drain_at output produced g = (g', output', produced') ->
  length output' = length output /\ produced <= produced' <= blen output /\
  gzip_at g' fed (base ++ to_index produced' output') /\
  (gz_output g' <> [] -> produced' = blen output) /\
  (gz_left g' input + N.to_nat (produced' - produced) <= gz_left g input)%nat.
Proof.
  intros Hp Hg. unfold drain_at. destruct (drain_into _ g) as [[g1 rest] n] eqn:Hd. intros [= <- <- <-].
  destruct (drain_into_spec _ _ _ _ _ _ _ input Hg Hd) as (H1 & H2 & H3 & H4 & H5).
  unfold from_index in H1, H2, H4. unfold blen in *. rewrite length_drop in *.
  assert (Hl : length (to_index produced output) = N.to_nat produced) by (unfold to_index; rewrite length_take; lia).
  split_and!; try lia.
  - rewrite length_app, Hl, H1. lia.
  - assert (Ht : to_index (produced + n) (to_index produced output ++ rest) = to_index produced output ++ to_index n rest).
    { unfold to_index in *. rewrite N2Nat.inj_add, take_app_add'; [done | by rewrite Hl]. }
    rewrite Ht, app_assoc. exact H3.
  - intros Hne. specialize (H4 Hne). lia.
Qed.

Record loop_ok (fed base input output : bytes) (consumed0 produced0 : N) (g g' : G) (output' : bytes) (s : CompressionStatus) : Prop := {
  lo_length : length output' = length output;
  lo_consumed : consumed0 <= consumed s <= blen input;
  lo_produced : produced0 <= produced s <= blen output;
  lo_at : gzip_at g' (fed ++ to_index (consumed s) input) (base ++ to_index (produced s) output');
  lo_flushed : is_output_full s = false -> gz_output g' = [];
  lo_full : is_output_full s = true -> produced s = blen output;
  lo_left : (gz_left g' (from_index (consumed s) input) + N.to_nat (produced s - produced0) <= gz_left g (from_index consumed0 input))%nat
}.

Lemma gzip_loop_spec fed base fuel input output consumed0 produced0 g g' output' s :
  consumed0 <= blen input -> produced0 <= blen output -> gz_output g = [] ->
  gzip_at g (fed ++ to_index consumed0 input) (base ++ to_index produced0 output) ->
  gzip_loop fuel input output consumed0 produced0 g = (g', output', Ok s) ->
  loop_ok fed base input output consumed0 produced0 g g' output' s /\
  (fuel <> O -> consumed0 < blen input -> produced0 < blen output -> consumed0 < consumed s).
Proof.
  revert output consumed0 produced0 g. induction fuel as [|fuel IH]; intros output consumed0 produced0 g Hc Hp Ho Hg Hl; cbn [gzip_loop] in Hl.
  - split; [|done]. injection Hl as <- <- <-. split; destruct (gz_is_finished g); cbn; try done; lia.
  - destruct ((consumed0 <? blen input) && (produced0 <? blen output)) eqn:E.
    2: { split; [|lia]. injection Hl as <- <- <-. split; destruct (gz_is_finished g); cbn; try done; lia. }
    set (n := N.min (blen input - consumed0) GZIP_FEED_CHUNK) in *.
    assert (Hn : 0 < n /\ consumed0 + n <= blen input) by (unfold n, GZIP_FEED_CHUNK; lia).
    destruct (gz_feed _ g) as [g1 [[]|e]] eqn:Hf; [|done].
    assert (Hg1 : gzip_at g1 (fed ++ to_index (consumed0 + n) input) (base ++ to_index produced0 output)).
    { rewrite to_index_more, app_assoc. destruct Hg as [Ha Hg]. split; [by eapply gz_at_feed|].
      destruct (gz_at_output _ _ _ Ha) as [_ Hle]. destruct (inflate_more (fed ++ to_index consumed0 input) (to_index n (from_index consumed0 input))) as [more ->].
      by rewrite take_app_le. }
    destruct (drain_at output produced0 g1) as [[g2 output2] produced2] eqn:Hd.
    destruct (drain_at_spec base output produced0 g1 g2 output2 produced2 _ (from_index (consumed0 + n) input) Hp Hg1 Hd) as (H1 & H2 & H3 & H4 & H5).
    pose proof (gz_left_feed g _ (from_index (consumed0 + n) input) g1 Hf) as Hleft.
    assert (Hsplit : to_index n (from_index consumed0 input) ++ from_index (consumed0 + n) input = from_index consumed0 input).
    { unfold to_index, from_index. rewrite N2Nat.inj_add, <- drop_drop. apply take_drop. }
    rewrite Hsplit in Hleft.
    destruct (is_empty (gz_output g2)) eqn:He; cbn [negb] in Hl.
    + assert (Ho2 : gz_output g2 = []) by (by destruct (gz_output g2)).
      destruct (IH output2 (consumed0 + n) produced2 g2) as [[L1 L2 L3 L4 L5 L6 L7] _]; try done; [lia | unfold blen in *; lia|].
      split; [|lia]. split; try done; unfold blen in *; lia.
    + injection Hl as <- <- <-. split; [|cbn; lia]. split; cbn; try done; try lia. intros _. apply H4. by destruct (gz_output g2).
Qed.

Lemma gzip_flushed g given fed : gzip_at g fed given -> given = inflate fed -> gz_output g = [].
Proof. intros Hg%gzip_output ->. apply (app_inv_head (inflate fed)). by rewrite app_nil_r. Qed.

Lemma drain_at_nothing output g : gz_output g = [] -> drain_at output 0 g = (g, output, 0).
Proof. intros Hz. unfold drain_at, drain_into. rewrite Hz. change (blen (A := byte) []) with 0. by rewrite N.min_0_l. Qed.

#[export] Instance gzip_stream : Stream (GzipDecompressor G) inflate (fun d input => (length input + gz_left (gzip_decoder d) input)%nat).
Proof.
  refine {| at_ := fun d => gzip_at (gzip_decoder d) |}.
  - intros d input output d' output' s fed given Hg Hd. cbn [decompress GzipDecompressor_decompressor] in Hd. unfold gzip_decompress in Hd.
    destruct (drain_at output 0 (gzip_decoder d)) as [[g1 output1] produced1] eqn:Hdr.
    assert (Hg0 : gzip_at (gzip_decoder d) fed (given ++ to_index 0 output)) by (unfold to_index; by rewrite take_0, app_nil_r).
    destruct (drain_at_spec given output 0 _ _ _ _ _ input (N.le_0_l _) Hg0 Hdr) as (H1 & H2 & H3 & H4 & H5).
    rewrite N.sub_0_r in H5.
    assert (H3' : gzip_at g1 (fed ++ to_index 0 input) (given ++ to_index produced1 output1)) by (unfold to_index at 1; by rewrite take_0, app_nil_r).
    destruct (is_empty (gz_output g1)) eqn:He; cbn [negb] in Hd.
    + assert (Ho1 : gz_output g1 = []) by (by destruct (gz_output g1)).
      destruct (gzip_loop _ _ _ _ _ _) as [[g2 output2] r] eqn:Hl. injection Hd as <- <- ->.
      destruct (gzip_loop_spec fed given (length input) input output1 0 produced1 g1 g2 output2 s) as [[L1 L2 L3 L4 L5 L6 L7] Hmore]; try done;
        [lia | unfold blen in *; lia|]. unfold from_index at 2 in L7. rewrite drop_0 in L7.
      split; cbn [gzip_decoder]; try done; try (unfold blen in *; lia).
      * unfold from_index at 1. rewrite length_drop. unfold blen in *. lia.
      * intros Hx. specialize (L5 Hx). pose proof (gzip_output _ _ _ L4) as Hy. by rewrite L5, app_nil_r in Hy.
      * intros Hgiven Hi Hot. assert (Hp1 : produced1 = 0).
        { rewrite (drain_at_nothing _ _ (gzip_flushed _ _ _ Hg Hgiven)) in Hdr. by injection Hdr as _ _ <-. }
        destruct input as [|b input]; [done|]. destruct output as [|o output]; [done|].
        enough (0 < consumed s) by lia. apply Hmore; [done | unfold blen; cbn; lia|]. unfold blen in *. rewrite H1. cbn. lia.
    + assert (Hx : gz_output g1 <> []) by (by destruct (gz_output g1)). injection Hd as <- <- <-.
      split; cbn [gzip_decoder consumed produced is_output_full]; try done; try lia.
      * unfold from_index. rewrite drop_0. lia.
      * intros _. by apply H4.
      * intros Hgiven. exfalso. apply Hx.
        pose proof (gzip_flushed _ _ _ Hg Hgiven) as Hz. rewrite (drain_at_nothing _ _ Hz) in Hdr. by injection Hdr as <- _ _.
  - intros d fed given Hg. exists (gz_output (gzip_decoder d)). symmetry. by apply gzip_output.
  - intros d output fed given Hg. cbn [decompress GzipDecompressor_decompressor]. unfold gzip_decompress.
    destruct (drain_at output 0 _) as [[g1 o1] p1]. by destruct (is_empty _).
Defined.
End Gzip.
End DecompressorFacts.
