(* ===== verification/Client.v ===== *)
(** * The client ([examples/http11_client/src/])

    [url.rs], [transport.rs] and the request of [main.rs]: one request, one
    response, read with the streaming interface and decompressed on the way.
    The times that the client logs are not part of the model. *)
From S2P Require Import Prelude RustStd RustStr Errors Validate Head Message Buffer BodyDecoder Compression DecoderCore ResponseDecoder Encoder.
From S2P Require Import Io Decompressors.

Module Client.
Export Decompressors.

Abbreviation Rs := (ResponseDecoder NoCompression).

Definition READ_CHUNK : N := 8192.
Definition DECOMPRESS_OUTPUT_CAP : N := 8192.

(** ** The URL *)

(** The text of the error of [parse::<u16>] is not modelled. *)
Definition invalid_port : BoxedError := Text (B "invalid port").

(** Scheme, host, port and path. *)
Definition parse_url (url : str) : result BoxedError (str * str * N * str) :=
  '(scheme, rest) ←
    match strip_prefix (B "https://") url with
    | Some rest => Ok (B "https", rest)
    | None =>
        match strip_prefix (B "http://") url with
        | Some rest => Ok (B "http", rest)
        | None => Err (Text (B "URL must start with http:// or https://"))
        end
    end;
  let '(host_port, path) :=
    match find_byte "/" rest with
    | Some i => (take i rest, drop i rest)
    | None => (rest, B "/")
    end in
  '(host, port) ←
    match find_byte ":" host_port with
    | Some i => port ← ok_or invalid_port (parse_u16 (drop (S i) host_port)); Ok (take i host_port, port)
    | None => Ok (host_port, if scheme =s B "https" then 443 else 80)
    end;
  Ok (scheme, host, port, path).

(** The request of [main]. *)
Definition client_request (host path : str) : result BoxedError (Request.t * bytes) :=
  map_err Encoding
    (request ← Request.new (B "GET") path;
     request ← Request.add_header (B "Host") host request;
     request ← Request.add_header (B "User-Agent") (B "shiguredo_http11/0.1.0") request;
     request ← Request.add_header (B "Accept") (B "*/*") request;
     request ← Request.add_header (B "Connection") (B "close") request;
     request ← (if negb (is_empty supported_encodings) then Request.add_header (B "Accept-Encoding") supported_encodings request
                else Ok request);
     bytes ← encode_request request;
     Ok (request, bytes)).

(** ** The text that [main] prints of a body *)

(** [is_char_boundary]: not in the middle of a character. *)
Definition is_char_boundary (text : str) (index : nat) : bool :=
  (index =? 0)%nat || (index =? length text)%nat ||
  match text !! index with Some b => negb (is_cont b) | None => false end.

(** [while !text.is_char_boundary(end) { end -= 1 }]. *)
Fixpoint boundary_before (text : str) (end_ : nat) : nat :=
  if is_char_boundary text end_ then end_
  else match end_ with O => O | S e => boundary_before text e end.

(** [print_response]: nothing is printed for what is not text. *)
Definition printed_body (body : bytes) : option str :=
  if utf8_valid body then
    Some (if 1000 <? blen body then take (boundary_before body 1000) body ++ B "..." ++ [LF] else body ++ [LF])
  else None.

Section Client.
Context {G BS ZD : Type} `{GzipDecoder G, BrotliStream BS, ZstdDecoder ZD}.

Abbreviation Any := (AnyDecompressor G BS ZD).

(** ** Decompressing *)

(** The decompressor, the buffer for its output and the body, which grows. *)
Record Inflating := { decompressor : Any; output_buf : bytes; body : bytes }.

Definition with_body (b : bytes) (s : Inflating) : Inflating :=
  {| decompressor := decompressor s; output_buf := output_buf s; body := b |}.

(** [decompressor.decompress(input, output_buf)?]. *)
Definition run_decompressor (input : bytes) : st Inflating BoxedError CompressionStatus := fun s =>
  let '(d, out, r) := decompress (decompressor s) input (output_buf s) in
  ({| decompressor := d; output_buf := out; body := body s |}, map_err (fun e => Throw (Decompressing e)) r).

(** [body.extend_from_slice(&output_buf[..produced])], which panics when there are not so many. *)
Definition take_output (produced : N) : st Inflating BoxedError unit :=
  if 0 <? produced then
    s ← get;
    data ← unwrap (if produced <=? blen (output_buf s) then Some (to_index produced (output_buf s)) else None);
    modify (with_body (body s ++ data))
  else mret tt.

(** A round of [decompress_chunk]; with the state go [remaining] and [total_consumed]. *)
Definition chunk_round : st (Inflating * (bytes * N)) BoxedError (flow N) := fun '(s, (remaining, total)) =>
  let '(s', r) :=
    (status ← run_decompressor remaining;
     _ ← take_output (produced status);
     rest ← unwrap (if consumed status <=? blen remaining then Some (from_index (consumed status) remaining) else None);
     mret (status, rest)) s in
  match r with
  | Err e => ((s', (remaining, total)), Err e)
  | Ok (status, rest) =>
      let total := total + consumed status in
      ((s', (rest, total)),
       Ok (if is_complete status then Break total
           else if (consumed status =? 0) && (produced status =? 0) then Break total
           else if negb (is_output_full status) && is_empty rest then Break total
           else Continue))
  end.

Definition decompress_chunk (input : bytes) : st Inflating BoxedError N := fun s =>
  let '((s', _), r) := loop (S (any_work (decompressor s) input)) chunk_round (s, (input, 0)) in (s', r).

Definition drain_round : st Inflating BoxedError (flow unit) :=
  status ← run_decompressor [];
  _ ← take_output (produced status);
  mret (if is_complete status then Break tt else if produced status =? 0 then Break tt else Continue).

Definition drain_decompressor : st Inflating BoxedError unit := fun s =>
  loop (S (any_work (decompressor s) [])) drain_round s.

(** ** A response *)

(** [ResponseSession] without its times; the buffer for the output is a local of the caller. *)
Record Session := {
  decoder : Rs;
  inflating : Inflating;
  head : option ResponseHead.t;
  body_kind : option BodyKind;
  encoding_label : str
}.

Definition session_new (request_method : str) : Session := {|
  decoder := set_request_method request_method (rs_new NoCompression_new DecoderLimits_default);
  inflating := {| decompressor := ANone NoCompression_new;
                  output_buf := replicate (N.to_nat DECOMPRESS_OUTPUT_CAP) "000"%byte; body := [] |};
  head := None; body_kind := None; encoding_label := []
|}.

Definition set_decoder (d : Rs) (s : Session) : Session :=
  {| decoder := d; inflating := inflating s; head := head s; body_kind := body_kind s; encoding_label := encoding_label s |}.
Definition set_inflating (i : Inflating) (s : Session) : Session :=
  {| decoder := decoder s; inflating := i; head := head s; body_kind := body_kind s; encoding_label := encoding_label s |}.

Definition on_decoder {A} (m : st Rs Error.t A) : st Session BoxedError A := on_part decoder set_decoder Decoding m.
Definition on_inflating {A} (m : st Inflating BoxedError A) : st Session BoxedError A := on_part inflating set_inflating id m.

(** The first Content-Encoding. *)
Definition content_encoding (h : ResponseHead.t) : str :=
  match List.find (fun f => eq_ignore_ascii_case (fst f) (B "Content-Encoding")) (ResponseHead.headers h) with
  | Some f => snd f
  | None => []
  end.

Definition try_decode_headers : st Session BoxedError bool :=
  s ← get;
  match head s with
  | Some _ => mret true
  | None =>
      r ← on_decoder rs_decode_headers;
      match r with
      | None => mret false
      | Some (h, k) =>
          let encoding := content_encoding h in
          d ← lift (map_err Decompressing (for_encoding encoding));
          _ ← modify (fun s => {| decoder := decoder s;
                 inflating := {| decompressor := d; output_buf := output_buf (inflating s); body := body (inflating s) |};
                 head := Some h; body_kind := Some k; encoding_label := encoding |});
          mret true
      end
  end.

(** [body_done]; the kind has to be there. *)
Definition body_done : st Session BoxedError bool :=
  s ← get;
  k ← unwrap (body_kind s);
  mret (match k with KNone | KTunnel => true | _ => false end).

(** [BodyProgress::Complete]. *)
Definition body_complete : st Session BoxedError (flow bool) :=
  _ ← on_inflating drain_decompressor; mret (Break true).

Definition pump_progress : st Session BoxedError (flow bool) :=
  p ← on_decoder rs_progress;
  match p with
  | ProgressComplete _ => body_complete
  | Advanced => mret Continue
  | NeedData => mret (Break false)
  end.

(** A round of [pump_body]. *)
Definition pump_round : st Session BoxedError (flow bool) :=
  s ← get;
  match rs_peek_body (decoder s) with
  | Some data =>
      total_consumed ← on_inflating (decompress_chunk data);
      if 0 <? total_consumed then
        p ← on_decoder (rs_consume_body total_consumed);
        match p with
        | ProgressComplete _ => body_complete
        | Advanced | NeedData => mret Continue
        end
      else pump_progress
  | None => pump_progress
  end.

Definition pump_body : st Session BoxedError bool := fun s =>
  loop (S (length (rs_remaining (decoder s)))) pump_round s.

(** [finish]: the response of the head with the body. *)
Fixpoint add_headers (hs : list (str * str)) (r : Response.t) : result EncodeError.t Response.t :=
  match hs with
  | [] => Ok r
  | (name, value) :: hs => r ← Response.add_header name value r; add_headers hs r
  end.

Definition session_finish (s : Session) : result BoxedError Response.t :=
  h ← ok_or (Text (B "no response head")) (head s);
  k ← ok_or (Text (B "no body kind")) (body_kind s);
  response ← map_err Encoding (Response.with_version (ResponseHead.version h) (ResponseHead.status_code h) (ResponseHead.reason_phrase h));
  response ← map_err Encoding (add_headers (ResponseHead.headers h) response);
  Ok (match k with KNone | KTunnel => response | _ => Response.set_body (body (inflating s)) response end).

(** ** The exchange *)

Record Exchange := { session : Session; socket : Socket }.

Definition on_session {A} (m : st Session BoxedError A) : st Exchange BoxedError A :=
  on_part session (fun s e => {| session := s; socket := socket e |}) id m.

Definition with_receiver (p : Rs * Socket) (e : Exchange) : Exchange :=
  {| session := set_decoder (fst p) (session e); socket := snd p |}.

(** The read of [http_request]: the number of bytes, [None] for none yet. *)
Definition http_read : st Exchange BoxedError (option N) := fun e =>
  let want := wanted READ_CHUNK (decoder (session e)) in
  if want =? 0 then throw (Text (B "decoder buffer full")) e
  else
    (o ← on_part (fun e => (decoder (session e), socket e)) with_receiver Decoding (receive read want);
     match o with Got data => mret (Some (blen data)) | _ => throw IoFailed end) e.

(** The read of [https_request], on a connection that may have nothing yet. *)
Definition https_read : st Exchange BoxedError (option N) := fun e =>
  let want := wanted READ_CHUNK (decoder (session e)) in
  if want =? 0 then throw (Text (B "decoder buffer full")) e
  else
    (o ← on_part (fun e => (decoder (session e), socket e)) with_receiver Decoding (receive read_timeout want);
     match o with Got data => mret (Some (blen data)) | TimedOut => mret None | Failed => throw IoFailed end) e.

(** What is done with the bytes that were read; [n] is their number. *)
Definition handle_bytes (n : N) : st Exchange BoxedError (flow unit) :=
  _ ← on_session (modify (fun s => if n =? 0 then set_decoder (mark_eof (decoder s)) s else s));
  have_head ← on_session try_decode_headers;
  if (have_head : bool) then
    done ← on_session body_done;
    if (done : bool) then mret (Break tt)
    else
      complete ← on_session pump_body;
      if (complete : bool) then mret (Break tt)
      else if n =? 0 then
        e ← get;
        match body_kind (session e) with
        | Some KCloseDelimited => mret Continue
        | _ => throw (Text (B "Connection closed before response complete"))
        end
      else mret Continue
  else if n =? 0 then throw (Text (B "Connection closed before headers complete"))
  else mret Continue.

Definition exchange_round (reading : st Exchange BoxedError (option N)) : st Exchange BoxedError (flow unit) :=
  n ← reading;
  match n with
  | Some n => handle_bytes n
  | None => mret Continue
  end.

Context {wire : Wire}.

(** [http_request] and [https_request] from the connection on. *)
Definition request_with (reading : st Exchange BoxedError (option N)) (request_method : str) (request_bytes : bytes) (connection : Socket) :
    Exchange * result (exn BoxedError) Response.t :=
  let e := {| session := session_new request_method; socket := connection |} in
  (_ ← on_part socket (fun k e => {| session := session e; socket := k |}) id (write_all request_bytes);
   _ ← (fun e => loop (S (S (inbox_size (socket e)))) (exchange_round reading) e);
   e ← get;
   lift (session_finish (session e))) e.

Definition http_request := request_with http_read.
Definition https_request := request_with https_read.
End Client.
End Client.
