(* ===== verification/ClientSession.v ===== *)
(** * The response that the client returns

    The client takes the body with the streaming interface, in whatever parts its
    decompressor accepts, and returns what the body that [decode] collects
    decompresses to.  This is for responses without coding and with gzip: the
    decompressors of both are [Stream]s. *)
From S2P Require Import Prelude RustStd RustStr Errors Validate Head Message Buffer BodyDecoder BodyFacts Compression.
From S2P Require Import DecoderCore CoreFacts CoreApi HeadFacts Stream ResponseDecoder ResponseFacts ResponseTheorems.
From S2P Require Import Encoder EncoderFacts Io Streaming ReverseProxy ProxyResponse Decompressors Client.

Module ClientSession.
Import ProxyResponse.ProxyResponse Client DecompressorFacts.

Section Client.
Context {G BS ZD : Type} {gzip_dec : GzipDecoder G} {brotli_dec : BrotliStream BS} {zstd_dec : ZstdDecoder ZD}.
Context {inflate : bytes -> bytes} `{!GzipLaws (G := G) inflate}.

Abbreviation Any := (AnyDecompressor G BS ZD).
Abbreviation Inflating := (Inflating (G := G) (BS := BS) (ZD := ZD)).
Abbreviation Session := (Session (G := G) (BS := BS) (ZD := ZD)).
Abbreviation Exchange := (Exchange (G := G) (BS := BS) (ZD := ZD)).

(** ** The decompressor of the client *)

(** What is read through [d] decompresses to. *)
Definition any_whole (d : Any) : bytes -> bytes :=
  match d with AGzip _ => inflate | _ => fun fed => fed end.

Definition any_at (whole : bytes -> bytes) (d : Any) (fed given : bytes) : Prop :=
  match d with
  | ANone d => whole = (fun fed => fed) /\ at_ d fed given
  | AGzip d => whole = inflate /\ at_ d fed given
  | _ => False
  end.

#[export] Instance any_stream whole : Stream Any whole any_work.
Proof.
  refine {| at_ := any_at whole |}.
  - intros d input output d' output' s fed given Hd Hc. cbn [decompress AnyDecompressor_decompressor] in Hc. unfold any_decompress in Hc.
    destruct d as [d|d| |]; [| |done|done]; destruct Hd as [-> Hd];
      destruct (decompress d input output) as [[d1 o1] r1] eqn:He; injection Hc as <- <- ->;
      destruct (stream_call _ _ _ _ _ _ _ _ Hd He) as [C1 C2 C3 C4 C5 C6 C7 C8]; by split.
  - intros d fed given Hd. destruct d as [d|d| |]; [| |done|done]; destruct Hd as [-> Hd]; exact (stream_prefix _ _ _ Hd).
  - intros d output fed given Hd. cbn [decompress AnyDecompressor_decompressor]. unfold any_decompress.
    destruct d as [d|d| |]; [| |done|done]; destruct Hd as [-> Hd]; pose proof (stream_empty d output _ _ Hd) as He;
      by destruct (decompress d [] output) as [[d1 o1] r1].
Defined.

(** ** Decompressing *)

Section Inflate.
Context (whole : bytes -> bytes).
Implicit Types i : Inflating.

(** All that [fed] decompresses to is in the body. *)
Record drained (fed : bytes) i : Prop := {
  fl_at : at_ (whole := whole) (work := any_work) (decompressor i) fed (body i);
  fl_whole : body i = whole fed;
  fl_room : output_buf i <> []
}.

(** A call of the decompressor, and its output. *)
Lemma call_spec i input fed :
  at_ (whole := whole) (work := any_work) (decompressor i) fed (body i) ->
  match run_decompressor input i with
  | (i1, Ok s) => call_ok (at_ (whole := whole) (work := any_work)) whole any_work (decompressor i) (decompressor i1) fed (body i) input (output_buf i) (output_buf i1) s /\
      take_output (produced s) i1 = (with_body (body i ++ to_index (produced s) (output_buf i1)) i1, Ok tt)
  | (_, Err x) => orderly (Err (A := unit) x)
  end.
Proof.
  intros Ha. unfold run_decompressor. destruct (decompress (decompressor i) input (output_buf i)) as [[d o] [s|e]] eqn:Hd; [|done].
  cbn [map_err]. pose proof (stream_call _ _ _ _ _ _ _ _ Ha Hd) as Hc. split; [exact Hc|].
  unfold take_output. destruct (0 <? produced s) eqn:E.
  - unfold mbind, st_bind, get, unwrap, modify. cbn [output_buf body]. rewrite (proj2 (N.leb_le _ _)); [done|].
    pose proof (call_produced _ _ _ _ _ _ _ _ _ _ _ Hc) as Hp. pose proof (call_length _ _ _ _ _ _ _ _ _ _ _ Hc) as Hl. unfold blen in *. lia.
  - assert (produced s = 0) as -> by lia. unfold to_index. by rewrite take_0, app_nil_r.
Qed.

Lemma call_room i i1 input fed s :
  call_ok (at_ (whole := whole) (work := any_work)) whole any_work (decompressor i) (decompressor i1) fed (body i) input (output_buf i) (output_buf i1) s ->
  output_buf i <> [] -> output_buf i1 <> [].
Proof. intros Hc Ho Hn. apply Ho. pose proof (call_length _ _ _ _ _ _ _ _ _ _ _ Hc) as Hl. rewrite Hn in Hl. by destruct (output_buf i). Qed.
Lemma chunk_loop fuel i fed rem total :
  (any_work (decompressor i) rem < fuel)%nat ->
  at_ (whole := whole) (work := any_work) (decompressor i) fed (body i) -> output_buf i <> [] ->
  0 < total \/ body i = whole fed /\ rem <> [] ->
  match loop fuel chunk_round (i, (rem, total)) with
  | ((i', _), Ok t) => exists n, n <= blen rem /\ t = total + n /\ 0 < t /\ drained (fed ++ to_index n rem) i'
  | (_, Err x) => orderly (Err (A := unit) x)
  end.
Proof.
  revert i fed rem total. induction fuel as [|fuel IH]; intros i fed rem total Hw Ha Ho Hp; [lia|]. cbn [loop].
  unfold chunk_round at 1, mbind, st_bind. pose proof (call_spec i rem fed Ha) as Hc.
  destruct (run_decompressor rem i) as [i1 [s|x]]; [|by destruct x]. destruct Hc as [Hc Ht]. rewrite Ht. unfold unwrap.
  pose proof Hc as [C1 C2 C3 C4 C5 C6 C7 C8]. rewrite (proj2 (N.leb_le _ _) C2). cbn [mret st_ret].
  assert (Hpos : 0 < total + consumed s) by (destruct Hp as [?|[Hb Hr]]; [lia|]; specialize (C8 Hb Hr Ho); lia).
  set (i2 := with_body (body i ++ to_index (produced s) (output_buf i1)) i1).
  assert (Ho2 : output_buf i2 <> []) by (by eapply call_room).
  assert (Hdone : is_output_full s = false ->
    exists n, n <= blen rem /\ total + consumed s = total + n /\ 0 < total + consumed s /\ drained (fed ++ to_index n rem) i2).
  { intros Hf. exists (consumed s). split_and!; [done..|]. split; [exact C4 | by apply C6 | done]. }
  assert (Hmove : consumed s <> 0 \/ produced s <> 0 ->
    match loop fuel chunk_round (i2, (from_index (consumed s) rem, total + consumed s)) with
    | ((i', _), Ok t) => exists n, n <= blen rem /\ t = total + n /\ 0 < t /\ drained (fed ++ to_index n rem) i'
    | (_, Err x) => orderly (Err (A := unit) x)
    end).
  { intros Hm. specialize (C5 Hm). specialize (IH i2 (fed ++ to_index (consumed s) rem) (from_index (consumed s) rem) (total + consumed s)).
    destruct (loop fuel _ _) as [[i' p] [t|x]].
    - destruct IH as (n & H1 & H2 & H3 & H4); [cbn; lia | exact C4 | done | by left|]. exists (consumed s + n).
      rewrite to_index_more, app_assoc. unfold from_index, blen in H1. rewrite length_drop in H1. split_and!; try done; unfold blen in *; lia.
    - apply IH; [cbn; lia | exact C4 | done | by left]. }
  destruct s as [cn pn|cn pn|cn pn]; cbn [is_complete is_output_full consumed produced negb andb] in *.
  - destruct ((cn =? 0) && (pn =? 0)) eqn:E; [by apply Hdone|].
    destruct (is_empty (from_index cn rem)); [by apply Hdone|]. apply Hmove. lia.
  - by apply Hdone.
  - specialize (C7 eq_refl). assert (pn <> 0) by (destruct (output_buf i); [done|]; unfold blen in C7; cbn in C7; lia).
    rewrite (proj2 (N.eqb_neq pn 0)), andb_false_r by done. apply Hmove. by right.
Qed.

(** Some of the data is taken, and all that comes of it is in the body. *)
Lemma decompress_chunk_spec i fed data :
  drained fed i -> data <> [] ->
  match decompress_chunk data i with
  | (i', Ok n) => 0 < n <= blen data /\ drained (fed ++ to_index n data) i'
  | (_, Err x) => orderly (Err (A := unit) x)
  end.
Proof.
  intros [Ha Hb Ho] Hd. unfold decompress_chunk.
  pose proof (chunk_loop (S (any_work (decompressor i) data)) i fed data 0 (Nat.lt_succ_diag_r _) Ha Ho (or_intror (conj Hb Hd))) as Hl.
  destruct (loop _ _ _) as [[i' p] [t|x]]; [|exact Hl]. destruct Hl as (n & H1 & -> & H2 & H3). rewrite N.add_0_l in *. by split.
Qed.

(** At the end there is nothing left to come out. *)
Lemma drain_decompressor_spec i fed :
  drained fed i ->
  exists i', drain_decompressor i = (i', Ok tt) /\ drained fed i'.
Proof.
  intros [Ha Hb Ho]. unfold drain_decompressor. cbn [loop]. unfold drain_round at 1, mbind, st_bind. pose proof (call_spec i [] fed Ha) as Hc.
  pose proof (stream_empty (decompressor i) (output_buf i) fed (body i) Ha) as Hok.
  unfold run_decompressor in *. destruct (decompress (decompressor i) [] (output_buf i)) as [[d o] [s|e]]; [|done]. cbn [map_err] in *.
  destruct Hc as [[C1 C2 C3 C4 C5 C6 C7 C8] Ht]. rewrite Ht. cbn [output_buf body decompressor] in *.
  assert (Hin : to_index (consumed s) [] = []) by apply take_nil. rewrite Hin, app_nil_r in C4.
  assert (Hout : to_index (produced s) o = []).
  { pose proof (stream_prefix _ _ _ C4) as [more Hm]. rewrite <- Hb in Hm. rewrite <- app_assoc in Hm.
    symmetry in Hm. rewrite <- (app_nil_r (body i)) in Hm at 2. apply app_inv_head, app_eq_nil in Hm. apply Hm. }
  assert (Hp : produced s = 0).
  { apply (f_equal length) in Hout. unfold to_index in Hout. rewrite length_take in Hout. unfold blen in *. cbn in Hout. lia. }
  rewrite Hout, app_nil_r, Hp in *. cbn [mret st_ret]. rewrite N.eqb_refl.
  eexists. split; [by destruct (is_complete s)|]. split; [exact C4 | done |]. cbn. intros ->. by destruct (output_buf i).
Qed.
End Inflate.

(** ** A body with an end of its own *)

Abbreviation core s := (rs_core (decoder s)).
Abbreviation goes_on b k c := (body_loop (dressed b (Some k) c)).

Definition same_head (s s' : Session) : Prop := head s' = head s /\ body_kind s' = body_kind s.

Lemma consume_quiet n (c : Core NoCompression) :
  core_inv status_line_ok c -> quiet c -> quiet (fst (core_consume_body n c)).
Proof.
  intros Hi Hq. pose proof (core_consume_body_shrinks status_line_ok n c Hi) as Hle.
  destruct (core_consume_body_keeps status_line_ok n c Hi) as (_ & _ & Hl & _). destruct Hq as [Hp Hb].
  assert (Hpe : c_pending (fst (core_consume_body n c)) = c_pending c).
  { unfold core_consume_body, on_body. destruct (n =? 0); [done|]. by destruct (consume_body _ _ _). }
  split; [by rewrite Hpe|]. rewrite Hl. unfold core_buffered, blen in *. lia.
Qed.

Lemma progress_quiet (c : Core NoCompression) :
  core_inv status_line_ok c -> quiet c -> quiet (fst (core_progress c)).
Proof.
  intros Hi Hq. pose proof (on_body_shrinks status_line_ok 0 c Hi) as Hle.
  destruct (core_progress_keeps status_line_ok c Hi) as (_ & _ & Hl & _). destruct Hq as [Hp Hb].
  assert (Hpe : c_pending (fst (core_progress c)) = c_pending c) by (unfold core_progress, on_body; by destruct (consume_body _ _ _)).
  split; [by rewrite Hpe|]. rewrite Hl. unfold core_progress, core_buffered, blen in *. lia.
Qed.

Section Body.
Context (whole : bytes -> bytes).
Implicit Types s : Session.

Record streaming (fed : bytes) s : Prop := {
  sm_drained : drained whole fed (inflating s);
  sm_loop : loop_inv status_line_ok (core s);
  sm_quiet : quiet (core s)
}.

(** A method of the decoder is a method of its core. *)
Lemma on_decoder_core {A} (m : st (Core NoCompression) Error.t A) s :
  on_decoder (on_core m) s = let '(c', r) := m (core s) in (set_decoder (put_core c' (decoder s)) s, boxed Decoding r).
Proof. unfold on_decoder, on_part, on_core. cbn [core_of rs_core_of]. by destruct (m (core s)). Qed.

(** Where a round ends, as the loop of [decode] sees it. *)
Definition round_post (k : BodyKind) (fed : bytes) s (o : Session * result (exn BoxedError) (flow bool)) : Prop :=
  match o with
  | (s', Ok Continue) => exists fed', goes_on fed k (core s) = goes_on fed' k (core s') /\ streaming fed' s' /\
      (core_buffered (core s') < core_buffered (core s))%nat /\ same_head s s'
  | (s', Ok (Break false)) => goes_on fed k (core s) = (dressed fed (Some k) (core s'), Ok false) /\ streaming fed s' /\ same_head s s'
  | (s', Ok (Break true)) => exists fed' c', goes_on fed k (core s) = (c', Ok true) /\ c_decoded_body c' = fed' /\
      drained whole fed' (inflating s') /\ same_head s s'
  | (_, Err x) => orderly (Err (A := unit) x)
  end.

(** [Complete]: the decompressor has nothing left. *)
Lemma body_complete_spec k fed fed' s s1 c' :
  goes_on fed k (core s) = (dressed fed' (Some k) c', Ok true) -> drained whole fed' (inflating s1) -> same_head s s1 ->
  round_post k fed s (body_complete s1).
Proof.
  intros Hg Hf Hh. unfold body_complete, mbind, st_bind, on_inflating, on_part.
  destruct (drain_decompressor_spec whole (inflating s1) fed' Hf) as (i' & -> & Hf'). cbn. exists fed', (dressed fed' (Some k) c'). by split_and!.
Qed.

Lemma pump_progress_spec k fed s :
  streaming fed s -> core_peek_body (core s) = None -> round_post k fed s (pump_progress s).
Proof.
  intros [Hf Hi Hq] Hp. unfold pump_progress, mbind, st_bind, rs_progress. rewrite on_decoder_core.
  pose proof (progress_any status_line_ok (core s) fed k Hi Hp) as Hs. pose proof (progress_quiet _ (proj1 Hi) Hq) as Hq'.
  destruct (core_progress (core s)) as [c' [[| |ts]|e]]; cbn [boxed fst] in *.
  - destruct Hs as (H1 & H2 & H3). exists fed. split_and!; try done.
  - destruct Hs as (H1 & H2). split_and!; try done.
  - by apply (body_complete_spec k fed fed s _ c').
  - by destruct e.
Qed.

Lemma pump_round_spec k fed s : streaming fed s -> round_post k fed s (pump_round s).
Proof.
  intros Hs. pose proof Hs as [Hf Hi Hq]. unfold pump_round, mbind at 1, st_bind at 1, get. unfold rs_peek_body.
  destruct (core_peek_body (core s)) as [data|] eqn:Hp; [|by apply pump_progress_spec].
  assert (Hd : data <> []) by (pose proof (peek_body_phase (body_state (core s)) data Hp) as [Hd _]; intros ->; by cbn in Hd).
  unfold mbind at 1, st_bind at 1, on_inflating at 1, on_part.
  pose proof (decompress_chunk_spec whole (inflating s) fed data Hf Hd) as Hc.
  destruct (decompress_chunk data (inflating s)) as [i1 [n|x]]; cbn [boxed]; [|by destruct x]. destruct Hc as [Hn Hf1].
  rewrite (proj2 (N.ltb_lt 0 n)) by lia. unfold mbind, st_bind, rs_consume_body. rewrite on_decoder_core. cbn [decoder set_inflating].
  pose proof (consume_any status_line_ok (core s) data n fed k Hi Hp ltac:(lia) ltac:(lia)) as Hg. pose proof (consume_quiet n _ (proj1 Hi) Hq) as Hq'.
  destruct (core_consume_body n (core s)) as [c' [[| |ts]|e]]; cbn [boxed fst] in *.
  - destruct Hg as (H1 & H2 & H3). exists (fed ++ to_index n data). by split_and!.
  - destruct Hg as (H1 & H2 & H3). exists (fed ++ to_index n data). by split_and!.
  - by apply (body_complete_spec k fed (fed ++ to_index n data) s _ c').
  - by destruct e.
Qed.

(** A batch: the body is complete, or needs more. *)
Lemma pump_body_spec k fed s :
  streaming fed s ->
  match pump_body s with
  | (s', Ok false) => exists fed' c', goes_on fed k (core s) = (c', Ok false) /\ c' = dressed fed' (Some k) (core s') /\
      streaming fed' s' /\ same_head s s'
  | (s', Ok true) => exists c', goes_on fed k (core s) = (c', Ok true) /\ drained whole (c_decoded_body c') (inflating s') /\ same_head s s'
  | (_, Err x) => orderly (Err (A := unit) x)
  end.
Proof.
  unfold pump_body, rs_remaining, core_remaining. change (length (c_buf (core s))) with (core_buffered (core s)).
  assert (Hlt : (core_buffered (core s) < S (core_buffered (core s)))%nat) by apply Nat.lt_succ_diag_r. revert Hlt.
  generalize (S (core_buffered (core s))) as fuel. intros fuel. revert s fed. induction fuel as [|fuel IH]; intros s fed Hlt Hs; [lia|].
  cbn [loop]. pose proof (pump_round_spec k fed s Hs) as Hr. unfold round_post in Hr.
  destruct (pump_round s) as [s1 [[|[|]]|x]].
  - destruct Hr as (fed1 & H1 & H2 & H3 & [H4 H5]). specialize (IH s1 fed1 ltac:(lia) H2). destruct (loop fuel _ s1) as [s2 [[|]|x]]; [..|done].
    + destruct IH as (c' & J1 & J2 & [J3 J4]). exists c'. split_and!; [by rewrite H1 | done | split; congruence].
    + destruct IH as (fed' & c' & J1 & J2 & J3 & [J4 J5]). exists fed', c'. split_and!; [by rewrite H1 | done | done | split; congruence].
  - destruct Hr as (fed' & c' & H1 & <- & H3 & H4). by exists c'.
  - destruct Hr as (H1 & H2 & H3). by exists fed, (dressed fed (Some k) (core s1)).
  - done.
Qed.

(** ** A body that ends with the connection *)

Record closing (fed : bytes) s : Prop := {
  cl_drained : drained whole fed (inflating s);
  cl_core : core_inv status_line_ok (core s);
  cl_phase : c_phase (core s) = BodyCloseDelimited;
  cl_quiet : quiet (core s)
}.

Lemma close_consume n (c : Core NoCompression) :
  c_phase c = BodyCloseDelimited -> 0 < n -> n <= blen (c_buf c) ->
  match core_consume_body n c with
  | (c', Ok p) => p = Advanced /\ c_buf c' = drop (N.to_nat n) (c_buf c) /\ c_phase c' = BodyCloseDelimited
  | (_, Err e) => orderly (Err (A := unit) e)
  end.
Proof.
  intros Hp H0 Hn. unfold core_consume_body, on_body. rewrite (proj2 (N.eqb_neq n 0)) by lia. rewrite consume_close_eq by done. cbn [b_buf b_self].
  rewrite (proj2 (N.ltb_ge _ _) Hn), (proj2 (N.eqb_neq n 0)) by lia. destruct (checked_add _ _) as [m|]; [|done]. by destruct (max_body_size _ <? m).
Qed.

Lemma close_waits (c : Core NoCompression) : c_phase c = BodyCloseDelimited -> core_progress c = (c, Ok NeedData).
Proof.
  intros Hp. unfold core_progress, on_body, consume_body. cbn [b_phase b_buf b_self]. rewrite Hp.
  rewrite (proj2 (N.ltb_ge _ _)) by apply N.le_0_l. cbn. rewrite <- Hp. by destruct c.
Qed.

Lemma close_pump_round_spec fed s :
  closing fed s ->
  match pump_round s with
  | (s', Ok Continue) => exists n, 0 < n /\ n <= blen (c_buf (core s)) /\ closing (fed ++ to_index n (c_buf (core s))) s' /\
      c_buf (core s') = drop (N.to_nat n) (c_buf (core s)) /\ same_head s s'
  | (s', Ok (Break b)) => b = false /\ c_buf (core s) = [] /\ closing fed s' /\ c_buf (core s') = [] /\ same_head s s'
  | (_, Err x) => orderly (Err (A := unit) x)
  end.
Proof.
  intros [Hf Hc Hp Hq]. unfold pump_round, mbind at 1, st_bind at 1, get. unfold rs_peek_body, core_peek_body. rewrite Hp, peek_body_close.
  destruct (is_empty (c_buf (core s))) eqn:He.
  - assert (Hb : c_buf (core s) = []) by (by destruct (c_buf (core s))).
    unfold pump_progress, mbind, st_bind, rs_progress. rewrite on_decoder_core.
    rewrite (close_waits _ Hp). cbn [boxed mret st_ret]. split_and!; try done.
  - assert (Hne : c_buf (core s) <> []) by (by intros Hx; rewrite Hx in He).
    unfold mbind at 1, st_bind at 1, on_inflating at 1, on_part.
    pose proof (decompress_chunk_spec whole (inflating s) fed _ Hf Hne) as Hd.
    destruct (decompress_chunk _ (inflating s)) as [i1 [n|x]]; cbn [boxed]; [|by destruct x]. destruct Hd as [Hn Hf1].
    rewrite (proj2 (N.ltb_lt 0 n)) by lia. unfold mbind, st_bind, rs_consume_body. rewrite on_decoder_core. cbn [decoder set_inflating].
    pose proof (close_consume n (core s) Hp ltac:(lia) ltac:(lia)) as Hg. pose proof (consume_quiet n _ Hc Hq) as Hq'.
    destruct (core_consume_body_keeps status_line_ok n _ Hc) as (Hc' & _).
    destruct (core_consume_body n (core s)) as [c' [p|e]]; cbn [boxed fst] in *; [|by destruct e].
    destruct Hg as (-> & Hb & Hp'). exists n. split_and!; try done; lia.
Qed.

(** All that is there is decompressed. *)
Lemma close_body_spec fed s :
  closing fed s ->
  match pump_body s with
  | (s', Ok b) => b = false /\ closing (fed ++ c_buf (core s)) s' /\ c_buf (core s') = [] /\ same_head s s'
  | (_, Err x) => orderly (Err (A := unit) x)
  end.
Proof.
  unfold pump_body, rs_remaining, core_remaining.
  assert (Hlt : (length (c_buf (core s)) < S (length (c_buf (core s))))%nat) by apply Nat.lt_succ_diag_r. revert Hlt.
  generalize (S (length (c_buf (core s)))) as fuel. intros fuel. revert s fed. induction fuel as [|fuel IH]; intros s fed Hlt Hs; [lia|].
  cbn [loop]. pose proof (close_pump_round_spec fed s Hs) as Hr. destruct (pump_round s) as [s1 [[|b]|x]]; [| |done].
  - destruct Hr as (n & H1 & H2 & H3 & H4 & [H5 H6]). specialize (IH s1 (fed ++ to_index n (c_buf (core s)))).
    rewrite H4, length_drop in IH. unfold blen in H2. destruct (loop fuel _ s1) as [s2 [b|x]]; [|apply IH; [lia | done]].
    destruct IH as (J1 & J2 & J3 & [J4 J5]); [lia | done|]. rewrite <- app_assoc in J2. unfold to_index in J2. rewrite take_drop in J2.
    split_and!; [done..|split; congruence].
  - destruct Hr as (-> & H2 & H3 & H4 & H5). by rewrite H2, app_nil_r.
Qed.

(** At the end of the stream. *)
Lemma closed_body_spec fed s :
  drained whole fed (inflating s) -> c_phase (core s) = Complete ->
  exists s', pump_body s = (s', Ok true) /\ drained whole fed (inflating s') /\ same_head s s'.
Proof.
  intros Hf Hp. unfold pump_body. cbn [loop]. unfold pump_round, mbind at 1, st_bind at 1, get. unfold rs_peek_body, core_peek_body, peek_body, peek_len. rewrite Hp.
  unfold pump_progress, mbind, st_bind, rs_progress. rewrite on_decoder_core.
  assert (Hpr : exists c' ts, core_progress (core s) = (c', Ok (ProgressComplete ts))).
  { unfold core_progress, on_body, consume_body. cbn [b_phase b_buf b_self]. rewrite Hp. unfold complete_with_trailers. by do 2 eexists. }
  destruct Hpr as (c' & ts & ->). cbn [boxed]. unfold body_complete, mbind, st_bind, on_inflating, on_part. cbn [inflating set_decoder].
  destruct (drain_decompressor_spec whole (inflating s) fed Hf) as (i' & -> & Hf'). cbn. eexists. split; [done|]. by split.
Qed.
End Body.

(** ** Reading *)

(** No read finds nothing before the end of the stream. *)
Definition no_gaps (c : Socket) : Prop := Forall (fun a => a <> Arrived []) (inbox c).

(** What is behind a socket after [y] was read from it. *)
Record received (y : bytes) (c c' : Socket) : Prop := {
  rc_bytes : to_come c = y ++ to_come c';
  rc_written : written c' = written c;
  rc_gaps : no_gaps c -> no_gaps c'
}.

(** A read of either kind. *)
Record reads (want : N) (c c' : Socket) (o : read_outcome) : Prop := {
  rd_received : received (match o with Got data => data | _ => [] end) c c';
  rd_bound : match o with Got data => blen data <= want | _ => True end;
  rd_size : match o with Got [] => no_gaps c -> inbox c' = [] | _ => (inbox_size c' < inbox_size c)%nat end
}.

Lemma read_timeout_reads want c c' o : 0 < want -> read_timeout want c = (c', o) -> reads want c c' o.
Proof.
  intros Hw Hr. pose proof (read_timeout_to_come _ _ _ _ Hr) as Ht. pose proof (read_timeout_written _ _ _ _ Hr) as [Hwr _].
  pose proof (read_timeout_size want c c') as Hs. pose proof (read_bound want c c') as Hb.
  assert (Hg : no_gaps c -> no_gaps c' /\ (o = Got [] -> inbox c' = [])).
  { unfold no_gaps. unfold read_timeout in Hr. destruct (inbox c) as [|[data| |] rest] eqn:Hi.
    - injection Hr as <- <-. by rewrite Hi.
    - intros [Hd Hf]%Forall_cons_iff. destruct (blen data <=? want) eqn:E; injection Hr as <- <-; cbn.
      + split; [done|]. intros [= ->]. done.
      + split.
        * constructor; [|done]. intros [= Hx]. apply (f_equal length) in Hx. rewrite length_drop in Hx. unfold blen in *. cbn in Hx. lia.
        * intros [= Hx]. apply (f_equal length) in Hx. rewrite length_take in Hx. unfold blen in *. cbn in Hx. lia.
    - intros [_ Hf]%Forall_cons_iff. injection Hr as <- <-. by split.
    - intros [_ Hf]%Forall_cons_iff. injection Hr as <- <-. by split. }
  assert (Hsz : match o with Got [] => no_gaps c -> inbox c' = [] | _ => (inbox_size c' < inbox_size c)%nat end).
  { destruct o as [[|b data]| |]; [intros Hn; by apply Hg|by apply (Hs _ Hw Hr)|..].
    all: unfold read_timeout in Hr; unfold inbox_size; destruct (inbox c) as [|[d| |] rest]; [done|destruct (_ <=? _)|..];
      try done; injection Hr as <-; cbn; lia. }
  split; [|destruct o; [by eapply Hb | done..]|done].
  split; [exact Ht|exact Hwr|apply Hg].
Qed.

Lemma read_reads want c c' o : 0 < want -> read want c = (c', o) -> reads want c c' o.
Proof.
  intros Hw Hr. pose proof (read_to_come _ _ _ _ Hr) as Ht. pose proof (skip_silence_size (inbox c)) as Hs.
  assert (Hg : no_gaps c -> no_gaps (with_inbox (skip_silence (inbox c)) c)).
  { unfold no_gaps. cbn. clear. induction (inbox c) as [|[] i IH]; try done. intros [_ Hf]%Forall_cons_iff. by apply IH. }
  destruct (read_timeout_reads _ _ _ _ Hw Hr) as [[_ H2 H3] H4 H5]. split; [|done|].
  - split; [done..|]. intros Hn. by apply H3, Hg.
  - unfold inbox_size in *. cbn [inbox with_inbox] in *. destruct o as [[|b data]| |]; [intros Hn; by apply H5, Hg|lia..].
Qed.

(** What a read does to the exchange. *)
Definition read_ok (reading : st Exchange BoxedError (option N)) : Prop := forall e : Exchange,
  limits_ok (c_limits (core (session e))) -> quiet (core (session e)) ->
  match reading e with
  | (e', Ok n) => exists y, session e' = set_decoder (rs_extend y (decoder (session e))) (session e) /\
      quiet (core (session e')) /\ received y (socket e) (socket e') /\
      match n with
      | Some n => n = blen y /\ (if n =? 0 then no_gaps (socket e) -> inbox (socket e') = [] else (inbox_size (socket e') < inbox_size (socket e))%nat)
      | None => y = [] /\ (inbox_size (socket e') < inbox_size (socket e))%nat
      end
  | (_, Err x) => orderly (Err (A := unit) x)
  end.

Lemma receive_reads reader (e : Exchange) :
  (forall want c c' o, 0 < want -> reader want c = (c', o) -> reads want c c' o) ->
  limits_ok (c_limits (core (session e))) -> quiet (core (session e)) ->
  let want := wanted READ_CHUNK (decoder (session e)) in 0 < want ->
  exists c' o, reads want (socket e) c' o /\
    receive reader want (decoder (session e), socket e) =
      ((rs_extend (match o with Got data => data | _ => [] end) (decoder (session e)), c'), Ok o) /\
    quiet (core_extend (match o with Got data => data | _ => [] end) (core (session e))).
Proof.
  intros Hr Hl Hq want Hw. assert (Hle : want <= core_available_buf (core (session e))) by (apply N.le_min_l).
  pose proof (receive_extends reader want (decoder (session e)) (socket e) Hl (proj1 Hq) Hle (proj2 Hq)) as He.
  specialize (Hr want (socket e)). destruct (reader want (socket e)) as [c' o]. specialize (Hr c' o Hw eq_refl). exists c', o.
  pose proof Hr as [_ Hb _]. split_and!; [done| |].
  - apply He. by intros data s' [= <- ->].
  - apply quiet_extend; [done|]. destruct o as [data| |]; [lia|apply N.le_0_l..].
Qed.

Lemma http_read_ok : read_ok http_read.
Proof.
  intros e Hl Hq. unfold http_read. destruct (wanted READ_CHUNK (decoder (session e)) =? 0) eqn:E; [done|].
  destruct (receive_reads read e read_reads Hl Hq)  as (c' & o & [H1 H2 H3] & He & Hq'); [lia|].
  unfold mbind, st_bind, on_part. rewrite He. cbn [boxed]. destruct o as [data| |]; [|done|done]. exists data. cbn.
  split_and!; [done..|]. by destruct data.
Qed.

Lemma https_read_ok : read_ok https_read.
Proof.
  intros e Hl Hq. unfold https_read. destruct (wanted READ_CHUNK (decoder (session e)) =? 0) eqn:E; [done|].
  destruct (receive_reads read_timeout e read_timeout_reads Hl Hq) as (c' & o & [H1 H2 H3] & He & Hq'); [lia|].
  unfold mbind, st_bind, on_part. rewrite He. cbn [boxed]. destruct o as [data| |]; [|done|].
  - exists data. cbn. split_and!; [done..|]. by destruct data.
  - by exists [].
Qed.

(** ** A response *)

Abbreviation limits := DecoderLimits_default.

(** [Content-Encoding] names no coding, gzip, or one that is refused. *)
Definition gzip_or_none (h : ResponseHead.t) : bool :=
  match for_encoding (G := G) (BS := BS) (ZD := ZD) (content_encoding h) with
  | Ok (ABrotli _) | Ok (AZstd _) => false
  | _ => true
  end.

(** The body that the bytes [data ++ more] carry, of which [data] ends in the head. *)
Definition carried (method : str) (data more : bytes) (d1 : Rs) (h : ResponseHead.t) (k : BodyKind) (raw : option bytes) : Prop :=
  match k with
  | KCloseDelimited => raw = Some (c_buf (rs_core d1) ++ more)
  | KTunnel => raw = None
  | _ => exists d2, rs_decode (response_decoder limits method (data ++ more)) = (d2, Ok (Some (upstream_message h raw)))
  end.

Section Exchange.
Context (method : str).
Implicit Types s : Session.
Implicit Types e : Exchange.

Lemma default_limits_ok : limits_ok limits.
Proof. unfold limits_ok. vm_compute. repeat split; discriminate. Qed.

(** The head in [data], as the session has it. *)
Record headed (data : bytes) (d1 : Rs) (h : ResponseHead.t) (k : BodyKind) (d : Any) s : Prop := {
  hd_decoded : rs_decode_headers (response_decoder limits method data) = (d1, Ok (Some (h, k)));
  hd_coding : for_encoding (content_encoding h) = Ok d;
  hd_head : head s = Some h;
  hd_kind : body_kind s = Some k
}.

Lemma same_headed data d1 h k d s s' : same_head s s' -> headed data d1 h k d s -> headed data d1 h k d s'.
Proof. intros [H1 H2] [? ? ? ?]. split; congruence. Qed.

(** The loop of [decode], on all that came behind the head, goes on from [c] with the body [fed]. *)
Definition gone_on (k : BodyKind) (more : bytes) (d1 : Rs) (fed : bytes) (c : Core NoCompression) : Prop :=
  forall z, goes_on [] k (core_extend (more ++ z) (rs_core d1)) = goes_on fed k (core_extend z c).

(** Where the body stands. *)
Definition body_at (more : bytes) (d1 : Rs) (k : BodyKind) (d : Any) s : Prop :=
  match k with
  | KContentLength _ | KChunked => exists fed, streaming (any_whole d) fed s /\ gone_on k more d1 fed (core s)
  | KCloseDelimited => exists fed, closing (any_whole d) fed s /\ c_buf (rs_core d1) ++ more = fed ++ c_buf (core s)
  | KNone | KTunnel => more = []
  end.

(** Before the head: [decode_headers] on what comes is [decode_headers] on all of it. *)
Record no_head (data : bytes) s : Prop := {
  nh_fields : head s = None /\ body_kind s = None /\ inflating s = inflating (session_new (G := G) (BS := BS) (ZD := ZD) method);
  nh_inv : rs_inv (decoder s);
  nh_phase : reading_head (core s);
  nh_none : exists d', rs_decode_headers (decoder s) = (d', Ok None);
  nh_decoder : forall y, rs_decode_headers (response_decoder limits method (data ++ y)) = rs_decode_headers (rs_extend y (decoder s))
}.

Inductive at_data (data : bytes) s : Prop :=
  | at_head (Hn : no_head data s) (Hq : quiet (core s))
  | at_body data0 more d1 h k d (Hh : headed data0 d1 h k d s) (Hd : data = data0 ++ more) (Hb : body_at more d1 k d s)
      (Hk : match k with KNone | KTunnel => False | KCloseDelimited => c_buf (core s) = [] | _ => True end).

Definition finished (data : bytes) (ended : bool) s : Prop := exists data0 more d1 h k d raw,
  headed data0 d1 h k d s /\ data = data0 ++ more /\ carried method data0 more d1 h k raw /\
  (k = KCloseDelimited -> ended = true) /\
  match k with KNone | KTunnel => raw = None | _ => option_map (any_whole d) raw = Some (body (inflating s)) end.

(** More arrives. *)
Lemma body_at_extend y more d1 k d s :
  match k with KNone | KTunnel => y = [] | _ => True end ->
  quiet (core_extend y (core s)) -> body_at more d1 k d s ->
  body_at (more ++ y) d1 k d (set_decoder (rs_extend y (decoder s)) s).
Proof.
  intros Hy Hq. assert (Hlen : (exists fed, streaming (any_whole d) fed s /\ gone_on k more d1 fed (core s)) ->
    exists fed, streaming (any_whole d) fed (set_decoder (rs_extend y (decoder s)) s) /\ gone_on k (more ++ y) d1 fed (core_extend y (core s))).
  { intros (fed & [Hf Hi Hq0] & Hg). exists fed. split; [split; [done|by apply loop_inv_extend|done]|].
    intros z. specialize (Hg (y ++ z)). rewrite app_assoc in Hg. rewrite Hg. unfold core_extend. cs. by rewrite app_assoc. }
  destruct k; cbn [body_at]; try exact Hlen.
  - intros (fed & [Hf Hi Hp Hq0] & Hb). exists fed. split; [split; [done|by apply core_extend_inv|done|done]|].
    change (c_buf (core (set_decoder (rs_extend y (decoder s)) s))) with (c_buf (core s) ++ y). by rewrite !app_assoc, Hb.
  - intros ->. by rewrite Hy.
  - intros ->. by rewrite Hy.
Qed.

Lemma no_head_start : no_head [] (session_new method).
Proof.
  split; [done| | |by eexists|done].
  - apply (response_decoder_inv limits method [] default_limits_ok).
  - by left.
Qed.

Lemma drained_at_start h d o :
  gzip_or_none h = true -> for_encoding (content_encoding h) = Ok d -> o <> [] ->
  drained (any_whole d) [] {| decompressor := d; output_buf := o; body := [] |}.
Proof.
  unfold gzip_or_none. intros Hs Hd Ho. rewrite Hd in Hs. revert Hd. unfold for_encoding.
  destruct (_ || _); [intros [= <-]; split; [split; done | done | done]|].
  destruct (_ || _); [intros [= <-]; split; [split; [done|split; [exact gz_at_new|done]] | symmetry; exact inflate_nil | done]|].
  destruct (_ =s _); [by intros [= <-]|]. destruct (_ =s _); [|done]. destruct ZstdDecompressor_new; [|done]. by intros [= <-].
Qed.

(** The head, once it is there. *)
Lemma head_spec y data s :
  no_head data s -> quiet (core_extend y (core s)) ->
  (forall d1 h k, rs_decode_headers (response_decoder limits method (data ++ y)) = (d1, Ok (Some (h, k))) -> gzip_or_none h = true) ->
  match try_decode_headers (set_decoder (rs_extend y (decoder s)) s) with
  | (s', Ok true) => y <> [] /\ exists d1 h k d, headed (data ++ y) d1 h k d s' /\ body_at [] d1 k d s'
  | (s', Ok false) => no_head (data ++ y) s' /\ quiet (core s')
  | (_, Err x) => orderly (Err (A := unit) x)
  end.
Proof.
  intros [(Hh & Hk & Hin) Hi Hp [d0 Hnone] Hdec] Hq Hcode. unfold try_decode_headers, mbind, st_bind, get. cbn [head set_decoder]. rewrite Hh.
  unfold on_decoder, on_part. cbn [decoder set_decoder]. apply (rs_extend_inv y) in Hi as Hiy.
  pose proof (rs_decode_headers_post _ Hiy) as Hpost. pose proof (rs_headers_quiet (rs_extend y (decoder s))) as Hq2.
  specialize (Hcode). rewrite (Hdec y) in Hcode.
  destruct (rs_decode_headers (rs_extend y (decoder s))) as [d1 [[[h k]|]|x]] eqn:Hr; cbn [boxed].
  - assert (Hy : y <> []) by (intros ->; by rewrite (res_nil _ _ _ response_resumable), Hnone in Hr).
    specialize (Hcode _ _ _ eq_refl). unfold lift. destruct (for_encoding (content_encoding h)) as [d|x] eqn:Hd; cbn [map_err]; [|done].
    unfold modify, mret, st_ret. split; [done|]. exists d1, h, k, d.
    assert (Hhd : rs_decode_headers (response_decoder limits method (data ++ y)) = (d1, Ok (Some (h, k)))) by (by rewrite Hdec).
    split; [by split|]. specialize (Hq2 _ _ Hiy Hq eq_refl). destruct (head_state _ _ _ _ _ _ default_limits_ok Hhd) as ([Hc1 _] & Hdc & Hb1 & _).
    assert (Hf : drained (any_whole d) [] {| decompressor := d; output_buf := output_buf (inflating s); body := body (inflating s) |}).
    { rewrite Hin. by apply (drained_at_start h). }
    pose proof (rd_phase _ _ _ Hdc) as Hph. destruct k as [n| | | |]; cbn [body_at]; [exists []..|done|done].
    + split; [split; [done| |done]|done]. split; [done|]. change (c_phase (rs_core d1) <> BodyCloseDelimited). rewrite Hph. cbn. by destruct (0 <? n).
    + split; [split; [done| |done]|done]. split; [done|]. change (c_phase (rs_core d1) <> BodyCloseDelimited). by rewrite Hph.
    + split; [by split|]. by rewrite app_nil_r.
  - destruct Hpost as (Hi1 & _ & _ & _ & Hph). split; [|by eapply Hq2]. destruct (res_dec _ _ _ response_resumable [] _ _ Hiy Hr) as [_ He].
    split; [done|done|exact Hph| |].
    + exists d1. cbn [decoder set_decoder]. rewrite !(res_nil _ _ _ response_resumable), Hr in He. by rewrite <- He.
    + intros z. rewrite <- app_assoc, Hdec, <- (res_extend _ _ _ response_resumable). cbn [decoder set_decoder].
      by destruct (res_dec _ _ _ response_resumable z _ _ Hiy Hr) as [_ ->].
  - destruct Hpost as (_ & Ho & _). by destruct x.
Qed.

(** [decode], once the body is complete. *)
Lemma decode_complete data0 more d1 h k d s c :
  headed data0 d1 h k d s -> match k with KContentLength _ | KChunked => True | _ => False end ->
  goes_on [] k (core_extend more (rs_core d1)) = (c, Ok true) ->
  carried method data0 more d1 h k (Some (c_decoded_body c)).
Proof.
  intros Hh Hk Hg. pose proof (decode_after_response_head limits method data0 more d1 h k default_limits_ok (hd_decoded _ _ _ _ _ _ Hh)) as Hd.
  destruct (head_state _ _ _ _ _ _ default_limits_ok (hd_decoded _ _ _ _ _ _ Hh)) as (_ & _ & Hb & _ & _). cbv zeta in Hd.
  assert (Hx : rs_core (with_head h k (rs_extend more d1)) = dressed [] (Some k) (core_extend more (rs_core d1))).
  { unfold with_head, rs_extend, extend_core, dressed. cbn. unfold core_extend. cs. rewrite <- Hb. by destruct (rs_core d1). }
  rewrite Hx in Hd. assert (Hl : rs_decode_body k = body_loop (D := NoCompression)) by (by destruct k).
  rewrite Hl, Hg in Hd. destruct k as [n| | | |]; try done; cbn [carried]; eexists; exact Hd.
Qed.

(** The pump on a body with an end of its own. *)
Lemma length_body_spec data0 more d1 h k d s b :
  headed data0 d1 h k d s -> match k with KContentLength _ | KChunked => True | _ => False end -> body_at more d1 k d s ->
  match pump_body s with
  | (s', Ok true) => finished (data0 ++ more) b s'
  | (s', Ok false) => at_data (data0 ++ more) s' /\ body_kind s' = Some k
  | (_, Err x) => orderly (Err (A := unit) x)
  end.
Proof.
  intros Hh Hk Hb. assert (Hb' : exists fed, streaming (any_whole d) fed s /\ gone_on k more d1 fed (core s)) by (by destruct k).
  assert (Hback : forall s', (exists fed, streaming (any_whole d) fed s' /\ gone_on k more d1 fed (core s')) -> body_at more d1 k d s') by (by destruct k).
  destruct Hb' as (fed & Hs & Hg). pose proof (pump_body_spec (any_whole d) k fed s Hs) as Hp.
  assert (Hg0 : goes_on [] k (core_extend more (rs_core d1)) = goes_on fed k (core s)).
  { specialize (Hg []). rewrite app_nil_r in Hg. rewrite Hg. f_equal. unfold core_extend. rewrite app_nil_r. by destruct (core s). }
  destruct (pump_body s) as [s' [[]|x]]; [| |done].
  - destruct Hp as (c & Hc & [Hf1 Hf2 _] & Hsh). exists data0, more, d1, h, k, d, (Some (c_decoded_body c)).
    split_and!; [by eapply same_headed|done| |by destruct k|].
    + eapply decode_complete; [done..|]. by rewrite Hg0.
    + cbn [option_map]. rewrite <- Hf2. by destruct k.
  - destruct Hp as (fed' & c & Hc & -> & Hs' & Hsh).
    split; [|by rewrite (proj2 Hsh), (hd_kind _ _ _ _ _ _ Hh)]. eapply (at_body _ _ data0 more); [by eapply same_headed|done| |by destruct k].
    apply Hback. exists fed'. split; [done|]. intros z. rewrite (Hg z).
    pose proof (body_loop_ext status_line_ok z _ _ _ (dressed_inv status_line_ok fed (Some k) _ (sm_loop _ _ _ Hs)) Hc) as [_ He]. exact He.
Qed.

(** ... and on one that ends with the connection. *)
Lemma close_pump_spec data0 more d1 h d s :
  headed data0 d1 h KCloseDelimited d s -> body_at more d1 KCloseDelimited d s ->
  match pump_body s with
  | (s', Ok b) => b = false /\ at_data (data0 ++ more) s'
  | (_, Err x) => orderly (Err (A := unit) x)
  end.
Proof.
  intros Hh (fed & Hc & Hb). pose proof (close_body_spec _ fed s Hc) as Hp. destruct (pump_body s) as [s' [b|x]]; [|done].
  destruct Hp as (-> & Hc' & Hn & Hsh). split; [done|]. eapply (at_body _ _ data0 more); [by eapply same_headed|done| |done].
  exists (fed ++ c_buf (core s)). split; [done|]. by rewrite Hn, app_nil_r, Hb.
Qed.

(** At the end of the stream the body is complete. *)
Lemma ended_body_spec data0 more d1 h d s :
  headed data0 d1 h KCloseDelimited d s -> body_at more d1 KCloseDelimited d s -> c_buf (core s) = [] ->
  exists s', pump_body (set_decoder (mark_eof (decoder s)) s) = (s', Ok true) /\ finished (data0 ++ more) true s'.
Proof.
  intros Hh (fed & [Hf Hc Hp Hq] & Hb) Hn. set (s1 := set_decoder _ s).
  destruct (closed_body_spec (any_whole d) fed s1) as (s' & -> & [H1 H2 _] & Hsh).
  { exact Hf. }
  { unfold s1. cbn [decoder set_decoder]. unfold mark_eof. by rewrite Hp. }
  change (same_head s s') in Hsh. exists s'. split; [done|]. exists data0, more, d1, h, KCloseDelimited, d, (Some fed). rewrite Hn, app_nil_r in Hb.
  split_and!; [by eapply same_headed|done| |done|by rewrite H2]. cbn. by rewrite Hb.
Qed.

(** ** A round *)

(** What is known of the codings: [all] is what arrives. *)
Context (all : bytes) (Hcode : forall data d1 h k, data `prefix_of` all ->
  rs_decode_headers (response_decoder limits method data) = (d1, Ok (Some (h, k))) -> gzip_or_none h = true).

(** After a read of [n] bytes. *)
Definition round_end (data : bytes) (n : N) (c : Socket) (o : Exchange * result (exn BoxedError) (flow unit)) : Prop :=
  match o with
  | (e', Ok Continue) => n <> 0 /\ socket e' = c /\ at_data data (session e')
  | (e', Ok (Break _)) => socket e' = c /\ finished data (n =? 0) (session e')
  | (_, Err x) => orderly (Err (A := unit) x)
  end.

Definition at_eof (n : N) s : Session := if n =? 0 then set_decoder (mark_eof (decoder s)) s else s.

(** From the head on. *)
Definition handle_body (n : N) : st Exchange BoxedError (flow unit) :=
  done ← on_session body_done;
  if (done : bool) then mret (Break tt)
  else
    complete ← on_session pump_body;
    if (complete : bool) then mret (Break tt)
    else if n =? 0 then
      e ← get;
      match body_kind (session e) with
      | Some KCloseDelimited => mret Continue
      | _ => throw (Text (B "Connection closed before response complete"))
      end
    else mret Continue.

Lemma handle_bytes_eq n e :
  handle_bytes n e =
    match try_decode_headers (at_eof n (session e)) with
    | (s, Ok true) => handle_body n {| session := s; socket := socket e |}
    | (s, Ok false) =>
        ({| session := s; socket := socket e |},
         if n =? 0 then Err (Throw (Text (B "Connection closed before headers complete"))) else Ok Continue)
    | (s, Err x) => ({| session := s; socket := socket e |}, Err x)
    end.
Proof.
  unfold handle_bytes. unfold mbind at 1, st_bind at 1, on_session at 1, on_part, modify. cbn [boxed session socket].
  fold (at_eof n (session e)). unfold mbind at 1, st_bind at 1, on_session at 1, on_part. cbn [session socket].
  destruct (try_decode_headers (at_eof n (session e))) as [s [[]|x]]; cbn [boxed]; [done| |by destruct x]. by destruct (n =? 0).
Qed.

Lemma handle_body_spec data0 more d1 h k d n e :
  headed data0 d1 h k d (session e) -> body_at more d1 k d (session e) -> (k = KCloseDelimited -> n <> 0) ->
  round_end (data0 ++ more) n (socket e) (handle_body n e).
Proof.
  intros Hh Hb Hn. unfold handle_body, mbind at 1, st_bind at 1, on_session at 1, on_part.
  assert (Hbd : body_done (session e) = (session e, Ok (match k with KNone | KTunnel => true | _ => false end))).
  { unfold body_done, mbind, st_bind, get, unwrap. by rewrite (hd_kind _ _ _ _ _ _ Hh). }
  rewrite Hbd. cbn [boxed].
  assert (Hnone : match k with KNone | KTunnel => True | _ => False end -> finished (data0 ++ more) (n =? 0) (session e)).
  { intros Hk. exists data0, more, d1, h, k, d, None. split_and!; [done..| |by destruct k|by destruct k].
    destruct k; try done. cbn in Hb. subst more. eexists.
    rewrite (decode_after_response_head limits method data0 [] d1 h KNone default_limits_ok (hd_decoded _ _ _ _ _ _ Hh)). reflexivity. }
  destruct k as [len| | | |].
  1,2: pose proof (length_body_spec data0 more d1 h _ d (session e) (n =? 0) Hh I Hb) as Hp.
  3: pose proof (close_pump_spec data0 more d1 h d (session e) Hh Hb) as Hp.
  4,5: by (split; [|apply Hnone]).
  all: unfold mbind, st_bind, on_session, on_part; cbn [session socket].
  all: destruct (pump_body (session e)) as [s [b|x]]; cbn [boxed]; [|by destruct x].
  1,2: destruct b; [by split|]; destruct Hp as [Hp Hk]; destruct (n =? 0) eqn:E; [unfold get; cbn; by rewrite Hk|];
    split_and!; [lia|done|done].
  destruct Hp as [-> Hp]. specialize (Hn eq_refl). rewrite (proj2 (N.eqb_neq n 0)) by done. by split_and!.
Qed.

Lemma at_data_ok data s : at_data data s -> core_inv status_line_ok (core s) /\ quiet (core s).
Proof.
  intros [[_ [Hi _] _ _ _] Hq | data0 more d1 h k d _ _ Hb Hk]; [done|].
  destruct k; try done; cbn in Hb; destruct Hb as (fed & Hs & _); by destruct Hs as [? [? ?] ?] || by destruct Hs.
Qed.

Lemma mark_eof_open (d : Rs) : c_phase (rs_core d) <> BodyCloseDelimited -> mark_eof d = d.
Proof. unfold mark_eof. by destruct (c_phase (rs_core d)). Qed.

Lemma at_eof_open n s : c_phase (core s) <> BodyCloseDelimited -> at_eof n s = s.
Proof. intros Hp. unfold at_eof. rewrite (mark_eof_open _ Hp). destruct (n =? 0); by destruct s. Qed.

Lemma try_headed data0 d1 h k d s : headed data0 d1 h k d s -> try_decode_headers s = (s, Ok true).
Proof. intros Hh. unfold try_decode_headers, mbind, st_bind, get. by rewrite (hd_head _ _ _ _ _ _ Hh). Qed.

Lemma session_extend_nil s : set_decoder (rs_extend [] (decoder s)) s = s.
Proof. rewrite (res_nil _ _ _ response_resumable). by destruct s. Qed.

(** The bytes that were read are handled. *)
Lemma handle_bytes_spec data y s c :
  at_data data s -> quiet (core_extend y (core s)) -> (data ++ y) `prefix_of` all ->
  round_end (data ++ y) (blen y) c (handle_bytes (blen y) {| session := set_decoder (rs_extend y (decoder s)) s; socket := c |}).
Proof.
  intros Hs Hq Ha. rewrite handle_bytes_eq. cbn [session socket]. destruct Hs as [Hn _ | data0 more d1 h k d Hh -> Hb Hk].
  - rewrite at_eof_open.
    2: { destruct (nh_phase _ _ Hn) as [Hp|Hp]; change (c_phase (core s) <> BodyCloseDelimited); by rewrite Hp. }
    pose proof (head_spec y data s Hn Hq (fun d1 h k => Hcode (data ++ y) d1 h k Ha)) as Hh.
    destruct (try_decode_headers _) as [s' [[]|x]]; [| |done].
    + destruct Hh as (Hy & d1 & h & k & d & Hh & Hb). rewrite <- (app_nil_r (data ++ y)).
      apply (handle_body_spec _ _ d1 h k d _ {| session := s'; socket := c |} Hh Hb). intros _. by destruct y.
    + destruct (blen y =? 0) eqn:E; [done|]. split_and!; [lia|done|]. destruct Hh. by apply at_head.
  - rewrite <- app_assoc. set (s1 := set_decoder _ s). assert (Hh1 : headed data0 d1 h k d s1) by (by destruct Hh).
    assert (Hb1 : body_at (more ++ y) d1 k d s1) by (apply body_at_extend; by destruct k).
    assert (Hcase : k = KCloseDelimited /\ y = [] \/ (k = KCloseDelimited -> y <> [])) by (destruct k, y; auto).
    destruct Hcase as [[-> ->]|Hne].
    + unfold s1. rewrite session_extend_nil. change (at_eof (blen []) s) with (set_decoder (mark_eof (decoder s)) s).
      destruct (ended_body_spec data0 more d1 h d s Hh Hb Hk) as (s' & Hp & Hf).
      assert (Hh2 : headed data0 d1 h KCloseDelimited d (set_decoder (mark_eof (decoder s)) s)) by (by destruct Hh).
      rewrite (try_headed _ _ _ _ _ _ Hh2), app_nil_r. unfold handle_body, mbind, st_bind, on_session, on_part. cbn [session].
      unfold body_done, mbind, st_bind, get, unwrap. cbn [body_kind set_decoder]. rewrite (hd_kind _ _ _ _ _ _ Hh). cbn [mret st_ret boxed session].
      rewrite Hp. by split.
    + assert (He : at_eof (blen y) s1 = s1).
      { destruct (decide (y = [])) as [->|Hy]; [|unfold at_eof; by destruct y]. apply at_eof_open.
        destruct k; try done; [destruct Hb1 as (fed & [_ [_ ?] _] & _); done..|by destruct Hne]. }
      rewrite He, (try_headed _ _ _ _ _ _ Hh1).
      apply (handle_body_spec data0 (more ++ y) d1 h k d _ {| session := s1; socket := c |} Hh1 Hb1).
      intros Hx. specialize (Hne Hx). by destruct y.
Qed.

(** What has been read of the connection, and what is still to come. *)
Record along (start : Socket) (data : bytes) (c : Socket) : Prop := {
  al_bytes : to_come start = data ++ to_come c;
  al_written : written c = written start;
  al_gaps : no_gaps start -> no_gaps c
}.

Lemma along_received start data c y c' : along start data c -> received y c c' -> along start (data ++ y) c'.
Proof. intros [H1 H2 H3] [R1 R2 R3]. split; [by rewrite H1, R1, app_assoc|congruence|auto]. Qed.

Lemma exchange_loop reading start fuel e data :
  read_ok reading -> to_come start = all -> along start data (socket e) -> at_data data (session e) -> (inbox_size (socket e) < fuel)%nat ->
  match loop fuel (exchange_round reading) e with
  | (e', Ok _) => exists data' n, along start data' (socket e') /\ finished data' (n =? 0) (session e') /\
      (n = 0 -> no_gaps start -> inbox (socket e') = [])
  | (_, Err x) => orderly (Err (A := unit) x)
  end.
Proof.
  intros Hr Hall. revert e data. induction fuel as [|fuel IH]; intros e data Hal Hd Hf; [lia|]. cbn [loop].
  unfold exchange_round at 1, mbind, st_bind. destruct (at_data_ok _ _ Hd) as [Hc Hq].
  specialize (Hr e (inv_limits _ _ Hc) Hq). destruct (reading e) as [e1 [n|x]]; [|done].
  destruct Hr as (y & Hs & Hq1 & Hrec & Hn). destruct e1 as [s1 c1]. cbn [session socket] in *. subst s1.
  pose proof (along_received _ _ _ _ _ Hal Hrec) as Hal1. destruct n as [n|].
  - destruct Hn as [-> Hlt]. pose proof (handle_bytes_spec data y (session e) c1 Hd Hq1) as Hh.
    assert (Hpre : (data ++ y) `prefix_of` all) by (rewrite <- Hall; by exists (to_come c1); apply Hal1). specialize (Hh Hpre).
    destruct (handle_bytes _ _) as [e2 [[|u]|x]]; [| |done].
    + destruct Hh as (Hn & Hsock & Hd2). rewrite (proj2 (N.eqb_neq _ 0)) in Hlt by done.
      apply (IH e2 (data ++ y)); [by rewrite Hsock|done|rewrite Hsock; lia].
    + destruct Hh as [Hsock Hfin]. exists (data ++ y), (blen y). rewrite Hsock. split_and!; [done..|].
      intros H0 Hg. rewrite H0 in Hlt. apply Hlt. by apply Hal.
  - destruct Hn as [-> Hlt]. rewrite session_extend_nil. cbn [mret st_ret]. rewrite app_nil_r in Hal1.
    apply (IH {| session := session e; socket := c1 |} data); [done..|cbn; lia].
Qed.

(** ** The response that is returned *)

Lemma add_headers_Ok hs r r' : add_headers hs r = Ok r' -> r' = Response.with_headers (Response.headers r ++ hs) r.
Proof.
  revert r. induction hs as [|[name value] hs IH]; intros r.
  - intros [= <-]. destruct r. cbn. by rewrite app_nil_r.
  - cbn. unfold Response.add_header, mbind, result_bind. destruct (check_header name value); [|done].
    intros ->%IH. destruct r. cbn. by rewrite <- app_assoc.
Qed.

(** [finish]: the head that was received, with the body. *)
Lemma session_finish_Ok s r h k :
  head s = Some h -> body_kind s = Some k -> session_finish s = Ok r ->
  r = upstream_message h (match k with KNone | KTunnel => None | _ => Some (body (inflating s)) end).
Proof.
  intros Hh Hk. unfold session_finish. rewrite Hh, Hk. cbn [ok_or mbind result_bind].
  destruct (Response.with_version _ _ _) as [r0|] eqn:Hv; [|done]. cbn [map_err mbind result_bind].
  destruct (add_headers _ r0) as [r1|] eqn:Ha; [|done]. cbn [map_err mbind result_bind]. intros [= <-].
  apply add_headers_Ok in Ha as ->. unfold Response.with_version in Hv.
  destruct (negb (is_valid_protocol_version _)); [done|]. destruct (negb (is_valid_status_code _)); [done|].
  destruct (negb (is_valid_reason_phrase _)); [done|]. injection Hv as <-. by destruct k.
Qed.
End Exchange.

(** What the run on [connection] ends with. *)
Definition returned (method request : bytes) (connection : Socket) (o : Exchange * result (exn BoxedError) Response.t) : Prop :=
  match o with
  | (e', Ok response) => exists data more d1 h k d raw,
      to_come connection = data ++ more ++ to_come (socket e') /\ written (socket e') = written connection ++ request /\
      rs_decode_headers (response_decoder limits method data) = (d1, Ok (Some (h, k))) /\
      for_encoding (content_encoding h) = Ok d /\ carried method data more d1 h k raw /\
      (k = KCloseDelimited -> no_gaps connection -> inbox (socket e') = []) /\
      response = upstream_message h (option_map (any_whole d) raw)
  | (_, Err x) => orderly (Err (A := unit) x)
  end.

Definition decoded_head (method data : bytes) : option ResponseHead.t :=
  match rs_decode_headers (response_decoder limits method data) with
  | (_, Ok (Some (h, _))) => Some h
  | _ => None
  end.

(** A head is the same with what follows it. *)
Lemma decoded_head_more method data more d1 h k :
  rs_decode_headers (response_decoder limits method data) = (d1, Ok (Some (h, k))) -> decoded_head method (data ++ more) = Some h.
Proof.
  intros Hd. pose proof (rs_decode_headers_ext more _ _ _ (response_decoder_inv limits method data default_limits_ok) Hd) as He.
  unfold decoded_head. change (response_decoder limits method (data ++ more)) with (rs_extend more (response_decoder limits method data)).
  by rewrite He.
Qed.

Lemma request_with_spec {wire : Wire} reading method request connection :
  read_ok reading -> from_option gzip_or_none true (decoded_head method (to_come connection)) = true ->
  returned method request connection (request_with reading method request connection).
Proof.
  intros Hr Hc. unfold request_with. cbv zeta. unfold mbind at 1, st_bind at 1, on_part at 1, write_all. cbn [socket session].
  destruct (takes request connection); [done|]. cbn [boxed]. set (e := {| session := _; socket := wrote _ _ |}).
  assert (Hcode : forall data d1 h k, data `prefix_of` to_come connection ->
    rs_decode_headers (response_decoder limits method data) = (d1, Ok (Some (h, k))) -> gzip_or_none h = true).
  { intros data d1 h k [more Hm] Hd. by rewrite Hm, (decoded_head_more _ _ more _ _ _ Hd) in Hc. }
  assert (Hstart : at_data method [] (session e)) by (apply at_head; [apply no_head_start|done]).
  pose proof (exchange_loop method (to_come connection) Hcode reading (wrote request connection) (S (S (inbox_size (socket e)))) e []
    Hr eq_refl ltac:(by split) Hstart ltac:(lia)) as Hl.
  unfold mbind, st_bind, get, lift. destruct (loop _ _ e) as [e' [u|x]]; [|exact Hl].
  destruct Hl as (data & n & [Ha Hw Hg] & (data0 & more & d1 & h & k & d & raw & Hh & -> & Hcar & Hend & Hbody) & H0).
  destruct (session_finish (session e')) as [response|x] eqn:Hf; [|done]. cbn [map_err].
  apply (session_finish_Ok _ _ h k) in Hf; [|by destruct Hh..]. exists data0, more, d1, h, k, d, raw.
  split_and!; [by rewrite app_assoc|done|by destruct Hh..|done| |].
  - intros Hk. apply H0. by apply N.eqb_eq, Hend.
  - rewrite Hf. f_equal. destruct k; [..|by rewrite Hbody|by rewrite Hbody]; by rewrite Hbody.
Qed.

(** C25: The client returns the response that the library decodes.  For an http
    or an https connection, whatever the pieces the bytes arrive in and with
    whatever pauses, and a response without coding or with gzip: a run that
    succeeds has sent the request, and its response has the status line and the
    fields of the first head on the connection, and for a body what the body
    that [decode] returns for the same bytes decompresses to - for a body that
    ends with the connection, all the bytes behind the head, up to the end of the
    stream.  A run that fails, also by a failed write, ends with an error: the
    client does not panic, and its loops end.  Of the gzip decoder it is assumed that it gives out, in order,
    what its input inflates to. *)
Theorem client_reads_response {wire : Wire} run method request connection :
  run = http_request (G := G) (BS := BS) (ZD := ZD) \/ run = https_request (G := G) (BS := BS) (ZD := ZD) ->
  from_option gzip_or_none true (decoded_head method (to_come connection)) = true ->
  returned method request connection (run method request connection).
Proof. intros [-> | ->]; apply request_with_spec; [apply http_read_ok|apply https_read_ok]. Qed.
End Client.

(** ** Runs *)

(** A coding for examples: each byte stands for three of it. *)
Definition thrice (fed : bytes) : bytes := flat_map (fun b => [b; b; b]) fed.

Instance thrice_decoder : GzipDecoder bytes := {|
  gz_new := [];
  gz_feed := fun x g => (g ++ thrice x, Ok tt);
  gz_output := id;
  gz_advance := fun n g => from_index n g;
  gz_is_finished := is_empty;
  gz_left := fun g input => (length g + length (thrice input))%nat |}.

Instance thrice_laws : GzipLaws (G := bytes) thrice.
Proof.
  refine {| gz_at := fun (g : bytes) fed k => g = drop k (thrice fed) /\ (k <= length (thrice fed))%nat |}.
  - split; [done | apply le_0_n].
  - intros g f k x g' [-> Hk] [= <-]. unfold thrice in *. rewrite flat_map_app, length_app. split; [|lia]. by rewrite skipn_app, (proj2 (Nat.sub_0_le k _)).
  - intros g f k n [-> Hk] Hn. cbn [gz_advance gz_output thrice_decoder] in *. unfold from_index, id, blen in *. rewrite drop_drop. rewrite length_drop in Hn. split; [done|lia].
  - by intros g f k.
  - done.
  - intros f x. unfold thrice. rewrite flat_map_app. by eexists.
  - intros g input. cbn. unfold id. lia.
  - intros g n input Hn. cbn [gz_left gz_advance gz_output thrice_decoder] in *. unfold from_index, id, blen in *. rewrite length_drop. lia.
  - intros g x input g' [= <-]. cbn. unfold thrice. rewrite flat_map_app, !length_app. lia.
Qed.

Instance no_brotli : BrotliStream unit :=
  {| br_new := tt; br_stream := fun _ output total s => (s, (0, 0, output, total), ResultFailure); br_left := fun _ _ => O |}.
Instance no_zstd : ZstdDecoder unit :=
  {| zs_new := Err (B "none"); zs_run_on_buffers := fun _ output z => (z, output, Err (B "none")); zs_left := fun _ _ => O |}.

Definition arriving (i : list arrival) : Socket := {| inbox := i; written := []; flushed := 0 |}.
Definition get_it : bytes := B "GET / HTTP/1.1" ++ CRLF ++ B "Host: h" ++ CRLF ++ CRLF.

Definition coded_head : bytes :=
  B "HTTP/1.1 200 OK" ++ CRLF ++ B "Content-Encoding: gzip" ++ CRLF ++ B "Transfer-Encoding: chunked" ++ CRLF ++ CRLF.
Definition coded : list arrival :=
  [Arrived coded_head; Silence; Arrived (B "2" ++ CRLF ++ B "ab" ++ CRLF ++ B "1"); Arrived (CRLF ++ B "c" ++ CRLF ++ last_chunk ++ B "more")].

#[local] Existing Instance calm.
Abbreviation get_of i := (https_request (G := bytes) (BS := unit) (ZD := unit) (B "GET") get_it (arriving i)).

(** Chunks, cut and with a pause, and inflated. *)
Example coded_response :
  match get_of coded with
  | (e, Ok r) => Response.body r = Some (B "aaabbbccc") /\ written (socket e) = get_it
  | _ => False
  end.
Proof. vm_compute. by split. Qed.

(** A body that ends with the connection, which has a pause. *)
Example closed_response :
  match get_of [Arrived (B "HTTP/1.1 200 OK" ++ CRLF ++ CRLF ++ B "to the "); Silence; Arrived (B "end")] with
  | (_, Ok r) => Response.body r = Some (B "to the end")
  | _ => False
  end.
Proof. by vm_compute. Qed.

(** The end of the stream in a body of known length. *)
Example cut_response :
  snd (get_of [Arrived (B "HTTP/1.1 200 OK" ++ CRLF ++ B "Content-Length: 5" ++ CRLF ++ CRLF ++ B "abc")])
  = Err (Throw (Text (B "Connection closed before response complete"))).
Proof. by vm_compute. Qed.

(** A response with an empty reason phrase is decoded, and then refused. *)
Example empty_reason_refused :
  let bytes := B "HTTP/1.1 200 " ++ CRLF ++ B "Content-Length: 0" ++ CRLF ++ CRLF in
  snd (get_of [Arrived bytes]) = Err (Throw (Encoding (EncodeError.InvalidReasonPhrase []))) /\
  is_ok (snd (rs_decode (response_decoder DecoderLimits_default (B "GET") bytes))) = true.
Proof. by vm_compute. Qed.

(** An interim response is returned, and the final one is left unread. *)
Example interim_returned :
  match get_of [Arrived (B "HTTP/1.1 100 Continue" ++ CRLF ++ CRLF); Arrived (B "HTTP/1.1 200 OK" ++ CRLF ++ B "Content-Length: 0" ++ CRLF ++ CRLF)] with
  | (_, Ok r) => Response.status_code r = 100
  | _ => False
  end.
Proof. by vm_compute. Qed.

Lemma client_reads_response_witness :
  exists e' response, get_of coded = (e', Ok response) /\ returned (inflate := thrice) (B "GET") get_it (arriving coded) (e', Ok response).
Proof.
  pose proof (client_reads_response (inflate := thrice) (https_request (G := bytes) (BS := unit) (ZD := unit)) (B "GET") get_it (arriving coded)
    (or_intror eq_refl) ltac:(vm_compute; reflexivity)) as Hr.
  assert (Hok : is_ok (snd (get_of coded)) = true) by (vm_compute; reflexivity).
  destruct (get_of coded) as [e' [response|x]] eqn:E; [|discriminate Hok]. exists e', response. split; [reflexivity|exact Hr].
Defined.
End ClientSession.
